(* ===== verification/_CoqProject ===== *)
-Q . S2P
Prelude.v
JsMap.v
Buffers.v
Regex.v
DestructiveFloor.v
Authorization.v
Backlog.v
ReplyGuard.v
HandlerSession.v
HandlerRows.v
HandlerEngine.v
HandlerPass.v
HandlerFrame.v
HandlerItems.v
HandlerSteps.v
HandlerSafety.v
HandlerRuns.v
HandlerWaits.v
HandlerClosed.v
StreamRecords.v
BusDb.v
PairBudget.v
DeliveryQueue.v
WorkStatus.v
WorkInvariant.v
WorkDelivery.v
ClientIp.v
SocketAdmissions.v
RateLimiter.v
ReplayCache.v
Liveness.v
Wire.v
BusSeal.v
SeenStore.v
BusTransport.v
BusOnce.v
BusAccount.v
BusLink.v
BusStores.v
Coordinator.v
CoordinatorLedger.v
CoordinatorOutbox.v
CoordinatorPass.v
CoordinatorRuns.v
RelayAuth.v
Connections.v
License.v
JwksCache.v
PeerLease.v
BusQueue.v
ServerState.v
RelayServer.v
InternalRoutes.v
RelayFrames.v
RelayInvariant.v
RelayPreserves.v
RelayHandlers.v
RelayHandshake.v
RelayRoutes.v
Relay.v
RelaySafety.v
RelayStrangers.v
RelayTakeover.v
RelayMail.v
RelayRevoke.v
BillingDb.v
Billing.v
BillingReducer.v
BillingTeam.v
BillingSystem.v
BillingRuns.v
BillingContracts.v
BillingEndings.v
BillingMembers.v
BillingSeats.v
Devices.v
PeerAuthority.v
PeerSystem.v
PeerPolicy.v
PeerProof.v
