(* ===== verification/Prelude.v ===== *)
(** * Verification of antgrid: the relay, the bridge's session bus and supervisor, billing and peers

    antgrid lets a person's machines, and the agents that run on them, talk to each
    other.  A _relay_ (src/relay) admits the machines of an account to one another
    and keeps sealed mail for those that are away.  A _bridge_ on each machine
    (src/bridge) runs the agents' sessions, carries the messages they send each
    other (the session bus), and supervises agents on the user's behalf (the
    handler).  A _web_ service (src/web) sells subscriptions, keeps teams, and tells
    the relay whom to let in.  src/packages/antgrid-wire is the protocol they share.
    This development models the relay whole, the session bus and the supervisor of
    the bridge, its peer streams and leases, and of the web service the billing, the
    devices and the authority that says which devices may connect.

    ** How the parts are modelled

    Stateless code is a function.  A class or closure is a record of its fields and
    one definition per method, on the whole state.  JavaScript runs a handler to
    completion before the next, so a component is a transition system whose steps
    are handlers; a handler that awaits is cut there, and anything may happen
    between the parts.  Errors are values of options and sums.  Runs are lists of
    steps, and the theorems about runs hold for every list, in every order.

    The outside is given, never assumed to behave beyond what is written in a
    class or hypothesis: clocks and network writes are successive readings of an
    oracle or fields of the step ([time], [Instant], [Ctx], [World]); JSON text,
    date formats, SHA-256, HMAC, X25519, Ed25519, [jose], SQLite, the order of tied
    rows in PostgreSQL are parameters, or classes with their documented laws, each
    with an instance the witnesses are evaluated on.

    Strings are texts of code units below 256; the typographic characters of a few
    messages have stand-ins.  A JavaScript number is an integer, or a rational where
    the code divides; token counts are in thousandths.  A [Map] whose order shows is
    JsMap.v's ordered list; where it does not show, a finite map.  Objects compared
    by identity carry a number.  What was sent, typed or persisted is appended to a
    trace that no code reads ([e_out] of the supervisor, [trace] of the relay,
    [calls] of a stream, [Progressed] of a pass).

    ** The files

    _Shared._  This file: notation, automation, lemmas on lists, options, numbers.
    JsMap.v: the language's [Map].  Buffers.v: bytes, base64, UTF-8.  Regex.v: the
    regular expressions the sources use, by the standard's matcher.

    _The relay_ (src/relay/src and packages/antgrid-wire/src).  Pieces:
    SocketAdmissions.v (socket-admissions.ts), RateLimiter.v (rate-limiter.ts),
    ReplayCache.v (replay-cache.ts), Liveness.v (connection-liveness.ts),
    ClientIp.v (client-ip.ts), Wire.v (relay-protocol.ts, bus-protocol.ts,
    push-protocol.ts), RelayAuth.v (relay-slot.ts, relay-auth.ts), Connections.v
    (connections.ts), License.v (license/verify.ts, cache.ts, gate.ts), JwksCache.v
    (license/jwks-cache.ts), BusQueue.v (bus-queue.ts).  The server: ServerState.v
    has its state and effects, a state monad; RelayServer.v the handlers of
    server.ts over the pieces; InternalRoutes.v license/internal-routes.ts.  The
    invariant and its preservation: RelayFrames.v, RelayInvariant.v,
    RelayPreserves.v, RelayHandlers.v, RelayHandshake.v, RelayRoutes.v; Relay.v
    closes the system ([reachable]) and runs a small one.  What it guarantees:
    RelaySafety.v (accounts are isolated, connections authenticated, sockets
    capped), RelayStrangers.v (an unadmitted socket reaches nobody), RelayTakeover.v
    (a device id is taken over only with its key), RelayMail.v (every message sent
    is answered once), RelayRevoke.v (web's revocations take effect).  Of the
    pieces: the queue's two indexes refine a FIFO list; the gate admits an agent
    only on a verified licence of the device whose credential its cache does not
    hold as revoked.

    _The session bus_ (src/bridge/src/session-bus).  BusDb.v (bus-db.ts): rows in
    SQLite.  PairBudget.v (pair-budget.ts): how often a pair of agents may interrupt
    each other, with the host's store.  BusStores.v (message-log.ts, held-store.ts,
    mailbox.ts, thread-store.ts): what one session keeps.  Coordinator.v
    (coordinator.ts) addresses, logs, holds and folds messages through those;
    CoordinatorLedger.v, CoordinatorOutbox.v, CoordinatorPass.v and CoordinatorRuns.v
    show that every message is accounted for, in memory and on disk, that the outbox
    keeps moving, and that a refused send leaves no trace.  BusSeal.v (seal.ts)
    seals mail and spells out the header's schema: what is sealed opens.  (That what
    opens is what the named machine signed is in PeerAuthority.v, next to the other
    texts a device key signs.)  SeenStore.v (seen-store.ts) and BusTransport.v (relay-transport.ts) carry
    mail over the relay: BusOnce.v (a message is decided once, and a
    copy that is read acknowledged by that verdict), BusAccount.v (every delivery is accounted
    for), BusLink.v (the link is paced, outcomes are earned).
    DeliveryQueue.v (delivery-queue.ts) types lines into sessions at their turn
    boundaries, by WorkStatus.v (work-status.ts), whose states WorkInvariant.v
    describes; WorkDelivery.v (commitWork of project-core.ts) joins the two.

    _Peers_ (src/bridge/src/peer).  StreamRecords.v: records on a stream arrive whole
    and in order, and a writer comes to rest.  PeerLease.v (authorization-lease.ts):
    a peer is served only under a grant that has not run out.

    _The supervisor_ (src/bridge/src/handler), one terminal's.  DestructiveFloor.v
    (destructive-floor.ts) finds what a text would do, Authorization.v
    (authorization.ts) what the user's words lift, Backlog.v (backlog.ts,
    evidence.ts) the items and the quotations that close them, ReplyGuard.v
    (reply-shape.ts, runaway-guard.ts) what may be sent and how often.
    HandlerSession.v has the state, HandlerRows.v, HandlerEngine.v and HandlerPass.v
    the operations and steps of engine.ts.  HandlerFrame.v, HandlerItems.v,
    HandlerSteps.v and HandlerSafety.v take a step apart into elementary changes and
    license them to acts; from that HandlerRuns.v (replies are bounded, well formed
    and free of hard findings), HandlerWaits.v (nudges are bounded; a lift rests on
    the user's words) and HandlerClosed.v (a closed item is quoted).

    _Billing_ (src/web/src).  BillingDb.v: the tables of prisma/schema.prisma with
    their unique constraints, and transactions, a state and error monad that changes
    nothing when it fails.  Billing.v (models/*.ts, billing/plans.ts,
    capabilities.ts), BillingReducer.v (billing/reducer.ts), BillingTeam.v
    (add-member.ts, remove-member.ts, update-seats.ts, invite.ts, account-invite.ts,
    cancel-subscription.ts, reconcile-seats.ts, services/account.ts) are the
    operations; BillingSystem.v interleaves them behind
    the gates of routes/billing.ts and ui.tsx, each request cut at its awaits (the
    gate, the provisioning, the lookup of its account or contract, its
    transactions), and the class [Upheld] says what a
    relation must survive to survive every step; its module BillingDemo runs it.
    BillingRuns.v: an event stays on its account and is applied
    once.  BillingContracts.v: an activation sells what was paid.  BillingEndings.v:
    an ending leaves a subscription.  BillingMembers.v: nobody joins uninvited.
    BillingSeats.v: seats and owners.

    _Devices and the peer authority_ (src/web/src, prisma/migrations).  Devices.v:
    the rows of devices, clients, endpoints and policies, the triggers of the
    migrations peer_endpoints and scope_peer_policy_invalidation, which raise a user's
    policy generation, and models/device.ts with the services and routes that change
    a device.  PeerAuthority.v (models/peer-authorization.ts and the schemas of
    antgrid-wire): proving an endpoint, snapshots, admission to a relay, the machine
    directory, bus keys and grants; and the texts a device key signs, mail, acks,
    relay hellos and endpoint challenges, which are never one another.  PeerSystem.v makes each operation a step, next to
    any change of the billing tables; the class [Carried] says what a relation must
    survive to survive the steps.  Its module PeerDemo runs it.  PeerPolicy.v: a
    change of a user's devices, clients or endpoints, or one that lets a user in who
    was not, raises the generation, so a peer that
    holds the current generation, which is what PeerLease.v has a host compare, holds
    the current peers.  PeerProof.v: an endpoint let in is proven by its live device,
    a revoked device stays out, and registration keeps the caps.

    ** Fuel, and why it is enough

    Loops of the source that are not structural carry fuel, with a lemma that it
    suffices: [drain_enough] (a session's lines), [read_total] (the
    record reader), [run_repeat] (a repetition of a pattern obeys the standard's own
    equation), [open_count] bounds the sweeps of propagateBlocked, [mint_unused_fresh]
    the search for an unused item id, the length of the inbox the transport's chain,
    and the field list of a header its decoder.

    ** What is assumed

    Besides the parameters above: the bus's database answers (Coordinator.v; BusOnce.v
    and the properties of DeliveryQueue.v state it as a hypothesis); transactions run
    one at a time, which the code's advisory locks and isolation levels are for;
    provisioning, and the reads of one contract or invitation, are one moment each;
    an operation reads the clock once where it could read it twice.  Foreign keys, and
    that an id the sign-in service or the database draws is new, are hypotheses
    ([foreign_keys], [net_lawful]).  [time] may stand
    still or go back unless a theorem says otherwise.

    ** Not modelled

    Of the bridge: agent-core.ts, session-manager.ts, terminal-session.ts, most of
    host-server.ts, protocol.ts and agent-runtime.ts, the adapters and the file and git
    services, which are glue to processes, terminals and files; fetching artifacts of
    the bus; the judge's prompts and the parsing of its output; undoing snapshots.  Of
    the relay: the push senders (HTTP clients) and reading the environment.  Of the web
    service: pages, forms and rate limits, sign-in (the clients it makes and edits are
    steps of PeerSystem.v), delivering the outbox, checkout and the gateways' clients,
    mail, the operator's pages.  The apps, evaluations and site are in other
    languages or drive the system from outside. *)

From stdpp Require Export base tactics list strings gmap.
From Stdlib Require Export ZArith Lia.

#[global] Set Default Goal Selector "!".
#[global] Arguments String.append !_ _ / : simpl nomatch.

(** ** Notation

    [o ?| d] is JavaScript's nullish coalescing: the value of [o], or [d]
    where the source has [undefined] or [null]. *)
Declare Scope js_scope.
Delimit Scope js_scope with js.
Notation "o ?| d" := (default d o) (at level 45, right associativity) : js_scope.

(** ** Automation *)

Create HintDb js.
Create Rewrite HintDb js.

(** Splits every test and match of the goal, keeping the equations. *)
Ltac split_cases :=
  repeat (case_match || case_decide); simplify_eq/=.

(** Turns the boolean comparisons of the hypotheses into propositions. *)
Ltac reflect_bools :=
  repeat match goal with
  | H : _ && _ = true |- _ => apply andb_true_iff in H as [??]
  | H : _ || _ = false |- _ => apply orb_false_iff in H as [??]
  | H : negb _ = true |- _ => apply negb_true_iff in H
  | H : negb _ = false |- _ => apply negb_false_iff in H
  | H : (_ <? _)%Z = true |- _ => apply Z.ltb_lt in H
  | H : (_ <? _)%Z = false |- _ => apply Z.ltb_ge in H
  | H : (_ <=? _)%Z = true |- _ => apply Z.leb_le in H
  | H : (_ <=? _)%Z = false |- _ => apply Z.leb_gt in H
  | H : (_ >=? _)%Z = true |- _ => rewrite Z.geb_leb in H
  | H : (_ >=? _)%Z = false |- _ => rewrite Z.geb_leb in H
  | H : (_ >? _)%Z = true |- _ => rewrite Z.gtb_ltb in H
  | H : (_ >? _)%Z = false |- _ => rewrite Z.gtb_ltb in H
  | H : (_ =? _)%Z = true |- _ => apply Z.eqb_eq in H
  | H : (_ =? _)%Z = false |- _ => apply Z.eqb_neq in H
  | H : bool_decide _ = true |- _ => apply bool_decide_eq_true in H
  | H : bool_decide _ = false |- _ => apply bool_decide_eq_false in H
  end.

(** The usual end of an arithmetic case. *)
Ltac solve_cases := split_cases; reflect_bools; try lia; eauto with js.

(** ** Sums over lists *)

Definition sum_by {A} (f : A → Z) (l : list A) : Z := foldr (λ x acc, (f x + acc)%Z) 0%Z l.

Section sum_by.
Context {A : Type} (f : A → Z).
Local Open Scope Z_scope.

Lemma sum_by_app l1 l2 : sum_by f (l1 ++ l2) = sum_by f l1 + sum_by f l2.
Proof. induction l1 as [|x l1 IH]; simpl; [lia|]. rewrite IH. lia. Qed.

Lemma sum_by_nonneg l : (∀ x, x ∈ l → 0 <= f x) → 0 <= sum_by f l.
Proof.
  induction l as [|x l IH]; intros Hpos; simpl; [lia|].
  specialize (Hpos x ltac:(left)) as Hx.
  enough (0 <= sum_by f l) by lia.
  apply IH. intros y Hy. apply Hpos. by right.
Qed.

Lemma sum_by_filter_le (P : A → Prop) `{∀ x, Decision (P x)} l :
  (∀ x, x ∈ l → 0 <= f x) → sum_by f (filter P l) <= sum_by f l.
Proof.
  induction l as [|x l IH]; intros Hpos; [done|].
  specialize (Hpos x ltac:(left)) as Hx.
  assert (sum_by f (filter P l) <= sum_by f l) as IH'.
  { apply IH. intros y Hy. apply Hpos. by right. }
  rewrite filter_cons. case_decide; simpl; lia.
Qed.

Lemma sum_by_sublist l1 l2 :
  sublist l1 l2 → (∀ x, x ∈ l2 → 0 <= f x) → sum_by f l1 <= sum_by f l2.
Proof.
  induction 1 as [|x l1 l2 _ IH|x l1 l2 _ IH]; intros Hpos; simpl; [lia| |];
    pose proof (Hpos x ltac:(left)); (enough (sum_by f l1 <= sum_by f l2) by lia);
    apply IH; intros y Hy; apply Hpos; by right.
Qed.

Lemma sum_by_fmap {B} (g : B → A) (l : list B) : sum_by f (g <$> l) = sum_by (λ x, f (g x)) l.
Proof. induction l as [|x l IH]; [done|]. rewrite fmap_cons. simpl. by rewrite IH. Qed.

Lemma sum_by_ext (g : A → Z) l : (∀ x, x ∈ l → f x = g x) → sum_by f l = sum_by g l.
Proof.
  induction l as [|x l IH]; intros H; [done|]. simpl. rewrite (H x) by left.
  rewrite IH; [done|]. intros y Hy. apply H. by right.
Qed.

Lemma sum_by_delete_middle l1 x l2 :
  sum_by f (l1 ++ x :: l2) = sum_by f (l1 ++ l2) + f x.
Proof. rewrite !sum_by_app. simpl. lia. Qed.
End sum_by.

(** ** Lists *)

Section lists.
Context {A : Type}.
Implicit Types l : list A.

Lemma filter_all (P : A → Prop) `{∀ x, Decision (P x)} l :
  (∀ x, x ∈ l → P x) → filter P l = l.
Proof.
  induction l as [|x l IH]; intros HP; [done|].
  rewrite filter_cons_True by (apply HP; left). f_equal.
  apply IH. intros y Hy. apply HP. by right.
Qed.

Lemma filter_none (P : A → Prop) `{∀ x, Decision (P x)} l :
  (∀ x, x ∈ l → ¬ P x) → filter P l = [].
Proof.
  induction l as [|x l IH]; intros HP; [done|].
  rewrite filter_cons_False by (apply HP; left). apply IH. intros y Hy. apply HP. by right.
Qed.

Lemma filter_full (P : A → Prop) `{∀ x, Decision (P x)} l :
  length (filter P l) = length l → filter P l = l.
Proof.
  induction l as [|x l IH]; [done|]. rewrite filter_cons. case_decide; simpl; [intros; f_equal; auto|].
  pose proof (sublist_length _ _ (sublist_filter P l)). lia.
Qed.

Lemma fmap_sublist {B} (f : A → B) l1 l2 : sublist l1 l2 → sublist (f <$> l1) (f <$> l2).
Proof. induction 1; simpl; by constructor. Qed.

Lemma sublist_filter_mono (P : A → Prop) `{∀ x, Decision (P x)} l1 l2 :
  sublist l1 l2 → sublist (filter P l1) (filter P l2).
Proof.
  induction 1 as [|x l1 l2 _ IH|x l1 l2 _ IH]; [constructor| |];
    rewrite !filter_cons; case_decide; auto using sublist_skip, sublist_cons.
Qed.

(** [l.filter(x => x !== a)] with one occurrence of [a] splits the list. *)
Lemma filter_ne_split `{EqDecision A} l1 a l2 :
  a ∉ l1 → a ∉ l2 → filter (λ x, x ≠ a) (l1 ++ a :: l2) = l1 ++ l2.
Proof.
  intros H1 H2. rewrite filter_app, filter_cons_False by naive_solver.
  f_equal; apply filter_all; intros x Hx ->; contradiction.
Qed.

Lemma NoDup_split_not_in l1 a l2 : NoDup (l1 ++ a :: l2) → (a ∉ l1) ∧ (a ∉ l2).
Proof.
  intros (H1 & H2 & H3)%NoDup_app. apply NoDup_cons in H3 as [H3 _].
  split; [|done]. intros Hin. apply (H2 a Hin). by left.
Qed.

Lemma elem_of_middle l1 a l2 x : x ∈ l1 ++ l2 → x ∈ l1 ++ a :: l2.
Proof. rewrite !elem_of_app, elem_of_cons. naive_solver. Qed.

Lemma elem_of_the_middle l1 a l2 : a ∈ l1 ++ a :: l2.
Proof. rewrite elem_of_app, elem_of_cons. naive_solver. Qed.

Lemma Forall_filter_2 (P Q : A → Prop) `{∀ x, Decision (Q x)} l : Forall P l → Forall P (filter Q l).
Proof. rewrite !Forall_forall. intros HP x [_ Hx]%list_elem_of_filter. by apply HP. Qed.

Lemma filter_ext_in (P Q : A → Prop) `{∀ x, Decision (P x), ∀ x, Decision (Q x)} l :
  (∀ x, x ∈ l → P x ↔ Q x) → filter P l = filter Q l.
Proof.
  induction l as [|x l IH]; intros HPQ; [done|]. rewrite !filter_cons.
  rewrite (decide_ext (P x) (Q x)) by (apply HPQ; left).
  rewrite IH; [done|]. intros y Hy. apply HPQ. by right.
Qed.

Lemma list_find_ext_in (P Q : A → Prop) `{∀ x, Decision (P x), ∀ x, Decision (Q x)} l :
  (∀ x, x ∈ l → P x ↔ Q x) → list_find P l = list_find Q l.
Proof.
  induction l as [|x l IH]; intros HPQ; [done|]. simpl.
  rewrite (decide_ext (P x) (Q x)) by (apply HPQ; left).
  rewrite IH; [done|]. intros y Hy. apply HPQ. by right.
Qed.

Lemma filter_fmap {B} (f : B → A) (P : A → Prop) `{∀ x, Decision (P x)} (l : list B) :
  filter P (f <$> l) = f <$> filter (λ x, P (f x)) l.
Proof.
  induction l as [|x l IH]; [done|]. rewrite fmap_cons, !filter_cons, IH. by case_decide.
Qed.

Lemma omap_fmap {B C} (f : A → option B) (g : C → A) (l : list C) :
  omap f (g <$> l) = omap (λ x, f (g x)) l.
Proof. induction l as [|x l IH]; csimpl; [done|]. by rewrite IH. Qed.

(** Finding in a filtered and mapped list is finding with both conditions. *)
Lemma list_find_filter_fmap {B} (f : B → A) (P : A → Prop) (Q : B → Prop)
    `{∀ x, Decision (P x), ∀ x, Decision (Q x)} (l : list B) :
  snd <$> list_find P (f <$> filter Q l) =
    (λ p, f p.2) <$> list_find (λ x, Q x ∧ P (f x)) l.
Proof.
  assert (∀ (P' : A → Prop) `{∀ x, Decision (P' x)} (o : option (nat * A)) (g : nat → nat),
    snd <$> (prod_map g id <$> o) = snd <$> o) as Hs by (by intros ? ? [[]|] ?).
  induction l as [|x l IH]; [done|]. rewrite filter_cons. simpl.
  destruct (decide (Q x)) as [HQ|HQ].
  - rewrite fmap_cons. simpl. destruct (decide (P (f x))).
    + by rewrite decide_True.
    + rewrite decide_False by naive_solver. rewrite (Hs P _), IH.
      by destruct (list_find _ l) as [[]|].
  - rewrite decide_False by naive_solver. rewrite IH. by destruct (list_find _ l) as [[]|].
Qed.

Lemma last_n_length (n : nat) l :
  length (drop (length l - n) l) = Nat.min n (length l).
Proof. rewrite length_drop. lia. Qed.
End lists.

(** [l.slice(-n)] for a positive [n]: the last [n] elements, or all of them. *)
Definition slice_last {A} (n : nat) (l : list A) : list A := drop (length l - n) l.

Lemma slice_last_length {A} n (l : list A) : length (slice_last n l) = Nat.min n (length l).
Proof. apply last_n_length. Qed.

Lemma slice_last_short {A} n (l : list A) : length l ≤ n → slice_last n l = l.
Proof. intros H. unfold slice_last. by replace (length l - n) with 0 by lia. Qed.

#[export] Hint Rewrite @slice_last_length : js.

(** ** Fallible parsing

    Decoders return [option]; [check b ; e] goes on with [e] when the test
    [b] passes. *)
Notation "'check' b ; e" := (if b then e else None)
  (at level 10, b at level 100, e at level 200) : js_scope.

(** [s.length], in code units.  A Rocq [string] stands for a JavaScript string
    of code units below 256. *)
Definition strlen (s : string) : Z := Z.of_nat (String.length s).

(** [min <= s.length <= max], as [z.string().min(..).max(..)] tests it. *)
Definition len_between (lo hi : Z) (s : string) : bool :=
  (lo <=? strlen s)%Z && (strlen s <=? hi)%Z.

Fixpoint string_forallb (p : Ascii.ascii → bool) (s : string) : bool :=
  match s with
  | EmptyString => true
  | String c s' => p c && string_forallb p s'
  end.

(** The code of a character, and tests on it. *)
Definition code (c : Ascii.ascii) : Z := Z.of_N (Ascii.N_of_ascii c).
Definition in_range (lo hi : Z) (c : Ascii.ascii) : bool := (lo <=? code c)%Z && (code c <=? hi)%Z.
Definition is_digit (c : Ascii.ascii) : bool := in_range 48 57 c.
Definition is_upper (c : Ascii.ascii) : bool := in_range 65 90 c.
Definition is_lower (c : Ascii.ascii) : bool := in_range 97 122 c.
Definition is_char (n : Z) (c : Ascii.ascii) : bool := (code c =? n)%Z.

Lemma strlen_nonneg s : (0 <= strlen s)%Z.
Proof. unfold strlen. lia. Qed.

Lemma strlen_app s1 s2 : strlen (s1 +:+ s2) = (strlen s1 + strlen s2)%Z.
Proof. unfold strlen. induction s1; simpl in *; lia. Qed.

Lemma string_forallb_app p s1 s2 :
  string_forallb p (s1 +:+ s2) = string_forallb p s1 && string_forallb p s2.
Proof. induction s1 as [|c s1 IH]; simpl; [done|]. by rewrite IH, andb_assoc. Qed.

Lemma string_forallb_impl (p q : Ascii.ascii → bool) s :
  (∀ c, p c = true → q c = true) → string_forallb p s = true → string_forallb q s = true.
Proof. intros Hpq. induction s; simpl; [done|]. intros [??]%andb_true_iff. by rewrite Hpq, IHs. Qed.

#[export] Hint Resolve strlen_nonneg : js.

(** ** Separators

    Composite keys are joined with a separator character; a string [lacks c]
    when the separator does not occur in it, and then a join splits in one way
    only. *)
Definition lacks (c : Ascii.ascii) (s : string) : bool :=
  string_forallb (λ x, negb (Ascii.eqb x c)) s.

Definition sep (c : Ascii.ascii) : string := String c EmptyString.

Lemma lacks_cons c x s : lacks c (String x s) = true → x ≠ c ∧ lacks c s = true.
Proof.
  unfold lacks. simpl. intros [H1 H2]%andb_true_iff. split; [|done].
  intros ->. by rewrite Ascii.eqb_refl in H1.
Qed.

Lemma join_inj c s1 s2 t1 t2 :
  lacks c s1 = true → lacks c t1 = true →
  s1 +:+ (sep c +:+ s2) = t1 +:+ (sep c +:+ t2) → s1 = t1 ∧ s2 = t2.
Proof.
  revert t1. induction s1 as [|x s1 IH]; intros [|y t1]; simpl.
  - by intros _ _ [= ->].
  - intros _ [Hy _]%lacks_cons [= -> _]. done.
  - intros [Hx _]%lacks_cons _ [= -> _]. done.
  - intros [_ Hs]%lacks_cons [_ Ht]%lacks_cons [= -> Heq].
    by destruct (IH t1 Hs Ht Heq) as [-> ->].
Qed.

Lemma string_app_assoc (s1 s2 s3 : string) : s1 +:+ (s2 +:+ s3) = (s1 +:+ s2) +:+ s3.
Proof. induction s1; simpl; by f_equal. Qed.

Lemma string_app_nil_r (s : string) : s +:+ EmptyString = s.
Proof. induction s; simpl; by f_equal. Qed.

(** ** White space and splitting

    [s.trim()] on code units below 256, and [s.split(c)] for one character. *)
Definition is_space (c : Ascii.ascii) : bool := in_range 9 13 c || is_char 32 c || is_char 160 c.

Fixpoint trim_start (s : string) : string :=
  match s with String c s' => if is_space c then trim_start s' else s | EmptyString => EmptyString end.

Fixpoint trim_end (s : string) : string :=
  match s with
  | EmptyString => EmptyString
  | String c s' =>
      match trim_end s' with
      | EmptyString => if is_space c then EmptyString else String c EmptyString
      | t => String c t
      end
  end.

Definition trim (s : string) : string := trim_end (trim_start s).

Fixpoint split_on (c : Ascii.ascii) (s : string) : list string :=
  match s with
  | EmptyString => [EmptyString]
  | String x s' =>
      if Ascii.eqb x c then EmptyString :: split_on c s'
      else match split_on c s' with
           | [] => [String x EmptyString]
           | p :: ps => String x p :: ps
           end
  end.

Fixpoint join_with (c : Ascii.ascii) (l : list string) : string :=
  match l with
  | [] => EmptyString
  | [s] => s
  | s :: l' => s +:+ (sep c +:+ join_with c l')
  end.

Lemma split_on_app c a b :
  split_on c (a +:+ (sep c +:+ b)) = split_on c a ++ split_on c b.
Proof.
  induction a as [|x a IH]; simpl; [by rewrite Ascii.eqb_refl|].
  destruct (Ascii.eqb x c); simpl in *; [by rewrite IH|]. rewrite IH.
  destruct (split_on c a) as [|p ps] eqn:Hs; [|done].
  exfalso. destruct a as [|y a]; simpl in Hs; [done|]. destruct (Ascii.eqb y c); [done|].
  by destruct (split_on c a).
Qed.

Lemma split_on_lacks c s : lacks c s = true → split_on c s = [s].
Proof.
  induction s as [|x s IH]; intros H; [done|]. apply lacks_cons in H as [Hx Hs].
  simpl. apply Ascii.eqb_neq in Hx. by rewrite Hx, IH.
Qed.

(** Splitting undoes joining. *)
Lemma split_join c l : l ≠ [] → Forall (λ s, lacks c s = true) l → split_on c (join_with c l) = l.
Proof.
  induction l as [|s [|s' l] IH]; intros Hne Hl; [done| |]; apply Forall_cons in Hl as [Hs Hl].
  - by apply split_on_lacks.
  - change (join_with c (s :: s' :: l)) with (s +:+ (sep c +:+ join_with c (s' :: l))).
    rewrite split_on_app, split_on_lacks, IH by done. done.
Qed.

(** [s.slice(0, s.indexOf(c))] and what follows, when [c] occurs. *)
Fixpoint cut_at (c : Ascii.ascii) (s : string) : option (string * string) :=
  match s with
  | EmptyString => None
  | String x s' =>
      if Ascii.eqb x c then Some (EmptyString, s')
      else match cut_at c s' with Some (a, b) => Some (String x a, b) | None => None end
  end.

Lemma cut_at_join c l r : lacks c l = true → cut_at c (l +:+ (sep c +:+ r)) = Some (l, r).
Proof.
  induction l as [|x l IH]; simpl; intros Hl; [by rewrite Ascii.eqb_refl|].
  apply lacks_cons in Hl as [Hx Hl]. apply Ascii.eqb_neq in Hx. rewrite Hx. simpl in IH. by rewrite IH.
Qed.

(** [BigInt(s)] of a string of decimal digits, after [acc]. *)
Fixpoint digits_value (acc : Z) (s : string) : Z :=
  match s with EmptyString => acc | String c s' => digits_value (10 * acc + (code c - 48))%Z s' end.
