(* ===== verification/JsMap.v ===== *)
(** * JsMap: the JavaScript [Map]

    A [Map] keeps its entries in insertion order: [set] on a key already
    present updates it in place, [set] on a new key appends, [delete] followed
    by [set] moves a key to the end, and iteration visits the entries in that
    order.  Several components rely on the order (oldest-first eviction,
    oldest-first expiry), so the model is an ordered association list. *)

From S2P Require Import Prelude.

Abbreviation jsmap K V := (list (K * V)) (only parsing).

Section operations.
Context {K V : Type} `{EqDecision K}.
Implicit Types (m : jsmap K V) (k : K) (v : V).

Definition empty : jsmap K V := [].

Fixpoint get k m : option V :=
  match m with
  | [] => None
  | (k', v) :: m' => if decide (k = k') then Some v else get k m'
  end.

Definition has k m : bool := match get k m with Some _ => true | None => false end.

Fixpoint set k v m : jsmap K V :=
  match m with
  | [] => [(k, v)]
  | (k', v') :: m' => if decide (k = k') then (k, v) :: m' else (k', v') :: set k v m'
  end.

Definition delete k m : jsmap K V := filter (λ kv, kv.1 ≠ k) m.

Definition keys m : list K := m.*1.
Definition values m : list V := m.*2.
Definition size m : Z := Z.of_nat (length m).

(** [map.keys().next()]: the oldest key. *)
Definition oldest m : option K := head (keys m).

(** No key twice: what every [Map] satisfies. *)
Definition wf m : Prop := NoDup (keys m).
End operations.

(** [for (const [k, v] of map) if (p(v)) map.delete(k)]: deleting the entry
    being visited does not disturb the iteration. *)
Definition delete_where {K V} (p : K → V → bool) (m : jsmap K V) : jsmap K V :=
  filter (λ kv, p kv.1 kv.2 = false) m.

Section laws.
Context {K V : Type} `{EqDecision K}.
Implicit Types (m : jsmap K V) (k : K) (v : V).

Lemma get_set_eq k v m : get k (set k v m) = Some v.
Proof.
  induction m as [|[k' v'] m IH]; simpl; [by rewrite decide_True|].
  case_decide; simpl; [by rewrite decide_True|]. by rewrite decide_False.
Qed.

Lemma get_set_ne k k' v m : k' ≠ k → get k' (set k v m) = get k' m.
Proof.
  intros Hne. induction m as [|[k0 v0] m IH]; simpl; [by rewrite decide_False|].
  case_decide; simplify_eq/=; [by rewrite !decide_False|]. case_decide; auto.
Qed.

Lemma get_set k k' v m : get k' (set k v m) = if decide (k' = k) then Some v else get k' m.
Proof. case_decide; subst; [apply get_set_eq|by apply get_set_ne]. Qed.

Lemma get_delete_eq k m : get k (delete k m) = None.
Proof.
  induction m as [|[k' v'] m IH]; [done|]. unfold delete. rewrite filter_cons. simpl.
  case_decide; simpl; [by rewrite decide_False|done].
Qed.

Lemma get_delete_ne k k' m : k' ≠ k → get k' (delete k m) = get k' m.
Proof.
  intros Hne. induction m as [|[k0 v0] m IH]; [done|].
  unfold delete. rewrite filter_cons. simpl. destruct (decide (k0 = k)) as [->|Hk].
  - rewrite decide_False by naive_solver. by rewrite decide_False.
  - rewrite decide_True by done. simpl. by case_decide.
Qed.

Lemma get_delete k k' m :
  get k' (delete k m) = if decide (k' = k) then None else get k' m.
Proof. case_decide; subst; [apply get_delete_eq|by apply get_delete_ne]. Qed.

Lemma get_Some_elem k v m : get k m = Some v → (k, v) ∈ m.
Proof.
  induction m as [|[k' v'] m IH]; simpl; [done|].
  case_decide; intros; simplify_eq; [left|right; auto].
Qed.

Lemma elem_get_Some k v m : wf m → (k, v) ∈ m → get k m = Some v.
Proof.
  unfold wf. induction m as [|[k' v'] m IH]; simpl; [set_solver|].
  intros [Hnot Hnd]%NoDup_cons [Heq|Hin]%elem_of_cons; simplify_eq.
  - by rewrite decide_True.
  - rewrite decide_False; [auto|]. intros ->. apply Hnot.
    apply list_elem_of_fmap. by exists (k', v).
Qed.

Lemma get_None_keys k m : get k m = None ↔ k ∉ keys m.
Proof.
  induction m as [|[k' v'] m IH]; simpl; [by split; [intros _ []%not_elem_of_nil|]|].
  rewrite not_elem_of_cons. case_decide; [naive_solver|]. rewrite IH. naive_solver.
Qed.

Lemma get_Some_keys k v m : get k m = Some v → k ∈ keys m.
Proof.
  intros Hg. destruct (decide (k ∈ keys m)) as [|Hn]; [done|].
  apply get_None_keys in Hn. congruence.
Qed.

Lemma set_fresh k v m : get k m = None → set k v m = m ++ [(k, v)].
Proof.
  induction m as [|[k' v'] m IH]; simpl; [done|].
  case_decide; [done|]. intros ?. by rewrite IH.
Qed.

Lemma keys_set_present k v m : is_Some (get k m) → keys (set k v m) = keys m.
Proof.
  unfold keys. induction m as [|[k' v'] m IH]; simpl; intros [w Hw]; [done|].
  case_decide; simplify_eq/=; [done|]. f_equal. eauto.
Qed.

Lemma keys_set_fresh k v m : get k m = None → keys (set k v m) = keys m ++ [k].
Proof. intros H. unfold keys. by rewrite set_fresh, fmap_app. Qed.

Lemma wf_empty : wf (empty : jsmap K V).
Proof. apply NoDup_nil_2. Qed.

Lemma wf_set k v m : wf m → wf (set k v m).
Proof.
  unfold wf. intros Hm. destruct (get k m) as [w|] eqn:Hg.
  - by rewrite keys_set_present by eauto.
  - rewrite keys_set_fresh by done. apply NoDup_app. split_and!; [done| |].
    + apply get_None_keys in Hg. by intros x Hx ->%list_elem_of_singleton.
    + apply NoDup_singleton.
Qed.

Lemma wf_filter (P : K * V → Prop) `{∀ x, Decision (P x)} m : wf m → wf (filter P m).
Proof.
  unfold wf, keys. intros Hm. eapply sublist_NoDup; [exact Hm|].
  apply fmap_sublist, sublist_filter.
Qed.

Lemma wf_delete k m : wf m → wf (delete k m).
Proof. apply wf_filter. Qed.

Lemma wf_delete_where p m : wf m → wf (delete_where p m).
Proof. apply wf_filter. Qed.

Lemma get_delete_where p k m :
  wf m →
  get k (delete_where p m) =
    match get k m with Some v => if p k v then None else Some v | None => None end.
Proof.
  unfold wf, delete_where. induction m as [|[k' v'] m IH]; [done|].
  simpl. intros [Hnot Hnd]%NoDup_cons. rewrite filter_cons. simpl.
  destruct (decide (k = k')) as [->|Hne].
  - destruct (p k' v') eqn:Hp; simpl; [|by rewrite decide_True].
    rewrite IH by done. apply get_None_keys in Hnot. by rewrite Hnot.
  - destruct (p k' v') eqn:Hp; simpl; [by apply IH|].
    rewrite decide_False by done. by apply IH.
Qed.

Lemma size_nonneg m : (0 <= size m)%Z.
Proof. unfold size. lia. Qed.

Lemma size_set k v m :
  size (set k v m) = (match get k m with Some _ => size m | None => size m + 1 end)%Z.
Proof.
  unfold size. induction m as [|[k' v'] m IH]; simpl; [lia|].
  case_decide; simpl; [lia|]. destruct (get k m); lia.
Qed.

Lemma size_set_le k v m : (size (set k v m) <= size m + 1)%Z.
Proof. rewrite size_set. destruct (get k m); lia. Qed.

Lemma delete_fresh k m : get k m = None → delete k m = m.
Proof.
  intros H. apply filter_all. intros [k' v'] Hin Heq. simpl in *. subst k'.
  apply get_None_keys in H. apply H. apply list_elem_of_fmap. by exists (k, v').
Qed.

Lemma size_delete_le k m : (size (delete k m) <= size m)%Z.
Proof. unfold size, delete. pose proof (length_filter (λ kv : K * V, kv.1 ≠ k) m). lia. Qed.

Lemma delete_split k v m1 m2 :
  wf (m1 ++ (k, v) :: m2) → delete k (m1 ++ (k, v) :: m2) = m1 ++ m2.
Proof.
  unfold wf, keys. rewrite fmap_app. simpl. intros [H1 H2]%NoDup_split_not_in.
  unfold delete. rewrite filter_app, filter_cons_False by naive_solver.
  f_equal; apply filter_all; intros [k' v'] Hin Heq; simpl in Heq; subst k'.
  - apply H1. apply list_elem_of_fmap. by exists (k, v').
  - apply H2. apply list_elem_of_fmap. by exists (k, v').
Qed.

(** Looking up a present key splits the list at its one entry. *)
Lemma get_split k v m :
  wf m → get k m = Some v →
  ∃ m1 m2, m = m1 ++ (k, v) :: m2 ∧ get k m1 = None ∧ get k m2 = None ∧
           delete k m = m1 ++ m2.
Proof.
  intros Hwf Hg. apply get_Some_elem in Hg as Hin.
  apply list_elem_of_split in Hin as (m1 & m2 & ->).
  exists m1, m2. split; [done|]. rewrite delete_split by done.
  unfold wf, keys in Hwf. rewrite fmap_app in Hwf. simpl in Hwf.
  apply NoDup_split_not_in in Hwf as [H1 H2].
  by split_and!; [apply get_None_keys..|].
Qed.

Lemma size_delete k m :
  wf m → size (delete k m) = (match get k m with Some _ => size m - 1 | None => size m end)%Z.
Proof.
  intros Hwf. destruct (get k m) as [v|] eqn:Hg; [|by rewrite delete_fresh].
  destruct (get_split k v m Hwf Hg) as (m1 & m2 & -> & _ & _ & ->).
  unfold size. rewrite !length_app. simpl. lia.
Qed.

Lemma oldest_None m : oldest m = None → m = [].
Proof. by destruct m. Qed.

Lemma oldest_get k m : oldest m = Some k → is_Some (get k m).
Proof.
  destruct m as [|[k' v'] m]; [done|]. unfold oldest. simpl. intros; simplify_eq.
  rewrite decide_True by done. eauto.
Qed.

Lemma values_app m1 m2 : values (m1 ++ m2) = values m1 ++ values m2.
Proof. apply fmap_app. Qed.
End laws.

#[export] Hint Resolve wf_empty wf_set wf_delete wf_delete_where size_nonneg : js.
#[export] Hint Rewrite @get_set_eq @get_delete_eq : js.
