(* ===== verification/Buffers.v ===== *)
(** * Buffers: bytes, big-endian lengths, base64 and UTF-8

    What the sources use of the runtime's [Buffer] and [TextDecoder].  A buffer
    is a list of numbers, bytes when [is_bytes]; a JavaScript string is one of
    code units below 256, as everywhere in this development, so that text
    encodes to one or two bytes a character and a decoder refuses the text the
    model's strings cannot hold along with malformed bytes. *)

From S2P Require Import Prelude.
From stdpp Require Import pretty.

Local Open Scope Z_scope.
Local Open Scope js_scope.

Abbreviation bytes := (list Z) (only parsing).

Definition blen (b : bytes) : Z := Z.of_nat (length b).

Definition is_byte (x : Z) : Prop := 0 <= x < 256.
Definition is_bytes (b : bytes) : Prop := Forall is_byte b.

(** ** 32-bit big-endian lengths *)

(** [buffer.writeUInt32BE(n)] of a number that fits. *)
Definition writeUInt32BE (n : Z) : bytes :=
  [Z.land (Z.shiftr n 24) 255; Z.land (Z.shiftr n 16) 255; Z.land (Z.shiftr n 8) 255; Z.land n 255].

Definition readUInt32BE (b : bytes) : Z :=
  foldl (λ acc x, Z.lor (Z.shiftl acc 8) x) 0 b.

(** ** Base64 *)

(** The character of six bits, and the six bits of a character; the decoder
    takes the URL-safe alphabet too and skips any other character. *)
Definition b64_of (n : Z) : Ascii.ascii :=
  Ascii.ascii_of_N (Z.to_N
    (if n <? 26 then 65 + n else if n <? 52 then 71 + n else if n <? 62 then n - 4
     else if n =? 62 then 43 else 47)).

Definition b64_val (c : Ascii.ascii) : option Z :=
  if is_upper c then Some (code c - 65)
  else if is_lower c then Some (code c - 71)
  else if is_digit c then Some (code c + 4)
  else if is_char 43 c || is_char 45 c then Some 62
  else if is_char 47 c || is_char 95 c then Some 63
  else None.

Fixpoint b64_encode (b : bytes) : string :=
  match b with
  | x :: y :: z :: rest =>
      let n := 65536 * x + 256 * y + z in
      String (b64_of (n / 262144)) (String (b64_of (n / 4096 mod 64))
        (String (b64_of (n / 64 mod 64)) (String (b64_of (n mod 64)) (b64_encode rest))))
  | [x; y] =>
      let n := 256 * x + y in
      String (b64_of (n / 1024)) (String (b64_of (n / 16 mod 64)) (String (b64_of (n * 4 mod 64)) "="))
  | [x] => String (b64_of (x / 4)) (String (b64_of (x * 16 mod 64)) "==")
  | [] => EmptyString
  end.

Fixpoint sextets (s : string) : list Z :=
  match s with
  | EmptyString => []
  | String c s' => match b64_val c with Some n => n :: sextets s' | None => sextets s' end
  end.

Fixpoint group_bytes (l : list Z) : bytes :=
  match l with
  | a :: b :: c :: d :: rest =>
      let n := 262144 * a + 4096 * b + 64 * c + d in
      n / 65536 :: n / 256 mod 256 :: n mod 256 :: group_bytes rest
  | [a; b; c] => let n := 4096 * a + 64 * b + c in [n / 1024; n / 4 mod 256]
  | [a; b] => [(64 * a + b) / 16]
  | _ => []
  end.

Definition b64_decode (s : string) : bytes := group_bytes (sextets s).

(** ** UTF-8 *)

Definition utf8_char (c : Ascii.ascii) : bytes :=
  if code c <? 128 then [code c] else [192 + code c / 64; 128 + code c mod 64].

Fixpoint utf8_encode (s : string) : bytes :=
  match s with EmptyString => [] | String c s' => utf8_char c ++ utf8_encode s' end.

(** [new TextDecoder("utf-8", { fatal: true }).decode]. *)
Fixpoint utf8_decode (b : bytes) : option string :=
  match b with
  | [] => Some EmptyString
  | x :: rest =>
      if (0 <=? x) && (x <? 128) then String (Ascii.ascii_of_N (Z.to_N x)) <$> utf8_decode rest
      else match rest with
           | y :: rest' =>
               if (194 <=? x) && (x <? 196) && (128 <=? y) && (y <? 192)
               then String (Ascii.ascii_of_N (Z.to_N (64 * (x - 192) + (y - 128)))) <$> utf8_decode rest'
               else None
           | [] => None
           end
  end.

(** [String(n)] of an integer. *)
Definition String_of (n : Z) : string := pretty n.

(** ** Lengths *)

Lemma split_byte n : Z.lor (Z.shiftl (Z.shiftr n 8) 8) (Z.land n 255) = n.
Proof.
  apply Z.bits_inj'. intros i Hi. change 255 with (Z.ones 8).
  rewrite Z.lor_spec, Z.land_spec. destruct (Z.lt_ge_cases i 8).
  - by rewrite Z.shiftl_spec_low, Z.ones_spec_low, andb_true_r by lia.
  - rewrite Z.shiftl_spec, Z.shiftr_spec, Z.ones_spec_high, andb_false_r, orb_false_r by lia. f_equal. lia.
Qed.

Lemma readUInt32BE_write n : 0 <= n < 2 ^ 32 → readUInt32BE (writeUInt32BE n) = n.
Proof.
  intros Hn. unfold readUInt32BE, writeUInt32BE. cbn [foldl].
  assert (Z.lor (Z.shiftl 0 8) (Z.land (Z.shiftr n 24) 255) = Z.shiftr n 24) as ->.
  { rewrite Z.shiftl_0_l, Z.lor_0_l. change 255 with (Z.ones 8). rewrite Z.land_ones by lia. apply Z.mod_small.
    rewrite Z.shiftr_div_pow2 by lia. split; [apply Z.div_pos; lia|]. apply Z.div_lt_upper_bound; [lia|].
    change (2 ^ 24 * 2 ^ 8) with (2 ^ 32). lia. }
  assert (∀ j k, 0 <= k → j = k + 8 → Z.lor (Z.shiftl (Z.shiftr n j) 8) (Z.land (Z.shiftr n k) 255) = Z.shiftr n k) as Hk.
  { intros j k Hk ->. rewrite <-Z.shiftr_shiftr by lia. apply split_byte. }
  rewrite (Hk 24 16), (Hk 16 8) by lia. apply split_byte.
Qed.

Lemma blen_app b1 b2 : blen (b1 ++ b2) = blen b1 + blen b2.
Proof. unfold blen. rewrite length_app. lia. Qed.

Lemma blen_nonneg b : 0 <= blen b.
Proof. unfold blen. lia. Qed.

#[export] Hint Resolve blen_nonneg : js.

(** ** Base64 is read back *)

Lemma code_ascii n : 0 <= n < 256 → code (Ascii.ascii_of_N (Z.to_N n)) = n.
Proof. intros Hn. unfold code. rewrite Ascii.N_ascii_embedding by lia. lia. Qed.

Lemma code_bounds c : 0 <= code c < 256.
Proof.
  unfold code. pose proof (Ascii.N_ascii_bounded c). lia.
Qed.

Lemma ascii_code c : Ascii.ascii_of_N (Z.to_N (code c)) = c.
Proof. unfold code. rewrite N2Z.id. apply Ascii.ascii_N_embedding. Qed.

Lemma b64_val_of n : 0 <= n < 64 → b64_val (b64_of n) = Some n.
Proof.
  intros Hn. assert (Forall (λ k, b64_val (b64_of k) = Some k) (seqZ 0 64)) as Hall.
  { apply (bool_decide_unpack _). vm_compute. done. }
  rewrite Forall_forall in Hall. apply Hall. apply elem_of_seqZ. lia.
Qed.

Lemma sextets_b64_of n s : 0 <= n < 64 → sextets (String (b64_of n) s) = n :: sextets s.
Proof. intros Hn. simpl. by rewrite b64_val_of. Qed.

Ltac euclid := Z.to_euclidean_division_equations; lia.

(** Three bytes at a time. *)
Lemma bytes_ind (P : bytes → Prop) :
  P [] → (∀ x, P [x]) → (∀ x y, P [x; y]) → (∀ x y z l, P l → P (x :: y :: z :: l)) → ∀ l, P l.
Proof.
  intros H0 H1 H2 H3. fix IH 1. intros [|x [|y [|z l]]]; [done|apply H1|apply H2|]. apply H3, IH.
Qed.

Lemma b64_decode_encode b : is_bytes b → b64_decode (b64_encode b) = b.
Proof.
  unfold b64_decode. induction b as [|x|x y|x y z b IH] using bytes_ind; intros Hb.
  - done.
  - unfold is_bytes in Hb. rewrite Forall_singleton in Hb. unfold is_byte in Hb. cbn [b64_encode].
    rewrite !sextets_b64_of by euclid. simpl. f_equal. euclid.
  - unfold is_bytes in Hb. rewrite !Forall_cons in Hb. unfold is_byte in Hb. destruct Hb as (? & ? & _).
    cbn [b64_encode]. cbv zeta. rewrite !sextets_b64_of by euclid. simpl. repeat f_equal; euclid.
  - unfold is_bytes in *. rewrite !Forall_cons in Hb. unfold is_byte in Hb. destruct Hb as (? & ? & ? & Hb).
    cbn [b64_encode]. cbv zeta. rewrite !sextets_b64_of by euclid. cbn [group_bytes]. cbv zeta.
    rewrite IH by done. f_equal; [euclid|]. f_equal; [euclid|]. f_equal. euclid.
Qed.

(** ** UTF-8 is read back *)

Lemma utf8_encode_bytes s : is_bytes (utf8_encode s).
Proof.
  induction s as [|c s IH]; [constructor|]. simpl. apply Forall_app. split; [|done].
  pose proof (code_bounds c). unfold utf8_char. destruct (code c <? 128) eqn:Hc; reflect_bools;
    repeat constructor; unfold is_byte in *; euclid.
Qed.

Lemma utf8_decode_encode s : utf8_decode (utf8_encode s) = Some s.
Proof.
  induction s as [|c s IH]; [done|]. pose proof (code_bounds c). simpl utf8_encode. unfold utf8_char.
  destruct (code c <? 128) eqn:Hc; reflect_bools.
  - simpl. rewrite (proj2 (Z.leb_le _ _)) by lia. rewrite (proj2 (Z.ltb_lt _ _)) by lia. simpl.
    by rewrite IH, ascii_code.
  - cbn [app utf8_decode].
    assert ((0 <=? 192 + code c / 64) && (192 + code c / 64 <? 128) = false) as ->.
    { apply andb_false_iff. right. apply Z.ltb_ge. euclid. }
    assert ((194 <=? 192 + code c / 64) && (192 + code c / 64 <? 196) && (128 <=? 128 + code c mod 64)
            && (128 + code c mod 64 <? 192) = true) as ->.
    { rewrite !andb_true_iff, !Z.leb_le, !Z.ltb_lt. euclid. }
    rewrite IH. simpl.
    replace (64 * (192 + code c / 64 - 192) + (128 + code c mod 64 - 128)) with (code c) by euclid.
    by rewrite ascii_code.
Qed.

#[export] Instance utf8_encode_inj : Inj (=) (=) utf8_encode.
Proof. intros s t Heq. apply (inj Some). by rewrite <-!utf8_decode_encode, Heq. Qed.

#[export] Instance String_of_inj : Inj (=) (=) String_of.
Proof. intros m n. apply (inj pretty). Qed.

Lemma writeUInt32BE_bytes n : is_bytes (writeUInt32BE n).
Proof.
  assert (∀ m, is_byte (Z.land m 255)) as Hm.
  { intros m. change 255 with (Z.ones 8). rewrite Z.land_ones by lia. apply Z.mod_pos_bound. lia. }
  unfold writeUInt32BE. repeat (apply Forall_cons; split; [apply Hm|]). constructor.
Qed.
