(* ===== verification/Regex.v ===== *)
(** * Regex: JavaScript's regular expressions

    The part of the language's regular expressions that the sources use, as
    ECMA-262 defines them: a pattern's text is parsed, and a pattern is matched
    by backtracking, with greedy repetition, capturing groups, word boundaries,
    look-ahead and look-behind.  Flag [i] is modelled, [g] is in the operation
    that is called, [m], [s], [u] and [y] are not used.

    A text is a zipper: the characters before the position, nearest first, and
    those after it.  The matcher is the standard's, in continuation-passing
    style; the fuel of its loops is enough, so that the standard's own equation
    for a repetition holds ([run_repeat]). *)

From S2P Require Import Prelude.
From Stdlib Require Import Strings.Ascii.

Local Open Scope Z_scope.

#[local] Abbreviation char := Ascii.ascii (only parsing).

(** ** Patterns *)

Inductive node :=
| Empty
| OneOf (neg : bool) (ranges : list (Z * Z))   (** a character class *)
| Seq (a b : node)
| Alt (a b : node)
| Repeat (a : node) (lo : nat) (hi : option nat)
| Group (i : nat) (a : node)
| AtStart | AtEnd | Boundary
| Look (ahead neg : bool) (a : node).

Definition word_ranges : list (Z * Z) := [(48, 57); (65, 90); (95, 95); (97, 122)].
Definition digit_ranges : list (Z * Z) := [(48, 57)].
Definition space_ranges : list (Z * Z) := [(9, 13); (32, 32); (160, 160)].

Definition in_ranges (rs : list (Z * Z)) (n : Z) : bool := existsb (λ '(lo, hi), (lo <=? n) && (n <=? hi)) rs.

(** The other case of a letter, among the code units below 256. *)
Definition other_case (n : Z) : Z :=
  if in_ranges [(65, 90); (192, 214); (216, 222)] n then n + 32
  else if in_ranges [(97, 122); (224, 246); (248, 254)] n then n - 32 else n.

Definition in_class (ci neg : bool) (rs : list (Z * Z)) (c : char) : bool :=
  xorb neg (in_ranges rs (code c) || (ci && in_ranges rs (other_case (code c)))).

Definition is_word (c : char) : bool := in_ranges word_ranges (code c).

(** The groups a pattern captures. *)
Fixpoint groups (n : node) : list nat :=
  match n with
  | Empty | OneOf _ _ | AtStart | AtEnd | Boundary => []
  | Seq a b | Alt a b => groups a ++ groups b
  | Repeat a _ _ | Look _ _ a => groups a
  | Group i a => i :: groups a
  end.

(** ** Matching *)

Record mstate := { before : list char; after : list char; caps : list (nat * string) }.

Definition pos (s : mstate) : nat := length s.(before).
Definition ahead_of (fwd : bool) (s : mstate) : list char := if fwd then s.(after) else s.(before).

Definition step (fwd : bool) (s : mstate) : option (char * mstate) :=
  match ahead_of fwd s with
  | [] => None
  | c :: r => Some (c, if fwd then {| before := c :: s.(before); after := r; caps := s.(caps) |}
                       else {| before := r; after := c :: s.(after); caps := s.(caps) |})
  end.

Definition text_of (l : list char) : string := String.string_of_list_ascii l.
Definition chars (s : string) : list char := String.list_ascii_of_string s.

(** The text between two states of one run, the first at or before the second. *)
Definition between (s t : mstate) : string := text_of (take (length s.(after) - length t.(after)) s.(after)).

Definition capture (fwd : bool) (i : nat) (s t : mstate) : mstate :=
  {| before := t.(before); after := t.(after); caps := (i, if fwd then between s t else between t s) :: t.(caps) |}.
Definition forget_caps (gs : list nat) (s : mstate) : mstate :=
  {| before := s.(before); after := s.(after); caps := filter (λ c, c.1 ∉ gs) s.(caps) |}.
Definition with_caps (s t : mstate) : mstate := {| before := s.(before); after := s.(after); caps := t.(caps) |}.

Definition at_boundary (s : mstate) : bool :=
  xorb (match s.(before) with c :: _ => is_word c | [] => false end) (match s.(after) with c :: _ => is_word c | [] => false end).

Definition is_nil {A} (l : list A) : bool := match l with [] => true | _ => false end.

(** [RepeatMatcher] over one matcher: an iteration past the required ones must
    move.  [fuel] bounds the iterations: each either counts a required one down
    or consumes a character. *)
Definition repeat_run (body : (mstate → option mstate) → mstate → option mstate) (gs : list nat) (k : mstate → option mstate) :
    nat → nat → option nat → mstate → option mstate :=
  fix loop fuel lo hi s :=
    match fuel with
    | O => None
    | S fuel =>
        if bool_decide (hi = Some O) then k s
        else
          let more t := if bool_decide (lo = O) && bool_decide (pos t = pos s) then None
                        else loop fuel (pred lo) (pred <$> hi) t in
          match lo with
          | S _ => body more (forget_caps gs s)
          | O => match body more (forget_caps gs s) with Some r => Some r | None => k s end
          end
    end.

Fixpoint run (ci : bool) (n : node) (fwd : bool) (k : mstate → option mstate) (s : mstate) {struct n} : option mstate :=
  match n with
  | Empty => k s
  | OneOf neg rs => match step fwd s with Some (c, t) => if in_class ci neg rs c then k t else None | None => None end
  | Seq a b => if fwd then run ci a fwd (run ci b fwd k) s else run ci b fwd (run ci a fwd k) s
  | Alt a b => match run ci a fwd k s with Some r => Some r | None => run ci b fwd k s end
  | Repeat a lo hi => repeat_run (run ci a fwd) (groups a) k (S (lo + length (ahead_of fwd s))) lo hi s
  | Group i a => run ci a fwd (λ t, k (capture fwd i s t)) s
  | AtStart => if is_nil s.(before) then k s else None
  | AtEnd => if is_nil s.(after) then k s else None
  | Boundary => if at_boundary s then k s else None
  | Look ahead neg a =>
      match run ci a ahead Some s with
      | Some t => if neg then None else k (with_caps s t)
      | None => if neg then k s else None
      end
  end.

(** ** Parsing a pattern

    The grammar of the patterns used: alternation, terms with the greedy
    quantifiers, groups and look-around, classes and escapes.  A lazy quantifier
    is not one of them and does not parse. *)

Definition hex_value (c : char) : Z :=
  let n := code c in if n <=? 57 then n - 48 else if n <=? 70 then n - 55 else n - 87.

(** What an escape stands for: a class, or one character. *)
Definition escape (c : char) : list (Z * Z) * bool :=
  match c with
  | "w"%char => (word_ranges, false) | "W"%char => (word_ranges, true)
  | "d"%char => (digit_ranges, false) | "D"%char => (digit_ranges, true)
  | "s"%char => (space_ranges, false) | "S"%char => (space_ranges, true)
  | "n"%char => ([(10, 10)], false) | "r"%char => ([(13, 13)], false) | "t"%char => ([(9, 9)], false)
  | _ => ([(code c, code c)], false)
  end.

(** The code units that are in no range. *)
Definition complement (rs : list (Z * Z)) : list (Z * Z) := (λ n, (n, n)) <$> filter (λ n, in_ranges rs n = false) (seqZ 0 256).

(** One member of a class. *)
Definition class_atom (cs : list char) : option (list (Z * Z) * list char) :=
  match cs with
  | "\"%char :: "x"%char :: a :: b :: r => let n := 16 * hex_value a + hex_value b in Some ([(n, n)], r)
  | "\"%char :: c :: r => Some (if (escape c).2 then complement (escape c).1 else (escape c).1, r)
  | c :: r => Some ([(code c, code c)], r)
  | [] => None
  end.

Fixpoint class_members (fuel : nat) (cs : list char) : option (list (Z * Z) * list char) :=
  match fuel with
  | O => None
  | S fuel =>
      match cs with
      | "]"%char :: r => Some ([], r)
      | _ =>
          match class_atom cs with
          | None => None
          | Some (a, r) =>
              match r with
              | "-"%char :: ((c :: _) as r') =>
                  if Ascii.eqb c "]" then
                    match class_members fuel r with Some (rs, r) => Some (a ++ rs, r) | None => None end
                  else
                    match class_atom r', a with
                    | Some ([(hi, _)], r''), [(lo, _)] =>
                        match class_members fuel r'' with Some (rs, r) => Some ((lo, hi) :: rs, r) | None => None end
                    | _, _ => None
                    end
              | _ => match class_members fuel r with Some (rs, r) => Some (a ++ rs, r) | None => None end
              end
          end
      end
  end.

Fixpoint digits (cs : list char) (acc : option nat) : option nat * list char :=
  match cs with
  | c :: r => if is_digit c then digits r (Some (10 * default O acc + Z.to_nat (code c - 48))%nat) else (acc, cs)
  | [] => (acc, cs)
  end.

Definition greedy (q : node) (r : list char) : option (node * list char) :=
  match r with "?"%char :: _ => None | _ => Some (q, r) end.

Definition quantifier (a : node) (cs : list char) : option (node * list char) :=
  match cs with
  | "*"%char :: r => greedy (Repeat a 0 None) r
  | "+"%char :: r => greedy (Repeat a 1 None) r
  | "?"%char :: r => greedy (Repeat a 0 (Some 1%nat)) r
  | "{"%char :: r =>
      match digits r None with
      | (Some lo, "}"%char :: r) => greedy (Repeat a lo (Some lo)) r
      | (Some lo, ","%char :: r) =>
          match digits r None with (hi, "}"%char :: r) => greedy (Repeat a lo hi) r | _ => None end
      | _ => None
      end
  | _ => Some (a, cs)
  end.

(** [i] is the number of the next capturing group. *)
Fixpoint disjunction (fuel i : nat) (cs : list char) : option (node * nat * list char) :=
  match fuel with
  | O => None
  | S fuel =>
      match alternative fuel i cs with
      | Some (a, i, "|"%char :: r) =>
          match disjunction fuel i r with Some (b, i, r) => Some (Alt a b, i, r) | None => None end
      | x => x
      end
  end
with alternative (fuel i : nat) (cs : list char) : option (node * nat * list char) :=
  match fuel with
  | O => None
  | S fuel =>
      match cs with
      | [] | "|"%char :: _ | ")"%char :: _ => Some (Empty, i, cs)
      | _ =>
          match term fuel i cs with
          | Some (a, i, r) =>
              match alternative fuel i r with
              | Some (Empty, i, r) => Some (a, i, r)
              | Some (b, i, r) => Some (Seq a b, i, r)
              | None => None
              end
          | None => None
          end
      end
  end
with term (fuel i : nat) (cs : list char) : option (node * nat * list char) :=
  match fuel with
  | O => None
  | S fuel =>
      let group i mk r :=
        match disjunction fuel i r with
        | Some (a, i, ")"%char :: r) => match quantifier (mk a) r with Some (q, r) => Some (q, i, r) | None => None end
        | _ => None
        end in
      let one n r := match quantifier n r with Some (q, r) => Some (q, i, r) | None => None end in
      match cs with
      | "^"%char :: r => Some (AtStart, i, r)
      | "$"%char :: r => Some (AtEnd, i, r)
      | "("%char :: "?"%char :: ":"%char :: r => group i (λ a, a) r
      | "("%char :: "?"%char :: "="%char :: r => group i (Look true false) r
      | "("%char :: "?"%char :: "!"%char :: r => group i (Look true true) r
      | "("%char :: "?"%char :: "<"%char :: "="%char :: r => group i (Look false false) r
      | "("%char :: "?"%char :: "<"%char :: "!"%char :: r => group i (Look false true) r
      | "("%char :: r => group (S i) (Group i) r
      | "["%char :: "^"%char :: r => match class_members (S (length r)) r with Some (rs, r) => one (OneOf true rs) r | None => None end
      | "["%char :: r => match class_members (S (length r)) r with Some (rs, r) => one (OneOf false rs) r | None => None end
      | "\"%char :: "b"%char :: r => Some (Boundary, i, r)
      | "\"%char :: "x"%char :: a :: b :: r => let n := 16 * hex_value a + hex_value b in one (OneOf false [(n, n)]) r
      | "\"%char :: c :: r => one (OneOf (escape c).2 (escape c).1) r
      | "."%char :: r => one (OneOf true [(10, 10); (13, 13)]) r
      | c :: r => one (OneOf false [(code c, code c)]) r
      | [] => None
      end
  end.

Definition parse (source : string) : option node :=
  let cs := chars source in
  match disjunction (3 * S (length cs)) 1 cs with Some (n, _, []) => Some n | _ => None end.

Record RegExp := { source : string; flag_i : bool; tree : node }.

(** A pattern that does not parse would be an error of the program's; each list
    of patterns below is shown to parse. *)
Definition regexp (flag_i : bool) (source : string) : RegExp :=
  {| source := source; flag_i := flag_i; tree := match parse source with Some n => n | None => OneOf false [] end |}.

(** ** The operations *)

Record found := { f_before : list char; f_end : mstate; f_text : string }.

Definition match_at (re : RegExp) (pre post : list char) : option found :=
  let s := {| before := pre; after := post; caps := [] |} in
  match run re.(flag_i) re.(tree) true Some s with
  | Some t => Some {| f_before := pre; f_end := t; f_text := between s t |}
  | None => None
  end.

Fixpoint search_from (re : RegExp) (pre post : list char) : option found :=
  match match_at re pre post with
  | Some m => Some m
  | None => match post with [] => None | c :: post => search_from re (c :: pre) post end
  end.

(** [re.exec(text)] and [re.test(text)] of a pattern without [g]. *)
Definition exec (re : RegExp) (text : string) : option found := search_from re [] (chars text).
Definition test (re : RegExp) (text : string) : bool := match exec re text with Some _ => true | None => false end.

(** [m[i]] *)
Definition group (i : nat) (m : found) : option string :=
  snd <$> head (filter (λ c, c.1 = i) m.(f_end).(caps)).

(** [text.matchAll(re)]: after an empty match the search goes on one further. *)
Fixpoint all_from (fuel : nat) (re : RegExp) (pre post : list char) : list found :=
  match fuel with
  | O => []
  | S fuel =>
      match search_from re pre post with
      | None => []
      | Some m =>
          m :: match m.(f_text), m.(f_end).(after) with
               | EmptyString, [] => []
               | EmptyString, c :: r => all_from fuel re (c :: m.(f_end).(before)) r
               | _, r => all_from fuel re m.(f_end).(before) r
               end
      end
  end.
Definition matchAll (re : RegExp) (text : string) : list found := all_from (S (String.length text)) re [] (chars text).

(** What lies between the last position and a match that starts at [pre]. *)
Definition skipped (from : nat) (pre : list char) : string := text_of (reverse (take (length pre - from) pre)).

(** [text.replace(re, f)] with [g]. *)
Definition replace_step (f : found → string) (acc : nat * string) (m : found) : nat * string :=
  (length m.(f_end).(before), acc.2 +:+ skipped acc.1 m.(f_before) +:+ f m).
Definition replaceAll (re : RegExp) (f : found → string) (text : string) : string :=
  let '(from, out) := foldl (replace_step f) (O, EmptyString) (matchAll re text) in
  out +:+ text_of (drop from (chars text)).
(** ... and without [g]. *)
Definition replaceFirst (re : RegExp) (f : found → string) (text : string) : string :=
  match exec re text with
  | None => text
  | Some m => text_of (reverse m.(f_before)) +:+ f m +:+ text_of m.(f_end).(after)
  end.

(** [text.split(re)] for a pattern without groups: a separator that is empty
    where the last one ended is passed over. *)
Fixpoint split_from (fuel : nat) (re : RegExp) (from : nat) (pre post : list char) : list string :=
  let rest := [text_of (reverse (take (length pre - from) pre) ++ post)] in
  match fuel with
  | O => rest
  | S fuel =>
      match post with
      | [] => rest
      | c :: r =>
          match match_at re pre post with
          | Some m =>
              if bool_decide (pos m.(f_end) = from) then split_from fuel re from (c :: pre) r
              else skipped from pre :: split_from fuel re (pos m.(f_end)) m.(f_end).(before) m.(f_end).(after)
          | None => split_from fuel re from (c :: pre) r
          end
      end
  end.
Definition split (re : RegExp) (text : string) : list string :=
  match text with
  | EmptyString => match exec re text with Some _ => [] | None => [EmptyString] end
  | _ => split_from (S (2 * String.length text)) re O [] (chars text)
  end.

(** ** The fuel is enough *)

Section fuel.
Implicit Types (k : mstate → option mstate) (s t : mstate).

Definition room (fwd : bool) s : nat := length (ahead_of fwd s).
Definition whole s : list char := reverse s.(before) ++ s.(after).

(** [t] is where a run from [s] may get. *)
Definition within (fwd : bool) s t : Prop := whole t = whole s ∧ (room fwd t <= room fwd s)%nat.

Lemma whole_length s : length (whole s) = (pos s + length s.(after))%nat.
Proof. unfold whole, pos. by rewrite length_app, length_reverse. Qed.

Lemma within_refl fwd s : within fwd s s.
Proof. by split. Qed.
Lemma within_trans fwd s t u : within fwd s t → within fwd t u → within fwd s u.
Proof. intros [??] [??]. split; [congruence|lia]. Qed.
Lemma within_moves fwd s t : within fwd s t → pos t ≠ pos s → (room fwd t < room fwd s)%nat.
Proof.
  intros [Hw Hr]. apply (f_equal length) in Hw. rewrite !whole_length in Hw. revert Hw Hr.
  unfold room, ahead_of. destruct fwd; unfold pos; lia.
Qed.
Lemma within_step fwd s c t : step fwd s = Some (c, t) → within fwd s t.
Proof.
  unfold step, within, whole, room, ahead_of.
  destruct fwd; [destruct s.(after) as [|d r] eqn:E|destruct s.(before) as [|d r] eqn:E]; intros [= <- <-]; simpl; split; try lia;
    by rewrite reverse_cons, <-app_assoc.
Qed.

Definition asks_within (fwd : bool) (body : (mstate → option mstate) → mstate → option mstate) : Prop :=
  ∀ k k' s, (∀ t, within fwd s t → k t = k' t) → body k s = body k' s.

Section loop.
Context (fwd : bool) (body : (mstate → option mstate) → mstate → option mstate) (gs : list nat) (Hbody : asks_within fwd body).

Lemma repeat_run_enough f f' k k' lo hi s :
  (lo + room fwd s < f)%nat → (lo + room fwd s < f')%nat → (∀ t, within fwd s t → k t = k' t) →
  repeat_run body gs k f lo hi s = repeat_run body gs k' f' lo hi s.
Proof.
  revert f' lo hi s. induction f as [|f IH]; intros [|f'] lo hi s Hf Hf' Hk; [lia..|]. simpl.
  case_bool_decide; [apply Hk, within_refl|].
  assert (∀ t, within fwd s t →
    (if bool_decide (lo = O) && bool_decide (pos t = pos s) then None else repeat_run body gs k f (pred lo) (pred <$> hi) t) =
    (if bool_decide (lo = O) && bool_decide (pos t = pos s) then None else repeat_run body gs k' f' (pred lo) (pred <$> hi) t)) as Hmore.
  { intros t Ht. destruct (bool_decide (lo = O) && bool_decide (pos t = pos s)) eqn:E; [done|].
    assert (pred lo + room fwd t < lo + room fwd s)%nat.
    { destruct lo as [|lo]; simpl in *; [|destruct Ht; lia].
      apply bool_decide_eq_false in E. pose proof (within_moves fwd s t Ht E). lia. }
    apply IH; [lia|lia|]. intros u Hu. apply Hk. by eapply within_trans. }
  destruct lo as [|lo]; [|by apply Hbody].
  rewrite (Hbody _ _ (forget_caps gs s) Hmore). destruct (body _ _); [done|]. apply Hk, within_refl.
Qed.
End loop.

Lemma run_within ci n : ∀ fwd, asks_within fwd (run ci n fwd).
Proof.
  induction n as [|neg rs|a IHa b IHb|a IHa b IHb|a IHa lo hi|i a IHa| | | |ahead neg a IHa]; intros fwd k k' s Hk; cbn [run].
  - apply Hk, within_refl.
  - destruct (step fwd s) as [[c t]|] eqn:E; [|done]. case_match; [|done]. apply Hk. by eapply within_step.
  - destruct fwd.
    + apply IHa. intros t Ht. apply IHb. intros u Hu. apply Hk. by eapply within_trans.
    + apply IHb. intros t Ht. apply IHa. intros u Hu. apply Hk. by eapply within_trans.
  - rewrite (IHa fwd k k' s Hk). case_match; [done|]. by apply IHb.
  - apply (repeat_run_enough fwd); [apply IHa|unfold room; lia..|done].
  - apply IHa. intros t [Ht Hr]. apply Hk. by destruct fwd.
  - case_match; [|done]. apply Hk, within_refl.
  - case_match; [|done]. apply Hk, within_refl.
  - case_match; [|done]. apply Hk, within_refl.
  - case_match; case_match; try done; apply Hk; by destruct fwd.
Qed.

(** What a run answers was answered by its continuation, somewhere it may get. *)
Definition answers_within (fwd : bool) (body : (mstate → option mstate) → mstate → option mstate) : Prop :=
  ∀ k s r, body k s = Some r → ∃ t, within fwd s t ∧ k t = Some r.

Lemma repeat_run_answers fwd body gs f k lo hi s r :
  answers_within fwd body → repeat_run body gs k f lo hi s = Some r → ∃ t, within fwd s t ∧ k t = Some r.
Proof.
  intros Hbody. revert lo hi s. induction f as [|f IH]; intros lo hi s; [done|]. simpl.
  assert (k s = Some r → ∃ t, within fwd s t ∧ k t = Some r) as Hhere by (exists s; split; [apply within_refl|done]).
  case_bool_decide; [done|].
  assert (body (λ t, if bool_decide (lo = O) && bool_decide (pos t = pos s) then None
    else repeat_run body gs k f (pred lo) (pred <$> hi) t) (forget_caps gs s) = Some r → ∃ t, within fwd s t ∧ k t = Some r) as Hmore.
  { intros (t & Ht & Hk)%Hbody. destruct (_ && _); [done|]. apply IH in Hk as (u & Hu & Hr).
    exists u. split; [|done]. by eapply within_trans. }
  destruct lo as [|lo]; [|done]. destruct (body _ _) as [x|]; [|done]. intros [= ->]. by apply Hmore.
Qed.

Lemma run_answers ci n : ∀ fwd, answers_within fwd (run ci n fwd).
Proof.
  induction n as [|neg rs|a IHa b IHb|a IHa b IHb|a IHa lo hi|i a IHa| | | |ahead neg a IHa]; intros fwd k s r; cbn [run];
    assert (k s = Some r → ∃ t, within fwd s t ∧ k t = Some r) as Hhere by (exists s; split; [apply within_refl|done]).
  - done.
  - destruct (step fwd s) as [[c t]|] eqn:E; [|done]. case_match; [|done]. exists t. split; [by eapply within_step|done].
  - destruct fwd.
    + intros (t & Ht & (u & Hu & Hk)%IHb)%IHa. exists u. split; [by eapply within_trans|done].
    + intros (t & Ht & (u & Hu & Hk)%IHa)%IHb. exists u. split; [by eapply within_trans|done].
  - destruct (run ci a fwd k s) eqn:E; [|apply IHb]. intros [= ->]. by apply IHa.
  - intros H. eapply repeat_run_answers; [apply IHa|exact H].
  - intros (t & [Ht Hr] & Hk)%IHa. exists (capture fwd i s t). split; [|done]. by destruct fwd.
  - by case_match.
  - by case_match.
  - by case_match.
  - destruct (run ci a ahead Some s) as [t|]; destruct neg; try done.
    intros Hk. exists (with_caps s t). split; [|done]. by destruct fwd.
Qed.

(** The standard's equation for a repetition. *)
Lemma run_repeat ci a lo hi fwd k s :
  run ci (Repeat a lo hi) fwd k s =
    if bool_decide (hi = Some O) then k s
    else
      let more t := if bool_decide (lo = O) && bool_decide (pos t = pos s) then None
                    else run ci (Repeat a (pred lo) (pred <$> hi)) fwd k t in
      match lo with
      | S _ => run ci a fwd more (forget_caps (groups a) s)
      | O => match run ci a fwd more (forget_caps (groups a) s) with Some r => Some r | None => k s end
      end.
Proof.
  cbn [run]. cbn [repeat_run]. case_bool_decide; [done|].
  assert (∀ t, within fwd s t →
    (if bool_decide (lo = O) && bool_decide (pos t = pos s) then None
     else repeat_run (run ci a fwd) (groups a) k (lo + length (ahead_of fwd s)) (pred lo) (pred <$> hi) t) =
    (if bool_decide (lo = O) && bool_decide (pos t = pos s) then None
     else repeat_run (run ci a fwd) (groups a) k (S (pred lo + length (ahead_of fwd t))) (pred lo) (pred <$> hi) t)) as Hmore.
  { intros t Ht. destruct (bool_decide (lo = O) && bool_decide (pos t = pos s)) eqn:E; [done|].
    assert (pred lo + room fwd t < lo + room fwd s)%nat.
    { destruct lo as [|lo]; simpl in *; [|destruct Ht; lia].
      apply bool_decide_eq_false in E. pose proof (within_moves fwd s t Ht E). lia. }
    apply (repeat_run_enough fwd); [apply run_within|unfold room in *; lia..|done]. }
  destruct lo as [|lo].
  - rewrite (run_within ci a fwd _ _ (forget_caps (groups a) s) Hmore). done.
  - by apply run_within.
Qed.
End fuel.

(** ** Searching and replacing *)

(** Every character of a text satisfies [P]. *)
Definition all_chars (P : char → Prop) (s : string) : Prop := Forall P (chars s).

Lemma chars_app s1 s2 : chars (s1 +:+ s2) = chars s1 ++ chars s2.
Proof. induction s1 as [|c s1 IH]; [done|]. simpl. by rewrite IH. Qed.
Lemma chars_text_of l : chars (text_of l) = l.
Proof. apply String.list_ascii_of_string_of_list_ascii. Qed.
Lemma text_of_chars s : text_of (chars s) = s.
Proof. apply String.string_of_list_ascii_of_string. Qed.
Lemma all_chars_app P s1 s2 : all_chars P (s1 +:+ s2) ↔ all_chars P s1 ∧ all_chars P s2.
Proof. unfold all_chars. by rewrite chars_app, Forall_app. Qed.
Lemma length_chars s : length (chars s) = String.length s.
Proof. induction s as [|c s IH]; [done|]. simpl. by rewrite IH. Qed.

Section searching.
Context (re : RegExp).

(** Wherever the character comes next, the pattern matches there. *)
Definition starts (c : char) : Prop := ∀ pre post, match_at re pre (c :: post) ≠ None.
Definition never_empty : Prop := ∀ pre post m, match_at re pre post = Some m → pos m.(f_end) ≠ length pre.

Lemma match_at_whole pre post m :
  match_at re pre post = Some m →
  m.(f_before) = pre ∧ whole m.(f_end) = reverse pre ++ post ∧ (length m.(f_end).(after) <= length post)%nat.
Proof.
  unfold match_at. destruct (run _ _ _ _ _) as [t|] eqn:E; [|done]. intros [= <-]. simpl.
  apply run_answers in E as (u & [Hw Hr] & [= ->]). done.
Qed.

Lemma search_from_some pre post m :
  search_from re pre post = Some m →
  ∃ l rest, post = l ++ rest ∧ match_at re (reverse l ++ pre) rest = Some m ∧ Forall (λ c, ¬ starts c) l.
Proof.
  revert pre. induction post as [|c post IH]; intros pre; simpl.
  - destruct (match_at re pre []) eqn:E; [|done]. intros [= ->]. exists [], []. split_and!; [done..|constructor].
  - destruct (match_at re pre (c :: post)) eqn:E.
    + intros [= ->]. exists [], (c :: post). split_and!; [done..|constructor].
    + intros (l & rest & -> & Hm & Hl)%IH. exists (c :: l), rest. split_and!; [done| |].
      * by rewrite reverse_cons, <-app_assoc.
      * constructor; [|done]. intros Hc. by apply (Hc pre (l ++ rest)).
Qed.

Lemma search_from_none pre post : search_from re pre post = None → Forall (λ c, ¬ starts c) post.
Proof.
  revert pre. induction post as [|c post IH]; intros pre; [by constructor|]. simpl.
  destruct (match_at re pre (c :: post)) eqn:E; [done|]. intros H%IH. constructor; [|done]. intros Hc. by apply (Hc pre post).
Qed.

Lemma match_text pre post m : match_at re pre post = Some m → m.(f_text) = EmptyString → pos m.(f_end) = length pre.
Proof.
  intros Hm Ht. pose proof (match_at_whole _ _ _ Hm) as (_ & Hw & Hlen).
  apply (f_equal length) in Hw. rewrite whole_length, length_app, length_reverse in Hw.
  unfold match_at in Hm. destruct (run _ _ _ _ _) as [t|]; [|done]. injection Hm as <-. cbn [f_text f_end] in *.
  apply (f_equal String.length) in Ht. rewrite <-length_chars in Ht. unfold between in Ht.
  rewrite chars_text_of, length_take in Ht. cbn [after String.length] in Ht. lia.
Qed.

(** The pieces between the matches hold no character a match starts at. *)
Lemma skipped_chars (P : char → Prop) from pre l rest m :
  match_at re (reverse l ++ pre) rest = Some m → (from <= length pre)%nat →
  Forall P (take (length pre - from) pre) → Forall P l → all_chars P (skipped from m.(f_before)).
Proof.
  intros Hm Hfrom Hpend Hl. pose proof (match_at_whole _ _ _ Hm) as (-> & _).
  unfold all_chars, skipped. rewrite chars_text_of. apply Forall_reverse. rewrite length_app, length_reverse, take_app.
  apply Forall_app. split; [by apply Forall_take, Forall_reverse|].
  rewrite length_reverse. by replace (length l + length pre - from - length l)%nat with (length pre - from)%nat by lia.
Qed.

(** A replacement leaves the characters no match starts at. *)
Lemma replaceAll_chars (P : char → Prop) (f : found → string) text :
  never_empty → (∀ c, P c ∨ starts c) → (∀ m, all_chars P (f m)) → all_chars P (replaceAll re f text).
Proof.
  intros Hne HP Hf. unfold replaceAll, matchAll.
  assert (∀ fuel pre post out from, all_chars P out → (from <= length pre)%nat → Forall P (take (length pre - from) pre) →
    (length post < fuel)%nat → reverse pre ++ post = chars text →
    all_chars P (let '(from, out) := foldl (replace_step f) (from, out) (all_from fuel re pre post) in out +:+ text_of (drop from (chars text)))) as H.
  2:{ apply H; [constructor|simpl; lia|constructor|rewrite length_chars; lia|done]. }
  assert (∀ l, Forall (λ c, ¬ starts c) l → Forall P l) as Hclean.
  { intros l Hl. eapply Forall_impl; [exact Hl|]. intros c Hc. by destruct (HP c). }
  induction fuel as [|fuel IH]; intros pre post out from Hout Hfrom Hpend Hfuel Hwhole; [lia|]. simpl.
  destruct (search_from re pre post) as [m|] eqn:E.
  - apply search_from_some in E as (l & rest & -> & Hm & Hl). pose proof (match_at_whole _ _ _ Hm) as (Hb & Hw & Hlen).
    simpl foldl. unfold replace_step at 2. cbn [fst snd].
    assert (reverse m.(f_end).(before) ++ m.(f_end).(after) = chars text) as Hw'.
    { fold (whole m.(f_end)). rewrite Hw, <-Hwhole, reverse_app, reverse_involutive. by rewrite <-!app_assoc. }
    pose proof (f_equal length Hw) as Hl2. rewrite whole_length, !length_app, !length_reverse, length_app, length_reverse in Hl2.
    rewrite length_app in Hfuel. pose proof (Hne _ _ _ Hm) as Hpos. rewrite length_app, length_reverse in Hpos.
    destruct m.(f_text) as [|c0 t0] eqn:Et.
    { exfalso. apply Hpos. rewrite (match_text _ _ _ Hm Et). by rewrite length_app, length_reverse. }
    apply IH; [|unfold pos; lia| | |done].
    + rewrite !all_chars_app. split_and!; [done| |apply Hf]. by eapply skipped_chars; eauto.
    + rewrite Nat.sub_diag. constructor.
    + unfold pos in *. lia.
  - simpl. rewrite all_chars_app. split; [done|]. unfold all_chars. rewrite chars_text_of, <-Hwhole.
    rewrite drop_app_le by (rewrite length_reverse; lia). apply Forall_app. split; [|by apply Hclean; eapply search_from_none].
    rewrite drop_reverse. by apply Forall_reverse.
Qed.
End searching.

(** ** Patterns that begin with one character *)

Section one_character.
Context (re : RegExp) (neg : bool) (rs : list (Z * Z)).

Lemma run_one_of ci k pre c post cs :
  run ci (OneOf neg rs) true k {| before := pre; after := c :: post; caps := cs |} =
    if in_class ci neg rs c then k {| before := c :: pre; after := post; caps := cs |} else None.
Proof. done. Qed.

Lemma run_seq ci a b k s : run ci (Seq a b) true k s = run ci a true (run ci b true k) s.
Proof. done. Qed.

(** An optional repetition never fails where the rest of the pattern does not. *)
Lemma run_optional ci a hi k s : k s ≠ None → run ci (Repeat a 0 hi) true k s ≠ None.
Proof. intros Hk. rewrite run_repeat. case_bool_decide; [done|]. cbv zeta. by destruct (run _ _ _ _ _). Qed.

Definition begins_with_one (n : node) : Prop :=
  n = OneOf neg rs ∨ (∃ b, n = Seq (OneOf neg rs) b) ∨ (∃ lo, n = Repeat (OneOf neg rs) (S lo) None).

Lemma begins_never_empty : begins_with_one re.(tree) → never_empty re.
Proof.
  intros Hn pre post m Hm. unfold match_at in Hm.
  destruct (run _ _ _ _ _) as [t|] eqn:E; [|done]. injection Hm as <-. cbn [f_end].
  assert (∀ k, run re.(flag_i) (OneOf neg rs) true k {| before := pre; after := post; caps := [] |} = Some t →
    (∀ u r, k u = Some r → within true u r) → pos t ≠ length pre) as Hone.
  { intros k Hk Hk'. destruct post as [|c post]; [done|]. rewrite run_one_of in Hk. destruct (in_class _ _ _ _); [|done].
    apply Hk' in Hk as [Hw Hr]. apply (f_equal length) in Hw. rewrite !whole_length in Hw. cbn in Hw, Hr. lia. }
  assert (∀ n u r, run re.(flag_i) n true Some u = Some r → within true u r) as Hsome.
  { intros n u r (v & Hv & [= ->])%run_answers. done. }
  destruct Hn as [Hn|[[b Hn]|[lo Hn]]]; rewrite Hn in E.
  - apply (Hone _ E). intros u r [= ->]. apply within_refl.
  - apply (Hone _ E). intros u r. apply Hsome.
  - rewrite run_repeat in E. cbn [groups forget_caps] in E. apply (Hone _ E). intros u r. destruct (_ && _); [done|]. apply Hsome.
Qed.

Lemma starts_one_of c : re.(tree) = OneOf neg rs → in_class re.(flag_i) neg rs c = true → starts re c.
Proof. intros Ht Hc pre post. unfold match_at. by rewrite Ht, run_one_of, Hc. Qed.

Lemma starts_some c : re.(tree) = Repeat (OneOf neg rs) 1 None → in_class re.(flag_i) neg rs c = true → starts re c.
Proof.
  intros Ht Hc pre post. unfold match_at. rewrite Ht, run_repeat. cbv zeta. cbn [groups forget_caps]. unfold forget_caps. cbn [before after caps].
  rewrite run_one_of, Hc. cbn [bool_decide andb]. destruct (run _ _ _ _ _) eqn:E; [done|]. by apply run_optional in E.
Qed.

Lemma starts_then_optional c b hi : re.(tree) = Seq (OneOf neg rs) (Repeat b 0 hi) → in_class re.(flag_i) neg rs c = true → starts re c.
Proof.
  intros Ht Hc pre post. unfold match_at. rewrite Ht, run_seq, run_one_of, Hc.
  destruct (run _ _ _ _ _) eqn:E; [done|]. by apply run_optional in E.
Qed.

(** [re.test] of one class. *)
Lemma test_one_of text : re.(tree) = OneOf neg rs → test re text = false → all_chars (λ c, in_class re.(flag_i) neg rs c = false) text.
Proof.
  intros Ht. unfold test, exec. destruct (search_from re [] (chars text)) eqn:E; [done|]. intros _.
  apply search_from_none in E. eapply Forall_impl; [exact E|]. simpl. intros c Hc. apply not_true_is_false. intros Hin. by apply Hc, starts_one_of.
Qed.
End one_character.

(** ** A run of one class *)

Lemma forget_caps_nil s : forget_caps [] s = s.
Proof.
  destruct s as [b a c]. unfold forget_caps. cbn [before after caps]. f_equal. induction c as [|x c IH]; [done|].
  rewrite filter_cons_True by apply not_elem_of_nil. by rewrite IH.
Qed.

(** A repeated class takes characters of the class only, as many as it must. *)
Lemma run_class ci neg rs lo k pre post cs r :
  run ci (Repeat (OneOf neg rs) lo None) true k {| before := pre; after := post; caps := cs |} = Some r →
  ∃ l rest, post = l ++ rest ∧ (lo <= length l)%nat ∧ Forall (λ c, in_class ci neg rs c = true) l ∧
    k {| before := reverse l ++ pre; after := rest; caps := cs |} = Some r.
Proof.
  revert lo pre. induction post as [|c post IH]; intros lo pre; rewrite run_repeat; cbn [bool_decide]; cbv zeta; cbn [groups];
    rewrite forget_caps_nil; rewrite (bool_decide_false (@None nat = Some O)) by done.
  - destruct lo as [|lo]; [|done]. cbn [run step ahead_of after]. intros Hk. exists [], []. split_and!; [done|done|constructor|done].
  - rewrite run_one_of. destruct (in_class ci neg rs c) eqn:Hc.
    2:{ destruct lo as [|lo]; [|done]. intros Hk. exists [], (c :: post). split_and!; [done|done|constructor|done]. }
    assert (∀ lo', run ci (Repeat (OneOf neg rs) lo' None) true k {| before := c :: pre; after := post; caps := cs |} = Some r →
      ∃ l rest, c :: post = l ++ rest ∧ (S lo' <= length l)%nat ∧ Forall (λ c, in_class ci neg rs c = true) l ∧
        k {| before := reverse l ++ pre; after := rest; caps := cs |} = Some r) as Hmore.
    { intros lo' (l & rest & -> & Hlen & Hl & Hk)%IH. exists (c :: l), rest. rewrite reverse_cons, <-app_assoc. split_and!; [done|simpl; lia|by constructor|done]. }
    assert ((if bool_decide (lo = 0%nat) && bool_decide (pos {| before := c :: pre; after := post; caps := cs |} = pos {| before := pre; after := c :: post; caps := cs |})
             then None else run ci (Repeat (OneOf neg rs) (pred lo) (pred <$> None)) true k {| before := c :: pre; after := post; caps := cs |})
            = run ci (Repeat (OneOf neg rs) (pred lo) None) true k {| before := c :: pre; after := post; caps := cs |}) as ->.
    { rewrite (bool_decide_false (pos _ = pos _)) by (unfold pos; cbn; lia). by rewrite andb_false_r. }
    destruct lo as [|lo]; [|apply Hmore]. cbn [pred].
    destruct (run _ _ _ _ _) eqn:E; [intros [= ->]; destruct (Hmore O E) as (l & rest & ? & ? & ? & ?); exists l, rest; split_and!; [done|lia|done|done]|].
    intros Hk. exists [], (c :: post). split_and!; [done|done|constructor|done].
Qed.
