(* ===== verification/Backlog.v ===== *)
(** * Backlog: what a supervised session has been asked to do

    src/bridge/src/handler/backlog.ts and evidence.ts.  The items a user asked
    for, the moves a judge may make on them, and the citation each closing move
    must carry.  The array is mutated in place through a map from ids to its
    objects, so an id names the last item that has it.

    A text is one of code units below 256, as everywhere here: of the typographic
    substitutions of evidence.ts only the non-breaking space can occur, and the
    ellipsis and the dash of a message are stand-in characters. *)

From S2P Require Import Prelude Regex DestructiveFloor Authorization.
From Stdlib Require Import Strings.Ascii.

Local Open Scope Z_scope.
Local Open Scope js_scope.

(** ** Text *)

Definition SPACES : RegExp := regexp false "\s+".
Definition oneLine (s : string) : string := trim (replaceAll SPACES (λ _, " ") s).

Definition ELLIPSIS : string := sep (ascii_of_nat 133).
Definition DASH : string := sep (ascii_of_nat 151).
Definition clip (s : string) (max : nat) (ellipsis : string) : string :=
  if (String.length s <=? max)%nat then s else String.substring 0 max s +:+ ellipsis.

(** ** Citations *)

Definition MIN_EVIDENCE_CHARS : Z := 10.

Definition normalizeForCitation (s : string) : string :=
  let out := text_of ((λ c, if code c =? 160 then " "%char else c) <$> chars (toLower s)) in
  trim (replaceAll SPACES (λ _, " ") out).

Definition citationSegments (normalized : string) : list string :=
  filter (λ p, 4 <= strlen p) (trim <$> split (regexp false "\.{3,}") normalized).

Fixpoint containsInOrder (hay : string) (cursor : nat) (segments : list string) : bool :=
  match segments with
  | [] => true
  | seg :: rest =>
      match String.index cursor seg hay with
      | Some at_ => containsInOrder hay (at_ + String.length seg) rest
      | None => false
      end
  end.

Definition TOKEN_SCAN : RegExp := regexp false ("(?:^|[\s" +:+ dq +:+ "'`(\[])(\/[^\s" +:+ dq +:+ "'`)\]]+)").
Definition COMMAND_TOKEN : RegExp := regexp false "^\/[a-z][^\s/\\]*$".

Definition commandTokens (text : string) : list string :=
  foldl (λ found m,
    let token := removing "[.,;:!?]+$" (toLower (group 1 m ?| EmptyString)) in
    if test COMMAND_TOKEN token then add found token else found) [] (matchAll TOKEN_SCAN text).

(** ** Items and moves *)

Inductive ItemStatus := queued | active | done | blocked | skipped | failed.
#[global] Instance ItemStatus_eq_dec : EqDecision ItemStatus.
Proof. solve_decision. Defined.

Definition status_text (s : ItemStatus) : string :=
  match s with queued => "queued" | active => "active" | done => "done" | blocked => "blocked" | skipped => "skipped" | failed => "failed" end.

Record InstructionItem := {
  it_id : string; it_text : string; it_dependsOn : option (list string); it_condition : option string;
  it_status : ItemStatus; it_outcome : option string; it_evidence : option string; it_createdAt : Z }.
#[global] Instance InstructionItem_eq_dec : EqDecision InstructionItem.
Proof. solve_decision. Defined.

Record ItemTransition := { tr_id : string; tr_status : ItemStatus; tr_evidence : option string; tr_outcome : option string }.

Inductive RejectionCode := malformed | unknown_id | already_terminal | missing_evidence | unverified_evidence | missing_command_anchor.
#[global] Instance RejectionCode_eq_dec : EqDecision RejectionCode.
Proof. solve_decision. Defined.

Record Applied := { ap_item : InstructionItem; ap_from : ItemStatus; ap_at : Z }.
(** [rj_transition] is missing where the move did not parse. *)
Record Rejected := { rj_transition : option ItemTransition; rj_reason : string; rj_code : RejectionCode }.

Record TransitionResult := {
  backlog : list InstructionItem; applied_moves : list Applied; rejected_moves : list Rejected; progressed : bool }.

Definition isTerminalStatus (s : ItemStatus) : bool := match s with done | skipped | failed => true | _ => false end.

(** [byId.get(id)]: where the last item of that id is. *)
Fixpoint byId (b : list InstructionItem) (id : string) : option nat :=
  match b with
  | [] => None
  | i :: b => match byId b id with Some n => Some (S n) | None => if decide (i.(it_id) = id) then Some O else None end
  end.

Definition item_of (b : list InstructionItem) (id : string) : option InstructionItem := byId b id ≫= (b !!.).

Record TransitionContext := { evidenceCorpus : string; commandNames : option (list string); anchorWaived : list string }.

Definition anchorTokens (item : InstructionItem) (ctx : TransitionContext) : list string :=
  let tokens := commandTokens item.(it_text) in
  match ctx.(commandNames) with
  | None | Some [] => tokens
  | Some names =>
      let known := (λ n, removing "^\/" (toLower n)) <$> names in
      filter (λ tok, String.substring 1 (String.length tok) tok ∈ known) tokens
  end.

(** [s.includes(t)] *)
Definition includes (s t : string) : bool := match String.index 0 t s with Some _ => true | None => false end.

Definition checkCitation (t : ItemTransition) (item : InstructionItem) (normalizedCorpus : string) (ctx : TransitionContext) :
    option (string * RejectionCode) :=
  let raw := trim (t.(tr_evidence) ?| EmptyString) in
  let status := status_text t.(tr_status) in
  if bool_decide (raw = EmptyString) then Some (status +:+ " requires evidence", missing_evidence)
  else
    let quote := normalizeForCitation raw in
    let segments := citationSegments quote in
    let material := sum_by strlen segments in
    if is_nil segments || (material <? MIN_EVIDENCE_CHARS) then Some (status +:+ " evidence is too short to be a quote", unverified_evidence)
    else if bool_decide (quote = normalizeForCitation item.(it_text))
    then Some (status +:+ " evidence only repeats the item's own text", unverified_evidence)
    else if (MIN_EVIDENCE_CHARS <=? strlen normalizedCorpus) && negb (containsInOrder normalizedCorpus 0 segments)
    then Some (status +:+ " evidence is not in the context you were shown " +:+ DASH +:+ " quote it exactly", unverified_evidence)
    else if bool_decide (t.(tr_status) = done) && negb (bool_decide (item.(it_id) ∈ ctx.(anchorWaived))) then
      match anchorTokens item ctx with
      | [] => None
      | (tok :: _) as tokens =>
          if existsb (includes quote) tokens then None
          else Some ("done needs evidence showing " +:+ tok +:+ " itself being run", missing_command_anchor)
      end
    else None.

Definition moved (t : ItemTransition) (i : InstructionItem) : InstructionItem := {|
  it_id := i.(it_id); it_text := i.(it_text); it_dependsOn := i.(it_dependsOn); it_condition := i.(it_condition);
  it_status := t.(tr_status); it_outcome := t.(tr_outcome); it_evidence := t.(tr_evidence); it_createdAt := i.(it_createdAt) |}.

Definition reject (t : option ItemTransition) (reason : string) (code : RejectionCode) (r : TransitionResult) : TransitionResult := {|
  backlog := r.(backlog); applied_moves := r.(applied_moves);
  rejected_moves := r.(rejected_moves) ++ [{| rj_transition := t; rj_reason := reason; rj_code := code |}]; progressed := r.(progressed) |}.

(** One move; [None] is one the schema does not parse. *)
Definition apply_one (now : Z) (ctx : TransitionContext) (r : TransitionResult) (raw : option ItemTransition) : TransitionResult :=
  match raw with
  | None => reject None "malformed transition" malformed r
  | Some t =>
      match byId r.(backlog) t.(tr_id) with
      | None => reject raw "unknown item id" unknown_id r
      | Some n =>
          match r.(backlog) !! n with
          | None => r
          | Some item =>
              if isTerminalStatus item.(it_status)
              then reject raw (status_text item.(it_status) +:+ " is terminal") already_terminal r
              else
                match if isTerminalStatus t.(tr_status) then checkCitation t item (normalizeForCitation ctx.(evidenceCorpus)) ctx else None with
                | Some (reason, code) => reject raw reason code r
                | None => {|
                    backlog := <[n := moved t item]> r.(backlog);
                    applied_moves := r.(applied_moves) ++ [{| ap_item := moved t item; ap_from := item.(it_status); ap_at := now |}];
                    rejected_moves := r.(rejected_moves);
                    progressed := r.(progressed) || bool_decide (t.(tr_status) = done) |}
                end
          end
      end
  end.

Definition applyTransitions (b : list InstructionItem) (ts : list (option ItemTransition)) (now : Z) (ctx : TransitionContext) : TransitionResult :=
  foldl (apply_one now ctx) {| backlog := b; applied_moves := []; rejected_moves := []; progressed := false |} ts.

(** ** Blocking *)

Definition with_status (s : ItemStatus) (i : InstructionItem) : InstructionItem := {|
  it_id := i.(it_id); it_text := i.(it_text); it_dependsOn := i.(it_dependsOn); it_condition := i.(it_condition);
  it_status := s; it_outcome := i.(it_outcome); it_evidence := i.(it_evidence); it_createdAt := i.(it_createdAt) |}.

Definition deps (i : InstructionItem) : list string := i.(it_dependsOn) ?| [].

Definition waits_on (b : list InstructionItem) (id : string) : bool :=
  match item_of b id with Some dep => bool_decide (dep.(it_status) = blocked ∨ dep.(it_status) = failed) | None => false end.

(** One item of a sweep, in place. *)
Definition sweep_item (acc : list InstructionItem * bool) (n : nat) : list InstructionItem * bool :=
  let '(b, changed) := acc in
  match b !! n with
  | None => acc
  | Some i =>
      if bool_decide (i.(it_status) = blocked) || isTerminalStatus i.(it_status) then acc
      else if existsb (waits_on b) (deps i) then (<[n := with_status blocked i]> b, true) else acc
  end.
Definition sweep (b : list InstructionItem) : list InstructionItem * bool := foldl sweep_item (b, false) (seq 0 (length b)).

(** Each sweep that changes something blocks an item, so [length b + 1] sweeps
    are enough. *)
Fixpoint sweeps (fuel : nat) (b : list InstructionItem) : list InstructionItem :=
  match fuel with
  | O => b
  | S fuel => let '(b, changed) := sweep b in if changed then sweeps fuel b else b
  end.
Definition propagateBlocked (b : list InstructionItem) : list InstructionItem := sweeps (S (length b)) b.

Definition satisfied (b : list InstructionItem) (id : string) : bool :=
  match item_of b id with Some dep => bool_decide (dep.(it_status) = done ∨ dep.(it_status) = skipped) | None => false end.
Definition nextActionable (b : list InstructionItem) : option InstructionItem :=
  snd <$> list_find (λ i, i.(it_status) = queued ∧ forallb (satisfied b) (deps i) = true) b.

Definition allTerminal (b : list InstructionItem) : bool := negb (is_nil b) && forallb (λ i, isTerminalStatus i.(it_status)) b.

(** ** Rendering *)

Definition hex_digit_of (n : Z) : ascii := ascii_of_N (Z.to_N (if n <? 10 then 48 + n else 87 + n)).
Definition escape_control (m : found) : string :=
  match m.(f_text) with
  | String c _ => "\x" +:+ text_of [hex_digit_of (code c / 16); hex_digit_of (code c mod 16)]
  | EmptyString => EmptyString
  end.
Definition previewWithin (max : nat) (s : string) : string := clip (replaceAll (regexp false "[\x00-\x1f\x7f]") escape_control s) max ELLIPSIS.
Definition previewForUser : string → string := previewWithin 300.

Definition renderItem (i : InstructionItem) : string :=
  String.concat " " (
    ["- id=" +:+ oneLine i.(it_id) +:+ " [" +:+ status_text i.(it_status) +:+ "] " +:+ oneLine i.(it_text)]
    ++ (match i.(it_dependsOn) with Some (d :: ds) => ["(depends on: " +:+ String.concat ", " (oneLine <$> d :: ds) +:+ ")"] | _ => [] end)
    ++ (match i.(it_condition) with Some (String _ _ as c) => ["(condition: " +:+ oneLine c +:+ ")"] | _ => [] end)
    ++ (match i.(it_outcome) with Some (String _ _ as o) => ["(outcome: " +:+ oneLine o +:+ ")"] | _ => [] end)).
Definition renderBacklog (b : list InstructionItem) : string :=
  match b with [] => "(no items)" | _ => String.concat NL (renderItem <$> b) end.

Definition count_status (s : ItemStatus) (b : list InstructionItem) : nat := length (filter (λ i, i.(it_status) = s) b).
Record Summary := { sm_done : nat; sm_blocked : nat; sm_skipped : nat; sm_failed : nat }.
Definition summarize (b : list InstructionItem) : Summary := {|
  sm_done := count_status done b; sm_blocked := count_status blocked b;
  sm_skipped := count_status skipped b; sm_failed := count_status failed b |}.

(** ** What a list of moves can do *)

(** An item keeps all but its status, its outcome and its evidence. *)
Definition same_item (i j : InstructionItem) : Prop :=
  j.(it_id) = i.(it_id) ∧ j.(it_text) = i.(it_text) ∧ j.(it_dependsOn) = i.(it_dependsOn) ∧
  j.(it_condition) = i.(it_condition) ∧ j.(it_createdAt) = i.(it_createdAt).

(** The evidence of a move is a quotation: of ten characters or more, not of the
    item's own text, out of the context the judge was shown (where there was one),
    and, to finish an item that names a command, naming that command. *)
Definition cited (ctx : TransitionContext) (i : InstructionItem) (t : ItemTransition) : Prop :=
  let quote := normalizeForCitation (trim (t.(tr_evidence) ?| EmptyString)) in
  let corpus := normalizeForCitation ctx.(evidenceCorpus) in
  citationSegments quote ≠ [] ∧ MIN_EVIDENCE_CHARS <= sum_by strlen (citationSegments quote) ∧
  quote ≠ normalizeForCitation i.(it_text) ∧
  (MIN_EVIDENCE_CHARS <= strlen corpus → containsInOrder corpus 0 (citationSegments quote) = true) ∧
  (t.(tr_status) = done → i.(it_id) ∉ ctx.(anchorWaived) → anchorTokens i ctx ≠ [] →
     ∃ tok, tok ∈ anchorTokens i ctx ∧ includes quote tok = true).

Section moves.
Context (now : Z) (ctx : TransitionContext).
Implicit Types (i j : InstructionItem) (t : ItemTransition) (b : list InstructionItem) (r : TransitionResult).

Lemma same_item_refl i : same_item i i.
Proof. done. Qed.
Lemma same_item_trans i j k : same_item i j → same_item j k → same_item i k.
Proof. unfold same_item. intuition congruence. Qed.
Lemma same_item_moved t i : same_item i (moved t i).
Proof. done. Qed.

Lemma anchorTokens_same i j : same_item i j → anchorTokens j ctx = anchorTokens i ctx.
Proof. intros (_ & E & _). unfold anchorTokens. by rewrite E. Qed.

Lemma cited_same i j t : same_item i j → cited ctx j t → cited ctx i t.
Proof.
  intros Hs. pose proof (anchorTokens_same i j Hs) as Ha. destruct Hs as (E1 & E2 & _).
  unfold cited. rewrite Ha, E1, E2. done.
Qed.

Lemma checkCitation_cited t i : checkCitation t i (normalizeForCitation ctx.(evidenceCorpus)) ctx = None → cited ctx i t.
Proof.
  unfold checkCitation, cited. case_bool_decide; [done|].
  generalize (normalizeForCitation (trim (t.(tr_evidence) ?| EmptyString))) (normalizeForCitation ctx.(evidenceCorpus)). intros quote corpus.
  destruct (is_nil _ || _) eqn:E1; [done|]. apply orb_false_iff in E1 as [E1 E1'%Z.ltb_ge].
  case_bool_decide as E2; [done|]. destruct ((_ <=? _) && _) eqn:E3; [done|]. intros E4.
  split_and!; [by intros E; rewrite E in E1|done|done| |].
  - intros Hlen%Z.leb_le. rewrite Hlen in E3. by apply negb_false_iff in E3.
  - intros Hd Hw Ht. rewrite bool_decide_true, bool_decide_false in E4 by done. revert Ht E4. cbn [negb andb].
    destruct (anchorTokens i ctx) as [|tok toks]; [done|]. intros _. destruct (existsb _ _) eqn:E5; [|done]. intros _.
    apply existsb_exists in E5 as (tok' & Hin & ?). exists tok'. split; [by apply list_elem_of_In|done].
Qed.

Lemma byId_lookup b id n : byId b id = Some n → ∃ i, b !! n = Some i ∧ i.(it_id) = id.
Proof.
  revert n. induction b as [|i b IH]; intros n; [done|]. simpl. destruct (byId b id) as [m|].
  - intros [= <-]. simpl. by apply IH.
  - case_decide; [|done]. intros [= <-]. by exists i.
Qed.

(** How an item stands after some moves. *)
Definition moved_by (ts : list (option ItemTransition)) i j : Prop :=
  same_item i j ∧ (isTerminalStatus i.(it_status) = true → j = i) ∧
  (isTerminalStatus i.(it_status) = false → isTerminalStatus j.(it_status) = true →
     ∃ t, Some t ∈ ts ∧ t.(tr_id) = i.(it_id) ∧ j.(it_status) = t.(tr_status) ∧ j.(it_evidence) = t.(tr_evidence) ∧ cited ctx i t).

Definition finished i j : Prop := i.(it_status) ≠ done ∧ j.(it_status) = done.

Definition moves_ok b (ts : list (option ItemTransition)) r : Prop :=
  Forall2 (moved_by ts) b r.(backlog) ∧
  (length r.(applied_moves) + length r.(rejected_moves))%nat = length ts ∧
  (r.(progressed) = true ↔ ∃ n i j, b !! n = Some i ∧ r.(backlog) !! n = Some j ∧ finished i j).

Lemma moved_by_more ts (t : option ItemTransition) i j : moved_by ts i j → moved_by (ts ++ [t]) i j.
Proof.
  intros (Hs & Ht & Hc). split_and!; [done..|]. intros H1 H2. destruct (Hc H1 H2) as (t' & Hin & Hrest).
  exists t'. split; [|done]. apply elem_of_app. by left.
Qed.

Lemma apply_one_shape b ts r raw :
  moves_ok b ts r →
  (apply_one now ctx r raw).(backlog) = r.(backlog) ∧ (apply_one now ctx r raw).(progressed) = r.(progressed) ∧
    (length (apply_one now ctx r raw).(applied_moves) + length (apply_one now ctx r raw).(rejected_moves))%nat = S (length ts) ∨
  ∃ t n i, raw = Some t ∧ r.(backlog) !! n = Some i ∧ i.(it_id) = t.(tr_id) ∧ isTerminalStatus i.(it_status) = false ∧
    (isTerminalStatus t.(tr_status) = true → cited ctx i t) ∧
    (apply_one now ctx r raw).(backlog) = <[n := moved t i]> r.(backlog) ∧
    (apply_one now ctx r raw).(progressed) = r.(progressed) || bool_decide (t.(tr_status) = done) ∧
    (length (apply_one now ctx r raw).(applied_moves) + length (apply_one now ctx r raw).(rejected_moves))%nat = S (length ts).
Proof.
  intros (_ & Hlen & _).
  assert (∀ raw' reason code, (reject raw' reason code r).(backlog) = r.(backlog) ∧ (reject raw' reason code r).(progressed) = r.(progressed) ∧
    (length (reject raw' reason code r).(applied_moves) + length (reject raw' reason code r).(rejected_moves))%nat = S (length ts)) as Hrej.
  { intros. simpl. rewrite length_app. simpl. split_and!; [done..|lia]. }
  unfold apply_one. destruct raw as [t|]; [|by left].
  destruct (byId r.(backlog) t.(tr_id)) as [n|] eqn:En; [|by left].
  apply byId_lookup in En as (i & Hi & Hid). rewrite Hi.
  destruct (isTerminalStatus i.(it_status)) eqn:Ei; [by left|].
  destruct (if isTerminalStatus t.(tr_status) then _ else _) as [[reason code]|] eqn:Ec; [by left|]. right.
  exists t, n, i. cbn [backlog applied_moves rejected_moves progressed]. rewrite length_app. simpl. split_and!; try done; [|lia].
  intros Et. rewrite Et in Ec. by apply checkCitation_cited.
Qed.

Lemma finished_moved b n i j t :
  i.(it_status) ≠ done → isTerminalStatus j.(it_status) = false → b !! n = Some j →
  finished i (moved t j) ↔ t.(tr_status) = done.
Proof. unfold finished, moved. simpl. naive_solver. Qed.

Lemma apply_one_ok b ts r raw : moves_ok b ts r → moves_ok b (ts ++ [raw]) (apply_one now ctx r raw).
Proof.
  intros Hok. pose proof (apply_one_shape b ts r raw Hok) as Hshape. destruct Hok as (Hm & Hlen & Hp). unfold moves_ok. rewrite length_app. simpl.
  assert (Forall2 (moved_by (ts ++ [raw])) b r.(backlog)) as Hm' by (eapply Forall2_impl; [exact Hm|apply moved_by_more]).
  destruct Hshape as [(-> & -> & ->)|(t & n & j & -> & Hj & Hid & Hopen & Hcite & -> & -> & ->)]; [split_and!; [done|lia|done]|].
  destruct (Forall2_lookup_r _ _ _ _ _ Hm' Hj) as (i & Hi & Hij). pose proof Hij as (Hs & Hterm & Hclosed).
  assert (isTerminalStatus i.(it_status) = false) as Hio.
  { destruct (isTerminalStatus i.(it_status)) eqn:E; [|done]. rewrite (Hterm eq_refl), E in Hopen. done. }
  split_and!; [|lia|].
  - rewrite <-(list_insert_id b n i Hi). apply Forall2_insert; [done|]. split_and!.
    + eapply same_item_trans; [exact Hs|apply same_item_moved].
    + by rewrite Hio.
    + intros _ Ht. exists t. split; [apply elem_of_app; right; left|]. split; [|split_and!; [done..|]].
      * rewrite <-Hid. by destruct Hs.
      * eapply cited_same; [exact Hs|]. by apply Hcite.
  - rewrite orb_true_iff, bool_decide_eq_true, Hp. split.
    + intros [(m & i1 & j1 & H1 & H2 & H3)|Hd].
      * exists m, i1. destruct (decide (m = n)) as [->|Hne].
        -- exfalso. rewrite Hj in H2. injection H2 as ->. destruct H3 as [_ H3]. by rewrite H3 in Hopen.
        -- exists j1. by rewrite list_lookup_insert_ne.
      * exists n, i, (moved t j). rewrite list_lookup_insert_eq by (by eapply lookup_lt_Some). split_and!; [done..|].
        split; [|done]. by destruct i.(it_status).
    + intros (m & i1 & j1 & H1 & H2 & H3). destruct (decide (m = n)) as [->|Hne].
      * right. rewrite list_lookup_insert_eq in H2 by (by eapply lookup_lt_Some). injection H2 as <-. by destruct H3.
      * left. exists m, i1, j1. by rewrite list_lookup_insert_ne in H2.
Qed.

Lemma moves_ok_start b : moves_ok b [] {| backlog := b; applied_moves := []; rejected_moves := []; progressed := false |}.
Proof.
  split_and!; [|done|].
  - apply Forall2_same_length_lookup_2; [done|]. intros n i j Hi Hj. cbn [backlog] in Hj. rewrite Hi in Hj. injection Hj as <-.
    split_and!; [done..|]. intros H1 H2. by rewrite H1 in H2.
  - simpl. split; [done|]. intros (n & i & j & Hi & Hj & [H1 H2]). rewrite Hi in Hj. by injection Hj as <-.
Qed.

Lemma applyTransitions_ok b ts : moves_ok b ts (applyTransitions b ts now ctx).
Proof.
  unfold applyTransitions. induction ts as [|t ts IH] using rev_ind; [apply moves_ok_start|]. rewrite foldl_app. by apply apply_one_ok.
Qed.
End moves.

(** Nothing but a citation closes an item, and nothing reopens one.  After any
    list of moves each item is itself still, but for its status, outcome and
    evidence; an item that was closed is untouched; one that was open and is now
    closed has the status and the evidence of a move of the list, and that evidence
    is a quotation from what the judge was shown.  Every move is applied or refused,
    and progress is reported exactly when an item became done. *)
Theorem closing_moves_cited (b : list InstructionItem) (ts : list (option ItemTransition)) (now : Z) (ctx : TransitionContext) :
  let r := applyTransitions b ts now ctx in
  Forall2 (moved_by ctx ts) b r.(backlog) ∧
  (length r.(applied_moves) + length r.(rejected_moves))%nat = length ts ∧
  (r.(progressed) = true ↔ ∃ n i j, b !! n = Some i ∧ r.(backlog) !! n = Some j ∧ finished i j).
Proof. apply applyTransitions_ok. Qed.

(** ** Blocking is the least closure *)

Definition blockable (i : InstructionItem) : bool := negb (bool_decide (i.(it_status) = blocked) || isTerminalStatus i.(it_status)).

(** An open item that depends, through open items, on a blocked or failed one. *)
Inductive will_block (b : list InstructionItem) : nat → Prop :=
| will_block_now n i id m dep :
    b !! n = Some i → blockable i = true → id ∈ deps i → byId b id = Some m → b !! m = Some dep →
    dep.(it_status) = blocked ∨ dep.(it_status) = failed → will_block b n
| will_block_later n i id m :
    b !! n = Some i → blockable i = true → id ∈ deps i → byId b id = Some m → will_block b m → will_block b n.

Section blocking.
Context (b : list InstructionItem).
Implicit Types (c : list InstructionItem) (i j : InstructionItem).

(** [c] is [b] with some of the items that will block already blocked. *)
Definition blocking_of c : Prop :=
  Forall2 (λ i j, j = i ∨ j = with_status blocked i) b c ∧
  ∀ n i, b !! n = Some i → c !! n ≠ Some i → will_block b n.

Lemma byId_blocking c id : blocking_of c → byId c id = byId b id.
Proof.
  intros [H _]. induction H as [|i j l k Hij _ IH]; [done|]. simpl. rewrite IH. by destruct Hij as [->| ->].
Qed.

Lemma blocking_at c n i : blocking_of c → b !! n = Some i → c !! n = Some i ∨ c !! n = Some (with_status blocked i) ∧ will_block b n.
Proof.
  intros [H Hw] Hi. destruct (Forall2_lookup_l _ _ _ _ _ H Hi) as (j & Hj & [->| ->]); [by left|].
  destruct (decide (c !! n = Some i)); [by left|]. right. split; [done|]. by eapply Hw.
Qed.

Lemma blocking_from c n j : blocking_of c → c !! n = Some j → blockable j = true → b !! n = Some j.
Proof.
  intros Hc Hj Hb. destruct (Forall2_lookup_r _ _ _ _ _ (proj1 Hc) Hj) as (i & Hi & [->| ->]); done.
Qed.

Lemma waits_on_blocking c id : blocking_of c → waits_on c id = true →
  ∃ m dep, byId b id = Some m ∧ b !! m = Some dep ∧ (dep.(it_status) = blocked ∨ dep.(it_status) = failed ∨ will_block b m).
Proof.
  intros Hc. unfold waits_on, item_of. rewrite (byId_blocking c id Hc).
  destruct (byId b id) as [m|] eqn:Em; [|done]. simpl. destruct (byId_lookup b id m Em) as (dep & Hdep & _).
  intros Hw. exists m, dep. split_and!; [done..|].
  destruct (blocking_at c m dep Hc Hdep) as [Hd|[_ Hd]]; [|by right; right].
  rewrite Hd in Hw. apply bool_decide_eq_true in Hw. tauto.
Qed.

Lemma blocks_ok c n i :
  blocking_of c → c !! n = Some i → blockable i = true → existsb (waits_on c) (deps i) = true → blocking_of (<[n := with_status blocked i]> c).
Proof.
  intros Hc Hi Hb Hd. pose proof (blocking_from c n i Hc Hi Hb) as Hbi.
  apply existsb_exists in Hd as (id & Hin%list_elem_of_In & (m & dep & Hm & Hdep & Hw)%(waits_on_blocking c)); [|done]. split.
  - rewrite <-(list_insert_id b n i Hbi). apply Forall2_insert; [apply Hc|by right].
  - intros k i' Hi' Hne. destruct (decide (k = n)) as [->|Hk].
    + rewrite Hbi in Hi'. injection Hi' as <-. destruct Hw as [Hw|[Hw|Hw]]; [by eapply will_block_now; eauto..|by eapply will_block_later].
    + rewrite list_lookup_insert_ne in Hne by done. by apply (proj2 Hc) with i'.
Qed.

(** The items a sweep may still block. *)
Definition open_count c : nat := length (filter (λ i, blockable i = true) c).

Lemma open_count_insert c n i j :
  c !! n = Some i → blockable i = true → blockable j = false → S (open_count (<[n := j]> c)) = open_count c.
Proof.
  intros Hi Hb Hj. unfold open_count. pose proof (take_drop_middle c n i Hi) as Hc.
  rewrite insert_take_drop by (by eapply lookup_lt_Some). rewrite <-Hc at 3.
  rewrite !filter_app, !filter_cons, Hb, Hj, !length_app. simpl. lia.
Qed.

Lemma sweep_item_cases c (f : bool) n :
  sweep_item (c, f) n = (c, f) ∧ (∀ i, c !! n = Some i → blockable i = true → existsb (waits_on c) (deps i) = false) ∨
  ∃ i, c !! n = Some i ∧ blockable i = true ∧ existsb (waits_on c) (deps i) = true ∧
    sweep_item (c, f) n = (<[n := with_status blocked i]> c, true).
Proof.
  unfold sweep_item, blockable. destruct (c !! n) as [i|] eqn:Ei; [|by left].
  destruct (bool_decide _ || _) eqn:Eb.
  - left. split; [done|]. intros i' [= <-]. by rewrite Eb.
  - destruct (existsb _ _) eqn:Ew; [right|left].
    + exists i. by rewrite Eb.
    + split; [done|]. by intros i' [= <-] _.
Qed.

Lemma sweep_run l c (f : bool) :
  blocking_of c → let '(c', f') := foldl sweep_item (c, f) l in
  blocking_of c' ∧ (f = true → f' = true) ∧ (open_count c' <= open_count c)%nat ∧
  (f = false → if f' then (open_count c' < open_count c)%nat
               else c' = c ∧ ∀ n i, n ∈ l → c !! n = Some i → blockable i = true → existsb (waits_on c) (deps i) = false).
Proof.
  revert c f. induction l as [|n l IH]; intros c f Hc; cbn [foldl].
  - split_and!; [done..|]. intros ->. split; [done|]. by intros n i ?%not_elem_of_nil.
  - destruct (sweep_item_cases c f n) as [[-> Hno]|(i & Hi & Hb & Hd & ->)].
    + specialize (IH c f Hc). destruct (foldl _ _ _) as [c' f']. destruct IH as (H1 & H2 & H3 & H4). split_and!; [done..|].
      intros Hf. specialize (H4 Hf). destruct f'; [done|]. destruct H4 as [-> H4]. split; [done|].
      intros m i [->|Hm]%elem_of_cons; [by apply Hno|by apply H4].
    + pose proof (blocks_ok c n i Hc Hi Hb Hd) as Hc'. specialize (IH _ true Hc'). pose proof (open_count_insert c n i (with_status blocked i) Hi Hb eq_refl).
      destruct (foldl _ _ _) as [c' f']. destruct IH as (H1 & H2 & H3 & _). rewrite H2 by done. split_and!; [done..|lia|]. intros _. lia.
Qed.

Definition settled c : Prop := ∀ n i, c !! n = Some i → blockable i = true → existsb (waits_on c) (deps i) = false.

Lemma sweeps_settle fuel c : blocking_of c → (open_count c < fuel)%nat → blocking_of (sweeps fuel c) ∧ settled (sweeps fuel c).
Proof.
  revert c. induction fuel as [|fuel IH]; intros c Hc Hfuel; [lia|]. simpl. unfold sweep.
  pose proof (sweep_run (seq 0 (length c)) c false Hc) as H. destruct (foldl _ _ _) as [c' f'].
  destruct H as (H1 & _ & H3 & H4). specialize (H4 eq_refl). destruct f'; [apply IH; [done|lia]|]. destruct H4 as [-> H4].
  split; [done|]. intros n i Hi. apply (H4 n i); [|done]. apply elem_of_seq. apply lookup_lt_Some in Hi. lia.
Qed.

Lemma will_block_open n : will_block b n → ∃ i, b !! n = Some i ∧ blockable i = true.
Proof. destruct 1; eauto. Qed.

Lemma waits_on_blocked c id m dep :
  blocking_of c → byId b id = Some m → c !! m = Some dep → dep.(it_status) = blocked ∨ dep.(it_status) = failed → waits_on c id = true.
Proof.
  intros Hc Hm Hdep Hs. unfold waits_on, item_of. rewrite (byId_blocking c id Hc), Hm. simpl. rewrite Hdep. by apply bool_decide_eq_true.
Qed.

(** In a settled backlog, an item one of whose dependencies is blocked or failed
    is itself blocked. *)
Lemma settled_dependent c n i id :
  blocking_of c → settled c → b !! n = Some i → blockable i = true → id ∈ deps i → waits_on c id = true →
  c !! n = Some (with_status blocked i).
Proof.
  intros Hc Hs Hi Hb Hin Hw. destruct (blocking_at c n i Hc Hi) as [Hn|[Hn _]]; [|done].
  specialize (Hs n i Hn Hb). assert (existsb (waits_on c) (deps i) = true) as E; [|by rewrite E in Hs].
  apply existsb_exists. exists id. split; [by apply list_elem_of_In|done].
Qed.

Lemma settled_blocks c n : blocking_of c → settled c → will_block b n → ∃ i, b !! n = Some i ∧ c !! n = Some (with_status blocked i).
Proof.
  intros Hc Hs. induction 1 as [n i id m dep Hi Hb Hin Hm Hdep Hwhy|n i id m Hi Hb Hin Hm _ (dep & Hdep & IH)];
    exists i; (split; [done|]); apply (settled_dependent c _ i id); try done.
  - destruct (blocking_at c m dep Hc Hdep) as [Hd|[Hd _]]; eapply (waits_on_blocked c id m); eauto.
  - eapply (waits_on_blocked c id m); eauto.
Qed.

Lemma blocking_of_refl : blocking_of b.
Proof.
  split; [|by intros n i Hi []]. apply Forall2_same_length_lookup_2; [done|]. intros n i j Hi Hj. left. congruence.
Qed.

Lemma propagated : blocking_of (propagateBlocked b) ∧ settled (propagateBlocked b).
Proof.
  apply sweeps_settle; [apply blocking_of_refl|]. unfold open_count. pose proof (length_filter (λ i, blockable i = true) b). lia.
Qed.
End blocking.

(** C25: propagation blocks exactly the least closure.  However the items depend on
    one another, cycles included, the sweeps end with each open item that depends,
    directly or through open items, on a blocked or a failed one set to blocked,
    and with every other item exactly as it was. *)
Theorem propagation_blocks_closure (b : list InstructionItem) (n : nat) (i : InstructionItem) :
  b !! n = Some i →
  length (propagateBlocked b) = length b ∧
  (will_block b n → propagateBlocked b !! n = Some (with_status blocked i)) ∧
  (¬ will_block b n → propagateBlocked b !! n = Some i).
Proof.
  intros Hi. destruct (propagated b) as [Hc Hs]. split_and!.
  - symmetry. apply (Forall2_length _ _ _ (proj1 Hc)).
  - intros Hw. destruct (settled_blocks b _ n Hc Hs Hw) as (i' & Hi' & ->). congruence.
  - intros Hw. by destruct (blocking_at b _ n i Hc Hi) as [Hn|[_ Hn]].
Qed.

Section trial.
Let item id on s : InstructionItem := {|
  it_id := id; it_text := id; it_dependsOn := on; it_condition := None; it_status := s; it_outcome := None; it_evidence := None; it_createdAt := 0 |}.

(** A cycle hanging off a failed item is blocked; an item of its own is not. *)
Lemma propagation_blocks_closure_witness :
  let b := [item "a" (Some ["b"; "c"]) queued; item "b" (Some ["a"]) queued; item "c" None failed; item "d" (Some ["e"]) queued] in
  propagateBlocked b !! 1%nat = Some (item "b" (Some ["a"]) blocked) ∧ propagateBlocked b !! 3%nat = Some (item "d" (Some ["e"]) queued).
Proof.
  intros b. split.
  - apply (propagation_blocks_closure b 1 (item "b" (Some ["a"]) queued)); [reflexivity|].
    eapply (will_block_later b 1 (item "b" (Some ["a"]) queued) "a" 0); [done|done|by left|done|].
    eapply (will_block_now b 0 (item "a" (Some ["b"; "c"]) queued) "c" 2 (item "c" None failed)); [done|done|by right; left|done|done|by right].
  - vm_compute. reflexivity.
Defined.
End trial.
