(* ===== verification/ReplyGuard.v ===== *)
(** * ReplyGuard: what the supervisor may send, and how often

    src/bridge/src/handler/reply-shape.ts and runaway-guard.ts, with the decision
    of decision.ts they read.  A judge's decision is flattened to the one line
    that will be typed, refused for its shape, and counted: after five replies
    with no human between, or where one of the last four is repeated, nothing
    more is sent.

    [confidence] is not read by any of the code modelled, so a decision carries
    none; an object of [notify.approve] that does not parse is missing, as its
    [catch] makes it. *)

From S2P Require Import Prelude Regex DestructiveFloor Authorization Backlog.
From stdpp Require Import pretty.
From Stdlib Require Import Strings.Ascii.

Local Open Scope Z_scope.
Local Open Scope js_scope.

(** ** Decisions *)

Inductive Verdict := Continue | Handle | Escalate.
Inductive ActionKind := SlashCommand | NoAction.
Inductive Urgency := Normal | High.
#[global] Instance Verdict_eq_dec : EqDecision Verdict.
Proof. solve_decision. Defined.

Record Approve := { ap_label : option string; ap_cost : option string }.
Record Notify := { nt_title : string; nt_body : string; nt_draftReply : string; nt_urgency : Urgency; nt_approve : option Approve }.
Record DecisionAskOption := { ao_label : string; ao_cost : string; ao_recommended : bool }.
Record DecisionAsk := { dk_question : string; dk_reasoning : string; dk_unblocked : list string; dk_options : option (list DecisionAskOption) }.

Record HandlerDecision := {
  d_decision : Verdict; d_reason : string; d_reply : option string; d_action : option (ActionKind * string);
  d_notify : option Notify; d_ask : option DecisionAsk; d_transitions : option (list ItemTransition) }.

(** The bounds [HandlerDecisionSchema] puts on an ask. *)
Definition ask_parses (a : DecisionAsk) : bool :=
  negb (bool_decide (trim a.(dk_question) = EmptyString)) && negb (bool_decide (trim a.(dk_reasoning) = EmptyString)) &&
  bool_decide (1 <= length a.(dk_unblocked) <= 10)%nat &&
  match a.(dk_options) with None => true | Some l => bool_decide (2 <= length l <= 4)%nat end.

(** An entry of an agent's command catalog: [{ id, name, ... }]. *)
Record CapCommand := { cc_id : string; cc_name : string }.

(** ** The shape of a reply *)

Definition MAX_REPLY_CHARS : Z := 4096.
Definition VERB : RegExp := regexp false "^\/[^\s/\\]+$".
Definition CONTROL_CHARS : RegExp := regexp false "[\x00-\x1f\x7f]".
Definition SPACE : RegExp := regexp false "\s".

Definition splitSlashCommand (value : string) : string * string :=
  let v := trim value in
  match exec SPACE v with
  | None => (v, EmptyString)
  | Some m =>
      let i := length m.(f_before) in
      (String.substring 0 i v, trim_start (String.substring i (String.length v) v))
  end.

Definition findCommand (catalog : option (list CapCommand)) (verb : string) : option CapCommand :=
  match verb with
  | EmptyString => None
  | _ =>
      let name := toLower (removing "^\/" verb) in
      l ← catalog; snd <$> list_find (λ c, toLower c.(cc_name) = name) l
  end.

Record ReplyShape := { rs_reply : string; rs_actionText : string; rs_verb : string; rs_args : string; rs_written : string }.

(** [a || b] *)
Definition or_else (a b : string) : string := match a with EmptyString => b | _ => a end.

Definition replyShape (d : HandlerDecision) : ReplyShape :=
  let reply := oneLine (d.(d_reply) ?| EmptyString) in
  let actionText := oneLine (match d.(d_action) with Some (SlashCommand, v) => v | _ => EmptyString end) in
  let '(verb, args) := match actionText with EmptyString => (EmptyString, EmptyString) | _ => splitSlashCommand actionText end in
  {| rs_reply := reply; rs_actionText := actionText; rs_verb := verb; rs_args := args; rs_written := or_else actionText reply |}.

Record ShapeRejection := { sj_reason : string; sj_retryable : bool }.

Definition checkReplyShape (shape : ReplyShape) (catalog : option (list CapCommand)) : option ShapeRejection :=
  let no_reply := bool_decide (shape.(rs_reply) = EmptyString) in
  let no_action := bool_decide (shape.(rs_actionText) = EmptyString) in
  let field := if no_action then "reply" else "action.value" in
  if no_reply && no_action then Some {| sj_reason := "empty reply"; sj_retryable := false |}
  else if negb no_reply && negb no_action then Some {| sj_reason := "set either reply or action, not both"; sj_retryable := true |}
  else if MAX_REPLY_CHARS <? strlen shape.(rs_written)
  then Some {| sj_reason := field +:+ " too long (" +:+ pretty (strlen shape.(rs_written)) +:+ " > 4096)"; sj_retryable := true |}
  else if test CONTROL_CHARS shape.(rs_written)
  then Some {| sj_reason := field +:+ " contains control characters"; sj_retryable := true |}
  else if no_action then None
  else if negb (test VERB shape.(rs_verb))
  then Some {| sj_reason := "slash command value is not a simple verb: it must start with " +:+ dq +:+ "/verb" +:+ dq +:+ " " +:+ DASH
                            +:+ " put any explanation in `reason`, never in `value`";
               sj_retryable := true |}
  else match catalog, findCommand catalog shape.(rs_verb) with
       | Some (_ :: _), None =>
           Some {| sj_reason := "slash command " +:+ shape.(rs_verb) +:+ " is not in this session's command catalog"; sj_retryable := false |}
       | _, _ => None
       end.

(** ** The runaway guard *)

Record GuardState := { consecutive : nat; recentHashes : list Z }.
Abbreviation RunawayGuard := (gmap string GuardState).

Definition maxConsecutive : nat := 5.
Definition repeatWindow : nat := 4.

(** [n | 0] *)
Definition to_int32 (n : Z) : Z := (n + 2 ^ 31) mod 2 ^ 32 - 2 ^ 31.

(** A hash is printed and compared as a text; the number is kept here. *)
Definition hash (s : string) : Z :=
  foldl (λ h c, to_int32 (to_int32 (Z.shiftl h 5) + h + code c)) 5381 (chars s).

Definition state_of (g : RunawayGuard) (id : string) : GuardState := g !! id ?| {| consecutive := 0; recentHashes := [] |}.

(** [get] makes the state of a terminal that has none; an absent state and that
    one are the same to every method. *)
Definition check_guard (g : RunawayGuard) (id replyText : string) : option string :=
  let s := state_of g id in
  if bool_decide (maxConsecutive <= s.(consecutive))%nat then Some "runaway cap reached (5 consecutive auto-replies)"
  else if bool_decide (hash replyText ∈ s.(recentHashes)) then Some "circular exchange (this reply was already sent)"
  else None.

Definition remaining (g : RunawayGuard) (id : string) : nat := maxConsecutive - (state_of g id).(consecutive).

Definition recordAutoReply (id replyText : string) (g : RunawayGuard) : RunawayGuard :=
  let s := state_of g id in
  let hs := s.(recentHashes) ++ [hash replyText] in
  <[id := {| consecutive := S s.(consecutive); recentHashes := if (repeatWindow <? length hs)%nat then tail hs else hs |}]> g.

Definition reset (id : string) (g : RunawayGuard) : RunawayGuard := base.delete id g.

Definition recordProgress (id : string) (g : RunawayGuard) : RunawayGuard :=
  match g !! id with
  | Some s => <[id := {| consecutive := 0; recentHashes := s.(recentHashes) |}]> g
  | None => g
  end.

(** ** Keystrokes

    src/bridge/src/keystrokes.ts. *)

Definition CR : string := sep (ascii_of_nat 13).
Definition ESC : string := sep (ascii_of_nat 27).
(** [s.endsWith(t)] *)
Definition ends_with (t s : string) : bool :=
  bool_decide (String.substring (String.length s - String.length t) (String.length t) s = t).

Definition isSubmitKeystroke (data : string) : bool := ends_with CR data && negb (ends_with (ESC +:+ CR) data).
Definition isTerminalReport (data : string) : bool :=
  test (regexp false "^\x1b\[(?:<\d+;\d+;\d+[Mm]|M[\s\S]{3}|\d+;\d+;\d+M|[IO])$") data.
Definition hasTypedContent (data : string) : bool :=
  if isTerminalReport data then false else negb (bool_decide (removing "\r$" data = EmptyString)).
Definition opensCommandLine (data : string) : bool := String.prefix "/" data.
Definition submittedLine (data : string) : option string :=
  if isSubmitKeystroke data && hasTypedContent data then Some (String.substring 0 (String.length data - 1) data) else None.
Definition isLoneEsc (data : string) : bool := bool_decide (data = ESC) || test (regexp false "^\x1b\[27(?:;1)?u$") data.
Definition isCtrlC (data : string) : bool := bool_decide (data = sep (ascii_of_nat 3)) || test (regexp false "^\x1b\[99;5u$") data.

Example keystrokes_tried :
  isSubmitKeystroke ("git status" +:+ CR) = true ∧ isSubmitKeystroke (ESC +:+ CR) = false ∧
  isTerminalReport (ESC +:+ "[<0;10;20M") = true ∧ isTerminalReport (ESC +:+ "[I") = true ∧ isTerminalReport "x" = false ∧
  hasTypedContent CR = false ∧ submittedLine ("ls" +:+ CR) = Some "ls" ∧ isLoneEsc (ESC +:+ "[27u") = true ∧
  isLoneEsc (ESC +:+ "[A") = false ∧ isCtrlC (ESC +:+ "[99;5u") = true.
Proof. vm_compute. done. Qed.

(** ** What an accepted reply is *)

Definition is_control (c : Ascii.ascii) : bool := in_class false false [(0, 31); (127, 127)] c.
Definition verb_char (c : Ascii.ascii) : bool := in_class false true (space_ranges ++ [(47, 47); (92, 92)]) c.

Lemma no_control s : test CONTROL_CHARS s = false → all_chars (λ c, is_control c = false) s.
Proof. apply (test_one_of CONTROL_CHARS false [(0, 31); (127, 127)]). by vm_compute. Qed.

(** An anchored pattern matches at the start or nowhere. *)
Lemma test_anchored re n s : re.(tree) = Seq AtStart n → test re s = true →
  run re.(flag_i) n true Some {| before := []; after := chars s; caps := [] |} ≠ None.
Proof.
  intros Ht. unfold test, exec. destruct (search_from re [] (chars s)) as [m|] eqn:E; [|done]. intros _.
  apply search_from_some in E as (l & rest & Hl & Hm & _). unfold match_at in Hm. rewrite Ht, run_seq in Hm. cbn [run] in Hm.
  destruct (is_nil _) eqn:En; [|done]. cbn [before] in En. rewrite app_nil_r in En, Hm. rewrite <-(reverse_involutive l) in Hl.
  destruct (reverse l) as [|x xs] eqn:El; [|done]. rewrite reverse_nil, app_nil_l in Hl. rewrite Hl.
  by destruct (run re.(flag_i) n true Some _).
Qed.

Lemma run_at_end ci k s : run ci AtEnd true k s ≠ None → s.(after) = [] ∧ k s ≠ None.
Proof. cbn [run]. destruct s as [b [|c a] cs]; done. Qed.

(** A verb is a slash and then at least one character, none of them a space or a
    path separator. *)
Lemma verb_chars s : test VERB s = true →
  ∃ c r, chars s = "/"%char :: c :: r ∧ Forall (λ x, verb_char x = true) (c :: r).
Proof.
  intros Hs. assert (∃ n, VERB.(tree) = Seq AtStart (Seq (OneOf false [(47, 47)]) (Seq (Repeat (OneOf true (space_ranges ++ [(47, 47); (92, 92)])) 1 None) AtEnd)) ∧ n = O) as (? & Ht & _).
  { exists O. by vm_compute. }
  apply (test_anchored VERB _ _ Ht) in Hs. revert Hs. rewrite run_seq. destruct (chars s) as [|c0 post]; [done|]. rewrite run_one_of.
  destruct (in_class _ _ _ _) eqn:E0; [|done]. rewrite run_seq. destruct (run _ _ _ _ _) as [r|] eqn:E; [|done]. intros _.
  apply run_class in E as (l & rest & -> & Hlen & Hl & Hk). assert (rest = []) as ->.
  { edestruct run_at_end as [H _]; [by rewrite Hk|done]. }
  rewrite app_nil_r. destruct l as [|c l]; [simpl in Hlen; lia|]. exists c, l. split; [|done]. f_equal.
  clear -E0. revert E0. destruct c0 as [[] [] [] [] [] [] [] []]; vm_compute; done.
Qed.

Definition shape_ok (shape : ReplyShape) : Prop :=
  shape.(rs_written) ≠ EmptyString ∧ strlen shape.(rs_written) <= MAX_REPLY_CHARS ∧
  all_chars (λ c, is_control c = false) shape.(rs_written) ∧
  (shape.(rs_actionText) = EmptyString ∧ shape.(rs_written) = shape.(rs_reply) ∨
   shape.(rs_reply) = EmptyString ∧ shape.(rs_written) = shape.(rs_actionText) ∧
   ∃ c r, chars shape.(rs_verb) = "/"%char :: c :: r ∧ Forall (λ x, verb_char x = true) (c :: r)).

Lemma shape_written d : (replyShape d).(rs_written) = or_else (replyShape d).(rs_actionText) (replyShape d).(rs_reply).
Proof. unfold replyShape. by destruct (match _ with EmptyString => _ | _ => _ end). Qed.

Lemma accepted_shape d catalog : checkReplyShape (replyShape d) catalog = None → shape_ok (replyShape d).
Proof.
  pose proof (shape_written d) as Hw. revert Hw. generalize (replyShape d). intros [reply action verb args written]. unfold checkReplyShape, shape_ok.
  cbn [rs_reply rs_actionText rs_verb rs_args rs_written]. intros ->.
  destruct (bool_decide (reply = EmptyString)) eqn:E1, (bool_decide (action = EmptyString)) eqn:E2; cbn [andb negb]; try done;
    apply bool_decide_eq_true in E1 || apply bool_decide_eq_false in E1; apply bool_decide_eq_true in E2 || apply bool_decide_eq_false in E2;
    destruct (_ <? _) eqn:E3; try done; apply Z.ltb_ge in E3; (destruct (test CONTROL_CHARS _) eqn:E4; [done|]); apply no_control in E4.
  - subst reply. destruct (test VERB verb) eqn:E5; [|done]. intros _. destruct action as [|c a]; [done|]. split_and!; [done..|].
    right. split_and!; [done..|]. by apply verb_chars.
  - subst action. intros _. split_and!; [done..|]. by left.
Qed.

(** ** The guard *)

(** What is remembered after one more reply. *)
Definition remember (recent : list Z) (reply : string) : list Z := slice_last repeatWindow (recent ++ [hash reply]).

Lemma state_of_insert g id s : state_of (<[id := s]> g) id = s.
Proof. unfold state_of. by rewrite lookup_insert_eq. Qed.

Lemma recordAutoReply_state g id reply :
  (length (state_of g id).(recentHashes) <= repeatWindow)%nat →
  state_of (recordAutoReply id reply g) id =
    {| consecutive := S (state_of g id).(consecutive); recentHashes := remember (state_of g id).(recentHashes) reply |}.
Proof.
  intros Hl. unfold recordAutoReply. rewrite state_of_insert. f_equal. unfold remember, slice_last.
  destruct (repeatWindow <? _)%nat eqn:E; rewrite length_app in *; simpl in *.
  - apply Nat.ltb_lt in E. replace (length (state_of g id).(recentHashes) + 1 - repeatWindow)%nat with 1%nat by lia. by destruct (_ ++ _).
  - apply Nat.ltb_ge in E. by replace (length (state_of g id).(recentHashes) + 1 - repeatWindow)%nat with 0%nat by lia.
Qed.

Lemma remember_length recent reply : (length (remember recent reply) <= repeatWindow)%nat.
Proof. unfold remember. rewrite slice_last_length. lia. Qed.

Lemma reset_state g id : state_of (reset id g) id = {| consecutive := 0; recentHashes := [] |}.
Proof. unfold state_of, reset. by rewrite lookup_delete_eq. Qed.

Lemma recordProgress_state g id :
  state_of (recordProgress id g) id = {| consecutive := 0; recentHashes := (state_of g id).(recentHashes) |}.
Proof.
  unfold recordProgress. destruct (g !! id) as [s|] eqn:E; [rewrite state_of_insert|]; unfold state_of; by rewrite E.
Qed.

Lemma check_guard_passes g id reply : check_guard g id reply = None →
  ((state_of g id).(consecutive) < maxConsecutive)%nat ∧ hash reply ∉ (state_of g id).(recentHashes).
Proof.
  unfold check_guard. case_bool_decide; [done|]. case_bool_decide; [done|]. intros _. split; [lia|done].
Qed.

(** Replies of which none repeats one of the last four before it. *)
Fixpoint unrepeated (recent : list Z) (replies : list string) : Prop :=
  match replies with [] => True | r :: rs => (hash r ∉ recent) ∧ unrepeated (remember recent r) rs end.

Lemma unrepeated_app recent l1 l2 : unrepeated recent (l1 ++ l2) ↔ unrepeated recent l1 ∧ unrepeated (foldl remember recent l1) l2.
Proof. revert recent. induction l1 as [|r l1 IH]; intros recent; simpl; [tauto|]. rewrite IH. tauto. Qed.

Lemma slice_last_recent {A} n (l1 l2 : list A) x : (length l2 <= n)%nat → x ∈ l2 → x ∈ slice_last n (l1 ++ l2).
Proof. intros Hn Hx. unfold slice_last. rewrite length_app, drop_app_le by lia. apply elem_of_app. by right. Qed.

Lemma slice_last_slice {A} n (l : list A) x : slice_last n (slice_last n l ++ [x]) = slice_last n (l ++ [x]).
Proof.
  unfold slice_last. rewrite !length_app, !length_drop. simpl. destruct (decide (n <= length l)%nat).
  - destruct n as [|n]; [rewrite !drop_ge; [done|rewrite ?length_app, ?length_drop; simpl; lia..]|].
    rewrite !drop_app_le by (rewrite ?length_drop; lia). rewrite drop_drop. f_equal. f_equal. lia.
  - replace (length l - n)%nat with O by lia. rewrite drop_0. f_equal. lia.
Qed.

Lemma remembered recent replies : foldl remember recent replies = match replies with [] => recent | _ => slice_last repeatWindow (recent ++ (hash <$> replies)) end.
Proof.
  induction replies as [|r replies IH] using rev_ind; [done|]. rewrite foldl_app. simpl. rewrite IH, fmap_app.
  destruct replies as [|r0 rs]; [done|]. unfold remember. rewrite slice_last_slice, <-app_assoc. simpl. by destruct (rs ++ [r]).
Qed.

(** So the fifth reply after one is the first that may be the same. *)
Lemma unrepeated_apart recent replies i j p q :
  unrepeated recent replies → replies !! i = Some p → replies !! j = Some q → (i < j <= i + repeatWindow)%nat → p ≠ q.
Proof.
  intros Hu Hi Hj Hij <-.
  rewrite <-(take_drop_middle _ _ _ Hj) in Hu. apply unrepeated_app in Hu as [_ [Hh _]]. apply Hh. clear Hh.
  pose proof (lookup_lt_Some _ _ _ Hj) as Hlen.
  assert (take j replies = take i replies ++ p :: drop (S i) (take j replies)) as Ht.
  { rewrite <-(take_drop_middle (take j replies) i p) at 1 by (rewrite lookup_take_lt by lia; done). rewrite take_take. by rewrite Nat.min_l by lia. }
  rewrite remembered. destruct (take j replies) as [|r0 rs] eqn:Et; [by destruct (take i replies)|]. rewrite <-Et in *. rewrite Ht, fmap_app, app_assoc.
  apply slice_last_recent; [|by left]. rewrite length_fmap. cbn [length]. rewrite length_drop, length_take. lia.
Qed.
