(* ===== verification/HandlerSession.v ===== *)
(** * HandlerSession: the state of a supervised session

    The data of src/bridge/src/handler/engine.ts and session-store.ts: the events
    an agent raises, the rows a user is shown, the armed session, the record kept
    of it, and the functions that read them.

    The engine is the part of [HandlerEngine] that belongs to one terminal: its
    session, its guard, its work chain and its timer.  What the engine asks the
    rest of the program at one call is a [World].  What it does to the rest is
    appended to [e_out], oldest first: that list is not in the source.  A clock
    reading and a printed date are given; [contextHash] is the digest of
    node:crypto.  A field that is missing, false or [undefined] is [false] where
    the code only asks whether it is truthy.  Objects the code compares by
    identity carry a number drawn when they are made. *)

From S2P Require Import Prelude Regex DestructiveFloor Authorization Backlog ReplyGuard.
From stdpp Require Import pretty.
From coqutil Require Import Datatypes.RecordSetters.
Import DoubleBraceUpdate.

Local Open Scope Z_scope.
Local Open Scope js_scope.

#[global] Arguments constant {E} newValue / _.

(** [f |> g]: the state is handed on. *)
Notation "x |> f" := (f x) (at level 50, left associativity, only parsing) : js_scope.

(** ** Bounds *)

Definition MAX_BACKLOG_ITEMS : nat := 100.
Definition MAX_BLOCKED_REPORTS : nat := 5.
Definition MAX_OPEN_ASKS : nat := 1.
Definition MAX_ROW_QUESTION_CHARS : nat := 400.
Definition MAX_ASK_REJECTIONS : nat := 2.
Definition MAX_ASK_OPTION_LABEL : nat := 80.
Definition MAX_ASK_OPTION_COST : nat := 160.
Definition MAX_UNBLOCKED_ID_CHARS : nat := 64.
Definition MAX_REMEMBERED_WARNINGS : nat := 5.
Definition MAX_REMEMBERED_REJECTIONS : nat := 3.
Definition MAX_ANCHOR_REFUSALS : nat := 3.
Definition MAX_EVIDENCE_REASKS : nat := 3.
Definition MAX_RECENT_INSTRUCTIONS : nat := 4.
Definition MAX_INSTRUCTION_CHARS : Z := 10000.
Definition MAX_INSTRUCTIONS : nat := 50.
Definition MAX_AMENDABLE_ITEMS : nat := 30.
Definition MAX_ITEM_CHARS : nat := 400.
Definition MAX_BRIEF_CHARS : nat := 1000.

(** lifecycle.ts *)
Definition LIMIT_FALLBACK_MS : Z := 30 * 60000.
Definition TRANSIENT_CEILING : nat := 3.
Definition LIMIT_PARK_CEILING : nat := 3.
Definition MIN_PARK_MS : Z := 30000.
Definition transientBackoffMs (failureCount : nat) : Z := 30000 * 4 ^ (Z.of_nat failureCount - 1).

Definition BLOCKED_QUESTION : string := "Handler did not send its reply".
Definition REJECT_CHOICE_TEXT : string := "Do not proceed. Wait for my instructions.".
Definition NOTHING_ASKED : string := "(nothing asked yet)".

(** ** Events *)

Inductive EventKind := turn_end | awaiting_input | permission_request | question | limit_hit | limit_cleared | turn_failed.
#[global] Instance EventKind_eq_dec : EqDecision EventKind.
Proof. solve_decision. Defined.

Record HandlerEvent := {
  ev_object : nat; ev_event : EventKind; ev_transcriptPath : option string; ev_detail : option string;
  ev_promptId : option string; ev_resetsAt : option Z; ev_errorClass : option string; ev_selfResuming : bool }.

Definition isBlockingPrompt (e : HandlerEvent) : bool := match e.(ev_event) with permission_request | question => true | _ => false end.
Definition isLifecycle (e : HandlerEvent) : bool := match e.(ev_event) with limit_hit | limit_cleared | turn_failed => true | _ => false end.

(** ** Rows *)

Inductive EscalationKind := KReply | KResolve | KBlocked.
#[global] Instance EscalationKind_eq_dec : EqDecision EscalationKind.
Proof. solve_decision. Defined.

Record EscalationChoice := { ch_id : string; ch_label : string; ch_text : string; ch_cost : option string }.
Record AskOption := { tap_id : string; tap_label : string; tap_cost : string; tap_recommended : bool }.

Record OpenEscalation := {
  es_id : string; es_question : string; es_reasoning : string; es_draftReply : string; es_urgency : Urgency;
  es_floorRule : option string; es_kind : option EscalationKind; es_promptId : option string;
  es_choices : option (list EscalationChoice); es_at : Z; es_nonBlocking : bool; es_unblocked : option (list string);
  es_askOptions : option (list AskOption) }.

Definition is_kind (k : EscalationKind) (r : OpenEscalation) : bool := bool_decide (r.(es_kind) = Some k).

(** What the schemas of session-store.ts admit. *)
Definition PRINTABLE : RegExp := regexp false "^[^\x00-\x1f\x7f]+$".
Definition nonblank (s : string) : bool := negb (bool_decide (trim s = EmptyString)).
Definition line_within (max : nat) (s : string) : bool := len_between 1 (Z.of_nat max) s && test PRINTABLE s && nonblank s.
Definition choice_parses (c : EscalationChoice) : bool :=
  len_between 1 40 c.(ch_id) && line_within 40 c.(ch_label) && line_within 400 c.(ch_text) &&
  match c.(ch_cost) with None => true | Some t => line_within 160 t end.
Definition option_parses (o : AskOption) : bool :=
  len_between 1 40 o.(tap_id) && len_between 1 80 o.(tap_label) && len_between 1 160 o.(tap_cost).
Definition options_parse (l : list AskOption) : bool :=
  bool_decide (2 <= length l <= 4)%nat && forallb option_parses l && bool_decide (NoDup (tap_id <$> l)).
Definition row_parses (r : OpenEscalation) : bool :=
  match r.(es_choices) with
  | None => true
  | Some l => bool_decide (2 <= length l <= 3)%nat && forallb choice_parses l && bool_decide (NoDup (ch_id <$> l))
  end &&
  match r.(es_unblocked) with
  | None => true
  | Some l => bool_decide (length l <= 10)%nat && forallb (len_between 0 64) l
  end &&
  match r.(es_askOptions) with None => true | Some l => options_parse l end.

(** ** Sessions *)

Record InstructionEntry := { in_text : string; in_at : Z }.

Definition normalizeInstruction (raw : string) : string := clip (trim raw) (Z.to_nat MAX_INSTRUCTION_CHARS) EmptyString.
Definition pushInstruction (l : list InstructionEntry) (text : string) (at_ : Z) : list InstructionEntry :=
  let l := l ++ [{| in_text := text; in_at := at_ |}] in
  if (MAX_INSTRUCTIONS <? length l)%nat then drop (length l - MAX_INSTRUCTIONS) l else l.
Definition firstInstruction (l : list InstructionEntry) : string := match l with i :: _ => i.(in_text) | [] => EmptyString end.

Inductive RunState := Watching | Handling | NeedsYou | Parked.
#[global] Instance RunState_eq_dec : EqDecision RunState.
Proof. solve_decision. Defined.

Inductive ParkKind := LimitPark | OutagePark.
#[global] Instance ParkKind_eq_dec : EqDecision ParkKind.
Proof. solve_decision. Defined.
Inductive ParkCause := agent_limit | agent_failure | judge_failure.

Record AskAnswer := {
  an_object : nat; an_escalationId : string; an_question : string; an_answer : string; an_tapped : bool; an_at : Z; an_blocking : bool }.

Record ArmedSession := {
  a_object : nat;
  a_instructions : list InstructionEntry;
  a_backlog : list InstructionItem;
  a_armedAt : Z;
  a_state : RunState;
  a_escalations : list OpenEscalation;
  a_judgeTool : option string;
  a_judgeModel : option string;
  a_role : option string;
  a_brief : option string;
  a_parkKind : option ParkKind;
  a_parkCause : option ParkCause;
  a_parkedUntil : option Z;
  a_selfResuming : bool;
  a_transientFailures : nat;
  a_floorWarnings : list string;
  a_evidenceRejections : list (string * string);
  a_askRejections : list string;
  a_staleAskIds : bool;
  a_anchorRefusals : gmap string nat;
  a_evidenceRejected : gset string;
  a_evidenceReasks : nat;
  a_auth : InstructionAuthorization;
  a_limitParks : nat;
  a_parkPushSent : bool;
  a_lastJudgedContextHash : option string;
  a_retryEvent : option HandlerEvent;
  a_parkAwaitingJudge : bool;
  a_askAnswer : option AskAnswer;
  a_promptGen : nat;
  a_awaitingAgent : bool }.

Record HandlerSessionRecord := {
  r_armed : bool; r_suspended : bool; r_goal : string; r_instructions : list InstructionEntry; r_backlog : list InstructionItem;
  r_armedAt : Z; r_escalations : list OpenEscalation; r_judgeTool : option string; r_judgeModel : option string;
  r_role : option string; r_brief : option string; r_parkKind : option ParkKind; r_parkCause : option ParkCause; r_parkedUntil : option Z;
  r_transientFailures : nat; r_parkAwaitingJudge : bool; r_askAnswer : option AskAnswer; r_staleAskIds : bool;
  r_evidenceReasks : nat; r_evidenceRejections : list (string * string) }.

(** [HandlerSessionRecordSchema]: the items' ids are distinct, there are at most
    fifty instructions of ten thousand characters, and the rows are rows. *)
Definition record_parses (r : HandlerSessionRecord) : bool :=
  bool_decide (NoDup (it_id <$> r.(r_backlog))) &&
  bool_decide (length r.(r_instructions) <= MAX_INSTRUCTIONS)%nat &&
  forallb (λ i, len_between 0 MAX_INSTRUCTION_CHARS i.(in_text)) r.(r_instructions) &&
  forallb row_parses r.(r_escalations).

Definition seedInstructionsFromGoal (r : HandlerSessionRecord) : HandlerSessionRecord :=
  match r.(r_instructions) with
  | _ :: _ => r
  | [] =>
      let text := normalizeInstruction r.(r_goal) in
      if bool_decide (text = EmptyString) then r
      else r {{ r_instructions := [{| in_text := text; in_at := r.(r_armedAt) |}] }}
  end.

Definition persisted (s : ArmedSession) (armed suspended : bool) : HandlerSessionRecord := {|
  r_armed := armed; r_suspended := suspended; r_goal := firstInstruction s.(a_instructions);
  r_instructions := s.(a_instructions); r_backlog := s.(a_backlog); r_armedAt := s.(a_armedAt);
  r_escalations := s.(a_escalations); r_judgeTool := s.(a_judgeTool); r_judgeModel := s.(a_judgeModel);
  r_role := s.(a_role); r_brief := s.(a_brief); r_parkKind := s.(a_parkKind); r_parkCause := s.(a_parkCause);
  r_parkedUntil := s.(a_parkedUntil); r_transientFailures := s.(a_transientFailures);
  r_parkAwaitingJudge := s.(a_parkAwaitingJudge); r_askAnswer := s.(a_askAnswer); r_staleAskIds := s.(a_staleAskIds);
  r_evidenceReasks := s.(a_evidenceReasks); r_evidenceRejections := s.(a_evidenceRejections) |}.

(** ** Reading a session *)

Definition waivedAnchors (s : ArmedSession) : list string :=
  fst <$> filter (λ p, (MAX_ANCHOR_REFUSALS <= p.2)%nat) (map_to_list s.(a_anchorRefusals)).

Definition pendingQuestions (s : ArmedSession) : nat := length (filter (λ r, is_kind KBlocked r = false) s.(a_escalations)).
Definition blockingQuestions (s : ArmedSession) : nat :=
  length (filter (λ r, is_kind KBlocked r = false ∧ r.(es_nonBlocking) = false) s.(a_escalations)).
Definition restingState (s : ArmedSession) : RunState := match s.(a_escalations) with [] => Watching | _ => NeedsYou end.

Definition isRunningItem (st : ItemStatus) : bool := negb (isTerminalStatus st) && negb (bool_decide (st = blocked)).
Definition amendableItems (b : list InstructionItem) : list InstructionItem :=
  take MAX_AMENDABLE_ITEMS (filter (λ i, isTerminalStatus i.(it_status) = false) b).

(** ** Texts *)

Definition firstFilled (l : list (option string)) : option string :=
  head (filter (λ v, nonblank v = true) (omap (λ v, v) l)).
Definition clipWithin (text : string) (max : nat) : string :=
  if (String.length text <=? max)%nat then text else clip text (max - 1) ELLIPSIS.
Definition clipText (s : string) (max : nat) : string := clip s max ELLIPSIS.
Definition clipQuote (text : string) : string := previewWithin 60 (oneLine text).
Definition normalizeBrief (raw : string) : option string :=
  let t := clip (oneLine raw) MAX_BRIEF_CHARS EmptyString in if bool_decide (t = EmptyString) then None else Some t.

Definition countPhrase (n : nat) (one many : string) : string := pretty n +:+ " " +:+ (if (n =? 1)%nat then one else many).
Definition joinPhrases (parts : list string) : string :=
  if (length parts <=? 1)%nat then String.concat EmptyString parts
  else String.concat ", " (take (length parts - 1) parts) +:+ " and " +:+ List.last parts EmptyString.

(** The middle dot is a stand-in character. *)
Definition DOT : string := " " +:+ sep (Ascii.ascii_of_nat 183) +:+ " ".
Fixpoint sample (budget : Z) (shown l : list string) : list string :=
  match l with
  | [] => shown
  | e :: l => if negb (is_nil shown) && (budget <? strlen e) then shown else sample (budget - (strlen e + 3)) (shown ++ [e]) l
  end.
Definition rowSample (entries : list string) : string :=
  let shown := sample 200 [] (take 8 entries) in
  String.concat DOT shown +:+
  (if (length shown <? length entries)%nat then " +" +:+ pretty (length entries - length shown)%nat +:+ " more" else EmptyString).

Definition instructionsWindow (l : list InstructionEntry) : nat * list string :=
  let kept := filter (λ e, e.(in_text) ≠ EmptyString) l in
  (length kept,
   (λ e, clipWithin (previewForUser (oneLine e.(in_text))) 120) <$> take 1 kept ++ slice_last MAX_RECENT_INSTRUCTIONS (drop 1 kept)).

(** What an instruction granted, as the two halves of a feed row. *)
Definition matched_of (g : GrantSummary) (t : FloorTier) : list string := op_matched <$> filter (λ o, o.(op_tier) = t) g.(g_operations).
Definition grant_groups (g : GrantSummary) : list (string * string * list string) :=
  filter (λ x, x.2 ≠ []) [
    ("destructive command", "destructive commands", matched_of g DESTRUCTIVE_);
    ("network command", "network commands", matched_of g EGRESS_);
    ("secret read", "secret reads", matched_of g SECRETS_);
    ("path", "paths", g.(g_paths)); ("host", "hosts", g.(g_destinations))].
Definition describeGrant (g : GrantSummary) : option (string * option string) :=
  let groups := grant_groups g in
  match groups ≫= snd with
  | [] => None
  | [e] => Some (e, None)
  | entries => Some (joinPhrases ((λ x, countPhrase (length x.2) x.1.1 x.1.2) <$> groups), Some (rowSample entries))
  end.

(** What one changed about the list. *)
Inductive AmendmentKind := Removed | Reworded | Recondition.
#[global] Instance AmendmentKind_eq_dec : EqDecision AmendmentKind.
Proof. solve_decision. Defined.
Record AmendmentChange := { am_kind : AmendmentKind; am_verb : string; am_text : string; am_now : option string }.
Definition AMENDMENT_NOUNS : list (AmendmentKind * (string * string)) := [
  (Removed, ("item removed", "items removed")); (Reworded, ("item reworded", "items reworded"));
  (Recondition, ("condition changed", "conditions changed"))].
Definition quoted (s : string) : string := dq +:+ clipQuote s +:+ dq.
(** The arrow is a stand-in character. *)
Definition ARROW : string := sep (Ascii.ascii_of_nat 155) +:+ " ".
Definition describeAmendments (changes : list AmendmentChange) : string * option string :=
  match changes with
  | [c] => (c.(am_verb) +:+ " " +:+ quoted c.(am_text),
            match c.(am_now) with Some (String _ _ as n) => Some (ARROW +:+ n) | _ => None end)
  | _ =>
      let part '(k, (one, many)) :=
        let n := length (filter (λ c, c.(am_kind) = k) changes) in if (0 <? n)%nat then [countPhrase n one many] else [] in
      (joinPhrases (AMENDMENT_NOUNS ≫= part), Some (rowSample ((λ c, quoted c.(am_text)) <$> changes)))
  end.

(** ** The taps of a card *)

Definition quickChoicesFor (kind : option EscalationKind) (floorRule : option string) (draftReply projectPath : string)
    (open : list OpenEscalation) (approve : option Approve) : option (list EscalationChoice) :=
  if bool_decide (kind = Some KResolve) || bool_decide (kind = Some KBlocked) then None
  else if existsb (is_kind KResolve) open then None
  else match floorRule with
  | Some _ => None
  | None =>
      let draft := trim draftReply in
      if bool_decide (draft = EmptyString) then None
      else
        let floor := classifyDestructive draft projectPath draft in
        if negb (is_nil floor.(hard)) || negb (is_nil floor.(warnings)) then None
        else
          let label := or_else (trim (clipWithin (previewForUser (oneLine ((approve ≫= ap_label) ?| EmptyString))) 40)) "Approve" in
          let cost := trim (clipWithin (previewForUser (oneLine ((approve ≫= ap_cost) ?| EmptyString))) 160) in
          let c := {| ch_id := "approve"; ch_label := label; ch_text := draft;
                      ch_cost := if bool_decide (cost = EmptyString) then None else Some cost |} in
          if choice_parses c
          then Some [c; {| ch_id := "reject"; ch_label := "Reject"; ch_text := REJECT_CHOICE_TEXT; ch_cost := None |}]
          else None
  end.

Definition mint_option (minted : list AskOption) (o : DecisionAskOption) : list AskOption :=
  let label := clipWithin (previewForUser (oneLine o.(ao_label))) MAX_ASK_OPTION_LABEL in
  let cost := clipWithin (previewForUser (oneLine o.(ao_cost))) MAX_ASK_OPTION_COST in
  if negb (nonblank label) || negb (nonblank cost) then minted
  else minted ++ [{| tap_id := "opt" +:+ pretty (S (length minted)); tap_label := label; tap_cost := cost;
                     tap_recommended := o.(ao_recommended) && negb (existsb tap_recommended minted) |}].
Definition mintAskOptions (ask : DecisionAsk) : option (list AskOption) :=
  opts ← ask.(dk_options);
  let minted := foldl mint_option [] opts in
  if (length minted <? 2)%nat then None else if options_parse minted then Some minted else None.

(** ** The report of a finished session

    wrap-up.ts.  Its undo clause counts the offers still open. *)

Record WrapUpOutcome := { wo_status : ItemStatus; wo_label : string; wo_total : nat; wo_items : list string }.
Record WrapUpRecord := {
  wu_id : string; wu_at : Z; wu_goal : string; wu_outcomes : list WrapUpOutcome; wu_blockedTotal : nat; wu_blockedReasons : list string }.

Definition SUMMARY_GROUPS : list (ItemStatus * string) := [(done, "Done"); (failed, "Failed"); (blocked, "Blocked"); (skipped, "Skipped")].
Definition wrap_preview (text : string) : string := previewWithin 120 (oneLine text).

Definition buildWrapUp (id : string) (at_ : Z) (goal : string) (b : list InstructionItem) (reports : list OpenEscalation) : WrapUpRecord := {|
  wu_id := id; wu_at := at_; wu_goal := wrap_preview goal;
  wu_outcomes := SUMMARY_GROUPS ≫= (λ '(st, label),
    let total := count_status st b in
    if (total =? 0)%nat then []
    else [{| wo_status := st; wo_label := label; wo_total := total;
             wo_items := (λ i, wrap_preview i.(it_text)) <$> take 8 (filter (λ i, i.(it_status) = st) b) |}]);
  wu_blockedTotal := length reports;
  wu_blockedReasons := (λ r, wrap_preview r.(es_reasoning)) <$> take 3 reports |}.

Definition more_suffix (total shown : nat) : string := if (shown <? total)%nat then " +" +:+ pretty (total - shown)%nat +:+ " more" else EmptyString.
Definition wrapUpGroupLine (o : WrapUpOutcome) (cap : nat) : string :=
  let shown := take cap o.(wo_items) in
  o.(wo_label) +:+ ": " +:+ String.concat ", " shown +:+ more_suffix o.(wo_total) (length shown).
Definition blockedClause (rec : WrapUpRecord) (cap chars : nat) : string :=
  match (λ r, clipText r chars) <$> take cap rec.(wu_blockedReasons) with
  | [] => pretty rec.(wu_blockedTotal) +:+ " action(s) Handler could not take"
  | shown => "Could not: " +:+ String.concat "; " shown +:+ more_suffix rec.(wu_blockedTotal) (length shown)
  end.
Definition clauses (rec : WrapUpRecord) (cap : nat) : list string := (λ o, wrapUpGroupLine o cap) <$> rec.(wu_outcomes).
Definition wrapUpPushBody (rec : WrapUpRecord) (openUndos : nat) : string :=
  String.concat ". " (
    ["Handler: done " +:+ DASH +:+ " " +:+ or_else rec.(wu_goal) "session complete"] ++ clauses rec 3 ++
    (if (0 <? openUndos)%nat then [pretty openUndos +:+ " flagged action(s) can still be undone"] else []) ++
    (if (0 <? rec.(wu_blockedTotal))%nat then [blockedClause rec 2 80] else [])).
Definition wrapUpDetail (rec : WrapUpRecord) : string :=
  clipText (String.concat ". " (clauses rec 3 ++ (if (0 <? rec.(wu_blockedTotal))%nat then [blockedClause rec 3 120] else []))) 200.

(** wrap-up-store.ts *)
Definition MAX_STORED_WRAPUPS : nat := 5.
Definition pruneWrapUps (l : list WrapUpRecord) : list WrapUpRecord :=
  if (length l <=? MAX_STORED_WRAPUPS)%nat then l else slice_last MAX_STORED_WRAPUPS l.

(** ** The engine of one terminal *)

(** A judge pass, as far as it got: what [handleEventInner] holds across its
    awaits. *)
Record Pass := { ps_evt : HandlerEvent; ps_session : nat; ps_gen : nat; ps_agentWorking : bool; ps_catalog : option (list CapCommand) }.
Record Judged := { jd_hash : string; jd_context : string; jd_answer : option nat }.
Record Cleared := { cl_decision : HandlerDecision; cl_shape : ReplyShape; cl_probe : string; cl_warn : list FloorWarning; cl_authorized : list FloorWarning }.

Record ExtractedItem := { x_ref : string; x_text : string; x_dependsOn : option (list string); x_condition : option string }.
Inductive AmendAction := Drop | Revise.
Record Amendment := { ad_id : string; ad_action : AmendAction; ad_text : option string; ad_condition : option string }.
Record ExtractionResult := { er_items : list ExtractedItem; er_amend : list Amendment }.

Record Extraction := { xt_text : string; xt_onlyIfEmpty : bool; xt_fallback : option string }.

Inductive Job := JEvent (e : HandlerEvent) | JExtract (x : Extraction).

Inductive Stage :=
| Idle
| Assembling (p : Pass)                    (** awaiting the context *)
| Judging (p : Pass) (j : Judged)          (** awaiting the judge *)
| Preparing (p : Pass) (c : Cleared)       (** awaiting the snapshots *)
| Extracting (x : Extraction) (session : nat).

Inductive SnapshotAction := reset_hard | force_push | rm_rf | git_clean.
#[global] Instance SnapshotAction_eq_dec : EqDecision SnapshotAction.
Proof. solve_decision. Defined.
Inductive SnapshotOutcome :=
| Snapshotted (a : SnapshotAction) (entry : string)
| NothingAtRisk (a : SnapshotAction)
| SnapshotFailed (a : SnapshotAction) (trigger reason detail : string).

Record SessionSnapshot := {
  sn_state : RunState; sn_pendingEscalations : nat; sn_armedAt : Z; sn_goal : string; sn_backlog : list InstructionItem;
  sn_escalations : list OpenEscalation; sn_judgeTool : option string; sn_judgeModel : option string;
  sn_parkKind : option ParkKind; sn_parkCause : option ParkCause; sn_parkedUntil : option Z; sn_role : option string;
  sn_brief : option string; sn_instructions : nat * list string; sn_askAnswerPending : bool }.

(** What the judge is shown. *)
Record DecideOpts := {
  do_tool : string; do_model : option string; do_instructions : list string; do_role : option string; do_brief : option string;
  do_backlogText : string; do_context : string; do_floorWarnings : list string; do_evidenceRejections : list string;
  do_replyBudget : nat; do_openAsks : list string; do_askRejections : list string; do_standingQuestions : list string;
  do_agentWorking : bool; do_staleAskIds : bool; do_askAnswer : option AskAnswer; do_commands : option (list CapCommand) }.

Inductive Effect :=
| Asked (o : DecideOpts)                                                                       (** the judge is run *)
| Replied (d : HandlerDecision) (probe written : string) (command : option (string * string))  (** a judged reply is typed *)
| Nudged                                                                                       (** the park's own "continue" *)
| Activity (kind reason : string) (detail : option string)
| Card (row : OpenEscalation)
| Saved (r : HandlerSessionRecord)
| Status (s : option SessionSnapshot)
| Pushed (message : string)
| Stored (entry : string) (a : SnapshotAction)
| Released (entries : list string)
| Retired                                                                                      (** the terminal's undo offers *)
| WrappedUp (rec : WrapUpRecord)
| Progressed.                                                                                  (** an item became done *)

Record Engine := {
  e_terminal : string;
  e_session : option ArmedSession;
  e_guard : RunawayGuard;
  e_latest : option HandlerEvent;
  e_queuedPrompts : list HandlerEvent;
  e_timer : option Z;
  e_chain : list Job;
  e_stage : Stage;
  e_seq : nat;
  e_objects : nat;
  e_out : list Effect }.

Definition new_engine (terminalId : string) : Engine := {|
  e_terminal := terminalId;
  e_session := None; e_guard := ∅; e_latest := None; e_queuedPrompts := []; e_timer := None; e_chain := [];
  e_stage := Idle; e_seq := 0; e_objects := 0; e_out := [] |}.

Record World := {
  w_now : Z; w_projectId : string; w_projectPath : string; w_tool : string;
  w_judgeCapable : string → bool; w_entitled : bool; w_catalog : option (list CapCommand);
  w_contextHash : string → string; w_wakeClock : Z → string; w_iso : Z → string;
  w_load : option HandlerSessionRecord; w_openUndos : nat }.

(** ** The steps everything is made of *)

Definition emit (x : Effect) (e : Engine) : Engine := e {{ e_out := e.(e_out) ++ [x] }}.
Definition upd (f : ArmedSession → ArmedSession) (e : Engine) : Engine := e {{ e_session := f <$> e.(e_session) }}.

(** A fresh object, and [this.id(prefix)]. *)
Definition draw (e : Engine) : nat * Engine := (e.(e_objects), e {{ e_objects := S e.(e_objects) }}).
Definition mint (w : World) (prefix : string) (e : Engine) : string * Engine :=
  (prefix +:+ "-" +:+ w.(w_projectId) +:+ "-" +:+ pretty w.(w_now) +:+ "-" +:+ pretty e.(e_seq), e {{ e_seq := S e.(e_seq) }}).

Definition record (w : World) (kind reason : string) (detail : option string) (e : Engine) : Engine :=
  emit (Activity kind reason detail) (mint w "rec" e).2.

Definition persist (armed suspended : bool) (s : ArmedSession) (e : Engine) : Engine := emit (Saved (persisted s armed suspended)) e.
Definition persist_here (e : Engine) : Engine := match e.(e_session) with Some s => persist true false s e | None => e end.

Definition snapshot_of (s : ArmedSession) : SessionSnapshot := {|
  sn_state := s.(a_state); sn_pendingEscalations := length s.(a_escalations); sn_armedAt := s.(a_armedAt);
  sn_goal := firstInstruction s.(a_instructions); sn_backlog := s.(a_backlog); sn_escalations := s.(a_escalations);
  sn_judgeTool := s.(a_judgeTool); sn_judgeModel := s.(a_judgeModel); sn_parkKind := s.(a_parkKind);
  sn_parkCause := s.(a_parkCause); sn_parkedUntil := s.(a_parkedUntil); sn_role := s.(a_role); sn_brief := s.(a_brief);
  sn_instructions := instructionsWindow s.(a_instructions);
  sn_askAnswerPending := match s.(a_askAnswer) with Some a => negb a.(an_blocking) | None => false end |}.
Definition emitStatus (e : Engine) : Engine := emit (Status (snapshot_of <$> e.(e_session))) e.

Definition set_state (st : RunState) : ArmedSession → ArmedSession := λ s, s {{ a_state := st }}.
Definition rest (s : ArmedSession) : ArmedSession := s {{ a_state := restingState s }}.
Definition rest_unless_parked (s : ArmedSession) : ArmedSession := if bool_decide (s.(a_state) = Parked) then s else rest s.
