(* ===== verification/HandlerRows.v ===== *)
(** * HandlerRows: the questions and reports of a supervised session

    The operations of src/bridge/src/handler/engine.ts on the rows a user is
    shown: raising one, keeping what it claims true, answering it, and the ways
    it is retired.  Each works on the session of its engine; where the code holds
    a session object, its caller has made sure that it is that one. *)

From S2P Require Import Prelude Regex DestructiveFloor Authorization Backlog ReplyGuard HandlerSession.
From coqutil Require Import Datatypes.RecordSetters.
Import DoubleBraceUpdate.

Local Open Scope Z_scope.
Local Open Scope js_scope.

Section rows.
Context (w : World).
Implicit Types (e : Engine) (s : ArmedSession).

(** ** Parks *)

Definition unpark (s : ArmedSession) : ArmedSession := s {{
  a_state := restingState s; a_parkKind := None; a_parkCause := None; a_parkedUntil := None; a_selfResuming := false;
  a_parkPushSent := false; a_retryEvent := None; a_parkAwaitingJudge := false }}.
Definition is_parked (s : ArmedSession) : bool := bool_decide (s.(a_state) = Parked).

(** Whether there was a park to end. *)
Definition unparkIfParked e : bool * Engine :=
  match e.(e_session) with
  | Some s => if is_parked s then (true, e {{ e_timer := None }} |> upd unpark) else (false, e)
  | None => (false, e)
  end.

(** ** Raising *)

Fixpoint remove_first (P : OpenEscalation → bool) (l : list OpenEscalation) : list OpenEscalation :=
  match l with [] => [] | r :: l => if P r then l else r :: remove_first P l end.

Definition escalate (d : HandlerDecision) (forcedReason floorRule : option string) (kind : option EscalationKind)
    (promptId : option string) e : Engine :=
  match e.(e_session) with
  | None => e
  | Some s =>
      let reason := forcedReason ?| d.(d_reason) in
      let is_blocked := bool_decide (kind = Some KBlocked) in
      let refused := if is_blocked then (replyShape d).(rs_written) else EmptyString in
      let draftReply := firstFilled [nt_draftReply <$> d.(d_notify); d.(d_reply); Some refused] ?| EmptyString in
      let rowText := if is_blocked then refused else draftReply in
      let detail := if bool_decide (rowText = EmptyString) then None else Some (previewForUser rowText) in
      let reasoning := clipText reason MAX_ROW_QUESTION_CHARS in
      if is_blocked && existsb (λ r, is_kind KBlocked r && bool_decide (r.(es_reasoning) = reasoning) &&
                                     bool_decide (r.(es_draftReply) = draftReply)) s.(a_escalations)
      then e |> record w "escalate" reason detail |> upd (set_state NeedsYou) |> persist_here |> emitStatus
      else
        let '(id, e) := mint w "esc" e in
        let esc := {|
          es_id := id;
          es_question := if is_blocked then BLOCKED_QUESTION
                         else clipText (firstFilled [nt_body <$> d.(d_notify)] ?| "Agent needs you") MAX_ROW_QUESTION_CHARS;
          es_reasoning := reasoning; es_draftReply := draftReply;
          es_urgency := match d.(d_notify) with Some n => n.(nt_urgency) | None => Normal end;
          es_floorRule := floorRule; es_kind := kind; es_promptId := promptId;
          es_choices := quickChoicesFor kind floorRule draftReply w.(w_projectPath) s.(a_escalations) (d.(d_notify) ≫= nt_approve);
          es_at := w.(w_now); es_nonBlocking := false; es_unblocked := None; es_askOptions := None |} in
        let rows := s.(a_escalations) in
        let rows := if is_blocked && (MAX_BLOCKED_REPORTS <=? length (filter (λ r, is_kind KBlocked r = true) rows))%nat
                    then remove_first (is_kind KBlocked) rows else rows in
        e |> emit (Card esc) |> upd (λ s, s {{ a_escalations := rows ++ [esc]; a_state := NeedsYou }})
          |> record w "escalate" reason detail |> persist_here |> emitStatus
  end.

(** A decision the engine words itself. *)
Definition own_decision (reason body : string) (urgency : Urgency) : HandlerDecision := {|
  d_decision := Escalate; d_reason := reason; d_reply := None; d_action := None;
  d_notify := Some {| nt_title := "Handler"; nt_body := body; nt_draftReply := EmptyString; nt_urgency := urgency; nt_approve := None |};
  d_ask := None; d_transitions := None |}.

Definition noteAskRejected (ask : DecisionAsk) (why : string) e : Engine :=
  e |> upd (λ s, s {{ a_askRejections :=
         slice_last MAX_ASK_REJECTIONS (s.(a_askRejections) ++
           [dq +:+ clipText ask.(dk_question) 80 +:+ dq +:+ " " +:+ DASH +:+ " " +:+ why]) }})
    |> record w "ask_rejected" why (Some (previewForUser ask.(dk_question))).

(** The ids of the items that are running. *)
Definition running (b : list InstructionItem) : list string := it_id <$> filter (λ i, isRunningItem i.(it_status) = true) b.

Definition raiseAsk (ask : DecisionAsk) e : Engine :=
  match e.(e_session) with
  | None => e
  | Some s =>
      if (MAX_OPEN_ASKS <=? length (filter (λ r, is_kind KReply r = true) s.(a_escalations)))%nat
      then noteAskRejected ask "a question of yours is still unanswered" e
      else
        let live := running s.(a_backlog) in
        let stillRunning := existsb (λ id, bool_decide (id ∈ live)) ask.(dk_unblocked) in
        let question := clipText ask.(dk_question) MAX_ROW_QUESTION_CHARS in
        if existsb (λ r, is_kind KReply r && bool_decide (r.(es_question) = question)) s.(a_escalations)
        then noteAskRejected ask "the same question is already standing" e
        else
          let '(id, e) := mint w "esc" e in
          let esc := {|
            es_id := id; es_question := question; es_reasoning := clipText ask.(dk_reasoning) MAX_ROW_QUESTION_CHARS;
            es_draftReply := EmptyString; es_urgency := Normal; es_floorRule := None; es_kind := Some KReply; es_promptId := None;
            es_choices := None; es_at := w.(w_now); es_nonBlocking := true;
            es_unblocked := Some (filter (λ id, id ∈ live ∧ (String.length id <= MAX_UNBLOCKED_ID_CHARS)%nat) ask.(dk_unblocked));
            es_askOptions := mintAskOptions ask |} in
          e |> emit (Card esc)
            |> upd (λ s, s {{ a_escalations := s.(a_escalations) ++ [esc]; a_askRejections := []; a_staleAskIds := negb stillRunning }})
            |> record w "asked" ask.(dk_reasoning) (Some (previewForUser question))
  end.

(** ** Keeping an ask's claim true *)

Definition still_running (b : list InstructionItem) (id : string) : bool :=
  match list_find (λ i, i.(it_id) = id) b with Some (_, i) => isRunningItem i.(it_status) | None => false end.

Inductive Reconciled := Unchanged | Narrowed (r : OpenEscalation) | Promoted (r : OpenEscalation) (note : string).

Definition reconcile_row (b : list InstructionItem) (r : OpenEscalation) : Reconciled :=
  if negb r.(es_nonBlocking) then Unchanged
  else
    let before := r.(es_unblocked) ?| [] in
    let still := filter (λ id, still_running b id = true) before in
    if negb (is_nil still) then if (length still =? length before)%nat then Unchanged else Narrowed (r {{ es_unblocked := Some still }})
    else
      Promoted (r {{ es_unblocked := if is_nil before then r.(es_unblocked) else Some []; es_nonBlocking := false; es_askOptions := None }})
        (if is_nil before then "your question was raised over work that had already stopped, and now holds the agent"
         else "your question now holds the agent; the work it did not gate has finished").

Definition reconciled (b : list InstructionItem) (r : OpenEscalation) : OpenEscalation :=
  match reconcile_row b r with Unchanged => r | Narrowed r | Promoted r _ => r end.
Definition promotion_note (b : list InstructionItem) (r : OpenEscalation) : option string :=
  match reconcile_row b r with Promoted _ n => Some n | _ => None end.
Definition is_changed (b : list InstructionItem) (r : OpenEscalation) : bool :=
  match reconcile_row b r with Unchanged => false | _ => true end.

Definition reconcileAsks e : Engine :=
  match e.(e_session) with
  | None => e
  | Some s =>
      let b := s.(a_backlog) in
      if existsb (is_changed b) s.(a_escalations) then
        foldl (λ e n, record w "escalate" n None e) (upd (λ s, s {{ a_escalations := reconciled b <$> s.(a_escalations) }}) e)
          (omap (promotion_note b) s.(a_escalations)) |> persist_here |> emitStatus
      else e
  end.

(** ** Answering *)

(** [n] is where the answered row is. *)
Definition parkAskAnswer (n : nat) (esc : OpenEscalation) (answer : string) (tapped delivered : bool) e : Engine :=
  match e.(e_session) with
  | None => e
  | Some s =>
      let e := match s.(a_askAnswer) with
               | Some a => record w "answered" "Your earlier answer was replaced" (Some (previewForUser a.(an_answer))) e
               | None => e
               end in
      let '(object, e) := draw e in
      let parked := {| an_object := object; an_escalationId := esc.(es_id); an_question := esc.(es_question); an_answer := answer;
                       an_tapped := tapped; an_at := w.(w_now); an_blocking := delivered |} in
      e |> upd (λ s, rest_unless_parked (s {{
             a_askAnswer := Some parked; a_escalations := base.delete n s.(a_escalations);
             a_staleAskIds := if is_kind KReply esc then false else s.(a_staleAskIds);
             a_lastJudgedContextHash := None; a_promptGen := S s.(a_promptGen) }}))
        |> persist_here |> emitStatus
  end.

(** ** Retiring *)

Definition prompt_is (promptId : option string) (evt : HandlerEvent) : bool :=
  match promptId with None => true | Some _ => bool_decide (evt.(ev_promptId) = promptId) end.
Definition dropQueuedPrompts (promptId : option string) e : Engine :=
  e {{ e_queuedPrompts := filter (λ evt, prompt_is promptId evt = false) e.(e_queuedPrompts) }}.

(** What a submitted line, or the resolve of a prompt, leaves standing. *)
Definition line_keeps (resolved : option string) (r : OpenEscalation) : bool :=
  r.(es_nonBlocking) || is_kind KBlocked r ||
  (is_kind KResolve r &&
   match resolved with None => true | Some p => match r.(es_promptId) with None => false | Some q => negb (bool_decide (q = p)) end end).

Definition plural (n : nat) (one many : string) : string := if (n =? 1)%nat then one else many.

Definition onUserReply (data : string) (resolved : option string) e : Engine :=
  if negb (isSubmitKeystroke data) then e
  else
    let e := e {{ e_guard := reset e.(e_terminal) e.(e_guard) }} in
    match e.(e_session) with
    | None => e
    | Some _ =>
        let e := upd (λ s, s {{ a_lastJudgedContextHash := None }}) e in
        let '(unparked, e) := unparkIfParked e in
        let e := match resolved with Some _ => dropQueuedPrompts resolved e | None => e end in
        match e.(e_session) with
        | None => e
        | Some s =>
            let kept := filter (λ r, line_keeps resolved r = true) s.(a_escalations) in
            let cleared := (length kept <? length s.(a_escalations))%nat in
            let dropped := filter (λ r, line_keeps resolved r = false ∧ is_kind KResolve r = false) s.(a_escalations) in
            let e := upd (λ s, s {{ a_transientFailures := O; a_limitParks := O; a_evidenceReasks := O }}) e in
            if negb unparked && negb cleared then e
            else
              let e := upd (λ s, rest (s {{
                a_promptGen := S s.(a_promptGen); a_escalations := kept;
                a_staleAskIds := if existsb (is_kind KReply) dropped then false else s.(a_staleAskIds) }})) e in
              let e := if unparked then record w "resumed" "you replied to the agent" None e else e in
              let e := match resolved, dropped with
                       | None, r :: _ =>
                           record w "answered"
                             (plural (length dropped) "Your reply answered Handler's question"
                                ("Your reply answered " +:+ pretty.pretty (length dropped) +:+ " of Handler's questions"))
                             (Some (previewForUser r.(es_question))) e
                       | _, _ => e
                       end in
              e |> persist_here |> emitStatus
        end
    end.

Definition onTurnCancelled e : Engine :=
  let '(unparked, e) := unparkIfParked e in
  if unparked then e |> persist_here |> record w "resumed" "turn cancelled" None |> emitStatus else e.

Definition retraction_keeps (promptId : option string) (r : OpenEscalation) : bool :=
  match promptId with
  | None => is_kind KBlocked r || r.(es_nonBlocking)
  | Some _ => negb (bool_decide (r.(es_promptId) = promptId))
  end.

Definition onPromptRetracted (promptId : option string) e : Engine :=
  let e := dropQueuedPrompts promptId e in
  let '(unparked, e) := unparkIfParked e in
  match e.(e_session) with
  | None => e
  | Some s =>
      let kept := filter (λ r, retraction_keeps promptId r = true) s.(a_escalations) in
      if negb unparked && (length kept =? length s.(a_escalations))%nat then e
      else
        let e := e |> upd (λ s, rest (s {{ a_escalations := kept }})) |> persist_here in
        (if unparked then record w "resumed" "the prompt is no longer waiting" None e else e) |> emitStatus
  end.

Definition find_row (P : OpenEscalation → bool) (l : list OpenEscalation) : option (nat * OpenEscalation) := list_find (λ r, P r = true) l.

Definition dismissEscalation (escalationId : string) e : Engine :=
  match e.(e_session) with
  | None => emitStatus e
  | Some s =>
      match find_row (λ r, bool_decide (r.(es_id) = escalationId)) s.(a_escalations) with
      | None => emitStatus e
      | Some (n, esc) =>
          if negb (is_kind KBlocked esc) && negb esc.(es_nonBlocking) then emitStatus e
          else if esc.(es_nonBlocking)
          then e |> parkAskAnswer n esc "(the user declined to answer)" false false
                 |> record w "answered" "You declined Handler's question" (Some (previewForUser esc.(es_question)))
          else e |> upd (λ s, rest_unless_parked (s {{ a_escalations := base.delete n s.(a_escalations) }})) |> persist_here |> emitStatus
      end
  end.
End rows.
