(* ===== verification/HandlerEngine.v ===== *)
(** * HandlerEngine: supervising a session

    src/bridge/src/handler/engine.ts, the class [HandlerEngine], for one terminal:
    arming it, instructing it, answering it, the judge passes an agent's events
    start, the provider's outages, and the extraction of an instruction into
    items.

    The chain of a terminal runs one job at a time, and a job is cut where the
    code awaits: the context, the judge, the snapshots, the extraction.  Between
    two cuts anything else may happen.  What is awaited comes in with the step:
    the context's text, the judge's decision, the outcomes of the snapshots, the
    extracted items.  Disk and adapter failures, log lines and the undo of a
    snapshot are left out.  A pass or an extraction whose session is gone is over
    when it next runs: the code may still ask the judge before it notices, and
    does nothing with the answer. *)

From S2P Require Import Prelude Regex DestructiveFloor Authorization Backlog ReplyGuard HandlerSession HandlerRows.
From stdpp Require Import pretty.
From coqutil Require Import Datatypes.RecordSetters.
Import DoubleBraceUpdate.

Local Open Scope Z_scope.
Local Open Scope js_scope.

Definition LENSES : list string := ["pm"; "qa"; "critic"; "release"].

Record ArmArgs := {
  aa_goal : option string; aa_backlog : option (list InstructionItem); aa_judgeTool : option string; aa_judgeModel : option string;
  aa_role : option string; aa_brief : option string }.

Record InstructArgs := {
  ia_text : string; ia_fallbackText : option string; ia_escalationId : option string; ia_delivered : bool; ia_choiceId : option string }.

Section engine.
Context (w : World).
Implicit Types (e : Engine) (s : ArmedSession).

Definition here (f : ArmedSession → Engine → Engine) e : Engine := match e.(e_session) with Some s => f s e | None => e end.

(** ** The chain *)

Definition enqueue (j : Job) e : Engine := e {{ e_chain := e.(e_chain) ++ [j] }}.

Definition same_event (a b : HandlerEvent) : bool := (a.(ev_object) =? b.(ev_object))%nat.

Definition trackQueuedPrompt (evt : HandlerEvent) e : Engine :=
  if existsb (same_event evt) e.(e_queuedPrompts) then e else e {{ e_queuedPrompts := e.(e_queuedPrompts) ++ [evt] }}.

Definition handleEvent (evt : HandlerEvent) e : Engine :=
  let e := if negb (isLifecycle evt) && negb (isBlockingPrompt evt) then e {{ e_latest := Some evt }} else e in
  let e := if isBlockingPrompt evt then trackQueuedPrompt evt e else e in
  enqueue (JEvent evt) e.

Definition is_latest (evt : HandlerEvent) e : bool := match e.(e_latest) with Some l => same_event l evt | None => false end.

(** Whether this event still counts, and the prompt taken off its set. *)
Definition claim (evt : HandlerEvent) e : bool * Engine :=
  if isBlockingPrompt evt
  then (existsb (same_event evt) e.(e_queuedPrompts),
        e {{ e_queuedPrompts := filter (λ q, same_event evt q = false) e.(e_queuedPrompts) }})
  else (isLifecycle evt || is_latest evt e, e).

Definition wakeSourcePending (evt : HandlerEvent) e : bool := negb (is_latest evt e) || negb (is_nil e.(e_queuedPrompts)).

(** A fresh event, as a producer hands it over. *)
Definition new_event (kind : EventKind) e : HandlerEvent * Engine :=
  let '(object, e) := draw e in
  ({| ev_object := object; ev_event := kind; ev_transcriptPath := None; ev_detail := None; ev_promptId := None;
      ev_resetsAt := None; ev_errorClass := None; ev_selfResuming := false |}, e).

Definition maybeRelayNow (why : string) : Engine → Engine := here (λ s e,
  if s.(a_awaitingAgent) then e
  else match e.(e_latest) with
       | Some evt => handleEvent evt e
       | None =>
           let e := record w "answered" ("Handler started a pass " +:+ why +:+ ", since no agent event was due") None e in
           let '(evt, e) := new_event turn_end e in handleEvent evt e
       end).

Definition queueExtraction (text : string) (onlyIfEmpty : bool) (fallback : option string) : Engine → Engine :=
  enqueue (JExtract {| xt_text := text; xt_onlyIfEmpty := onlyIfEmpty; xt_fallback := fallback |}).

(** ** Ending a session *)

Definition disarm (suspended : bool) e : Engine :=
  match e.(e_session) with
  | None => e
  | Some s =>
      let s' := if is_parked s then unpark s else s in
      e {{ e_session := None; e_latest := None; e_queuedPrompts := [];
           e_timer := if is_parked s then None else e.(e_timer) }}
        |> persist false suspended s' |> (λ e, e {{ e_guard := reset e.(e_terminal) e.(e_guard) }}) |> emitStatus
  end.

Definition onTerminalExit (keepArmed : bool) e : Engine :=
  let e := e {{ e_guard := reset e.(e_terminal) e.(e_guard) }} in
  match e.(e_session) with None => e | Some _ => if keepArmed then e else disarm true e end.

Definition maybeWrapUp e : bool * Engine :=
  match e.(e_session) with
  | None => (false, e)
  | Some s =>
      if negb (allTerminal s.(a_backlog)) then (false, e)
      else
        let e := reconcileAsks w e in
        match e.(e_session) with
        | None => (false, e)
        | Some s =>
            if (0 <? pendingQuestions s)%nat then (false, e)
            else
              let '(id, e) := mint w "wrap" e in
              let rec := buildWrapUp id w.(w_now) (firstInstruction s.(a_instructions)) s.(a_backlog)
                           (filter (λ r, is_kind KBlocked r = true) s.(a_escalations)) in
              (true, e |> record w "wrapped_up" "every backlog item resolved" (Some (wrapUpDetail rec))
                       |> emit (WrappedUp rec) |> emit (Pushed (wrapUpPushBody rec w.(w_openUndos))) |> disarm false)
        end
  end.

(** ** Parking *)

Record ParkArgs := { pa_kind : ParkKind; pa_cause : ParkCause; pa_until : Z; pa_selfResuming : bool; pa_retryEvent : option HandlerEvent }.

Definition arm_timer (until : Z) e : Engine := e {{ e_timer := Some (w.(w_now) + Z.max 0 (until - w.(w_now))) }}.

Definition enterPark (p : ParkArgs) e : Engine :=
  let e := upd (λ s, s {{ a_state := Parked; a_parkKind := Some p.(pa_kind); a_parkCause := Some p.(pa_cause); a_parkedUntil := Some p.(pa_until);
                          a_selfResuming := p.(pa_selfResuming); a_retryEvent := p.(pa_retryEvent);
                          a_parkAwaitingJudge := match p.(pa_retryEvent) with Some _ => true | None => false end }}) e in
  let e := if p.(pa_selfResuming) then e {{ e_timer := None }} else arm_timer p.(pa_until) e in
  persist_here e.

Definition registerTransientFailure (errorClass : option string) (retryEvent : option HandlerEvent) e : Engine :=
  e |> upd (λ s, s {{ a_transientFailures := S s.(a_transientFailures) }}) |> here (λ s e,
  if (TRANSIENT_CEILING <=? s.(a_transientFailures))%nat then
    if (pendingQuestions s =? 0)%nat
    then escalate w (own_decision "repeated transient failures" "Agent needs you (repeated transient failures)" Normal) None None None None e
    else e |> upd (set_state NeedsYou) |> persist_here |> emitStatus
  else
    let until := w.(w_now) + transientBackoffMs s.(a_transientFailures) in
    e |> enterPark {| pa_kind := OutagePark; pa_cause := match retryEvent with Some _ => judge_failure | None => agent_failure end;
                      pa_until := until; pa_selfResuming := false; pa_retryEvent := retryEvent |}
      |> record w "parked" (errorClass ?| "transient failure") (Some (w.(w_iso) until)) |> emitStatus).

Definition onJudgeUnavailable (evt : HandlerEvent) (errorClass : string) : Engine → Engine :=
  registerTransientFailure (Some (evt.(ev_errorClass) ?| errorClass)) (Some evt).

Definition limit_hit_ (evt : HandlerEvent) (s : ArmedSession) e : Engine :=
  let until := Z.max (evt.(ev_resetsAt) ?| (w.(w_now) + LIMIT_FALLBACK_MS)) (w.(w_now) + MIN_PARK_MS) in
  let refresh := is_parked s && bool_decide (s.(a_parkKind) = Some LimitPark) in
  let e := if refresh then e else upd (λ s, s {{ a_limitParks := S s.(a_limitParks) }}) e in
  if negb refresh && (LIMIT_PARK_CEILING <=? S s.(a_limitParks))%nat then
    let '(unparked, e) := unparkIfParked e in
    if (pendingQuestions s =? 0)%nat
    then escalate w (own_decision "provider limit outlasted repeated waits" "Agent needs you (the provider limit keeps returning)" Normal)
           None None None None e
    else if unparked then e |> persist_here |> emitStatus else e
  else
    let e := enterPark {| pa_kind := LimitPark; pa_cause := agent_limit; pa_until := until;
                          pa_selfResuming := evt.(ev_selfResuming); pa_retryEvent := s.(a_retryEvent) |} e in
    let e :=
      if refresh then e
      else
        let e := record w "parked" (evt.(ev_errorClass) ?| "usage limit") (Some (w.(w_iso) until)) e in
        if s.(a_parkPushSent) then e
        else e |> upd (λ s, s {{ a_parkPushSent := true }})
               |> emit (Pushed ("Handler: paused until " +:+ w.(w_wakeClock) until +:+ " " +:+ DASH +:+ " resuming automatically")) in
    emitStatus e.

Definition handleLifecycle (evt : HandlerEvent) : Engine → Engine := here (λ s e,
  match evt.(ev_event) with
  | limit_cleared =>
      let '(unparked, e) := unparkIfParked e in
      if negb unparked then e
      else
        let e := e |> persist_here |> record w "resumed" "provider limit cleared" None |> emitStatus in
        match s.(a_retryEvent) with Some evt => handleEvent evt e | None => e end
  | limit_hit => limit_hit_ evt s e
  | _ => if is_parked s then e else registerTransientFailure evt.(ev_errorClass) None e
  end).

Definition onParkTimer : Engine → Engine := here (λ s e,
  if negb (is_parked s) then e
  else
    let e := (unparkIfParked e).2 |> persist_here |> record w "resumed" "park timer elapsed" None |> emitStatus in
    match s.(a_retryEvent) with
    | Some evt => handleEvent evt e
    | None => if s.(a_parkAwaitingJudge) then e else if (0 <? blockingQuestions s)%nat then e else emit Nudged e
    end).

(** The timer's callback: its entry is dropped first. *)
Definition runParkTimer e : Engine :=
  match e.(e_timer) with
  | Some at_ => if at_ <=? w.(w_now) then onParkTimer (e {{ e_timer := None }}) else e
  | None => e
  end.

(** ** Arming *)

Definition or_undefined (t : string) : option string := if bool_decide (t = EmptyString) then None else Some t.

Definition applyJudgeChoice (p : ArmArgs) (s : ArmedSession) : ArmedSession :=
  let s := match p.(aa_judgeTool) with
           | Some t => if bool_decide (t = EmptyString) || w.(w_judgeCapable) t then s {{ a_judgeTool := or_undefined t }} else s
           | None => s
           end in
  match p.(aa_judgeModel) with Some m => s {{ a_judgeModel := or_undefined (trim m) }} | None => s end.
Definition applyLens (p : ArmArgs) (s : ArmedSession) : ArmedSession :=
  let s := match p.(aa_role) with Some r => s {{ a_role := or_undefined r }} | None => s end in
  match p.(aa_brief) with Some b => s {{ a_brief := normalizeBrief b }} | None => s end.
Definition resolveLens (raw : option string) : option string := r ← raw; if decide (r ∈ LENSES) then Some r else None.

Definition stack (stated : string) (l : list InstructionEntry) : bool * list InstructionEntry :=
  if negb (bool_decide (stated = EmptyString)) && negb (existsb (λ i, bool_decide (i.(in_text) = stated)) l)
  then (true, pushInstruction l stated w.(w_now)) else (false, l).

Definition rehydratePark (kind : ParkKind) (cause : option ParkCause) (until : Z) (awaitingJudge : bool) e : Engine :=
  let e := upd (λ s, s {{ a_state := Parked; a_parkKind := Some kind; a_parkCause := cause; a_parkedUntil := Some until;
                          a_parkAwaitingJudge := awaitingJudge }}) e in
  if until <=? w.(w_now)
  then (unparkIfParked e).2 |> persist_here |> record w "resumed" "park expired while the bridge was down" None |> emitStatus
  else e |> arm_timer until |> persist_here |> emitStatus.

Definition new_session (object : nat) (rec resumed : option HandlerSessionRecord) (instructions : list InstructionEntry)
    (items : list InstructionItem) : ArmedSession :=
  let carried := filter (λ r, is_kind KResolve r = false) ((r_escalations <$> resumed) ?| []) in
  let openRejections := filter (λ r, existsb (λ i, bool_decide (i.(it_id) = r.1) && negb (isTerminalStatus i.(it_status))) items = true)
                          ((r_evidenceRejections <$> resumed) ?| []) in
  {| a_object := object; a_instructions := instructions; a_backlog := items; a_armedAt := (r_armedAt <$> resumed) ?| w.(w_now);
     a_state := match carried with [] => Watching | _ => NeedsYou end; a_escalations := carried;
     a_judgeTool := rec ≫= r_judgeTool; a_judgeModel := rec ≫= r_judgeModel; a_role := resolveLens (rec ≫= r_role);
     a_brief := match rec ≫= r_brief with Some (String _ _ as b) => normalizeBrief b | _ => None end;
     a_parkKind := None; a_parkCause := None; a_parkedUntil := None; a_selfResuming := false;
     a_transientFailures := (r_transientFailures <$> resumed) ?| O; a_floorWarnings := []; a_evidenceRejections := openRejections;
     a_askRejections := []; a_staleAskIds := (r_staleAskIds <$> resumed) ?| false; a_anchorRefusals := ∅; a_evidenceRejected := ∅;
     a_evidenceReasks := if is_nil openRejections then O else (r_evidenceReasks <$> resumed) ?| O;
     a_auth := createAuthorization; a_limitParks := O; a_parkPushSent := false; a_lastJudgedContextHash := None; a_retryEvent := None;
     a_parkAwaitingJudge := false; a_askAnswer := resumed ≫= r_askAnswer; a_promptGen := O; a_awaitingAgent := false |}.

(** A list over the cap is cut, and says so. *)
Definition note_clamped (p : ArmArgs) e : Engine :=
  match p.(aa_backlog) with
  | Some l =>
      if (MAX_BACKLOG_ITEMS <? length l)%nat
      then record w "instruction_dropped" "backlog is full (100 items)"
             (Some (pretty (length l - MAX_BACKLOG_ITEMS)%nat +:+ " item(s) not tracked")) e
      else e
  | None => e
  end.

(** The session is already armed. *)
Definition rearm (p : ArmArgs) (backlog : option (list InstructionItem)) (stated : string) (s : ArmedSession) e : Engine :=
  let '(stacked, instructions) := stack stated s.(a_instructions) in
  let e := e |> upd (λ s, applyLens p (applyJudgeChoice p (s {{
                  a_instructions := instructions; a_backlog := backlog ?| s.(a_backlog); a_lastJudgedContextHash := None }})))
             |> persist_here in
  let e := (if stacked then record w "goal_edited" (clipQuote stated) None e else e) |> emitStatus in
  match stacked, backlog with true, None => queueExtraction stated true None e | _, _ => e end.

Definition rehydrate (resumed : option HandlerSessionRecord) e : Engine :=
  match resumed with
  | Some r => match r.(r_parkKind), r.(r_parkedUntil) with
              | Some kind, Some until => rehydratePark kind r.(r_parkCause) until r.(r_parkAwaitingJudge) e
              | _, _ => e
              end
  | None => e
  end.

(** It is not: what the last process left is taken up. *)
Definition arm_fresh (p : ArmArgs) (backlog : option (list InstructionItem)) (stated : string) e : Engine :=
  let rec := seedInstructionsFromGoal <$> w.(w_load) in
  let resumed := r ← rec; if r.(r_armed) || r.(r_suspended) then Some r else None in
  let e := match resumed with None => emit Retired e | Some _ => e end in
  let instructions := (stack stated ((r_instructions <$> resumed) ?| [])).2 in
  let items := backlog ?| ((r_backlog <$> resumed) ?| []) in
  let '(object, e) := draw e in
  let s := applyLens p (applyJudgeChoice p (new_session object rec resumed instructions items)) in
  let e := e {{ e_session := Some s }} |> persist_here
             |> record w "armed" (or_else (firstInstruction instructions) NOTHING_ASKED) None |> emitStatus |> rehydrate resumed in
  match in_text <$> last instructions, backlog with
  | Some ((String _ _) as seed), None => queueExtraction seed true None e
  | _, _ => e
  end.

Definition arm (p : ArmArgs) e : Engine :=
  if negb w.(w_entitled) then emitStatus e
  else
    let backlog := take MAX_BACKLOG_ITEMS <$> p.(aa_backlog) in
    let stated := normalizeInstruction (p.(aa_goal) ?| EmptyString) in
    let e := note_clamped p e in
    match e.(e_session) with
    | Some s => rearm p backlog stated s e
    | None => arm_fresh p backlog stated e
    end.
End engine.
