(* ===== verification/HandlerPass.v ===== *)
(** * HandlerPass: instructions, extractions and judge passes

    The rest of the class [HandlerEngine] of src/bridge/src/handler/engine.ts:
    what a user's instruction and the tap of an answer do, what becomes of the
    extracted items, and the passes of the judge from an event to the reply it
    types. *)

From S2P Require Import Prelude Regex DestructiveFloor Authorization Backlog ReplyGuard HandlerSession HandlerRows HandlerEngine.
From stdpp Require Import pretty.
From coqutil Require Import Datatypes.RecordSetters.
Import DoubleBraceUpdate.

Local Open Scope Z_scope.
Local Open Scope js_scope.

(** ** Snapshots

    The patterns of the floor for which snapshot.ts has an action, and those for
    which there can be none. *)

Definition floorPatternsFor (command : string) : list string := 
  w_pattern <$> filter (λ x, x.(w_tier) = DESTRUCTIVE_) (classifyDestructive command "" command).(warnings).
Definition SNAPSHOT_PATTERNS : list (string * SnapshotAction) :=
  [("git reset --hard HEAD", reset_hard); ("git push --force origin main", force_push); ("rm -rf build", rm_rf); ("git clean -fd", git_clean)]
    ≫= (λ '(command, action), (λ p, (p, action)) <$> floorPatternsFor command).
Definition NO_SNAPSHOT_PATTERNS : list string :=
  ["gh pr merge 1"; "gh pr close 1"; "gh release delete v1"; "gh repo delete owner/name"; "git branch -D topic"; "git tag -d v1";
   "npm publish"] ≫= floorPatternsFor.
(** [Map.get] of a map filled in order: the last entry of a key counts. *)
Definition snapshot_action (pattern : string) : option SnapshotAction := snd <$> last (filter (λ p, p.1 = pattern) SNAPSHOT_PATTERNS).
Definition outcome_action (o : SnapshotOutcome) : SnapshotAction :=
  match o with Snapshotted a _ | NothingAtRisk a | SnapshotFailed a _ _ _ => a end.
Definition action_text (a : SnapshotAction) : string :=
  match a with reset_hard => "reset_hard" | force_push => "force_push" | rm_rf => "rm_rf" | git_clean => "git_clean" end.

Section passes.
Context (w : World).
Implicit Types (e : Engine) (s : ArmedSession).

(** ** Instructions *)

Definition set_auth (a : InstructionAuthorization) : Engine → Engine := upd (λ s, s {{ a_auth := a }}).

(** What the lift granted, as a feed row. *)
Definition record_grant (g : GrantSummary) e : Engine :=
  match describeGrant g with Some (reason, detail) => record w "instruction_authorized" reason detail e | None => e end.

Definition answerable (p : InstructArgs) (esc : OpenEscalation) : bool :=
  (negb (bool_decide (is_Some p.(ia_choiceId))) || p.(ia_delivered)) &&
  (if p.(ia_delivered) then negb esc.(es_nonBlocking) && (bool_decide (esc.(es_kind) = None) || is_kind KReply esc)
   else esc.(es_nonBlocking)).

(** The note beside an answer that already went into the session. *)
Definition instruct_delivered (p : InstructArgs) (n : nat) (esc : OpenEscalation) (text : string) e : Engine :=
  let bank answer tapped e :=
    e |> parkAskAnswer w n esc answer tapped true |> record w "answered" "You answered Handler's question" (Some (previewForUser answer)) in
  match p.(ia_choiceId) with
  | None => bank text false e
  | Some id =>
      match list_find (λ c, c.(ch_id) = id) (esc.(es_choices) ?| []) with
      | None => emitStatus e
      | Some (_, c) => bank c.(ch_text) true e
      end
  end.

(** Free text that answers a standing ask. *)
Definition instruct_answer (n : nat) (esc : OpenEscalation) (text : string) : Engine → Engine := here (λ s e,
  let '(g, auth) := authorizeInstruction s.(a_auth) text w.(w_projectPath) in
  let e := e |> set_auth auth |> record_grant g in
  let e := match g.(g_hosts) with
           | [] => e
           | hs => record w "instruction_authorized" (countPhrase (length hs) "host" "hosts") (Some (rowSample hs)) e
           end in
  e |> parkAskAnswer w n esc text false false
    |> record w "answered" "You answered Handler's question" (Some (previewForUser text))
    |> maybeRelayNow w "to relay your answer").

(** The rows an instruction leaves standing. *)
Definition instruction_keeps (r : OpenEscalation) : bool := r.(es_nonBlocking) || is_kind KBlocked r || is_kind KResolve r.

Definition instruct_grant (p : InstructArgs) (text : string) : Engine → Engine := here (λ s e,
  let '(g, auth) := authorizeInstruction s.(a_auth) text w.(w_projectPath) in
  let e := e |> set_auth auth |> record_grant g in
  let gone := filter (λ r, instruction_keeps r = false) s.(a_escalations) in
  let e := e |> upd (λ s, s {{ a_instructions := pushInstruction s.(a_instructions) (normalizeInstruction text) w.(w_now);
                               a_lastJudgedContextHash := None; a_promptGen := S s.(a_promptGen) }})
             |> (λ e, e {{ e_guard := reset e.(e_terminal) e.(e_guard) }}) in
  let e := if is_nil gone then e
           else upd (λ s, rest_unless_parked (s {{
                  a_escalations := filter (λ r, instruction_keeps r = true) s.(a_escalations);
                  a_staleAskIds := if existsb (is_kind KReply) gone then false else s.(a_staleAskIds) }})) e in
  let e := e |> persist_here
             |> queueExtraction text false (t ← p.(ia_fallbackText); or_undefined (trim t)) in
  let e := match gone with
           | [] => e
           | r :: _ =>
               e |> record w "answered"
                      (plural (length gone) "Your instruction took the place of Handler's question"
                         ("Your instruction took the place of " +:+ pretty (length gone) +:+ " of Handler's questions"))
                      (Some (previewForUser r.(es_question)))
                 |> emitStatus
           end in
  here (λ s e,
    let wedged := existsb (is_kind KBlocked) s.(a_escalations) in
    if negb (is_parked s) && (negb (is_nil gone) || wedged) then maybeRelayNow w "to pick up your instruction" e else e) e).

Definition instruct (p : InstructArgs) e : Engine :=
  match p.(ia_escalationId) with
  | Some id =>
      match e.(e_session) ≫= (λ s, find_row (λ r, bool_decide (r.(es_id) = id)) s.(a_escalations)) with
      | None => emitStatus e
      | Some (n, esc) =>
          if negb (answerable p esc) then emitStatus e
          else
            let text := trim p.(ia_text) in
            if bool_decide (text = EmptyString) then e
            else if p.(ia_delivered) then instruct_delivered p n esc text e else instruct_answer n esc text e
      end
  | None =>
      let text := trim p.(ia_text) in
      if bool_decide (text = EmptyString) then e else instruct_grant p text e
  end.

Definition answerAsk (escalationId choiceId : string) : Engine → Engine := here (λ s e,
  match find_row (λ r, bool_decide (r.(es_id) = escalationId) && r.(es_nonBlocking)) s.(a_escalations) with
  | None => emitStatus e
  | Some (n, esc) =>
      match list_find (λ o, o.(tap_id) = choiceId) (esc.(es_askOptions) ?| []) with
      | None => emitStatus e
      | Some (_, o) =>
          e |> parkAskAnswer w n esc o.(tap_label) true false
            |> record w "answered" "You answered Handler's question" (Some (previewForUser o.(tap_label)))
            |> maybeRelayNow w "to relay your answer"
      end
  end).

(** ** Extractions *)

Fixpoint mint_unused (fuel : nat) (used : list string) e : string * Engine :=
  let '(id, e) := mint w "item" e in
  match fuel with
  | O => (id, e)
  | S fuel => if decide (id ∈ used) then mint_unused fuel used e else (id, e)
  end.

(** An id of its own for each item: among one more ids than are taken, one is
    not. *)
Fixpoint mint_items (n : nat) (used : list string) e : list string * Engine :=
  match n with
  | O => ([], e)
  | S n =>
      let '(id, e) := mint_unused (length used) used e in
      let '(ids, e) := mint_items n (used ++ [id]) e in (id :: ids, e)
  end.

Definition new_item (refs : list (string * string)) (now : Z) (id : string) (x : ExtractedItem) : InstructionItem :=
  let dep ref := match list_find (λ r, r.1 = ref) refs with
                 | Some (_, r) => if bool_decide (r.2 = EmptyString) || bool_decide (r.2 = id) then [] else [r.2]
                 | None => []
                 end in
  let on := (x.(x_dependsOn) ?| []) ≫= dep in
  {| it_id := id; it_text := x.(x_text); it_dependsOn := if is_nil on then None else Some on;
     it_condition := match x.(x_condition) with Some (String _ _ as c) => Some c | _ => None end;
     it_status := queued; it_outcome := None; it_evidence := None; it_createdAt := now |}.

Definition appendItems (session : nat) (extracted : list ExtractedItem) : Engine → Engine := here (λ s e,
  if negb (s.(a_object) =? session)%nat then e
  else
    let kept := take (MAX_BACKLOG_ITEMS - length s.(a_backlog)) extracted in
    let dropped := (length extracted - length kept)%nat in
    let e := if (0 <? dropped)%nat
             then record w "instruction_dropped" "backlog is full (100 items)" (Some (pretty dropped +:+ " item(s) not tracked")) e
             else e in
    if is_nil kept then emitStatus e
    else
      let '(ids, e) := mint_items (length kept) (it_id <$> s.(a_backlog)) e in
      let refs := zip (x_ref <$> kept) ids in
      let added := zip_with (new_item refs w.(w_now)) ids kept in
      e |> upd (λ s, s {{ a_backlog := s.(a_backlog) ++ added; a_lastJudgedContextHash := None }}) |> persist_here |> emitStatus).

(** One amendment against the items the extractor was shown. *)
Inductive Amended := AKeep | ADrop (c : AmendmentChange) | ARevise (text condition : option string) (c : AmendmentChange).

Definition amend_one (shown : list InstructionItem) (a : Amendment) : Amended :=
  match item_of shown a.(ad_id) with
  | None => AKeep
  | Some item =>
      match a.(ad_action) with
      | Drop => ADrop {| am_kind := Removed; am_verb := "removed"; am_text := item.(it_text); am_now := None |}
      | Revise =>
          let text := t ← a.(ad_text); if bool_decide (t = item.(it_text)) then None else Some t in
          let condition := c ← a.(ad_condition); if bool_decide (or_undefined c = item.(it_condition)) then None else Some c in
          match text, condition with
          | None, None => AKeep
          | _, _ =>
              let nowCondition := (λ c, if bool_decide (c = EmptyString) then "no condition" else "only if " +:+ clipQuote c) <$> condition in
              ARevise text condition {|
                am_kind := match text with Some _ => Reworded | None => Recondition end;
                am_verb := match text, condition with
                           | Some _, Some _ => "reworded and changed the condition on" | Some _, None => "reworded"
                           | None, _ => "changed the condition on"
                           end;
                am_text := item.(it_text);
                am_now := Some (String.concat DOT (option_list (quoted <$> text) ++ option_list nowCondition)) |}
          end
      end
  end.

Definition dropped_ids (shown : list InstructionItem) (l : list Amendment) : list string :=
  omap (λ a, match amend_one shown a with ADrop _ => Some a.(ad_id) | _ => None end) l.
Definition revisions (shown : list InstructionItem) (l : list Amendment) : list (string * (option string * option string)) :=
  omap (λ a, match amend_one shown a with ARevise t c _ => Some (a.(ad_id), (t, c)) | _ => None end) l.
Definition changes_of (shown : list InstructionItem) (l : list Amendment) : list AmendmentChange :=
  omap (λ a, match amend_one shown a with ADrop c | ARevise _ _ c => Some c | AKeep => None end) l.

(** [revised.get(id)]: the last revision counts. *)
Definition revision_of (revs : list (string * (option string * option string))) (id : string) : option string * option string :=
  match last (filter (λ r, r.1 = id) revs) with Some r => r.2 | None => (None, None) end.

Definition amend_item (dropped wasBlocking : list string) (revs : list (string * (option string * option string))) (i : InstructionItem) :
    bool * InstructionItem :=
  let on := filter (λ d, d ∉ dropped) (deps i) in
  let '(text, condition) := revision_of revs i.(it_id) in
  let revived := bool_decide (i.(it_status) = blocked) && existsb (λ d, bool_decide (d ∈ wasBlocking)) (deps i) in
  (revived, {|
    it_id := i.(it_id); it_text := text ?| i.(it_text); it_dependsOn := if is_nil on then None else Some on;
    it_condition := match condition with None => i.(it_condition) | Some c => or_undefined c end;
    it_status := if revived then queued else i.(it_status); it_outcome := i.(it_outcome); it_evidence := i.(it_evidence);
    it_createdAt := i.(it_createdAt) |}).

Definition amended (b : list InstructionItem) (l : list Amendment) : list InstructionItem :=
  let shown := amendableItems b in
  let dropped := dropped_ids shown l in
  let wasBlocking := filter (λ id, it_status <$> item_of shown id = Some blocked) dropped in
  let next := amend_item dropped wasBlocking (revisions shown l) <$> filter (λ i, i.(it_id) ∉ dropped) b in
  let revived := (λ p, it_id p.2) <$> filter (λ p, p.1 = true) next in
  (λ i, if bool_decide (i.(it_id) ∈ revived) && negb (bool_decide (i.(it_status) = blocked))
        then i {{ it_outcome := None; it_evidence := None }} else i) <$> propagateBlocked (snd <$> next).

(** How many items moved; [None] where the session is another one. *)
Definition applyAmendments (session : nat) (l : list Amendment) e : option nat * Engine :=
  match l with
  | [] => (Some O, e)
  | _ =>
      match e.(e_session) with
      | None => (None, e)
      | Some s =>
          if negb (s.(a_object) =? session)%nat then (None, e)
          else
            match changes_of (amendableItems s.(a_backlog)) l with
            | [] => (Some O, e)
            | changes =>
                let '(reason, detail) := describeAmendments changes in
                (Some (length changes),
                 e |> upd (λ s, s {{ a_backlog := amended s.(a_backlog) l; a_lastJudgedContextHash := None }})
                   |> record w "instruction_amended" reason detail |> persist_here |> emitStatus)
            end
      end
  end.

Definition escalateIfEmptied : Engine → Engine := here (λ s e,
  if is_nil s.(a_backlog)
  then escalate w (own_decision "that took the last item off the backlog"
                     ("Nothing left to work through " +:+ DASH +:+ " add an instruction or disarm Handler") Normal) None None None None e
  else e).

Definition raw_item (x : Extraction) : ExtractedItem := {|
  x_ref := "raw"; x_text := String.substring 0 MAX_ITEM_CHARS (x.(xt_fallback) ?| x.(xt_text)); x_dependsOn := None; x_condition := None |}.

(** The extractor's answer, or none where it failed or was not asked. *)
Definition extracted (x : Extraction) (session : nat) (result : option ExtractionResult) e : Engine :=
  let named := (er_amend <$> result) ?| [] in
  match applyAmendments session named e with
  | (None, e) => e
  | (Some n, e) =>
      match (er_items <$> result) ?| [] with
      | (_ :: _) as items => appendItems session items e
      | [] =>
          if (0 <? n)%nat then escalateIfEmptied e
          else match named with
               | _ :: _ => e |> record w "instruction_dropped" "nothing it named is still open in the backlog" (Some (clipQuote x.(xt_text))) |> emitStatus
               | [] => appendItems session [raw_item x] e
               end
      end
  end.

Definition extractAndAppend (x : Extraction) : Engine → Engine := here (λ s e,
  if x.(xt_onlyIfEmpty) && negb (is_nil s.(a_backlog)) then e
  else if w.(w_judgeCapable) (s.(a_judgeTool) ?| w.(w_tool)) then e {{ e_stage := Extracting x s.(a_object) }}
  else extracted x s.(a_object) None e).

(** ** A judge pass *)

Definition body_of (evt : HandlerEvent) : string :=
  let subject := match trim (evt.(ev_detail) ?| EmptyString) with EmptyString => None | t => Some t end in
  match evt.(ev_event) with
  | permission_request => "Agent requests permission" +:+ match subject with Some t => ": " +:+ t | None => EmptyString end
  | _ => "Agent asks" +:+ match subject with Some t => ": " +:+ t | None => " a question" end
  end.

(** [handleEventInner], up to the context. *)
Definition handleEventInner (evt : HandlerEvent) : Engine → Engine := here (λ s e,
  let wasAwaitingAgent := s.(a_awaitingAgent) in
  let e := e |> upd (λ s, s {{ a_awaitingAgent := false }}) |> reconcileAsks w in
  if negb w.(w_entitled) then disarm true e
  else if isLifecycle evt then handleLifecycle w evt e
  else
    let blocking := isBlockingPrompt evt in
    let go e :=
      if blocking
      then escalate w (own_decision "blocking prompt requires you" (body_of evt) High) None None (Some KResolve) evt.(ev_promptId) e
      else here (λ s e, (e |> upd (set_state Handling) |> emitStatus) {{
             e_stage := Assembling {| ps_evt := evt; ps_session := s.(a_object); ps_gen := s.(a_promptGen);
                                      ps_agentWorking := wasAwaitingAgent; ps_catalog := w.(w_catalog) |} }}) e in
    if is_parked s then
      if negb blocking && negb s.(a_selfResuming) then e
      else
        let e := (unparkIfParked e).2 in
        go (if blocking then e else e |> persist_here |> record w "resumed" "agent resumed on its own" None |> emitStatus)
    else go e).

Definition prompt_of (p : Pass) (text : string) (s : ArmedSession) e : DecideOpts := {|
  do_tool := s.(a_judgeTool) ?| w.(w_tool); do_model := s.(a_judgeModel); do_instructions := in_text <$> s.(a_instructions);
  do_role := s.(a_role); do_brief := s.(a_brief); do_backlogText := renderBacklog s.(a_backlog); do_context := text;
  do_floorWarnings := s.(a_floorWarnings); do_evidenceRejections := snd <$> s.(a_evidenceRejections);
  do_replyBudget := remaining e.(e_guard) e.(e_terminal);
  do_openAsks := es_question <$> filter (λ r, r.(es_nonBlocking) = true) s.(a_escalations);
  do_askRejections := s.(a_askRejections);
  do_standingQuestions := es_question <$>
    filter (λ r, r.(es_nonBlocking) = false ∧ (r.(es_kind) = None ∨ r.(es_kind) = Some KReply)) s.(a_escalations);
  do_agentWorking := p.(ps_agentWorking); do_staleAskIds := s.(a_staleAskIds); do_askAnswer := s.(a_askAnswer);
  do_commands := p.(ps_catalog) |}.

(** The context has been read. *)
Definition context_read (p : Pass) (text : string) e : Engine :=
  let e := e {{ e_stage := Idle }} in
  here (λ s e,
    if negb (s.(a_object) =? p.(ps_session))%nat then e
    else
      let h := w.(w_contextHash) text in
      if bool_decide (s.(a_lastJudgedContextHash) = Some h) then e |> upd rest |> emitStatus
      else emit (Asked (prompt_of p text s e)) e
             {{ e_stage := Judging p {| jd_hash := h; jd_context := text; jd_answer := an_object <$> s.(a_askAnswer) |} }}) e.

Definition evidence_code (c : RejectionCode) : bool :=
  match c with missing_evidence | unverified_evidence | missing_command_anchor => true | _ => false end.

(** One refused move: whether it is one a citation could have carried. *)
Definition note_rejection (b : list InstructionItem) (acc : bool * Engine) (r : Rejected) : bool * Engine :=
  let '(refused, e) := acc in
  match evidence_code r.(rj_code), r.(rj_transition) with
  | true, Some t =>
      match list_find (λ i, i.(it_id) = t.(tr_id)) b with
      | None => acc
      | Some (_, item) =>
          let id := item.(it_id) in
          (true, here (λ s e,
            let e := if bool_decide (r.(rj_code) = missing_command_anchor) && (s.(a_evidenceReasks) =? 0)%nat
                     then upd (λ s, s {{ a_anchorRefusals := <[id := S (s.(a_anchorRefusals) !! id ?| O)]> s.(a_anchorRefusals) }}) e else e in
            let e := if decide (id ∈ s.(a_evidenceRejected)) then e
                     else e |> upd (λ s, s {{ a_evidenceRejected := {[id]} ∪ s.(a_evidenceRejected) }})
                            |> record w "evidence_rejected" item.(it_text) (Some r.(rj_reason)) in
            let line := dq +:+ String.substring 0 80 (oneLine item.(it_text)) +:+ dq +:+ " " +:+ DASH +:+ " " +:+ r.(rj_reason) in
            upd (λ s, s {{ a_evidenceRejections :=
              slice_last MAX_REMEMBERED_REJECTIONS (filter (λ p, p ≠ (id, line)) s.(a_evidenceRejections) ++ [(id, line)]) }}) e) e)
      end
  | _, _ => acc
  end.

Definition item_decision (st : ItemStatus) : option string :=
  match st with done => Some "item_done" | blocked => Some "item_blocked" | skipped => Some "item_skipped" | failed => Some "item_failed" | _ => None end.
Definition note_applied e (a : Applied) : Engine :=
  match item_decision a.(ap_item).(it_status) with
  | Some kind => record w kind a.(ap_item).(it_text) (match a.(ap_item).(it_outcome) with Some o => Some o | None => a.(ap_item).(it_evidence) end) e
  | None => e
  end.
Definition note_derived (b : list InstructionItem) e (i : InstructionItem) : Engine :=
  let on := deps i ≫= (λ id, match item_of b id with
    | Some dep => if bool_decide (dep.(it_status) = blocked ∨ dep.(it_status) = failed) then [oneLine dep.(it_text)] else []
    | None => []
    end) in
  record w "item_blocked" i.(it_text) (Some ("waiting on: " +:+ String.concat ", " on)) e.

Definition still_open (b : list InstructionItem) (id : string) : bool :=
  match item_of b id with Some i => negb (isTerminalStatus i.(it_status)) | None => false end.

Definition blocked_ids (b : list InstructionItem) : list string := it_id <$> filter (λ i, i.(it_status) = blocked) b.

(** The judge's moves, graded against what it was shown. *)
Definition absorbed (s : ArmedSession) (d : HandlerDecision) (corpus : string) (catalog : option (list CapCommand)) : TransitionResult :=
  applyTransitions s.(a_backlog) (map Some (d.(d_transitions) ?| [])) w.(w_now)
    {| evidenceCorpus := corpus; commandNames := map cc_name <$> catalog; anchorWaived := waivedAnchors s |}.

(** Whether a citation was refused on an item that is still there. *)
Definition absorbTransitions (d : HandlerDecision) (corpus : string) (catalog : option (list CapCommand)) e : bool * Engine :=
  match e.(e_session) with
  | None => (false, e)
  | Some s =>
      let r := absorbed s d corpus catalog in
      let '(refusedTerminal, e) := foldl (note_rejection r.(backlog)) (false, e) r.(rejected_moves) in
      let wasBlocked := blocked_ids r.(backlog) in
      let b := propagateBlocked r.(backlog) in
      let e := upd (λ s, s {{ a_backlog := b; a_evidenceRejections := filter (λ p, still_open b p.1 = true) s.(a_evidenceRejections) }}) e in
      let e := foldl note_applied e r.(applied_moves) in
      let derived := filter (λ i, i.(it_status) = blocked ∧ i.(it_id) ∉ wasBlocked) b in
      let e := foldl (note_derived b) e derived in
      let e := if r.(progressed) then e {{ e_guard := recordProgress e.(e_terminal) e.(e_guard) }} |> emit Progressed else e in
      let e := if negb refusedTerminal && existsb (λ a, isTerminalStatus a.(ap_item).(it_status)) r.(applied_moves)
               then upd (λ s, s {{ a_evidenceReasks := O }}) e else e in
      (refusedTerminal, if is_nil r.(applied_moves) && is_nil derived then e else persist_here e)
  end.

(** ** Sending a reply *)

Definition rememberWarning (line : string) : Engine → Engine :=
  upd (λ s, s {{ a_floorWarnings := slice_last MAX_REMEMBERED_WARNINGS (s.(a_floorWarnings) ++ [line]) }}).
Definition noteFloorWarning e (x : FloorWarning) : Engine :=
  e |> record w "floor_warning" (describeWarning x) None |> rememberWarning (describeWarning x).
Definition recordUnprotected (trigger detail : string) e : Engine :=
  let line := "flagged action was not protected: " +:+ trigger in
  e |> record w "floor_warning" line (Some detail) |> rememberWarning line.
Definition recordIrreversible (x : FloorWarning) : Engine → Engine :=
  record w "floor_warning" ("no undo exists for this action: " +:+ x.(w_matched))
    (Some "it changes state outside the project, so no snapshot could be prepared").

Definition record_outcome e (o : SnapshotOutcome) : Engine :=
  match o with
  | Snapshotted a entry => emit (Stored entry a) e
  | SnapshotFailed _ trigger reason detail => recordUnprotected trigger (reason +:+ ": " +:+ detail) e
  | NothingAtRisk _ => e
  end.
Definition record_flagged (covered : list SnapshotAction) e (x : FloorWarning) : Engine :=
  match snapshot_action x.(w_pattern) with
  | None => if decide (x.(w_pattern) ∈ NO_SNAPSHOT_PATTERNS) then recordIrreversible x e else e
  | Some a => if decide (a ∈ covered) then e
              else recordUnprotected x.(w_matched) (action_text a +:+ ": the flagged command could not be parsed into a snapshot plan") e
  end.
Definition recordSnapshots (outcomes : list SnapshotOutcome) (flagged : list FloorWarning) e : Engine :=
  foldl (record_flagged (outcome_action <$> outcomes)) (foldl record_outcome e outcomes) flagged.

(** Where a pass that did not end otherwise comes to rest. *)
Definition settle e : Engine :=
  let '(wrapped, e) := maybeWrapUp w e in
  if wrapped then e else e |> upd rest |> persist_here |> emitStatus.

(** The snapshots are taken, or none were called for. *)
Definition send_reply (p : Pass) (c : Cleared) (outcomes : list SnapshotOutcome) e : Engine :=
  let e := e {{ e_stage := Idle }} in
  match e.(e_session) with
  | Some s =>
      if negb (s.(a_object) =? p.(ps_session))%nat
      then emit (Released (omap (λ o, match o with Snapshotted _ entry => Some entry | _ => None end) outcomes)) e
      else
        let command := (λ k, (k.(cc_id), c.(cl_shape).(rs_args))) <$> findCommand p.(ps_catalog) c.(cl_shape).(rs_verb) in
        let e := e |> emit (Replied c.(cl_decision) c.(cl_probe) c.(cl_shape).(rs_written) command)
                   |> upd (λ s, s {{ a_awaitingAgent := true }})
                   |> (λ e, e {{ e_guard := recordAutoReply e.(e_terminal) c.(cl_probe) e.(e_guard) }})
                   |> recordSnapshots outcomes (c.(cl_warn) ++ c.(cl_authorized)) in
        let e := foldl noteFloorWarning e c.(cl_warn) |> record w "handle" c.(cl_decision).(d_reason) (Some c.(cl_shape).(rs_written)) in
        let e := match c.(cl_decision).(d_ask) with Some ask => raiseAsk w ask e | None => e end in
        settle e
  | None => emit (Released (omap (λ o, match o with Snapshotted _ entry => Some entry | _ => None end) outcomes)) e
  end.

Definition refuse (d : HandlerDecision) (reason : string) (floorRule : option string) : Engine → Engine :=
  escalate w d (Some reason) floorRule (Some KBlocked) None.

Definition act_handle (p : Pass) (d : HandlerDecision) : Engine → Engine := here (λ s e,
  let shape := replyShape d in
  match checkReplyShape shape p.(ps_catalog) with
  | Some rejection => refuse d rejection.(sj_reason) None e
  | None =>
      let probe := shape.(rs_reply) +:+ NL +:+ shape.(rs_actionText) in
      let pathText := shape.(rs_reply) +:+ NL +:+ shape.(rs_args) in
      let floor := classifyDestructive probe w.(w_projectPath) pathText in
      match floor.(hard) with
      | x :: _ => refuse d ("floor: " +:+ describeWarning x) (Some (describeWarning x)) e
      | [] =>
          let '(warn, authorized) := partitionWarnings s.(a_auth) floor.(warnings) probe w.(w_projectPath) in
          match check_guard e.(e_guard) e.(e_terminal) probe with
          | Some reason => refuse d reason None e
          | None =>
              let c := {| cl_decision := d; cl_shape := shape; cl_probe := probe; cl_warn := warn; cl_authorized := authorized |} in
              if (0 <? length warn + length authorized)%nat then e {{ e_stage := Preparing p c }} else send_reply p c [] e
          end
      end
  end).

(** The agent has stopped, a [continue] sends it nothing: a completion that was
    refused is put to the judge again, and then to the user. *)
Definition act_continue (p : Pass) (d : HandlerDecision) (refusedCompletion : bool) : Engine → Engine := here (λ s e,
  if (refusedCompletion || (0 <? s.(a_evidenceReasks))%nat) && (blockingQuestions s =? 0)%nat && negb (wakeSourcePending p.(ps_evt) e) then
    if (s.(a_evidenceReasks) <? MAX_EVIDENCE_REASKS)%nat
    then e |> upd (λ s, s {{ a_evidenceReasks := S s.(a_evidenceReasks); a_lastJudgedContextHash := None }}) |> persist_here
           |> handleEventInner p.(ps_evt)
    else e |> upd (λ s, s {{ a_evidenceReasks := O }})
           |> escalate w (own_decision ((snd <$> last s.(a_evidenceRejections)) ?| "a completed item could not be verified against the record")
                            "Agent needs you (Handler cannot verify the work is finished)" Normal) None None None None
  else e |> record w "continue" d.(d_reason) None |> settle).

Definition bank_verdict (p : Pass) (j : Judged) (s : ArmedSession) : ArmedSession := s {{
  a_transientFailures := O; a_limitParks := O;
  a_lastJudgedContextHash := if (s.(a_promptGen) =? p.(ps_gen))%nat then Some j.(jd_hash) else s.(a_lastJudgedContextHash);
  a_askAnswer := match j.(jd_answer), s.(a_askAnswer) with
                 | Some o, Some a => if (a.(an_object) =? o)%nat then None else Some a
                 | _, a => a
                 end }}.

(** The judge's answer; [None] where it had none. *)
Definition verdict (p : Pass) (j : Judged) (timedOut : bool) (decision : option HandlerDecision) e : Engine :=
  let e := e {{ e_stage := Idle }} in
  here (λ s e,
    if negb (s.(a_object) =? p.(ps_session))%nat then e
    else match decision with
    | None => onJudgeUnavailable w p.(ps_evt) (if timedOut then "judge timeout" else "judge unavailable") e
    | Some d =>
        let '(refusedCompletion, e) := absorbTransitions d j.(jd_context) p.(ps_catalog) (upd (bank_verdict p j) e) in
        let e := match d.(d_decision) with Continue => e | _ => upd (λ s, s {{ a_evidenceReasks := O }}) e end in
        match d.(d_decision) with
        | Handle => act_handle p d e
        | Continue => act_continue p d refusedCompletion e
        | Escalate => escalate w d None None None None e
        end
    end) e.

(** The context or the judge could not be had. *)
Definition pass_failed (p : Pass) e : Engine :=
  let e := e {{ e_stage := Idle }} in
  here (λ s e, if negb (s.(a_object) =? p.(ps_session))%nat then e else onJudgeUnavailable w p.(ps_evt) "judge unavailable" e) e.

(** ** Steps *)

(** The next job of the chain. *)
Definition run_job (j : Job) e : Engine :=
  match j with
  | JEvent evt => let '(live, e) := claim evt e in if live then handleEventInner evt e else e
  | JExtract x => extractAndAppend x e
  end.

Inductive Act :=
| Hook (evt : HandlerEvent)                                (** an agent's event; its object is drawn here *)
| Arm (p : ArmArgs) | Disarm | Exit (keepArmed : bool)
| UserReply (data : string) (resolved : option string)
| Instruct (p : InstructArgs) | Answer (escalationId choiceId : string) | Dismiss (escalationId : string)
| TurnCancelled | PromptRetracted (promptId : option string)
| ParkTimer
| NextJob
| ContextRead (text : string) | PassFailed
| JudgeAnswered (timedOut : bool) (d : option HandlerDecision)
| SnapshotsTaken (outcomes : list SnapshotOutcome)
| ExtractorAnswered (r : option ExtractionResult)
| Elsewhere (ids : nat).                                   (** other terminals mint ids *)

Definition step (a : Act) e : Engine :=
  match a with
  | Hook evt => let '(object, e) := draw e in handleEvent (evt {{ ev_object := object }}) e
  | Arm p => arm w p e
  | Disarm => disarm false e
  | Exit keepArmed => onTerminalExit keepArmed e
  | UserReply data resolved => onUserReply w data resolved e
  | Instruct p => instruct p e
  | Answer escalationId choiceId => answerAsk escalationId choiceId e
  | Dismiss escalationId => dismissEscalation w escalationId e
  | TurnCancelled => onTurnCancelled w e
  | PromptRetracted promptId => onPromptRetracted w promptId e
  | ParkTimer => runParkTimer w e
  | NextJob =>
      match e.(e_stage), e.(e_chain) with
      | Idle, j :: rest => run_job j (e {{ e_chain := rest }})
      | _, _ => e
      end
  | ContextRead text => match e.(e_stage) with Assembling p => context_read p text e | _ => e end
  | PassFailed => match e.(e_stage) with Assembling p | Judging p _ => pass_failed p e | _ => e end
  | JudgeAnswered timedOut d => match e.(e_stage) with Judging p j => verdict p j timedOut d e | _ => e end
  | SnapshotsTaken outcomes => match e.(e_stage) with Preparing p c => send_reply p c outcomes e | _ => e end
  | ExtractorAnswered r => match e.(e_stage) with Extracting x session => extracted x session r (e {{ e_stage := Idle }}) | _ => e end
  | Elsewhere ids => e {{ e_seq := (e.(e_seq) + ids)%nat }}
  end.
End passes.

Definition run_acts (acts : list (World * Act)) (e : Engine) : Engine := foldl (λ e '(w, a), step w a e) e acts.

Lemma run_acts_cons w a acts e : run_acts ((w, a) :: acts) e = run_acts acts (step w a e).
Proof. done. Qed.
