(* ===== verification/HandlerFrame.v ===== *)
(** * HandlerFrame: what the operations of the supervisor leave alone

    Most operations on a session neither touch the guard, the pass in flight or
    the lift of the session, nor send the agent anything.  [tame] says so, and is
    proved here for each of them once; a property of what is sent then only has to
    look at the few that are not. *)

From S2P Require Import Prelude Regex DestructiveFloor Authorization Backlog ReplyGuard HandlerSession HandlerRows HandlerEngine HandlerPass.
From coqutil Require Import Datatypes.RecordSetters.
Import DoubleBraceUpdate.

Local Open Scope Z_scope.
Local Open Scope js_scope.

(** Nothing is sent to the agent, and no item is done. *)
Definition harmless (x : Effect) : bool := match x with Replied _ _ _ _ | Nudged | Progressed | Asked _ | WrappedUp _ => false | _ => true end.

Definition identity (s : ArmedSession) : nat * InstructionAuthorization * list InstructionItem := (s.(a_object), s.(a_auth), s.(a_backlog)).
Definition ident (e : Engine) : option (nat * InstructionAuthorization * list InstructionItem) := identity <$> e.(e_session).

(** How often a session may still be nudged past a wait: each new wait uses up one
    of the two counters, and a nudge ends a wait. *)
Definition waits_left (limitParks transientFailures : nat) : nat := (LIMIT_PARK_CEILING - 1 - limitParks) + (TRANSIENT_CEILING - 1 - transientFailures).
Definition patience (s : ArmedSession) : nat := waits_left s.(a_limitParks) s.(a_transientFailures) + (if is_parked s then 1 else 0).
Definition nudges_left (e : Engine) : nat := match e.(e_session) with Some s => patience s | None => O end.

Record tame (e e' : Engine) : Prop := {
  tame_terminal : e'.(e_terminal) = e.(e_terminal);
  tame_guard : e'.(e_guard) = e.(e_guard);
  tame_stage : e'.(e_stage) = e.(e_stage);
  tame_objects : (e.(e_objects) <= e'.(e_objects))%nat;
  tame_out : ∃ l, e'.(e_out) = e.(e_out) ++ l ∧ Forall (λ x, harmless x = true) l;
  tame_ident : ident e' = ident e;
  tame_patience : (nudges_left e' <= nudges_left e)%nat }.

Lemma tame_refl e : tame e e.
Proof. split; [done..|lia| |done|lia]. exists []. by rewrite app_nil_r. Qed.

Lemma tame_trans e1 e2 e3 : tame e1 e2 → tame e2 e3 → tame e1 e3.
Proof.
  intros [H1 H2 H3 H4 (l1 & H5 & H6) H7 H8] [K1 K2 K3 K4 (l2 & K5 & K6) K7 K8]. split; [congruence..|lia| |congruence|lia].
  exists (l1 ++ l2). rewrite K5, H5, app_assoc, Forall_app. done.
Qed.

Create HintDb tame.

(** A goal [tame e (f (g ..))] is taken apart from the outside: a test or a match
    is split, an operation known to be tame is peeled off. *)
Ltac tame_step :=
  match goal with
  | |- tame ?e ?e => apply tame_refl
  | H : tame ?e ?x |- tame ?e ?x => exact H
  | |- tame _ (match ?x with _ => _ end) => destruct x eqn:?
  | H : ?x = (?a, ?e2) |- tame ?e ?e2 => replace e2 with (x.2) by (rewrite H; reflexivity); clear H
  | |- tame _ _ => simple eapply tame_trans; [|solve [eauto 2 with tame nocore]]
  end.
Ltac tame := cbv beta zeta; repeat (tame_step; cbv beta zeta).

Section frame.
Context (w : World).
Implicit Types (e : Engine) (s : ArmedSession).

(** ** The steps everything is made of *)

Definition tame_session s s' : Prop :=
  identity s' = identity s ∧ (patience s' <= patience s)%nat.

Lemma tame_upd_here f e : (∀ s, e.(e_session) = Some s → tame_session s (f s)) → tame e (upd f e).
Proof.
  intros Hf. split; [done..| | |].
  - exists []. by rewrite app_nil_r.
  - unfold ident. change (e_session (upd f e)) with (f <$> e.(e_session)). destruct (e_session e) as [s|]; [|done]. simpl.
    by destruct (Hf s eq_refl) as [-> _].
  - unfold nudges_left. change (e_session (upd f e)) with (f <$> e.(e_session)). destruct (e_session e) as [s|]; [|done]. simpl. by apply Hf.
Qed.
Lemma tame_upd f e : (∀ s, tame_session s (f s)) → tame e (upd f e).
Proof. intros Hf. by apply tame_upd_here. Qed.
Lemma upd_same e : upd (λ s, s) e = e.
Proof. unfold upd. destruct e as [t [s|]]; done. Qed.
Lemma upd_upd f g e : upd g (upd f e) = upd (λ s, g (f s)) e.
Proof. unfold upd. destruct e as [t [s|]]; done. Qed.

Lemma tame_emit x e : harmless x = true → tame e (emit x e).
Proof. intros Hx. split; [done..| |done|done]. exists [x]. split; [done|]. by constructor. Qed.

Lemma tame_plain e e' :
  e'.(e_terminal) = e.(e_terminal) → e'.(e_guard) = e.(e_guard) → e'.(e_stage) = e.(e_stage) → (e.(e_objects) <= e'.(e_objects))%nat →
  e'.(e_out) = e.(e_out) → e'.(e_session) = e.(e_session) → tame e e'.
Proof.
  intros ????? Hs. split; [done..| | |].
  - exists []. by rewrite app_nil_r.
  - unfold ident. by rewrite Hs.
  - unfold nudges_left. by rewrite Hs.
Qed.

Lemma tame_set_timer e v : tame e (e {{ e_timer := v }}).
Proof. by apply tame_plain. Qed.
Lemma tame_set_latest e v : tame e (e {{ e_latest := v }}).
Proof. by apply tame_plain. Qed.
Lemma tame_set_queued e v : tame e (e {{ e_queuedPrompts := v }}).
Proof. by apply tame_plain. Qed.
Lemma tame_set_chain e v : tame e (e {{ e_chain := v }}).
Proof. by apply tame_plain. Qed.
Lemma tame_set_seq e v : tame e (e {{ e_seq := v }}).
Proof. by apply tame_plain. Qed.
Lemma tame_draw e : tame e (draw e).2.
Proof. apply tame_plain; try done. cbn. lia. Qed.
Lemma tame_mint prefix e : tame e (mint w prefix e).2.
Proof. by apply tame_plain. Qed.

Lemma tame_record kind reason detail e : tame e (record w kind reason detail e).
Proof. unfold record. eapply tame_trans; [apply tame_mint|]. by apply tame_emit. Qed.
Lemma tame_persist armed suspended s e : tame e (persist armed suspended s e).
Proof. by apply tame_emit. Qed.
Lemma tame_persist_here e : tame e (persist_here e).
Proof. unfold persist_here. destruct (e_session e); [apply tame_persist|apply tame_refl]. Qed.
Lemma tame_emitStatus e : tame e (emitStatus e).
Proof. by apply tame_emit. Qed.

Lemma tame_here f e : (∀ s, e.(e_session) = Some s → tame e (f s e)) → tame e (here f e).
Proof. intros Hf. unfold here. destruct (e_session e) as [s|]; [by apply Hf|apply tame_refl]. Qed.

Lemma tame_foldl {A} (f : Engine → A → Engine) l e : (∀ e x, tame e (f e x)) → tame e (foldl f e l).
Proof. intros Hf. revert e. induction l as [|x l IH]; intros e; [apply tame_refl|]. simpl. eapply tame_trans; [apply Hf|apply IH]. Qed.
End frame.

(** Coming to rest ends a wait. *)
Lemma tame_resting s s' st :
  identity s' = identity s → s'.(a_limitParks) = s.(a_limitParks) →
  s'.(a_transientFailures) = s.(a_transientFailures) → s'.(a_state) = st → st ≠ Parked ∨ st = s.(a_state) → tame_session s s'.
Proof.
  intros Hi Hl Ht Hst Hp. split; [done|]. unfold patience, is_parked. rewrite Hl, Ht, Hst.
  destruct Hp as [Hp| ->]; [|lia]. rewrite (bool_decide_false (st = Parked)) by done. lia.
Qed.
Lemma resting_unparked s : restingState s ≠ Parked.
Proof. unfold restingState. by destruct (a_escalations s). Qed.

(** The updates of the code: they keep the state, rest, or set another. *)
Ltac tame_session := intros; lazymatch goal with
  | |- tame_session _ (rest_unless_parked ?x) =>
      unfold rest_unless_parked; destruct (bool_decide (a_state x = Parked)); (eapply tame_resting; [reflexivity..|]); [right; reflexivity|left; apply resting_unparked]
  | _ => eapply tame_resting; [reflexivity..|]; first [right; reflexivity | left; apply resting_unparked | left; discriminate]
  end.

(** A change of [e] that occurs several times is proved tame once. *)
Ltac name_upd e :=
  match goal with |- context [upd ?f e] =>
    let H := fresh in assert (tame e (upd f e)) as H by (apply tame_upd; tame_session); revert H; generalize (upd f e); intros
  end.

#[export] Hint Resolve tame_set_timer tame_set_latest tame_set_queued tame_set_chain tame_set_seq tame_draw tame_mint
  tame_record tame_persist tame_persist_here tame_emitStatus : tame.
#[export] Hint Extern 1 (tame _ (upd _ _)) => (apply tame_upd; tame_session) : tame.
#[export] Hint Extern 1 (tame _ (emit _ _)) => (apply tame_emit; reflexivity) : tame.

Section rows.
Context (w : World).
Implicit Types (e : Engine) (s : ArmedSession).

(** ** Rows *)

Lemma tame_unparkIfParked e : tame e (unparkIfParked e).2.
Proof. unfold unparkIfParked. destruct (e_session e); [|apply tame_refl]. destruct (is_parked _); [|apply tame_refl]. simpl snd. tame. Qed.

Lemma tame_escalate d forced floor kind prompt e : tame e (escalate w d forced floor kind prompt e).
Proof. unfold escalate. tame. Qed.
Lemma tame_noteAskRejected ask why e : tame e (noteAskRejected w ask why e).
Proof. unfold noteAskRejected. tame. Qed.
Hint Resolve tame_unparkIfParked tame_escalate tame_noteAskRejected : tame.

Lemma tame_raiseAsk ask e : tame e (raiseAsk w ask e).
Proof. unfold raiseAsk. tame. Qed.
Lemma tame_reconcileAsks e : tame e (reconcileAsks w e).
Proof.
  unfold reconcileAsks. destruct (e_session e) as [s|]; [|apply tame_refl]. destruct (existsb _ _); [|apply tame_refl].
  eapply tame_trans; [|apply tame_emitStatus]. eapply tame_trans; [|apply tame_persist_here].
  eapply tame_trans; [|apply tame_foldl; intros; apply tame_record]. tame.
Qed.
Lemma tame_parkAskAnswer n esc answer tapped delivered e : tame e (parkAskAnswer w n esc answer tapped delivered e).
Proof. unfold parkAskAnswer. tame. Qed.
Lemma tame_dropQueuedPrompts p e : tame e (dropQueuedPrompts p e).
Proof. unfold dropQueuedPrompts. tame. Qed.
Hint Resolve tame_raiseAsk tame_reconcileAsks tame_parkAskAnswer tame_dropQueuedPrompts : tame.

Lemma tame_onTurnCancelled e : tame e (onTurnCancelled w e).
Proof. unfold onTurnCancelled. tame. Qed.
Lemma tame_onPromptRetracted p e : tame e (onPromptRetracted w p e).
Proof. unfold onPromptRetracted. tame. Qed.
Lemma tame_dismissEscalation id e : tame e (dismissEscalation w id e).
Proof. unfold dismissEscalation. tame. Qed.

(** ** The chain and the parks *)

Lemma tame_enqueue j e : tame e (enqueue j e).
Proof. unfold enqueue. tame. Qed.
Lemma tame_trackQueuedPrompt evt e : tame e (trackQueuedPrompt evt e).
Proof. unfold trackQueuedPrompt. tame. Qed.
Hint Resolve tame_enqueue tame_trackQueuedPrompt : tame.
Lemma tame_handleEvent evt e : tame e (handleEvent evt e).
Proof. unfold handleEvent. tame. Qed.
Lemma tame_queueExtraction text b fallback e : tame e (queueExtraction text b fallback e).
Proof. apply tame_enqueue. Qed.
Hint Resolve tame_handleEvent tame_queueExtraction : tame.
Lemma tame_new_event k e : tame e (new_event k e).2.
Proof. apply tame_draw. Qed.
Hint Resolve tame_new_event : tame.
Lemma tame_maybeRelayNow why e : tame e (maybeRelayNow w why e).
Proof. unfold maybeRelayNow. apply tame_here. intros s _. tame. Qed.
Hint Resolve tame_maybeRelayNow : tame.

(** A wait, with one of the counters one further. *)
Lemma tame_enterPark p f e :
  (∀ s, e.(e_session) = Some s → identity (f s) = identity s ∧
    (is_parked s = true ∧ (f s).(a_limitParks) = s.(a_limitParks) ∧ (f s).(a_transientFailures) = s.(a_transientFailures)
     ∨ (waits_left (f s).(a_limitParks) (f s).(a_transientFailures) < waits_left s.(a_limitParks) s.(a_transientFailures))%nat)) →
  tame e (enterPark w p (upd f e)).
Proof.
  intros Hf. unfold enterPark, arm_timer. rewrite upd_upd. cbv zeta.
  assert (∀ g, (∀ s, (identity (g s), (g s).(a_limitParks), (g s).(a_transientFailures)) =
    (identity (f s), (f s).(a_limitParks), (f s).(a_transientFailures))) → tame e (upd g e)) as Hg.
  { intros g Hg. apply tame_upd_here. intros s Hs. destruct (Hf s Hs) as (Hi & Hp). specialize (Hg s). injection Hg as Eo Ea Eb El Et.
    assert (identity (g s) = identity (f s)) as Eg by (unfold identity; congruence). split; [by rewrite Eg|]. unfold patience in *. rewrite El, Et. destruct Hp as [(Hp & -> & ->)|Hp].
    - rewrite Hp. destruct (is_parked (g s)); lia.
    - destruct (is_parked s), (is_parked (g s)); lia. }
  set (g := λ s, _). pose proof (Hg g (λ s, eq_refl)) as He. clearbody g. destruct (pa_selfResuming p); tame.
Qed.

Lemma tame_registerTransientFailure c retry e : tame e (registerTransientFailure w c retry e).
Proof.
  unfold registerTransientFailure. set (f := λ s, s {{ a_transientFailures := S s.(a_transientFailures) }}). set (e1 := upd f e).
  assert (tame e e1) as He1.
  { apply tame_upd. intros s. split; [done|]. change (waits_left s.(a_limitParks) (S s.(a_transientFailures)) + (if is_parked s then 1 else 0) <= patience s)%nat.
    unfold patience, waits_left. lia. }
  unfold here. destruct (e_session e1) as [s|] eqn:Es; [|done]. cbv zeta.
  destruct (_ <=? _)%nat eqn:Ec; [destruct (_ =? _)%nat; tame|]. apply Nat.leb_gt in Ec.
  eapply tame_trans; [|apply tame_emitStatus]. eapply tame_trans; [|apply tame_record]. apply tame_enterPark.
  intros s0 Hs0. split_and!; [done..|]. right. revert Es. unfold e1. change (e_session (upd f e)) with (f <$> e.(e_session)). rewrite Hs0. intros [= <-].
  revert Ec. change (a_transientFailures (f s0)) with (S s0.(a_transientFailures)). change (a_limitParks (f s0)) with s0.(a_limitParks).
  unfold waits_left, TRANSIENT_CEILING. lia.
Qed.

Lemma tame_limit_hit evt s e : e.(e_session) = Some s → tame e (limit_hit_ w evt s e).
Proof.
  intros Hs. unfold limit_hit_. cbv zeta. set (refresh := is_parked s && _). set (f := λ s, s {{ a_limitParks := S s.(a_limitParks) }}).
  assert (tame e (upd f e)) as Hf.
  { apply tame_upd. intros s0. split; [done|]. change (waits_left (S s0.(a_limitParks)) s0.(a_transientFailures) + (if is_parked s0 then 1 else 0) <= patience s0)%nat.
    unfold patience, waits_left. lia. }
  destruct (negb refresh && _) eqn:Ec.
  - assert (refresh = false) as -> by (destruct refresh; done). tame.
  - set (p := {| pa_kind := _ |}). assert (tame e (enterPark w p (if refresh then e else upd f e))) as Hp.
    { destruct refresh eqn:Er.
      - pose proof (tame_enterPark p (λ s, s) e) as Hp. rewrite upd_same in Hp. apply Hp. intros s0 Hs0. split_and!; [done..|]. left.
        rewrite Hs in Hs0. injection Hs0 as <-. apply andb_true_iff in Er as [Er _]. done.
      - apply tame_enterPark. intros s0 Hs0. split_and!; [done..|]. right. rewrite Hs in Hs0. injection Hs0 as <-. cbn [negb andb] in Ec.
        apply Nat.leb_gt in Ec. revert Ec.
        change (a_transientFailures (f s)) with s.(a_transientFailures). change (a_limitParks (f s)) with (S s.(a_limitParks)).
        unfold waits_left, LIMIT_PARK_CEILING. lia. }
    set (e1 := enterPark _ _ _) in *. clearbody e1. tame.
Qed.
Hint Resolve tame_registerTransientFailure : tame.
Lemma tame_handleLifecycle evt e : tame e (handleLifecycle w evt e).
Proof. unfold handleLifecycle. apply tame_here. intros s Hs. destruct (ev_event evt); try tame. by apply tame_limit_hit. Qed.
Lemma tame_claim evt e : tame e (claim evt e).2.
Proof. unfold claim. destruct (isBlockingPrompt evt); simpl snd; tame. Qed.

(** ** Items *)

Lemma tame_mint_unused fuel used e : tame e (mint_unused w fuel used e).2.
Proof.
  revert e. induction fuel as [|fuel IH]; intros e; simpl; [apply (tame_mint w "item")|]. case_decide; [|apply (tame_mint w "item")].
  eapply tame_trans; [apply (tame_mint w "item")|apply IH].
Qed.
Lemma tame_mint_items n used e : tame e (mint_items w n used e).2.
Proof.
  revert used e. induction n as [|n IH]; intros used e; cbn [mint_items]; [apply tame_refl|].
  pose proof (tame_mint_unused (length used) used e) as H. destruct (mint_unused _ _ _ _) as [id e1].
  specialize (IH (used ++ [id]) e1). destruct (mint_items _ _ _ _) as [ids e2]. by eapply tame_trans.
Qed.
Hint Resolve tame_mint_items : tame.
Lemma tame_escalateIfEmptied e : tame e (escalateIfEmptied w e).
Proof. unfold escalateIfEmptied. apply tame_here. intros s _. tame. Qed.
Hint Resolve tame_escalateIfEmptied : tame.

(** ** Snapshots and warnings *)

Lemma tame_rememberWarning line e : tame e (rememberWarning line e).
Proof. unfold rememberWarning. tame. Qed.
Hint Resolve tame_rememberWarning : tame.
Lemma tame_noteFloorWarning x e : tame e (noteFloorWarning w e x).
Proof. unfold noteFloorWarning. tame. Qed.
Lemma tame_recordUnprotected t d e : tame e (recordUnprotected w t d e).
Proof. unfold recordUnprotected. tame. Qed.
Hint Resolve tame_recordUnprotected : tame.
Lemma tame_recordSnapshots o l e : tame e (recordSnapshots w o l e).
Proof.
  unfold recordSnapshots. eapply tame_trans; [eapply (tame_foldl (record_outcome w))|eapply tame_foldl].
  - intros e1 x. unfold record_outcome. tame.
  - intros e1 x. unfold record_flagged, recordIrreversible. tame.
Qed.

(** ** What a pass notes *)

Lemma tame_note_rejection b acc r : tame acc.2 (note_rejection w b acc r).2.
Proof.
  unfold note_rejection. destruct acc as [refused e]. destruct (evidence_code _); [|apply tame_refl].
  destruct (rj_transition r); [|apply tame_refl]. destruct (list_find _ _) as [[]|]; [|apply tame_refl].
  simpl snd. apply tame_here. intros s _. tame.
Qed.
Lemma tame_note_rejections b l acc : tame acc.2 (foldl (note_rejection w b) acc l).2.
Proof. revert acc. induction l as [|r l IH]; intros acc; [apply tame_refl|]. simpl. eapply tame_trans; [apply tame_note_rejection|apply IH]. Qed.
Lemma tame_note_applied a e : tame e (note_applied w e a).
Proof. unfold note_applied. tame. Qed.
Lemma tame_note_derived b i e : tame e (note_derived w b e i).
Proof. unfold note_derived. tame. Qed.
Lemma tame_note_clamped p e : tame e (note_clamped w p e).
Proof. unfold note_clamped. tame. Qed.
End rows.

#[export] Hint Resolve tame_unparkIfParked tame_escalate tame_noteAskRejected tame_raiseAsk tame_reconcileAsks tame_parkAskAnswer
  tame_dropQueuedPrompts tame_onTurnCancelled tame_onPromptRetracted tame_dismissEscalation tame_enqueue tame_trackQueuedPrompt
  tame_handleEvent tame_new_event tame_queueExtraction tame_maybeRelayNow tame_registerTransientFailure
  tame_handleLifecycle tame_claim tame_mint_items tame_escalateIfEmptied
  tame_rememberWarning tame_noteFloorWarning tame_recordUnprotected tame_recordSnapshots tame_note_rejections tame_note_applied
  tame_note_derived : tame.
