(* ===== verification/HandlerItems.v ===== *)
(** * HandlerItems: what becomes of the items of a session

    The operations of HandlerPass.v that change the items a session works through:
    items taken in get ids of their own, an amendment leaves closed items alone,
    and a verdict closes only what it cites.  Each of these operations is a change
    of the session between tame steps; [Frame] is what a property of engines has to
    hold along for that. *)

From S2P Require Import Prelude Regex DestructiveFloor Authorization Backlog ReplyGuard HandlerSession HandlerRows HandlerEngine HandlerPass HandlerFrame.
From stdpp Require Import pretty.
From coqutil Require Import Datatypes.RecordSetters.
Import DoubleBraceUpdate.

Local Open Scope Z_scope.
Local Open Scope js_scope.

Definition ids (b : list InstructionItem) : list string := it_id <$> b.

(** ** Ids of their own *)

Section ids.
Context (w : World).

Definition id_of (n : nat) : string := "item-" +:+ w.(w_projectId) +:+ "-" +:+ pretty w.(w_now) +:+ "-" +:+ pretty n.

#[local] Instance id_of_inj : Inj (=) (=) id_of.
Proof. intros n m H. unfold id_of in H. repeat apply (inj (String.append _)) in H. by apply (inj pretty). Qed.

Lemma mint_item e : mint w "item" e = (id_of e.(e_seq), e {{ e_seq := S e.(e_seq) }}).
Proof. done. Qed.

(** The candidates still to come that are taken are all among [l]. *)
Lemma mint_unused_fresh fuel used l e :
  (length l <= fuel)%nat → (∀ k, (e.(e_seq) <= k)%nat → id_of k ∈ used → id_of k ∈ l) → (mint_unused w fuel used e).1 ∉ used.
Proof.
  revert l e. induction fuel as [|fuel IH]; intros l e Hlen Hl; cbn [mint_unused]; rewrite mint_item.
  - destruct l; [|simpl in Hlen; lia]. intros Hin. apply (not_elem_of_nil (id_of e.(e_seq))). by apply Hl.
  - case_decide as Hin; [|done]. apply (IH (filter (λ x, x ≠ id_of e.(e_seq)) l)).
    + assert (id_of e.(e_seq) ∈ l) as Hi by (apply Hl; [lia|done]).
      pose proof (length_filter_lt (λ x, x ≠ id_of e.(e_seq)) l _ Hi). naive_solver lia.
    + intros k Hk Hu. change (e_seq (e {{ e_seq := S e.(e_seq) }})) with (S e.(e_seq)) in Hk. apply list_elem_of_filter.
      split; [|by apply Hl; [lia|]]. intros E. apply (inj id_of) in E. lia.
Qed.

Lemma mint_items_fresh n used e :
  let '(l, _) := mint_items w n used e in NoDup l ∧ (∀ x, x ∈ l → x ∉ used) ∧ length l = n.
Proof.
  revert used e. induction n as [|n IH]; intros used e; cbn [mint_items].
  - split; [constructor|]. split; [by intros x ?%not_elem_of_nil|done].
  - pose proof (mint_unused_fresh (length used) used used e (le_n _) (λ k _ H, H)) as Hf. destruct (mint_unused _ _ _ _) as [id e1]. cbn [fst] in Hf.
    specialize (IH (used ++ [id]) e1). destruct (mint_items _ _ _ _) as [l e2]. destruct IH as (H1 & H2 & H3). split_and!.
    + constructor; [|done]. intros Hin. apply (H2 id Hin). apply elem_of_app. right. by left.
    + intros x [->|Hx]%elem_of_cons; [done|]. intros Hu. apply (H2 x Hx). apply elem_of_app. by left.
    + simpl. by rewrite H3.
Qed.
End ids.

(** ** Closed items *)

Definition is_closed (i : InstructionItem) : bool := isTerminalStatus i.(it_status).

(** What of an item a citation is about. *)
Definition stands (i j : InstructionItem) : Prop :=
  j.(it_id) = i.(it_id) ∧ j.(it_text) = i.(it_text) ∧ j.(it_status) = i.(it_status) ∧ j.(it_evidence) = i.(it_evidence).

Lemma cited_stands ctx i j t : i.(it_id) = j.(it_id) → i.(it_text) = j.(it_text) → cited ctx i t → cited ctx j t.
Proof. intros E1 E2. unfold cited, anchorTokens. by rewrite E1, E2. Qed.

Lemma propagate_items b : Forall2 (λ i j, j = i ∨ j = with_status blocked i) b (propagateBlocked b).
Proof. apply (proj1 (propagated b)). Qed.
Lemma propagate_ids b : ids (propagateBlocked b) = ids b.
Proof. unfold ids. induction (propagate_items b) as [|i j l k [->| ->] _ IH]; [done|..]; rewrite !fmap_cons, IH; done. Qed.
Lemma propagate_closed b i : i ∈ propagateBlocked b → is_closed i = true → i ∈ b.
Proof.
  intros (n & Hn)%list_elem_of_lookup Hi. destruct (Forall2_lookup_r _ _ _ _ _ (propagate_items b) Hn) as (j & Hj & [->| ->]); [|done].
  by eapply list_elem_of_lookup_2.
Qed.

Lemma moves_ids b ts now ctx : ids (applyTransitions b ts now ctx).(backlog) = ids b.
Proof.
  destruct (applyTransitions_ok now ctx b ts) as [H _]. unfold ids. revert H. generalize (applyTransitions b ts now ctx).(backlog).
  induction 1 as [|i j l k ((E & _) & _) _ IH]; [done|]. by rewrite !fmap_cons, E, IH.
Qed.

(** A closed item after some moves was closed before, or is cited. *)
Lemma moves_closed b ts now ctx i :
  i ∈ (applyTransitions b ts now ctx).(backlog) → is_closed i = true →
  i ∈ b ∨ ∃ t, Some t ∈ ts ∧ t.(tr_id) = i.(it_id) ∧ t.(tr_status) = i.(it_status) ∧ t.(tr_evidence) = i.(it_evidence) ∧ cited ctx i t.
Proof.
  intros (n & Hn)%list_elem_of_lookup Hi. destruct (applyTransitions_ok now ctx b ts) as [H _].
  destruct (Forall2_lookup_r _ _ _ _ _ H Hn) as (j & Hj & Hs & Hclosed & Hopen). unfold is_closed in Hi.
  destruct (isTerminalStatus j.(it_status)) eqn:Ej.
  - left. rewrite (Hclosed eq_refl). by eapply list_elem_of_lookup_2.
  - right. destruct (Hopen eq_refl Hi) as (t & Hin & Hid & Hst & Hev & Hc). destruct Hs as (E1 & E2 & _). exists t.
    split_and!; [done|congruence|done|done|]. by eapply cited_stands; [..|exact Hc].
Qed.

(** ** Amendments *)

(** An id is one item's. *)
Lemma same_item b i j : NoDup (ids b) → i ∈ b → j ∈ b → i.(it_id) = j.(it_id) → i = j.
Proof.
  intros Hb (n & Hi)%list_elem_of_lookup (m & Hj)%list_elem_of_lookup E. assert (n = m) as ->; [|congruence].
  eapply (NoDup_lookup (ids b)); [done|..]; unfold ids; rewrite list_lookup_fmap; [by rewrite Hi|rewrite Hj; simpl; congruence].
Qed.

Section amendments.
Context (b : list InstructionItem) (Hb : NoDup (ids b)) (l : list Amendment).
Let shown := amendableItems b.

(** Only open items are shown. *)
Lemma shown_open i : i ∈ shown → i ∈ b ∧ is_closed i = false.
Proof.
  unfold shown, amendableItems. intros Hi%subseteq_take. apply list_elem_of_filter in Hi as [H1 H2]. done.
Qed.

Lemma item_of_shown id i : item_of shown id = Some i → i ∈ b ∧ is_closed i = false ∧ i.(it_id) = id.
Proof.
  unfold item_of. destruct (byId shown id) as [n|] eqn:En; [|done]. simpl. intros Hi. apply byId_lookup in En as (i' & Hi' & Hid).
  rewrite Hi in Hi'. injection Hi' as <-. destruct (shown_open i); [by eapply list_elem_of_lookup_2|done].
Qed.

(** A closed item is in no revision. *)
Lemma closed_not_revised i : i ∈ b → is_closed i = true → revision_of (revisions shown l) i.(it_id) = (None, None).
Proof.
  intros Hi Hc. unfold revision_of. rewrite filter_none; [done|]. intros [id r] (a & Ha & Hr)%list_elem_of_omap. simpl. intros ->.
  unfold amend_one in Hr. destruct (item_of shown a.(ad_id)) as [j|] eqn:Ej; [|done]. apply item_of_shown in Ej as (Hj & Hjc & Hid).
  assert (j = i) as ->; [|congruence]. apply (same_item b j i Hb Hj Hi). rewrite Hid.
  destruct (ad_action a); [done|]. destruct (_ ≫= _), (_ ≫= _); congruence.
Qed.

Let wasBlocking := filter (λ id, it_status <$> item_of shown id = Some blocked) (dropped_ids shown l).
Let next := amend_item (dropped_ids shown l) wasBlocking (revisions shown l) <$> filter (λ i, i.(it_id) ∉ dropped_ids shown l) b.

Lemma next_ids : ids (snd <$> next) `sublist_of` ids b.
Proof.
  assert (ids (snd <$> next) = ids (filter (λ i, i.(it_id) ∉ dropped_ids shown l) b)) as ->.
  { unfold ids, next. rewrite <-!list_fmap_compose. apply list_fmap_ext. intros _ i _. simpl. unfold amend_item.
    destruct (revision_of _ _) as [text condition]. done. }
  unfold ids. apply fmap_sublist, sublist_filter.
Qed.

Lemma next_closed i : i ∈ snd <$> next → is_closed i = true → ∃ i0, i0 ∈ b ∧ stands i0 i.
Proof.
  intros (p & -> & (i0 & -> & [_ Hi0]%list_elem_of_filter)%list_elem_of_fmap)%list_elem_of_fmap Hc. exists i0. split; [done|].
  assert (is_closed i0 = true) as Hc0.
  { revert Hc. unfold amend_item. destruct (revision_of _ _). unfold is_closed. cbn [snd it_status]. by destruct (_ && _). }
  revert Hc. unfold amend_item. rewrite (closed_not_revised i0 Hi0 Hc0). unfold is_closed in *. cbn [snd it_status].
  destruct (bool_decide _ && _) eqn:E; [done|]. intros _. cbn. split_and!; first [done|by rewrite E|idtac].
Qed.

Lemma amended_ids : ids (amended b l) = ids (snd <$> next).
Proof.
  transitivity (ids (propagateBlocked (snd <$> next))); [|apply propagate_ids]. unfold amended, ids. cbv zeta. fold shown wasBlocking next.
  rewrite <-list_fmap_compose. apply list_fmap_ext.
  intros _ i _. simpl. by destruct (_ && _).
Qed.

Lemma amended_distinct : NoDup (ids (amended b l)).
Proof. rewrite amended_ids. by eapply sublist_NoDup; [|apply next_ids]. Qed.

(** An item closed after an amendment was closed before it, and stands as it did. *)
Lemma amended_closed i : i ∈ amended b l → is_closed i = true → ∃ i0, i0 ∈ b ∧ stands i0 i.
Proof.
  unfold amended. cbv zeta. fold shown wasBlocking next. intros (j & -> & Hj)%list_elem_of_fmap Hc.
  assert (is_closed j = true) as Hcj by (revert Hc; by destruct (_ && _)). apply propagate_closed in Hj; [|done].
  destruct (bool_decide (j.(it_id) ∈ _) && _) eqn:E; [|by apply next_closed].
  exfalso. apply andb_true_iff in E as [(p & Hp & [Hr Hin]%list_elem_of_filter)%bool_decide_eq_true%list_elem_of_fmap _].
  assert (p.2 = j) as Epj.
  { apply (same_item (snd <$> next)); [by eapply sublist_NoDup; [|apply next_ids]|apply list_elem_of_fmap; eauto|done|done]. }
  apply list_elem_of_fmap in Hin as (i0 & -> & _). revert Hr Epj. unfold amend_item. destruct (revision_of _ _). cbn [fst snd].
  intros ->. intros <-. done.
Qed.
End amendments.

(** ** Changes between tame steps *)

(** What a property of engines has to hold along. *)
Class Frame (R : Engine → Engine → Prop) (U : ArmedSession → ArmedSession → Prop) : Prop := {
  frame_then : ∀ e1 e2 e3, R e1 e2 → R e2 e3 → R e1 e3;
  frame_tame : ∀ e e', tame e e' → R e e';
  frame_set : ∀ f e, (∀ s, e.(e_session) = Some s → U s (f s)) → R e (upd f e) }.

(** Items taken in, and items amended. *)
Inductive restocked : list InstructionItem → list InstructionItem → Prop :=
| rs_added b added :
    Forall (λ i, i.(it_status) = queued) added → NoDup (ids added) → (∀ x, x ∈ ids added → x ∉ ids b) → restocked b (b ++ added)
| rs_amended b l : restocked b (amended b l).

(** The session is itself but for its items and the mark of the last judgement. *)
Definition with_items (b : list InstructionItem) (s : ArmedSession) : ArmedSession := s {{ a_backlog := b; a_lastJudgedContextHash := None }}.
Definition stocked (s s' : ArmedSession) : Prop := ∃ b, restocked s.(a_backlog) b ∧ s' = with_items b s.

(** The items whose command need not be named any more. *)
Definition waived_now (e : Engine) : list string := match e.(e_session) with Some s => waivedAnchors s | None => [] end.

(** A verdict's moves, graded against what was shown. *)
Definition judged (d : HandlerDecision) (corpus : string) (catalog : option (list CapCommand)) (waived : list string) (s s' : ArmedSession) : Prop :=
  s'.(a_object) = s.(a_object) ∧ s'.(a_auth) = s.(a_auth) ∧ patience s' = patience s ∧
  ∃ now, s'.(a_backlog) = propagateBlocked (applyTransitions s.(a_backlog) (map Some (d.(d_transitions) ?| [])) now
    {| evidenceCorpus := corpus; commandNames := map cc_name <$> catalog; anchorWaived := waived |}).(backlog).

Section stocked.
Context (w : World) {R : Engine → Engine → Prop} {U : ArmedSession → ArmedSession → Prop} `{!Frame R U}.
Context (HU : ∀ s s', stocked s s' → U s s').
Implicit Types (e : Engine) (s : ArmedSession).

Lemma new_items_ids refs l x : length l = length x → ids (zip_with (new_item refs w.(w_now)) l x) = l.
Proof.
  revert x. unfold ids. induction l as [|i l IH]; intros [|y x]; try done. intros [= Hl]. simpl. f_equal. by apply IH.
Qed.
Lemma new_items_queued refs l x : Forall (λ i, i.(it_status) = queued) (zip_with (new_item refs w.(w_now)) l x).
Proof. revert x. induction l as [|i l IH]; intros [|y x]; by constructor. Qed.

Lemma appendItems_frame n l e : R e (appendItems w n l e).
Proof.
  unfold appendItems, here. destruct (e_session e) as [s|] eqn:Es; [|apply frame_tame, tame_refl].
  destruct (negb _); [apply frame_tame, tame_refl|]. cbv zeta. set (kept := take _ _). set (e1 := if (0 <? _)%nat then _ else e).
  assert (tame e e1) as H1 by (unfold e1; tame). clearbody e1. destruct (is_nil kept); [apply frame_tame; tame|].
  pose proof (mint_items_fresh w (length kept) (ids s.(a_backlog)) e1) as Hfresh. pose proof (tame_mint_items w (length kept) (ids s.(a_backlog)) e1) as H2.
  unfold ids in Hfresh, H2. destruct (mint_items _ _ _ _) as [new e2]. cbn [snd] in H2. destruct Hfresh as (Hn & Hu & Hlen).
  set (added := zip_with _ _ _). assert (tame e e2) as H3 by (by eapply tame_trans).
  eapply (frame_then e e2); [by apply frame_tame|].
  eapply frame_then; [|apply frame_tame, tame_emitStatus]. eapply frame_then; [|apply frame_tame, tame_persist_here]. apply frame_set.
  intros s2 Hs2. apply HU. exists (s2.(a_backlog) ++ added). split; [|done].
  assert (s2.(a_backlog) = s.(a_backlog)) as ->.
  { pose proof (tame_ident _ _ H3) as Hi. unfold ident in Hi. rewrite Es, Hs2 in Hi. by injection Hi. }
  constructor; [apply new_items_queued|..]; unfold added; rewrite new_items_ids by done; done.
Qed.

Lemma applyAmendments_frame n l e : R e (applyAmendments w n l e).2.
Proof.
  unfold applyAmendments. destruct l as [|a l]; [apply frame_tame, tame_refl|]. destruct (e_session e) as [s|] eqn:Es; [|apply frame_tame, tame_refl].
  destruct (negb _); [apply frame_tame, tame_refl|]. destruct (changes_of _ _); [apply frame_tame, tame_refl|].
  destruct (describeAmendments _) as [reason detail]. simpl snd.
  eapply frame_then; [|apply frame_tame, tame_emitStatus]. eapply frame_then; [|apply frame_tame, tame_persist_here].
  eapply frame_then; [|apply frame_tame, tame_record]. apply frame_set.
  intros s2 Hs2. apply HU. exists (amended s2.(a_backlog) (a :: l)). split; [constructor|done].
Qed.

Lemma extracted_frame x n r e : R e (extracted w x n r e).
Proof.
  unfold extracted. cbv zeta. pose proof (applyAmendments_frame n ((er_amend <$> r) ?| []) e) as H.
  destruct (applyAmendments _ _ _ _) as [[m|] e1]; [|done]. cbn [snd] in H. eapply frame_then; [exact H|].
  destruct ((er_items <$> r) ?| []); [|apply appendItems_frame]. destruct (0 <? m)%nat; [apply frame_tame; tame|].
  destruct ((er_amend <$> r) ?| []); [apply appendItems_frame|apply frame_tame; tame].
Qed.
End stocked.

(** What the moves of a pass come to: notes, the items, more notes, then the guard
    told of progress where there was some. *)
Lemma absorb_steps w d corpus catalog e :
  ∃ f e1 e2 e3, tame e e1 ∧ (∀ s, e1.(e_session) = Some s → judged d corpus catalog (waived_now e) s (f s)) ∧ tame (upd f e1) e2 ∧
    (e3 = e2 ∨ e3 = e2 {{ e_guard := recordProgress e2.(e_terminal) e2.(e_guard) }} |> emit Progressed) ∧
    tame e3 (absorbTransitions w d corpus catalog e).2.
Proof.
  unfold absorbTransitions, waived_now. destruct (e_session e) as [s|] eqn:Es.
  2: { exists (λ s, s), e, e, e. rewrite upd_same, Es. split_and!; [apply tame_refl|done|apply tame_refl|by left|apply tame_refl]. }
  pose proof (tame_note_rejections w (absorbed w s d corpus catalog).(backlog) (absorbed w s d corpus catalog).(rejected_moves) (false, e)) as Hr.
  assert (absorbed w s d corpus catalog = applyTransitions s.(a_backlog) (map Some (d.(d_transitions) ?| [])) w.(w_now)
    {| evidenceCorpus := corpus; commandNames := map cc_name <$> catalog; anchorWaived := waivedAnchors s |}) as Hw by done.
  revert Hr. generalize dependent (absorbed w s d corpus catalog). intros r Hw Hr. cbv zeta. destruct (foldl _ _ _) as [refused e1]. cbn [snd] in *.
  set (f := λ s, s {{ a_backlog := propagateBlocked _ }}{{ a_evidenceRejections := _ }}).
  set (e2 := foldl (note_derived _ _) _ _). exists f, e1, e2, (if r.(progressed) then e2 {{ e_guard := recordProgress e2.(e_terminal) e2.(e_guard) }} |> emit Progressed else e2).
  split_and!; [exact Hr| | | |].
  - intros s1 Hs1. split_and!; [done..|]. exists w.(w_now).
    assert (s1.(a_backlog) = s.(a_backlog)) as ->.
    { pose proof (tame_ident _ _ Hr) as Hi. unfold ident in Hi. rewrite Es, Hs1 in Hi. by injection Hi. }
    by rewrite <-Hw.
  - unfold e2. eapply tame_trans; [|apply tame_foldl; intros; apply tame_note_derived]. apply tame_foldl. intros. apply tame_note_applied.
  - destruct (progressed r); [by right|by left].
  - clearbody e2. set (e3 := if progressed r then _ else _). clearbody e3. tame.
Qed.

(** ** Arming an armed session *)

(** The items that are given, in place of those there are. *)
Definition restated (p : ArmArgs) (s s' : ArmedSession) : Prop :=
  s'.(a_object) = s.(a_object) ∧ s'.(a_auth) = s.(a_auth) ∧ s'.(a_backlog) = (take MAX_BACKLOG_ITEMS <$> p.(aa_backlog)) ?| s.(a_backlog).

Lemma choices_session w p s : tame_session s (applyLens p (applyJudgeChoice w p s)).
Proof.
  unfold applyLens, applyJudgeChoice. destruct (aa_judgeTool p), (aa_judgeModel p), (aa_role p), (aa_brief p); try destruct (_ || _); tame_session.
Qed.

Lemma rearm_frame w `{!Frame R U} p stated s e :
  (∀ s s', restated p s s' → U s s') → R e (rearm w p (take MAX_BACKLOG_ITEMS <$> p.(aa_backlog)) stated s e).
Proof.
  intros HU. unfold rearm. destruct (stack _ _ _) as [stacked instructions]. set (f := λ s, _).
  eapply (frame_then e (upd f e)); [apply frame_set; intros s0 _; apply HU|apply frame_tame].
  - unfold f. destruct (choices_session w p (s0 {{ a_instructions := instructions }}{{ a_backlog := (take MAX_BACKLOG_ITEMS <$> p.(aa_backlog)) ?| s0.(a_backlog) }}{{ a_lastJudgedContextHash := None }})) as [H _].
    injection H as H1 H2 H3. split_and!; done.
  - clearbody f. generalize (upd f e). intros e1. tame.
Qed.
