(* ===== verification/HandlerSteps.v ===== *)
(** * HandlerSteps: the steps of a supervisor taken apart

    Each step of HandlerPass.v is a sequence of elementary changes: a tame one,
    another stage, the guard, a word to the agent, a change of the session, its end
    or its start.  A [licence] says which of these are allowed; [step_elems] gives
    the licence of each act: who may read for the judge, nudge, start a session and
    change what it holds.  A property that survives the changes an act is licensed
    to make survives its step. *)

From S2P Require Import Prelude Regex DestructiveFloor Authorization Backlog ReplyGuard HandlerSession HandlerRows HandlerEngine HandlerPass HandlerFrame HandlerItems.
From stdpp Require Import relations.
From coqutil Require Import Datatypes.RecordSetters.
Import DoubleBraceUpdate.

Local Open Scope Z_scope.
Local Open Scope js_scope.

Definition is_nudge (x : Effect) : bool := match x with Nudged => true | _ => false end.

Record licence := {
  may_nudge : Prop;
  may_read : string → Prop;                          (** a context for the judge *)
  may_set : ArmedSession → ArmedSession → Prop;
  may_start : ArmedSession → Prop }.

Inductive elem (L : licence) : Engine → Engine → Prop :=
| el_tame e e' : tame e e' → elem L e e'
| el_stage e st : (∀ p j, st = Judging p j → L.(may_read) j.(jd_context)) → elem L e (e {{ e_stage := st }})
| el_guard e g : elem L e (e {{ e_guard := g }})
| el_emit e x : (is_nudge x = true → L.(may_nudge)) → elem L e (emit x e)
| el_drop e e' l :
    e'.(e_session) = None → e'.(e_stage) = e.(e_stage) → e'.(e_out) = e.(e_out) ++ l → Forall (λ x, harmless x = true) l → elem L e e'
| el_set e f : (∀ s, e.(e_session) = Some s → L.(may_set) s (f s)) → elem L e (upd f e)
| el_start e s : e.(e_session) = None → L.(may_start) s → elem L e (e {{ e_session := Some s }}).

Abbreviation elems L := (rtc (elem L)).

(** ** The licence of an act *)

(** How an act may change the session of the engine it finds. *)
Inductive set_by (w : World) (a : Act) (e : Engine) (s s' : ArmedSession) : Prop :=
| sb_banked p j timedOut d : a = JudgeAnswered timedOut (Some d) → e.(e_stage) = Judging p j → s' = bank_verdict p j s → set_by w a e s s'
| sb_judged p j timedOut d :
    a = JudgeAnswered timedOut (Some d) → e.(e_stage) = Judging p j → judged d j.(jd_context) p.(ps_catalog) (waived_now e) s s' → set_by w a e s s'
| sb_stocked : a = NextJob ∨ (∃ r, a = ExtractorAnswered r) → stocked s s' → set_by w a e s s'
| sb_said p :
    a = Instruct p → s' = s {{ a_auth := (authorizeInstruction s.(a_auth) (trim p.(ia_text)) w.(w_projectPath)).2 }} → set_by w a e s s'
| sb_replied data r : a = UserReply data r → isSubmitKeystroke data = true → identity s' = identity s → set_by w a e s s'
| sb_restated p : a = Arm p → restated p s s' → set_by w a e s s'
| sb_parked p : a = Arm p → identity s' = identity s → set_by w a e s s'.

(** The session an act may start: with no lift, and with the items it is given or
    those of a saved session that was armed or suspended. *)
Definition resumed_items (w : World) : list InstructionItem :=
  match w.(w_load) with Some r => if r.(r_armed) || r.(r_suspended) then r.(r_backlog) else [] | None => [] end.
Definition started_by (w : World) (a : Act) (s : ArmedSession) : Prop :=
  ∃ p, a = Arm p ∧ s.(a_auth) = createAuthorization ∧ s.(a_backlog) = (take MAX_BACKLOG_ITEMS <$> p.(aa_backlog)) ?| resumed_items w.

Definition licence_of (w : World) (a : Act) (e : Engine) : licence := {|
  may_nudge := a = ParkTimer; may_read := λ text, a = ContextRead text; may_set := set_by w a e; may_start := started_by w a |}.

Section steps.
Context (w : World) (L : licence).
Implicit Types (e : Engine) (s : ArmedSession).

Lemma elems_tame e e' : tame e e' → elems L e e'.
Proof. intros H. by apply rtc_once, el_tame. Qed.
Lemma elems_then e1 e2 e3 : elems L e1 e2 → elems L e2 e3 → elems L e1 e3.
Proof. intros H1 H2. by etrans. Qed.
Lemma elems_stage e st : match st with Judging _ _ => False | _ => True end → elems L e (e {{ e_stage := st }}).
Proof. intros H. apply rtc_once, el_stage. by intros p j ->. Qed.
Lemma elems_idle e : elems L e (e {{ e_stage := Idle }}).
Proof. by apply elems_stage. Qed.
Lemma elems_emit e x : is_nudge x = false → elems L e (emit x e).
Proof. intros Hx. apply rtc_once, el_emit. by rewrite Hx. Qed.
Lemma elems_guard e g : elems L e (e {{ e_guard := g }}).
Proof. apply rtc_once, el_guard. Qed.
Lemma elems_set f e : (∀ s, e.(e_session) = Some s → L.(may_set) s (f s)) → elems L e (upd f e).
Proof. intros H. by apply rtc_once, el_set. Qed.

#[local] Instance elems_frame : Frame (elems L) L.(may_set).
Proof. split; [apply elems_then|apply elems_tame|apply elems_set]. Qed.

Lemma elems_disarm suspended e : elems L e (disarm suspended e).
Proof.
  unfold disarm. destruct (e_session e) as [s|]; [|apply rtc_refl]. apply rtc_once. eapply el_drop; [done|done| |].
  - cbn. by rewrite <-app_assoc.
  - by repeat constructor.
Qed.

Lemma elems_maybeWrapUp e : elems L e (maybeWrapUp w e).2.
Proof.
  unfold maybeWrapUp. destruct (e_session e) as [s|]; [|apply rtc_refl]. destruct (negb _); [apply rtc_refl|]. cbv zeta.
  pose proof (elems_tame _ _ (tame_reconcileAsks w e)) as H. set (e1 := reconcileAsks w e) in *.
  destruct (e_session e1) as [s1|]; [|done]. destruct (0 <? _)%nat; [done|].
  destruct (mint w "wrap" e1) as [id e2] eqn:Em. simpl snd. eapply elems_then; [exact H|].
  eapply elems_then; [apply elems_tame; pose proof (tame_mint w "wrap" e1) as Hm; rewrite Em in Hm; exact Hm|].
  eapply elems_then; [|apply elems_disarm]. eapply elems_then; [|by apply elems_emit]. eapply elems_then; [|by apply elems_emit].
  apply elems_tame, tame_record.
Qed.

Lemma elems_settle e : elems L e (settle w e).
Proof.
  unfold settle. pose proof (elems_maybeWrapUp e) as H. destruct (maybeWrapUp w e) as [[] e1]; [done|]. simpl snd in H.
  eapply elems_then; [exact H|]. apply elems_tame. tame.
Qed.

Lemma elems_send_reply p c outcomes e : elems L e (send_reply w p c outcomes e).
Proof.
  unfold send_reply. set (e1 := e {{ e_stage := Idle }}). assert (elems L e e1) as Hi by apply elems_idle. clearbody e1.
  destruct (e_session e1) as [s|]; [destruct (negb _)|]; cbv zeta; (eapply elems_then; [exact Hi|]); [apply elems_tame; tame| |apply elems_tame; tame].
  set (x := Replied _ _ _ _). eapply elems_then; [by apply (elems_emit e1 x)|]. set (e2 := emit x e1). clearbody e2.
  eapply elems_then; [apply (elems_tame e2 (upd (λ s, s {{ a_awaitingAgent := true }}) e2)); tame|]. set (e3 := upd _ e2). clearbody e3.
  set (g := recordAutoReply _ _ _). eapply elems_then; [apply (elems_guard e3 g)|]. set (e4 := e3 {{ e_guard := g }}). clearbody e4.
  eapply elems_then; [|apply elems_settle]. apply elems_tame.
  set (e5 := record w "handle" _ _ _). assert (tame e4 e5) as H5.
  { unfold e5. eapply tame_trans; [|apply tame_record]. eapply tame_trans; [|apply tame_foldl; intros; apply tame_noteFloorWarning]. tame. }
  clearbody e5. destruct (d_ask _); [eapply tame_trans; [exact H5|apply tame_raiseAsk]|exact H5].
Qed.

Lemma elems_absorb d corpus catalog e :
  (∀ s s', judged d corpus catalog (waived_now e) s s' → L.(may_set) s s') → elems L e (absorbTransitions w d corpus catalog e).2.
Proof.
  intros HJ. destruct (absorb_steps w d corpus catalog e) as (f & e1 & e2 & e3 & H1 & Hf & H2 & H3 & H4).
  eapply elems_then; [exact (elems_tame _ _ H1)|]. eapply elems_then; [apply (elems_set f); intros s Hs; by apply HJ, Hf|].
  eapply elems_then; [exact (elems_tame _ _ H2)|]. eapply elems_then; [|exact (elems_tame _ _ H4)].
  destruct H3 as [->| ->]; [apply rtc_refl|]. eapply elems_then; [apply elems_guard|by apply elems_emit].
Qed.

Lemma elems_handleEventInner evt e : elems L e (handleEventInner w evt e).
Proof.
  unfold handleEventInner, here. destruct (e_session e) as [s|]; [|apply rtc_refl]. cbv zeta.
  set (e1 := reconcileAsks _ _). assert (tame e e1) as H1 by (unfold e1; tame). clearbody e1. eapply elems_then; [exact (elems_tame _ _ H1)|].
  destruct (negb _); [apply elems_disarm|]. destruct (isLifecycle evt); [apply elems_tame; tame|].
  assert (∀ e2, tame e1 e2 → elems L e1
    (if isBlockingPrompt evt
     then escalate w (own_decision "blocking prompt requires you" (body_of evt) High) None None (Some KResolve) evt.(ev_promptId) e2
     else match e2.(e_session) with
          | Some s' => (emitStatus (upd (set_state Handling) e2)) {{ e_stage := Assembling {|
              ps_evt := evt; ps_session := s'.(a_object); ps_gen := s'.(a_promptGen); ps_agentWorking := s.(a_awaitingAgent); ps_catalog := w.(w_catalog) |} }}
          | None => e2
          end)) as Hgo.
  { intros e2 H2. destruct (isBlockingPrompt evt); [apply elems_tame; tame|]. destruct (e_session e2) as [s'|]; [|by apply elems_tame].
    eapply elems_then; [|by apply elems_stage]. apply elems_tame. tame. }
  destruct (is_parked s); [|by apply Hgo, tame_refl]. destruct (negb _ && negb _); [apply rtc_refl|]. apply Hgo. tame.
Qed.

Lemma elems_act_handle p d e : elems L e (act_handle w p d e).
Proof.
  unfold act_handle, here. destruct (e_session e) as [s|]; [|apply rtc_refl]. cbv zeta. unfold refuse.
  destruct (checkReplyShape _ _); [apply elems_tame; tame|]. set (floor := classifyDestructive _ _ _). clearbody floor.
  destruct (hard floor); [|apply elems_tame; tame]. destruct (partitionWarnings _ _ _ _) as [warn authorized].
  destruct (check_guard _ _ _); [apply elems_tame; tame|]. destruct (0 <? _)%nat; [by apply elems_stage|apply elems_send_reply].
Qed.

Lemma elems_act_continue p d b e : elems L e (act_continue w p d b e).
Proof.
  unfold act_continue, here. destruct (e_session e) as [s|]; [|apply rtc_refl]. destruct (_ && _); [destruct (_ <? _)%nat|].
  - eapply elems_then; [|apply elems_handleEventInner]. apply elems_tame. tame.
  - apply elems_tame. tame.
  - eapply elems_then; [|apply elems_settle]. apply elems_tame. tame.
Qed.

Lemma elems_verdict p j timedOut d e :
  (∀ d' s, d = Some d' → L.(may_set) s (bank_verdict p j s)) →
  (∀ d' s s', d = Some d' → judged d' j.(jd_context) p.(ps_catalog) (waived_now e) s s' → L.(may_set) s s') → elems L e (verdict w p j timedOut d e).
Proof.
  intros HB HJ. unfold verdict, here. eapply elems_then; [apply (elems_idle e)|]. set (e1 := e {{ e_stage := Idle }}).
  assert (waived_now (upd (bank_verdict p j) e1) = waived_now e) as Hwv by (by destruct e as [? [] ? ? ? ? ? ? ? ?]).
  clearbody e1. destruct (e_session e1) as [s|]; [|apply rtc_refl]. destruct (negb _); [apply rtc_refl|].
  destruct d as [d|]; [|apply elems_tame; unfold onJudgeUnavailable; tame].
  eapply elems_then; [apply (elems_set (bank_verdict p j) e1); intros s1 _; by apply (HB d)|].
  set (e2 := upd _ e1) in *. clearbody e2. rewrite <-Hwv in HJ.
  pose proof (elems_absorb d j.(jd_context) p.(ps_catalog) e2 (λ s s' H, HJ d s s' eq_refl H)) as Ha.
  destruct (absorbTransitions _ _ _ _ _) as [refused e3]. cbn [snd] in Ha. cbv zeta.
  eapply elems_then; [exact Ha|]. assert (elems L e3 (upd (λ s, s {{ a_evidenceReasks := O }}) e3)) as H4 by (apply elems_tame; tame).
  destruct (d_decision d); [apply elems_act_continue|eapply elems_then; [exact H4|apply elems_act_handle]|eapply elems_then; [exact H4|apply elems_tame; tame]].
Qed.

Lemma elems_extracted x n r e : (∀ s s', stocked s s' → L.(may_set) s s') → elems L e (extracted w x n r e).
Proof. intros H. by apply (extracted_frame w (R := elems L) (U := L.(may_set))). Qed.

Lemma elems_run_job j e : (∀ s s', stocked s s' → L.(may_set) s s') → elems L e (run_job w j e).
Proof.
  intros HS. destruct j as [evt|x]; cbn [run_job].
  - pose proof (tame_claim evt e) as Hc. destruct (claim evt e) as [live e1]. cbn [snd] in Hc. eapply elems_then; [exact (elems_tame _ _ Hc)|].
    destruct live; [apply elems_handleEventInner|apply rtc_refl].
  - unfold extractAndAppend, here. destruct (e_session e); [|apply rtc_refl]. destruct (_ && _); [apply rtc_refl|].
    destruct (w_judgeCapable w _); [by apply elems_stage|]. by apply elems_extracted.
Qed.

Lemma elems_context_read p text e : L.(may_read) text → elems L e (context_read w p text e).
Proof.
  intros Hr. unfold context_read, here. eapply elems_then; [apply (elems_idle e)|]. set (e1 := e {{ e_stage := Idle }}). clearbody e1.
  destruct (e_session e1) as [s|]; [|apply rtc_refl]. destruct (negb _); [apply rtc_refl|]. cbv zeta.
  destruct (bool_decide _); [apply elems_tame; tame|]. eapply elems_then; [|by apply elems_emit].
  apply rtc_once, el_stage. by intros p' j [= _ <-].
Qed.

Lemma elems_pass_failed p e : elems L e (pass_failed w p e).
Proof.
  unfold pass_failed, here. eapply elems_then; [apply (elems_idle e)|]. set (e1 := e {{ e_stage := Idle }}). clearbody e1.
  destruct (e_session e1); [|apply rtc_refl]. destruct (negb _); [apply rtc_refl|]. apply elems_tame. unfold onJudgeUnavailable. tame.
Qed.

Lemma elems_runParkTimer e : L.(may_nudge) → elems L e (runParkTimer w e).
Proof.
  intros HN. unfold runParkTimer. destruct (e_timer e) as [t|]; [|apply rtc_refl]. destruct (_ <=? _); [|apply rtc_refl].
  eapply elems_then; [apply (elems_tame _ _ (tame_set_timer e None))|]. set (e1 := e {{ e_timer := None }}). clearbody e1.
  unfold onParkTimer, here. destruct (e_session e1) as [s|]; [|apply rtc_refl]. destruct (negb _); [apply rtc_refl|]. cbv zeta.
  set (e2 := emitStatus _). assert (tame e1 e2) as H1 by (unfold e2; tame). clearbody e2. eapply elems_then; [exact (elems_tame _ _ H1)|].
  destruct (a_retryEvent s); [apply elems_tame; tame|]. destruct (a_parkAwaitingJudge s); [apply rtc_refl|].
  destruct (0 <? _)%nat; [apply rtc_refl|]. apply rtc_once. by apply el_emit.
Qed.

(** ** The user's acts *)

Lemma elems_onUserReply data resolved e :
  (isSubmitKeystroke data = true → ∀ s s', identity s' = identity s → L.(may_set) s s') → elems L e (onUserReply w data resolved e).
Proof.
  intros HL. unfold onUserReply. destruct (isSubmitKeystroke data); [specialize (HL eq_refl)|apply rtc_refl]. cbn [negb].
  set (g := reset _ _). eapply elems_then; [apply (elems_guard e g)|]. cbv zeta.
  set (e1 := e {{ e_guard := g }}). clearbody e1. destruct (e_session e1); [|apply rtc_refl]. set (e2 := upd _ e1).
  eapply elems_then; [apply (elems_tame e1 e2); unfold e2; tame|]. clearbody e2.
  pose proof (elems_tame _ _ (tame_unparkIfParked e2)) as H3. destruct (unparkIfParked e2) as [unparked e3]. cbn [snd] in H3.
  eapply elems_then; [exact H3|]. set (e4 := match resolved with Some _ => _ | None => _ end).
  eapply elems_then; [apply (elems_tame e3 e4); unfold e4; tame|]. clearbody e4. destruct (e_session e4); [|apply rtc_refl].
  set (f := λ s, s {{ a_transientFailures := O }}{{ a_limitParks := O }}{{ a_evidenceReasks := O }}).
  eapply elems_then; [apply (elems_set f); intros s1 _; by apply HL|]. set (e5 := upd f e4). clearbody e5. apply elems_tame. name_upd e5. tame.
Qed.

Section said.
Context (text : string) (HL : ∀ s, L.(may_set) s (s {{ a_auth := (authorizeInstruction s.(a_auth) text w.(w_projectPath)).2 }})).

Lemma elems_said e s : e.(e_session) = Some s → elems L e (set_auth (authorizeInstruction s.(a_auth) text w.(w_projectPath)).2 e).
Proof.
  intros Es. assert (set_auth (authorizeInstruction s.(a_auth) text w.(w_projectPath)).2 e =
    upd (λ s, s {{ a_auth := (authorizeInstruction s.(a_auth) text w.(w_projectPath)).2 }}) e) as ->.
  { unfold set_auth, upd. by rewrite Es. }
  apply elems_set. intros s1 _. apply HL.
Qed.

Lemma elems_instruct_grant p e : elems L e (instruct_grant w p text e).
Proof.
  unfold instruct_grant, here. destruct (e_session e) as [s|] eqn:Es; [|apply rtc_refl].
  pose proof (elems_said e s Es) as H1. destruct (authorizeInstruction _ _ _) as [g auth]. cbv zeta. cbn [snd] in H1.
  eapply elems_then; [exact H1|]. set (e1 := set_auth auth e) in *. clearbody e1. clear H1. set (e2 := upd _ (record_grant w g e1)).
  eapply elems_then; [apply (elems_tame e1 e2); unfold e2, record_grant; tame|]. clearbody e2.
  eapply elems_then; [apply (elems_guard e2 (reset e2.(e_terminal) e2.(e_guard)))|]. set (e3 := e2 {{ e_guard := _ }}). clearbody e3.
  set (e4 := match filter _ _ with [] => _ | _ :: _ => _ end). assert (tame e3 e4) as H4 by (unfold e4; tame). clearbody e4.
  apply elems_tame. eapply tame_trans; [exact H4|]. destruct (e_session e4); tame.
Qed.

Lemma elems_instruct_answer n esc e : elems L e (instruct_answer w n esc text e).
Proof.
  unfold instruct_answer, here. destruct (e_session e) as [s|] eqn:Es; [|apply rtc_refl].
  pose proof (elems_said e s Es) as H1. destruct (authorizeInstruction _ _ _) as [g auth]. cbv zeta. cbn [snd] in H1.
  eapply elems_then; [exact H1|]. set (e1 := set_auth auth e). clearbody e1. apply elems_tame. unfold record_grant. tame.
Qed.
End said.

Lemma elems_instruct p e :
  (∀ s, L.(may_set) s (s {{ a_auth := (authorizeInstruction s.(a_auth) (trim p.(ia_text)) w.(w_projectPath)).2 }})) → elems L e (instruct w p e).
Proof.
  intros HL. unfold instruct. destruct (ia_escalationId p) as [id|]; cbv zeta.
  - destruct (_ ≫= _) as [[n esc]|]; [|apply elems_tame; tame]. destruct (negb _); [apply elems_tame; tame|].
    destruct (bool_decide _); [apply rtc_refl|]. destruct (ia_delivered p); [|by apply elems_instruct_answer].
    apply elems_tame. unfold instruct_delivered. cbv zeta. tame.
  - destruct (bool_decide _); [apply rtc_refl|by apply elems_instruct_grant].
Qed.

Lemma elems_rehydrate resumed e : (∀ s s', identity s' = identity s → L.(may_set) s s') → elems L e (rehydrate w resumed e).
Proof.
  intros HL. unfold rehydrate. destruct resumed as [r|]; [|apply rtc_refl]. destruct (r_parkKind r), (r_parkedUntil r); try apply rtc_refl.
  unfold rehydratePark. cbv zeta. set (f := λ s, s {{ a_state := Parked }}{{ a_parkKind := _ }}{{ a_parkCause := _ }}{{ a_parkedUntil := _ }}{{ a_parkAwaitingJudge := _ }}).
  eapply elems_then; [apply (elems_set f e); intros s1 _; by apply HL|]. set (e1 := upd f e). clearbody e1. apply elems_tame. unfold arm_timer. tame.
Qed.

Lemma elems_arm p e :
  (∀ s, started_by w (Arm p) s → L.(may_start) s) → (∀ s s', restated p s s' ∨ identity s' = identity s → L.(may_set) s s') →
  elems L e (arm w p e).
Proof.
  intros HS HL. unfold arm. destruct (negb _); [apply elems_tame; tame|]. cbv zeta.
  eapply elems_then; [exact (elems_tame _ _ (tame_note_clamped w p e))|]. set (e1 := note_clamped w p e). clearbody e1.
  destruct (e_session e1) as [s|] eqn:Es; [apply (rearm_frame w (R := elems L) (U := L.(may_set))); auto|].
  unfold arm_fresh. cbv zeta. set (resumed := r ← _; _). set (e2 := match resumed with None => _ | Some _ => _ end).
  assert (tame e1 e2) as H2 by (unfold e2; tame). eapply elems_then; [exact (elems_tame _ _ H2)|].
  assert (e2.(e_session) = None) as Es2 by (unfold e2; by destruct resumed). clearbody e2.
  pose proof (tame_draw e2) as Hd. assert ((draw e2).2.(e_session) = None) as Es3 by done. destruct (draw e2) as [object e3]. cbn [snd] in *.
  eapply elems_then; [exact (elems_tame _ _ Hd)|]. set (s := applyLens p _).
  eapply elems_then; [apply rtc_once, (el_start L e3 s); [done|]|].
  { apply HS. exists p. split; [done|]. unfold s. destruct (choices_session w p (new_session w object (seedInstructionsFromGoal <$> w_load w) resumed
      (stack w (normalizeInstruction (aa_goal p ?| EmptyString)) ((r_instructions <$> resumed) ?| [])).2
      ((take MAX_BACKLOG_ITEMS <$> p.(aa_backlog)) ?| ((r_backlog <$> resumed) ?| [])))) as [[= _ -> ->] _].
    split; [done|]. cbn [a_backlog new_session]. f_equal. unfold resumed, resumed_items. destruct (w_load w) as [r|]; [|done]. simpl. unfold seedInstructionsFromGoal.
    destruct (r_instructions r); [|destruct (_ || _); done]. case_bool_decide; cbn; by destruct (_ || _). }
  set (e4 := e3 {{ e_session := Some s }}). clearbody e4. set (e5 := emitStatus _).
  eapply elems_then; [apply (elems_tame e4 e5); unfold e5; tame|]. clearbody e5.
  eapply elems_then; [apply (elems_rehydrate resumed); auto|]. set (e6 := rehydrate w resumed e5). clearbody e6. apply elems_tame. tame.
Qed.
End steps.

(** What is true of every session an engine holds. *)
Definition holds (P : ArmedSession → Prop) (e : Engine) : Prop := ∀ s, e.(e_session) = Some s → P s.

(** A fact of a session's identity that survives the licensed changes holds on. *)
Lemma elems_hold (L : licence) (P : ArmedSession → Prop) e e' :
  (∀ s s', identity s' = identity s → P s → P s') → (∀ s s', L.(may_set) s s' → P s → P s') → (∀ s, L.(may_start) s → P s) →
  elems L e e' → holds P e → holds P e'.
Proof.
  intros HI HS HT. induction 1 as [e|e1 e2 e3 H _ IH]; [done|]. intros Hp. apply IH. clear IH.
  destruct H as [e e' H|e st|e g|e x Hx|e e' l Hs _ Ho Hl|e f Hf|e s _ Hs]; intros s' Hs'.
  - pose proof (tame_ident _ _ H) as Hi. unfold ident in Hi. rewrite Hs' in Hi. destruct (e_session e) as [s|] eqn:Es; [|done].
    injection Hi as H1 H2 H3. apply (HI s); [unfold identity; congruence|by apply Hp].
  - by apply Hp.
  - by apply Hp.
  - by apply Hp.
  - congruence.
  - change (e_session (upd f e)) with (f <$> e.(e_session)) in Hs'. destruct (e_session e) as [s|] eqn:Es; [|done]. injection Hs' as <-.
    apply (HS s); [by apply Hf|by apply Hp].
  - injection Hs' as <-. by apply HT.
Qed.

(** What the judge is being shown stays what was read for it. *)
Lemma elems_judging (L : licence) e e' p j :
  elems L e e' → e'.(e_stage) = Judging p j → L.(may_read) j.(jd_context) ∨ e.(e_stage) = Judging p j.
Proof.
  induction 1 as [e|e1 e2 e3 H _ IH]; [by right|]. intros Hj. destruct (IH Hj) as [H2|Hj2]; [by left|]. clear IH.
  destruct H as [e e' H|e st Hst|e g|e x Hx|e e' l Hs Hst Ho Hl|e f Hf|e s _ Hs]; try by right.
  - right. by rewrite <-(tame_stage _ _ H).
  - left. by eapply Hst.
  - right. by rewrite <-Hst.
Qed.

(** Every step keeps to the licence of its act. *)
Lemma step_elems w a e : elems (licence_of w a e) e (step w a e).
Proof.
  set (L := licence_of w a e). destruct a as [evt|p| |keepArmed|data resolved|p|eid cid|eid| |prompt| | |text| |timedOut d|outcomes|r|m] eqn:Ea; cbn [step].
  - destruct (draw e) as [object e1] eqn:Ed. apply elems_tame. eapply tame_trans; [apply tame_draw|]. rewrite Ed. apply tame_handleEvent.
  - apply elems_arm; [done|]. intros s s' [H|H]; [by eapply sb_restated|by eapply sb_parked].
  - apply elems_disarm.
  - unfold onTerminalExit. set (g := reset _ _). eapply elems_then; [apply (elems_guard L e g)|]. cbv zeta. set (e1 := e {{ e_guard := g }}). clearbody e1.
    destruct (e_session e1); [destruct keepArmed; [apply rtc_refl|apply elems_disarm]|apply rtc_refl].
  - apply elems_onUserReply. intros Hs s s' Hi. by eapply sb_replied.
  - apply elems_instruct. intros s. by eapply sb_said.
  - apply elems_tame. unfold answerAsk. apply tame_here. intros s _. tame.
  - apply elems_tame. tame.
  - apply elems_tame. tame.
  - apply elems_tame. tame.
  - by apply elems_runParkTimer.
  - destruct (e_stage e); try apply rtc_refl. destruct (e_chain e) as [|j rest]; [apply rtc_refl|].
    eapply elems_then; [apply (elems_tame L _ (e {{ e_chain := rest }})); tame|]. apply elems_run_job. intros s s' H. apply sb_stocked; [by left|done].
  - destruct (e_stage e); try apply rtc_refl. by apply elems_context_read.
  - destruct (e_stage e); first [apply rtc_refl|apply elems_pass_failed].
  - destruct (e_stage e) eqn:Est; try apply rtc_refl. apply elems_verdict.
    + intros d' s ->. by eapply sb_banked.
    + intros d' s s' -> H. by eapply sb_judged.
  - destruct (e_stage e); try apply rtc_refl. apply elems_send_reply.
  - destruct (e_stage e); try apply rtc_refl. eapply elems_then; [apply (elems_idle L e)|]. apply elems_extracted. intros s s' H. apply sb_stocked; [by right; eauto|done].
  - apply elems_tame. tame.
Qed.
