(* ===== verification/HandlerSafety.v ===== *)
(** * HandlerSafety: what a supervisor does between two acts of its user

    What the engine of HandlerPass.v sends the agent on its own.  Every step is
    followed by what it spends: the replies it sends against the five the guard
    allows, given back where an item became done.  A reply is what the judge
    decided, in a shape that was accepted and with nothing in it that the hard
    tier of the floor names. *)

From S2P Require Import Prelude Regex DestructiveFloor Authorization Backlog ReplyGuard HandlerSession HandlerRows HandlerEngine HandlerPass HandlerFrame HandlerItems.
From coqutil Require Import Datatypes.RecordSetters.
Import DoubleBraceUpdate.

Local Open Scope Z_scope.
Local Open Scope js_scope.

(** ** What was sent *)

Definition replied (x : Effect) : option string := match x with Replied _ probe _ _ => Some probe | _ => None end.
Definition replies (l : list Effect) : list string := omap replied l.
Definition is_progress (x : Effect) : bool := match x with Progressed => true | _ => false end.
Definition progress (l : list Effect) : nat := length (filter (λ x, is_progress x = true) l).

(** The state of the guard, and the replies it still allows. *)
Definition guarded (e : Engine) : GuardState := state_of e.(e_guard) e.(e_terminal).
Definition budget (e : Engine) : nat := match e.(e_session) with None => O | Some _ => maxConsecutive - (guarded e).(consecutive) end.

Lemma replies_app l1 l2 : replies (l1 ++ l2) = replies l1 ++ replies l2.
Proof. unfold replies. by rewrite omap_app. Qed.
Lemma progress_app l1 l2 : progress (l1 ++ l2) = (progress l1 + progress l2)%nat.
Proof. unfold progress. by rewrite filter_app, length_app. Qed.

Lemma harmless_replies l : Forall (λ x, harmless x = true) l → replies l = [] ∧ progress l = O.
Proof.
  induction 1 as [|x l Hx _ [IH1 IH2]]; [done|]. unfold replies, progress in *. simpl.
  destruct x; try done; simpl; rewrite IH1; done.
Qed.

(** ** A reply that may be sent *)

(** What was established of a reply before it is typed. *)
Record may_send (d : HandlerDecision) (shape : ReplyShape) (probe : string) : Prop := {
  ms_decision : d.(d_decision) = Handle;
  ms_shape : shape = replyShape d;
  ms_accepted : shape_ok shape;
  ms_probe : probe = shape.(rs_reply) +:+ NL +:+ shape.(rs_actionText);
  ms_floor : Forall (λ re, test re probe = false) HARD }.

Definition reply_ok (x : Effect) : Prop :=
  match x with Replied d probe written _ => ∃ shape, may_send d shape probe ∧ written = shape.(rs_written) | _ => True end.

Lemma harmless_ok l : Forall (λ x, harmless x = true) l → Forall reply_ok l.
Proof. intros Hl. eapply Forall_impl; [exact Hl|]. by intros []. Qed.

(** ** The invariant *)

Definition cleared_ok (e : Engine) : Prop :=
  match e.(e_stage) with
  | Preparing _ c =>
      ((guarded e).(consecutive) < maxConsecutive)%nat ∧ (hash c.(cl_probe) ∉ (guarded e).(recentHashes)) ∧
      may_send c.(cl_decision) c.(cl_shape) c.(cl_probe)
  | _ => True
  end.

Record sound (e : Engine) : Prop := {
  so_recent : (length (guarded e).(recentHashes) <= repeatWindow)%nat;
  so_cleared : cleared_ok e;
  so_sent : Forall reply_ok e.(e_out) }.

(** What a stretch of steps spent. *)
Definition spent (e e' : Engine) : Prop :=
  e'.(e_terminal) = e.(e_terminal) ∧
  ∃ l, e'.(e_out) = e.(e_out) ++ l ∧
    (length (replies l) + budget e' <= budget e + maxConsecutive * progress l)%nat ∧
    (e.(e_session) = None → replies l = [] ∧ e'.(e_session) = None) ∧
    unrepeated (guarded e).(recentHashes) (replies l) ∧
    (e'.(e_session) ≠ None → (guarded e').(recentHashes) = foldl remember (guarded e).(recentHashes) (replies l)).

Definition advances (e e' : Engine) : Prop := spent e e' ∧ sound e'.

Section safety.
Context (w : World).
Implicit Types (e : Engine) (s : ArmedSession).

Lemma spent_refl e : spent e e.
Proof. split; [done|]. exists []. rewrite app_nil_r. simpl. split_and!; [done|unfold progress; simpl; lia|done..]. Qed.

Lemma spent_trans e1 e2 e3 : spent e1 e2 → spent e2 e3 → spent e1 e3.
Proof.
  intros [Ht1 (l1 & Ho1 & Hb1 & Hn1 & Hu1 & Hr1)] [Ht2 (l2 & Ho2 & Hb2 & Hn2 & Hu2 & Hr2)]. split; [congruence|].
  exists (l1 ++ l2). rewrite replies_app, progress_app, length_app, Ho2, Ho1, app_assoc. split; [done|]. split; [lia|].
  split; [|split].
  - intros Hs. destruct (Hn1 Hs) as [-> Hs2]. destruct (Hn2 Hs2) as [-> ?]. done.
  - apply unrepeated_app. split; [done|]. destruct (e_session e2) eqn:Es; [by rewrite <-Hr1|]. by destruct (Hn2 eq_refl) as [-> _].
  - intros Hs. destruct (e_session e2) eqn:Es; [|by destruct (Hn2 eq_refl)]. rewrite foldl_app, <-Hr1 by done. by apply Hr2.
Qed.

Lemma advances_refl e : sound e → advances e e.
Proof. split; [apply spent_refl|done]. Qed.

(** Steps one after the other. *)
Lemma advances_then e1 e2 e3 : advances e1 e2 → (sound e2 → advances e2 e3) → advances e1 e3.
Proof. intros [H1 H2] H. destruct (H H2) as [H3 H4]. split; [by eapply spent_trans|done]. Qed.

(** ** Steps that leave the guard alone *)

Lemma tame_guarded e e' : tame e e' → guarded e' = guarded e.
Proof. intros [H1 H2 _ _ _ _ _]. unfold guarded. by rewrite H1, H2. Qed.
Lemma tame_armed e e' : tame e e' → e.(e_session) = None ↔ e'.(e_session) = None.
Proof. intros [_ _ _ _ _ H _]. unfold ident in H. destruct (e_session e), (e_session e'); naive_solver. Qed.

Lemma tame_spent e e' : tame e e' → spent e e'.
Proof.
  intros H. pose proof (tame_guarded _ _ H) as Hg. pose proof (tame_armed _ _ H) as Hs. destruct H as [Ht _ _ _ (l & Ho & Hl) _ _].
  split; [done|]. exists l. apply harmless_replies in Hl as [-> ->]. split_and!; [done| |tauto|done|].
  - unfold budget. rewrite Hg. destruct (e_session e), (e_session e'); simpl; try lia. naive_solver.
  - intros _. by rewrite Hg.
Qed.

Lemma tame_sound e e' : tame e e' → sound e → sound e'.
Proof.
  intros H [H1 H2 H3]. pose proof (tame_guarded _ _ H) as Hg. destruct H as [_ _ Hst _ (l & Ho & Hl) _ _]. split.
  - by rewrite Hg.
  - unfold cleared_ok in *. by rewrite Hst, Hg.
  - rewrite Ho. apply Forall_app. split; [done|by apply harmless_ok].
Qed.

Lemma tame_advances e e' : sound e → tame e e' → advances e e'.
Proof. intros Hs H. split; [by apply tame_spent|by eapply tame_sound]. Qed.

(** A step that only shows the judge something, or reports. *)
Lemma quiet_advances e e' x :
  sound e → replied x = None → is_progress x = false → e' = emit x e → advances e e'.
Proof.
  intros [H1 H2 H3] Hx Hp ->. split.
  - split; [done|]. exists [x]. assert (replies [x] = [] ∧ progress [x] = O) as [-> ->] by (by destruct x). split_and!; [done|change (budget (emit x e)) with (budget e); simpl; lia|done..].
  - split; [done|done|]. apply Forall_app. split; [done|]. constructor; [by destruct x|constructor].
Qed.

Lemma stage_advances e st : sound e → cleared_ok (e {{ e_stage := st }}) → advances e (e {{ e_stage := st }}).
Proof.
  intros [H1 H2 H3] Hc. split; [|split; done].
  split; [done|]. exists []. rewrite app_nil_r. change (budget (e {{ e_stage := st }})) with (budget e). simpl. split_and!; [done|lia|done..].
Qed.

(** A change of the session alone. *)
Lemma upd_advances f e : sound e → advances e (upd f e).
Proof.
  intros [H1 H2 H3]. split; [|split; done]. split; [done|]. exists []. rewrite app_nil_r.
  assert (budget (upd f e) = budget e) as ->.
  { unfold budget. change (guarded (upd f e)) with (guarded e). change (e_session (upd f e)) with (f <$> e_session e). by destruct (e_session e). }
  change (e_session (upd f e)) with (f <$> e_session e). split_and!; [done|simpl; lia|by intros ->|done|done].
Qed.

Lemma sound_idle e : sound e → sound (e {{ e_stage := Idle }}).
Proof. intros H. by apply stage_advances. Qed.

Lemma idle_advances e : sound e → advances e (e {{ e_stage := Idle }}).
Proof. intros H. by apply stage_advances. Qed.

Lemma cleared_guard e e' :
  e'.(e_stage) = e.(e_stage) → ((guarded e').(consecutive) <= (guarded e).(consecutive))%nat →
  (guarded e').(recentHashes) ⊆ (guarded e).(recentHashes) → cleared_ok e → cleared_ok e'.
Proof.
  intros Hst Hc Hr. unfold cleared_ok. rewrite Hst. destruct (e_stage e); try done. intros (? & ? & ?). split_and!; [lia|set_solver|done].
Qed.

(** The guard of the terminal forgotten. *)
Lemma sound_reset e e1 :
  sound e → e1.(e_terminal) = e.(e_terminal) → e1.(e_stage) = e.(e_stage) →
  (∃ l, e1.(e_out) = e.(e_out) ++ l ∧ Forall (λ x, harmless x = true) l) → sound (e1 {{ e_guard := reset e1.(e_terminal) e1.(e_guard) }}).
Proof.
  intros [H1 H2 H3] Ht Hst (l & Ho & Hl).
  assert (guarded (e1 {{ e_guard := reset e1.(e_terminal) e1.(e_guard) }}) = {| consecutive := 0; recentHashes := [] |}) as Hg by apply reset_state.
  split.
  - rewrite Hg. simpl. lia.
  - apply (cleared_guard e); [done|rewrite Hg; simpl; lia|rewrite Hg; set_solver|done].
  - change (e_out (e1 {{ e_guard := reset e1.(e_terminal) e1.(e_guard) }})) with e1.(e_out). rewrite Ho. apply Forall_app. split; [done|by apply harmless_ok].
Qed.

Lemma disarm_advances suspended e : sound e → advances e (disarm suspended e).
Proof.
  intros Hs. unfold disarm. destruct (e_session e) as [s|] eqn:Es; [|by apply advances_refl]. destruct Hs as [H1 H2 H3].
  set (e1 := persist _ _ _ _). assert (sound (e1 {{ e_guard := reset e1.(e_terminal) e1.(e_guard) }})) as Hs.
  { apply (sound_reset e); [done|done|done|]. eexists [_]. split; [done|]. by repeat constructor. }
  split; [|eapply tame_sound; [apply tame_emitStatus|exact Hs]].
  subst e1. split; [done|]. eexists [_; _]. split; [cbn; by rewrite <-app_assoc|]. simpl. split_and!; [unfold budget; cbn; lia|by rewrite Es|done|done].
Qed.

Lemma maybeWrapUp_advances e : sound e → advances e (maybeWrapUp w e).2.
Proof.
  intros Hs. unfold maybeWrapUp. destruct (e_session e) as [s|] eqn:Es; [|by apply advances_refl]. destruct (negb _); [by apply advances_refl|].
  cbv zeta. pose proof (tame_advances _ _ Hs (tame_reconcileAsks w e)) as H. set (e1 := reconcileAsks w e) in *.
  destruct (e_session e1) as [s1|]; [|done]. destruct (0 <? _)%nat; [done|].
  destruct (mint w "wrap" e1) as [id e2] eqn:Em. simpl snd.
  eapply advances_then; [exact H|]. intros H1.
  eapply advances_then; [apply (tame_advances _ e2 H1)|]. { pose proof (tame_mint w "wrap" e1) as Hm. by rewrite Em in Hm. }
  intros H2. eapply advances_then; [apply (tame_advances _ _ H2); apply tame_record|]. intros H3.
  eapply advances_then; [by eapply (quiet_advances _ _ (WrappedUp _) H3)|]. intros H4.
  eapply advances_then; [by eapply (quiet_advances _ _ (Pushed _) H4)|]. apply disarm_advances.
Qed.

Lemma settle_advances e : sound e → advances e (settle w e).
Proof.
  intros Hs. unfold settle. pose proof (maybeWrapUp_advances e Hs) as H. destruct (maybeWrapUp w e) as [[] e1]; [done|].
  simpl snd in H. eapply advances_then; [exact H|]. intros H1. apply (tame_advances _ _ H1). tame.
Qed.

(** ** The one place a reply is sent *)

Lemma send_advances e d shape probe command :
  sound e → e.(e_session) ≠ None → ((guarded e).(consecutive) < maxConsecutive)%nat → hash probe ∉ (guarded e).(recentHashes) →
  may_send d shape probe → e.(e_stage) = Idle →
  advances e (emit (Replied d probe shape.(rs_written) command) e {{ e_guard := recordAutoReply e.(e_terminal) probe e.(e_guard) }}).
Proof.
  intros [H1 H2 H3] Hses Hc Hh Hm Hst. set (e' := emit _ _ {{ e_guard := _ }}).
  assert (guarded e' = {| consecutive := S (guarded e).(consecutive); recentHashes := remember (guarded e).(recentHashes) probe |}) as Hg
    by exact (recordAutoReply_state e.(e_guard) e.(e_terminal) probe H1).
  assert (e'.(e_session) = e.(e_session)) as Hs' by done.
  split.
  - split; [done|]. eexists [_]. split; [done|]. unfold budget. rewrite Hg, Hs'. destruct (e_session e); [|done].
    change (replies [_]) with [probe]. change (progress [_]) with O. unfold maxConsecutive in *. cbn [length consecutive recentHashes unrepeated foldl].
    split_and!; [lia|done|done|done|done].
  - split.
    + rewrite Hg. apply remember_length.
    + unfold cleared_ok. change (e_stage e') with (e_stage e). by rewrite Hst.
    + change (e_out e') with (e_out e ++ [Replied d probe shape.(rs_written) command]). apply Forall_app. split; [done|].
      constructor; [by exists shape|constructor].
Qed.

Lemma send_reply_advances p c outcomes e :
  sound e → ((guarded e).(consecutive) < maxConsecutive)%nat → hash c.(cl_probe) ∉ (guarded e).(recentHashes) →
  may_send c.(cl_decision) c.(cl_shape) c.(cl_probe) →
  advances e (send_reply w p c outcomes e).
Proof.
  intros Hs Hc Hh Hm. unfold send_reply. pose proof (idle_advances e Hs) as Hi. set (e1 := e {{ e_stage := Idle }}) in *.
  destruct (e_session e1) as [s|] eqn:Es; [destruct (negb _)|]; cbv zeta; eapply advances_then; [exact Hi| |exact Hi| |exact Hi|]; intros H1;
    [apply (tame_advances _ _ H1); tame| |apply (tame_advances _ _ H1); tame].
  eapply advances_then; [apply (send_advances e1 c.(cl_decision) c.(cl_shape) c.(cl_probe) ((λ k, (k.(cc_id), c.(cl_shape).(rs_args))) <$> findCommand p.(ps_catalog) c.(cl_shape).(rs_verb))); try done; by rewrite Es|].
  set (e2 := emit _ _ {{ e_guard := _ }}). intros H2.
  eapply advances_then; [|intros; by apply settle_advances]. apply (tame_advances _ _ H2).
  assert (tame e2 (foldl (noteFloorWarning w) (recordSnapshots w outcomes (c.(cl_warn) ++ c.(cl_authorized))
    (upd (λ s, s {{ a_awaitingAgent := true }}) e2)) c.(cl_warn) |> record w "handle" c.(cl_decision).(d_reason) (Some c.(cl_shape).(rs_written)))) as Ht.
  { eapply tame_trans; [|apply tame_record]. eapply tame_trans; [|apply tame_foldl; intros; apply tame_noteFloorWarning]. tame. }
  destruct (d_ask _); [eapply tame_trans; [exact Ht|apply tame_raiseAsk]|exact Ht].
Qed.

(** ** A pass *)

Lemma progress_advances e : sound e → advances e (e {{ e_guard := recordProgress e.(e_terminal) e.(e_guard) }} |> emit Progressed).
Proof.
  intros [H1 H2 H3]. set (e' := emit _ _).
  assert (guarded e' = {| consecutive := 0; recentHashes := (guarded e).(recentHashes) |}) as Hg by apply recordProgress_state.
  assert (e'.(e_session) = e.(e_session)) as Hs' by done. split.
  - split; [done|]. exists [Progressed]. split; [done|]. unfold budget. rewrite Hg, Hs'. change (replies [_]) with (@nil string). change (progress [_]) with 1%nat.
    cbn [length consecutive recentHashes unrepeated foldl]. split_and!; [destruct (e_session e); lia|done|done|done].
  - split.
    + by rewrite Hg.
    + apply (cleared_guard e); [done|rewrite Hg; simpl; lia|by rewrite Hg|done].
    + change (e_out e') with (e_out e ++ [Progressed]). apply Forall_app. split; [done|]. by repeat constructor.
Qed.

#[local] Instance advances_frame : Frame (λ e e', sound e → advances e e') (λ _ _, True).
Proof.
  split.
  - intros e1 e2 e3 H1 H2 Hs. eapply advances_then; [by apply H1|done].
  - intros e e' H Hs. by apply tame_advances.
  - intros f e _ Hs. by apply upd_advances.
Qed.

Lemma extracted_advances x n r e : sound e → advances e (extracted w x n r e).
Proof. by apply (extracted_frame w (R := λ e e', sound e → advances e e') (U := λ _ _, True)). Qed.

Lemma absorb_advances d corpus catalog e : sound e → advances e (absorbTransitions w d corpus catalog e).2.
Proof.
  intros Hs. destruct (absorb_steps w d corpus catalog e) as (f & e1 & e2 & e3 & H1 & _ & H2 & H3 & H4).
  eapply advances_then; [apply (tame_advances _ _ Hs H1)|]. intros Hs1.
  eapply advances_then; [apply (upd_advances f e1 Hs1)|]. intros Hs1'. eapply advances_then; [apply (tame_advances _ _ Hs1' H2)|]. intros Hs2.
  eapply advances_then; [|intros Hs3; apply (tame_advances _ _ Hs3 H4)].
  destruct H3 as [->| ->]; [by apply advances_refl|by apply progress_advances].
Qed.

Lemma absorb_stage d corpus catalog e : (absorbTransitions w d corpus catalog e).2.(e_stage) = e.(e_stage).
Proof.
  destruct (absorb_steps w d corpus catalog e) as (f & e1 & e2 & e3 & H1 & _ & H2 & H3 & H4).
  rewrite (tame_stage _ _ H4), <-(tame_stage _ _ H1). transitivity e2.(e_stage); [by destruct H3 as [->| ->]|exact (tame_stage _ _ H2)].
Qed.

Lemma handleEventInner_advances evt e : sound e → advances e (handleEventInner w evt e).
Proof.
  intros Hs. unfold handleEventInner, here. destruct (e_session e) as [s|]; [|by apply advances_refl]. cbv zeta.
  set (e1 := reconcileAsks _ _). assert (tame e e1) as H1 by (unfold e1; tame). clearbody e1.
  eapply advances_then; [apply (tame_advances _ _ Hs H1)|]. intros Hs1.
  destruct (negb _); [by apply disarm_advances|]. destruct (isLifecycle evt); [apply (tame_advances _ _ Hs1); tame|].
  assert (∀ e2, tame e1 e2 → advances e1
    (if isBlockingPrompt evt
     then escalate w (own_decision "blocking prompt requires you" (body_of evt) High) None None (Some KResolve) evt.(ev_promptId) e2
     else match e2.(e_session) with
          | Some s' => (emitStatus (upd (set_state Handling) e2)) {{ e_stage := Assembling {|
              ps_evt := evt; ps_session := s'.(a_object); ps_gen := s'.(a_promptGen); ps_agentWorking := s.(a_awaitingAgent); ps_catalog := w.(w_catalog) |} }}
          | None => e2
          end)) as Hgo.
  { intros e2 H2. destruct (isBlockingPrompt evt); [apply (tame_advances _ _ Hs1); tame|]. destruct (e_session e2) as [s'|]; [|by apply (tame_advances _ _ Hs1)].
    eapply advances_then; [apply (tame_advances _ _ Hs1 H2)|]. intros Hs2.
    eapply advances_then; [apply (tame_advances _ (emitStatus (upd (set_state Handling) e2)) Hs2); tame|]. intros Hs3. by apply stage_advances. }
  destruct (is_parked s); [|by apply Hgo, tame_refl]. destruct (negb _ && negb _); [by apply advances_refl|]. apply Hgo. tame.
Qed.

Lemma act_handle_advances p d e : d.(d_decision) = Handle → sound e → e.(e_stage) = Idle → advances e (act_handle w p d e).
Proof.
  intros Hd Hs Hst. unfold act_handle, here. destruct (e_session e) as [s|] eqn:Es; [|by apply advances_refl]. cbv zeta.
  destruct (checkReplyShape _ _) eqn:Ec; [apply (tame_advances _ _ Hs); unfold refuse; tame|]. apply accepted_shape in Ec.
  set (probe := _ +:+ _). pose proof (hard_clear probe w.(w_projectPath) ((replyShape d).(rs_reply) +:+ NL +:+ (replyShape d).(rs_args))) as Hhard.
  revert Hhard. generalize (classifyDestructive probe (w_projectPath w) ((replyShape d).(rs_reply) +:+ NL +:+ (replyShape d).(rs_args))).
  intros floor Hhard. destruct (hard floor) as [|x l]; [|apply (tame_advances _ _ Hs); unfold refuse; tame].
  destruct (partitionWarnings _ _ _ _) as [warn authorized]. destruct (check_guard _ _ _) eqn:Eg; [apply (tame_advances _ _ Hs); unfold refuse; tame|].
  apply check_guard_passes in Eg as [Hc Hh].
  assert (may_send d (replyShape d) probe) as Hm by (split; [done|done|done|done|by apply Hhard]).
  destruct (0 <? _)%nat; [by apply stage_advances|]. by apply send_reply_advances.
Qed.

Lemma act_continue_advances p d b e : sound e → advances e (act_continue w p d b e).
Proof.
  intros Hs. unfold act_continue, here. destruct (e_session e) as [s|] eqn:Es; [|by apply advances_refl].
  destruct (_ && _).
  - destruct (_ <? _)%nat.
    + eapply advances_then; [|apply handleEventInner_advances]. apply (tame_advances _ _ Hs). tame.
    + apply (tame_advances _ _ Hs). tame.
  - eapply advances_then; [|apply settle_advances]. apply (tame_advances _ _ Hs). tame.
Qed.

Lemma verdict_advances p j timedOut d e : sound e → advances e (verdict w p j timedOut d e).
Proof.
  intros Hs. unfold verdict, here. eapply advances_then; [apply (idle_advances e Hs)|]. set (e1 := e {{ e_stage := Idle }}). intros Hs1.
  destruct (e_session e1) as [s|] eqn:Es; [|by apply advances_refl]. destruct (negb _); [by apply advances_refl|].
  destruct d as [d|]; [|apply (tame_advances _ _ Hs1); unfold onJudgeUnavailable; tame].
  eapply advances_then; [apply (upd_advances (bank_verdict p j) e1 Hs1)|]. intros Hs2.
  pose proof (absorb_advances d j.(jd_context) p.(ps_catalog) _ Hs2) as Ha.
  assert ((absorbTransitions w d j.(jd_context) p.(ps_catalog) (upd (bank_verdict p j) e1)).2.(e_stage) = Idle) as Hst by (rewrite absorb_stage; done).
  destruct (absorbTransitions _ _ _ _ _) as [refused e2]. cbn [snd] in *. cbv zeta.
  eapply advances_then; [exact Ha|]. intros Hs3. set (e3 := upd (λ s, s {{ a_evidenceReasks := O }}) e2).
  assert (advances e2 e3) as H3 by (apply (tame_advances _ _ Hs3); unfold e3; tame).
  destruct (d_decision d) eqn:Ed; [by apply act_continue_advances| |]; (eapply advances_then; [exact H3|]; intros Hs4).
  - by apply act_handle_advances.
  - apply (tame_advances _ _ Hs4). tame.
Qed.

Lemma context_read_advances p text e : sound e → advances e (context_read w p text e).
Proof.
  intros Hs. unfold context_read, here. eapply advances_then; [apply (idle_advances e Hs)|]. set (e1 := e {{ e_stage := Idle }}). intros Hs1.
  destruct (e_session e1) as [s|]; [|by apply advances_refl]. destruct (negb _); [by apply advances_refl|]. cbv zeta.
  destruct (bool_decide _); [apply (tame_advances _ _ Hs1); tame|].
  eapply advances_then; [by apply (stage_advances e1 (Judging p {| jd_hash := w.(w_contextHash) text; jd_context := text; jd_answer := an_object <$> s.(a_askAnswer) |}) Hs1)|].
  intros Hs2. by apply (quiet_advances _ _ (Asked (prompt_of w p text s e1)) Hs2).
Qed.

Lemma run_job_advances j e : sound e → advances e (run_job w j e).
Proof.
  intros Hs. destruct j as [evt|x]; cbn [run_job].
  - pose proof (tame_claim evt e) as Hc. destruct (claim evt e) as [live e1]. cbn [snd] in Hc. eapply advances_then; [apply (tame_advances _ _ Hs Hc)|].
    intros Hs1. destruct live; [by apply handleEventInner_advances|by apply advances_refl].
  - unfold extractAndAppend, here. destruct (e_session e); [|by apply advances_refl]. destruct (_ && _); [by apply advances_refl|].
    destruct (w_judgeCapable w _); [by apply stage_advances|]. by apply extracted_advances.
Qed.

Lemma pass_failed_advances p e : sound e → advances e (pass_failed w p e).
Proof.
  intros Hs. unfold pass_failed, here. eapply advances_then; [apply (idle_advances e Hs)|]. set (e1 := e {{ e_stage := Idle }}). intros Hs1.
  destruct (e_session e1); [|by apply advances_refl]. destruct (negb _); [by apply advances_refl|].
  apply (tame_advances _ _ Hs1). unfold onJudgeUnavailable. tame.
Qed.

(** ** Steps *)

Lemma onParkTimer_advances e : sound e → advances e (onParkTimer w e).
Proof.
  intros Hs. unfold onParkTimer, here. destruct (e_session e) as [s|]; [|by apply advances_refl]. destruct (negb _); [by apply advances_refl|]. cbv zeta.
  set (e1 := emitStatus _). assert (tame e e1) as H1 by (unfold e1; tame). clearbody e1.
  eapply advances_then; [apply (tame_advances _ _ Hs H1)|]. intros Hs1.
  destruct (a_retryEvent s); [apply (tame_advances _ _ Hs1); tame|]. destruct (a_parkAwaitingJudge s); [by apply advances_refl|].
  destruct (0 <? _)%nat; [by apply advances_refl|]. by apply (quiet_advances _ _ Nudged Hs1).
Qed.

(** The acts that give the supervisor its replies back: its user arms it, types a
    line, gives it an instruction, or has its runtime exchanged. *)
Definition renews (a : Act) : bool :=
  match a with
  | Arm _ => true
  | UserReply data _ => isSubmitKeystroke data
  | Instruct p => bool_decide (p.(ia_escalationId) = None)
  | Exit keepArmed => keepArmed
  | _ => false
  end.

Lemma instruct_answer_advances n esc text e : sound e → advances e (instruct_answer w n esc text e).
Proof.
  intros Hs. unfold instruct_answer, here. destruct (e_session e) as [s|] eqn:Es; [|by apply advances_refl].
  destruct (authorizeInstruction _ _ _) as [g auth]. cbv zeta.
  eapply advances_then; [by apply (upd_advances (λ s, s {{ a_auth := auth }}) e Hs)|]. intros Hs1. apply (tame_advances _ _ Hs1).
  fold (set_auth auth e). set (e1 := set_auth auth e). clearbody e1. unfold record_grant. tame.
Qed.

(** A terminal without a session has its guard forgotten. *)
Lemma forget_advances e : sound e → e.(e_session) = None → advances e (e {{ e_guard := reset e.(e_terminal) e.(e_guard) }}).
Proof.
  intros Hs Hn. split.
  - split; [done|]. exists []. rewrite app_nil_r. set (e1 := e {{ e_guard := _ }}). assert (e1.(e_session) = None) as Hn1 by done. unfold budget. rewrite Hn, Hn1.
    split_and!; [done|simpl; lia|done..].
  - apply (sound_reset e); [done..|]. exists []. by rewrite app_nil_r.
Qed.

Lemma exit_advances e : sound e → advances e (onTerminalExit false e).
Proof.
  intros Hs. unfold onTerminalExit. destruct (e_session e) as [s|] eqn:Es; cbn; rewrite ?Es.
  - assert (disarm true (e {{ e_guard := reset e.(e_terminal) e.(e_guard) }}) = disarm true e) as Heq.
    { unfold disarm. destruct e. cbn in *. rewrite Es. unfold reset. cbn. by rewrite delete_delete_eq. }
    pose proof (disarm_advances true e Hs) as H. rewrite <-Heq in H. destruct e. cbn in *. by rewrite Es in *.
  - pose proof (forget_advances e Hs Es) as H. destruct e. cbn in *. by rewrite Es in *.
Qed.

Lemma step_advances a e : sound e → renews a = false → advances e (step w a e).
Proof.
  intros Hs. destruct a as [evt|p| |keepArmed|data resolved|p|eid cid|eid| |prompt| | |text| |timedOut d|outcomes|r|ids]; cbn [renews step]; intros Hr; try done.
  - destruct (draw e) as [object e1] eqn:Ed. apply (tame_advances _ _ Hs). eapply tame_trans; [apply tame_draw|]. rewrite Ed. apply tame_handleEvent.
  - by apply disarm_advances.
  - subst keepArmed. by apply exit_advances.
  - unfold onUserReply. rewrite Hr. by apply advances_refl.
  - apply bool_decide_eq_false in Hr. unfold instruct. destruct (ia_escalationId p) as [id|]; [|done].
    destruct (_ ≫= _) as [[n esc]|]; [|apply (tame_advances _ _ Hs); tame]. destruct (negb _); [apply (tame_advances _ _ Hs); tame|].
    cbv zeta. destruct (bool_decide _); [by apply advances_refl|]. destruct (ia_delivered p); [|by apply instruct_answer_advances].
    apply (tame_advances _ _ Hs). unfold instruct_delivered. cbv zeta. tame.
  - apply (tame_advances _ _ Hs). unfold answerAsk. apply tame_here. intros s _. tame.
  - apply (tame_advances _ _ Hs). tame.
  - apply (tame_advances _ _ Hs). tame.
  - apply (tame_advances _ _ Hs). tame.
  - unfold runParkTimer. destruct (e_timer e) as [t|]; [|by apply advances_refl]. destruct (_ <=? _); [|by apply advances_refl].
    eapply advances_then; [apply (tame_advances _ (e {{ e_timer := None }}) Hs); tame|]. apply onParkTimer_advances.
  - destruct (e_stage e); try by apply advances_refl. destruct (e_chain e) as [|j rest]; [by apply advances_refl|].
    eapply advances_then; [apply (tame_advances _ (e {{ e_chain := rest }}) Hs); tame|]. apply run_job_advances.
  - destruct (e_stage e); try by apply advances_refl. by apply context_read_advances.
  - destruct (e_stage e); first [by apply advances_refl | by apply pass_failed_advances].
  - destruct (e_stage e); try by apply advances_refl. by apply verdict_advances.
  - destruct (e_stage e) eqn:Est; try by apply advances_refl. destruct Hs as [H1 H2 H3]. pose proof H2 as Hc. unfold cleared_ok in Hc. rewrite Est in Hc.
    destruct Hc as (? & ? & ?). by apply send_reply_advances.
  - destruct (e_stage e); try by apply advances_refl. eapply advances_then; [apply (idle_advances e Hs)|]. intros Hs1. by apply extracted_advances.
  - apply (tame_advances _ _ Hs). tame.
Qed.
End safety.
