(* ===== verification/HandlerRuns.v ===== *)
(** * HandlerRuns: the supervisor between two acts of its user

    The theorems on what the engine of HandlerPass.v does over whole runs: how many
    replies and nudges it sends while its user does nothing, what a reply is, and
    whose words a lifted warning rests on. *)

From S2P Require Import Prelude Regex DestructiveFloor Authorization Backlog ReplyGuard HandlerSession HandlerRows HandlerEngine HandlerPass HandlerFrame HandlerItems HandlerSafety.
From coqutil Require Import Datatypes.RecordSetters.
Import DoubleBraceUpdate.

Local Open Scope Z_scope.
Local Open Scope js_scope.

(** ** The invariant holds of every step *)

Section runs.
Implicit Types (w : World) (e : Engine) (s : ArmedSession).

(** A session put in place of another. *)
Lemma sound_session e x : sound e → sound (e {{ e_session := x }}).
Proof. intros [H1 H2 H3]. by split. Qed.

#[local] Instance sound_frame : Frame (λ e e', sound e → sound e') (λ _ _, True).
Proof.
  split.
  - naive_solver.
  - intros e e' H. by apply tame_sound.
  - intros f e _ Hs. by apply upd_advances.
Qed.

Lemma rehydrate_sound w resumed e : sound e → sound (rehydrate w resumed e).
Proof.
  intros Hs. unfold rehydrate. destruct resumed as [r|]; [|done]. destruct (r_parkKind r), (r_parkedUntil r); try done.
  unfold rehydratePark. cbv zeta. set (e1 := upd _ e). assert (sound e1) as H1 by (by apply upd_advances). clearbody e1.
  eapply tame_sound; [|exact H1]. unfold arm_timer. tame.
Qed.

Lemma arm_fresh_sound w p backlog stated e : sound e → sound (arm_fresh w p backlog stated e).
Proof.
  intros Hs. unfold arm_fresh. cbv zeta. set (resumed := r ← _; _).
  set (e1 := match resumed with None => _ | Some _ => _ end). assert (tame e e1) as H1 by (unfold e1; tame).
  apply (tame_sound _ _ H1) in Hs. clearbody e1. pose proof (tame_sound _ _ (tame_draw e1) Hs) as Hd.
  destruct (draw e1) as [object e2]. cbn [snd] in Hd. set (s := applyLens p _).
  pose proof (sound_session e2 (Some s) Hd) as H3. set (e3 := e2 {{ e_session := Some s }}) in *. clearbody e3.
  set (e4 := emitStatus _). assert (sound e4) as H4 by (eapply tame_sound; [|exact H3]; unfold e4; tame). clearbody e4.
  apply (rehydrate_sound w resumed) in H4. set (e5 := rehydrate w resumed e4) in *. clearbody e5. eapply tame_sound; [|exact H4]. tame.
Qed.

Lemma arm_sound w p e : sound e → sound (arm w p e).
Proof.
  intros Hs. unfold arm. destruct (negb _); [by eapply tame_sound; [apply tame_emitStatus|]|]. cbv zeta.
  apply (tame_sound _ _ (tame_note_clamped w p e)) in Hs. destruct (e_session _); [|by apply arm_fresh_sound].
  revert Hs. by apply (rearm_frame w (R := λ e e', sound e → sound e') (U := λ _ _, True)).
Qed.

Lemma reset_sound e : sound e → sound (e {{ e_guard := reset e.(e_terminal) e.(e_guard) }}).
Proof. intros Hs. apply (sound_reset e e Hs); [done..|]. exists []. by rewrite app_nil_r. Qed.

Lemma onUserReply_sound w data resolved e : sound e → sound (onUserReply w data resolved e).
Proof.
  intros Hs. unfold onUserReply. destruct (negb _); [done|]. cbv zeta. apply reset_sound in Hs. set (e1 := e {{ e_guard := _ }}) in *. clearbody e1.
  destruct (e_session e1); [|done]. set (e2 := upd _ e1). assert (sound e2) as H2 by (eapply tame_sound; [|exact Hs]; unfold e2; tame). clearbody e2.
  pose proof (tame_sound _ _ (tame_unparkIfParked e2) H2) as H3. destruct (unparkIfParked e2) as [unparked e3]. cbn [snd] in H3.
  set (e4 := match resolved with Some _ => _ | None => _ end). assert (sound e4) as H4 by (eapply tame_sound; [|exact H3]; unfold e4; tame). clearbody e4.
  destruct (e_session e4); [|done]. set (e5 := upd _ e4). assert (sound e5) as H5 by (by apply upd_advances). clearbody e5.
  eapply tame_sound; [|exact H5]. name_upd e5. tame.
Qed.

Lemma instruct_grant_sound w p text e : sound e → sound (instruct_grant w p text e).
Proof.
  intros Hs. unfold instruct_grant, here. destruct (e_session e) as [s|]; [|done]. destruct (authorizeInstruction _ _ _) as [g auth]. cbv zeta.
  set (e1 := set_auth auth e). assert (sound e1) as H1 by (by apply upd_advances). clearbody e1.
  set (e2 := upd _ (record_grant w g e1)). assert (sound e2) as H2. { eapply tame_sound; [|exact H1]. unfold e2, record_grant. tame. }
  clearbody e2. apply reset_sound in H2. set (e3 := e2 {{ e_guard := _ }}) in *. clearbody e3.
  set (e4 := match filter _ _ with [] => _ | _ :: _ => _ end). assert (tame e3 e4) as H4. { unfold e4. tame. }
  clearbody e4. eapply tame_sound; [|exact H2]. destruct (e_session e4); [|done]. tame.
Qed.

Lemma step_sound w a e : sound e → sound (step w a e).
Proof.
  intros Hs. destruct (renews a) eqn:Hr; [|by apply step_advances]. destruct a as [| | |keepArmed|data resolved|p| | | | | | | | | | | |]; try done; cbn [step].
  - by apply arm_sound.
  - cbn in Hr. subst keepArmed. unfold onTerminalExit. apply reset_sound in Hs. set (e1 := e {{ e_guard := _ }}) in *. cbv zeta. by destruct (e_session e1).
  - by apply onUserReply_sound.
  - cbn in Hr. apply bool_decide_eq_true in Hr. unfold instruct. rewrite Hr. cbv zeta. destruct (bool_decide _); [done|]. by apply instruct_grant_sound.
Qed.

Lemma sound_new terminal : sound (new_engine terminal).
Proof. split; [vm_compute; lia|done|constructor]. Qed.

Lemma run_sound acts e : sound e → sound (run_acts acts e).
Proof. revert e. induction acts as [|[w a] acts IH]; intros e Hs; [done|]. rewrite run_acts_cons. apply IH. by apply step_sound. Qed.

Lemma run_advances acts e : sound e → Forall (λ wa, renews wa.2 = false) acts → advances e (run_acts acts e).
Proof.
  revert e. induction acts as [|[w a] acts IH]; intros e Hs; [intros _; by apply advances_refl|]. intros [Ha Hacts]%Forall_cons. rewrite run_acts_cons.
  eapply advances_then; [by apply step_advances|]. intros Hs1. by apply IH.
Qed.
End runs.

(** C21: the supervisor's autonomy is bounded.  Over any stretch of steps in which
    its user does not arm it, submit a line, instruct it or have its runtime
    exchanged, whatever the agent, the judge, the timers and the user's taps on its
    questions do, it types at most five replies of its own, and five more for each
    pass that finished an item.  Every reply is one the judge decided to send: not
    empty, at most 4096 characters, no control character in it, either plain text or
    a slash command with a well formed verb, and free of every pattern of the hard
    tier; and none is the same as one of the four before it. *)
Theorem autonomy_bounded (terminal : string) (before acts : list (World * Act)) :
  Forall (λ wa, renews wa.2 = false) acts →
  let e := run_acts before (new_engine terminal) in
  ∃ sent, (run_acts acts e).(e_out) = e.(e_out) ++ sent ∧
    (length (replies sent) <= maxConsecutive * (1 + progress sent))%nat ∧
    Forall reply_ok sent ∧
    ∀ i j p q, replies sent !! i = Some p → replies sent !! j = Some q → (i < j <= i + repeatWindow)%nat → p ≠ q.
Proof.
  intros Hacts e. pose proof (run_sound before _ (sound_new terminal)) as Hs.
  destruct (run_advances acts e Hs Hacts) as [(_ & sent & Hout & Hb & _ & Hu & _) [_ _ Hok]].
  exists sent. split; [done|]. split; [|split].
  - assert (budget e <= maxConsecutive)%nat by (unfold budget; destruct (e_session e); lia). unfold maxConsecutive in *. lia.
  - rewrite Hout in Hok. by apply Forall_app in Hok as [_ Hok].
  - intros i j p q. by eapply unrepeated_apart.
Qed.

(** ** A run *)

Module Demo.
Definition at_ (now : Z) : World := {|
  w_now := now; w_projectId := "p"; w_projectPath := "/home/me/proj"; w_tool := "claude"; w_judgeCapable := λ _, true; w_entitled := true;
  w_catalog := None; w_contextHash := λ s, s; w_wakeClock := λ _, "14:05"; w_iso := λ _, "iso"; w_load := None; w_openUndos := 0 |}.
Definition arm_with (goal : option string) : Act := Arm {|
  aa_goal := goal; aa_backlog := None; aa_judgeTool := None; aa_judgeModel := None; aa_role := None; aa_brief := None |}.
Definition hook (k : EventKind) : Act := Hook {|
  ev_object := 0; ev_event := k; ev_transcriptPath := None; ev_detail := None; ev_promptId := None; ev_resetsAt := None; ev_errorClass := None;
  ev_selfResuming := false |}.
Definition says (reply : string) : Act := JudgeAnswered false (Some {|
  d_decision := Handle; d_reason := "because"; d_reply := Some reply; d_action := None; d_notify := None; d_ask := None; d_transitions := None |}).

(** An agent that stops after each turn, and a judge that goes on. *)
Definition turn (context reply : string) : list (World * Act) :=
  (λ a, (at_ 1000, a)) <$> [hook turn_end; NextJob; ContextRead context; says reply].
Definition before : list (World * Act) := (λ a, (at_ 1000, a)) <$> [arm_with (Some "fix the tests"); NextJob; ExtractorAnswered None].
Definition acts : list (World * Act) := turn "ready" "run the tests" ++ turn "two failed" "fix the first one" ++ turn "one failed" "run the tests".
End Demo.

Lemma autonomy_bounded_witness :
  let e := run_acts Demo.before (new_engine "t") in
  (∃ sent, (run_acts Demo.acts e).(e_out) = e.(e_out) ++ sent ∧ (length (replies sent) <= maxConsecutive * (1 + progress sent))%nat) ∧
  length (replies (run_acts Demo.acts e).(e_out)) = 2%nat.
Proof.
  split; [|vm_compute; reflexivity].
  destruct (autonomy_bounded "t" Demo.before Demo.acts) as (sent & H1 & H2 & _); [repeat constructor|]. exists sent. exact (conj H1 H2).
Defined.
