(* ===== verification/HandlerWaits.v ===== *)
(** * HandlerWaits: nudges, and whose words a lift rests on

    Two properties of runs of the supervisor of HandlerPass.v that hold along the
    elementary changes of HandlerSteps.v: how often it wakes an idle agent on its
    own, and what the lift of a session was made from. *)

From S2P Require Import Prelude Regex DestructiveFloor Authorization Backlog ReplyGuard HandlerSession HandlerRows HandlerEngine HandlerPass HandlerFrame HandlerItems HandlerSteps HandlerSafety HandlerRuns.
From stdpp Require Import relations.
From coqutil Require Import Datatypes.RecordSetters.
Import DoubleBraceUpdate.

Local Open Scope Z_scope.
Local Open Scope js_scope.

(** ** Nudges *)

Definition nudges (l : list Effect) : nat := length (filter (λ x, is_nudge x = true) l).

Lemma nudges_app l1 l2 : nudges (l1 ++ l2) = (nudges l1 + nudges l2)%nat.
Proof. unfold nudges. by rewrite filter_app, length_app. Qed.
Lemma harmless_nudges l : Forall (λ x, harmless x = true) l → nudges l = O.
Proof.
  unfold nudges. intros Hl. rewrite filter_none; [done|]. intros x Hx. rewrite Forall_forall in Hl. specialize (Hl x Hx). by destruct x.
Qed.

(** What a stretch of steps nudged, paid for from the patience of the session. *)
Definition waited (e e' : Engine) : Prop :=
  ∃ l, e'.(e_out) = e.(e_out) ++ l ∧ (nudges l + nudges_left e' <= nudges_left e)%nat.

Lemma waited_refl e : waited e e.
Proof. exists []. rewrite app_nil_r. split; [done|unfold nudges; simpl; lia]. Qed.
Lemma waited_trans e1 e2 e3 : waited e1 e2 → waited e2 e3 → waited e1 e3.
Proof.
  intros (l1 & H1 & H2) (l2 & H3 & H4). exists (l1 ++ l2). rewrite H3, H1, app_assoc, nudges_app. split; [done|lia].
Qed.

Lemma tame_waited e e' : tame e e' → waited e e'.
Proof. intros [_ _ _ _ (l & Ho & Hl) _ Hp]. exists l. rewrite (harmless_nudges l Hl). split; [done|lia]. Qed.

Lemma same_waited e e' : e'.(e_out) = e.(e_out) → (nudges_left e' <= nudges_left e)%nat → waited e e'.
Proof. intros Ho Hn. exists []. rewrite app_nil_r. split; [done|]. unfold nudges. simpl. lia. Qed.

Lemma elems_waited L e e' :
  ¬ L.(may_nudge) → (∀ s s', L.(may_set) s s' → (patience s' <= patience s)%nat) → (∀ s, ¬ L.(may_start) s) → elems L e e' → waited e e'.
Proof.
  intros HN HS HT. induction 1 as [e|e1 e2 e3 H _ IH]; [apply waited_refl|]. eapply waited_trans; [|exact IH]. clear IH.
  destruct H as [e e' H|e st|e g|e x Hx|e e' l Hs _ Ho Hl|e f Hf|e s _ Hs].
  - by apply tame_waited.
  - by apply same_waited.
  - by apply same_waited.
  - exists [x]. split; [done|]. change (nudges_left (emit x e)) with (nudges_left e). destruct x; try done; by destruct HN; apply Hx.
  - exists l. rewrite (harmless_nudges l Hl). split; [done|]. unfold nudges_left at 1. rewrite Hs. lia.
  - apply same_waited; [done|]. unfold nudges_left. change (e_session (upd f e)) with (f <$> e.(e_session)).
    destruct (e_session e) as [s|]; simpl; [by apply HS, Hf|lia].
  - by destruct (HT s).
Qed.

(** The user, or a verdict, that gives a session its patience back. *)
Definition encourages (a : Act) : bool :=
  match a with
  | Arm _ => true
  | UserReply data _ => isSubmitKeystroke data
  | JudgeAnswered _ (Some _) => true
  | _ => false
  end.

Section waits.
Context (w : World).
Implicit Types (e : Engine) (s : ArmedSession).

(** A wait that ends is a wait less. *)
Lemma unpark_patience s : is_parked s = true → (S (patience (unpark s)) <= patience s)%nat.
Proof.
  intros Hp. unfold patience. rewrite Hp. assert (is_parked (unpark s) = false) as ->.
  { unfold is_parked. apply bool_decide_false. apply resting_unparked. }
  change (a_limitParks (unpark s)) with s.(a_limitParks). change (a_transientFailures (unpark s)) with s.(a_transientFailures). lia.
Qed.

Lemma onParkTimer_waited e : waited e (onParkTimer w e).
Proof.
  unfold onParkTimer, here. destruct (e_session e) as [s|] eqn:Es; [|apply waited_refl].
  destruct (is_parked s) eqn:Hp; cbn [negb]; [|apply waited_refl]. cbv zeta.
  set (e1 := (unparkIfParked e).2). assert (e1 = upd unpark (e {{ e_timer := None }})) as He1.
  { unfold e1, unparkIfParked. by rewrite Es, Hp. }
  assert (∃ s1, e1.(e_session) = Some s1 ∧ (S (patience s1) <= patience s)%nat ∧ e1.(e_out) = e.(e_out)) as (s1 & Hs1 & Hless & Hout).
  { exists (unpark s). rewrite He1. split_and!; [|by apply unpark_patience|done]. change (unpark <$> e.(e_session) = Some (unpark s)). by rewrite Es. }
  clearbody e1. set (e2 := emitStatus _). assert (tame e1 e2) as (l & Hl & Hn)%tame_waited by (unfold e2; tame). clearbody e2.
  assert (nudges_left e1 < nudges_left e)%nat as Hlt by (unfold nudges_left; rewrite Es, Hs1; lia).
  assert (waited e e2) as H2 by (exists l; rewrite Hl, Hout; split; [done|lia]).
  destruct (a_retryEvent s).
  { eapply waited_trans; [exact H2|]. apply tame_waited. tame. }
  destruct (a_parkAwaitingJudge s); [done|]. destruct (0 <? _)%nat; [done|].
  exists (l ++ [Nudged]). split; [cbn; by rewrite Hl, Hout, app_assoc|]. rewrite nudges_app. change (nudges_left (emit Nudged e2)) with (nudges_left e2).
  change (nudges [Nudged]) with 1%nat. lia.
Qed.

Lemma step_waited a e : encourages a = false → waited e (step w a e).
Proof.
  intros Ha. assert (a = ParkTimer ∨ a ≠ ParkTimer) as [->|Hp] by (destruct a; first [by left|by right]).
  { cbn [step]. unfold runParkTimer. destruct (e_timer e); [|apply waited_refl]. destruct (_ <=? _); [|apply waited_refl].
    eapply waited_trans; [apply tame_waited, (tame_set_timer e None)|]. apply onParkTimer_waited. }
  eapply elems_waited; [..|apply step_elems].
  - done.
  - intros s s' [p j ? d -> _ _|p j ? d -> _ _|_ (b & _ & ->)|p _ ->|data r -> E _|p -> _|p -> _]; try done.
    cbn in Ha. congruence.
  - by intros s (p & -> & _).
Qed.
End waits.

Lemma run_waited acts e : Forall (λ wa, encourages wa.2 = false) acts → waited e (run_acts acts e).
Proof.
  revert e. induction acts as [|[w a] acts IH]; intros e; [intros _; apply waited_refl|]. intros [Ha Hacts]%Forall_cons. rewrite run_acts_cons.
  eapply waited_trans; [by apply step_waited|]. by apply IH.
Qed.

(** ** Whose words a lift rests on *)

(** The instructions given to a session since it was armed, with the directory it
    worked in. *)
Fixpoint heard_from (acts : list (World * Act)) (e : Engine) (so_far : list (string * string)) : list (string * string) :=
  match acts with
  | [] => so_far
  | (w, a) :: acts =>
      let e' := step w a e in
      let so_far := match a with Instruct p => so_far ++ [(trim p.(ia_text), w.(w_projectPath))] | _ => so_far end in
      heard_from acts e' (match e'.(e_session) with None => [] | Some _ => so_far end)
  end.
Definition heard (terminal : string) (acts : list (World * Act)) : list (string * string) := heard_from acts (new_engine terminal) [].

(** The lift of a session is what some of these come to. *)
Definition lifted_from (l : list (string * string)) (e : Engine) : Prop :=
  match e.(e_session) with Some s => ∃ said, said `sublist_of` l ∧ s.(a_auth) = grants_of said | None => True end.

(** A step adds at most the instruction it gives, once. *)
Lemma step_lifted w a e l :
  lifted_from l e →
  lifted_from (match a with Instruct p => l ++ [(trim p.(ia_text), w.(w_projectPath))] | _ => l end) (step w a e).
Proof.
  intros Hl. set (l' := match a with Instruct p => _ | _ => l end).
  set (P := λ s, ∃ said, said `sublist_of` l ∧
    (s.(a_auth) = grants_of said ∨ ∃ p, a = Instruct p ∧ s.(a_auth) = grants_of (said ++ [(trim p.(ia_text), w.(w_projectPath))]))).
  assert (holds P e) as HP.
  { intros s Hs. unfold lifted_from in Hl. rewrite Hs in Hl. destruct Hl as (said & ? & ?). exists said. auto. }
  apply (elems_hold (licence_of w a e) P e (step w a e)) in HP; [| | | |apply step_elems].
  - unfold lifted_from. destruct (e_session (step w a e)) as [s|] eqn:Es; [|done]. destruct (HP s Es) as (said & Hsub & [Ha|(p & -> & Ha)]).
    + exists said. split; [|done]. unfold l'. destruct a; try done. by apply sublist_inserts_r.
    + eexists. split; [|exact Ha]. by apply sublist_app.
  - intros s s' Hi (said & Hs). assert (s'.(a_auth) = s.(a_auth)) as E by (unfold identity in Hi; congruence). exists said. by rewrite E.
  - intros s s' Hset (said & Hsub & Ha). exists said. split; [done|].
    assert (s'.(a_auth) = s.(a_auth) ∨ ∃ p, a = Instruct p ∧ s'.(a_auth) = (authorizeInstruction s.(a_auth) (trim p.(ia_text)) w.(w_projectPath)).2) as [E|(p & -> & E)].
    { destruct Hset as [p j ? d _ _ ->|p j ? d _ _ (_ & E & _)|_ (b & _ & ->)|p -> ->|data r _ _ Hi|p _ (_ & E & _)|p _ Hi]; try (by left); [by right; eauto|..];
        left; unfold identity in Hi; congruence. }
    { rewrite E. exact Ha. }
    right. exists p. split; [done|]. rewrite E. unfold grants_of. rewrite foldl_app. cbn [foldl].
    destruct Ha as [->|(p' & [= <-] & ->)]; [done|]. unfold grants_of. rewrite foldl_app. cbn [foldl]. apply authorize_again.
  - intros s (p & _ & Ha & _). exists []. split; [apply sublist_nil_l|by left].
Qed.

Lemma lifted_heard acts e l : lifted_from l e → lifted_from (heard_from acts e l) (run_acts acts e).
Proof.
  revert e l. induction acts as [|[w a] acts IH]; intros e l Hl; [done|]. rewrite run_acts_cons. cbn [heard_from]. apply IH.
  pose proof (step_lifted w a e l Hl) as H. unfold lifted_from in *. by destruct (e_session (step w a e)).
Qed.

(** An idle agent is woken a bounded number of times.  Over any stretch of
    steps in which the user neither arms the supervisor nor submits a line and the
    judge gives no verdict, however many usage limits are hit, turns fail and timers
    run out, a session that waits for them nudges its agent at most five times:
    twice past a limit, twice past a failure, and once past a wait it had when the
    stretch began.  Nothing else of the model nudges. *)
Theorem nudges_bounded (terminal : string) (before acts : list (World * Act)) :
  Forall (λ wa, encourages wa.2 = false) acts →
  let e := run_acts before (new_engine terminal) in
  ∃ sent, (run_acts acts e).(e_out) = e.(e_out) ++ sent ∧ (nudges sent <= 5)%nat.
Proof.
  intros Hacts e. destruct (run_waited acts e Hacts) as (sent & Hout & Hn). exists sent. split; [done|].
  assert (nudges_left e <= 5)%nat; [|lia]. unfold nudges_left, patience, waits_left, LIMIT_PARK_CEILING, TRANSIENT_CEILING.
  destruct (e_session e) as [s|]; [destruct (is_parked s)|]; lia.
Qed.

Definition limited : list (World * Act) :=
  [(Demo.at_ 1000, Demo.hook limit_hit); (Demo.at_ 1000, NextJob); (Demo.at_ 100000000, ParkTimer)].

Lemma nudges_bounded_witness :
  let e := run_acts [(Demo.at_ 1000, Demo.arm_with None)] (new_engine "t") in
  let e' := run_acts (limited ++ limited ++ limited ++ limited) e in
  (∃ sent, e'.(e_out) = e.(e_out) ++ sent ∧ (nudges sent <= 5)%nat) ∧ nudges e'.(e_out) = 2%nat.
Proof.
  split; [|vm_compute; reflexivity].
  apply (nudges_bounded "t" [(Demo.at_ 1000, Demo.arm_with None)] (limited ++ limited ++ limited ++ limited)). repeat constructor.
Defined.

(** C22: a warning is lifted only by the user's own words to this session.  Whatever
    an agent, a judge, a transcript or a saved file says, the lift of a session is
    exactly what some of the instructions given to it since it was armed come to, in
    the order they were given; and what it lifts, each of those named in a clause
    that does not forbid it.  A hard finding is lifted by nothing. *)
Theorem lifts_are_the_users (terminal : string) (acts : list (World * Act)) (s : ArmedSession) :
  (run_acts acts (new_engine terminal)).(e_session) = Some s →
  ∃ said, said `sublist_of` heard terminal acts ∧ s.(a_auth) = grants_of said ∧
    ∀ w flaggedText projectPath, isAuthorized s.(a_auth) w flaggedText projectPath = true → lifted_by said w flaggedText projectPath.
Proof.
  intros Hs. pose proof (lifted_heard acts (new_engine terminal) [] I) as H. unfold lifted_from in H. rewrite Hs in H.
  destruct H as (said & Hsub & Ha). exists said. split; [done|]. split; [done|]. intros w flaggedText projectPath. rewrite Ha. apply authorized_lifted.
Qed.

(** The user asks for a force push; what the agent quotes afterwards lifts nothing. *)
Definition told : list (World * Act) :=
  ((λ a, (Demo.at_ 1000, a)) <$> [Demo.arm_with (Some "clean the build files"); NextJob; ExtractorAnswered None;
    Instruct {| ia_text := "force push branch"; ia_escalationId := None; ia_choiceId := None; ia_delivered := false; ia_fallbackText := None |};
    NextJob; ExtractorAnswered None]) ++ Demo.turn "the user said: hard reset the branch" "run the tests".

Lemma lifts_are_the_users_witness :
  match (run_acts told (new_engine "t")).(e_session) with
  | Some s => ∃ said, said `sublist_of` [("force push branch", "/home/me/proj")] ∧ s.(a_auth) = grants_of said
  | None => False
  end ∧ heard "t" told = [("force push branch", "/home/me/proj")].
Proof.
  assert (heard "t" told = [("force push branch", "/home/me/proj")]) as Hh by (vm_compute; reflexivity). split; [|exact Hh].
  destruct (e_session _) as [s|] eqn:Hs; [|vm_compute in Hs; discriminate].
  destruct (lifts_are_the_users "t" told s Hs) as (said & H1 & H2 & _). exists said. rewrite Hh in H1. exact (conj H1 H2).
Defined.
