(* ===== verification/HandlerClosed.v ===== *)
(** * HandlerClosed: nothing is reported finished without a quotation

    In any run of the supervisor of HandlerPass.v the items of its session have ids
    of their own, and one that is done, skipped or failed was given as such or was
    closed by a verdict of a judge pass that quotes the context that pass read for
    the judge (a context of fewer than ten characters is not held against the
    quotation). *)

From S2P Require Import Prelude Regex DestructiveFloor Authorization Backlog ReplyGuard HandlerSession HandlerRows HandlerEngine HandlerPass HandlerFrame HandlerItems HandlerSteps HandlerSafety HandlerRuns.
From coqutil Require Import Datatypes.RecordSetters.
Import DoubleBraceUpdate.

Local Open Scope Z_scope.
Local Open Scope js_scope.

Implicit Types (w : World) (a : Act) (acts : list (World * Act)) (e : Engine) (s : ArmedSession) (i : InstructionItem).

Lemma run_acts_snoc acts w a e : run_acts (acts ++ [(w, a)]) e = step w a (run_acts acts e).
Proof. unfold run_acts. by rewrite foldl_app. Qed.

(** The items an act gives: those of the app, and those of the saved session. *)
Definition given_by (wa : World * Act) : list InstructionItem :=
  match wa.2 with Arm p => (p.(aa_backlog) ?| []) ++ resumed_items wa.1 | _ => [] end.
Definition given acts : list InstructionItem := acts ≫= given_by.

(** [BacklogSchema] of the wire and of the record on disk. *)
Definition well_given (wa : World * Act) : Prop :=
  match wa.2 with Arm p => NoDup (ids (p.(aa_backlog) ?| [])) ∧ NoDup (ids (resumed_items wa.1)) | _ => True end.

Section terminal.
Context (terminal : string).

Definition engine_after acts : Engine := run_acts acts (new_engine terminal).

(** The pass in hand shows the judge what it read: since the act that read it the
    engine has been waiting for this pass's verdict. *)
Definition shown acts (p : Pass) (j : Judged) : Prop :=
  ∃ before w between, acts = before ++ (w, ContextRead j.(jd_context)) :: between ∧
    ∀ n, (engine_after (before ++ (w, ContextRead j.(jd_context)) :: take n between)).(e_stage) = Judging p j.

(** A verdict of these acts closed the item, quoting what its pass was shown. *)
Definition closed_by acts i : Prop :=
  ∃ before w timedOut d after p j t,
    acts = before ++ (w, JudgeAnswered timedOut (Some d)) :: after ∧ shown before p j ∧ t ∈ d.(d_transitions) ?| [] ∧
    t.(tr_id) = i.(it_id) ∧ t.(tr_status) = i.(it_status) ∧ t.(tr_evidence) = i.(it_evidence) ∧
    cited {| evidenceCorpus := j.(jd_context); commandNames := map cc_name <$> p.(ps_catalog);
             anchorWaived := waived_now (engine_after before) |} i t.

Definition accounted acts i : Prop := (∃ i0, i0 ∈ given acts ∧ is_closed i0 = true ∧ stands i0 i) ∨ closed_by acts i.

(** What holds of a session after these acts. *)
Definition books acts s : Prop :=
  NoDup (ids s.(a_backlog)) ∧ ∀ i, i ∈ s.(a_backlog) → is_closed i = true → accounted acts i.

Lemma stands_refl i : stands i i.
Proof. done. Qed.
Lemma stands_closed i j : stands i j → is_closed j = is_closed i.
Proof. intros (_ & _ & E & _). unfold is_closed. by rewrite E. Qed.

Lemma accounted_stands acts i j : stands i j → accounted acts i → accounted acts j.
Proof.
  intros (E1 & E2 & E3 & E4) [(i0 & Hi0 & Hc & F1 & F2 & F3 & F4)|(before & w & timedOut & d & after & p & jd & t & ? & ? & ? & ? & ? & ? & Hcite)].
  - left. exists i0. split_and!; [done|done|]. split_and!; congruence.
  - right. exists before, w, timedOut, d, after, p, jd, t.
    split_and!; [done..|congruence|congruence|congruence|]. by eapply cited_stands; [..|exact Hcite].
Qed.

Lemma accounted_more acts wa i : accounted acts i → accounted (acts ++ [wa]) i.
Proof.
  intros [(i0 & Hi0 & ? & ?)|(before & w & timedOut & d & after & p & j & t & -> & H)]; [left|right].
  - exists i0. split; [|done]. unfold given. rewrite bind_app. apply elem_of_app. by left.
  - exists before, w, timedOut, d, (after ++ [wa]), p, j, t. split; [by rewrite <-app_assoc|done].
Qed.

Lemma books_identity acts s s' : identity s' = identity s → books acts s → books acts s'.
Proof. unfold books. intros [= _ _ ->]. done. Qed.
Lemma books_more acts wa s : books acts s → books (acts ++ [wa]) s.
Proof. intros [H1 H2]. split; [done|]. intros i Hi Hc. by apply accounted_more, H2. Qed.

(** ** The changes *)

Section changes.
Context (w : World) (a : Act) (acts : list (World * Act)).
Let acts' := acts ++ [(w, a)].

Lemma given_now p i : a = Arm p → i ∈ p.(aa_backlog) ?| [] ∨ i ∈ resumed_items w → is_closed i = true → accounted acts' i.
Proof.
  intros -> Hi Hc. left. exists i. split_and!; [|done|apply stands_refl]. unfold acts', given. rewrite bind_app, bind_singleton.
  apply elem_of_app. right. by apply elem_of_app.
Qed.

(** Items that are given, or kept. *)
Lemma books_given p b s' :
  a = Arm p → well_given (w, a) →
  (∀ i, i ∈ b → is_closed i = true → accounted acts' i) → NoDup (ids b) →
  s'.(a_backlog) = (take MAX_BACKLOG_ITEMS <$> p.(aa_backlog)) ?| b → books acts' s'.
Proof.
  intros Ha Hw Hb Hn E. unfold books. rewrite E. pose proof (λ i, given_now p i Ha) as Hg. rewrite Ha in Hw. destruct Hw as [Hd _].
  destruct (aa_backlog p) as [l|]; [|done]. cbn [from_option] in *. split.
  - eapply sublist_NoDup; [exact Hd|]. unfold ids. apply fmap_sublist, sublist_take.
  - intros i Hi%subseteq_take Hc. apply Hg; [|done]. by left.
Qed.

Lemma books_judged timedOut d p j s s' :
  a = JudgeAnswered timedOut (Some d) → shown acts p j →
  judged d j.(jd_context) p.(ps_catalog) (waived_now (engine_after acts)) s s' → books acts' s → books acts' s'.
Proof.
  intros -> Hr (_ & _ & _ & now & E) [Hn Hb]. unfold books. rewrite E. split; [by rewrite propagate_ids, moves_ids|].
  intros i Hi Hc. apply propagate_closed in Hi; [|done]. destruct (moves_closed _ _ _ _ _ Hi Hc) as [Hi'|(t & Ht & ? & ? & ? & Hcite)]; [by apply Hb|].
  right. exists acts, w, timedOut, d, [], p, j, t. split_and!; try done.
  apply list_elem_of_In, in_map_iff in Ht as (t' & [= ->] & Ht). by apply list_elem_of_In.
Qed.

Lemma books_stocked s s' : stocked s s' → books acts' s → books acts' s'.
Proof.
  intros (b & Hr & ->) [Hn Hb]. unfold books. change (a_backlog (with_items b s)) with b. destruct Hr as [b added Hq Hna Hnew|b l].
  - split.
    + unfold ids in *. rewrite fmap_app. apply NoDup_app. split_and!; [done| |done]. intros x Hx Hx'. by apply (Hnew x).
    + intros i [Hi|Hi]%elem_of_app Hc; [by apply Hb|]. rewrite Forall_forall in Hq. specialize (Hq i Hi). unfold is_closed in Hc. by rewrite Hq in Hc.
  - split; [by apply amended_distinct|]. intros i Hi Hc. destruct (amended_closed b Hn l i Hi Hc) as (i0 & Hi0 & Hs).
    eapply accounted_stands; [exact Hs|]. apply Hb; [done|]. by rewrite <-(stands_closed _ _ Hs).
Qed.

Lemma step_books :
  well_given (w, a) → (∀ p j, (engine_after acts).(e_stage) = Judging p j → shown acts p j) →
  holds (books acts) (engine_after acts) → holds (books acts') (step w a (engine_after acts)).
Proof.
  set (e := engine_after acts). intros Hw Hj Hb.
  apply (elems_hold (licence_of w a e) (books acts') e (step w a e)); [..|apply step_elems|].
  - apply books_identity.
  - intros s s' [p j t d Ha _ ->|p j t d Ha Hst Hd|_ Hs|p _ ->|data r _ _ Hi|p Ha (_ & _ & E)|p _ Hi] Hbs.
    + done.
    + eapply books_judged; [exact Ha|by apply Hj|exact Hd|done].
    + by eapply books_stocked.
    + done.
    + by eapply books_identity.
    + destruct Hbs as [? Hbs]. by eapply books_given.
    + by eapply books_identity.
  - intros s (p & Ha & _ & E). eapply books_given; [done|done| | |exact E].
    + intros i Hi. eapply given_now; [done|]. by right.
    + rewrite Ha in Hw. apply Hw.
  - intros s Hs. by apply books_more, Hb.
Qed.

(** What the judge is shown stays what this pass read. *)
Lemma step_shown p j :
  (∀ p j, (engine_after acts).(e_stage) = Judging p j → shown acts p j) →
  (step w a (engine_after acts)).(e_stage) = Judging p j → shown acts' p j.
Proof.
  intros Hj Hst. destruct (elems_judging _ _ _ p j (step_elems w a (engine_after acts)) Hst) as [Hr|He].
  - cbn in Hr. exists acts, w, []. unfold acts'. rewrite Hr. split; [done|]. intros n. rewrite take_nil.
    unfold engine_after in *. rewrite run_acts_snoc. by rewrite Hr in Hst.
  - destruct (Hj p j He) as (before & w0 & between & Heq & Hall). exists before, w0, (between ++ [(w, a)]). unfold acts'.
    split; [by rewrite Heq, <-app_assoc|]. intros n. destruct (decide (n <= length between)%nat) as [Hn|Hn].
    + rewrite take_app_le by done. apply Hall.
    + rewrite take_ge by (rewrite length_app; simpl; lia).
      replace (before ++ (w0, ContextRead (jd_context j)) :: between ++ [(w, a)]) with (acts ++ [(w, a)]) by (by rewrite Heq, <-app_assoc).
      unfold engine_after in *. by rewrite run_acts_snoc.
Qed.
End changes.

Lemma run_closed_books acts :
  Forall well_given acts →
  (∀ p j, (engine_after acts).(e_stage) = Judging p j → shown acts p j) ∧ holds (books acts) (engine_after acts).
Proof.
  induction acts as [|[w a] acts IH] using rev_ind; [done|]. intros [Hacts [Hw _]%Forall_cons]%Forall_app.
  destruct (IH Hacts) as [Hj Hb]. assert (engine_after (acts ++ [(w, a)]) = step w a (engine_after acts)) as E
    by (unfold engine_after; by rewrite run_acts_snoc).
  rewrite E. split; [|by apply step_books]. intros p j. by apply step_shown.
Qed.
End terminal.

(** C23: nothing is reported finished without a quotation.  In every run whose
    given items have ids of their own, as the wire's and the record's schemas
    require, the items of the session have ids of their own, whatever was extracted
    and amended; and an item that stands as done, skipped or failed was given as
    such by the app or the saved session, or has the status and the evidence of a
    move of a verdict of the judge.  That evidence is a text of ten characters or
    more, not the item's own, and found in the context that very pass had read for
    the judge, unless that context is shorter than ten characters; and for an item
    done that names a command of the pass's catalog, not waived by then, it names
    that command. *)
Theorem closed_items_quoted (terminal : string) (acts : list (World * Act)) (s : ArmedSession) :
  Forall well_given acts → (run_acts acts (new_engine terminal)).(e_session) = Some s →
  NoDup (ids s.(a_backlog)) ∧
  ∀ i, i ∈ s.(a_backlog) → is_closed i = true →
    (∃ i0, i0 ∈ given acts ∧ is_closed i0 = true ∧ stands i0 i) ∨ closed_by terminal acts i.
Proof. intros Hw Hs. by apply (proj2 (run_closed_books terminal acts Hw)). Qed.

(** Two items; the judge finishes one with a quotation and the other without. *)
Definition two_items : list InstructionItem :=
  (λ id, {| it_id := id; it_text := "fix " +:+ id; it_dependsOn := None; it_condition := None; it_status := queued; it_outcome := None;
            it_evidence := None; it_createdAt := 0 |}) <$> ["the parser"; "the printer"].
Definition finishes (id evidence : string) : ItemTransition := {| tr_id := id; tr_status := done; tr_evidence := Some evidence; tr_outcome := None |}.
Definition worked : list (World * Act) := (λ a, (Demo.at_ 1000, a)) <$> [
  Arm {| aa_goal := None; aa_backlog := Some two_items; aa_judgeTool := None; aa_judgeModel := None; aa_role := None; aa_brief := None |};
  Demo.hook turn_end; NextJob; ContextRead "ran the suite: all 42 parser tests pass";
  JudgeAnswered false (Some {|
    d_decision := Handle; d_reason := "go on"; d_reply := Some "now the printer"; d_action := None; d_notify := None; d_ask := None;
    d_transitions := Some [finishes "the parser" "all 42 parser tests pass"; finishes "the printer" "the printer works now too"] |})].

Lemma closed_items_quoted_witness :
  match (run_acts worked (new_engine "t")).(e_session) with
  | Some s => NoDup (ids s.(a_backlog)) ∧ it_status <$> s.(a_backlog) = [done; queued]
  | None => False
  end.
Proof.
  destruct (e_session _) as [s|] eqn:Hs; [|vm_compute in Hs; discriminate]. split.
  - apply (closed_items_quoted "t" worked s); [|exact Hs]. unfold worked. cbn [fmap list_fmap map].
    apply Forall_cons; split; [|by repeat constructor]. split; apply (bool_decide_unpack _); vm_compute; exact I.
  - vm_compute in Hs. injection Hs as <-. reflexivity.
Defined.

(** An amendment that empties the backlog of a waiting session asks the user
    without ending the wait: the timer then finds nothing to wake, and the record
    of the wait is left behind. *)
Definition emptied : list (World * Act) := (λ a, (Demo.at_ 1000, a)) <$> [
  Arm {| aa_goal := None; aa_backlog := Some two_items; aa_judgeTool := None; aa_judgeModel := None; aa_role := None; aa_brief := None |};
  Demo.hook limit_hit; NextJob;
  Instruct {| ia_text := "forget all of that"; ia_fallbackText := None; ia_escalationId := None; ia_delivered := false; ia_choiceId := None |};
  NextJob;
  ExtractorAnswered (Some {| er_items := []; er_amend :=
    (λ id, {| ad_id := id; ad_action := Drop; ad_text := None; ad_condition := None |}) <$> ["the parser"; "the printer"] |})].

Example emptied_over_a_wait :
  (λ s, (s.(a_state), s.(a_parkKind), s.(a_backlog))) <$> (run_acts emptied (new_engine "t")).(e_session) = Some (NeedsYou, Some LimitPark, []) ∧
  let e := run_acts (emptied ++ [(Demo.at_ 100000000, ParkTimer)]) (new_engine "t") in
  (λ s, (s.(a_state), s.(a_parkKind))) <$> e.(e_session) = Some (NeedsYou, Some LimitPark) ∧ e.(e_timer) = None ∧
  existsb (λ x, match x with Nudged => true | _ => false end) e.(e_out) = false.
Proof. vm_compute. done. Qed.
