(* ===== verification/StreamRecords.v ===== *)
(** * StreamRecords: length-prefixed records over one QUIC stream

    src/bridge/src/peer/stream-records.ts.  The writer queues records, hands
    them to the native stream in slices, one native call at a time, and stops
    for good on overflow, on a failed write or when the peer may not be served
    any more.  The reader takes records off the other half.

    The writer is a state machine cut at its awaits: [phase] is where its
    [drain] is suspended, and the event [Settle] resumes it.  Every native call
    is logged in [calls], every promise of [send] in [outcomes]; buffers are
    values (the wiping of a buffer that is done with does not show).  What
    [authorized()] answers is an oracle read at successive [ticks]. *)

From S2P Require Import Prelude Buffers.
From coqutil Require Import Datatypes.RecordSetters.
Import DoubleBraceUpdate.

Local Open Scope Z_scope.

#[global] Arguments constant {E} newValue / _.

Definition STREAM_RECORD_SLICE_BYTES : nat := Z.to_nat 262144.
Lemma slice_bytes_pos : (0 < STREAM_RECORD_SLICE_BYTES)%nat.
Proof. unfold STREAM_RECORD_SLICE_BYTES. lia. Qed.

#[global] Opaque STREAM_RECORD_SLICE_BYTES.

Definition STREAM_RAW_READ_BYTES : Z := 65536.
Definition LENGTH_PREFIX_BYTES : nat := 4.

(** ** Framing *)

Definition framed (frame : bytes) : bytes := writeUInt32BE (blen frame) ++ frame.

(** ** The writer *)

Inductive StreamWriteFailure := unauthorized | overflow | stream_lost.
Inductive StreamSendOutcome := sent | dropped.

(** The calls of the native send half. *)
Inductive NativeCall :=
  | NWriteAll (slice : bytes)
  | NSetPriority
  | NReset
  | NFinish.

#[export] Instance NativeCall_eq_dec : EqDecision NativeCall.
Proof. solve_decision. Defined.

(** A record of the queue: its number, its bytes, and whether an abort signal
    is listened to. *)
Record PendingWrite := { w_id : nat; w_bytes : bytes; w_signal : bool }.

(** How [writeInSlices] came back. *)
Inductive WriteResult := complete | aborted | rejected.

(** Where [drain] is suspended: nowhere, in [setPriority], in the write of the
    slice that ends at an offset, on the return of [writeInSlices], or in
    [send.finish]. *)
Inductive Phase :=
  | Idle
  | InPriority (r : PendingWrite)
  | InSlice (r : PendingWrite) (offset : nat)
  | Returning (r : PendingWrite) (o : WriteResult)
  | InFinish.

#[projections(primitive)]
Record Writer := {
  queue : list PendingWrite;
  phase : Phase;
  stopped : bool;
  queuedBytes : Z;
  prioritySet : bool;
  finishing : bool;
  finished : bool;
  finishWaiters : list nat;
  (** the number of promises handed out, by [send] and by [finish] *)
  sends : nat;
  finishes : nat;
  ticks : nat;
  (** history: the records sent, the native calls, the settled sends, the
      resolved finishes and the failures reported *)
  issued : list PendingWrite;
  calls : list NativeCall;
  outcomes : list (PendingWrite * StreamSendOutcome);
  resolved : list nat;
  failures : list StreamWriteFailure }.

Definition new_writer : Writer :=
  {| queue := []; phase := Idle; stopped := false; queuedBytes := 0; prioritySet := false; finishing := false;
     finished := false; finishWaiters := []; sends := 0; finishes := 0; ticks := 0; issued := []; calls := []; outcomes := [];
     resolved := []; failures := [] |}.

Definition writing (w : Writer) : bool := match w.(phase) with Idle => false | _ => true end.

Definition native (c : NativeCall) (w : Writer) : Writer := w {{ calls := w.(calls) ++ [c] }}.
Definition settle (r : PendingWrite) (o : StreamSendOutcome) (w : Writer) : Writer :=
  w {{ outcomes := w.(outcomes) ++ [(r, o)] }}.
Definition suspend (p : Phase) (w : Writer) : Writer := w {{ phase := p }}.
Definition tick (w : Writer) : Writer := w {{ ticks := S w.(ticks) }}.

Definition dropQueue (w : Writer) : Writer :=
  w {{ outcomes := w.(outcomes) ++ ((λ r, (r, dropped)) <$> w.(queue)); queue := []; queuedBytes := 0 }}.

Definition resolveFinishWaiters (w : Writer) : Writer :=
  w {{ resolved := w.(resolved) ++ w.(finishWaiters); finishWaiters := [] }}.

Definition note_failure (f : StreamWriteFailure) (w : Writer) : Writer := w {{ failures := w.(failures) ++ [f] }}.

Definition shut (w : Writer) : Writer := resolveFinishWaiters (dropQueue (w {{ stopped := true }})).

(** The stream alone. *)
Definition stopStream (reason : StreamWriteFailure) (w : Writer) : Writer :=
  if w.(stopped) then w else note_failure reason (native NReset (shut w)).

(** The whole connection. *)
Definition failConnection (w : Writer) : Writer :=
  if w.(stopped) then w else note_failure unauthorized (shut w).

Section writer.
Context (authorized : nat → bool) (maxQueuedBytes : Z).

(** [writeInSlices] from an offset on. *)
Definition write_from (r : PendingWrite) (offset : nat) (w : Writer) : Writer :=
  if (length r.(w_bytes) <=? offset)%nat then suspend (Returning r complete) w
  else if w.(stopped) then suspend (Returning r aborted) w
  else if negb (authorized w.(ticks)) then suspend (Returning r aborted) (failConnection (tick w))
  else
    suspend (InSlice r (offset + STREAM_RECORD_SLICE_BYTES))
      (native (NWriteAll (take STREAM_RECORD_SLICE_BYTES (drop offset r.(w_bytes)))) (tick w)).

(** The loop of [drain] from its test on; every turn of it suspends. *)
Definition drain_loop (w : Writer) : Writer :=
  if w.(stopped) then suspend Idle w
  else match w.(queue) with
  | [] => if w.(finishing) && negb w.(finished) then suspend InFinish (native NFinish w) else suspend Idle w
  | r :: rest =>
      if negb (authorized w.(ticks)) then suspend Idle (failConnection (tick w))
      else
        let w := tick w {{ queue := rest; queuedBytes := w.(queuedBytes) - blen r.(w_bytes) }} in
        if w.(prioritySet) then write_from r 0 w
        else suspend (InPriority r) (native NSetPriority w {{ prioritySet := true }})
  end.

Definition drain (w : Writer) : Writer := if writing w || w.(stopped) then w else drain_loop w.

(** A promise of [send]. *)
Definition issue (r : PendingWrite) (w : Writer) : Writer :=
  w {{ sends := S w.(sends); issued := w.(issued) ++ [r] }}.

(** [signal]: none, one that has fired already, or one that may fire. *)
Definition enqueue (b : bytes) (signal : option bool) (w : Writer) : Writer :=
  let r := {| w_id := w.(sends); w_bytes := b; w_signal := bool_decide (signal <> None) |} in
  let w := issue r w in
  if w.(stopped) || w.(finishing) then settle r dropped w
  else if bool_decide (signal = Some true) then settle r dropped w
  else if negb (authorized w.(ticks)) then settle r dropped (failConnection (tick w))
  else if maxQueuedBytes <? w.(queuedBytes) + blen b then settle r dropped (stopStream overflow (tick w))
  else drain ((tick w) {{ queue := w.(queue) ++ [r]; queuedBytes := w.(queuedBytes) + blen b }}).

(** [signal]'s listener: a no-op once the record has left the queue. *)
Definition onAbort (i : nat) (w : Writer) : Writer :=
  match list_find (λ r, r.(w_id) = i) w.(queue) with
  | Some (k, r) =>
      if r.(w_signal)
      then settle r dropped (w {{ queue := delete k w.(queue); queuedBytes := w.(queuedBytes) - blen r.(w_bytes) }})
      else w
  | None => w
  end.

Definition abort (w : Writer) : Writer :=
  if w.(stopped) || w.(finishing) then w else native NReset (shut w).

Definition finish (w : Writer) : Writer :=
  let n := w.(finishes) in
  let w := w {{ finishes := S n }} in
  if w.(stopped) || w.(finished) then w {{ resolved := w.(resolved) ++ [n] }}
  else
    let w := if w.(finishing) then w else drain (w {{ finishing := true }}) in
    if w.(finished) then w {{ resolved := w.(resolved) ++ [n] }} else w {{ finishWaiters := w.(finishWaiters) ++ [n] }}.

(** The await [drain] is suspended in settles, well or not. *)
Definition resume (ok : bool) (w : Writer) : Writer :=
  match w.(phase) with
  | Idle => w
  | InPriority r =>
      if negb ok then suspend Idle (stopStream stream_lost (settle r dropped w))
      else if w.(stopped) then drain_loop (settle r dropped w)
      else write_from r 0 w
  | InSlice r offset => if ok then write_from r offset w else suspend (Returning r rejected) w
  | Returning r complete => drain_loop (settle r sent w)
  | Returning r aborted => drain_loop (settle r dropped w)
  | Returning r rejected => suspend Idle (stopStream stream_lost (settle r dropped w))
  | InFinish => suspend Idle (resolveFinishWaiters (w {{ finished := true }}))
  end.

Inductive WriterEvent :=
  | Send (frame : bytes) (signal : option bool)
  | SendRaw (b : bytes) (signal : option bool)
  | SignalFires (i : nat)
  | Abort
  | Finish
  | Settle (ok : bool).

Definition writer_event (w : Writer) (e : WriterEvent) : Writer :=
  match e with
  | Send frame signal => enqueue (framed frame) signal w
  | SendRaw b signal => enqueue b signal w
  | SignalFires i => onAbort i w
  | Abort => abort w
  | Finish => finish w
  | Settle ok => resume ok w
  end.

Definition run_writer (evs : list WriterEvent) (w : Writer) : Writer := foldl writer_event w evs.
End writer.

(** ** What holds of every writer *)

Definition slice_of (c : NativeCall) : option bytes := match c with NWriteAll s => Some s | _ => None end.

(** The bytes handed to the native stream. *)
Definition written (cs : list NativeCall) : bytes := concat (omap slice_of cs).

Definition sent_records (os : list (PendingWrite * StreamSendOutcome)) : list PendingWrite :=
  omap (λ p, match p.2 with sent => Some p.1 | dropped => None end) os.

Definition bytes_of (rs : list PendingWrite) : bytes := concat (w_bytes <$> rs).

(** The record [drain] has in hand. *)
Definition in_hand (p : Phase) : list PendingWrite :=
  match p with InPriority r | InSlice r _ | Returning r _ => [r] | Idle | InFinish => [] end.

Definition slice_ok (c : NativeCall) : Prop :=
  match c with NWriteAll s => s ≠ [] ∧ (length s <= STREAM_RECORD_SLICE_BYTES)%nat | _ => True end.

Section invariant.
Context (authorized : nat → bool) (maxQueuedBytes : Z) (Hmax : 0 <= maxQueuedBytes).

(** With the records [hand] taken off the queue and [torn] the bytes written
    that belong to no record sent. *)
Record Core (hand : list PendingWrite) (torn : bytes) (w : Writer) : Prop := {
  c_bytes : w.(queuedBytes) = sum_by (λ r, blen r.(w_bytes)) w.(queue);
  c_bound : w.(queuedBytes) <= maxQueuedBytes;
  c_stopped : w.(stopped) = true → w.(queue) = [] ∧ w.(finishWaiters) = [];
  c_written : written w.(calls) = bytes_of (sent_records w.(outcomes)) ++ torn;
  c_torn : torn = [] ∨ ∃ r, torn `prefix_of` r.(w_bytes) ∧ (r ∈ hand ∨ (r, dropped) ∈ w.(outcomes));
  c_ids : w_id <$> w.(issued) = seq 0 w.(sends);
  c_issued : w.(outcomes).*1 ++ hand ++ w.(queue) ≡ₚ w.(issued);
  c_order : sent_records w.(outcomes) ++ hand ++ w.(queue) `sublist_of` w.(issued);
  c_finishes : w.(resolved) ++ w.(finishWaiters) ≡ₚ seq 0 w.(finishes);
  c_waiters : w.(finishWaiters) ≠ [] → w.(finishing) = true;
  c_reset : NReset ∈ w.(calls) → w.(stopped) = true;
  c_slices : Forall slice_ok w.(calls) }.

Definition phase_ok (torn : bytes) (w : Writer) : Prop :=
  match w.(phase) with
  | Idle => w.(stopped) = true ∨ (w.(queue) = [] ∧ torn = [] ∧ w.(finishing) = w.(finished))
  | InPriority _ => torn = []
  | InSlice r offset => torn = take offset r.(w_bytes)
  | Returning r complete => torn = r.(w_bytes)
  | Returning r aborted => torn `prefix_of` r.(w_bytes) ∧ w.(stopped) = true
  | Returning r rejected => torn `prefix_of` r.(w_bytes)
  | InFinish => torn = [] ∧ w.(queue) = [] ∧ w.(stopped) = false ∧ w.(finishing) = true
  end.

(** Where the end of the stream stands. *)
Definition end_ok (w : Writer) : Prop :=
  (w.(finished) = true → w.(phase) = Idle ∧ w.(stopped) = false ∧ w.(finishing) = true ∧ w.(finishWaiters) = []) ∧
  (NFinish ∈ w.(calls) → w.(phase) = InFinish ∨ w.(finished) = true).

Definition Inv (w : Writer) : Prop := ∃ torn, Core (in_hand w.(phase)) torn w ∧ phase_ok torn w ∧ end_ok w.

Lemma written_app cs c : written (cs ++ [c]) = written cs ++ default [] (slice_of c).
Proof. unfold written. rewrite omap_app, concat_app. destruct c; simpl; by rewrite ?app_nil_r. Qed.

Lemma sent_records_dropped (rs : list PendingWrite) : sent_records ((λ r, (r, dropped)) <$> rs) = [].
Proof. induction rs as [|r rs IH]; [done|]. exact IH. Qed.

Lemma dropped_fst (rs : list PendingWrite) : ((λ r, (r, dropped)) <$> rs).*1 = rs.
Proof. induction rs as [|r rs IH]; csimpl; [done|]. by rewrite IH. Qed.

Lemma sent_records_app o1 o2 : sent_records (o1 ++ o2) = sent_records o1 ++ sent_records o2.
Proof. apply omap_app. Qed.

Lemma bytes_of_snoc rs r : bytes_of (rs ++ [r]) = bytes_of rs ++ r.(w_bytes).
Proof. unfold bytes_of. rewrite fmap_app, concat_app. simpl. by rewrite app_nil_r. Qed.

(** *** The pieces *)

Lemma core_native hand torn c w :
  Core hand torn w → slice_of c = None → (c = NReset → w.(stopped) = true) → Core hand torn (native c w).
Proof.
  intros [] Hs Hr. split; simpl; try done.
  - rewrite written_app, Hs. simpl. by rewrite app_nil_r.
  - rewrite elem_of_app, list_elem_of_singleton. naive_solver.
  - apply Forall_app. split; [done|]. repeat constructor. by destruct c.
Qed.

Lemma core_drop r torn w :
  Core [r] torn w → Core [] torn (settle r dropped w).
Proof.
  intros []. split; simpl; try done.
  - rewrite sent_records_app. simpl. by rewrite app_nil_r.
  - destruct c_torn0 as [|(r' & Hp & [->%list_elem_of_singleton|Hr'])]; [by left|right; exists r|right; exists r'];
      (split; [done|right]); rewrite elem_of_app, list_elem_of_singleton; auto.
  - rewrite fmap_app, <-app_assoc. done.
  - rewrite sent_records_app. simpl. rewrite app_nil_r. etrans; [|exact c_order0]. apply sublist_app; [done|]. by apply sublist_cons.
Qed.

Lemma core_sent r w : Core [r] r.(w_bytes) w → Core [] [] (settle r sent w).
Proof.
  intros []. split; simpl; try done.
  - rewrite sent_records_app. simpl. by rewrite bytes_of_snoc, app_nil_r.
  - by left.
  - rewrite fmap_app, <-app_assoc. done.
  - rewrite sent_records_app, <-app_assoc. done.
Qed.

Lemma core_shut hand torn w : Core hand torn w → Core hand torn (shut w).
Proof.
  intros []. split; simpl; try done.
  - by rewrite sent_records_app, sent_records_dropped, app_nil_r.
  - destruct c_torn0 as [|(r & Hp & Hr)]; [by left|right]. exists r. split; [done|]. rewrite elem_of_app. tauto.
  - rewrite <-c_issued0, fmap_app, dropped_fst, app_nil_r, <-app_assoc. apply Permutation_app_head, Permutation_app_comm.
  - rewrite sent_records_app, sent_records_dropped, !app_nil_r. etrans; [|exact c_order0].
    rewrite app_assoc. by apply sublist_inserts_r.
  - by rewrite app_nil_r.
Qed.

Lemma core_suspend hand torn p w : Core hand torn w → Core hand torn (suspend p w).
Proof. intros []. by split. Qed.

Lemma core_tick hand torn w : Core hand torn w → Core hand torn (tick w).
Proof. intros []. by split. Qed.

Lemma core_note hand torn f w : Core hand torn w → Core hand torn (note_failure f w).
Proof. intros []. by split. Qed.

Lemma core_stopStream hand torn f w : Core hand torn w → Core hand torn (stopStream f w).
Proof.
  intros Hw. unfold stopStream. destruct (stopped w); [done|]. apply core_note, core_native; [by apply core_shut|done|done].
Qed.

Lemma core_failConnection hand torn w : Core hand torn w → Core hand torn (failConnection w).
Proof. intros Hw. unfold failConnection. destruct (stopped w); [done|]. by apply core_note, core_shut. Qed.

(** The rest of the state as the failures leave it. *)
Lemma stopStream_frame f w :
  (stopStream f w).(stopped) = true ∧ (stopStream f w).(phase) = w.(phase) ∧ (stopStream f w).(finished) = w.(finished) ∧
  (NFinish ∈ (stopStream f w).(calls) → NFinish ∈ w.(calls)).
Proof.
  unfold stopStream. destruct (stopped w) eqn:Hs; [done|]. split_and!; [done..|]. simpl.
  rewrite elem_of_app, list_elem_of_singleton. by intros [H|[=]].
Qed.

Lemma failConnection_frame w :
  (failConnection w).(stopped) = true ∧ (failConnection w).(phase) = w.(phase) ∧
  (failConnection w).(finished) = w.(finished) ∧ (failConnection w).(calls) = w.(calls).
Proof. unfold failConnection. by destruct (stopped w) eqn:Hs. Qed.

(** Neither ended nor ending. *)
Definition open_end (w : Writer) : Prop := w.(finished) = false ∧ NFinish ∉ w.(calls).

Lemma open_fail w : open_end w → open_end (failConnection w).
Proof. intros [Hf Hn]. destruct (failConnection_frame w) as (_ & _ & H3 & H4). split; [by rewrite H3|by rewrite H4]. Qed.

Lemma open_stop f w : open_end w → open_end (stopStream f w).
Proof. intros [Hf Hn]. destruct (stopStream_frame f w) as (_ & _ & H3 & H4). split; [by rewrite H3|auto]. Qed.

Lemma open_native c w : open_end w → c ≠ NFinish → open_end (native c w).
Proof. intros [Hf Hn] Hc. split; [done|]. simpl. rewrite elem_of_app, list_elem_of_singleton. naive_solver. Qed.

Lemma open_suspend p w : open_end w → open_end (suspend p w).
Proof. done. Qed.

Lemma end_open w : open_end w → end_ok w.
Proof. intros [Hf Hn]. split; [by rewrite Hf|done]. Qed.


Lemma take_slice (b : bytes) offset n : take offset b ++ take n (drop offset b) = take (offset + n) b.
Proof. by rewrite take_take_drop. Qed.

Lemma core_slice r offset w :
  Core [r] (take offset r.(w_bytes)) w → (offset < length r.(w_bytes))%nat →
  let slice := take STREAM_RECORD_SLICE_BYTES (drop offset r.(w_bytes)) in
  Core [r] (take (offset + STREAM_RECORD_SLICE_BYTES) r.(w_bytes)) (native (NWriteAll slice) w).
Proof.
  intros [] Hlt slice. split; simpl; try done.
  - rewrite written_app, c_written0, <-app_assoc. unfold slice. simpl. by rewrite take_slice.
  - right. exists r. split; [apply prefix_take|left; by left].
  - rewrite elem_of_app, list_elem_of_singleton. by intros [H|[=]]; auto.
  - apply Forall_app. split; [done|]. apply Forall_singleton. split.
    + intros Hn. apply (f_equal length) in Hn. unfold slice in Hn. rewrite length_take, length_drop in Hn. simpl in Hn.
      pose proof slice_bytes_pos. lia.
    + unfold slice. rewrite length_take. lia.
Qed.

Lemma inv_write_from r offset w :
  Core [r] (take offset r.(w_bytes)) w → open_end w → Inv (write_from authorized r offset w).
Proof.
  intros Hw Ho. unfold write_from. destruct (Nat.leb_spec (length r.(w_bytes)) offset) as [Hle|Hlt].
  { exists r.(w_bytes). rewrite take_ge in Hw by done. split_and!; [by apply core_suspend|done|by apply end_open]. }
  destruct (stopped w) eqn:Hs.
  { exists (take offset r.(w_bytes)). split_and!; [by apply core_suspend|split; [apply prefix_take|done]|by apply end_open]. }
  destruct (authorized (ticks w)); simpl negb; cbv iota.
  - exists (take (offset + STREAM_RECORD_SLICE_BYTES) r.(w_bytes)).
    split_and!; [apply core_suspend, core_slice; [by apply core_tick|done]|done|].
    by apply end_open, open_suspend, open_native.
  - exists (take offset r.(w_bytes)).
    split_and!; [by apply core_suspend, core_failConnection, core_tick| |by apply end_open, open_suspend, open_fail].
    split; [apply prefix_take|apply failConnection_frame].
Qed.

Lemma core_shift r rest w torn :
  Core [] torn w → w.(queue) = r :: rest → w.(stopped) = false →
  Core [r] torn (w {{ queue := rest; queuedBytes := w.(queuedBytes) - blen r.(w_bytes) }}).
Proof.
  intros [] Hq Hs. rewrite Hq in *. split; simpl in *; try done.
  - lia.
  - unfold blen in *. lia.
  - intros Hst. congruence.
  - destruct c_torn0 as [|(r' & Hp & [?%not_elem_of_nil|Hr])]; [by left|done|right; exists r'; auto].
Qed.

Lemma core_reprioritized hand torn b w : Core hand torn w → Core hand torn (w {{ prioritySet := b }}).
Proof. intros []. by split. Qed.

Lemma inv_drain_loop torn w :
  Core [] torn w → w.(stopped) = true ∨ torn = [] → open_end w → Inv (drain_loop authorized w).
Proof.
  intros Hw Ht [Hf Hn]. unfold drain_loop. destruct (stopped w) eqn:Hs.
  { exists torn. split_and!; [by apply core_suspend|left; done|by apply end_open]. }
  destruct Ht as [Ht| ->]; [done|]. destruct (queue w) as [|r rest] eqn:Hq.
  - rewrite Hf. destruct (finishing w) eqn:Hfin; simpl.
    + exists []. split_and!; [by apply core_suspend, core_native|done|].
      split; [simpl; congruence|by left].
    + exists []. split_and!; [by apply core_suspend|right; split_and!; [done..|simpl; congruence]|by apply end_open].
  - destruct (authorized (ticks w)); simpl negb; cbv iota.
    + set (w1 := tick _). assert (Core [r] [] w1) as Hw1 by (by apply core_tick, core_shift).
      assert (open_end w1) as Ho by done. clearbody w1. destruct (prioritySet w1); [by apply inv_write_from|].
      exists []. split_and!; [apply core_suspend, core_native; [by apply core_reprioritized|done..]|done|].
      by apply end_open, open_suspend, open_native.
    + exists []. split_and!; [by apply core_suspend, core_failConnection, core_tick| |by apply end_open, open_suspend, open_fail].
      left. apply failConnection_frame.
Qed.

(** *** The events *)

Lemma open_of w : end_ok w → w.(phase) ≠ Idle → w.(phase) ≠ InFinish → open_end w.
Proof.
  intros [He1 He2] Hi Hf. destruct (finished w) eqn:Hfin; [by destruct (He1 eq_refl)|]. split; [done|].
  intros Hn. destruct (He2 Hn); congruence.
Qed.

Lemma inv_stop_hand r torn f w :
  Core [r] torn w → open_end w → Inv (suspend Idle (stopStream f (settle r dropped w))).
Proof.
  intros Hc Ho. exists torn.
  split_and!; [by apply core_suspend, core_stopStream, core_drop|left; apply stopStream_frame|].
  by apply end_open, open_suspend, open_stop.
Qed.

Lemma inv_resume ok w : Inv w → Inv (resume authorized ok w).
Proof.
  intros Hw. pose proof Hw as (torn & Hc & Hp & He). unfold resume. unfold phase_ok in Hp.
  pose proof (open_of w He) as Ho.
  destruct (phase w) as [|r|r off|r o|] eqn:Hph; simpl in Hc; [done| | | |].
  - destruct ok; simpl negb; cbv iota; [|by apply (inv_stop_hand r torn); auto].
    subst torn. destruct (stopped w) eqn:Hs; [|by apply inv_write_from; auto].
    apply (inv_drain_loop []); [by apply core_drop|by right|by apply Ho].
  - destruct ok; [subst torn; by apply inv_write_from; auto|]. exists torn.
    split_and!; [by apply core_suspend|subst torn; apply prefix_take|by apply end_open, Ho].
  - destruct o.
    + subst torn. apply (inv_drain_loop []); [by apply core_sent|by right|by apply Ho].
    + destruct Hp as [_ Hs]. apply (inv_drain_loop torn); [by apply core_drop|by left|by apply Ho].
    + apply (inv_stop_hand r torn); auto.
  - destruct Hp as (-> & Hq & Hs & Hfin). destruct He as [He1 He2]. exists [].
    split_and!; [|right; exact (conj Hq (conj eq_refl Hfin))|split; [|by right]].
    2: { intros _. exact (conj eq_refl (conj Hs (conj Hfin eq_refl))). }
    destruct Hc. split; simpl; try done. by rewrite app_nil_r.
Qed.

Lemma seq_snoc n : (0 :: seq 1 n = seq 0 n ++ [n])%nat.
Proof. change (0 :: seq 1 n)%nat with (seq 0 (S n)). by rewrite seq_S. Qed.

Lemma core_refuse hand torn r w :
  Core hand torn w → r.(w_id) = w.(sends) → Core hand torn (settle r dropped (issue r w)).
Proof.
  intros [] Hr. split; simpl; try done.
  - by rewrite sent_records_app, app_nil_r.
  - destruct c_torn0 as [|(r' & Hp & Hr')]; [by left|right]. exists r'. rewrite elem_of_app. tauto.
  - rewrite fmap_app, c_ids0, seq_snoc. simpl. by rewrite Hr.
  - rewrite <-c_issued0, fmap_app, <-!app_assoc. apply Permutation_app_head.
    rewrite (app_assoc hand). apply Permutation_app_comm.
  - rewrite sent_records_app, app_nil_r. etrans; [exact c_order0|by apply sublist_inserts_r].
Qed.

Lemma core_push hand torn r w :
  Core hand torn w → r.(w_id) = w.(sends) → w.(stopped) = false → w.(queuedBytes) + blen r.(w_bytes) <= maxQueuedBytes →
  Core hand torn ((issue r w) {{ queue := w.(queue) ++ [r]; queuedBytes := w.(queuedBytes) + blen r.(w_bytes) }}).
Proof.
  intros [] Hr Hs Hle. split; simpl; try done.
  - rewrite sum_by_app. simpl. lia.
  - intros Hst. congruence.
  - rewrite fmap_app, c_ids0, seq_snoc. simpl. by rewrite Hr.
  - by rewrite <-c_issued0, <-!app_assoc.
  - rewrite !app_assoc. apply sublist_app; [|done]. by rewrite <-app_assoc.
Qed.

Lemma inv_refuse r w : Inv w → r.(w_id) = w.(sends) → Inv (settle r dropped (issue r w)).
Proof. intros (torn & Hc & Hp & He) Hr. exists torn. split_and!; [by apply core_refuse|exact Hp|exact He]. Qed.

(** The writer stops before its end was asked for. *)
Lemma inv_stopped w w' :
  Inv w → w.(finishing) = false → (∀ torn, Core (in_hand w.(phase)) torn w → Core (in_hand w.(phase)) torn w') →
  w'.(phase) = w.(phase) → w'.(stopped) = true → w'.(finished) = w.(finished) →
  (NFinish ∈ w'.(calls) → NFinish ∈ w.(calls)) → Inv w'.
Proof.
  intros (torn & Hc & Hp & [He1 He2]) Hf Hcore Hph Hs Hfin Hn. unfold phase_ok in Hp.
  assert (w.(finished) = false) as Hnf.
  { destruct (finished w); [|done]. destruct (He1 eq_refl) as (_ & _ & Hx & _). congruence. }
  exists torn. rewrite Hph. split_and!; [by apply Hcore| |].
  - unfold phase_ok. rewrite Hph. destruct (phase w) as [|r|r off|r []|]; try done; [by left|by destruct Hp|].
    destruct Hp as (_ & _ & _ & Hx). congruence.
  - split; [rewrite Hfin, Hnf; done|]. intros Hx%Hn%He2. rewrite Hph, Hfin. done.
Qed.

Lemma writer_inv_tick w : Inv w → Inv (tick w).
Proof. intros (torn & Hc & Hp & He). exists torn. split_and!; [by apply core_tick|exact Hp|exact He]. Qed.

Lemma inv_failConnection w : Inv w → w.(finishing) = false → Inv (failConnection w).
Proof.
  intros Hw Hf. destruct (failConnection_frame w) as (H1 & H2 & H3 & H4).
  apply (inv_stopped w); try done; [intros torn; apply core_failConnection|by rewrite H4].
Qed.

Lemma inv_stopStream f w : Inv w → w.(finishing) = false → Inv (stopStream f w).
Proof.
  intros Hw Hf. destruct (stopStream_frame f w) as (H1 & H2 & H3 & H4).
  apply (inv_stopped w); try done. intros torn. apply core_stopStream.
Qed.

Lemma fail_issue r w : failConnection (tick (issue r w)) = issue r (failConnection (tick w)).
Proof.
  unfold failConnection. change (stopped (tick ?x)) with (stopped x). change (stopped (issue r w)) with (stopped w).
  by destruct (stopped w).
Qed.

Lemma stop_issue f r w : stopStream f (tick (issue r w)) = issue r (stopStream f (tick w)).
Proof.
  unfold stopStream. change (stopped (tick ?x)) with (stopped x). change (stopped (issue r w)) with (stopped w).
  by destruct (stopped w).
Qed.

Lemma failConnection_sends w : (failConnection w).(sends) = w.(sends).
Proof. unfold failConnection. by destruct (stopped w). Qed.

Lemma stopStream_sends f w : (stopStream f w).(sends) = w.(sends).
Proof. unfold stopStream. by destruct (stopped w). Qed.

(** A drain that starts finds the record just queued. *)
Lemma inv_enqueue b signal w : Inv w → Inv (enqueue authorized maxQueuedBytes b signal w).
Proof.
  intros Hw. unfold enqueue. set (r := Build_PendingWrite _ _ _). assert (r.(w_id) = w.(sends)) as Hr by done.
  change (stopped (issue r w)) with (stopped w). change (finishing (issue r w)) with (finishing w).
  destruct (stopped w) eqn:Hs; [by apply inv_refuse|]. destruct (finishing w) eqn:Hf; [by apply inv_refuse|]. simpl orb. cbv iota.
  case_bool_decide; [by apply inv_refuse|]. change (ticks (issue r w)) with (ticks w).
  destruct (authorized (ticks w)); simpl negb; cbv iota.
  2: { rewrite fail_issue. apply inv_refuse; [apply inv_failConnection; [by apply writer_inv_tick|done]|]. by rewrite failConnection_sends. }
  destruct (Z.ltb_spec maxQueuedBytes (queuedBytes (issue r w) + blen b)) as [Hlt|Hle].
  { rewrite stop_issue. apply inv_refuse; [apply inv_stopStream; [by apply writer_inv_tick|done]|]. by rewrite stopStream_sends. }
  destruct Hw as (torn & Hc & Hp & He). pose proof (core_push _ _ r w Hc Hr Hs Hle) as Hpush.
  match goal with |- Inv (drain _ ?x) => set (w' := x) end.
  assert (Core (in_hand w.(phase)) torn w') as Hc' by (destruct Hpush; by split). unfold drain, writing.
  change (phase w') with (phase w). change (stopped w') with (stopped w). rewrite Hs. unfold phase_ok in Hp.
  destruct (phase w) eqn:Hph; simpl orb; cbv iota; unfold in_hand in Hc'.
  { destruct Hp as [Hp|(_ & -> & Hff)]; [congruence|]. apply (inv_drain_loop []); [done|by right|].
    destruct He as [_ He2]. split; [change (finished w' = false) with (finished w = false); congruence|].
    intros Hn. destruct (He2 Hn); congruence. }
  4: { destruct Hp as (_ & _ & _ & Hfin). congruence. }
  all: exists torn; change (phase w') with (phase w); rewrite Hph;
    split_and!; [exact Hc'|unfold phase_ok; change (phase w') with (phase w); rewrite Hph; exact Hp|exact He].
Qed.

Lemma core_signal hand torn l1 r l2 w :
  Core hand torn w → w.(queue) = l1 ++ r :: l2 →
  Core hand torn (settle r dropped (w {{ queue := l1 ++ l2; queuedBytes := w.(queuedBytes) - blen r.(w_bytes) }})).
Proof.
  intros [] Hq. rewrite Hq in *. rewrite sum_by_delete_middle in c_bytes0. split; simpl; try done.
  - lia.
  - unfold blen in *. lia.
  - intros Hs. destruct (c_stopped0 Hs) as [Hn _]. by destruct l1.
  - by rewrite sent_records_app, app_nil_r.
  - destruct c_torn0 as [|(r' & Hp & Hr')]; [by left|right]. exists r'. rewrite elem_of_app. tauto.
  - rewrite <-c_issued0, fmap_app, <-!app_assoc. apply Permutation_app_head. simpl.
    rewrite !app_assoc. apply Permutation_middle.
  - rewrite sent_records_app, app_nil_r. etrans; [|exact c_order0]. apply sublist_app; [done|]. apply sublist_app; [done|].
    apply sublist_app; [done|]. by apply sublist_cons.
Qed.

Lemma inv_onAbort i w : Inv w → Inv (onAbort i w).
Proof.
  intros Hw. unfold onAbort. destruct (list_find _ _) as [[k r]|] eqn:Hf; [|done]. destruct (w_signal r); [|done].
  apply list_find_Some in Hf as (Hk & _ & _). apply list_elem_of_split_length in Hk as (l1 & l2 & Hq & ->).
  rewrite Hq, delete_middle. destruct Hw as (torn & Hc & Hp & He). exists torn.
  split_and!; [by apply (core_signal _ _ l1 r l2)| |exact He]. revert Hp. unfold phase_ok. set (w' := settle _ _ _). change (phase w') with (phase w).
  destruct (phase w) as [|r1|r1 off|r1 []|]; try done.
  - intros [Hs|(Hn & _)]; [by left|]. pose proof (eq_trans (eq_sym Hq) Hn). by destruct l1.
  - intros (_ & Hn & _). pose proof (eq_trans (eq_sym Hq) Hn). by destruct l1.
Qed.

Lemma inv_abort w : Inv w → Inv (abort w).
Proof.
  intros Hw. unfold abort. destruct (stopped w); [done|]. destruct (finishing w) eqn:Hf; [done|]. simpl.
  apply (inv_stopped w); try done.
  - intros torn Hc. apply core_native; [by apply core_shut|done|done].
  - simpl. rewrite elem_of_app, list_elem_of_singleton. by intros [H|[=]].
Qed.

(** The promise of [finish] is resolved at once. *)
Lemma core_resolve hand torn w :
  Core hand torn w → Core hand torn (w {{ finishes := S w.(finishes); resolved := w.(resolved) ++ [w.(finishes)] }}).
Proof.
  intros []. split; simpl; try done. rewrite seq_snoc, <-c_finishes0, <-!app_assoc. apply Permutation_app_head, Permutation_app_comm.
Qed.

(** Or it waits. *)
Lemma core_wait hand torn b w :
  Core hand torn w → w.(stopped) = false → b = true →
  Core hand torn (w {{ finishing := b; finishes := S w.(finishes); finishWaiters := w.(finishWaiters) ++ [w.(finishes)] }}).
Proof.
  intros [] Hs ->. split; simpl; try done.
  - intros Hst. congruence.
  - by rewrite seq_snoc, <-c_finishes0, <-!app_assoc.
Qed.

(** With nothing queued the end is asked of the stream at once. *)
Lemma inv_finish_idle w :
  Inv w → w.(phase) = Idle → w.(stopped) = false → w.(finished) = false → Inv (finish authorized w).
Proof.
  intros (torn & Hc & Hp & _) Hph Hs Hf. unfold phase_ok in Hp. rewrite Hph in Hp, Hc.
  destruct Hp as [Hst|(Hq & -> & Hfin)]; [congruence|]. rewrite Hf in Hfin.
  assert (finish authorized w = (native NFinish (w {{ finishing := true; finishes := S w.(finishes);
    finishWaiters := w.(finishWaiters) ++ [w.(finishes)] }})) {{ phase := InFinish }}) as ->.
  { clear Hc. destruct w. simpl in *. by subst. }
  exists []. split_and!; [|exact (conj eq_refl (conj Hq (conj Hs eq_refl)))|split; [|by left]].
  - apply (core_suspend [] [] InFinish), core_native; [by apply (core_wait [] [] true)|done|done].
  - intros Hx. pose proof (eq_trans (eq_sym Hf) Hx). done.
Qed.

(** With a record in hand, or the end already asked for, the promise waits. *)
Lemma inv_finish_busy w :
  Inv w → w.(phase) ≠ Idle → w.(stopped) = false → w.(finished) = false → Inv (finish authorized w).
Proof.
  intros (torn & Hc & Hp & He) Hph Hs Hf.
  assert (finish authorized w = w {{ finishing := true; finishes := S w.(finishes);
    finishWaiters := w.(finishWaiters) ++ [w.(finishes)] }}) as ->.
  { clear Hc Hp He. destruct w as [q ph st qb ps fin fd]. simpl in *. subst. destruct fin, ph; done. }
  exists torn. split_and!; [by apply core_wait| |].
  - revert Hp. unfold phase_ok. set (w' := w {{ finishing := _; finishes := _; finishWaiters := _ }}).
    change (phase w') with (phase w). destruct (phase w) as [|r|r off|r o|]; try done.
    intros (H1 & H2 & H3 & _). exact (conj H1 (conj H2 (conj H3 eq_refl))).
  - destruct He as [_ He]. split; [|exact He]. intros Hx. pose proof (eq_trans (eq_sym Hf) Hx). done.
Qed.

Lemma inv_finish w : Inv w → Inv (finish authorized w).
Proof.
  intros Hw. pose proof Hw as (torn & Hc & Hp & He). destruct (stopped w) eqn:Hs.
  { assert (finish authorized w = w {{ finishes := S w.(finishes); resolved := w.(resolved) ++ [w.(finishes)] }}) as ->
      by (clear Hc Hp He Hw; destruct w; simpl in *; by subst).
    exists torn. split_and!; [by apply core_resolve|exact Hp|exact He]. }
  destruct (finished w) eqn:Hf.
  { assert (finish authorized w = w {{ finishes := S w.(finishes); resolved := w.(resolved) ++ [w.(finishes)] }}) as ->
      by (clear Hc Hp He Hw; destruct w; simpl in *; by subst).
    exists torn. split_and!; [by apply core_resolve|exact Hp|exact He]. }
  destruct (phase w) eqn:Hph; [by apply inv_finish_idle|apply inv_finish_busy; congruence..].
Qed.

Lemma inv_new : Inv new_writer.
Proof.
  exists []. split_and!; [|right; done|split; [done|intros H; by apply not_elem_of_nil in H]].
  split; simpl; try done; [by left|intros H; by apply not_elem_of_nil in H].
Qed.

Lemma inv_event w e : Inv w → Inv (writer_event authorized maxQueuedBytes w e).
Proof.
  destruct e; [apply inv_enqueue|apply inv_enqueue|apply inv_onAbort|apply inv_abort|apply inv_finish|apply inv_resume].
Qed.

Lemma writer_inv_run evs w : Inv w → Inv (run_writer authorized maxQueuedBytes evs w).
Proof. revert w. induction evs as [|e evs IH]; intros w Hw; [done|]. by apply IH, inv_event. Qed.
End invariant.

(** ** The writer comes to rest *)

(** What [drain] has left to await, an upper bound. *)
Definition remaining (p : Phase) : nat :=
  match p with
  | Idle => 0
  | InPriority r => length r.(w_bytes) + 4
  | InSlice r offset => length r.(w_bytes) - offset + 3
  | Returning _ _ => 2
  | InFinish => 1
  end.

Definition queue_work (rs : list PendingWrite) : nat := sum_list_with (λ r, length r.(w_bytes) + 5)%nat rs.

Definition work (w : Writer) : nat :=
  remaining w.(phase) + queue_work w.(queue) + (if w.(finished) then 0 else 1).

Section rest.
Context (authorized : nat → bool) (maxQueuedBytes : Z) (Hmax : 0 <= maxQueuedBytes).

Lemma failConnection_queue w : (queue_work (failConnection w).(queue) <= queue_work w.(queue))%nat.
Proof. unfold failConnection. destruct (stopped w); [done|]. simpl. lia. Qed.

Lemma stopStream_queue f w : (queue_work (stopStream f w).(queue) <= queue_work w.(queue))%nat.
Proof. unfold stopStream. destruct (stopped w); [done|]. simpl. lia. Qed.

Lemma write_from_work r offset w :
  let w' := write_from authorized r offset w in
  (remaining w'.(phase) < length r.(w_bytes) - offset + 4)%nat ∧
  ((offset < length r.(w_bytes))%nat → (remaining w'.(phase) < length r.(w_bytes) - offset + 3)%nat) ∧
  (queue_work w'.(queue) <= queue_work w.(queue))%nat ∧ w'.(finished) = w.(finished).
Proof.
  unfold write_from. pose proof slice_bytes_pos. destruct (Nat.leb_spec (length r.(w_bytes)) offset); [simpl; split_and!; first [done|lia]|].
  destruct (stopped w); [simpl; split_and!; first [done|lia]|]. destruct (authorized (ticks w)); simpl negb; cbv iota.
  - simpl. split_and!; first [done|lia].
  - destruct (failConnection_frame (tick w)) as (_ & _ & Hf & _).
    pose proof (failConnection_queue (tick w)). simpl in *. split_and!; first [done|lia].
Qed.

Lemma work_suspend p w :
  work (suspend p w) = (remaining p + queue_work w.(queue) + (if w.(finished) then 0 else 1))%nat.
Proof. done. Qed.

Lemma drain_loop_work w :
  w.(finished) = false → (work (drain_loop authorized w) <= queue_work w.(queue) + 2)%nat.
Proof.
  intros Hf. unfold drain_loop. destruct (stopped w).
  { rewrite work_suspend, Hf. simpl. lia. }
  destruct (queue w) as [|r rest] eqn:Hq.
  { destruct (_ && _); rewrite work_suspend; [change (queue (native NFinish w)) with (queue w); change (finished (native NFinish w)) with (finished w)|];
      rewrite Hq, Hf; simpl; lia. }
  destruct (authorized (ticks w)); simpl negb; cbv iota.
  - set (w1 := tick _). assert (queue_work w1.(queue) = queue_work rest ∧ w1.(finished) = false) as [Hw1 Hf1] by done. clearbody w1.
    destruct (prioritySet w1).
    + destruct (write_from_work r 0 w1) as (H1 & _ & H3 & H4). unfold work. rewrite H4, Hf1. simpl in *. lia.
    + rewrite work_suspend. change (queue (native ?c ?x)) with (queue x). change (finished (native ?c ?x)) with (finished x).
      change (queue (w1 {{ prioritySet := true }})) with (queue w1).
      change (finished (w1 {{ prioritySet := true }})) with (finished w1). rewrite Hw1, Hf1. simpl. lia.
  - destruct (failConnection_frame (tick w)) as (_ & _ & Hfin & _). pose proof (failConnection_queue (tick w)) as Hle.
    rewrite work_suspend, Hfin. change (finished (tick w)) with (finished w).
    change (queue (tick w)) with (queue w) in Hle. rewrite Hf. rewrite Hq in Hle. simpl in *. lia.
Qed.

Lemma resume_work ok w :
  Inv maxQueuedBytes w → w.(phase) ≠ Idle → (work (resume authorized ok w) < work w)%nat.
Proof.
  intros (torn & _ & Hp & He) Hi.
  assert (w.(finished) = false) as Hf by (destruct (finished w) eqn:Hf; [|done]; by destruct (proj1 He Hf)).
  assert (work w = remaining w.(phase) + queue_work w.(queue) + 1)%nat as -> by (unfold work; by rewrite Hf).
  assert (∀ r f, (work (suspend Idle (stopStream f (settle r dropped w))) <= queue_work w.(queue) + 1)%nat) as Hstop.
  { intros r f. pose proof (stopStream_queue f (settle r dropped w)) as Hq.
    destruct (stopStream_frame f (settle r dropped w)) as (_ & _ & Hfin & _). rewrite work_suspend, Hfin.
    change (finished (settle r dropped w)) with (finished w). change (queue (settle r dropped w)) with (queue w) in Hq.
    rewrite Hf. cbn [remaining]. lia. }
  assert (∀ r o, (work (drain_loop authorized (settle r o w)) <= queue_work w.(queue) + 2)%nat) as Hloop
    by (intros r o; by apply (drain_loop_work (settle r o w))).
  unfold resume. unfold phase_ok in Hp. destruct (phase w) as [|r|r off|r o|] eqn:Hph; [done| | | |]; simpl remaining.
  - destruct ok; simpl negb; cbv iota; [|specialize (Hstop r stream_lost); lia].
    destruct (stopped w); [specialize (Hloop r dropped); lia|].
    destruct (write_from_work r 0 w) as (H1 & _ & H3 & H4). unfold work. rewrite H4, Hf. lia.
  - destruct ok; [|rewrite work_suspend, Hf; simpl; lia].
    destruct (write_from_work r off w) as (H1 & H2 & H3 & H4). unfold work. rewrite H4, Hf.
    destruct (decide (off < length r.(w_bytes))%nat) as [Hlt|Hge]; [specialize (H2 Hlt); lia|].
    unfold write_from. rewrite (proj2 (Nat.leb_le _ _)) by lia. change (phase (suspend ?p ?x)) with p.
    change (queue (suspend ?p ?x)) with (queue x). simpl. lia.
  - destruct o; [specialize (Hloop r sent); lia|specialize (Hloop r dropped); lia|specialize (Hstop r stream_lost); lia].
  - rewrite work_suspend. change (queue (resolveFinishWaiters ?x)) with (queue x).
    change (queue (w {{ finished := true }})) with (queue w). simpl. lia.
Qed.

Lemma idle_rests oks w :
  w.(phase) = Idle → run_writer authorized maxQueuedBytes (Settle <$> oks) w = w.
Proof.
  intros Hi. induction oks as [|ok oks IH]; [done|]. cbn [fmap list_fmap run_writer foldl writer_event].
  assert (resume authorized ok w = w) as -> by (unfold resume; by rewrite Hi). exact IH.
Qed.

Lemma rests oks w :
  Inv maxQueuedBytes w → (work w <= length oks)%nat →
  (run_writer authorized maxQueuedBytes (Settle <$> oks) w).(phase) = Idle.
Proof.
  revert w. induction oks as [|ok oks IH]; intros w Hw Hlen.
  - simpl in *. unfold work in Hlen. destruct (phase w); simpl in *; lia || done.
  - assert (w.(phase) = Idle ∨ w.(phase) ≠ Idle) as [Hi|Hne] by (destruct (phase w); by (left + right)).
    + by rewrite idle_rests.
    + cbn [fmap list_fmap run_writer foldl writer_event]. apply IH; [by apply inv_resume|].
      pose proof (resume_work ok w Hw Hne). simpl in Hlen. lia.
Qed.

(** C40: the writer always comes to rest, and its end with it.  From any state a
    writer reaches, once the native calls outstanding settle, well or not, and
    no more often than [work] counts, [drain] is not suspended any more, no
    record is queued, no promise of [finish] waits, and a finish that was asked
    for was either issued or the writer has stopped. *)
Theorem writer_comes_to_rest evs oks :
  let w := run_writer authorized maxQueuedBytes evs new_writer in
  (work w <= length oks)%nat →
  let w' := run_writer authorized maxQueuedBytes (Settle <$> oks) w in
  w'.(phase) = Idle ∧ w'.(queue) = [] ∧ w'.(finishWaiters) = [] ∧
  (w'.(finishing) = true → w'.(finished) = true ∨ w'.(stopped) = true).
Proof.
  intros w Hlen w'. assert (Inv maxQueuedBytes w) as Hw by (by apply writer_inv_run, inv_new).
  assert (Inv maxQueuedBytes w') as (torn & Hc & Hp & He1 & _) by (by apply writer_inv_run).
  assert (w'.(phase) = Idle) as Hi by (by apply rests).
  unfold phase_ok in Hp. rewrite Hi in Hp. split; [done|]. destruct Hp as [Hs|(Hq & _ & Hf)].
  - destruct (c_stopped _ _ _ _ Hc Hs) as [Hq Hw2]. split_and!; [done..|by right].
  - split_and!; [done| |intros Hfin; left; congruence].
    destruct (finishWaiters w') eqn:Hfw; [done|]. exfalso.
    assert (w'.(finishing) = true) as Hfin by (apply (c_waiters _ _ _ _ Hc); by rewrite Hfw).
    destruct He1 as (_ & _ & _ & Hn); congruence.
Qed.
End rest.

(** ** What reaches the stream *)

Section carried.
Context (authorized : nat → bool) (maxQueuedBytes : Z).

Lemma stopStream_stopped f w : w.(stopped) = true → stopStream f w = w.
Proof. unfold stopStream. by intros ->. Qed.

Lemma drain_loop_stopped w : w.(stopped) = true → drain_loop authorized w = suspend Idle w.
Proof. unfold drain_loop. by intros ->. Qed.

Lemma write_from_stopped r offset w : w.(stopped) = true → (write_from authorized r offset w).(calls) = w.(calls).
Proof. unfold write_from. intros ->. by destruct (_ <=? _)%nat. Qed.

(** A writer that stopped makes no native call any more. *)
Lemma stopped_is_silent w e :
  w.(stopped) = true → (writer_event authorized maxQueuedBytes w e).(calls) = w.(calls).
Proof.
  intros Hs. destruct e as [f sg|b sg|i| | |ok]; cbn [writer_event].
  - unfold enqueue. change (stopped (issue ?r w)) with (stopped w). by rewrite Hs.
  - unfold enqueue. change (stopped (issue ?r w)) with (stopped w). by rewrite Hs.
  - unfold onAbort. by repeat case_match.
  - unfold abort. by rewrite Hs.
  - unfold finish. change (stopped (w {{ finishes := S (finishes w) }})) with (stopped w). by rewrite Hs.
  - unfold resume. destruct (phase w) as [|r|r off|r []|]; [done| | | | | |done].
    + destruct ok; simpl negb; cbv iota; [rewrite Hs; by rewrite drain_loop_stopped|by rewrite stopStream_stopped].
    + destruct ok; [by apply write_from_stopped|done].
    + by rewrite drain_loop_stopped.
    + by rewrite drain_loop_stopped.
    + by rewrite stopStream_stopped.
Qed.

(** The records sent only grow, by the one the event sends. *)
Definition sends_record (w : Writer) (e : WriterEvent) : list PendingWrite :=
  match e with
  | Send frame sg => [{| w_id := w.(sends); w_bytes := framed frame; w_signal := bool_decide (sg ≠ None) |}]
  | SendRaw b sg => [{| w_id := w.(sends); w_bytes := b; w_signal := bool_decide (sg ≠ None) |}]
  | _ => []
  end.

Lemma issued_stop f w : (stopStream f w).(issued) = w.(issued).
Proof. unfold stopStream. by destruct (stopped w). Qed.
Lemma issued_fail w : (failConnection w).(issued) = w.(issued).
Proof. unfold failConnection. by destruct (stopped w). Qed.
Lemma issued_write_from r offset w : (write_from authorized r offset w).(issued) = w.(issued).
Proof. unfold write_from. repeat case_match; try done. apply (issued_fail (tick w)). Qed.
Lemma issued_drain_loop w : (drain_loop authorized w).(issued) = w.(issued).
Proof.
  unfold drain_loop. repeat case_match; try done; [apply (issued_fail (tick w))|by rewrite issued_write_from].
Qed.
Lemma issued_drain w : (drain authorized w).(issued) = w.(issued).
Proof. unfold drain. destruct (_ || _); [done|apply issued_drain_loop]. Qed.

Lemma issued_refuse r w : (settle r dropped (issue r w)).(issued) = w.(issued) ++ [r].
Proof. done. Qed.

Lemma issued_enqueue b sg w :
  (enqueue authorized maxQueuedBytes b sg w).(issued) =
    w.(issued) ++ [{| w_id := w.(sends); w_bytes := b; w_signal := bool_decide (sg ≠ None) |}].
Proof.
  unfold enqueue. repeat case_match; try done.
  - by rewrite fail_issue, issued_refuse, issued_fail.
  - by rewrite stop_issue, issued_refuse, issued_stop.
  - by rewrite issued_drain.
Qed.

Lemma issued_event w e :
  (writer_event authorized maxQueuedBytes w e).(issued) = w.(issued) ++ sends_record w e.
Proof.
  destruct e as [f sg|b sg|i| | |ok]; cbn [writer_event sends_record]; rewrite ?app_nil_r.
  - apply issued_enqueue.
  - apply issued_enqueue.
  - unfold onAbort. by repeat case_match.
  - unfold abort. by destruct (_ || _).
  - unfold finish. set (w1 := w {{ finishes := _ }}). change (issued w) with (issued w1).
    destruct (_ || _); [done|]. destruct (finishing w1).
    + by destruct (finished w1).
    + trans (issued (drain authorized (w1 {{ finishing := true }}))); [by destruct (finished (drain _ _))|].
      by rewrite issued_drain.
  - unfold resume. destruct (phase w) as [|r|r off|r []|]; try done.
    + destruct ok; simpl negb; cbv iota; [destruct (stopped w)|apply (issued_stop stream_lost (settle r dropped w))].
      * apply (issued_drain_loop (settle r dropped w)).
      * apply issued_write_from.
    + destruct ok; [apply issued_write_from|done].
    + apply (issued_drain_loop (settle r sent w)).
    + apply (issued_drain_loop (settle r dropped w)).
    + apply (issued_stop stream_lost (settle r dropped w)).
Qed.
End carried.

(** C39: the stream carries whole records, in order, within the bounds.
    Whatever is sent, aborted and settled: the bytes handed to the native
    stream are the records reported sent, in the order of the sends, and then
    at most a prefix of one record, in hand or dropped; once the end of the
    stream was asked for there is no such prefix and nothing is left to send;
    every send is settled once or still held; what is queued is counted and
    within the limit, a native write takes at most one slice; and a writer that
    stopped makes no call any more. *)
Theorem whole_records_in_order authorized maxQueuedBytes evs :
  0 <= maxQueuedBytes →
  let w := run_writer authorized maxQueuedBytes evs new_writer in
  (∃ torn, written w.(calls) = bytes_of (sent_records w.(outcomes)) ++ torn ∧
     (torn = [] ∨ ∃ r, torn `prefix_of` r.(w_bytes) ∧ (r ∈ in_hand w.(phase) ∨ (r, dropped) ∈ w.(outcomes))) ∧
     (NFinish ∈ w.(calls) → torn = [] ∧ in_hand w.(phase) = [] ∧ w.(queue) = [] ∧ w.(stopped) = false)) ∧
  sent_records w.(outcomes) `sublist_of` w.(issued) ∧
  (w_id <$> w.(issued) = seq 0 w.(sends) ∧ w.(outcomes).*1 ++ in_hand w.(phase) ++ w.(queue) ≡ₚ w.(issued)) ∧
  (w.(queuedBytes) = sum_by (λ r, blen r.(w_bytes)) w.(queue) ∧ w.(queuedBytes) <= maxQueuedBytes ∧
   Forall slice_ok w.(calls)) ∧
  (w.(stopped) = true → ∀ e, (writer_event authorized maxQueuedBytes w e).(calls) = w.(calls)).
Proof.
  intros Hmax w. assert (Inv maxQueuedBytes w) as (torn & Hc & Hp & He1 & He2) by (by apply writer_inv_run, inv_new).
  pose proof Hc as [Hb Hbd _ Hw Ht Hids Hiss Hord _ _ _ Hsl]. split_and!; [| |done..|].
  - exists torn. split_and!; [done..|]. intros Hn. unfold phase_ok in Hp. destruct (He2 Hn) as [Hph|Hfin].
    + rewrite Hph in Hp |- *. destruct Hp as (H1 & H2 & H3 & _). exact (conj H1 (conj eq_refl (conj H2 H3))).
    + destruct (He1 Hfin) as (Hph & Hs & _). rewrite Hph in Hp |- *. destruct Hp as [Hx|(H1 & H2 & _)]; [congruence|].
      exact (conj H2 (conj eq_refl (conj H1 Hs))).
  - etrans; [|exact Hord]. by apply sublist_inserts_r.
  - intros Hs e. by apply stopped_is_silent.
Qed.

(** ** The reader *)

(** The read half of a native stream: [None] for a rejection, that is a reset,
    a lost connection or the end of the stream. *)
Class StreamRecv (R : Type) := readExact : R → nat → option bytes * R.

(** The stream that has received these bytes and then the end. *)
#[export] Instance received_bytes : StreamRecv bytes :=
  λ b n, if (n <=? length b)%nat then (Some (take n b), drop n b) else (None, b).

Inductive ReadResult := Frame (frame : bytes) | Violated | Rejected | NoFuel.

Section reader.
Context {R : Type} `{StreamRecv R} (maxRecordBytes : Z).

(** The loop over the slices of a body; every turn of it reads a byte at least. *)
Fixpoint read_body (fuel len : nat) (body : bytes) (r : R) : ReadResult * R :=
  if (len <=? length body)%nat then (Frame body, r)
  else match fuel with
  | O => (NoFuel, r)
  | S fuel =>
      let want := Nat.min STREAM_RECORD_SLICE_BYTES (len - length body) in
      match readExact r want with
      | (None, r) => (Rejected, r)
      | (Some piece, r) =>
          if negb (length piece =? want)%nat then (Violated, r) else read_body fuel len (body ++ piece) r
      end
  end.

Definition read (r : R) : ReadResult * R :=
  match readExact r LENGTH_PREFIX_BYTES with
  | (None, r) => (Rejected, r)
  | (Some prefix, r) =>
      if negb (length prefix =? LENGTH_PREFIX_BYTES)%nat then (Violated, r)
      else
        let len := readUInt32BE prefix in
        if (len =? 0) || (maxRecordBytes <? len) then (Violated, r)
        else read_body (Z.to_nat len) (Z.to_nat len) [] r
  end.

(** The owner's loop: frames until a read fails. *)
Fixpoint frames_read (fuel : nat) (r : R) : list bytes :=
  match fuel with
  | O => []
  | S fuel => match read r with (Frame f, r) => f :: frames_read fuel r | _ => [] end
  end.

Lemma read_body_total fuel len body r :
  (len - length body <= fuel)%nat → (read_body fuel len body r).1 ≠ NoFuel.
Proof.
  revert body r. induction fuel as [|fuel IH]; intros body r Hf; simpl.
  - rewrite (proj2 (Nat.leb_le _ _)) by lia. done.
  - destruct (Nat.leb_spec len (length body)) as [|Hlt]; [done|].
    destruct (readExact r _) as [[piece|] r']; [|done]. destruct (Nat.eqb_spec (length piece) (Nat.min STREAM_RECORD_SLICE_BYTES (len - length body))) as [He|]; [|done].
    simpl. apply IH. rewrite length_app, He. pose proof slice_bytes_pos. lia.
Qed.

(** The fuel is enough: a read comes to one of the three ends of the source. *)
Lemma read_total r : (read r).1 ≠ NoFuel.
Proof.
  unfold read. destruct (readExact r _) as [[prefix|] r']; [|done]. repeat case_match; try done.
  apply read_body_total. simpl. lia.
Qed.
End reader.

(** [StreamRawReader.read]: what the native read is asked for, and [null] at
    the end of the stream. *)
Definition raw_read_size (maxBytes : Z) : Z := Z.max 1 (Z.min maxBytes STREAM_RAW_READ_BYTES).
Definition raw_read_result (b : bytes) : option bytes := match b with [] => None | _ => Some b end.

(** A raw read never asks for nothing and never for more than the buffer. *)
Lemma raw_read_size_bounds n : 1 <= raw_read_size n <= STREAM_RAW_READ_BYTES.
Proof. unfold raw_read_size, STREAM_RAW_READ_BYTES. lia. Qed.

(** ** The prefix *)

Lemma length_writeUInt32BE n : length (writeUInt32BE n) = LENGTH_PREFIX_BYTES.
Proof. done. Qed.

Lemma length_framed f : length (framed f) = (LENGTH_PREFIX_BYTES + length f)%nat.
Proof. unfold framed. rewrite length_app. done. Qed.

(** ** Reading what was framed *)

Section roundtrip.
Context (maxRecordBytes : Z) (Hmax : maxRecordBytes < 2 ^ 32).

(** What the reader takes: a body of one byte at least, within its limit. *)
Definition readable (f : bytes) : Prop := 0 < blen f <= maxRecordBytes.

Lemma readExact_app (b rest : bytes) n : length b = n → readExact (b ++ rest) n = (Some b, rest).
Proof.
  intros <-. unfold readExact, received_bytes. rewrite (proj2 (Nat.leb_le _ _)) by (rewrite length_app; lia).
  by rewrite take_app_length, drop_app_length.
Qed.

Lemma readExact_short (b : bytes) n : (length b < n)%nat → readExact b n = (None, b).
Proof. intros Hlt. unfold readExact, received_bytes. by rewrite (proj2 (Nat.leb_gt _ _)) by lia. Qed.

Lemma read_body_whole fuel (body rest more : bytes) :
  (length rest <= fuel)%nat →
  read_body fuel (length body + length rest) body (rest ++ more) = (Frame (body ++ rest), more).
Proof.
  revert body rest. induction fuel as [|fuel IH]; intros body rest Hf.
  - destruct rest; simpl in *; [|lia]. rewrite (proj2 (Nat.leb_le _ _)) by lia. by rewrite app_nil_r.
  - cbn [read_body]. destruct (Nat.leb_spec (length body + length rest) (length body)) as [Hle|Hgt].
    { destruct rest; simpl in *; [by rewrite app_nil_r|lia]. }
    replace (length body + length rest - length body)%nat with (length rest) by lia.
    set (want := Nat.min _ _). pose proof slice_bytes_pos. assert (0 < want <= length rest)%nat as Hwant by lia.
    assert (length (take want rest) = want) as Hlen by (rewrite length_take; lia).
    assert (rest ++ more = take want rest ++ drop want rest ++ more) as -> by (by rewrite app_assoc, take_drop).
    rewrite (readExact_app _ _ want Hlen), Hlen, Nat.eqb_refl. simpl negb. cbv iota.
    specialize (IH (body ++ take want rest) (drop want rest)). rewrite <-app_assoc, take_drop in IH.
    rewrite length_app, length_drop, Hlen in IH. replace (length body + want + (length rest - want))%nat with (length body + length rest)%nat in IH by lia.
    apply IH. lia.
Qed.

Lemma read_framed f rest : readable f → read maxRecordBytes (framed f ++ rest) = (Frame f, rest).
Proof.
  intros [Hpos Hle]. unfold read, framed. rewrite <-app_assoc, (readExact_app _ _ _ (length_writeUInt32BE (blen f))), length_writeUInt32BE.
  rewrite Nat.eqb_refl. simpl negb. cbv iota. rewrite readUInt32BE_write by lia.
  rewrite (proj2 (Z.eqb_neq _ _)), (proj2 (Z.ltb_ge _ _)) by lia. simpl orb. cbv iota.
  unfold blen. rewrite Nat2Z.id. by apply (read_body_whole (length f) [] f rest).
Qed.

(** A record cut short is not delivered. *)
Lemma read_body_short fuel len (body rest : bytes) :
  (length body + length rest < len)%nat → (∀ f, (read_body fuel len body rest).1 ≠ Frame f).
Proof.
  revert body rest. induction fuel as [|fuel IH]; intros body rest Hlt f; simpl;
    rewrite (proj2 (Nat.leb_gt _ _)) by lia; [done|].
  unfold readExact at 1, received_bytes at 1. destruct (Nat.leb_spec (Nat.min STREAM_RECORD_SLICE_BYTES (len - length body)) (length rest)) as [Hle|]; [|done].
  rewrite length_take, Nat.min_l, Nat.eqb_refl by lia. simpl. apply IH. rewrite length_app, length_take, length_drop. lia.
Qed.

Lemma read_short f b : readable f → b `prefix_of` framed f → b ≠ framed f → ∀ g, (read maxRecordBytes b).1 ≠ Frame g.
Proof.
  intros Hf Hpre Hne g. assert (length b < length (framed f))%nat as Hlt.
  { pose proof (prefix_length _ _ Hpre). destruct (decide (length b = length (framed f))) as [He|]; [|lia].
    exfalso. apply Hne. by apply prefix_length_eq; [|lia]. }
  rewrite length_framed in Hlt. unfold read.
  destruct (decide (length b < LENGTH_PREFIX_BYTES)%nat) as [Hs|Hl]; [by rewrite readExact_short|].
  destruct Hpre as [k Hk]. unfold framed in Hk.
  assert (b = writeUInt32BE (blen f) ++ drop LENGTH_PREFIX_BYTES b) as Hb.
  { rewrite <-(take_drop LENGTH_PREFIX_BYTES b) at 1. f_equal.
    apply (f_equal (take LENGTH_PREFIX_BYTES)) in Hk. rewrite take_app_le in Hk by done. rewrite take_app_le in Hk by lia.
    done. }
  set (body := drop LENGTH_PREFIX_BYTES b) in *. rewrite Hb, (readExact_app _ _ _ (length_writeUInt32BE (blen f))), length_writeUInt32BE, Nat.eqb_refl. simpl negb. cbv iota.
  destruct Hf as [Hpos Hle]. rewrite readUInt32BE_write by lia.
  rewrite (proj2 (Z.eqb_neq _ _)), (proj2 (Z.ltb_ge _ _)) by lia. simpl orb. cbv iota.
  apply read_body_short. unfold blen. rewrite Nat2Z.id. simpl. unfold body. rewrite length_drop. lia.
Qed.

Lemma frames_read_nothing fuel (b : bytes) :
  (∀ g, (read maxRecordBytes b).1 ≠ Frame g) → frames_read maxRecordBytes fuel b = [].
Proof.
  intros Hb. destruct fuel as [|fuel]; [done|]. cbn [frames_read].
  destruct (read maxRecordBytes b) as [[f| | |] r]; try done. by destruct (Hb f).
Qed.

Lemma frames_read_end fuel : frames_read maxRecordBytes fuel ([] : bytes) = [].
Proof. apply frames_read_nothing. intros g. unfold read. by rewrite readExact_short by (unfold LENGTH_PREFIX_BYTES; simpl; lia). Qed.

Lemma frames_read_framed fs rest fuel :
  Forall readable fs →
  frames_read maxRecordBytes (length fs + fuel) (concat (framed <$> fs) ++ rest) = fs ++ frames_read maxRecordBytes fuel rest.
Proof.
  induction 1 as [|f fs Hf Hfs IH]; [done|]. rewrite fmap_cons. cbn [concat length Nat.add frames_read].
  rewrite <-app_assoc, read_framed by done. cbn [app]. by rewrite IH.
Qed.

Lemma length_frames fs : (length fs <= length (concat (framed <$> fs)))%nat.
Proof.
  induction fs as [|f fs IH]; [done|]. rewrite fmap_cons. cbn [concat length]. rewrite length_app, length_framed.
  unfold LENGTH_PREFIX_BYTES. lia.
Qed.

(** The frames of what a stream carried. *)
Definition received (b : bytes) : list bytes := frames_read maxRecordBytes (S (length b)) b.

(** Whole frames, then at most a cut one. *)
Lemma received_cut fs f cut :
  Forall readable fs → readable f → cut `prefix_of` framed f →
  received (concat (framed <$> fs) ++ cut) = fs ++ (if decide (cut = framed f) then [f] else []).
Proof.
  intros Hfs Hf Hcut. unfold received. rewrite length_app. pose proof (length_frames fs) as Hl.
  replace (S (length (concat (framed <$> fs)) + length cut))%nat
    with (length fs + S (length (concat (framed <$> fs)) - length fs + length cut))%nat by lia.
  rewrite frames_read_framed by done. f_equal. case_decide as Hc; [|by apply frames_read_nothing, (read_short f)].
  subst cut. cbn [frames_read]. rewrite <-(app_nil_r (framed f)) at 1. rewrite read_framed by done. by rewrite frames_read_end.
Qed.

(** The stream is used for frames the peer's reader takes. *)
Definition carries_frames (e : WriterEvent) : Prop :=
  match e with Send frame _ => readable frame | SendRaw _ _ => False | _ => True end.

Definition is_framed (r : PendingWrite) : Prop := ∃ f, readable f ∧ r.(w_bytes) = framed f.

Lemma issued_framed authorized maxQueuedBytes evs w :
  Forall carries_frames evs → Forall is_framed w.(issued) →
  Forall is_framed (run_writer authorized maxQueuedBytes evs w).(issued).
Proof.
  intros Hevs. revert w. induction Hevs as [|e evs He _ IH]; intros w Hw; [done|]. cbn [run_writer foldl]. apply IH.
  rewrite issued_event. apply Forall_app. split; [done|]. destruct e as [f sg|b sg|i| | |ok]; try done.
  apply Forall_singleton. by exists f.
Qed.

Lemma framed_records rs : Forall is_framed rs → ∃ fs, Forall readable fs ∧ w_bytes <$> rs = framed <$> fs.
Proof.
  induction 1 as [|r rs (f & Hf & Hr) _ (fs & Hfs & Hrs)]; [by exists []|]. exists (f :: fs).
  split; [by constructor|]. by rewrite !fmap_cons, Hr, Hrs.
Qed.
End roundtrip.

(** What one end sends the other end reads.  On a stream used for frames
    of one byte up to the reader's limit, the frames a reader takes off the
    bytes written so far are the frames reported sent, in the order they were
    sent, and at most one more, whose record was handed over whole but not
    reported; after the end of the stream was asked for they are exactly the
    frames reported sent. *)
Theorem sent_frames_are_read authorized maxQueuedBytes maxRecordBytes evs :
  0 <= maxQueuedBytes → maxRecordBytes < 2 ^ 32 → Forall (carries_frames maxRecordBytes) evs →
  let w := run_writer authorized maxQueuedBytes evs new_writer in
  ∃ extra,
    framed <$> received maxRecordBytes (written w.(calls)) = (w_bytes <$> sent_records w.(outcomes)) ++ extra ∧
    (extra = [] ∨ ∃ r, extra = [r.(w_bytes)] ∧ (r ∈ in_hand w.(phase) ∨ (r, dropped) ∈ w.(outcomes))) ∧
    (NFinish ∈ w.(calls) → extra = []).
Proof.
  intros Hmq Hmr Hevs w. assert (Inv maxQueuedBytes w) as (torn & Hc & Hp & He1 & He2) by (by apply writer_inv_run, inv_new).
  assert (Forall (is_framed maxRecordBytes) w.(issued)) as Hall by (by apply issued_framed).
  pose proof Hc as [_ _ _ Hw Ht _ Hiss Hord _ _ _ _].
  assert (∀ r, r ∈ in_hand w.(phase) ∨ (r, dropped) ∈ w.(outcomes) → is_framed maxRecordBytes r) as Hknown.
  { intros r Hr. rewrite Forall_forall in Hall. apply Hall. rewrite <-Hiss, !elem_of_app.
    destruct Hr as [Hr|Hr]; [by right; left|left]. apply list_elem_of_fmap. by exists (r, dropped). }
  assert (Forall (is_framed maxRecordBytes) (sent_records w.(outcomes))) as Hsent.
  { rewrite Forall_forall in *. intros r Hr. apply Hall. eapply elem_of_sublist; [|exact Hord]. rewrite elem_of_app. by left. }
  destruct (framed_records _ _ Hsent) as (fs & Hfs & Hrs).
  assert (NFinish ∈ w.(calls) → torn = []) as Hend.
  { intros Hn. unfold phase_ok in Hp. destruct (He2 Hn) as [Hph|Hfin]; [rewrite Hph in Hp; by destruct Hp|].
    destruct (He1 Hfin) as (Hph & Hs & _). rewrite Hph in Hp. destruct Hp as [Hx|(_ & Hx & _)]; [congruence|done]. }
  rewrite Hw. unfold bytes_of. rewrite Hrs. destruct Ht as [->|(r & Hpre & Hr)].
  - exists []. rewrite !app_nil_r. split_and!; [|by left|done]. f_equal. 
    unfold received. pose proof (length_frames fs).
    replace (S (length (concat (framed <$> fs)))) with (length fs + S (length (concat (framed <$> fs)) - length fs))%nat by lia.
    rewrite <-(app_nil_r (concat _)) at 2. rewrite frames_read_framed, frames_read_end by done. by rewrite app_nil_r.
  - destruct (Hknown r Hr) as (f & Hf & Hrf). rewrite Hrf in Hpre. rewrite (received_cut _ Hmr fs f torn) by done.
    rewrite fmap_app. case_decide as Hcut.
    + exists [framed f]. split_and!; [done|right; exists r; by rewrite Hrf|]. intros Hn. rewrite (Hend Hn) in Hcut.
      by apply (f_equal length) in Hcut; rewrite length_framed in Hcut.
    + exists []. split_and!; [done|by left|done].
Qed.

(** ** A concrete stream *)

(** Two frames are sent, the second while the first is being written; the end
    is asked for, and the native calls settle. *)
Definition demo_events : list WriterEvent :=
  [Send [1; 2; 3] None; Settle true; Send [4] (Some false); Finish; Settle true; Settle true; Settle true; Settle true;
   Settle true].

Definition always (_ : nat) : bool := true.

Lemma whole_records_in_order_witness :
  let w := run_writer always 100 demo_events new_writer in
  w.(finished) = true ∧ sent_records w.(outcomes) `sublist_of` w.(issued).
Proof. intros w. split; [vm_compute; reflexivity|]. apply (whole_records_in_order always 100 demo_events). lia. Defined.

Lemma sent_frames_are_read_witness :
  let w := run_writer always 100 demo_events new_writer in
  received 1000 (written w.(calls)) = [[1; 2; 3]; [4]] ∧
  ∃ extra, framed <$> received 1000 (written w.(calls)) = (w_bytes <$> sent_records w.(outcomes)) ++ extra ∧
    (extra = [] ∨ ∃ r, extra = [r.(w_bytes)] ∧ (r ∈ in_hand w.(phase) ∨ (r, dropped) ∈ w.(outcomes))) ∧
    (NFinish ∈ w.(calls) → extra = []).
Proof.
  intros w. split; [vm_compute; reflexivity|]. apply (sent_frames_are_read always 100 1000 demo_events); [lia|done|].
  repeat constructor; vm_compute; try reflexivity; intros [=].
Defined.

Lemma writer_comes_to_rest_witness :
  let w := run_writer always 100 (take 4 demo_events) new_writer in
  work w = 14%nat ∧ (run_writer always 100 (Settle <$> replicate 14 false) w).(phase) = Idle.
Proof.
  intros w. split; [vm_compute; reflexivity|].
  apply (writer_comes_to_rest always 100 ltac:(lia) (take 4 demo_events) (replicate 14 false)). vm_compute. lia.
Defined.
