(* ===== verification/BusDb.v ===== *)
(** * BusDb: the session bus's database rows (src/bridge/src/session-bus/bus-db.ts)

    Every store of the session bus is a list of records in one SQLite table,
    scoped by project and session, ordered by an autoincremented [seq].  SQLite
    is a class: a table has rows, an insertion and a deletion with their
    documented laws.  On top of it stand [readRecords] and [replaceRecords],
    which writes only the difference; the theorem says that the difference is
    enough. *)

From Stdlib Require Import Sorting.Sorted.
From S2P Require Import Prelude.

Local Open Scope Z_scope.

(** One store's rows: a session's, or a project's. *)
Record BusScope := { projectId : string; sessionId : option string }.

Record Row := { seq : Z; row_project : string; row_session : option string; record : string }.

#[export] Instance Row_eq_dec : EqDecision Row.
Proof. solve_decision. Defined.

(** [scopeWhere]: the rows a scope selects. *)
Definition scopeWhere (scope : BusScope) (r : Row) : bool :=
  match scope.(sessionId) with
  | None => bool_decide (r.(row_project) = scope.(projectId))
  | Some s => bool_decide (r.(row_project) = scope.(projectId)) && bool_decide (r.(row_session) = Some s)
  end.

(** A table of SQLite.  [rows] lists it by [seq]; an insertion takes a [seq]
    above every row's (AUTOINCREMENT) and a deletion removes the rows its
    WHERE clause selects. *)
Class SqlTable (T : Type) := {
  rows : T → list Row;
  insert_row : BusScope → string → T → T;
  delete_rows : (Row → bool) → T → T;
  rows_sorted : ∀ t, StronglySorted (λ a b, a.(seq) < b.(seq)) (rows t);
  rows_insert : ∀ scope text t, ∃ n,
    rows (insert_row scope text t) =
      rows t ++ [{| seq := n; row_project := scope.(projectId); row_session := scope.(sessionId); record := text |}];
  rows_delete : ∀ p t, rows (delete_rows p t) = filter (λ r, p r = false) (rows t) }.

(** [SELECT ... WHERE clause ORDER BY seq]. *)
Definition select `{SqlTable T} (scope : BusScope) (t : T) : list Row :=
  filter (λ r, scopeWhere scope r = true) (rows t).

(** [leadingRowsToDrop]: the first [drop] for which [stored] without its first
    [drop] rows is a prefix of [wanted]. *)
Definition aligned (stored wanted : list string) (drop : nat) : bool :=
  let overlap := (length stored - drop)%nat in
  if (length wanted <? overlap)%nat then false
  else forallb (λ i, bool_decide (stored !! (drop + i)%nat = wanted !! i)) (List.seq 0 overlap).

Fixpoint search_drop (fuel : nat) (stored wanted : list string) (drop : nat) : option nat :=
  match fuel with
  | O => None
  | S fuel' => if aligned stored wanted drop then Some drop else search_drop fuel' stored wanted (S drop)
  end.

Definition leadingRowsToDrop (stored wanted : list string) : option nat :=
  search_drop (S (length stored)) stored wanted 0.

Definition insert_all `{SqlTable T} (scope : BusScope) (texts : list string) (t : T) : T :=
  foldl (λ t text, insert_row scope text t) t texts.

Definition delete_seqs `{SqlTable T} (old : list Row) (t : T) : T :=
  foldl (λ t r, delete_rows (λ r', r'.(seq) =? r.(seq)) t) t old.

Definition replaceRecords `{SqlTable T} {A} (stringify : A → string) (scope : BusScope) (records : list A) (t : T) : T :=
  let wanted := stringify <$> records in
  let stored := select scope t in
  match leadingRowsToDrop (record <$> stored) wanted with
  | None => insert_all scope wanted (delete_rows (scopeWhere scope) t)
  | Some n => insert_all scope (drop (length stored - n) wanted) (delete_seqs (take n stored) t)
  end.

(** The newest [cap] rows of the scope, oldest first; a row that does not parse
    is skipped alone. *)
Definition readRecords `{SqlTable T} {A} (parse : string → option A) (scope : BusScope) (cap : nat) (t : T) : list A :=
  omap (λ r, parse r.(record)) (slice_last cap (select scope t)).

(** ** The alignment *)

Lemma aligned_spec stored wanted n :
  (n ≤ length stored)%nat → aligned stored wanted n = true → drop n stored `prefix_of` wanted.
Proof.
  intros Hn. unfold aligned. destruct (Nat.ltb_spec (length wanted) (length stored - n)) as [|Hle]; [done|].
  rewrite forallb_forall. intros Hall. exists (drop (length stored - n) wanted).
  apply list_eq. intros i. destruct (decide (i < length stored - n)%nat) as [Hi|Hi].
  - rewrite lookup_app_l by (rewrite length_drop; lia). rewrite lookup_drop.
    symmetry. apply (bool_decide_eq_true_1 _), Hall, in_seq. lia.
  - rewrite lookup_app_r by (rewrite length_drop; lia). rewrite lookup_drop, length_drop. f_equal. lia.
Qed.

Lemma aligned_all stored wanted : aligned stored wanted (length stored) = true.
Proof. unfold aligned. by rewrite Nat.sub_diag. Qed.

Lemma search_drop_spec stored wanted fuel n :
  (length stored ≤ n + fuel - 1)%nat → (n ≤ length stored)%nat → (0 < fuel)%nat →
  ∃ d, search_drop fuel stored wanted n = Some d ∧ (n ≤ d ≤ length stored)%nat ∧ aligned stored wanted d = true.
Proof.
  revert n. induction fuel as [|fuel IH]; intros n Hf Hn Hpos; [lia|]. simpl.
  destruct (aligned stored wanted n) eqn:Ha; [by exists n|].
  destruct (decide (n = length stored)) as [->|Hne]; [by rewrite aligned_all in Ha|].
  destruct (IH (S n)) as (d & Hd & ? & ?); [lia..|]. exists d. split_and!; [done|lia..|done].
Qed.

(** Some number of leading rows always aligns, so no store is ever rewritten
    by the other branch. *)
Lemma leadingRowsToDrop_Some stored wanted :
  ∃ d, leadingRowsToDrop stored wanted = Some d ∧ (d ≤ length stored)%nat ∧ drop d stored `prefix_of` wanted.
Proof.
  destruct (search_drop_spec stored wanted (S (length stored)) 0) as (d & Hd & [_ Hle] & Ha); [lia..|].
  exists d. split_and!; [done..|]. by apply aligned_spec.
Qed.

Lemma sorted_filter (P : Row → Prop) `{∀ r, Decision (P r)} l :
  StronglySorted (λ a b, a.(seq) < b.(seq)) l → StronglySorted (λ a b, a.(seq) < b.(seq)) (filter P l).
Proof.
  induction 1 as [|x l Hl IH Hx]; [constructor|].
  rewrite filter_cons. case_decide; [|done]. constructor; [done|]. by apply Forall_filter_2.
Qed.

Section table.
Context `{SqlTable T}.
Implicit Types t : T.

Lemma rows_insert_all scope texts t :
  ∃ new, rows (insert_all scope texts t) = rows t ++ new ∧ record <$> new = texts ∧
    Forall (λ r, scopeWhere scope r = true) new.
Proof.
  revert t. induction texts as [|x texts IH]; intros t; simpl.
  { exists []. by rewrite app_nil_r. }
  destruct (IH (insert_row scope x t)) as (new & -> & Hr & Hall). destruct (rows_insert scope x t) as [n ->].
  eexists (_ :: new). rewrite <-app_assoc. split_and!; [done|by rewrite fmap_cons, Hr|]. constructor; [|done].
  unfold scopeWhere. simpl. destruct (sessionId scope); by rewrite !bool_decide_eq_true_2.
Qed.

(** The rows that remain when those of [old] are deleted one by one. *)
Lemma rows_delete_seqs old t :
  rows (delete_seqs old t) = filter (λ r, Forall (λ o, (r.(seq) =? o.(seq)) = false) old) (rows t).
Proof.
  revert t. induction old as [|o old IH]; intros t; simpl.
  { symmetry. by apply filter_all. }
  change (foldl _ ?u old) with (delete_seqs old u). rewrite IH, rows_delete, list_filter_filter.
  apply filter_ext_in. intros r _. rewrite Forall_cons. tauto.
Qed.

(** Rows with the same [seq] are the same row. *)
Lemma sorted_seq_inj l r r' :
  StronglySorted (λ a b, a.(seq) < b.(seq)) l → r ∈ l → r' ∈ l → r.(seq) = r'.(seq) → r = r'.
Proof.
  induction 1 as [|x l _ IH Hx]; [by intros ?%not_elem_of_nil|]. rewrite Forall_forall in Hx.
  intros [->|Hr]%elem_of_cons [->|Hr']%elem_of_cons Heq; try done; try (by apply IH).
  - specialize (Hx r' Hr'). lia.
  - specialize (Hx r Hr). lia.
Qed.

Lemma sorted_NoDup l : StronglySorted (λ a b : Row, a.(seq) < b.(seq)) l → NoDup l.
Proof.
  induction 1 as [|x l _ IH Hx]; constructor; [|done]. intros Hin.
  rewrite Forall_forall in Hx. specialize (Hx x Hin). lia.
Qed.

Lemma filter_take_drop n (l : list Row) :
  NoDup l → filter (λ r, r ∉ take n l) l = drop n l.
Proof.
  intros Hnd. rewrite <-(take_drop n l) in Hnd. apply NoDup_app in Hnd as (_ & Hd & _).
  trans (filter (λ r, r ∉ take n l) (take n l ++ drop n l)); [by rewrite take_drop|].
  rewrite filter_app, (filter_none _ (take n l)), (filter_all _ (drop n l)).
  - done.
  - intros x Hx Hin. by apply (Hd x).
  - intros x Hx Hn. by apply Hn.
Qed.

Lemma select_sorted scope t : StronglySorted (λ a b, a.(seq) < b.(seq)) (select scope t).
Proof. apply sorted_filter, rows_sorted. Qed.

(** Deleting the first rows of a scope by [seq] deletes just those. *)
Lemma filter_delete_seqs (P : Row → Prop) `{∀ r, Decision (P r)} scope n t :
  filter P (rows (delete_seqs (take n (select scope t)) t)) =
    filter (λ r, r ∉ take n (select scope t)) (filter P (rows t)).
Proof.
  rewrite rows_delete_seqs, !list_filter_filter. apply filter_ext_in. intros r Hr.
  rewrite Forall_forall. split.
  - intros [HP Ho]. split; [|done]. intros Hin. specialize (Ho r Hin). lia.
  - intros [Hin HP]. split; [done|]. intros o Hout. apply Z.eqb_neq. intros Heq. apply Hin.
    replace r with o; [done|]. apply (sorted_seq_inj (rows t)); [apply rows_sorted| |done|done].
    apply elem_of_take in Hout as (i & Hi & _). apply list_elem_of_lookup_2 in Hi.
    by apply list_elem_of_filter in Hi as [_ ?].
Qed.

(** What the difference leaves: in scope the records, out of it what was there. *)
Lemma rows_replaceRecords {A} (stringify : A → string) scope records t :
  (record <$> select scope (replaceRecords stringify scope records t) = stringify <$> records) ∧
  filter (λ r, scopeWhere scope r = false) (rows (replaceRecords stringify scope records t)) =
    filter (λ r, scopeWhere scope r = false) (rows t).
Proof.
  unfold replaceRecords. set (wanted := stringify <$> records).
  destruct (leadingRowsToDrop_Some (record <$> select scope t) wanted) as (n & -> & Hn & [tail Htail]).
  rewrite length_fmap in Hn. rewrite <-fmap_drop in Htail.
  destruct (rows_insert_all scope (drop (length (select scope t) - n) wanted) (delete_seqs (take n (select scope t)) t))
    as (new & Hrows & Hrec & Hnew). rewrite Forall_forall in Hnew. split.
  - unfold select at 1. rewrite Hrows, filter_app, (filter_all _ new) by done.
    rewrite (filter_delete_seqs _ scope). rewrite filter_take_drop.
    + fold (select scope t). rewrite fmap_app, Hrec, Htail.
      rewrite drop_app_length'; [done|]. rewrite length_fmap, length_drop. done.
    + apply sorted_NoDup, select_sorted.
  - rewrite Hrows, filter_app, (filter_none _ new).
    2: { intros r Hr. rewrite Hnew by done. done. }
    rewrite app_nil_r, (filter_delete_seqs _ scope). apply filter_all.
    intros r [Hf _]%list_elem_of_filter Hin. apply elem_of_take in Hin as (i & Hi & _).
    apply list_elem_of_lookup_2, list_elem_of_filter in Hi as [Ht _]. congruence.
Qed.

Context {A : Type} (stringify : A → string) (parse : string → option A).

(** A store written back is exactly its records.  [replaceRecords] writes
    only the difference to the rows of the scope, yet afterwards, whatever the
    scope held, the scope's rows are the given records in the given order, the
    rows of every other scope are the ones that were there, and, where parsing
    undoes printing, reading the scope back gives the newest [cap] records. *)
Theorem replaceRecords_exact scope records cap t :
  (∀ x, x ∈ records → parse (stringify x) = Some x) →
  let t' := replaceRecords stringify scope records t in
  record <$> select scope t' = stringify <$> records ∧
  filter (λ r, scopeWhere scope r = false) (rows t') = filter (λ r, scopeWhere scope r = false) (rows t) ∧
  readRecords parse scope cap t' = slice_last cap records.
Proof.
  intros Hparse t'. destruct (rows_replaceRecords stringify scope records t) as [Hin Hout].
  fold t' in Hin, Hout. split_and!; [done..|]. unfold readRecords, slice_last.
  assert (length (select scope t') = length records) as Hlen.
  { rewrite <-(length_fmap record), Hin. apply length_fmap. }
  rewrite Hlen. rewrite <-(omap_fmap parse record), fmap_drop, Hin, <-fmap_drop.
  assert (∀ x, x ∈ drop (length records - cap) records → parse (stringify x) = Some x) as Hp.
  { intros x Hx. apply Hparse. rewrite <-(take_drop (length records - cap) records). apply elem_of_app. by right. }
  clear -Hp. induction (drop _ records) as [|x l IH]; [done|]. simpl. rewrite Hp by left.
  f_equal. apply IH. intros y Hy. apply Hp. by right.
Qed.
End table.

(** ** A table as a list *)

Record ListTable := {
  lt_rows : list Row;
  lt_next : Z;
  lt_sorted : StronglySorted (λ a b, a.(seq) < b.(seq)) lt_rows;
  lt_below : Forall (λ r, r.(seq) < lt_next) lt_rows }.

Lemma sorted_snoc l (x : Row) :
  StronglySorted (λ a b, a.(seq) < b.(seq)) l → Forall (λ r, r.(seq) < x.(seq)) l →
  StronglySorted (λ a b, a.(seq) < b.(seq)) (l ++ [x]).
Proof.
  induction 1 as [|y l Hl IH Hy]; intros Hx; [by repeat constructor|]. apply Forall_cons in Hx as [Hyx Hx].
  constructor; [by apply IH|]. apply Forall_app. by repeat constructor.
Qed.

Definition lt_empty : ListTable :=
  {| lt_rows := []; lt_next := 1; lt_sorted := SSorted_nil _; lt_below := Forall_nil_2 _ |}.

Definition lt_row (scope : BusScope) (text : string) (t : ListTable) : Row :=
  {| seq := t.(lt_next); row_project := scope.(projectId); row_session := scope.(sessionId); record := text |}.

Lemma lt_below_insert scope text t : Forall (λ r, r.(seq) < t.(lt_next) + 1) (t.(lt_rows) ++ [lt_row scope text t]).
Proof.
  apply Forall_app. split; [|by repeat constructor; simpl; lia].
  eapply Forall_impl; [apply (lt_below t)|]. simpl. lia.
Qed.

Definition lt_insert (scope : BusScope) (text : string) (t : ListTable) : ListTable :=
  {| lt_rows := t.(lt_rows) ++ [lt_row scope text t];
     lt_next := t.(lt_next) + 1;
     lt_sorted := sorted_snoc _ (lt_row scope text t) (lt_sorted t) (lt_below t);
     lt_below := lt_below_insert scope text t |}.

Definition lt_delete (p : Row → bool) (t : ListTable) : ListTable :=
  {| lt_rows := filter (λ r, p r = false) t.(lt_rows);
     lt_next := t.(lt_next);
     lt_sorted := sorted_filter _ _ (lt_sorted t);
     lt_below := Forall_filter_2 (λ r, r.(seq) < t.(lt_next)) _ _ (lt_below t) |}.

#[export] Instance list_table : SqlTable ListTable := {|
  rows := lt_rows;
  insert_row := lt_insert;
  delete_rows := lt_delete;
  rows_sorted := lt_sorted;
  rows_insert scope text t := ex_intro _ t.(lt_next) eq_refl;
  rows_delete p t := eq_refl |}.

(** A ring of three records of one session gets a fourth and loses its first,
    beside another session's row. *)
Lemma replaceRecords_exact_witness :
  let mine := {| projectId := "p"; sessionId := Some "s" |} in
  let other := {| projectId := "p"; sessionId := Some "t" |} in
  let t := insert_row mine "c" (insert_row other "x" (insert_row mine "b" (insert_row mine "a" lt_empty))) in
  let t' := replaceRecords id mine ["b"; "c"; "d"] t in
  readRecords Some mine 2 t' = ["c"; "d"] ∧ seq <$> rows t' = [2; 3; 4; 5].
Proof.
  intros mine other t t'. split; [|vm_compute; reflexivity].
  pose proof (replaceRecords_exact id Some mine ["b"; "c"; "d"] 2 t) as H.
  refine (eq_trans (proj2 (proj2 (H _))) _); [intros x _; reflexivity|vm_compute; reflexivity].
Defined.
