(* ===== verification/PairBudget.v ===== *)
(** * PairBudget: the ceilings on a pair of agents that message each other

    src/bridge/src/session-bus/pair-budget.ts, the decision and the charge of
    src/bridge/src/session-bus/coordinator.ts, and the host's store of budgets,
    [PairBudgetStore] of src/bridge/src/host-server.ts.  A pair may interrupt
    each other four times an hour, and is halted after six messages in a row
    that made no progress, until a human lifts the halt. *)

From stdpp Require Import pretty.
From Stdlib Require Import Sorting.Sorted.
From S2P Require Import Prelude.

Local Open Scope Z_scope.
Local Open Scope js_scope.

(** ** The record of a pair *)

Definition MAX_NOTIFIES_PER_PAIR_HOUR : nat := 4.
Definition NO_PROGRESS_EXCHANGES : Z := 6.
Definition BUS_PERSIST_INTERVAL_MS : Z := 5 * 60000.
Definition PAIR_NOTIFY_WINDOW_MS : Z := 60 * 60000.
Definition NOTIFY_LOG_CAP : nat := 96.
Definition MAX_PAIR_BUDGETS_PER_SESSION : nat := 64.

Record PairBudgetState := {
  budgetKey : string;
  notifiesAtMs : list Z;
  exchangesSinceProgress : Z;
  haltedAt : option Z }.

(** One end of a pair: a machine and a session of it. *)
Record PairEnd := { machineId : string; sessionId : string }.

Definition SLASH : Ascii.ascii := Ascii.ascii_of_N 47.
Definition BAR : Ascii.ascii := Ascii.ascii_of_N 124.

Definition end_name (e : PairEnd) : string := e.(machineId) +:+ (sep SLASH +:+ e.(sessionId)).

Definition pairKey (from to : PairEnd) : string :=
  let a := end_name from in
  let b := end_name to in
  if String.leb a b then a +:+ (sep BAR +:+ b) else b +:+ (sep BAR +:+ a).

Definition read_end (half : string) : option PairEnd :=
  match cut_at SLASH half with
  | None | Some (EmptyString, _) | Some (_, EmptyString) => None
  | Some (m, s) => Some {| machineId := m; sessionId := s |}
  end.

Definition pairEnds (key : string) : option (PairEnd * PairEnd) :=
  match split_on BAR key with
  | [h0; h1] =>
      match read_end h0, read_end h1 with
      | Some e0, Some e1 => Some (e0, e1)
      | _, _ => None
      end
  | _ => None
  end.

Definition emptyPairBudget (key : string) : PairBudgetState :=
  {| budgetKey := key; notifiesAtMs := []; exchangesSinceProgress := 0; haltedAt := None |}.

(** Why a message is refused on a pair; [SessionBusRefusal]'s code. *)
Inductive PairRefusal := NO_PROGRESS | NOTIFY_RATE.

Definition checkHalt (state : PairBudgetState) : option PairRefusal :=
  match state.(haltedAt) with None => None | Some _ => Some NO_PROGRESS end.

(** The notifies the rolling hour still counts at [now]. *)
Definition recent_notifies (now : Z) (log : list Z) : list Z := filter (λ at_, now - at_ < PAIR_NOTIFY_WINDOW_MS) log.

Definition checkNotify (state : PairBudgetState) (now : Z) : option PairRefusal :=
  if (length (recent_notifies now state.(notifiesAtMs)) <? MAX_NOTIFIES_PER_PAIR_HOUR)%nat then None else Some NOTIFY_RATE.

Definition with_notifies (log : list Z) (s : PairBudgetState) : PairBudgetState :=
  {| budgetKey := s.(budgetKey); notifiesAtMs := log;
     exchangesSinceProgress := s.(exchangesSinceProgress); haltedAt := s.(haltedAt) |}.
Definition with_exchanges (n : Z) (h : option Z) (s : PairBudgetState) : PairBudgetState :=
  {| budgetKey := s.(budgetKey); notifiesAtMs := s.(notifiesAtMs); exchangesSinceProgress := n; haltedAt := h |}.

Definition noteNotify (state : PairBudgetState) (now : Z) : PairBudgetState :=
  with_notifies (slice_last NOTIFY_LOG_CAP (state.(notifiesAtMs) ++ [now])) state.

Definition noteExchange (state : PairBudgetState) (now : Z) : PairBudgetState :=
  match state.(haltedAt) with
  | Some _ => state
  | None =>
      let n := state.(exchangesSinceProgress) + 1 in
      if n <? NO_PROGRESS_EXCHANGES then with_exchanges n state.(haltedAt) state
      else with_exchanges n (Some now) state
  end.

Definition noteProgress (state : PairBudgetState) : PairBudgetState :=
  if state.(exchangesSinceProgress) =? 0 then state else with_exchanges 0 state.(haltedAt) state.

Definition clearHalt (state : PairBudgetState) : PairBudgetState :=
  match state.(haltedAt) with None => state | Some _ => with_exchanges 0 None state end.

Definition trimNotifies (state : PairBudgetState) : PairBudgetState :=
  if (length state.(notifiesAtMs) <=? NOTIFY_LOG_CAP)%nat then state
  else with_notifies (slice_last NOTIFY_LOG_CAP state.(notifiesAtMs)) state.

Definition expireNotifies (state : PairBudgetState) (now : Z) : PairBudgetState :=
  let log := recent_notifies now state.(notifiesAtMs) in
  if (length log =? length state.(notifiesAtMs))%nat then state else with_notifies log state.

Definition find_key (key : string) (records : list PairBudgetState) : option PairBudgetState :=
  snd <$> list_find (λ r, r.(budgetKey) = key) records.

Definition budgetFor (records : list PairBudgetState) (key : string) : PairBudgetState :=
  find_key key records ?| emptyPairBudget key.

Definition upsertPairBudget (records : list PairBudgetState) (next : PairBudgetState) : list PairBudgetState :=
  let kept := filter (λ r, r.(budgetKey) ≠ next.(budgetKey)) records ++ [next] in
  if (MAX_PAIR_BUDGETS_PER_SESSION <? length kept)%nat
  then drop (length kept - MAX_PAIR_BUDGETS_PER_SESSION) kept else kept.

(** *** The coordinator's decision and charge *)

Inductive Verb := post | notify.

#[export] Instance Verb_eq_dec : EqDecision Verb.
Proof. solve_decision. Defined.

(** The pair's two ceilings as one decision; [None] for [budget] is a bus
    without budgets. *)
Definition refusalForPair (budget : option PairBudgetState) (verb : Verb) (now : Z) : option PairRefusal :=
  match budget with
  | None => None
  | Some b =>
      match checkHalt b with
      | Some r => Some r
      | None => match verb with notify => checkNotify b now | post => None end
      end
  end.

(** What [spendBudget] writes for a message of [verb]. *)
Definition spendBudget (budget : PairBudgetState) (verb : Verb) (progressed : bool) (now : Z) : PairBudgetState :=
  let next := if progressed then noteProgress budget else budget in
  let next := noteExchange next now in
  match verb with notify => noteNotify next now | post => next end.

(** ** The host's store *)

Record PairBudgetStore := {
  bySession : gmap string (list PairBudgetState);
  savedAtMs : gmap string Z;
  (** the rows of [bus_pair_budget], by project and session *)
  disk : gmap (string * string) (list PairBudgetState) }.

Definition new_store : PairBudgetStore := {| bySession := ∅; savedAtMs := ∅; disk := ∅ |}.

Section store.
(** The session index: the project of a session it can place. *)
Context (projectIdFor : string → option string).

Definition loadPairBudgets (st : PairBudgetStore) (project session : string) (now : Z) : list PairBudgetState :=
  (λ r, trimNotifies (expireNotifies r now)) <$>
    slice_last MAX_PAIR_BUDGETS_PER_SESSION (st.(disk) !! (project, session) ?| []).

Definition savePairBudgets (project session : string) (records : list PairBudgetState) (st : PairBudgetStore) : PairBudgetStore :=
  {| bySession := st.(bySession); savedAtMs := st.(savedAtMs);
     disk := <[(project, session) := slice_last MAX_PAIR_BUDGETS_PER_SESSION records]> st.(disk) |}.

Definition cache (session : string) (records : list PairBudgetState) (st : PairBudgetStore) : PairBudgetStore :=
  {| bySession := <[session := records]> st.(bySession); savedAtMs := st.(savedAtMs); disk := st.(disk) |}.

Definition stamp (session : string) (now : Z) (st : PairBudgetStore) : PairBudgetStore :=
  {| bySession := st.(bySession); savedAtMs := <[session := now]> st.(savedAtMs); disk := st.(disk) |}.

Definition load_records (session : string) (now : Z) (st : PairBudgetStore) : list PairBudgetState * PairBudgetStore :=
  match st.(bySession) !! session with
  | Some cached => (cached, st)
  | None =>
      match projectIdFor session with
      | None => ([], st)
      | Some project =>
          let records := loadPairBudgets st project session now in
          (records, cache session records st)
      end
  end.

Definition recordsFor := load_records.

Definition flush (session : string) (records : list PairBudgetState) (force : bool) (now : Z) (st : PairBudgetStore) : PairBudgetStore :=
  if negb force && (now - (st.(savedAtMs) !! session ?| 0) <? BUS_PERSIST_INTERVAL_MS) then st
  else match projectIdFor session with
       | None => st
       | Some project => savePairBudgets project session records (stamp session now st)
       end.

Definition write (session : string) (next : PairBudgetState) (now : Z) (st : PairBudgetStore) : PairBudgetStore :=
  let '(held, st) := load_records session now st in
  let records := upsertPairBudget held next in
  flush session records (bool_decide (next.(haltedAt) ≠ None)) now (cache session records st).

Definition liftable (only : option string) (r : PairBudgetState) : bool :=
  bool_decide (r.(haltedAt) ≠ None) &&
  match only with None => true | Some key => bool_decide (r.(budgetKey) = key) end.

Definition lift (session : string) (only : option string) (now : Z) (st : PairBudgetStore) : list string * PairBudgetStore :=
  let '(records, st) := load_records session now st in
  let lifted := budgetKey <$> filter (λ r, liftable only r = true) records in
  match lifted with
  | [] => ([], st)
  | _ =>
      let next := (λ r, if liftable only r then clearHalt r else r) <$> records in
      (lifted, flush session next true now (cache session next st))
  end.

(** [PairBudgetStore.clearHalt]: the session's halts, and those of the other
    ends' copies. *)
Definition clearHalts (session : string) (now : Z) (st : PairBudgetStore) : PairBudgetStore :=
  let '(keys, st) := lift session None now st in
  foldl (λ st key,
    match pairEnds key with
    | None => st
    | Some (e0, e1) =>
        foldl (λ st e, if bool_decide (e.(sessionId) = session) then st
                       else (lift e.(sessionId) (Some key) now st).2) st [e0; e1]
    end) st keys.

(** A message of a session on a pair: the coordinator reads the budget and
    charges it. *)
Definition charge (session key : string) (verb : Verb) (progressed : bool) (now : Z) (st : PairBudgetStore) : PairBudgetStore :=
  let '(records, st) := recordsFor session now st in
  write session (spendBudget (budgetFor records key) verb progressed now) now st.

(** The process ends and a new one starts on the same database. *)
Definition restart (st : PairBudgetStore) : PairBudgetStore :=
  {| bySession := ∅; savedAtMs := ∅; disk := st.(disk) |}.
End store.

(** ** The key of a pair *)

(** A machine id and session id that [pairKey] can join: relay device ids are
    uuids and session ids hold no bar. *)
Definition nameable (e : PairEnd) : Prop :=
  e.(machineId) ≠ EmptyString ∧ lacks SLASH e.(machineId) = true ∧ lacks BAR e.(machineId) = true ∧
  e.(sessionId) ≠ EmptyString ∧ lacks BAR e.(sessionId) = true.

Lemma read_end_name e : nameable e → read_end (end_name e) = Some e.
Proof.
  destruct e as [m s]. intros (Hm & Hsl & _ & Hs & _). simpl in *. unfold read_end, end_name. simpl machineId.
  rewrite cut_at_join by done. by destruct m, s.
Qed.

Lemma lacks_end_name e : nameable e → lacks BAR (end_name e) = true.
Proof.
  intros (_ & _ & Hm & _ & Hs). unfold end_name, lacks. rewrite !string_forallb_app.
  unfold lacks in Hm, Hs. by rewrite Hm, Hs.
Qed.

Lemma pairEnds_join e e' :
  nameable e → nameable e' → pairEnds (end_name e +:+ (sep BAR +:+ end_name e')) = Some (e, e').
Proof.
  intros He He'. unfold pairEnds. rewrite split_on_app, !split_on_lacks by (by apply lacks_end_name).
  simpl. by rewrite !read_end_name.
Qed.

Lemma pairKey_join a b : pairKey a b = end_name a +:+ (sep BAR +:+ end_name b) ∨
                         pairKey a b = end_name b +:+ (sep BAR +:+ end_name a).
Proof. unfold pairKey. destruct (String.leb _ _); auto. Qed.

(** The key of a pair names the pair.  Both directions of a pair have the
    same key, the two ends can be read back from it, in one order or the other,
    and so two pairs with one key are the same two ends. *)
Theorem pairKey_names_the_pair a b c d :
  nameable a → nameable b → nameable c → nameable d →
  pairKey a b = pairKey b a ∧
  (pairEnds (pairKey a b) = Some (a, b) ∨ pairEnds (pairKey a b) = Some (b, a)) ∧
  (pairKey a b = pairKey c d → (a = c ∧ b = d) ∨ (a = d ∧ b = c)).
Proof.
  intros Ha Hb Hc Hd. split_and!.
  - unfold pairKey. destruct (String.leb (end_name a) (end_name b)) eqn:Hab, (String.leb (end_name b) (end_name a)) eqn:Hba; try done.
    + by rewrite (String.leb_antisym _ _ Hab Hba).
    + destruct (String.leb_total (end_name a) (end_name b)); congruence.
  - destruct (pairKey_join a b) as [-> | ->]; rewrite pairEnds_join by done; auto.
  - intros Heq. apply (f_equal pairEnds) in Heq. revert Heq.
    destruct (pairKey_join a b) as [-> | ->], (pairKey_join c d) as [-> | ->];
      rewrite !pairEnds_join by done; intros [= -> ->]; auto.
Qed.

Lemma pairKey_names_the_pair_witness :
  let a := {| machineId := "m1"; sessionId := "s/1" |} in
  let b := {| machineId := "m0"; sessionId := "s2" |} in
  pairKey a b = "m0/s2|m1/s/1" ∧ pairEnds (pairKey a b) = Some (b, a) ∧ pairKey a b = pairKey b a.
Proof.
  intros a b. split; [reflexivity|]. split; [reflexivity|].
  apply (pairKey_names_the_pair a b a b); vm_compute; tauto || (split_and!; discriminate || reflexivity).
Defined.

(** ** The two ceilings *)

(** What happens to a record between two lifts: a message is charged, or the
    record is read back from the database. *)
Inductive PairEvent := Charged (verb : Verb) (progressed : bool) (now : Z) | Reloaded (now : Z).

Definition pair_step (s : PairBudgetState) (e : PairEvent) : PairBudgetState :=
  match e with
  | Charged v p now => spendBudget s v p now
  | Reloaded now => trimNotifies (expireNotifies s now)
  end.

Definition pair_run (s : PairBudgetState) (evs : list PairEvent) : PairBudgetState := foldl pair_step s evs.

Definition event_time (e : PairEvent) : Z := match e with Charged _ _ now | Reloaded now => now end.

(** The times of the notifies, and which messages made progress. *)
Definition notify_times (evs : list PairEvent) : list Z :=
  omap (λ e, match e with Charged notify _ now => Some now | _ => None end) evs.
Definition progress_flags (evs : list PairEvent) : list bool :=
  omap (λ e, match e with Charged _ p _ => Some p | _ => None end) evs.

(** Six messages in a row, of which none after the first made progress. *)
Definition stalled (flags : list bool) : Prop :=
  ∃ before first after, flags = before ++ first :: replicate 5 false ++ after.

(** *** The log of notifies *)

Lemma recent_suffix now log :
  StronglySorted Z.le log →
  ∃ old, log = old ++ recent_notifies now log ∧ Forall (λ t, PAIR_NOTIFY_WINDOW_MS <= now - t) old.
Proof.
  induction 1 as [|x l Hs (old & Hl & Hold) Hx]; [by exists []|]. unfold recent_notifies in *.
  rewrite filter_cons. case_decide as Hr.
  - exists []. split; [|done]. simpl. f_equal. symmetry. apply filter_all.
    rewrite Forall_forall in Hx. intros y Hy. specialize (Hx y Hy). lia.
  - exists (x :: old). simpl. rewrite <-Hl. split; [done|]. constructor; [lia|done].
Qed.

Lemma sorted_app_le (l1 l2 : list Z) x y : StronglySorted Z.le (l1 ++ l2) → x ∈ l1 → y ∈ l2 → x <= y.
Proof.
  induction l1 as [|z l1 IH]; simpl; intros Hs Hx Hy; [by apply not_elem_of_nil in Hx|].
  apply StronglySorted_inv in Hs as [Hs Hz]. apply elem_of_cons in Hx as [->|Hx]; [|by apply IH].
  rewrite Forall_forall in Hz. apply Hz. apply elem_of_app. by right.
Qed.

Lemma sorted_app_r (l1 l2 : list Z) : StronglySorted Z.le (l1 ++ l2) → StronglySorted Z.le l2.
Proof. induction l1 as [|x l1 IH]; simpl; [done|]. intros [Hs _]%StronglySorted_inv. by apply IH. Qed.

(** The log kept is the full history without a prefix that no longer counts,
    or that is not needed to reach the ceiling. *)
Definition log_of (history log : list Z) (last : Z) : Prop :=
  ∃ gone, history = gone ++ log ∧
    (Forall (λ t, PAIR_NOTIFY_WINDOW_MS <= last - t) gone ∨ (NOTIFY_LOG_CAP <= length log)%nat).

Lemma log_of_later history log last now : log_of history log last → last <= now → log_of history log now.
Proof.
  intros (gone & -> & H) Hle. exists gone. split; [done|]. destruct H as [H|H]; [left|by right].
  eapply Forall_impl; [exact H|]. simpl. lia.
Qed.

Lemma log_of_snoc history log t : log_of history log t → log_of (history ++ [t]) (slice_last NOTIFY_LOG_CAP (log ++ [t])) t.
Proof.
  intros (gone & -> & H). unfold slice_last. set (n := (length (log ++ [t]) - NOTIFY_LOG_CAP)%nat).
  exists (gone ++ take n (log ++ [t])). rewrite <-!app_assoc, take_drop. split; [done|].
  destruct (decide (n = 0%nat)) as [Hn|Hn].
  - rewrite Hn, take_0, app_nil_r, drop_0. destruct H as [H|H]; [by left|right]. rewrite length_app. simpl. lia.
  - right. rewrite length_drop. lia.
Qed.

Lemma log_of_slice history log t : log_of history log t → log_of history (slice_last NOTIFY_LOG_CAP log) t.
Proof.
  intros (gone & -> & H). unfold slice_last. set (n := (length log - NOTIFY_LOG_CAP)%nat).
  exists (gone ++ take n log). rewrite <-app_assoc, take_drop. split; [done|].
  destruct (decide (n = 0%nat)) as [Hn|Hn].
  - rewrite Hn, take_0, app_nil_r, drop_0. done.
  - right. rewrite length_drop. lia.
Qed.

Lemma log_of_recent history log t :
  StronglySorted Z.le history → log_of history log t → log_of history (recent_notifies t log) t.
Proof.
  intros Hs (gone & -> & H). destruct (recent_suffix t log (sorted_app_r _ _ Hs)) as (old & Hl & Hold).
  exists (gone ++ old). rewrite <-app_assoc, <-Hl. split; [done|].
  destruct old as [|x old]; [rewrite app_nil_r, Hl in *; simpl in *; by rewrite <-Hl|]. left.
  apply Forall_app. split; [|done]. apply Forall_forall. intros y Hy.
  apply Forall_cons in Hold as [Hx _].
  assert (y <= x); [|lia]. apply (sorted_app_le _ _ _ _ Hs Hy). rewrite Hl. by left.
Qed.

(** The ceiling read off the log is the ceiling of the whole history. *)
Lemma log_of_ceiling history log now :
  StronglySorted Z.le history → log_of history log now →
  (length (recent_notifies now log) < MAX_NOTIFIES_PER_PAIR_HOUR)%nat ↔
  (length (recent_notifies now history) < MAX_NOTIFIES_PER_PAIR_HOUR)%nat.
Proof.
  intros Hs (gone & -> & H). unfold recent_notifies at 2. rewrite filter_app. fold (recent_notifies now gone) (recent_notifies now log).
  assert (Forall (λ t, PAIR_NOTIFY_WINDOW_MS <= now - t) gone → recent_notifies now gone = []) as Hnone.
  { intros Hg. apply filter_none. rewrite Forall_forall in Hg. intros y Hy. specialize (Hg y Hy). lia. }
  destruct H as [H|H]; [by rewrite Hnone|]. destruct (recent_suffix now log (sorted_app_r _ _ Hs)) as (old & Hl & Hold).
  destruct old as [|x old].
  - simpl in Hl. rewrite <-Hl. rewrite length_app. unfold NOTIFY_LOG_CAP, MAX_NOTIFIES_PER_PAIR_HOUR in *. lia.
  - rewrite Hnone; [done|]. apply Forall_forall. intros y Hy. apply Forall_cons in Hold as [Hx _].
    assert (y <= x); [|lia]. apply (sorted_app_le _ _ _ _ Hs Hy). rewrite Hl. by left.
Qed.

(** *** The count of messages without progress *)

Definition flag_count (flags : list bool) : Z := foldl (λ n p, if p : bool then 1 else n + 1) 0 flags.

Lemma flag_count_snoc flags p : flag_count (flags ++ [p]) = if p then 1 else flag_count flags + 1.
Proof. unfold flag_count. by rewrite foldl_app. Qed.

Lemma flag_count_nonneg flags : 0 <= flag_count flags.
Proof. induction flags as [|p flags IH] using rev_ind; [done|]. rewrite flag_count_snoc. destruct p; lia. Qed.

Lemma flag_count_ge n flags :
  Z.of_nat (S n) <= flag_count flags ↔ ∃ before first, flags = before ++ first :: replicate n false.
Proof.
  revert flags. induction n as [|n IH]; intros flags.
  - destruct flags as [|p flags _] using rev_ind.
    + split; [done|]. by intros ([] & ? & ?).
    + rewrite flag_count_snoc. split; [intros _; by exists flags, p|]. intros _.
      pose proof (flag_count_nonneg flags). destruct p; lia.
  - destruct flags as [|p flags _] using rev_ind.
    + split; [done|]. by intros ([] & ? & ?).
    + rewrite flag_count_snoc. rewrite replicate_S_end. split.
      * destruct p; [lia|]. intros Hn. destruct (proj1 (IH flags)) as (before & first & ->); [lia|].
        exists before, first. by rewrite <-app_assoc.
      * intros (before & first & Heq). rewrite app_comm_cons, app_assoc in Heq.
        apply app_inj_tail in Heq as [-> ->].
        pose proof (proj2 (IH (before ++ first :: replicate n false))) as Hc.
        enough (Z.of_nat (S n) <= flag_count (before ++ first :: replicate n false)) by lia. apply Hc. eauto.
Qed.

Lemma stalled_snoc flags p : stalled (flags ++ [p]) ↔ stalled flags ∨ NO_PROGRESS_EXCHANGES <= flag_count (flags ++ [p]).
Proof.
  change NO_PROGRESS_EXCHANGES with (Z.of_nat 6). rewrite flag_count_ge. unfold stalled. split.
  - intros (before & first & after & Heq). destruct after as [|q after _] using rev_ind.
    + right. exists before, first. by rewrite Heq, app_nil_r.
    + left. rewrite !app_comm_cons, !app_assoc in Heq. apply app_inj_tail in Heq as [-> _].
      exists before, first, after. by rewrite <-app_assoc.
  - intros [(before & first & after & ->)|(before & first & Heq)].
    + exists before, first, (after ++ [p]). by rewrite <-!app_assoc, <-!app_comm_cons, <-app_assoc.
    + exists before, first, []. by rewrite Heq, app_nil_r.
Qed.

Lemma not_stalled_nil : ¬ stalled [].
Proof. by intros ([] & ? & ? & ?). Qed.

(** [s] counts the messages of [flags]. *)
Definition counts (flags : list bool) (s : PairBudgetState) : Prop :=
  match s.(haltedAt) with
  | Some _ => stalled flags
  | None => ¬ stalled flags ∧ s.(exchangesSinceProgress) = flag_count flags
  end.

Lemma counts_same flags s s' :
  s'.(haltedAt) = s.(haltedAt) → s'.(exchangesSinceProgress) = s.(exchangesSinceProgress) →
  counts flags s → counts flags s'.
Proof. unfold counts. by intros -> ->. Qed.

Lemma noteProgress_halted s : (noteProgress s).(haltedAt) = s.(haltedAt).
Proof. unfold noteProgress. by destruct (_ =? _). Qed.

Lemma noteProgress_zero s : (noteProgress s).(exchangesSinceProgress) = 0.
Proof. unfold noteProgress. destruct (Z.eqb_spec (exchangesSinceProgress s) 0); [done|reflexivity]. Qed.

Lemma counts_exchange flags (p : bool) s now :
  counts flags s → counts (flags ++ [p]) (noteExchange (if p then noteProgress s else s) now).
Proof.
  intros Hc. set (s1 := if p then noteProgress s else s).
  assert (s1.(haltedAt) = s.(haltedAt)) as Hh by (unfold s1; destruct p; [apply noteProgress_halted|done]).
  unfold noteExchange, counts in *. rewrite Hh. destruct (haltedAt s) as [t|] eqn:Hs.
  - rewrite Hh. apply stalled_snoc. by left.
  - destruct Hc as [Hns He].
    assert (s1.(exchangesSinceProgress) + 1 = flag_count (flags ++ [p])) as Hn.
    { rewrite flag_count_snoc. unfold s1. destruct p; [by rewrite noteProgress_zero|by rewrite He]. }
    rewrite Hn. destruct (Z.ltb_spec (flag_count (flags ++ [p])) NO_PROGRESS_EXCHANGES) as [Hlt|Hge]; simpl.
    + rewrite ?Hh. split; [|done]. rewrite stalled_snoc. intros [|]; [done|lia].
    + apply stalled_snoc. by right.
Qed.

Lemma load_same s now :
  let s' := trimNotifies (expireNotifies s now) in
  s'.(haltedAt) = s.(haltedAt) ∧ s'.(exchangesSinceProgress) = s.(exchangesSinceProgress) ∧ s'.(budgetKey) = s.(budgetKey).
Proof. unfold trimNotifies, expireNotifies. by destruct (_ =? _)%nat; simpl; destruct (_ <=? _)%nat. Qed.

Lemma load_log s now :
  (trimNotifies (expireNotifies s now)).(notifiesAtMs) = slice_last NOTIFY_LOG_CAP (recent_notifies now s.(notifiesAtMs)).
Proof.
  assert ((expireNotifies s now).(notifiesAtMs) = recent_notifies now s.(notifiesAtMs)) as He.
  { unfold expireNotifies. destruct (Nat.eqb_spec (length (recent_notifies now (notifiesAtMs s))) (length (notifiesAtMs s))) as [Hl|]; [|done].
    symmetry. by apply filter_full. }
  unfold trimNotifies. rewrite He. destruct (Nat.leb_spec (length (recent_notifies now (notifiesAtMs s))) NOTIFY_LOG_CAP); [|done].
  rewrite He. by rewrite slice_last_short.
Qed.

Lemma sublist_sorted (l k : list Z) : sublist k l → StronglySorted Z.le l → StronglySorted Z.le k.
Proof.
  induction 1 as [|x k l Hs IH|x k l Hs IH]; intros Hl; [constructor| |]; apply StronglySorted_inv in Hl as [Hl Hx].
  - constructor; [by apply IH|]. rewrite Forall_forall in *. intros y Hy. apply Hx.
    by eapply elem_of_submseteq; [|apply sublist_submseteq].
  - by apply IH.
Qed.

Lemma notify_times_sublist evs : sublist (notify_times evs) (event_time <$> evs).
Proof.
  induction evs as [|e evs IH]; [constructor|]. unfold notify_times in *. csimpl.
  destruct e as [[] p now|now]; simpl; by constructor.
Qed.

Lemma notify_times_snoc evs e : notify_times (evs ++ [e]) = notify_times evs ++ notify_times [e].
Proof. apply omap_app. Qed.
Lemma progress_flags_snoc evs e : progress_flags (evs ++ [e]) = progress_flags evs ++ progress_flags [e].
Proof. apply omap_app. Qed.

(** The times of a history are those of a clock that does not step back. *)
Definition clocked (s : PairBudgetState) (evs : list PairEvent) (now : Z) : Prop :=
  StronglySorted Z.le (s.(notifiesAtMs) ++ (event_time <$> evs) ++ [now]).

Lemma clocked_history s evs now :
  clocked s evs now → StronglySorted Z.le (s.(notifiesAtMs) ++ notify_times evs).
Proof.
  apply sublist_sorted. apply sublist_app; [done|]. etrans; [apply notify_times_sublist|]. by apply sublist_inserts_r.
Qed.

Lemma clocked_snoc s evs e now : clocked s (evs ++ [e]) now → clocked s evs (event_time e) ∧ event_time e <= now.
Proof.
  unfold clocked. rewrite fmap_app. simpl. intros Hs. split.
  - revert Hs. apply sublist_sorted. apply sublist_app; [done|]. by apply sublist_inserts_r.
  - rewrite app_assoc in Hs. eapply (sorted_app_le _ _ _ _ Hs); [|by left].
    apply elem_of_app. right. apply elem_of_app. right. by left.
Qed.

Lemma pair_run_inv s evs now :
  s.(haltedAt) = None → s.(exchangesSinceProgress) = 0 → clocked s evs now →
  log_of (s.(notifiesAtMs) ++ notify_times evs) (pair_run s evs).(notifiesAtMs) now ∧
  counts (progress_flags evs) (pair_run s evs).
Proof.
  intros Hh He. revert now. induction evs as [|e evs IH] using rev_ind; intros now Hc.
  { split; [exists []; simpl; rewrite app_nil_r; auto|]. unfold counts. simpl. rewrite Hh, He.
    split; [apply not_stalled_nil|done]. }
  apply clocked_snoc in Hc as [Hc Hle]. pose proof (clocked_history _ _ _ Hc) as Hs. destruct (IH _ Hc) as [Hlog Hcnt].
  unfold pair_run. rewrite foldl_app, notify_times_snoc, progress_flags_snoc. fold (pair_run s evs).
  split; [apply (log_of_later _ _ (event_time e)); [|done]|]; destruct e as [v p t|t]; cbn [foldl pair_step event_time] in *.
  - assert (∀ s', (noteExchange (if p then noteProgress s' else s') t).(notifiesAtMs) = s'.(notifiesAtMs)) as Hsame.
    { intros s'. unfold noteExchange, noteProgress. destruct p; repeat case_match; done. }
    unfold spendBudget. destruct v; simpl; rewrite Hsame; [by rewrite !app_nil_r|]. rewrite app_assoc. by apply log_of_snoc.
  - simpl. rewrite app_nil_r, load_log. apply log_of_slice. by apply log_of_recent.
  - apply (counts_exchange _ p _ t) in Hcnt. unfold spendBudget. by destruct v.
  - simpl. rewrite app_nil_r. destruct (load_same (pair_run s evs) t) as (H1 & H2 & _). by apply (counts_same _ (pair_run s evs)).
Qed.

(** The ceilings on a pair are the ones stated.  Take a record that is not
    halted and has counted nothing (a new one, or one a human just lifted), and
    any history of messages and reloads from then on, on a clock that does not
    step back.  The trimmed and pruned log refuses a notify exactly when the
    full history has four notifies within the hour, and the counter halts the
    pair exactly when six messages went by of which none after the first
    published an artifact or opened a thread.  The halt refuses every message,
    the hourly ceiling only a notify. *)
Theorem pair_ceilings s evs verb now :
  s.(haltedAt) = None → s.(exchangesSinceProgress) = 0 → clocked s evs now →
  let s' := pair_run s evs in
  (checkHalt s' = None ↔ ¬ stalled (progress_flags evs)) ∧
  (checkNotify s' now = None ↔
     (length (recent_notifies now (s.(notifiesAtMs) ++ notify_times evs)) < MAX_NOTIFIES_PER_PAIR_HOUR)%nat) ∧
  refusalForPair (Some s') verb now =
    match checkHalt s', verb with Some r, _ => Some r | None, notify => checkNotify s' now | None, post => None end.
Proof.
  intros Hh He Hc s'. destruct (pair_run_inv s evs now Hh He Hc) as [Hlog Hcnt]. fold s' in Hlog, Hcnt. split_and!.
  - unfold counts, checkHalt in *. destruct (haltedAt s'); [|naive_solver]. split; [done|]. by intros [].
  - rewrite <-(log_of_ceiling _ _ _ (clocked_history _ _ _ Hc) Hlog). unfold checkNotify.
    destruct (Nat.ltb_spec (length (recent_notifies now (notifiesAtMs s'))) MAX_NOTIFIES_PER_PAIR_HOUR); split; (done || lia).
  - unfold refusalForPair. by destruct (checkHalt s').
Qed.

(** Four notifies in four minutes, a reload between them, then a fifth. *)
Lemma pair_ceilings_witness :
  let evs := [Charged notify true 0; Charged notify false 60000; Reloaded 90000; Charged notify true 120000; Charged notify false 180000] in
  let s := pair_run (emptyPairBudget "k") evs in
  refusalForPair (Some s) notify 240000 = Some NOTIFY_RATE ∧ refusalForPair (Some s) post 240000 = None ∧
  refusalForPair (Some s) notify 3600000 = None.
Proof.
  intros evs s.
  assert (∀ now, 180000 <= now → clocked (emptyPairBudget "k") evs now) as Hc.
  { intros now Hle. unfold clocked, evs. cbn. repeat constructor; lia. }
  pose proof (pair_ceilings (emptyPairBudget "k") evs notify 3600000 eq_refl eq_refl (Hc 3600000 ltac:(lia))) as (_ & _ & H).
  split; [reflexivity|]. split; [reflexivity|]. exact H.
Defined.

(** ** How long a halt stands

    A session keeps one record per peer, at most 64 of them, the least recently
    touched going first. *)

Record Message := { m_key : string; m_verb : Verb; m_progressed : bool; m_now : Z }.

Definition exchange_on (records : list PairBudgetState) (m : Message) : list PairBudgetState :=
  upsertPairBudget records (spendBudget (budgetFor records m.(m_key)) m.(m_verb) m.(m_progressed) m.(m_now)).

(** The other pairs [ms] touches. *)
Definition others (key : string) (ms : list Message) : list string :=
  remove_dups (filter (λ k, k ≠ key) (m_key <$> ms)).

Lemma spendBudget_key b v p now : (spendBudget b v p now).(budgetKey) = b.(budgetKey).
Proof. unfold spendBudget, noteExchange, noteProgress, noteNotify. destruct v, p; repeat case_match; done. Qed.

Lemma spendBudget_halted b v p now t :
  b.(haltedAt) = Some t → (spendBudget b v p now).(haltedAt) = Some t.
Proof.
  intros Hb. unfold spendBudget. assert ((if p then noteProgress b else b).(haltedAt) = Some t) as Hp.
  { destruct p; [by rewrite noteProgress_halted|done]. }
  unfold noteExchange, noteNotify. rewrite Hp. by destruct v.
Qed.

Lemma find_key_Some key records r :
  find_key key records = Some r ↔
  ∃ pre post, records = pre ++ r :: post ∧ r.(budgetKey) = key ∧ Forall (λ x, x.(budgetKey) ≠ key) pre.
Proof.
  unfold find_key. rewrite fmap_Some. split.
  - intros ([i x] & Hf%list_find_Some & ->). simpl. destruct Hf as (Hi & Hk & Hl).
    exists (take i records), (drop (S i) records). split_and!; [by rewrite take_drop_middle|done|].
    apply Forall_forall. intros y Hy. apply elem_of_take in Hy as (j & Hj & Hlt). eauto.
  - intros (pre & post & -> & Hk & Hpre). exists (length pre, r). split; [|done]. apply list_find_Some.
    split_and!; [by apply list_lookup_middle|done|]. intros j y Hj Hlt. rewrite lookup_app_l in Hj by done.
    rewrite Forall_forall in Hpre. apply Hpre. by eapply list_elem_of_lookup_2.
Qed.

Lemma find_key_None key records : find_key key records = None ↔ Forall (λ x, x.(budgetKey) ≠ key) records.
Proof. unfold find_key. rewrite fmap_None. apply list_find_None. Qed.

Lemma budgetFor_key records key : (budgetFor records key).(budgetKey) = key.
Proof.
  unfold budgetFor. destruct (find_key key records) as [r|] eqn:Hf; [|done].
  by apply find_key_Some in Hf as (? & ? & ? & ? & ?).
Qed.

Lemma upsert_drop records next :
  ∃ n, upsertPairBudget records next = drop n (filter (λ r, r.(budgetKey) ≠ next.(budgetKey)) records ++ [next]) ∧
    n = (length (filter (λ r, r.(budgetKey) ≠ next.(budgetKey)) records ++ [next]) - MAX_PAIR_BUDGETS_PER_SESSION)%nat.
Proof.
  eexists. split; [|reflexivity]. unfold upsertPairBudget.
  destruct (Nat.ltb_spec MAX_PAIR_BUDGETS_PER_SESSION (length (filter (λ r, r.(budgetKey) ≠ next.(budgetKey)) records ++ [next]))); [done|].
  rewrite (proj2 (Nat.sub_0_le _ _)) by done. by rewrite drop_0.
Qed.

Lemma upsert_length records next : (length (upsertPairBudget records next) <= MAX_PAIR_BUDGETS_PER_SESSION)%nat.
Proof. destruct (upsert_drop records next) as (n & -> & ->). rewrite length_drop. lia. Qed.

(** The touched record is the last one. *)
Lemma upsert_last records next :
  ∃ pre, upsertPairBudget records next = pre ++ [next] ∧ Forall (λ x, x.(budgetKey) ≠ next.(budgetKey)) pre.
Proof.
  destruct (upsert_drop records next) as (n & -> & Hn).
  assert (n <= length (filter (λ r, r.(budgetKey) ≠ next.(budgetKey)) records))%nat as Hle.
  { rewrite Hn, length_app. unfold MAX_PAIR_BUDGETS_PER_SESSION. simpl. lia. }
  rewrite drop_app_le by done. eexists. split; [reflexivity|]. apply Forall_drop, Forall_forall.
  by intros x [Hx _]%list_elem_of_filter.
Qed.

Lemma find_upsert_same records next : find_key next.(budgetKey) (upsertPairBudget records next) = Some next.
Proof.
  destruct (upsert_last records next) as (pre & -> & Hpre). apply find_key_Some. by exists pre, [].
Qed.

Section standing.
Context (key : string).

(** [r] is the record of [key], and the records after it are of [touched]. *)
Definition stands (records : list PairBudgetState) (r : PairBudgetState) (touched : list string) : Prop :=
  ∃ pre post, records = pre ++ r :: post ∧ r.(budgetKey) = key ∧ Forall (λ x, x.(budgetKey) ≠ key) pre ∧
    NoDup (budgetKey <$> post) ∧ ∀ k, k ∈ budgetKey <$> post ↔ k ∈ touched.

Lemma elem_filter_ne_key k (l : list PairBudgetState) :
  ∀ k', k' ∈ budgetKey <$> filter (λ r : PairBudgetState, r.(budgetKey) ≠ k) l ↔ k' ≠ k ∧ k' ∈ budgetKey <$> l.
Proof. intros k'. rewrite !list_elem_of_fmap. setoid_rewrite list_elem_of_filter. naive_solver. Qed.

Definition absent (records : list PairBudgetState) : Prop := Forall (λ x, x.(budgetKey) ≠ key) records.

(** Touching another pair: [r] stands, or has been pushed out by 64 others. *)
Lemma upsert_other records r touched next :
  stands records r touched → key ∉ touched → next.(budgetKey) ≠ key →
  let touched' := next.(budgetKey) :: filter (λ k, k ≠ next.(budgetKey)) touched in
  stands (upsertPairBudget records next) r touched' ∨
  absent (upsertPairBudget records next) ∧ (MAX_PAIR_BUDGETS_PER_SESSION <= length touched')%nat.
Proof.
  intros (pre & post & -> & Hr & Hpre & Hnd & Hpost) Hkt Hne touched'.
  destruct (upsert_drop (pre ++ r :: post) next) as (n & -> & Hn).
  rewrite filter_app, filter_cons_True in * by congruence. rewrite <-app_assoc, <-app_comm_cons in *.
  set (post' := filter _ post ++ [next]) in *.
  assert (NoDup (budgetKey <$> post')) as Hnd'.
  { unfold post'. rewrite fmap_app. apply NoDup_app. split_and!; [|intros k Hk|apply NoDup_singleton].
    - eapply sublist_NoDup; [exact Hnd|]. apply fmap_sublist, sublist_filter.
    - apply elem_filter_ne_key in Hk as [Hk _]. simpl. by intros ?%list_elem_of_singleton. }
  assert (∀ k, k ∈ budgetKey <$> post' ↔ k ∈ touched') as Hel.
  { intros k. unfold post', touched'. rewrite fmap_app, elem_of_app, elem_of_cons, list_elem_of_filter, elem_filter_ne_key, Hpost.
    simpl. rewrite list_elem_of_singleton. tauto. }
  assert (length post' <= length touched')%nat as Hpl.
  { rewrite <-(length_fmap budgetKey post'). apply submseteq_length, NoDup_submseteq; [done|]. intros k. by rewrite Hel. }
  destruct (decide (n <= length (filter (λ r0, r0.(budgetKey) ≠ next.(budgetKey)) pre))%nat) as [Hle|Hgt].
  - left. rewrite drop_app_le by done. eexists _, post'. split_and!; [reflexivity|done| |done|done].
    by apply Forall_drop, Forall_filter_2.
  - right. rewrite length_app in Hn. simpl in Hn. split; [|lia].
    rewrite drop_app_ge by lia. apply Forall_forall. intros x Hx Hk.
    assert (x ∈ post') as Hin.
    { destruct (n - _)%nat as [|n'] eqn:Hn'; [lia|]. rewrite skipn_cons in Hx.
      rewrite <-(take_drop n' post'). apply elem_of_app. by right. }
    assert (key ∈ touched') as Hkey by (apply Hel; rewrite <-Hk; by apply list_elem_of_fmap_2).
    apply elem_of_cons in Hkey as [|[_ ?]%list_elem_of_filter]; congruence || contradiction.
Qed.

Lemma upsert_absent records next : absent records → next.(budgetKey) ≠ key → absent (upsertPairBudget records next).
Proof.
  intros Ha Hne. destruct (upsert_drop records next) as (n & -> & _). apply Forall_drop, Forall_app.
  split; [by apply Forall_filter_2|by repeat constructor].
Qed.

Lemma find_stands records r touched : stands records r touched → find_key key records = Some r.
Proof. intros (pre & post & -> & Hr & Hpre & _). apply find_key_Some. by exists pre, post. Qed.

Lemma stands_last records next : next.(budgetKey) = key → stands (upsertPairBudget records next) next [].
Proof.
  intros Hn. destruct (upsert_last records next) as (pre & -> & Hpre). rewrite Hn in Hpre. exists pre, [].
  split_and!; try done. constructor.
Qed.

(** The other pairs touched since [key] was, last first. *)
Definition touch (touched : list string) (m : Message) : list string :=
  if decide (m.(m_key) = key) then [] else m.(m_key) :: filter (λ k, k ≠ m.(m_key)) touched.
Definition touched_by (ms : list Message) : list string := foldl touch [] ms.

Lemma touched_by_snoc ms m : touched_by (ms ++ [m]) = touch (touched_by ms) m.
Proof. unfold touched_by. by rewrite foldl_app. Qed.

Lemma touched_by_NoDup ms : NoDup (touched_by ms).
Proof.
  induction ms as [|m ms IH] using rev_ind; [constructor|]. rewrite touched_by_snoc. unfold touch.
  case_decide; constructor; [|by apply NoDup_filter]. by intros [? _]%list_elem_of_filter.
Qed.

Lemma elem_touched_by ms k : k ∈ touched_by ms → k ∈ others key ms.
Proof.
  unfold others. rewrite elem_of_remove_dups, list_elem_of_filter.
  induction ms as [|m ms IH] using rev_ind; [by intros ?%not_elem_of_nil|].
  rewrite touched_by_snoc, fmap_app, elem_of_app. unfold touch. simpl. rewrite list_elem_of_singleton.
  case_decide; [by intros ?%not_elem_of_nil|]. intros [->|[_ ?]%list_elem_of_filter]%elem_of_cons; naive_solver.
Qed.

Lemma touched_by_others ms : (length (touched_by ms) <= length (others key ms))%nat.
Proof. apply submseteq_length, NoDup_submseteq; [apply touched_by_NoDup|apply elem_touched_by]. Qed.

Lemma others_prefix ms m : (length (others key ms) <= length (others key (ms ++ [m])))%nat.
Proof.
  apply submseteq_length, NoDup_submseteq; [apply NoDup_remove_dups|]. intros k. unfold others.
  rewrite !elem_of_remove_dups, !list_elem_of_filter, fmap_app, elem_of_app. tauto.
Qed.

Lemma key_not_touched ms : key ∉ touched_by ms.
Proof. intros Hk%elem_touched_by. unfold others in Hk. by apply elem_of_remove_dups, list_elem_of_filter in Hk as [? _]. Qed.

Lemma exchange_key records m : (spendBudget (budgetFor records m.(m_key)) m.(m_verb) m.(m_progressed) m.(m_now)).(budgetKey) = m.(m_key).
Proof. by rewrite spendBudget_key, budgetFor_key. Qed.

(** Messages on a standing halt. *)
Lemma halt_run records r t ms :
  r.(budgetKey) = key → r.(haltedAt) = Some t →
  let records' := foldl exchange_on (upsertPairBudget records r) ms in
  (∃ r', stands records' r' (touched_by ms) ∧ r'.(haltedAt) = Some t) ∨
  (MAX_PAIR_BUDGETS_PER_SESSION <= length (others key ms))%nat ∧
  (Forall (λ m, m.(m_key) ≠ key) ms → absent records').
Proof.
  intros Hr Ht. induction ms as [|m ms IH] using rev_ind.
  { left. exists r. split; [by apply stands_last|done]. }
  rewrite foldl_app, touched_by_snoc. simpl in IH |- *. set (records' := foldl exchange_on _ ms) in *.
  pose proof (exchange_key records' m) as Hk. destruct IH as [(r' & Hs & Ht')|[Hmany Habs]].
  - unfold exchange_on, touch. case_decide as Hm.
    + left. eexists. split; [apply stands_last; by rewrite Hk|].
      apply spendBudget_halted. unfold budgetFor. by rewrite Hm, (find_stands _ _ _ Hs).
    + destruct (upsert_other _ _ _ (spendBudget (budgetFor records' (m_key m)) (m_verb m) (m_progressed m) (m_now m)) Hs)
        as [Hs'|[Ha Hl]]; [apply key_not_touched|by rewrite Hk| |]; rewrite Hk in *; [left; by exists r'|right].
      split; [|done]. pose proof (touched_by_others (ms ++ [m])) as Ho. rewrite touched_by_snoc in Ho.
      unfold touch in Ho. rewrite decide_False in Ho by done. lia.
  - right. split; [pose proof (others_prefix ms m); lia|]. intros [Hms Hm]%Forall_app. apply Forall_cons in Hm as [Hm _].
    unfold exchange_on. apply upsert_absent; [by apply Habs|by rewrite Hk].
Qed.
End standing.

(** Messages to others only: those touched are the others. *)
Lemma others_touched key ms :
  Forall (λ m, m.(m_key) ≠ key) ms → (length (others key ms) <= length (touched_by key ms))%nat.
Proof.
  intros Hms. apply submseteq_length, NoDup_submseteq; [apply NoDup_remove_dups|]. intros k. unfold others.
  rewrite elem_of_remove_dups, list_elem_of_filter. intros [_ Hk]. revert Hk.
  induction ms as [|m ms IH] using rev_ind; [by intros ?%not_elem_of_nil|]. apply Forall_app in Hms as [Hms Hm].
  apply Forall_cons in Hm as [Hm _]. rewrite touched_by_snoc, fmap_app, elem_of_app. unfold touch. rewrite decide_False by done.
  simpl. rewrite list_elem_of_singleton, elem_of_cons, list_elem_of_filter. destruct (decide (k = m.(m_key))); naive_solver.
Qed.

(** How long a halt stands.  After a session's halt on a pair is recorded,
    every further message on the pair is refused, whatever the session
    exchanges, as long as it is with fewer than 64 other peers; time and
    progress do not lift it.  After messages with 64 other peers the record is
    gone, and with it the halt: the pair may go on with nobody having looked. *)
Theorem halt_stands records r t ms verb now :
  r.(haltedAt) = Some t →
  let records' := foldl exchange_on (upsertPairBudget records r) ms in
  let answer := refusalForPair (Some (budgetFor records' r.(budgetKey))) verb now in
  ((length (others r.(budgetKey) ms) < MAX_PAIR_BUDGETS_PER_SESSION)%nat → answer = Some NO_PROGRESS) ∧
  (Forall (λ m, m.(m_key) ≠ r.(budgetKey)) ms →
   (MAX_PAIR_BUDGETS_PER_SESSION <= length (others r.(budgetKey) ms))%nat → answer = None).
Proof.
  intros Ht records' answer. pose proof (halt_run r.(budgetKey) records r t ms eq_refl Ht) as H. fold records' in H. split.
  - intros Hfew. destruct H as [(r' & Hs & Ht')|[? _]]; [|lia].
    unfold answer, budgetFor. rewrite (find_stands _ _ _ _ Hs). unfold refusalForPair, checkHalt. simpl. by rewrite Ht'.
  - intros Hms Hmany. assert (absent r.(budgetKey) records') as Ha.
    { destruct H as [(r' & (pre & post & Heq & _ & _ & _ & Hpost) & _)|[_ Ha]]; [|by apply Ha]. exfalso.
      assert (length records' <= MAX_PAIR_BUDGETS_PER_SESSION)%nat as Hlen.
      { unfold records'. destruct ms as [|m ms _] using rev_ind; [apply upsert_length|]. rewrite foldl_app. apply upsert_length. }
      assert (length (touched_by r.(budgetKey) ms) <= length post)%nat.
      { rewrite <-(length_fmap budgetKey post). apply submseteq_length, NoDup_submseteq; [apply touched_by_NoDup|].
        intros k. by rewrite Hpost. }
      pose proof (others_touched _ _ Hms). rewrite Heq, length_app in Hlen. simpl in Hlen. lia. }
    unfold answer, budgetFor. rewrite (proj2 (find_key_None _ _) Ha). simpl. by destruct verb.
Qed.

(** A pair halted at 100, then messages with [n] other peers. *)
Definition halted_pair : PairBudgetState :=
  {| budgetKey := "a|b"; notifiesAtMs := []; exchangesSinceProgress := 6; haltedAt := Some 100 |}.
Definition other_peers (n : nat) : list Message :=
  (λ i, {| m_key := "peer" +:+ pretty (N.of_nat i); m_verb := post; m_progressed := true; m_now := 200 |}) <$> List.seq 0 n.

Lemma halt_stands_witness :
  refusalForPair (Some (budgetFor (foldl exchange_on (upsertPairBudget [] halted_pair) (other_peers 63)) "a|b")) post 300
    = Some NO_PROGRESS ∧
  refusalForPair (Some (budgetFor (foldl exchange_on (upsertPairBudget [] halted_pair) (other_peers 64)) "a|b")) post 300
    = None.
Proof.
  split.
  - apply (halt_stands [] halted_pair 100 (other_peers 63) post 300 eq_refl). apply Nat.ltb_lt. vm_compute. reflexivity.
  - apply (halt_stands [] halted_pair 100 (other_peers 64) post 300 eq_refl).
    + apply (bool_decide_unpack _). vm_compute. reflexivity.
    + apply Nat.leb_le. vm_compute. reflexivity.
Defined.

(** ** A crash never decides a halt *)

Section durable.
Context (projectIdFor : string → option string).
Implicit Types st : PairBudgetStore.

(** What a session does with the store: charge a message (of a session the
    index can place), a human's lift, or the process's restart. *)
Inductive StoreEvent :=
  | SessionMessage (session : string) (m : Message)
  | HumanActs (session : string) (now : Z)
  | HostRestarts.

Definition store_step (st : PairBudgetStore) (e : StoreEvent) : PairBudgetStore :=
  match e with
  | SessionMessage session m => charge projectIdFor session m.(m_key) m.(m_verb) m.(m_progressed) m.(m_now) st
  | HumanActs session now => clearHalts projectIdFor session now st
  | HostRestarts => restart st
  end.

Definition placed (e : StoreEvent) : Prop :=
  match e with SessionMessage session _ => is_Some (projectIdFor session) | _ => True end.

Definition store_run (evs : list StoreEvent) : PairBudgetStore := foldl store_step new_store evs.

(** The halt of [session] on the pair [key], as the next message would find it. *)
Definition halt_of (session key : string) (now : Z) (st : PairBudgetStore) : option Z :=
  (budgetFor (recordsFor projectIdFor session now st).1 key).(haltedAt).

(** At most 64 records, one per pair. *)
Definition well_kept (records : list PairBudgetState) : Prop :=
  (length records <= MAX_PAIR_BUDGETS_PER_SESSION)%nat ∧ NoDup (budgetKey <$> records).

(** Each halt in memory is on disk. *)
Definition keeps_halts (records stored : list PairBudgetState) : Prop :=
  ∀ key r t, find_key key records = Some r → r.(haltedAt) = Some t →
    ∃ r', find_key key stored = Some r' ∧ r'.(haltedAt) = Some t.

Definition rows_for st session : list PairBudgetState :=
  match projectIdFor session with
  | Some project => st.(disk) !! (project, session) ?| []
  | None => []
  end.

Definition durable st : Prop :=
  (∀ where_ records, st.(disk) !! where_ = Some records → well_kept records) ∧
  ∀ session records, st.(bySession) !! session = Some records →
    is_Some (projectIdFor session) ∧ well_kept records ∧ keeps_halts records (rows_for st session).

Lemma find_key_fmap (f : PairBudgetState → PairBudgetState) key l :
  (∀ r, (f r).(budgetKey) = r.(budgetKey)) → find_key key (f <$> l) = f <$> find_key key l.
Proof.
  intros Hf. destruct (find_key key l) as [r|] eqn:Hl; simpl.
  - apply find_key_Some in Hl as (pre & post & -> & Hk & Hpre). apply find_key_Some.
    exists (f <$> pre), (f <$> post). rewrite fmap_app, fmap_cons, Hf. split_and!; [done..|].
    apply Forall_fmap. eapply Forall_impl; [exact Hpre|]. simpl. intros x. by rewrite Hf.
  - apply find_key_None in Hl. apply find_key_None, Forall_fmap. eapply Forall_impl; [exact Hl|]. simpl. intros x. by rewrite Hf.
Qed.

Lemma well_kept_nil : well_kept [].
Proof. split; [simpl; lia|constructor]. Qed.

Lemma well_kept_disk st where_ : durable st → well_kept (st.(disk) !! where_ ?| []).
Proof. intros [Hd _]. destruct (disk st !! where_) as [l|] eqn:Hl; [by apply (Hd where_)|apply well_kept_nil]. Qed.

Lemma well_kept_fmap (f : PairBudgetState → PairBudgetState) l :
  (∀ r, (f r).(budgetKey) = r.(budgetKey)) → well_kept l → well_kept (f <$> l).
Proof.
  intros Hf [Hl Hn]. split; [by rewrite length_fmap|].
  rewrite <-list_fmap_compose.
  rewrite (list_fmap_ext _ budgetKey); [done|]. intros i x _. apply Hf.
Qed.

Lemma well_kept_upsert l next : well_kept l → well_kept (upsertPairBudget l next).
Proof.
  intros [_ Hn]. split; [apply upsert_length|]. destruct (upsert_drop l next) as (n & -> & _).
  rewrite fmap_drop. eapply sublist_NoDup; [|apply sublist_drop]. rewrite fmap_app. apply NoDup_app. split_and!.
  - eapply sublist_NoDup; [exact Hn|]. apply fmap_sublist, sublist_filter.
  - intros k Hk. apply elem_filter_ne_key in Hk as [Hk _]. simpl. by intros ?%list_elem_of_singleton.
  - apply NoDup_singleton.
Qed.

(** In a well-kept list a record is found by its key. *)
Lemma find_key_elem l key r : well_kept l → find_key key l = Some r ↔ r ∈ l ∧ r.(budgetKey) = key.
Proof.
  intros [_ Hn]. rewrite find_key_Some. split.
  - intros (pre & post & -> & Hk & _). split; [apply elem_of_the_middle|done].
  - intros [(pre & post & ->)%list_elem_of_split Hk]. exists pre, post. split_and!; [done..|].
    rewrite fmap_app, fmap_cons in Hn. apply NoDup_split_not_in in Hn as [Hn _].
    apply Forall_forall. intros x Hx Heq. apply Hn. rewrite Hk, <-Heq. by apply list_elem_of_fmap_2.
Qed.

Lemma loaded_halts st project session now :
  durable st → ∀ key, haltedAt <$> find_key key (loadPairBudgets st project session now) =
    haltedAt <$> find_key key (st.(disk) !! (project, session) ?| []).
Proof.
  intros Hd key. unfold loadPairBudgets. rewrite find_key_fmap by (intros; apply load_same).
  rewrite slice_last_short by apply well_kept_disk, Hd. destruct (find_key key _); [|done]. simpl. f_equal. apply load_same.
Qed.

Lemma loaded_kept st project session now : durable st → well_kept (loadPairBudgets st project session now).
Proof.
  intros Hd. unfold loadPairBudgets. apply well_kept_fmap; [intros; apply load_same|].
  pose proof (well_kept_disk st (project, session) Hd) as Hk. rewrite slice_last_short by apply Hk. done.
Qed.

(** A cached list may only hold halts that are on disk. *)
Lemma durable_cache session records st :
  durable st → is_Some (projectIdFor session) → well_kept records → keeps_halts records (rows_for st session) →
  durable (cache session records st).
Proof.
  intros [Hd Hc] Hp Hw Hk. split; [exact Hd|]. intros s l. simpl.
  destruct (decide (s = session)) as [->|Hne]; [rewrite lookup_insert_eq; by intros [= <-]|].
  rewrite lookup_insert_ne by done. apply Hc.
Qed.

Lemma durable_load session now st :
  durable st →
  let '(records, st') := load_records projectIdFor session now st in
  durable st' ∧ st'.(disk) = st.(disk) ∧ well_kept records ∧ keeps_halts records (rows_for st session) ∧
  (st'.(bySession) !! session = Some records ∨ records = [] ∧ projectIdFor session = None).
Proof.
  intros Hst. pose proof Hst as [Hd Hc]. unfold load_records. destruct (bySession st !! session) as [records|] eqn:Hm.
  { destruct (Hc _ _ Hm) as (_ & ? & ?). split_and!; try done. by left. }
  destruct (projectIdFor session) as [project|] eqn:Hp.
  2: { split_and!; [done|done|apply well_kept_nil|by intros key r t|by right]. }
  assert (keeps_halts (loadPairBudgets st project session now) (rows_for st session)) as Hk.
  { intros key r t Hf Ht. unfold rows_for. rewrite Hp.
    pose proof (loaded_halts st project session now Hst key) as Hl. rewrite Hf in Hl. simpl in Hl.
    destruct (find_key key (disk st !! (project, session) ?| [])) as [r'|]; simplify_eq/=. exists r'. split; congruence. }
  pose proof (loaded_kept st project session now Hst). split_and!; try done.
  - by apply durable_cache.
  - left. simpl. by rewrite lookup_insert_eq.
Qed.

(** Writing back is forced when a halt is new, and then it is on disk. *)
Lemma durable_flush session records force now st :
  durable st → is_Some (projectIdFor session) → well_kept records →
  (force = false → keeps_halts records (rows_for st session)) →
  durable (flush projectIdFor session records force now (cache session records st)).
Proof.
  intros Hst [project Hp] Hw Hk. unfold flush. destruct (negb force && _) eqn:Hf.
  { apply andb_true_iff in Hf as [Hf%negb_true_iff _]. apply durable_cache; auto. }
  rewrite Hp. destruct Hst as [Hd Hc]. split.
  - intros where_ l. simpl. rewrite lookup_insert. case_decide; [|apply Hd].
    intros [= <-]. rewrite slice_last_short by apply Hw. done.
  - intros s l. simpl. unfold rows_for. destruct (decide (s = session)) as [->|Hne].
    + rewrite lookup_insert_eq. intros [= <-]. rewrite Hp. simpl. rewrite lookup_insert_eq. simpl.
      rewrite slice_last_short by apply Hw. split_and!; [done|done|]. intros key r t Hr Ht. by exists r.
    + rewrite lookup_insert_ne by done. intros Hl. destruct (Hc s l Hl) as (H1 & H2 & H3). split_and!; [done..|].
      unfold rows_for in H3. destruct (projectIdFor s); [|done]. simpl. by rewrite lookup_insert_ne by congruence.
Qed.

Lemma durable_write session next now st :
  durable st → is_Some (projectIdFor session) → durable (write projectIdFor session next now st).
Proof.
  intros Hst Hp. unfold write. pose proof (durable_load session now st Hst) as Hload.
  destruct (load_records projectIdFor session now st) as [held st1]. destruct Hload as (Hst1 & Hd & Hw & Hk & _).
  apply durable_flush; [done..|by apply well_kept_upsert|]. intros Hn%bool_decide_eq_false key r t.
  rewrite find_key_elem by (by apply well_kept_upsert). intros [Hr Hkey] Ht.
  destruct (upsert_drop held next) as (n & Heq & _). rewrite Heq in Hr.
  assert (r ∈ filter (λ x, x.(budgetKey) ≠ next.(budgetKey)) held ++ [next]) as [Hin|Hin]%elem_of_app.
  { rewrite <-(take_drop n (_ ++ _)). apply elem_of_app. by right. }
  - apply list_elem_of_filter in Hin as [_ Hin]. unfold rows_for. rewrite Hd. apply (Hk key r t); [|done].
    by apply find_key_elem.
  - apply list_elem_of_singleton in Hin as ->. exfalso. apply Hn. by rewrite Ht.
Qed.

Lemma durable_lift session only now st : durable st → durable (lift projectIdFor session only now st).2.
Proof.
  intros Hst. unfold lift. pose proof (durable_load session now st Hst) as Hload.
  destruct (load_records projectIdFor session now st) as [records st1]. destruct Hload as (Hst1 & _ & Hw & _ & Hm).
  destruct (budgetKey <$> filter _ records) as [|k ks] eqn:Hl; [done|]. apply durable_flush; [done| | |done].
  - destruct Hm as [Hm|[-> _]]; [by apply (proj2 Hst1) in Hm as [? _]|done].
  - apply well_kept_fmap; [|done]. intros r. unfold clearHalt. by repeat case_match.
Qed.

Lemma durable_clearHalts session now st : durable st → durable (clearHalts projectIdFor session now st).
Proof.
  intros Hst. unfold clearHalts. pose proof (durable_lift session None now st Hst) as Hl.
  destruct (lift projectIdFor session None now st) as [keys st1]. simpl in Hl. clear st Hst. revert st1 Hl.
  induction keys as [|key keys IH]; intros st Hst; simpl; [done|]. apply IH.
  destruct (pairEnds key) as [[e0 e1]|]; [|done]. simpl.
  assert (∀ e st, durable st → durable (if bool_decide (e.(sessionId) = session) then st
    else (lift projectIdFor e.(sessionId) (Some key) now st).2)) as Hone.
  { intros e s Hs. case_match; [done|]. by apply durable_lift. }
  by do 2 apply Hone.
Qed.

Lemma durable_run evs : Forall placed evs → durable (store_run evs).
Proof.
  unfold store_run. induction evs as [|e evs IH] using rev_ind; intros Hall.
  { split; intros ??; simpl; by rewrite lookup_empty. }
  apply Forall_app in Hall as [Hall He]. apply Forall_cons in He as [He _]. specialize (IH Hall).
  rewrite foldl_app. simpl. destruct e as [session m|session now|]; simpl.
  - unfold charge, recordsFor. pose proof (durable_load session (m_now m) _ IH) as Hl.
    destruct (load_records projectIdFor session (m_now m) _) as [records st1]. apply durable_write; [apply Hl|exact He].
  - by apply durable_clearHalts.
  - split; [apply IH|]. intros ??. simpl. by rewrite lookup_empty.
Qed.

(** *** What the next message finds *)

Lemma budgetFor_halt l key : (budgetFor l key).(haltedAt) = find_key key l ≫= haltedAt.
Proof. unfold budgetFor. by destruct (find_key key l). Qed.

Lemma halt_of_restart st session key now :
  durable st → halt_of session key now (restart st) = find_key key (rows_for st session) ≫= haltedAt.
Proof.
  intros Hst. unfold halt_of, recordsFor, load_records, rows_for. simpl. rewrite lookup_empty.
  destruct (projectIdFor session) as [project|]; [|done]. simpl. rewrite budgetFor_halt.
  change (loadPairBudgets (restart st)) with (loadPairBudgets st).
  pose proof (loaded_halts st project session now Hst key) as H.
  destruct (find_key key (loadPairBudgets st project session now)), (find_key key (disk st !! (project, session) ?| []));
    simplify_eq/=; congruence.
Qed.

Lemma halt_of_stored st session key now t :
  durable st → halt_of session key now st = Some t → find_key key (rows_for st session) ≫= haltedAt = Some t.
Proof.
  intros Hst. unfold halt_of, recordsFor. pose proof (durable_load session now st Hst) as Hl.
  destruct (load_records projectIdFor session now st) as [records st1]. destruct Hl as (_ & _ & _ & Hk & _). simpl.
  rewrite budgetFor_halt. destruct (find_key key records) as [r|] eqn:Hf; [|done]. simpl. intros Ht.
  destruct (Hk key r t Hf Ht) as (r' & -> & Hr'). done.
Qed.

Lemma halt_of_ext st st' session key now :
  st'.(bySession) !! session = st.(bySession) !! session → rows_for st' session = rows_for st session →
  halt_of session key now st' = halt_of session key now st.
Proof.
  unfold halt_of, recordsFor, load_records, rows_for, loadPairBudgets. intros ->.
  destruct (bySession st !! session); [done|]. destruct (projectIdFor session); [|done]. simpl. by intros ->.
Qed.

(** Lifting in one session leaves the others alone. *)
Lemma lift_frame s only now st session :
  s ≠ session →
  (lift projectIdFor s only now st).2.(bySession) !! session = st.(bySession) !! session ∧
  rows_for (lift projectIdFor s only now st).2 session = rows_for st session.
Proof.
  intros Hne. unfold lift, load_records, flush, cache, savePairBudgets, stamp, rows_for.
  destruct (bySession st !! s) as [l|], (projectIdFor s) as [p|]; simpl;
    try destruct (budgetKey <$> filter _ _); simpl; rewrite ?lookup_insert_ne by done;
    (split; [done|]); destruct (projectIdFor session); rewrite ?lookup_insert_ne by congruence; done.
Qed.

Lemma lift_spec session now st :
  durable st →
  let st' := (lift projectIdFor session None now st).2 in
  ∀ key, (∀ now', halt_of session key now' st' = None) ∧
    (halt_of session key now st ≠ None → find_key key (rows_for st' session) ≫= haltedAt = None).
Proof.
  intros Hst st' key. unfold st', lift. pose proof (durable_load session now st Hst) as Hl.
  assert (halt_of session key now st = find_key key (load_records projectIdFor session now st).1 ≫= haltedAt) as Hh.
  { unfold halt_of, recordsFor. apply budgetFor_halt. }
  destruct (load_records projectIdFor session now st) as [records st1]. simpl in Hh. destruct Hl as (Hst1 & _ & Hw & _ & Hm).
  destruct (budgetKey <$> filter _ records) as [|k ks] eqn:Hf.
  - assert (find_key key records ≫= haltedAt = None) as Hnone.
    { destruct (find_key key records) as [r|] eqn:Hr; [|done]. simpl. apply find_key_elem in Hr as [Hr _]; [|done].
      apply fmap_nil_inv in Hf. destruct (haltedAt r) eqn:Ht; [|done]. exfalso.
      apply (filter_nil_not_elem_of _ _ r Hf); [|done]. unfold liftable. rewrite bool_decide_eq_true_2; [done|by rewrite Ht]. }
    split; [|congruence]. intros now'. simpl. unfold halt_of, recordsFor, load_records.
    destruct Hm as [->|[-> Hp]]; simpl; [by rewrite budgetFor_halt|].
    destruct (bySession st1 !! session) as [l|] eqn:Hb; [|by rewrite Hp].
    destruct (proj2 Hst1 _ _ Hb) as [[? Hs] _]. congruence.
  - set (next := _ <$> records). assert (find_key key next ≫= haltedAt = None) as Hnone.
    { unfold next. rewrite find_key_fmap.
      - destruct (find_key key records) as [r|]; [|done]. simpl. unfold liftable, clearHalt.
        destruct (haltedAt r) eqn:Ht; simpl; [done|]. by rewrite Ht.
      - intros r. unfold clearHalt. by repeat case_match. }
    destruct Hm as [Hm|[-> _]]; [|done]. destruct (proj2 Hst1 _ _ Hm) as [[project Hp] _].
    unfold flush. simpl. rewrite Hp. split.
    + intros now'. unfold halt_of, recordsFor, load_records. simpl. rewrite lookup_insert_eq. simpl. by rewrite budgetFor_halt.
    + intros _. unfold rows_for. rewrite Hp. simpl. rewrite lookup_insert_eq. simpl.
      rewrite slice_last_short; [done|]. unfold next. rewrite length_fmap. apply Hw.
Qed.

(** C34: a crash never decides a halt.  In every state the host's store can
    reach by messages of sessions it can place, human acts and restarts: a halt
    the next message would find is found unchanged after a restart, at any
    later time; and when a human acts in a session, no halt of it is found any
    more, neither at once nor, for a pair that was halted, after a restart. *)
Theorem halts_durable evs session key :
  Forall placed evs →
  let st := store_run evs in
  (∀ now now' t, halt_of session key now st = Some t → halt_of session key now' (restart st) = Some t) ∧
  (∀ now now', let st' := clearHalts projectIdFor session now st in
     halt_of session key now' st' = None ∧
     (halt_of session key now st ≠ None → halt_of session key now' (restart st') = None)).
Proof.
  intros Hall st. pose proof (durable_run evs Hall) as Hst. fold st in Hst. split.
  { intros now now' t Ht. rewrite halt_of_restart by done. by apply (halt_of_stored _ _ _ now). }
  intros now now' st'. unfold st'.
  assert ((∀ n, halt_of session key n (clearHalts projectIdFor session now st) = halt_of session key n (lift projectIdFor session None now st).2) ∧
    rows_for (clearHalts projectIdFor session now st) session = rows_for (lift projectIdFor session None now st).2 session) as [H1 H2].
  { unfold clearHalts. destruct (lift projectIdFor session None now st) as [keys st1]. simpl. clear.
    revert st1. induction keys as [|k keys IH]; intros st; simpl; [done|].
    set (st1 := match pairEnds k with Some _ => _ | None => _ end).
    assert (st1.(bySession) !! session = st.(bySession) !! session ∧ rows_for st1 session = rows_for st session) as [E1 E2].
    { unfold st1. destruct (pairEnds k) as [[e0 e1]|]; [|done]. simpl.
      assert (∀ e s, let s' := (if bool_decide (e.(sessionId) = session) then s else (lift projectIdFor e.(sessionId) (Some k) now s).2) in
        s'.(bySession) !! session = s.(bySession) !! session ∧ rows_for s' session = rows_for s session) as Hone.
      { intros e s. simpl. case_bool_decide; [done|]. by apply lift_frame. }
      destruct (Hone e0 st) as [A1 A2]. destruct (Hone e1 (if bool_decide (e0.(sessionId) = session) then st
        else (lift projectIdFor e0.(sessionId) (Some k) now st).2)) as [B1 B2]. cbv zeta in *. split; congruence. }
    destruct (IH st1) as [I1 I2]. split; [|congruence]. intros n. rewrite I1. by apply halt_of_ext. }
  destruct (lift_spec session now st Hst key) as [L1 L2]. split; [by rewrite H1|]. intros Hh.
  rewrite halt_of_restart by (by apply durable_clearHalts). rewrite H2. by apply L2.
Qed.
End durable.

(** Six posts halt a pair; it is halted after a restart, until a human acts. *)
Lemma halts_durable_witness :
  let index := λ s : string, if bool_decide (s = "s") then Some "p" else None in
  let m := {| m_key := "m0/s|m1/t"; m_verb := post; m_progressed := false; m_now := 7 |} in
  let st := store_run index (replicate 6 (SessionMessage "s" m)) in
  halt_of index "s" "m0/s|m1/t" 8 st = Some 7 ∧ halt_of index "s" "m0/s|m1/t" 9 (restart st) = Some 7 ∧
  halt_of index "s" "m0/s|m1/t" 9 (restart (clearHalts index "s" 8 st)) = None.
Proof.
  intros index m st. assert (Forall (placed index) (replicate 6 (SessionMessage "s" m))) as Hall.
  { repeat constructor; eexists; reflexivity. }
  destruct (halts_durable index _ "s" "m0/s|m1/t" Hall) as [H1 H2]. fold st in H1, H2.
  assert (halt_of index "s" "m0/s|m1/t" 8 st = Some 7) as Hh by (vm_compute; reflexivity).
  split; [exact Hh|]. split; [exact (H1 8 9 7 Hh)|]. apply (H2 8 9). rewrite Hh. discriminate.
Defined.
