(* ===== verification/DeliveryQueue.v ===== *)
(** * DeliveryQueue: lines waiting for a session's turn boundary

    src/bridge/src/session-bus/delivery-queue.ts.  A rendered line is held, on
    disk too, until its session can read it as a new instruction, and is then
    handed to the session's adapter.  An adapter that announces turns keeps the
    line stamped until the turn it opens; a timer re-enters the drain for a turn
    that never opens, and a second attempt is the last one.

    The outside is four oracles, read at successive [ticks]: the clock, the
    work-status predicate [canDeliver], the adapter [inject], which may move the
    work status and so re-enter the queue before it returns, and whether a write
    to the database went through. *)

From S2P Require Import Prelude.

Local Open Scope Z_scope.
Local Open Scope js_scope.

(** ** Lines *)

Definition SUBMIT_READY_TIMEOUT_MS : Z := 15000.
Definition CONFIRM_TIMEOUT_MS : Z := SUBMIT_READY_TIMEOUT_MS + 15000.
Definition MAX_SUBMIT_ATTEMPTS : Z := 2.
Definition MAX_QUEUED_LINES : nat := 64.

Inductive BusInjectOutcome := refused | submitted | awaiting_turn.
Inductive DeliveryKind := notify | reply.

#[export] Instance DeliveryKind_eq_dec : EqDecision DeliveryKind.
Proof. solve_decision. Defined.

Record QueuedLine := {
  id : string;
  sessionId : string;
  kind : DeliveryKind;
  text : string;
  queuedAt : Z;
  sentAt : option Z;
  attempts : option Z }.

#[export] Instance QueuedLine_eq_dec : EqDecision QueuedLine.
Proof. solve_decision. Defined.

Definition EVICTABLE_KINDS : list DeliveryKind := [notify; reply].

(** What [enqueueLine] makes room by dropping. *)
Definition evicted_index (lines : list QueuedLine) : nat :=
  match list_find (λ l, l.(kind) ∈ EVICTABLE_KINDS) lines with
  | Some (i, _) => i
  | None => 0
  end.

(** [None] is the state itself, unchanged. *)
Definition enqueueLine (lines : list QueuedLine) (line : QueuedLine) : option (list QueuedLine) :=
  if existsb (λ l, bool_decide (l.(id) = line.(id))) lines then None
  else let lines := lines ++ [line] in
       if (length lines <=? MAX_QUEUED_LINES)%nat then Some lines
       else Some (delete (evicted_index lines) lines).

Definition linesFor (lines : list QueuedLine) (s : string) : list QueuedLine :=
  filter (λ l, l.(sessionId) = s) lines.

Definition removeLine (lines : list QueuedLine) (i : string) : list QueuedLine :=
  filter (λ l, l.(id) ≠ i) lines.

Definition stamped (at_ : Z) (l : QueuedLine) : QueuedLine :=
  {| id := l.(id); sessionId := l.(sessionId); kind := l.(kind); text := l.(text); queuedAt := l.(queuedAt);
     sentAt := Some at_; attempts := Some ((l.(attempts) ?| 0) + 1) |}.

Definition stampSubmitted (lines : list QueuedLine) (i : string) (at_ : Z) : list QueuedLine :=
  (λ l, if decide (l.(id) = i) then stamped at_ l else l) <$> lines.

Definition forgetSession (lines : list QueuedLine) (s : string) : option (list QueuedLine) :=
  let kept := filter (λ l, l.(sessionId) ≠ s) lines in
  if (length kept =? length lines)%nat then None else Some kept.

Definition unstamped (l : QueuedLine) : QueuedLine :=
  {| id := l.(id); sessionId := l.(sessionId); kind := l.(kind); text := l.(text); queuedAt := l.(queuedAt);
     sentAt := None; attempts := l.(attempts) |}.

Definition asUnsubmitted (lines : list QueuedLine) : list QueuedLine :=
  (λ l, match l.(sentAt) with None => l | Some _ => unstamped l end) <$> lines.

(** ** The queue *)

(** Why a line left the queue, as the trace tells it: a submit with the tick
    its hand-over began at, an eviction with the lines held at that moment, the
    new one last. *)
Inductive Departure :=
  | Submitted (k : nat)
  | Confirmed
  | GivenUp
  | Forgotten
  | Evicted (held : list QueuedLine).

Record Queue := {
  lines : list QueuedLine;
  draining : bool;
  (** the pending confirmations: when each session's timer is due *)
  confirmTimers : gmap string Z;
  (** the rows of [bus_deliveries] of this project *)
  disk : list QueuedLine;
  ticks : nat;
  (** history: the ids taken in, the lines gone, the hand-overs with the tick
      [canDeliver] was asked at, the sessions told to forget, and the restarts *)
  accepted : list string;
  gone : list (Departure * QueuedLine);
  handed : list (nat * QueuedLine);
  forgotten : list string;
  restarts : nat }.

Definition upd_lines (f : list QueuedLine → list QueuedLine) (q : Queue) : Queue :=
  {| lines := f q.(lines); draining := q.(draining); confirmTimers := q.(confirmTimers); disk := q.(disk); ticks := q.(ticks);
     accepted := q.(accepted); gone := q.(gone); handed := q.(handed); forgotten := q.(forgotten); restarts := q.(restarts) |}.
Definition set_draining (b : bool) (q : Queue) : Queue :=
  {| lines := q.(lines); draining := b; confirmTimers := q.(confirmTimers); disk := q.(disk); ticks := q.(ticks);
     accepted := q.(accepted); gone := q.(gone); handed := q.(handed); forgotten := q.(forgotten); restarts := q.(restarts) |}.
Definition upd_timers (f : gmap string Z → gmap string Z) (q : Queue) : Queue :=
  {| lines := q.(lines); draining := q.(draining); confirmTimers := f q.(confirmTimers); disk := q.(disk); ticks := q.(ticks);
     accepted := q.(accepted); gone := q.(gone); handed := q.(handed); forgotten := q.(forgotten); restarts := q.(restarts) |}.
Definition set_disk (d : list QueuedLine) (q : Queue) : Queue :=
  {| lines := q.(lines); draining := q.(draining); confirmTimers := q.(confirmTimers); disk := d; ticks := q.(ticks);
     accepted := q.(accepted); gone := q.(gone); handed := q.(handed); forgotten := q.(forgotten); restarts := q.(restarts) |}.
Definition tick (q : Queue) : Queue :=
  {| lines := q.(lines); draining := q.(draining); confirmTimers := q.(confirmTimers); disk := q.(disk); ticks := S q.(ticks);
     accepted := q.(accepted); gone := q.(gone); handed := q.(handed); forgotten := q.(forgotten); restarts := q.(restarts) |}.
Definition note_accepted (i : string) (q : Queue) : Queue :=
  {| lines := q.(lines); draining := q.(draining); confirmTimers := q.(confirmTimers); disk := q.(disk); ticks := q.(ticks);
     accepted := i :: q.(accepted); gone := q.(gone); handed := q.(handed); forgotten := q.(forgotten); restarts := q.(restarts) |}.
Definition note_gone (d : Departure) (l : list QueuedLine) (q : Queue) : Queue :=
  {| lines := q.(lines); draining := q.(draining); confirmTimers := q.(confirmTimers); disk := q.(disk); ticks := q.(ticks);
     accepted := q.(accepted); gone := (pair d <$> l) ++ q.(gone); handed := q.(handed); forgotten := q.(forgotten); restarts := q.(restarts) |}.
Definition note_handed (k : nat) (l : QueuedLine) (q : Queue) : Queue :=
  {| lines := q.(lines); draining := q.(draining); confirmTimers := q.(confirmTimers); disk := q.(disk); ticks := q.(ticks);
     accepted := q.(accepted); gone := q.(gone); handed := (k, l) :: q.(handed); forgotten := q.(forgotten); restarts := q.(restarts) |}.
Definition note_forgotten (s : string) (q : Queue) : Queue :=
  {| lines := q.(lines); draining := q.(draining); confirmTimers := q.(confirmTimers); disk := q.(disk); ticks := q.(ticks);
     accepted := q.(accepted); gone := q.(gone); handed := q.(handed); forgotten := s :: q.(forgotten); restarts := q.(restarts) |}.

Definition no_deliveries : Queue :=
  {| lines := []; draining := false; confirmTimers := ∅; disk := []; ticks := 0;
     accepted := []; gone := []; handed := []; forgotten := []; restarts := 0 |}.

(** What the work status does while [inject] runs: [commitWork] of
    src/bridge/src/project-core.ts confirms the turns that opened and drains
    the sessions that became deliverable. *)
Inductive Reentry := ReConfirm (s : string) | ReDrain (s : string).

Section queue.
Context (time : nat → Z) (canDeliver : nat → string → bool).
(** [None] for an adapter that throws. *)
Context (inject : nat → QueuedLine → list Reentry * option BusInjectOutcome).
Context (saves : nat → bool).

Definition now (q : Queue) : Z := time q.(ticks).

Definition head_for (q : Queue) (s : string) : option QueuedLine := head (linesFor q.(lines) s).

Definition stamped_head (lines : list QueuedLine) (s : string) : bool :=
  match head (linesFor lines s) with Some l => bool_decide (l.(sentAt) ≠ None) | None => false end.

(** The timers whose session still has a stamped head. *)
Definition watched (lines : list QueuedLine) (timers : gmap string Z) : gmap string Z :=
  filter (λ kv, stamped_head lines kv.1 = true) timers.

Definition saveDeliveries (q : Queue) : Queue :=
  tick (if saves q.(ticks) then set_disk (slice_last MAX_QUEUED_LINES q.(lines)) q else q).

Definition commit (next : list QueuedLine) (q : Queue) : Queue :=
  saveDeliveries (upd_timers (watched next) (upd_lines (λ _, next) q)).

(** [commit(removeLine(id))], noting the departure. *)
Definition leave (d : Departure) (i : string) (q : Queue) : Queue :=
  commit (removeLine q.(lines) i) (note_gone d (filter (λ l, l.(id) = i) q.(lines)) q).

Definition armConfirm (s : string) (at_ : Z) (q : Queue) : Queue :=
  upd_timers <[s := at_ + CONFIRM_TIMEOUT_MS]> q.

Definition confirm (s : string) (q : Queue) : Queue :=
  match head_for q s with
  | Some line => match line.(sentAt) with Some _ => leave Confirmed line.(id) q | None => q end
  | None => q
  end.

(** [drain] from the question whether the session is at a boundary on: the
    line is handed over, with [again] for the drains that re-enter. *)
Definition attempt (again : string → Queue → Queue) (s : string) (line : QueuedLine) (q : Queue) : Queue :=
  let k := q.(ticks) in
  if negb (canDeliver k s) then tick (tick q)
  else
    let q := set_draining true (note_handed k line (tick q)) in
    let '(acts, outcome) := inject q.(ticks) line in
    let q := foldl (λ q act, match act with ReConfirm s' => confirm s' q | ReDrain s' => again s' q end) (tick q) acts in
    let q := set_draining false q in
    match outcome with
    | None | Some refused => q
    | Some submitted => leave (Submitted k) line.(id) q
    | Some awaiting_turn =>
        let at_ := now q in
        armConfirm s at_ (commit (stampSubmitted q.(lines) line.(id) at_) (tick q))
    end.

Fixpoint drain (fuel : nat) (s : string) (q : Queue) : Queue :=
  match fuel with
  | O => q
  | S fuel =>
      if q.(draining) then q
      else
      match head_for q s with
      | None => q
      | Some line =>
          match line.(sentAt) with
          | None => attempt (drain fuel) s line q
          | Some t =>
              if now q - t <? CONFIRM_TIMEOUT_MS then tick q
              else if MAX_SUBMIT_ATTEMPTS <=? (line.(attempts) ?| 0)
                   then drain fuel s (leave GivenUp line.(id) (tick q))
                   else attempt (drain fuel) s line (tick q)
          end
      end
  end.

(** Each recursion drops a line: one more than the lines held is enough. *)
Definition drain_session (s : string) (q : Queue) : Queue := drain (S (length q.(lines))) s q.

Definition queue (line : QueuedLine) (q : Queue) : Queue :=
  let line := {| id := line.(id); sessionId := line.(sessionId); kind := line.(kind); text := line.(text);
                 queuedAt := now q; sentAt := line.(sentAt); attempts := line.(attempts) |} in
  let q := tick q in
  drain_session line.(sessionId)
    match enqueueLine q.(lines) line with
    | None => q
    | Some next =>
        commit next (note_gone (Evicted (q.(lines) ++ [line])) (filter (λ l, l ∉ next) (q.(lines) ++ [line])) (note_accepted line.(id) q))
    end.

Definition drainAll (q : Queue) : Queue :=
  foldl (λ q s, drain_session s q) q (remove_dups (sessionId <$> q.(lines))).

Definition forget (s : string) (q : Queue) : Queue :=
  let q := note_forgotten s q in
  match forgetSession q.(lines) s with
  | None => q
  | Some next => commit next (note_gone Forgotten (linesFor q.(lines) s) q)
  end.

(** A timer fires. *)
Definition confirm_timeout (s : string) (q : Queue) : Queue := drain_session s (upd_timers (base.delete s) q).

(** The process is replaced by one that loads the rows. *)
Definition reopen (q : Queue) : Queue :=
  {| lines := asUnsubmitted (slice_last MAX_QUEUED_LINES q.(disk)); draining := false; confirmTimers := ∅; disk := q.(disk);
     ticks := q.(ticks); accepted := q.(accepted); gone := q.(gone); handed := q.(handed); forgotten := q.(forgotten); restarts := S q.(restarts) |}.

(** ** The queue's life *)

Inductive QueueEvent :=
  | EvQueue (line : QueuedLine)
  | EvDrain (s : string)
  | EvDrainAll
  | EvConfirm (s : string)
  | EvForget (s : string)
  | EvTimer (s : string)
  | EvReopen.

Definition queue_event (e : QueueEvent) (q : Queue) : Queue :=
  match e with
  | EvQueue line => queue line q
  | EvDrain s => drain_session s q
  | EvDrainAll => drainAll q
  | EvConfirm s => confirm s q
  | EvForget s => forget s q
  | EvTimer s => confirm_timeout s q
  | EvReopen => reopen q
  end.

(** A line arrives without a stamp; a timer fires when it is due, not before. *)
Definition queue_allows (e : QueueEvent) (q : Queue) : bool :=
  match e with
  | EvQueue line => bool_decide (line.(sentAt) = None) && bool_decide (line.(attempts) = None)
  | EvTimer s => match q.(confirmTimers) !! s with Some due => due <=? now q | None => false end
  | _ => true
  end.

Inductive QueueReach : Queue → Prop :=
  | reach_new : QueueReach no_deliveries
  | reach_step q e : QueueReach q → queue_allows e q = true → QueueReach (queue_event e q).

Definition run_queue (evs : list QueueEvent) : Queue := foldl (λ q e, queue_event e q) no_deliveries evs.
End queue.

(** ** Heads and sublists *)

Lemma sublist_head {A} (k r : list A) x : sublist k (x :: r) → x ∈ k → NoDup (x :: r) → head k = Some x.
Proof.
  intros Hs Hx [Hn _]%NoDup_cons. inversion Hs as [| |? ? ? Hs']; subst; [done|].
  exfalso. apply Hn. eapply elem_of_submseteq; [exact Hx|]. by apply sublist_submseteq.
Qed.

(** A line that stays is still the head of its session when others go. *)
Lemma head_sublist (k l : list QueuedLine) s x :
  sublist k l → head (linesFor l s) = Some x → x ∈ k → NoDup l → head (linesFor k s) = Some x.
Proof.
  intros Hs Hh Hx Hn. pose proof (sublist_filter_mono (λ y, y.(sessionId) = s) k l Hs) as Hf.
  unfold linesFor in *. destruct (filter (λ y, y.(sessionId) = s) l) as [|y r] eqn:Hl; simplify_eq/=.
  assert (x ∈ filter (λ y, y.(sessionId) = s) l) as [Hsx _]%list_elem_of_filter by (rewrite Hl; left).
  apply (sublist_head _ r); [done|by apply list_elem_of_filter|]. rewrite <-Hl. by apply NoDup_filter.
Qed.

Lemma head_linesFor l s x : head (linesFor l s) = Some x → x ∈ l ∧ x.(sessionId) = s.
Proof. intros Hx%head_Some_elem_of. by apply list_elem_of_filter in Hx as [??]. Qed.

Lemma head_linesFor_snoc l s x y : head (linesFor l s) = Some x → head (linesFor (l ++ [y]) s) = Some x.
Proof. unfold linesFor. rewrite filter_app. by destruct (filter _ l). Qed.

Lemma NoDup_ids (l : list QueuedLine) : NoDup (id <$> l) → NoDup l.
Proof. apply NoDup_fmap_1. Qed.

Lemma same_id (l : list QueuedLine) x y : NoDup (id <$> l) → x ∈ l → y ∈ l → x.(id) = y.(id) → x = y.
Proof.
  intros Hn Hx Hy Heq. apply list_elem_of_lookup in Hx as [i Hi], Hy as [j Hj].
  assert (i = j) as ->; [|congruence]. apply (NoDup_lookup _ _ _ x.(id) Hn).
  - by rewrite list_lookup_fmap, Hi.
  - by rewrite list_lookup_fmap, Hj, Heq.
Qed.

(** ** The invariant *)

Section invariant.
Context (time : nat → Z) (canDeliver : nat → string → bool).
Context (inject : nat → QueuedLine → list Reentry * option BusInjectOutcome).
Context (saves : nat → bool).
Context (Hclock : ∀ i j, (i <= j)%nat → time i <= time j) (Hsaves : ∀ n, saves n = true).

(** How often a line has been handed to an adapter that awaits its turn: at
    most twice in one process, and once more for each restart. *)
Definition line_ok (r : nat) (l : QueuedLine) : Prop :=
  match l.(sentAt) with
  | None => (l.(attempts) ?| 0) <= 1 + Z.of_nat r
  | Some _ => (l.(attempts) ?| 0) <= MAX_SUBMIT_ATTEMPTS + Z.of_nat r
  end.

Definition lines_ok (r : nat) (l : list QueuedLine) : Prop :=
  NoDup (id <$> l) ∧ (length l <= MAX_QUEUED_LINES)%nat ∧ Forall (line_ok r) l.

(** A stamped line is its session's head, and its timer is pending or its wait
    is over. *)
Definition watch_ok (l : list QueuedLine) (timers : gmap string Z) (at_ : Z) : Prop :=
  ∀ x t, x ∈ l → x.(sentAt) = Some t →
    head (linesFor l x.(sessionId)) = Some x ∧
    (timers !! x.(sessionId) = Some (t + CONFIRM_TIMEOUT_MS) ∨ t + CONFIRM_TIMEOUT_MS <= at_).

(** What has happened for a line to be gone. *)
Definition gone_ok (h : list (nat * QueuedLine)) (f : list string) (g : Departure * QueuedLine) : Prop :=
  match g.1 with
  | Submitted k => (k, g.2) ∈ h ∧ (inject (S k) g.2).2 = Some submitted
  | Confirmed => g.2.(sentAt) ≠ None
  | GivenUp => g.2.(sentAt) ≠ None ∧ MAX_SUBMIT_ATTEMPTS <= (g.2.(attempts) ?| 0)
  | Forgotten => g.2.(sessionId) ∈ f
  | Evicted held => length held = S MAX_QUEUED_LINES ∧ NoDup (id <$> held) ∧ head held = Some g.2
  end.

Lemma gone_ok_mono h f h' f' gs :
  (∀ x, x ∈ h → x ∈ h') → (∀ s, s ∈ f → s ∈ f') → Forall (gone_ok h f) gs → Forall (gone_ok h' f') gs.
Proof.
  intros Hh Hf Hg. eapply Forall_impl; [exact Hg|]. intros [d l]. unfold gone_ok. destruct d; simpl; naive_solver.
Qed.

Definition handed_ok (r : nat) (h : nat * QueuedLine) : Prop :=
  canDeliver h.1 h.2.(sessionId) = true ∧ (h.2.(attempts) ?| 0) <= 1 + Z.of_nat r.

Record Inv (q : Queue) : Prop := {
  inv_lines : lines_ok q.(restarts) q.(lines);
  inv_watch : watch_ok q.(lines) q.(confirmTimers) (now time q);
  inv_disk : asUnsubmitted q.(disk) = asUnsubmitted q.(lines);
  inv_ledger : q.(accepted) ≡ₚ (id <$> q.(lines)) ++ ((λ g, g.2.(id)) <$> q.(gone));
  inv_gone : Forall (gone_ok q.(handed) q.(forgotten)) q.(gone);
  inv_handed : Forall (handed_ok q.(restarts)) q.(handed) }.

Lemma inv_tick q : Inv q → Inv (tick q).
Proof.
  intros [H1 H2 H3 H4 H5 H6]. split; try done. intros x t Hx Ht. destruct (H2 x t Hx Ht) as [Hh Hw]. split; [done|].
  destruct Hw as [Hw|Hw]; [by left|right]. unfold now in *. simpl. specialize (Hclock (ticks q) (S (ticks q))). lia.
Qed.

Lemma inv_draining b q : Inv q → Inv (set_draining b q).
Proof. by intros [H1 H2 H3 H4 H5 H6]. Qed.

Lemma inv_hand k l q : Inv q → handed_ok q.(restarts) (k, l) → Inv (note_handed k l q).
Proof.
  intros [H1 H2 H3 H4 H5 H6] Hh. split; try done; [|by constructor].
  eapply gone_ok_mono; [| |exact H5]; [|done]. intros x Hx. by right.
Qed.

Lemma inv_told s q : Inv q → Inv (note_forgotten s q).
Proof.
  intros [H1 H2 H3 H4 H5 H6]. split; try done.
  eapply gone_ok_mono; [| |exact H5]; [done|]. intros x Hx. by right.
Qed.

(** Committing a list that keeps the ledger, and whose stamped lines were
    there and are still heads. *)
Lemma inv_commit next q q0 :
  Inv q0 → q.(restarts) = q0.(restarts) → q.(handed) = q0.(handed) → q.(ticks) = q0.(ticks) →
  q.(confirmTimers) = q0.(confirmTimers) →
  lines_ok q.(restarts) next →
  (∀ x, x ∈ next → x.(sentAt) ≠ None → x ∈ q0.(lines) ∧ head (linesFor next x.(sessionId)) = Some x) →
  q.(accepted) ≡ₚ (id <$> next) ++ ((λ g, g.2.(id)) <$> q.(gone)) → Forall (gone_ok q.(handed) q.(forgotten)) q.(gone) →
  Inv (commit saves next q).
Proof.
  intros Hq Hr Hh Ht Htm Hl Hst Hled Hgone.
  assert (Inv (set_disk next (upd_timers (watched next) (upd_lines (λ _, next) q)))) as HI.
  { split; try done; simpl; [|by rewrite Hr, Hh; apply (inv_handed _ Hq)].
    intros x t Hx Hs. destruct (Hst x Hx) as [Hin Hhead]; [by rewrite Hs|]. split; [done|].
    destruct (inv_watch _ Hq x t Hin Hs) as [_ [Hw|Hw]]; [left|right; unfold now in *; simpl; by rewrite Ht].
    apply map_lookup_filter_Some_2; [by rewrite Htm|]. simpl. unfold stamped_head. rewrite Hhead.
    apply bool_decide_eq_true_2. by rewrite Hs. }
  unfold commit, saveDeliveries. rewrite Hsaves. cbn [lines upd_timers upd_lines].
  rewrite slice_last_short by apply Hl. by apply inv_tick.
Qed.

Lemma lines_ok_sublist r k l : sublist k l → lines_ok r l → lines_ok r k.
Proof.
  intros Hs (Hn & Hl & Hall). split_and!.
  - eapply sublist_NoDup; [exact Hn|]. by apply fmap_sublist.
  - pose proof (sublist_length _ _ Hs). lia.
  - apply Forall_forall. intros x Hx. rewrite Forall_forall in Hall. apply Hall.
    eapply elem_of_submseteq; [exact Hx|]. by apply sublist_submseteq.
Qed.

(** Lines leave by any filter. *)
Lemma inv_filter d (P : QueuedLine → Prop) `{∀ l, Decision (P l)} q :
  Inv q → Forall (λ l, gone_ok q.(handed) q.(forgotten) (d, l)) (filter (λ l, ¬ P l) q.(lines)) →
  Inv (commit saves (filter P q.(lines)) (note_gone d (filter (λ l, ¬ P l) q.(lines)) q)).
Proof.
  intros Hq Hg. assert (sublist (filter P q.(lines)) q.(lines)) as Hs by apply sublist_filter.
  apply (inv_commit _ _ q); try done; simpl.
  - by apply (lines_ok_sublist _ _ q.(lines)), Hq.
  - intros x Hx Hst. apply list_elem_of_filter in Hx as Hin. destruct Hin as [_ Hin]. split; [done|].
    destruct (sentAt x) as [t|] eqn:Ht; [|done]. destruct (inv_watch _ Hq x t Hin Ht) as [Hh _].
    apply (head_sublist _ q.(lines)); [done..|]. apply NoDup_ids, Hq.
  - rewrite (inv_ledger _ Hq), fmap_app, app_assoc, <-list_fmap_compose.
    f_equiv. rewrite <-fmap_app. by rewrite filter_app_complement.
  - apply Forall_app. split; [by apply Forall_fmap|apply (inv_gone _ Hq)].
Qed.

Lemma inv_leave d i q :
  Inv q → (∀ l, l ∈ q.(lines) → l.(id) = i → gone_ok q.(handed) q.(forgotten) (d, l)) → Inv (leave saves d i q).
Proof.
  intros Hq Hg. unfold leave, removeLine.
  rewrite (filter_ext_in (λ l, l.(id) = i) (λ l, ¬ l.(id) ≠ i) q.(lines)) by (intros; destruct (decide (id x = i)); naive_solver).
  apply inv_filter; [done|]. apply Forall_forall. intros l [Hi Hl]%list_elem_of_filter. apply Hg; [done|].
  by destruct (decide (id l = i)).
Qed.

Abbreviation confirm := (confirm saves).
Abbreviation drain := (drain time canDeliver inject saves).

Lemma inv_confirm s q : Inv q → Inv (confirm s q).
Proof.
  intros Hq. unfold confirm, DeliveryQueue.confirm, head_for.
  destruct (head (linesFor (lines q) s)) as [line|] eqn:Hh; [|done].
  destruct (sentAt line) as [t|] eqn:Ht; [|done]. apply inv_leave; [done|]. intros l Hl Hi.
  apply head_linesFor in Hh as [Hin _]. assert (l = line) as -> by (apply (same_id (lines q)); [apply Hq|done..]).
  unfold gone_ok. simpl. by rewrite Ht.
Qed.

Lemma confirm_frame s q :
  sublist (confirm s q).(lines) q.(lines) ∧ (confirm s q).(restarts) = q.(restarts) ∧
  (confirm s q).(draining) = q.(draining).
Proof.
  unfold confirm, DeliveryQueue.confirm. destruct (head_for q s) as [line|]; [|done].
  destruct (sentAt line); [|done]. unfold leave, commit, saveDeliveries. rewrite Hsaves. split_and!; [|done..].
  apply sublist_filter.
Qed.

Lemma confirm_handed s q : (confirm s q).(handed) = q.(handed).
Proof.
  unfold confirm, DeliveryQueue.confirm. destruct (head_for q s) as [line|]; [|done].
  destruct (sentAt line); [|done]. unfold leave, commit, saveDeliveries. by rewrite Hsaves.
Qed.

Lemma drain_busy fuel s q : q.(draining) = true → drain fuel s q = q.
Proof. intros Hd. destruct fuel; simpl; [done|]. by rewrite Hd. Qed.

(** What runs while [inject] does: confirmations, and drains that return at once. *)
Lemma inv_reentry fuel acts q :
  Inv q → q.(draining) = true →
  let q' := foldl (λ q act, match act with ReConfirm s' => confirm s' q | ReDrain s' => drain fuel s' q end) q acts in
  Inv q' ∧ q'.(draining) = true ∧ sublist q'.(lines) q.(lines) ∧ q'.(restarts) = q.(restarts) ∧
  q'.(handed) = q.(handed).
Proof.
  revert q. induction acts as [|act acts IH]; intros q Hq Hd; simpl; [done|]. destruct act as [s|s].
  - destruct (confirm_frame s q) as (Hs & Hr & Hd'). destruct (IH (confirm s q)) as (H1 & H2 & H3 & H4 & H5);
      [by apply inv_confirm|by rewrite Hd'|]. rewrite confirm_handed in H5.
    split_and!; [done|done| |congruence|done]. by etrans.
  - rewrite drain_busy by done. by apply IH.
Qed.

Lemma stamp_ids l i at_ : id <$> stampSubmitted l i at_ = id <$> l.
Proof.
  unfold stampSubmitted. rewrite <-list_fmap_compose. apply list_fmap_ext. intros j x _. simpl. by case_decide.
Qed.

Lemma linesFor_stamp l i at_ s : linesFor (stampSubmitted l i at_) s = stampSubmitted (linesFor l s) i at_.
Proof.
  unfold linesFor, stampSubmitted. rewrite filter_fmap. f_equal. apply filter_ext_in.
  intros x _. by case_decide.
Qed.

(** The head of [s] is stamped, at the tick before, and watched. *)
Lemma inv_stamp s line at_ q :
  Inv q → at_ <= now time q → line.(sessionId) = s →
  (∀ l, l ∈ q.(lines) → l.(id) = line.(id) → l = line ∧ head (linesFor q.(lines) s) = Some line) →
  (∀ l, l ∈ q.(lines) → l.(sessionId) = s → l.(sentAt) ≠ None → l = line) →
  (line.(attempts) ?| 0) <= 1 + Z.of_nat q.(restarts) →
  Inv (armConfirm s at_ (commit saves (stampSubmitted q.(lines) line.(id) at_) q)).
Proof.
  intros [(Hn & Hlen & Hall) Hw Hd Hled Hg Hh] Hle Hsid Hone Honly Hatt.
  set (next := stampSubmitted q.(lines) line.(id) at_).
  assert (length next = length q.(lines)) as Hln by apply length_fmap.
  assert (∀ x, x ∈ next → (x = stamped at_ line ∧ line ∈ q.(lines)) ∨ x ∈ q.(lines) ∧ x.(id) ≠ line.(id)) as Hnext.
  { intros x (y & -> & Hy)%list_elem_of_fmap. case_decide as Hi; [left|by right].
    destruct (Hone y Hy Hi) as [-> _]. done. }
  unfold commit, saveDeliveries. rewrite Hsaves. cbn [lines upd_timers upd_lines]. rewrite slice_last_short by (rewrite Hln; done).
  split; try done; simpl.
  - split_and!; [by unfold next; rewrite stamp_ids|lia|]. apply Forall_forall. intros x Hx. rewrite Forall_forall in Hall.
    destruct (Hnext x Hx) as [[-> _]|[Hin _]]; [|by apply Hall].
    change ((line.(attempts) ?| 0) + 1 <= 2 + Z.of_nat q.(restarts)). lia.
  - assert (time q.(ticks) <= time (S q.(ticks))) as Hlater by (apply Hclock; lia).
    unfold watch_ok, now in *. simpl. intros x t Hx Ht. destruct (Hnext x Hx) as [[-> Hin]|[Hin Hne]].
    + simpl in Ht |- *. injection Ht as <-. unfold next. rewrite linesFor_stamp.
      destruct (Hone line Hin eq_refl) as [_ Hhead]. rewrite Hsid. split.
      * destruct (linesFor (lines q) s); simplify_eq/=. by rewrite decide_True.
      * left. by rewrite lookup_insert_eq.
    + destruct (Hw x t Hin Ht) as [Hhead Hwait]. split.
      * unfold next. rewrite linesFor_stamp. destruct (linesFor (lines q) (sessionId x)); simplify_eq/=. by rewrite decide_False.
      * destruct Hwait as [Hwait|Hwait]; [left|right; lia]. rewrite lookup_insert_ne.
        -- apply map_lookup_filter_Some_2; [done|]. simpl. unfold stamped_head, next. rewrite linesFor_stamp.
           destruct (linesFor (lines q) (sessionId x)) as [|y r]; simplify_eq/=. rewrite decide_False by done.
           apply bool_decide_eq_true_2. by rewrite Ht.
        -- intros Hs. apply Hne. rewrite (Honly x Hin); [done..|]. by rewrite Ht.
  - unfold next. by rewrite stamp_ids.
Qed.

Lemma inv_attempt fuel s line q :
  Inv q → q.(draining) = false → head (linesFor q.(lines) s) = Some line →
  (line.(attempts) ?| 0) <= 1 + Z.of_nat q.(restarts) →
  let q' := attempt time canDeliver inject saves (drain fuel) s line q in
  Inv q' ∧ q'.(draining) = false.
Proof.
  intros Hq Hd Hhead Hatt. pose proof (head_linesFor _ _ _ Hhead) as [Hin Hsid]. unfold attempt.
  destruct (canDeliver (ticks q) s) eqn:Hc; simpl negb; cbv iota.
  2: { split; [by do 2 apply inv_tick|done]. }
  set (q1 := set_draining true (note_handed (ticks q) line (tick q))).
  assert (Inv q1) as Hq1.
  { apply inv_draining, inv_hand; [by apply inv_tick|]. split; simpl; [by rewrite Hsid|done]. }
  destruct (inject (ticks q1) line) as [acts outcome] eqn:Hinject. change (ticks q1) with (S (ticks q)) in Hinject.
  destruct (inv_reentry fuel acts (tick q1)) as (Hq2 & _ & Hsub & Hr & Hhand); [by apply inv_tick|done|].
  set (q2 := foldl _ (tick q1) acts) in *. change (lines (tick q1)) with (lines q) in Hsub.
  change (restarts (tick q1)) with (restarts q) in Hr.
  assert (∀ l, l ∈ q2.(lines) → l ∈ q.(lines)) as Hkept.
  { intros l Hl. eapply elem_of_submseteq; [exact Hl|]. by apply sublist_submseteq. }
  destruct outcome as [[]|]; simpl; (split; [|try done]).
  - by apply inv_draining.
  - apply inv_leave; [by apply inv_draining|]. intros l Hl Hi.
    assert (l = line) as -> by (apply (same_id q.(lines)); [apply Hq|by apply Hkept|done..]).
    split; simpl; [|by rewrite Hinject]. fold q2. rewrite Hhand. left.
  - unfold leave, commit, saveDeliveries. by rewrite Hsaves.
  - apply (inv_stamp s line _ (tick (set_draining false q2))); simpl; [by apply inv_tick, inv_draining| |done| | |by rewrite Hr].
    + unfold now. simpl. apply Hclock. lia.
    + intros l Hl Hi. assert (l = line) as -> by (apply (same_id q.(lines)); [apply Hq|by apply Hkept|done..]).
      split; [done|]. apply (head_sublist _ q.(lines)); [done..|]. apply NoDup_ids, Hq.
    + intros l Hl Hs Hst. apply Hkept in Hl. destruct (sentAt l) as [t|] eqn:Ht; [|done].
      destruct (inv_watch _ Hq l t Hl Ht) as [Hh _]. rewrite Hs in Hh. congruence.
  - unfold commit, saveDeliveries. by rewrite Hsaves.
  - by apply inv_draining.
Qed.

Lemma head_line_ok q s line :
  Inv q → head (linesFor q.(lines) s) = Some line → line_ok q.(restarts) line.
Proof.
  intros Hq [Hin _]%head_linesFor. destruct (inv_lines _ Hq) as (_ & _ & Hall).
  rewrite Forall_forall in Hall. by apply Hall.
Qed.

Lemma inv_drain fuel s q :
  Inv q → q.(draining) = false → Inv (drain fuel s q) ∧ (drain fuel s q).(draining) = false.
Proof.
  revert q. induction fuel as [|fuel IH]; intros q Hq Hd; [done|]. simpl. rewrite Hd. unfold head_for.
  destruct (head (linesFor (lines q) s)) as [line|] eqn:Hhead; [|done].
  pose proof (head_line_ok _ _ _ Hq Hhead) as Hok. pose proof (head_linesFor _ _ _ Hhead) as [Hin _]. unfold line_ok in Hok.
  destruct (sentAt line) as [t|] eqn:Ht; [|by apply inv_attempt].
  destruct (now time q - t <? CONFIRM_TIMEOUT_MS); [split; [by apply inv_tick|done]|].
  destruct (Z.leb_spec MAX_SUBMIT_ATTEMPTS (line.(attempts) ?| 0)) as [Hmany|Hfew].
  - apply IH.
    + apply inv_leave; [by apply inv_tick|]. intros l Hl Hi.
      assert (l = line) as -> by (apply (same_id q.(lines)); [apply Hq|done..]). split; [simpl; by rewrite Ht|done].
    + unfold leave, commit, saveDeliveries. by rewrite Hsaves.
  - apply inv_attempt; [by apply inv_tick|done|done|]. unfold MAX_SUBMIT_ATTEMPTS in Hfew. simpl. lia.
Qed.

(** The fuel is enough: with more the drain does the same. *)
Lemma drain_enough fuel s q :
  (length q.(lines) < fuel)%nat → drain fuel s q = drain (S (length q.(lines))) s q.
Proof.
  assert (∀ n m q, (length q.(lines) < n)%nat → (length q.(lines) < m)%nat → drain n s q = drain m s q) as Hgen; [|intros; apply Hgen; lia].
  assert (∀ n m line q, attempt time canDeliver inject saves (drain n) s line q = attempt time canDeliver inject saves (drain m) s line q) as Hatt.
  { intros n m line q0. unfold attempt. destruct (negb (canDeliver (ticks q0) s)); [done|].
    destruct (inject _ line) as [acts outcome]. 
    assert (∀ q1, q1.(draining) = true →
      foldl (λ q act, match act with ReConfirm s' => confirm s' q | ReDrain s' => drain n s' q end) q1 acts =
      foldl (λ q act, match act with ReConfirm s' => confirm s' q | ReDrain s' => drain m s' q end) q1 acts) as Hfold.
    { clear -Hsaves. induction acts as [|[s'|s'] acts IH]; intros q1 Hd; simpl; [done| |].
      - apply IH. destruct (confirm_frame s' q1) as (_ & _ & ->). done.
      - rewrite !drain_busy by done. by apply IH. }
    rewrite Hfold by done. done. }
  induction n as [|n IH]; intros m q0 Hn Hm; [lia|]. destruct m as [|m]; [lia|]. simpl.
  destruct (draining q0); [done|]. unfold head_for. destruct (head (linesFor (lines q0) s)) as [line|] eqn:Hhead; [|done].
  destruct (sentAt line) as [t|]; [|apply Hatt]. destruct (now time q0 - t <? CONFIRM_TIMEOUT_MS); [done|].
  destruct (MAX_SUBMIT_ATTEMPTS <=? _); [|apply Hatt].
  assert (length (lines (leave saves GivenUp (id line) (tick q0))) < length (lines q0))%nat as Hlt.
  { unfold leave, commit, saveDeliveries. rewrite Hsaves. simpl. apply head_linesFor in Hhead as [Hin _].
    apply (length_filter_lt _ _ line); [done|]. naive_solver. }
  apply IH; lia.
Qed.

(** ** Every event keeps it *)

Definition settled (q : Queue) : Prop := Inv q ∧ q.(draining) = false.

Lemma settled_drain s q : settled q → settled (drain_session time canDeliver inject saves s q).
Proof. intros [Hq Hd]. by apply inv_drain. Qed.

(** Every kind is evictable, so the oldest line is the one dropped. *)
Lemma evicted_oldest (l : list QueuedLine) : evicted_index l = 0%nat.
Proof.
  destruct l as [|x l]; [done|]. unfold evicted_index. simpl. rewrite decide_True; [done|].
  unfold EVICTABLE_KINDS. destruct (kind x); set_solver.
Qed.

Lemma evicted_lookup (l : list QueuedLine) : l ≠ [] → ∃ x, l !! evicted_index l = Some x.
Proof.
  intros Hne. unfold evicted_index. destruct (list_find _ l) as [[i x]|] eqn:Hf.
  - apply list_find_Some in Hf as [Hi _]. by exists x.
  - destruct l as [|x l]; [done|]. by exists x.
Qed.

Lemma filter_gone (l : list QueuedLine) i x :
  NoDup l → l !! i = Some x → filter (λ y, y ∉ delete i l) l ≡ₚ [x].
Proof.
  intros Hn Hi. pose proof (delete_Permutation l i x Hi) as Hp. rewrite Hp in Hn. apply NoDup_cons in Hn as [Hx Hn].
  trans (filter (λ y, y ∉ delete i l) (x :: delete i l)); [by rewrite <-Hp|].
  rewrite filter_cons_True by done. f_equiv. rewrite filter_none; [done|]. intros y Hy Hny. by apply Hny.
Qed.

Lemma settled_queue line q :
  settled q → line.(sentAt) = None → line.(attempts) = None →
  settled (queue time canDeliver inject saves line q).
Proof.
  intros [Hq Hd] Hst Hatt. unfold queue. apply settled_drain. set (line' := Build_QueuedLine _ _ _ _ _ _ _).
  unfold enqueueLine. destruct (existsb _ (lines (tick q))) eqn:Hex; [split; [by apply inv_tick|done]|].
  cbn [lines tick] in *. set (L := lines q ++ [line']). destruct (inv_lines _ Hq) as (Hn & Hlen & Hall).
  assert (NoDup (id <$> L)) as HnL.
  { unfold L. rewrite fmap_app. apply NoDup_app. split_and!; [done| |apply NoDup_singleton].
    intros i (x & -> & Hx)%list_elem_of_fmap Hi%list_elem_of_singleton. apply not_true_iff_false in Hex. apply Hex.
    apply existsb_exists. exists x. split; [by apply list_elem_of_In|]. by apply bool_decide_eq_true_2. }
  assert (Forall (line_ok q.(restarts)) L) as HallL.
  { apply Forall_app. split; [done|]. repeat constructor. unfold line_ok. simpl. rewrite Hst, Hatt. simpl. lia. }
  assert (∀ next, sublist next L → (length next <= MAX_QUEUED_LINES)%nat →
    (id <$> L) ≡ₚ (id <$> next) ++ (id <$> filter (λ l, l ∉ next) L) →
    (∀ x, x ∈ L → x ∉ next → length L = S MAX_QUEUED_LINES ∧ head L = Some x) →
    settled (commit saves next (note_gone (Evicted L) (filter (λ l, l ∉ next) L) (note_accepted line'.(id) (tick q))))) as Hgo.
  { intros next Hsub Hln Hperm Hout. split; [|by unfold commit, saveDeliveries; rewrite Hsaves].
    apply (inv_commit next _ (tick q)); try done; [by apply inv_tick|..]; simpl.
    - split_and!; [eapply sublist_NoDup; [exact HnL|by apply fmap_sublist]|done|].
      rewrite Forall_forall in *. intros x Hx. apply HallL. eapply elem_of_submseteq; [exact Hx|]. by apply sublist_submseteq.
    - intros x Hx Hs. assert (x ∈ L) as [Hin|Hin]%elem_of_app by (eapply elem_of_submseteq; [exact Hx|by apply sublist_submseteq]).
      2: { apply list_elem_of_singleton in Hin as ->. done. }
      split; [done|]. destruct (sentAt x) as [t|] eqn:Ht; [|done]. destruct (inv_watch _ Hq x t Hin Ht) as [Hh _].
      apply (head_sublist _ L); [done|by apply head_linesFor_snoc|done|by apply NoDup_ids].
    - rewrite fmap_app, <-list_fmap_compose. change ((λ g, g.2.(id)) ∘ pair (Evicted L)) with id.
      rewrite (inv_ledger _ Hq), app_assoc, <-Hperm. unfold L. rewrite fmap_app. simpl.
      rewrite <-app_assoc. simpl. by rewrite <-Permutation_middle.
    - apply Forall_app. split; [|apply (inv_gone _ Hq)]. apply Forall_fmap, Forall_forall.
      intros x [Hx HxL]%list_elem_of_filter. destruct (Hout x HxL Hx) as [H1 H2]. split_and!; done. }
  destruct (Nat.leb_spec (length L) MAX_QUEUED_LINES) as [Hle|Hgt]; cbv iota.
  - apply Hgo; [done|done| |by intros x Hx Hnx]. rewrite (filter_none _ L) by (intros x Hx Hnx; by apply Hnx). by rewrite app_nil_r.
  - destruct (evicted_lookup L) as [x Hi]; [by unfold L; destruct (lines q)|]. apply Hgo.
    + apply sublist_delete.
    + apply lookup_lt_Some in Hi as Hlt. rewrite length_delete by done. unfold L in *. rewrite length_app in *. simpl in *. lia.
    + rewrite (filter_gone L _ x); [|by apply NoDup_ids|done]. rewrite (delete_Permutation L _ x Hi) at 1. simpl.
      apply Permutation_cons_append.
    + intros y Hy Hny. split; [unfold L in *; rewrite length_app in *; simpl in *; lia|].
      rewrite evicted_oldest in *. destruct L as [|z l]; [done|]. simpl in *.
      apply elem_of_cons in Hy as [->|Hy]; [done|by destruct Hny].
Qed.

Lemma settled_drainAll q : settled q → settled (drainAll time canDeliver inject saves q).
Proof.
  unfold drainAll. generalize (remove_dups (sessionId <$> lines q)). intros l. revert q.
  induction l as [|s l IH]; intros q Hq; simpl; [done|]. by apply IH, settled_drain.
Qed.

Lemma settled_forget s q : settled q → settled (forget saves s q).
Proof.
  intros [Hq Hd]. apply (inv_told s) in Hq. unfold forget, forgetSession. destruct (_ =? _)%nat; [done|].
  split; [|by unfold commit, saveDeliveries; rewrite Hsaves]. unfold linesFor. change (lines q) with (lines (note_forgotten s q)).
  rewrite (filter_ext_in (λ l, l.(sessionId) = s) (λ l, ¬ l.(sessionId) ≠ s) (lines (note_forgotten s q)))
    by (intros x; destruct (decide (sessionId x = s)); naive_solver).
  apply inv_filter; [done|]. apply Forall_forall. intros l [Hl _]%list_elem_of_filter.
  destruct (decide (sessionId l = s)) as [<-|]; [|done]. left.
Qed.

Lemma settled_timer s q :
  settled q → (∀ due, q.(confirmTimers) !! s = Some due → due <= now time q) →
  settled (confirm_timeout time canDeliver inject saves s q).
Proof.
  intros [[H1 H2 H3 H4 H5 H6] Hd] Hdue. apply settled_drain. split; [|done]. split; try done. simpl.
  intros x t Hx Ht. destruct (H2 x t Hx Ht) as [Hh [Hw|Hw]]; (split; [done|]); [|by right].
  destruct (decide (x.(sessionId) = s)) as [<-|Hne]; [right; by apply Hdue|left]. by rewrite lookup_delete_ne.
Qed.

Lemma asUnsubmitted_id l : id <$> asUnsubmitted l = id <$> l.
Proof. unfold asUnsubmitted. rewrite <-list_fmap_compose. apply list_fmap_ext. intros i x _. simpl. by destruct (sentAt x). Qed.

Lemma asUnsubmitted_none l x : x ∈ asUnsubmitted l → x.(sentAt) = None.
Proof. intros (y & -> & _)%list_elem_of_fmap. by destruct (sentAt y) eqn:Hy. Qed.

Lemma asUnsubmitted_idemp l : asUnsubmitted (asUnsubmitted l) = asUnsubmitted l.
Proof.
  unfold asUnsubmitted at 1. rewrite <-(list_fmap_id (asUnsubmitted l)) at 2. apply list_fmap_ext. intros i x Hi.
  by rewrite (asUnsubmitted_none l x) by (by eapply list_elem_of_lookup_2).
Qed.

Lemma settled_reopen q : settled q → settled (reopen q).
Proof.
  intros [Hq _]. destruct (inv_lines _ Hq) as (Hn & Hlen & Hall). split; [|done].
  assert (length (disk q) = length (lines q)) as Hl.
  { rewrite <-(length_fmap (λ l, match sentAt l with None => l | Some _ => unstamped l end) (disk q)).
    change (length (asUnsubmitted (disk q)) = length (lines q)). rewrite (inv_disk _ Hq). apply length_fmap. }
  assert ((reopen q).(lines) = asUnsubmitted q.(lines)) as Hlines.
  { simpl. rewrite slice_last_short by lia. apply (inv_disk _ Hq). }
  split; rewrite ?Hlines; simpl.
  - split_and!; [by rewrite asUnsubmitted_id|by unfold asUnsubmitted; rewrite length_fmap|].
    apply Forall_fmap. eapply Forall_impl; [exact Hall|]. intros x. unfold line_ok. simpl.
    destruct (sentAt x) eqn:Hx; simpl; rewrite ?Hx; unfold MAX_SUBMIT_ATTEMPTS; lia.
  - intros x t Hx Ht. rewrite (asUnsubmitted_none _ _ Hx) in Ht. done.
  - by rewrite asUnsubmitted_idemp, (inv_disk _ Hq).
  - rewrite asUnsubmitted_id. apply (inv_ledger _ Hq).
  - apply (inv_gone _ Hq).
  - eapply Forall_impl; [apply (inv_handed _ Hq)|]. intros h [H1 H2]. split; [done|]. simpl. lia.
Qed.

Lemma settled_reachable q : QueueReach time canDeliver inject saves q → settled q.
Proof.
  induction 1 as [|q e _ IH Ha].
  { split; [|done]. split; try done; [|by intros x t ?%not_elem_of_nil]. split_and!; [constructor|simpl; lia|constructor]. }
  destruct e as [line|s| |s|s|s|]; simpl in *.
  - reflect_bools. by apply settled_queue.
  - by apply settled_drain.
  - by apply settled_drainAll.
  - destruct IH as [Hq Hd]. split; [by apply inv_confirm|]. destruct (confirm_frame s q) as (_ & _ & ->). done.
  - by apply settled_forget.
  - apply settled_timer; [done|]. intros due Hdue. rewrite Hdue in Ha. reflect_bools. done.
  - by apply settled_reopen.
Qed.

(** ** What one drain does to an overdue head *)

Lemma gone_leave d i q l : l ∈ q.(lines) → l.(id) = i → (d, l) ∈ (leave saves d i q).(gone).
Proof.
  intros Hl Hi. unfold leave, commit, saveDeliveries. rewrite Hsaves. simpl. apply elem_of_app. left.
  apply list_elem_of_fmap_2. by apply list_elem_of_filter.
Qed.

Lemma leave_frame d i q :
  q.(gone) `sublist_of` (leave saves d i q).(gone) ∧ (leave saves d i q).(handed) = q.(handed).
Proof.
  unfold leave, commit, saveDeliveries. rewrite Hsaves. split; [|done]. simpl. by apply sublist_inserts_l.
Qed.

Lemma confirm_history s q :
  q.(gone) `sublist_of` (confirm s q).(gone) ∧ (confirm s q).(handed) = q.(handed).
Proof.
  unfold confirm, DeliveryQueue.confirm. destruct (head_for q s) as [line|]; [|done].
  destruct (sentAt line); [apply leave_frame|done].
Qed.

Lemma attempt_history fuel s line q :
  let q' := attempt time canDeliver inject saves (drain fuel) s line q in
  q.(gone) `sublist_of` q'.(gone) ∧
  q'.(handed) = if canDeliver q.(ticks) s then (q.(ticks), line) :: q.(handed) else q.(handed).
Proof.
  unfold attempt. destruct (canDeliver (ticks q) s); simpl negb; cbv iota; [|done].
  destruct (inject _ line) as [acts outcome]. set (q1 := tick (set_draining _ _)).
  set (q2 := foldl _ q1 acts).
  assert (q1.(gone) `sublist_of` q2.(gone) ∧ q2.(handed) = q1.(handed)) as [Hg Hh].
  { unfold q2. assert (q1.(draining) = true) as Hd by done. revert Hd. generalize q1. clear -Hsaves.
    induction acts as [|[s'|s'] acts IH]; intros q Hd; simpl; [done| |by rewrite drain_busy; [apply IH|]].
    destruct (confirm_history s' q) as [H1 H2]. destruct (IH (confirm s' q)) as [H3 H4].
    { destruct (confirm_frame s' q) as (_ & _ & ->). done. }
    split; [by etrans|congruence]. }
  destruct outcome as [[]|]; simpl; try (split; [exact Hg|exact Hh]).
  - destruct (leave_frame (Submitted (ticks q)) (id line) (set_draining false q2)) as [H1 H2].
    split; [by etrans|exact (eq_trans H2 Hh)].
  - unfold commit, saveDeliveries. rewrite Hsaves. split; [exact Hg|exact Hh].
Qed.

Lemma drain_history fuel s q : q.(gone) `sublist_of` (drain fuel s q).(gone).
Proof.
  revert q. induction fuel as [|fuel IH]; intros q; [done|]. simpl. destruct (draining q); [done|].
  destruct (head_for q s) as [line|]; [|done]. destruct (sentAt line) as [t|]; [|apply attempt_history].
  destruct (_ <? _); [done|]. destruct (_ <=? _); [|apply (attempt_history fuel s line (tick q))].
  etrans; [|apply IH]. apply (leave_frame GivenUp (id line) (tick q)).
Qed.
End invariant.

(** ** The guarantees *)

Section guarantees.
Context (time : nat → Z) (canDeliver : nat → string → bool).
Context (inject : nat → QueuedLine → list Reentry * option BusInjectOutcome).
Context (saves : nat → bool).

Abbreviation Reached := (QueueReach time canDeliver inject saves).

(** C37: every arrival is accounted for.  With a clock that does not go back
    and a database that takes every write, through hand-overs, confirmations,
    timers, evictions, whatever the adapter does to the queue while it takes a
    line, and restarts: the queue holds at most 64 lines with distinct ids, and
    the ids ever taken in are those held and those gone.  A line is gone as
    submitted only by a hand-over, made with its session at a boundary, that the
    adapter answered "submitted"; confirmed only if it was awaiting its turn;
    given up only after two submits; forgotten only if its session was told to
    be; and evicted only as the oldest of 65 lines, the 64 held and a new one. *)
Theorem deliveries_accounted q :
  (∀ i j, (i <= j)%nat → time i <= time j) → (∀ n, saves n = true) → Reached q →
  (length q.(lines) <= MAX_QUEUED_LINES)%nat ∧ NoDup (id <$> q.(lines)) ∧
  q.(accepted) ≡ₚ (id <$> q.(lines)) ++ ((λ g, g.2.(id)) <$> q.(gone)) ∧
  ∀ d l, (d, l) ∈ q.(gone) →
    match d with
    | Submitted k => (k, l) ∈ q.(handed) ∧ canDeliver k l.(sessionId) = true ∧ (inject (S k) l).2 = Some submitted
    | Confirmed => l.(sentAt) ≠ None
    | GivenUp => l.(sentAt) ≠ None ∧ MAX_SUBMIT_ATTEMPTS <= (l.(attempts) ?| 0)
    | Forgotten => l.(sessionId) ∈ q.(forgotten)
    | Evicted held => length held = S MAX_QUEUED_LINES ∧ NoDup (id <$> held) ∧ head held = Some l
    end.
Proof.
  intros Hclock Hsaves Hr. destruct (settled_reachable _ _ _ _ Hclock Hsaves _ Hr) as [Hq _].
  destruct (inv_lines _ _ _ _ Hq) as (Hn & Hl & _). split_and!; [done|done|apply (inv_ledger _ _ _ _ Hq)|].
  intros d l Hg. pose proof (inv_gone _ _ _ _ Hq) as Hall. rewrite Forall_forall in Hall. specialize (Hall _ Hg).
  destruct d; try exact Hall. destruct Hall as [Hh Hi]. split_and!; [done| |done].
  pose proof (inv_handed _ _ _ _ Hq) as Hhand. rewrite Forall_forall in Hhand. by apply (Hhand _ Hh).
Qed.

(** C36: a submitted line is never forgotten.  In every reachable state a line
    whose turn has not opened is the first of its session's, and either the
    session's timer is pending for it or its wait is over; and once its wait is
    over, the next drain of the session hands it over again if the session is
    at a boundary and it has an attempt left, and gives it up if it has none. *)
Theorem stamped_head_watched q x t :
  (∀ i j, (i <= j)%nat → time i <= time j) → (∀ n, saves n = true) → Reached q →
  x ∈ q.(lines) → x.(sentAt) = Some t →
  head_for q x.(sessionId) = Some x ∧
  (q.(confirmTimers) !! x.(sessionId) = Some (t + CONFIRM_TIMEOUT_MS) ∨ t + CONFIRM_TIMEOUT_MS <= now time q) ∧
  (t + CONFIRM_TIMEOUT_MS <= now time q →
   let q' := drain_session time canDeliver inject saves x.(sessionId) q in
   if (x.(attempts) ?| 0) <? MAX_SUBMIT_ATTEMPTS
   then canDeliver (S q.(ticks)) x.(sessionId) = true → q'.(handed) = (S q.(ticks), x) :: q.(handed)
   else (GivenUp, x) ∈ q'.(gone)).
Proof.
  intros Hclock Hsaves Hr Hx Ht. destruct (settled_reachable _ _ _ _ Hclock Hsaves _ Hr) as [Hq Hd].
  destruct (inv_watch _ _ _ _ Hq x t Hx Ht) as [Hhead Hw]. split_and!; [done|done|]. intros Hover.
  unfold drain_session. simpl. rewrite Hd. unfold head_for. rewrite Hhead, Ht.
  rewrite (proj2 (Z.ltb_ge (now time q - t) CONFIRM_TIMEOUT_MS)) by lia. rewrite (Z.leb_antisym _ MAX_SUBMIT_ATTEMPTS).
  destruct (_ <? MAX_SUBMIT_ATTEMPTS); simpl negb; cbv iota.
  - intros Hc. destruct (attempt_history time canDeliver inject saves Hsaves (length (lines q)) x.(sessionId) x (tick q)) as [_ Hh].
    simpl in Hh. by rewrite Hc in Hh.
  - eapply elem_of_submseteq; [apply (gone_leave saves Hsaves GivenUp (id x) (tick q) x); done|].
    apply sublist_submseteq, drain_history, Hsaves.
Qed.

(** Lines are handed over at turn boundaries, twice and once more per
    restart.  Every hand-over was made when the session was deliverable, of a
    line with at most [1 + restarts] attempts behind it. *)
Theorem handovers_bounded q k l :
  (∀ i j, (i <= j)%nat → time i <= time j) → (∀ n, saves n = true) → Reached q →
  (k, l) ∈ q.(handed) →
  canDeliver k l.(sessionId) = true ∧ (l.(attempts) ?| 0) < MAX_SUBMIT_ATTEMPTS + Z.of_nat q.(restarts).
Proof.
  intros Hclock Hsaves Hr Hh. destruct (settled_reachable _ _ _ _ Hclock Hsaves _ Hr) as [Hq _].
  pose proof (inv_handed _ _ _ _ Hq) as Hall. rewrite Forall_forall in Hall.
  destruct (Hall _ Hh) as [H1 H2]. split; [done|]. simpl in H2. unfold MAX_SUBMIT_ATTEMPTS. lia.
Qed.
End guarantees.

(** ** A run

    A clock of one minute a tick, a session always at a boundary, and an agent
    that always takes a line and never opens a turn. *)

Definition demo_clock (n : nat) : Z := Z.of_nat n * 60000.
Definition demo_deliver (_ : nat) (_ : string) : bool := true.
Definition demo_inject (_ : nat) (l : QueuedLine) : list Reentry * option BusInjectOutcome :=
  ([ReDrain l.(sessionId)], Some awaiting_turn).
Definition demo_saves (_ : nat) : bool := true.
Definition demo_line (i : string) : QueuedLine :=
  {| id := i; sessionId := "s"; kind := notify; text := "hi"; queuedAt := 0; sentAt := None; attempts := None |}.

Abbreviation demo_queue := (run_queue demo_clock demo_deliver demo_inject demo_saves).

Fixpoint all_events_allowed (evs : list QueueEvent) (q : Queue) : bool :=
  match evs with
  | [] => true
  | e :: evs => queue_allows demo_clock e q && all_events_allowed evs (queue_event demo_clock demo_deliver demo_inject demo_saves e q)
  end.

Lemma demo_queue_reachable evs :
  all_events_allowed evs no_deliveries = true → QueueReach demo_clock demo_deliver demo_inject demo_saves (demo_queue evs).
Proof.
  unfold run_queue.
  assert (∀ q, QueueReach demo_clock demo_deliver demo_inject demo_saves q → all_events_allowed evs q = true →
    QueueReach demo_clock demo_deliver demo_inject demo_saves (foldl (λ q e, queue_event demo_clock demo_deliver demo_inject demo_saves e q) q evs)) as H.
  { induction evs as [|e evs IH]; intros q Hq Ha; simpl in *; [done|]. apply andb_true_iff in Ha as [Ha1 Ha2].
    apply IH; [by constructor|done]. }
  apply H. constructor.
Qed.

Lemma demo_monotone i j : (i <= j)%nat → demo_clock i <= demo_clock j.
Proof. unfold demo_clock. lia. Qed.

(** The second line waits for the first, which is handed over twice and given
    up; then the second is handed over. *)
Lemma deliveries_accounted_witness :
  let q := demo_queue [EvQueue (demo_line "1"); EvQueue (demo_line "2"); EvTimer "s"; EvTimer "s"] in
  (id <$> q.(lines)) = ["2"] ∧ (λ g, (g.1, g.2.(id))) <$> q.(gone) = [(GivenUp, "1")] ∧
  q.(accepted) ≡ₚ (id <$> q.(lines)) ++ ((λ g, g.2.(id)) <$> q.(gone)).
Proof.
  intros q. assert (QueueReach demo_clock demo_deliver demo_inject demo_saves q) as Hq by (apply demo_queue_reachable; vm_compute; reflexivity).
  split; [vm_compute; reflexivity|]. split; [vm_compute; reflexivity|].
  exact (proj1 (proj2 (proj2 (deliveries_accounted demo_clock demo_deliver demo_inject demo_saves q demo_monotone (λ _, eq_refl) Hq)))).
Defined.

Lemma stamped_head_watched_witness :
  let q := demo_queue [EvQueue (demo_line "1"); EvQueue (demo_line "2")] in
  match q.(lines) with
  | [x; _] => x.(id) = "1" ∧ x.(attempts) = Some 2 ∧ head_for q "s" = Some x
  | _ => False
  end.
Proof.
  intros q. assert (QueueReach demo_clock demo_deliver demo_inject demo_saves q) as Hq by (apply demo_queue_reachable; vm_compute; reflexivity).
  assert (∃ x y t, q.(lines) = [x; y] ∧ x.(sentAt) = Some t ∧ x.(sessionId) = "s" ∧ x.(id) = "1" ∧ x.(attempts) = Some 2) as (x & y & t & Hl & Ht & Hs & Hi & Ha).
  { vm_compute. do 3 eexists. split_and!; reflexivity. }
  rewrite Hl. split; [exact Hi|]. split; [exact Ha|]. rewrite <-Hs.
  apply (stamped_head_watched demo_clock demo_deliver demo_inject demo_saves q x t demo_monotone (λ _, eq_refl) Hq); [|exact Ht].
  rewrite Hl. left.
Defined.

(** One restart: the line that had both its attempts is handed over again. *)
Lemma handovers_bounded_witness :
  let q := demo_queue [EvQueue (demo_line "1"); EvTimer "s"; EvReopen; EvDrainAll] in
  match q.(handed) with
  | [(k, l); _; _] => l.(attempts) = Some 2 ∧ demo_deliver k l.(sessionId) = true ∧ (l.(attempts) ?| 0) < 2 + 1
  | _ => False
  end.
Proof.
  intros q. assert (QueueReach demo_clock demo_deliver demo_inject demo_saves q) as Hq by (apply demo_queue_reachable; vm_compute; reflexivity).
  assert (∃ k l a b, q.(handed) = [(k, l); a; b] ∧ l.(attempts) = Some 2) as (k & l & a & b & Hh & Ha).
  { vm_compute. do 4 eexists. split; reflexivity. }
  rewrite Hh. split; [exact Ha|].
  destruct (handovers_bounded demo_clock demo_deliver demo_inject demo_saves q k l demo_monotone (λ _, eq_refl) Hq) as [H1 H2].
  { rewrite Hh. left. }
  split; [exact H1|]. exact H2.
Defined.
