(* ===== verification/WorkStatus.v ===== *)
(** * WorkStatus: what each session of a project is doing

    src/bridge/src/work-status.ts.  A pure reduction of a project's outbound
    frames, of its hooks and of what its clients look at: per session a status
    (the dot of its row), and the project's own, the loudest of them.  The
    session bus reads the same state to know when a line may be submitted into
    a session ([busDeliverable]) and which sessions were just released
    ([becameDeliverable]).

    The sets and maps of the source are finite sets and maps: the order they
    are visited in shows in no result but the order of the two edge lists,
    which are sets here.  A timestamp is a whole number.  Where the source
    returns the same object it was given, the model returns the same state. *)

From S2P Require Import Prelude.
From coqutil Require Import Datatypes.RecordSetters.
Import DoubleBraceUpdate.

Local Open Scope Z_scope.

(** ** Data *)

Inductive TypedLine := prompt | command.
Inductive NotificationType := task_complete | permission_request | awaiting_input | question | idle | error_note.
Inductive WorkStatus := working | attention | unread | done | error.

#[export] Instance TypedLine_eq_dec : EqDecision TypedLine.
Proof. solve_decision. Defined.
#[export] Instance NotificationType_eq_dec : EqDecision NotificationType.
Proof. solve_decision. Defined.
#[export] Instance WorkStatus_eq_dec : EqDecision WorkStatus.
Proof. solve_decision. Defined.

#[projections(primitive)]
Record WorkInputs := {
  runningSessions : gset string;
  notifications : gmap string NotificationType;
  pendingRequests : gmap string (gset string);
  activeTurns : gset string;
  pendingTurns : gset string;
  keystrokeTurnSessions : gset string;
  provisionalStartSessions : gset string;
  provisionalTurns : gmap string Z;
  deadHookSessions : gset string;
  interruptedTurns : gset string;
  lastActivityAt : gmap string Z;
  pendingActivityAt : gmap string Z;
  typedSessions : gmap string TypedLine;
  focusedSessions : gmap string string;
  readTracking : bool;
  unreadSessions : gset string;
  defaultTool : option string;
  handlerArmedSessions : gset string }.

(** The state is its inputs and what [build] derives from them; [inputsOf] is
    the projection [inputs]. *)
#[projections(primitive)]
Record WorkStatusState := {
  inputs :> WorkInputs;
  runningCount : nat;
  status : WorkStatus;
  sessionStatuses : gmap string WorkStatus }.

#[export] Instance WorkInputs_eq_dec : EqDecision WorkInputs.
Proof. solve_decision. Defined.

#[export] Instance WorkStatusState_eq_dec : EqDecision WorkStatusState.
Proof. solve_decision. Defined.

Definition UNATTRIBUTED_TURN : string := "".

(** ** Reading the state *)

Definition turnOpenFor (turns : gset string) (s : string) : bool :=
  bool_decide (s ∈ turns) || bool_decide (UNATTRIBUTED_TURN ∈ turns).

(** [(pendingRequests.get(id)?.size ?? 0) > 0] *)
Definition requests_open (reqs : gmap string (gset string)) (s : string) : bool :=
  match reqs !! s with Some open => (0 <? size open)%nat | None => false end.

Definition endsTurn (n : NotificationType) : bool :=
  bool_decide (n = task_complete) || bool_decide (n = idle) || bool_decide (n = error_note).

Definition isCallToAction (n : NotificationType) : bool :=
  bool_decide (n = permission_request) || bool_decide (n = awaiting_input)
  || bool_decide (n = question) || bool_decide (n = error_note).

Definition busDeliverable (state : WorkInputs) (s : string) : bool :=
  if turnOpenFor state.(activeTurns) s then false
  else if requests_open state.(pendingRequests) s then false
  else match state.(notifications) !! s with
       | None => true
       | Some own => negb (isCallToAction own) || bool_decide (own = error_note)
       end.

(** The anonymous turn counts by its turn alone. *)
Definition was_released (prev next : WorkInputs) (i : string) : bool :=
  if decide (i = UNATTRIBUTED_TURN)
  then bool_decide (i ∈ prev.(activeTurns)) && negb (bool_decide (i ∈ next.(activeTurns)))
  else negb (busDeliverable prev i) && busDeliverable next i.

Definition becameDeliverable (prev next : WorkInputs) : gset string :=
  filter (λ i, was_released prev next i = true)
    (prev.(activeTurns) ∪ dom prev.(pendingRequests) ∪ dom prev.(notifications)).

Definition openedTurns (prev next : WorkInputs) : gset string :=
  filter (λ i, i ≠ UNATTRIBUTED_TURN ∧ i ∉ prev.(activeTurns)) next.(activeTurns).

Definition isStaleIdleNudge (state : WorkInputs) (s : string) : bool :=
  bool_decide (state.(notifications) !! s = Some task_complete).

Definition isIdleAtPrompt (state : WorkInputs) (s : string) : bool :=
  if negb (bool_decide (s ∈ state.(runningSessions))) then false
  else if match state.(notifications) !! s with Some own => isCallToAction own | None => false end then false
  else negb (requests_open state.(pendingRequests) s).

(** ** The derived half *)

Definition RANK (s : WorkStatus) : nat :=
  match s with attention => 4 | error => 3 | working => 2 | unread => 1 | done => 0 end.

Definition parkedByHandler (s : string) (i : WorkInputs) : bool :=
  bool_decide (s ∈ i.(handlerArmedSessions)) && bool_decide (i.(notifications) !! s = Some error_note).

(** [notifications.get(id) ?? notifications.get(UNATTRIBUTED_TURN)] *)
Definition own_or_fallback (i : WorkInputs) (s : string) : option NotificationType :=
  match i.(notifications) !! s with
  | Some n => Some n
  | None => i.(notifications) !! UNATTRIBUTED_TURN
  end.

Definition statusFor (s : string) (i : WorkInputs) : WorkStatus :=
  if requests_open i.(pendingRequests) s then attention
  else match own_or_fallback i s with
       | Some permission_request | Some awaiting_input | Some question => attention
       | Some error_note => if parkedByHandler s i then done else error
       | Some task_complete | Some idle => done
       | None => if turnOpenFor i.(activeTurns) s then working else done
       end.

(** The map with [f id] for each [id] of a set. *)
Definition tabulate {A} (f : string → A) (ids : gset string) : gmap string A :=
  map_imap (λ i _, Some (f i)) (gset_to_gmap tt ids).

(** The session showed a status other than [done] and [unread]. *)
Definition was_live (prev : WorkStatusState) (s : string) : bool :=
  match prev.(sessionStatuses) !! s with
  | Some before => negb (bool_decide (before = done)) && negb (bool_decide (before = unread))
  | None => false
  end.

Definition deriveUnread (i : WorkInputs) (raw : gmap string WorkStatus) (prev : option WorkStatusState)
    (decayed : gset string) : gset string :=
  let carried := filter (λ s, raw !! s = Some done) i.(unreadSessions) in
  let fell :=
    match prev with
    | Some prev =>
        if i.(readTracking) then
          filter (λ s, raw !! s = Some done ∧ (s ∉ decayed) ∧ parkedByHandler s i = false ∧
                       was_live prev s = true) (dom raw)
        else ∅
    | None => ∅
    end in
  (carried ∪ fell) ∖ map_img i.(focusedSessions).

Definition shown (marked : gset string) (s : string) (st : WorkStatus) : WorkStatus :=
  if decide (st = done ∧ s ∈ marked) then unread else st.

Definition louder (_ : string) (st acc : WorkStatus) : WorkStatus :=
  if (RANK acc <? RANK st)%nat then st else acc.

Definition build (i : WorkInputs) (prev : option WorkStatusState) (decayed : gset string) : WorkStatusState :=
  let raw := tabulate (λ s, statusFor s i) i.(runningSessions) in
  let marked := deriveUnread i raw prev decayed in
  let statuses := map_imap (λ s st, Some (shown marked s st)) raw in
  {| inputs := i {{ unreadSessions := marked }};
     runningCount := size i.(runningSessions);
     status := map_fold louder done statuses;
     sessionStatuses := statuses |}.

(** A session that left the map stopped waiting. *)
Definition is_waiting (statuses : gmap string WorkStatus) (s : string) : bool :=
  bool_decide (statuses !! s = Some attention).

Definition attentionEdges (prev next : gmap string WorkStatus) : gmap string bool :=
  map_imap (λ s st, let waits := bool_decide (st = attention) in
                    if decide (is_waiting prev s = waits) then None else Some waits) next ∪
  map_imap (λ s st, if decide (st = attention ∧ next !! s = None) then Some false else None) prev.

(** [build({...inputsOf(prev), ...}, prev)] *)
Definition rebuild (prev : WorkStatusState) (i : WorkInputs) : WorkStatusState := build i (Some prev) ∅.

Definition no_inputs : WorkInputs :=
  {| runningSessions := ∅; notifications := ∅; pendingRequests := ∅; activeTurns := ∅; pendingTurns := ∅;
     keystrokeTurnSessions := ∅; provisionalStartSessions := ∅; provisionalTurns := ∅; deadHookSessions := ∅;
     interruptedTurns := ∅; lastActivityAt := ∅; pendingActivityAt := ∅; typedSessions := ∅; focusedSessions := ∅;
     readTracking := false; unreadSessions := ∅; defaultTool := None; handlerArmedSessions := ∅ |}.

Definition initialWorkStatus : WorkStatusState := build no_inputs None ∅.

#[global] Arguments constant {E} newValue / _.
#[global] Arguments requests_open : simpl never.
#[global] Arguments own_or_fallback : simpl never.
#[global] Arguments statusFor : simpl never.
#[global] Arguments busDeliverable : simpl never.
#[global] Arguments deriveUnread : simpl never.
#[global] Arguments tabulate : simpl never.

(** ** Helpers of the operations *)

Definition clearNotifications (m : gmap string NotificationType) (s : string) : gmap string NotificationType :=
  delete UNATTRIBUTED_TURN (delete s m).

(** [requestId] absent: every request of the session. *)
Definition clearRequests (m : gmap string (gset string)) (s : string) (requestId : option string) :
    gmap string (gset string) :=
  match m !! s with
  | None => m
  | Some open =>
      match requestId with
      | None => delete s m
      | Some r =>
          if negb (bool_decide (r ∈ open)) then m
          else if (size open =? 1)%nat then delete s m
          else <[s := open ∖ {[r]}]> m
      end
  end.

Definition withoutTurn (turns : gset string) (s : string) : gset string := turns ∖ {[s]}.

Definition withoutActivity (m : gmap string Z) (s : string) : gmap string Z := delete s m.

(** [now !== undefined && m.get(id) !== now ? new Map(m).set(id, now) : m] *)
Definition touched (m : gmap string Z) (s : string) (now : option Z) : gmap string Z :=
  match now with Some t => <[s := t]> m | None => m end.

(** What an operation whose every input came out unchanged returns. *)
Definition unless_same (prev : WorkStatusState) (i : WorkInputs) : WorkStatusState :=
  if decide (i = prev.(inputs)) then prev else rebuild prev i.

(** ** Turns *)

(** [turnStart] past the hold. *)
Definition turn_start_running (prev : WorkStatusState) (s : string) (answered : option string) (now : option Z) :
    WorkStatusState :=
  if decide (prev.(runningSessions) = ∅) then prev
  else unless_same prev
    prev.(inputs) {{ notifications := clearNotifications prev.(notifications) s;
                     pendingRequests := clearRequests prev.(pendingRequests) s answered;
                     interruptedTurns := withoutTurn prev.(interruptedTurns) s;
                     lastActivityAt := touched prev.(lastActivityAt) s now;
                     provisionalTurns := withoutActivity prev.(provisionalTurns) s;
                     activeTurns := prev.(activeTurns) ∪ {[s]} }}.

Definition turnStart (prev : WorkStatusState) (sessionId : option string) (answered : option string)
    (now : option Z) : WorkStatusState :=
  match sessionId with
  | Some s =>
      if decide (s ∈ prev.(runningSessions)) then turn_start_running prev s answered now
      else unless_same prev
        prev.(inputs) {{ pendingRequests := clearRequests prev.(pendingRequests) s answered;
                         pendingActivityAt := touched prev.(pendingActivityAt) s now;
                         pendingTurns := prev.(pendingTurns) ∪ {[s]} }}
  | None => turn_start_running prev UNATTRIBUTED_TURN answered now
  end.

(** [n !== undefined && endsTurn(n)] *)
Definition alreadyEnded (n : option NotificationType) : bool :=
  match n with Some n => endsTurn n | None => false end.

Definition turn_activity_running (prev : WorkStatusState) (sessionId : option string) (now : option Z) :
    WorkStatusState :=
  let s := default UNATTRIBUTED_TURN sessionId in
  if decide (prev.(runningSessions) = ∅) then prev
  else if (bool_decide (is_Some sessionId) && alreadyEnded (prev.(notifications) !! s))
          || alreadyEnded (prev.(notifications) !! UNATTRIBUTED_TURN)
          || (bool_decide (is_Some sessionId) && bool_decide (s ∈ prev.(interruptedTurns)))
       then prev
       else unless_same prev
         prev.(inputs) {{ activeTurns := prev.(activeTurns) ∪ {[s]};
                          lastActivityAt := touched prev.(lastActivityAt) s now;
                          provisionalTurns := withoutActivity prev.(provisionalTurns) s }}.

Definition turnActivity (prev : WorkStatusState) (sessionId : option string) (now : option Z) : WorkStatusState :=
  match sessionId with
  | Some s =>
      if decide (s ∈ prev.(runningSessions)) then turn_activity_running prev sessionId now
      else unless_same prev
        prev.(inputs) {{ pendingActivityAt := touched prev.(pendingActivityAt) s now;
                         pendingTurns := prev.(pendingTurns) ∪ {[s]} }}
  | None => turn_activity_running prev sessionId now
  end.

Definition answerRequest (prev : WorkStatusState) (s : string) (requestId : option string) (now : option Z) :
    WorkStatusState :=
  let blocked := match prev.(notifications) !! s with Some own => isCallToAction own | None => false end in
  let answered :=
    match requestId, prev.(pendingRequests) !! s with
    | None, o => bool_decide (is_Some o)
    | Some r, Some open => bool_decide (r ∈ open)
    | Some _, None => false
    end in
  if negb blocked && negb answered then prev else turnStart prev (Some s) requestId now.

Record ReplyOptions := { submitted : bool; typed : bool; is_command : bool }.

(** Does the keystroke open the session's turn? *)
Definition reply_opens (prev : WorkInputs) (s : string) (opts : ReplyOptions) (line : option TypedLine) : bool :=
  opts.(submitted) && bool_decide (line = Some prompt)
  && (bool_decide (s ∈ prev.(keystrokeTurnSessions)) || bool_decide (s ∈ prev.(provisionalStartSessions)))
  && negb (bool_decide (s ∈ prev.(activeTurns))).

Definition opening_line (opts : ReplyOptions) : option TypedLine :=
  if opts.(typed) then Some (if opts.(is_command) then command else prompt) else None.

(** The line in the composer: what opened it, or what this frame opens. *)
Definition composed_line (prev : WorkInputs) (s : string) (opts : ReplyOptions) : option TypedLine :=
  match prev.(typedSessions) !! s with Some held => Some held | None => opening_line opts end.

Definition userReply (prev : WorkStatusState) (s : string) (opts : ReplyOptions) (now : option Z) : WorkStatusState :=
  let blocked := match prev.(notifications) !! s with Some own => isCallToAction own | None => false end in
  let pending := bool_decide (is_Some (prev.(pendingRequests) !! s)) in
  let opening := opening_line opts in
  let held := prev.(typedSessions) !! s in
  let opens := reply_opens prev s opts (composed_line prev s opts) in
  let recordTyped := bool_decide (is_Some opening) && bool_decide (held = None) && negb opts.(submitted) in
  let clearsLine := opts.(submitted) && bool_decide (is_Some held) in
  if negb blocked && negb pending && negb opens && negb recordTyped && negb clearsLine then prev
  else rebuild prev
    prev.(inputs) {{
      notifications := if blocked || opens then delete s prev.(notifications) else prev.(notifications);
      pendingRequests := clearRequests prev.(pendingRequests) s None;
      activeTurns := if opens then prev.(activeTurns) ∪ {[s]} else prev.(activeTurns);
      interruptedTurns := if opens then withoutTurn prev.(interruptedTurns) s else prev.(interruptedTurns);
      lastActivityAt := if opens then touched prev.(lastActivityAt) s now else prev.(lastActivityAt);
      provisionalTurns := if opens && bool_decide (s ∈ prev.(provisionalStartSessions))
                          then <[s := default 0 now]> prev.(provisionalTurns) else prev.(provisionalTurns);
      typedSessions := if clearsLine then delete s prev.(typedSessions)
                       else match opening with
                            | Some line => if recordTyped then <[s := line]> prev.(typedSessions) else prev.(typedSessions)
                            | None => prev.(typedSessions)
                            end }}.

Definition withTurnEnded (prev : WorkInputs) (s : string) : WorkInputs :=
  prev {{ activeTurns := withoutTurn prev.(activeTurns) s;
          pendingTurns := withoutTurn prev.(pendingTurns) s;
          pendingRequests := clearRequests prev.(pendingRequests) s None;
          lastActivityAt := withoutActivity prev.(lastActivityAt) s;
          provisionalTurns := withoutActivity prev.(provisionalTurns) s }}.

Definition closeTurn (prev : WorkStatusState) (s : string) : WorkStatusState :=
  unless_same prev (withTurnEnded prev s) {{ notifications := clearNotifications prev.(notifications) s }}.

Definition closeInterruptedTurn (prev : WorkStatusState) (s : string) : WorkStatusState :=
  let closed := closeTurn prev s in
  if decide (s ∈ closed.(interruptedTurns)) then closed
  else rebuild closed closed.(inputs) {{ interruptedTurns := closed.(interruptedTurns) ∪ {[s]} }}.

Definition hookTurnEnd (prev : WorkStatusState) (s : string) : WorkStatusState :=
  unless_same prev (withTurnEnded prev s).

Definition noteHookChannelLost (prev : WorkStatusState) (s : string) : WorkStatusState :=
  if decide (s ∈ prev.(deadHookSessions)) then prev
  else
    let inferred := bool_decide (s ∈ prev.(keystrokeTurnSessions)) in
    rebuild prev
      prev.(inputs) {{ deadHookSessions := prev.(deadHookSessions) ∪ {[s]};
                       keystrokeTurnSessions := withoutTurn prev.(keystrokeTurnSessions) s;
                       provisionalStartSessions := withoutTurn prev.(provisionalStartSessions) s;
                       activeTurns := if inferred then withoutTurn prev.(activeTurns) s else prev.(activeTurns);
                       pendingTurns := if inferred then withoutTurn prev.(pendingTurns) s else prev.(pendingTurns) }}.

Definition noteHookChannelRestored (prev : WorkStatusState) (s : string) : WorkStatusState :=
  if decide (s ∈ prev.(deadHookSessions))
  then rebuild prev prev.(inputs) {{ deadHookSessions := withoutTurn prev.(deadHookSessions) s }}
  else prev.

(** ** Clients and requests *)

Definition withFocus (m : gmap string string) (client : string) (s : option string) : gmap string string :=
  match s with None => delete client m | Some s => <[client := s]> m end.

Definition sessionFocus (prev : WorkStatusState) (s client : string) : WorkStatusState :=
  let focused := withFocus prev.(focusedSessions) client (Some s) in
  if prev.(readTracking) && bool_decide (focused = prev.(focusedSessions)) && negb (bool_decide (s ∈ prev.(unreadSessions)))
  then prev
  else rebuild prev
    (prev.(inputs) {{ focusedSessions := focused; readTracking := true; unreadSessions := prev.(unreadSessions) ∖ {[s]} }}).

Definition clientFocusState (prev : WorkStatusState) (paused : bool) (client : string) : WorkStatusState :=
  let focused := if paused then withFocus prev.(focusedSessions) client None else prev.(focusedSessions) in
  if prev.(readTracking) && bool_decide (focused = prev.(focusedSessions)) then prev
  else rebuild prev (prev.(inputs) {{ focusedSessions := focused; readTracking := true }}).

Definition clientGone (prev : WorkStatusState) (client : string) : WorkStatusState :=
  unless_same prev (prev.(inputs) {{ focusedSessions := withFocus prev.(focusedSessions) client None }}).

Definition openRequest (prev : WorkStatusState) (s requestId : string) : WorkStatusState :=
  let open := default ∅ (prev.(pendingRequests) !! s) in
  if decide (requestId ∈ open) then prev
  else rebuild prev (prev.(inputs) {{ pendingRequests := <[s := open ∪ {[requestId]}]> prev.(pendingRequests) }}).

Definition closeRequest (prev : WorkStatusState) (s : string) (requestId : option string) : WorkStatusState :=
  unless_same prev (prev.(inputs) {{ pendingRequests := clearRequests prev.(pendingRequests) s requestId }}).

(** ** Notifications *)

(** The key a notification is shown under. *)
Definition notification_key (prev : WorkInputs) (raw : string) : string :=
  if decide (raw = UNATTRIBUTED_TURN ∨ raw ∈ prev.(runningSessions)) then raw else UNATTRIBUTED_TURN.

Definition foldNotification (prev : WorkStatusState) (sessionId : option string) (n : NotificationType) :
    WorkStatusState :=
  let raw := default UNATTRIBUTED_TURN sessionId in
  let key := notification_key prev raw in
  let ended := if endsTurn n then withTurnEnded prev raw else prev.(inputs) in
  let own := prev.(notifications) !! key in
  let stale := bool_decide (n = awaiting_input) && isStaleIdleNudge prev key in
  if bool_decide (Some n = own) || stale
  then unless_same prev ended
  else rebuild prev (ended {{ notifications := <[key := n]> prev.(notifications) }}).

(** ** The session list *)

Record SessionFoldEntry := {
  entry_id : string;
  running : bool;
  archived : bool;
  mode : option string;
  tool : option string }.

(** What the reduction asks of an agent's spec. *)
Record AgentHooks := { provisionalTurnStart : option bool; turn_start_events : list string }.
Record AgentSpec := { inferTurnStart : option bool; hooks : option AgentHooks }.

Definition sameIds (a b : gset string) : bool :=
  (size a =? size b)%nat && bool_decide (set_Forall (λ i, i ∈ b) a).

(** What is keyed by a session goes with it; the anonymous entry stays while
    any session runs. *)
Definition live_key (live : gset string) (i : string) : bool :=
  if decide (i = UNATTRIBUTED_TURN) then negb (bool_decide (live = ∅)) else bool_decide (i ∈ live).

Definition keep_keys {A} (p : string → bool) (m : gmap string A) : gmap string A := filter (λ kv, p kv.1 = true) m.

Section agents.
Context (agentSpec : string → option AgentSpec).

(** A tool name that is not empty, and known. *)
Definition spec_of (tool : option string) : option AgentSpec :=
  match tool with Some t => if decide (t = "") then None else agentSpec t | None => None end.

Definition needsKeystrokeTurnStart (tool : option string) : bool :=
  match spec_of tool with Some spec => bool_decide (spec.(inferTurnStart) = Some true) | None => false end.

Definition opensProvisionalTurn (tool : option string) : bool :=
  match spec_of tool ≫= hooks with
  | Some h => bool_decide (h.(provisionalTurnStart) = Some true) && (0 <? length h.(turn_start_events))%nat
  | None => false
  end.

(** The running terminal sessions with a live hook channel whose agent has
    the property. *)
Definition sessions_needing (need : option string → bool) (prev : WorkInputs) (dead : gset string)
    (entries : list SessionFoldEntry) : gset string :=
  list_to_set (entry_id <$> filter (λ e,
    e.(mode) ≠ Some "chat" ∧ (e.(entry_id) ∉ dead) ∧
    need (match e.(tool) with Some t => Some t | None => prev.(defaultTool) end) = true) entries).

Definition live_entries (entries : list SessionFoldEntry) : list SessionFoldEntry :=
  filter (λ e, e.(running) = true ∧ e.(archived) = false) entries.

Definition live_ids (entries : list SessionFoldEntry) : gset string := list_to_set (entry_id <$> live_entries entries).

(** The readings held for the turns that are promoted. *)
Definition promoted_activity (prev : WorkInputs) (live : gset string) : gmap string Z :=
  filter (λ kv, kv.1 ∈ prev.(pendingTurns) ∧ kv.1 ∈ live) prev.(pendingActivityAt).

Definition folded_notifications (prev : WorkInputs) (live : gset string) : gmap string NotificationType :=
  let kept := keep_keys (live_key live) prev.(notifications) in
  match kept !! UNATTRIBUTED_TURN with
  | Some n => if (size prev.(runningSessions) <? size live)%nat && negb (isCallToAction n)
              then delete UNATTRIBUTED_TURN kept else kept
  | None => kept
  end.

Definition folded_inputs (prev : WorkInputs) (entries : list SessionFoldEntry) : WorkInputs :=
  let live := live_ids entries in
  let dead := prev.(deadHookSessions) ∩ live in
  prev {{ runningSessions := live;
          deadHookSessions := dead;
          keystrokeTurnSessions := sessions_needing needsKeystrokeTurnStart prev dead (live_entries entries);
          provisionalStartSessions := sessions_needing opensProvisionalTurn prev dead (live_entries entries);
          activeTurns := filter (λ i, live_key live i = true) prev.(activeTurns) ∪ (prev.(pendingTurns) ∩ live);
          pendingRequests := keep_keys (λ i, bool_decide (i ∈ live)) prev.(pendingRequests);
          notifications := folded_notifications prev live;
          typedSessions := keep_keys (λ i, bool_decide (i ∈ live)) prev.(typedSessions);
          interruptedTurns := prev.(interruptedTurns) ∩ live;
          lastActivityAt := promoted_activity prev live ∪ keep_keys (live_key live) prev.(lastActivityAt);
          provisionalTurns := keep_keys (λ i, bool_decide (i ∈ live)) prev.(provisionalTurns);
          pendingTurns := ∅;
          pendingActivityAt := ∅ }}.

Definition fold_unchanged (prev next : WorkInputs) : bool :=
  sameIds next.(runningSessions) prev.(runningSessions)
  && sameIds next.(activeTurns) prev.(activeTurns)
  && sameIds next.(keystrokeTurnSessions) prev.(keystrokeTurnSessions)
  && sameIds next.(provisionalStartSessions) prev.(provisionalStartSessions)
  && (size next.(provisionalTurns) =? size prev.(provisionalTurns))%nat
  && (size prev.(pendingTurns) =? 0)%nat
  && (size next.(pendingRequests) =? size prev.(pendingRequests))%nat
  && (size next.(notifications) =? size prev.(notifications))%nat
  && (size next.(deadHookSessions) =? size prev.(deadHookSessions))%nat
  && (size next.(typedSessions) =? size prev.(typedSessions))%nat
  && (size next.(interruptedTurns) =? size prev.(interruptedTurns))%nat
  && (size next.(lastActivityAt) =? size prev.(lastActivityAt))%nat.

Definition foldSessions (prev : WorkStatusState) (entries : list SessionFoldEntry) : WorkStatusState :=
  let next := folded_inputs prev entries in
  if fold_unchanged prev next then prev else rebuild prev next.

(** ** The frames *)

Inductive WorkMessage :=
  | agent_turn_start (sessionId : string) (timestamp : Z)
  | agent_turn_end (sessionId : string)
  | agent_permission_request (sessionId permissionId : string)
  | agent_question (sessionId questionId : string)
  | agent_request_retracted (sessionId : string) (permissionId questionId : option string)
  | notification_push (sessionId : option string) (notificationType : NotificationType)
  | session_updated (sessions : list SessionFoldEntry)
  | agent_hello (tool : option string)
  | handler_status (terminalIds : list string)
  | other_message.

Definition reduceWorkStatus (prev : WorkStatusState) (msg : WorkMessage) : WorkStatusState :=
  match msg with
  | agent_turn_start s t => turnStart prev (Some s) None (Some t)
  | agent_turn_end s => closeTurn prev s
  | agent_permission_request s r => openRequest prev s r
  | agent_question s r => openRequest prev s r
  | agent_request_retracted s p q => closeRequest prev s (match p with Some p => Some p | None => q end)
  | notification_push s n => foldNotification prev s n
  | session_updated entries => foldSessions prev entries
  | agent_hello t =>
      if decide (t = prev.(defaultTool)) then prev else rebuild prev (prev.(inputs) {{ defaultTool := t }})
  | handler_status ids =>
      let armed := list_to_set ids in
      if sameIds armed prev.(handlerArmedSessions) then prev
      else rebuild prev (prev.(inputs) {{ handlerArmedSessions := armed }})
  | other_message => prev
  end.

(** ** Clocks *)

Definition DEFAULT_TURN_IDLE_MS : Z := 30 * 60000.
Definition PROVISIONAL_TURN_GRACE_MS : Z := 30000.

Definition turn_expired (prev : WorkInputs) (now maxIdleMs : Z) (s : string) : bool :=
  if bool_decide (s ∈ prev.(keystrokeTurnSessions)) then false
  else if requests_open prev.(pendingRequests) s then false
  else if match own_or_fallback prev s with Some n => isCallToAction n | None => false end then false
  else match prev.(lastActivityAt) !! s with Some last => maxIdleMs <? now - last | None => false end.

Definition expired_turns (prev : WorkInputs) (now maxIdleMs : Z) : gset string :=
  filter (λ s, turn_expired prev now maxIdleMs s = true) prev.(activeTurns).

Definition expireTurns (prev : WorkStatusState) (now maxIdleMs : Z) : WorkStatusState :=
  let expired := expired_turns prev now maxIdleMs in
  if decide (expired = ∅) then prev
  else
    let decayed := if decide (UNATTRIBUTED_TURN ∈ expired) then expired ∪ prev.(runningSessions) else expired in
    build (prev.(inputs) {{ activeTurns := prev.(activeTurns) ∖ expired;
                            lastActivityAt := keep_keys (λ i, negb (bool_decide (i ∈ expired))) prev.(lastActivityAt);
                            provisionalTurns := keep_keys (λ i, negb (bool_decide (i ∈ expired))) prev.(provisionalTurns) }})
          (Some prev) decayed.

Definition retractProvisionalTurn (prev : WorkStatusState) (s : string) (openedAt : Z) : WorkStatusState :=
  if decide (prev.(provisionalTurns) !! s = Some openedAt)
  then build (prev.(inputs) {{ activeTurns := withoutTurn prev.(activeTurns) s;
                               lastActivityAt := withoutActivity prev.(lastActivityAt) s;
                               provisionalTurns := withoutActivity prev.(provisionalTurns) s }})
             (Some prev) {[s]}
  else prev.

(** ** What reaches the reduction: the callers in src/bridge/src/project-core.ts *)

Inductive WorkEvent :=
  | EvFrame (msg : WorkMessage)
  | EvTurnStart (sessionId : option string) (now : Z)
  | EvTurnActivity (sessionId : option string) (now : Z)
  | EvUserReply (s : string) (opts : ReplyOptions) (now : Z)
  | EvProvisionalTimer (s : string) (openedAt : Z)
  | EvAnswer (s : string) (requestId : option string) (now : Z)
  | EvSessionFocus (s client : string)
  | EvClientFocusState (paused : bool) (client : string)
  | EvClientGone (client : string)
  | EvInterrupt (s : string)
  | EvHookTurnEnd (s : string)
  | EvHookChannelLost (s : string)
  | EvHookChannelRestored (s : string)
  | EvExpireInterval (now : Z).

Definition work_event (w : WorkStatusState) (e : WorkEvent) : WorkStatusState :=
  match e with
  | EvFrame msg => reduceWorkStatus w msg
  | EvTurnStart s now => turnStart w s None (Some now)
  | EvTurnActivity s now => turnActivity w s (Some now)
  | EvUserReply s opts now => userReply w s opts (Some now)
  | EvProvisionalTimer s openedAt => retractProvisionalTurn w s openedAt
  | EvAnswer s r now => answerRequest w s r (Some now)
  | EvSessionFocus s c => sessionFocus w s c
  | EvClientFocusState p c => clientFocusState w p c
  | EvClientGone c => clientGone w c
  | EvInterrupt s => if turnOpenFor w.(activeTurns) s then closeInterruptedTurn w s else w
  | EvHookTurnEnd s => hookTurnEnd w s
  | EvHookChannelLost s => noteHookChannelLost w s
  | EvHookChannelRestored s => noteHookChannelRestored w s
  | EvExpireInterval now => expireTurns w now DEFAULT_TURN_IDLE_MS
  end.

Definition run_work (evs : list WorkEvent) : WorkStatusState := foldl work_event initialWorkStatus evs.

(** The states a project goes through. *)
Inductive WorkReach : WorkStatusState → Prop :=
  | work_initial : WorkReach initialWorkStatus
  | work_next w e : WorkReach w → WorkReach (work_event w e).
End agents.

(** ** The edges *)

(** The flips of the word, and nothing else. *)
Lemma attentionEdges_exact prev next s b :
  attentionEdges prev next !! s = Some b ↔ is_waiting prev s ≠ is_waiting next s ∧ b = is_waiting next s.
Proof.
  unfold attentionEdges. rewrite lookup_union, !map_lookup_imap. unfold is_waiting.
  destruct (next !! s) as [st|], (prev !! s) as [st'|]; simpl; repeat case_bool_decide; repeat case_decide;
    simpl; split; try (intros [? ->]); intros; destruct_and?; simplify_eq; try done;
    try (intuition congruence); destruct b; try discriminate; by split.
Qed.

(** The turn of nobody in particular is open. *)
Definition anonymous_turn (w : WorkInputs) : Prop := UNATTRIBUTED_TURN ∈ w.(activeTurns).

Lemma turnOpenFor_true ts s : turnOpenFor ts s = true ↔ s ∈ ts ∨ UNATTRIBUTED_TURN ∈ ts.
Proof. unfold turnOpenFor. rewrite orb_true_iff, !bool_decide_eq_true. done. Qed.

Lemma busDeliverable_true w s :
  busDeliverable w s = true ↔
    (s ∉ w.(activeTurns)) ∧ ¬ anonymous_turn w ∧ requests_open w.(pendingRequests) s = false ∧
    (∀ n, w.(notifications) !! s = Some n → isCallToAction n = true → n = error_note).
Proof.
  unfold busDeliverable, anonymous_turn. pose proof (turnOpenFor_true w.(activeTurns) s) as Ht.
  destruct (turnOpenFor _ _); [split; [done|]; intros (H1 & H2 & _); exfalso; tauto|].
  assert ((s ∉ w.(activeTurns)) ∧ (UNATTRIBUTED_TURN ∉ w.(activeTurns))) as [H1 H2]
    by (split; intros H; enough (false = true) by done; tauto).
  destruct (requests_open _ _); [split; [done|]; intros (_ & _ & [=] & _)|].
  destruct (w.(notifications) !! s) as [n|] eqn:Hn.
  - rewrite orb_true_iff, negb_true_iff, bool_decide_eq_true. split.
    + intros Hor. split_and!; [done..|]. intros ? [= <-] Hc. destruct Hor; congruence.
    + intros (_ & _ & _ & Hall). destruct (isCallToAction n) eqn:Hc; [right; by apply Hall|by left].
  - split; [|done]. intros _. split_and!; [done..|]. by intros ? [=].
Qed.

Lemma requests_open_dom m s : requests_open m s = true → s ∈ dom m.
Proof. unfold requests_open. intros H. apply elem_of_dom. destruct (m !! s); [by eexists|done]. Qed.

(** A session that is held leaves a trace the edge looks at, unless it is held
    by the anonymous turn alone. *)
Lemma held_leaves_a_trace w s :
  busDeliverable w s = false →
  s ∈ w.(activeTurns) ∪ dom w.(pendingRequests) ∪ dom w.(notifications) ∨ anonymous_turn w.
Proof.
  intros Hd. destruct (decide (anonymous_turn w)) as [|Ha]; [by right|]. left.
  destruct (decide (s ∈ w.(activeTurns) ∪ dom w.(pendingRequests) ∪ dom w.(notifications))) as [|Hn]; [done|].
  enough (busDeliverable w s = true) by congruence. apply busDeliverable_true.
  rewrite !not_elem_of_union, !not_elem_of_dom in Hn. destruct Hn as [[H1 H2] H3].
  split_and!; [done..| |by rewrite H3]. unfold requests_open. by rewrite H2.
Qed.

Lemma anonymous_holds_all w s : anonymous_turn w → busDeliverable w s = false.
Proof.
  intros Ha. destruct (busDeliverable w s) eqn:Hd; [|done]. apply busDeliverable_true in Hd as (_ & Hn & _). done.
Qed.

Lemma elem_of_becameDeliverable prev next s :
  s ∈ becameDeliverable prev next ↔
    was_released prev next s = true ∧ s ∈ prev.(activeTurns) ∪ dom prev.(pendingRequests) ∪ dom prev.(notifications).
Proof. unfold becameDeliverable. by rewrite elem_of_filter. Qed.

Lemma released_session prev next s :
  s ≠ UNATTRIBUTED_TURN → was_released prev next s = true ↔ busDeliverable prev s = false ∧ busDeliverable next s = true.
Proof. intros Hs. unfold was_released. rewrite decide_False by done. by rewrite andb_true_iff, negb_true_iff. Qed.

Lemma released_anonymous prev next :
  UNATTRIBUTED_TURN ∈ becameDeliverable prev next ↔ anonymous_turn prev ∧ ¬ anonymous_turn next.
Proof.
  rewrite elem_of_becameDeliverable. unfold was_released, anonymous_turn. rewrite decide_True by done.
  rewrite andb_true_iff, negb_true_iff, bool_decide_eq_true, bool_decide_eq_false. set_solver.
Qed.

Lemma elem_of_openedTurns prev next s :
  s ∈ openedTurns prev next ↔ s ≠ UNATTRIBUTED_TURN ∧ (s ∉ prev.(activeTurns)) ∧ s ∈ next.(activeTurns).
Proof. unfold openedTurns. rewrite elem_of_filter. tauto. Qed.

Lemma release_is_reported prev next s :
  s ≠ UNATTRIBUTED_TURN → busDeliverable prev s = false → busDeliverable next s = true →
  s ∈ becameDeliverable prev next ∨ UNATTRIBUTED_TURN ∈ becameDeliverable prev next.
Proof.
  intros Hs Hp Hn. pose proof (proj1 (busDeliverable_true _ _) Hn) as (_ & Ha & _).
  destruct (held_leaves_a_trace prev s Hp) as [Ht|Ht]; [left|right; by apply released_anonymous].
  apply elem_of_becameDeliverable. by rewrite released_session.
Qed.

(** No held line waits for an edge that is not produced.  Between any two
    states, a session that was held for a bus delivery and is not any more is
    reported, or the anonymous turn that held it is; a session is reported only
    if it was so released, the anonymous turn exactly when it closed; and no
    session is reported released and opened at once, so that a line is never
    taken for read and handed over on the same edge. *)
Theorem release_edges_complete prev next :
  (∀ s, s ≠ UNATTRIBUTED_TURN → busDeliverable prev s = false → busDeliverable next s = true →
     s ∈ becameDeliverable prev next ∨ UNATTRIBUTED_TURN ∈ becameDeliverable prev next) ∧
  (∀ s, s ≠ UNATTRIBUTED_TURN → s ∈ becameDeliverable prev next →
     busDeliverable prev s = false ∧ busDeliverable next s = true) ∧
  (UNATTRIBUTED_TURN ∈ becameDeliverable prev next ↔ anonymous_turn prev ∧ ¬ anonymous_turn next) ∧
  openedTurns prev next ## becameDeliverable prev next.
Proof.
  split_and!; [| | |].
  - apply release_is_reported.
  - intros s Hs [Hr _]%elem_of_becameDeliverable. by apply released_session.
  - apply released_anonymous.
  - intros s (Hs & _ & Hn)%elem_of_openedTurns [Hr _]%elem_of_becameDeliverable.
    apply released_session in Hr as [_ Hr]; [|done]. by apply busDeliverable_true in Hr as (? & _).
Qed.

(** A session whose one open request was answered. *)
Lemma release_edges_witness :
  let s := "s1" in
  let prev := no_inputs {{ runningSessions := {[s]}; pendingRequests := {[s := {["r"]}]} }} in
  let next := no_inputs {{ runningSessions := {[s]} }} in
  s ∈ becameDeliverable prev next ∨ UNATTRIBUTED_TURN ∈ becameDeliverable prev next.
Proof. intros s prev next. apply (release_edges_complete prev next); vm_compute; done. Defined.
