(* ===== verification/WorkInvariant.v ===== *)
(** * WorkInvariant: what holds of every state of the work-status reduction

    The two halves of a state of WorkStatus.v: what its inputs keep to
    ([inputs_ok]) and what the derived half says of them ([derived_ok]), kept by
    every operation and so true of every reachable state ([work_ok_reach]). *)

From S2P Require Import Prelude WorkStatus.
From coqutil Require Import Datatypes.RecordSetters.
Import DoubleBraceUpdate.

(** ** The invariant *)

Definition nonempty_requests (m : gmap string (gset string)) : Prop := map_Forall (λ _ open, open ≠ ∅) m.

Record inputs_ok (i : WorkInputs) : Prop := {
  ok_turns : i.(activeTurns) ⊆ i.(runningSessions) ∪ {[UNATTRIBUTED_TURN]};
  ok_idle : i.(runningSessions) = ∅ → i.(activeTurns) = ∅;
  ok_notes : dom i.(notifications) ⊆ i.(runningSessions) ∪ {[UNATTRIBUTED_TURN]};
  ok_inferred : i.(keystrokeTurnSessions) ∪ i.(provisionalStartSessions) ⊆ i.(runningSessions);
  ok_dead : i.(deadHookSessions) ## i.(keystrokeTurnSessions) ∪ i.(provisionalStartSessions);
  ok_requests : nonempty_requests i.(pendingRequests) }.

Record derived_ok (w : WorkStatusState) : Prop := {
  ok_dots s : w.(sessionStatuses) !! s =
    if decide (s ∈ w.(runningSessions)) then Some (shown w.(unreadSessions) s (statusFor s w)) else None;
  ok_unread s : s ∈ w.(unreadSessions) →
    s ∈ w.(runningSessions) ∧ statusFor s w = done ∧ s ∉ (map_img w.(focusedSessions) : gset string);
  ok_count : w.(runningCount) = size w.(runningSessions);
  ok_loudest s st : w.(sessionStatuses) !! s = Some st → (RANK st <= RANK w.(status))%nat;
  ok_attained : w.(status) = done ∨ ∃ s, w.(sessionStatuses) !! s = Some w.(status) }.

Definition work_ok (w : WorkStatusState) : Prop := inputs_ok w ∧ derived_ok w.

(** ** The derived half *)

Lemma lookup_tabulate {A} (f : string → A) ids s : tabulate f ids !! s = if decide (s ∈ ids) then Some (f s) else None.
Proof.
  unfold tabulate. rewrite map_lookup_imap, lookup_gset_to_gmap. case_decide; [by rewrite option_guard_True|].
  by rewrite option_guard_False.
Qed.

Lemma statusFor_unread s i marked : statusFor s (i {{ unreadSessions := marked }}) = statusFor s i.
Proof. done. Qed.

Lemma louder_spec (m : gmap string WorkStatus) :
  (∀ s st, m !! s = Some st → (RANK st <= RANK (map_fold louder done m))%nat) ∧
  (map_fold louder done m = done ∨ ∃ s, m !! s = Some (map_fold louder done m)).
Proof.
  revert m. apply (map_fold_weak_ind (λ r m,
    (∀ s st, m !! s = Some st → (RANK st <= RANK r)%nat) ∧ (r = done ∨ ∃ s, m !! s = Some r))).
  - split; [|by left]. intros s st. by rewrite lookup_empty.
  - intros s st m r Hs [Hle Hat]. unfold louder. destruct (RANK r <? RANK st)%nat eqn:Hlt.
    + apply Nat.ltb_lt in Hlt. split; [|right; exists s; apply lookup_insert_eq].
      intros s' st'. rewrite lookup_insert_Some. intros [[-> ->]|[_ Hm]]; [done|].
      pose proof (Hle _ _ Hm). lia.
    + apply Nat.ltb_ge in Hlt. split.
      * intros s' st'. rewrite lookup_insert_Some. intros [[-> ->]|[_ Hm]]; [done|eauto].
      * destruct Hat as [|[s' Hat]]; [by left|right]. exists s'. rewrite lookup_insert_ne; [done|].
        intros ->. congruence.
Qed.

Lemma elem_of_deriveUnread i raw prev decayed s :
  s ∈ deriveUnread i raw prev decayed ↔
    (s ∉ (map_img i.(focusedSessions) : gset string)) ∧ raw !! s = Some done ∧
    (s ∈ i.(unreadSessions) ∨
     ∃ p, prev = Some p ∧ i.(readTracking) = true ∧ (s ∉ decayed) ∧ parkedByHandler s i = false ∧ was_live p s = true).
Proof.
  unfold deriveUnread. rewrite elem_of_difference, elem_of_union, elem_of_filter. destruct prev as [p|].
  - destruct (readTracking i).
    + rewrite elem_of_filter, elem_of_dom. split; [|naive_solver].
      intros [[[H1 H2]|((H1 & H2 & H3 & H4) & _)] Hf]; split_and!; [done|done|by left|done|done|].
      right. by exists p.
    + set_solver.
  - set_solver.
Qed.

Lemma derived_build i prev decayed : derived_ok (build i prev decayed).
Proof.
  set (w := build i prev decayed).
  assert (∀ s, s ∈ w.(unreadSessions) →
    s ∈ w.(runningSessions) ∧ statusFor s w = done ∧ s ∉ (map_img w.(focusedSessions) : gset string)) as Hu.
  { intros s (Hf & Hr & _)%elem_of_deriveUnread. rewrite lookup_tabulate in Hr.
    case_decide as Hs; [|done]. injection Hr as Hr. exact (conj Hs (conj Hr Hf)). }
  split; [|done|done| |].
  - intros s. simpl. rewrite map_lookup_imap, lookup_tabulate. by destruct (decide (s ∈ runningSessions i)).
  - apply louder_spec.
  - apply louder_spec.
Qed.

Lemma inputs_ok_unread i marked : inputs_ok i → inputs_ok (i {{ unreadSessions := marked }}).
Proof. intros []. by split. Qed.

Lemma build_ok i prev decayed : inputs_ok i → work_ok (build i prev decayed).
Proof. intros Hi. split; [by apply inputs_ok_unread|apply derived_build]. Qed.

Lemma rebuild_ok prev i : inputs_ok i → work_ok (rebuild prev i).
Proof. apply build_ok. Qed.

Lemma unless_same_ok prev i : work_ok prev → inputs_ok i → work_ok (unless_same prev i).
Proof. intros Hp Hi. unfold unless_same. case_decide; [done|by apply rebuild_ok]. Qed.

(** ** The inputs, operation by operation *)

Lemma clearRequests_nonempty (m : gmap string (gset string)) s r : nonempty_requests m → nonempty_requests (clearRequests m s r).
Proof.
  unfold nonempty_requests. intros Hm. unfold clearRequests. destruct (m !! s) as [open|] eqn:Ho; [|done].
  destruct r as [r|]; [|by apply map_Forall_delete]. destruct (bool_decide_reflect (r ∈ open)) as [Hr|]; [|done]. simpl.
  destruct (size open =? 1)%nat eqn:Hs; [by apply map_Forall_delete|]. apply Nat.eqb_neq in Hs.
  apply map_Forall_insert_2; [|done]. intros He. apply Hs.
  assert (open ≡ {[r]}) as -> by (intros x; destruct (decide (x = r)); set_solver). apply size_singleton.
Qed.

Lemma dom_clearNotifications m s : dom (clearNotifications m s) ⊆ dom m.
Proof. unfold clearNotifications. set_solver. Qed.

Lemma dom_keep_keys {A} p (m : gmap string A) : dom (keep_keys p m) ⊆ dom m.
Proof. apply dom_filter_subseteq. Qed.

Lemma elem_dom_keep_keys {A} p (m : gmap string A) s : s ∈ dom (keep_keys p m) → p s = true.
Proof. intros [x [_ Hx]%map_lookup_filter_Some]%elem_of_dom. done. Qed.

(** The inputs change in maps and sets whose ids stay among those there. *)
Ltac solve_inputs :=
  lazymatch goal with
  | H : inputs_ok ?i |- inputs_ok _ => unfold withoutTurn; destruct H; split; simpl
  end;
  first [done | by apply clearRequests_nonempty | set_solver].

Lemma turn_start_running_ok w s answered now :
  work_ok w → s ∈ w.(runningSessions) ∪ {[UNATTRIBUTED_TURN]} → work_ok (turn_start_running w s answered now).
Proof.
  intros Hw Hs. unfold turn_start_running. case_decide as Hr; [done|]. apply unless_same_ok; [done|].
  destruct Hw as [Hi _]. pose proof (dom_clearNotifications w.(notifications) s). solve_inputs.
Qed.

Lemma turnStart_ok w s answered now : work_ok w → work_ok (turnStart w s answered now).
Proof.
  intros Hw. destruct s as [s|]; simpl; [|apply turn_start_running_ok; set_solver].
  case_decide; [apply turn_start_running_ok; set_solver|].
  apply unless_same_ok; [done|]. destruct Hw as [Hi _]. solve_inputs.
Qed.

Lemma turnActivity_ok w s now : work_ok w → work_ok (turnActivity w s now).
Proof.
  intros Hw. destruct Hw as [Hi Hd].
  assert (∀ o, (default UNATTRIBUTED_TURN o) ∈ w.(runningSessions) ∪ {[UNATTRIBUTED_TURN]} →
    work_ok (turn_activity_running w o now)) as Hrun.
  { intros o Ho. unfold turn_activity_running. case_decide as Hr; [by split|]. case_match; [by split|].
    apply unless_same_ok; [by split|]. solve_inputs. }
  destruct s as [s|]; simpl; [|apply Hrun; set_solver]. case_decide; [apply Hrun; set_solver|].
  apply unless_same_ok; [by split|]. solve_inputs.
Qed.

Lemma answerRequest_ok w s r now : work_ok w → work_ok (answerRequest w s r now).
Proof. intros Hw. unfold answerRequest. case_match; [done|by apply turnStart_ok]. Qed.

Lemma reply_opens_runs w s opts line : inputs_ok w → reply_opens w s opts line = true → s ∈ w.(runningSessions).
Proof.
  intros [_ _ _ Hin _ _] Ho. unfold reply_opens in Ho. apply andb_true_iff in Ho as [Ho _].
  apply andb_true_iff in Ho as [_ Ho]. rewrite orb_true_iff, !bool_decide_eq_true in Ho. set_solver.
Qed.

Lemma userReply_ok w s opts now : work_ok w → work_ok (userReply w s opts now).
Proof.
  intros [Hi Hd]. unfold userReply. case_match; [by split|]. apply rebuild_ok.
  pose proof (reply_opens_runs w s opts (composed_line w s opts) Hi) as Hr.
  destruct (reply_opens _ _ _ _); [specialize (Hr eq_refl)|clear Hr];
    destruct Hi; split; simpl; try done; try (by apply clearRequests_nonempty); repeat case_match; set_solver.
Qed.

Lemma withTurnEnded_ok i s : inputs_ok i → inputs_ok (withTurnEnded i s).
Proof. intros Hi. unfold withTurnEnded, withoutTurn. solve_inputs. Qed.

Lemma closeTurn_ok w s : work_ok w → work_ok (closeTurn w s).
Proof.
  intros Hw. unfold closeTurn. apply unless_same_ok; [done|]. destruct Hw as [Hi%(withTurnEnded_ok _ s) _].
  pose proof (dom_clearNotifications w.(notifications) s). solve_inputs.
Qed.

Lemma closeInterruptedTurn_ok w s : work_ok w → work_ok (closeInterruptedTurn w s).
Proof.
  intros Hw%(closeTurn_ok _ s). unfold closeInterruptedTurn. case_decide; [done|]. apply rebuild_ok.
  destruct Hw as [Hi _]. solve_inputs.
Qed.

Lemma hookTurnEnd_ok w s : work_ok w → work_ok (hookTurnEnd w s).
Proof. intros Hw. apply unless_same_ok; [done|]. apply withTurnEnded_ok, Hw. Qed.

Lemma noteHookChannelLost_ok w s : work_ok w → work_ok (noteHookChannelLost w s).
Proof.
  intros [Hi Hd]. unfold noteHookChannelLost. case_decide; [by split|]. apply rebuild_ok.
  unfold withoutTurn. case_bool_decide; solve_inputs.
Qed.

Lemma noteHookChannelRestored_ok w s : work_ok w → work_ok (noteHookChannelRestored w s).
Proof.
  intros [Hi Hd]. unfold noteHookChannelRestored. case_decide; [|by split]. apply rebuild_ok. solve_inputs.
Qed.

Lemma sessionFocus_ok w s c : work_ok w → work_ok (sessionFocus w s c).
Proof. intros [Hi Hd]. unfold sessionFocus. case_match; [by split|]. apply rebuild_ok. solve_inputs. Qed.

Lemma clientFocusState_ok w p c : work_ok w → work_ok (clientFocusState w p c).
Proof. intros [Hi Hd]. unfold clientFocusState. case_match; [by split|]. apply rebuild_ok. solve_inputs. Qed.

Lemma clientGone_ok w c : work_ok w → work_ok (clientGone w c).
Proof. intros Hw. apply unless_same_ok; [done|]. destruct Hw as [Hi _]. solve_inputs. Qed.

Lemma openRequest_ok w s r : work_ok w → work_ok (openRequest w s r).
Proof.
  intros [Hi Hd]. unfold openRequest. case_decide; [by split|]. apply rebuild_ok. destruct Hi. split; simpl; try done.
  apply map_Forall_insert_2; [set_solver|done].
Qed.

Lemma closeRequest_ok w s r : work_ok w → work_ok (closeRequest w s r).
Proof. intros Hw. apply unless_same_ok; [done|]. destruct Hw as [Hi _]. solve_inputs. Qed.

Lemma notification_key_runs i raw : notification_key i raw ∈ i.(runningSessions) ∪ {[UNATTRIBUTED_TURN]}.
Proof. unfold notification_key. case_decide; set_solver. Qed.

Lemma foldNotification_ok w s n : work_ok w → work_ok (foldNotification w s n).
Proof.
  intros Hw. unfold foldNotification.
  set (ended := if endsTurn n then _ else _).
  assert (inputs_ok ended) as Hi by (unfold ended; destruct (endsTurn n); [apply withTurnEnded_ok|]; apply Hw).
  assert (ended.(runningSessions) = w.(runningSessions)) as Hr by (unfold ended; by destruct (endsTurn n)).
  clearbody ended. destruct (_ || _); [by apply unless_same_ok|]. apply rebuild_ok.
  pose proof (notification_key_runs w (default UNATTRIBUTED_TURN s)). destruct Hw as [[] _]. solve_inputs.
Qed.

Lemma build_from_ok w i decayed : work_ok w → (inputs_ok w → inputs_ok i) → work_ok (build i (Some w) decayed).
Proof. intros [Hi _] H. apply build_ok. auto. Qed.

Lemma expireTurns_ok w now idle : work_ok w → work_ok (expireTurns w now idle).
Proof.
  intros Hw. unfold expireTurns. case_decide; [done|]. apply build_from_ok; [done|]. intros Hi. solve_inputs.
Qed.

Lemma retractProvisionalTurn_ok w s t : work_ok w → work_ok (retractProvisionalTurn w s t).
Proof.
  intros Hw. unfold retractProvisionalTurn, withoutTurn. case_decide; [|done].
  apply build_from_ok; [done|]. intros Hi. solve_inputs.
Qed.

(** ** The session list *)

Section agents.
Context (agentSpec : string → option AgentSpec).

Lemma live_key_runs live s : live_key live s = true → s ∈ live ∪ {[UNATTRIBUTED_TURN]}.
Proof. unfold live_key. case_decide; [set_solver|]. rewrite bool_decide_eq_true. set_solver. Qed.

Lemma live_key_idle s : live_key ∅ s = false.
Proof. unfold live_key. case_decide; [done|]. apply bool_decide_eq_false. set_solver. Qed.

Lemma sessions_needing_runs need i dead entries s :
  s ∈ sessions_needing need i dead entries → (s ∉ dead) ∧ s ∈ (list_to_set (entry_id <$> entries) : gset string).
Proof.
  unfold sessions_needing. rewrite !elem_of_list_to_set, !list_elem_of_fmap.
  intros (e & -> & [(_ & Hd & _) He]%list_elem_of_filter). eauto.
Qed.

Lemma dom_folded_notifications i live : dom (folded_notifications i live) ⊆ live ∪ {[UNATTRIBUTED_TURN]}.
Proof.
  assert (dom (keep_keys (live_key live) i.(notifications)) ⊆ live ∪ {[UNATTRIBUTED_TURN]}) as Hk
    by (intros s Hs; by apply elem_dom_keep_keys, live_key_runs in Hs).
  unfold folded_notifications. repeat case_match; set_solver.
Qed.

Lemma folded_inputs_ok w entries : inputs_ok w → inputs_ok (folded_inputs agentSpec w entries).
Proof.
  intros [_ _ _ _ _ Hreq]. unfold folded_inputs. set (live := live_ids entries).
  assert (∀ need, sessions_needing need w (deadHookSessions w ∩ live) (live_entries entries) ⊆ live) as Hn1
    by (intros need s Hs; exact (proj2 (sessions_needing_runs _ _ _ _ _ Hs))).
  assert (∀ need, (deadHookSessions w ∩ live) ## sessions_needing need w (deadHookSessions w ∩ live) (live_entries entries)) as Hn2
    by (intros need s Hd Hs; by apply sessions_needing_runs in Hs as [Hs _]).
  split; simpl.
  - intros s [[Hs _]%elem_of_filter|Hs]%elem_of_union; [by apply live_key_runs|set_solver].
  - intros ->. apply set_eq. intros s. split; [|set_solver].
    rewrite elem_of_union, elem_of_filter, live_key_idle. set_solver.
  - apply dom_folded_notifications.
  - apply union_subseteq. split; apply Hn1.
  - apply disjoint_union_r. split; apply Hn2.
  - intros s open [Ho _]%map_lookup_filter_Some. by apply (Hreq s).
Qed.

Lemma foldSessions_ok w entries : work_ok w → work_ok (foldSessions agentSpec w entries).
Proof.
  intros Hw. unfold foldSessions. case_match; [done|]. apply rebuild_ok. by apply folded_inputs_ok, Hw.
Qed.

Lemma reduceWorkStatus_ok w msg : work_ok w → work_ok (reduceWorkStatus agentSpec w msg).
Proof.
  intros Hw. pose proof (proj1 Hw) as Hi. destruct msg; cbn [reduceWorkStatus];
    eauto using turnStart_ok, closeTurn_ok, openRequest_ok, closeRequest_ok, foldNotification_ok, foldSessions_ok.
  - case_decide; [done|]. apply rebuild_ok. solve_inputs.
  - case_match; [done|]. apply rebuild_ok. solve_inputs.
Qed.

Lemma work_event_ok w e : work_ok w → work_ok (work_event agentSpec w e).
Proof.
  intros Hw. destruct e; cbn [work_event];
    eauto using reduceWorkStatus_ok, turnStart_ok, turnActivity_ok, userReply_ok, retractProvisionalTurn_ok, answerRequest_ok,
      sessionFocus_ok, clientFocusState_ok, clientGone_ok, hookTurnEnd_ok, noteHookChannelLost_ok, noteHookChannelRestored_ok,
      expireTurns_ok.
  case_match; [by apply closeInterruptedTurn_ok|done].
Qed.

Lemma work_ok_reach w : WorkReach agentSpec w → work_ok w.
Proof. induction 1; [by apply build_ok; split|by apply work_event_ok]. Qed.

(** ** What the dots say *)

(** A human is asked something: an open request, or the session's own
    notification, or the one nobody owns. *)
Definition waits_on_human (w : WorkInputs) (s : string) : Prop :=
  requests_open w.(pendingRequests) s = true ∨
  own_or_fallback w s ∈ [Some permission_request; Some awaiting_input; Some question].

(** A turn is open and nothing on record outranks it. *)
Definition at_work (w : WorkInputs) (s : string) : Prop :=
  requests_open w.(pendingRequests) s = false ∧ own_or_fallback w s = None ∧ turnOpenFor w.(activeTurns) s = true.

Lemma shown_iff marked s st st' : st' ≠ unread → st' ≠ done → shown marked s st = st' ↔ st = st'.
Proof. unfold shown. intros H1 H2. case_decide as H; [|done]. destruct H as [-> _]. split; congruence. Qed.

Lemma statusFor_attention w s : statusFor s w = attention ↔ waits_on_human w s.
Proof.
  unfold statusFor, waits_on_human. rewrite !elem_of_cons, elem_of_nil.
  destruct (requests_open _ _); [naive_solver|]. destruct (own_or_fallback w s) as [[]|]; repeat case_match; naive_solver.
Qed.

Lemma statusFor_working w s : statusFor s w = working ↔ at_work w s.
Proof.
  unfold statusFor, at_work. destruct (requests_open _ _); [naive_solver|].
  destruct (own_or_fallback w s) as [[]|]; repeat case_match; naive_solver.
Qed.

Lemma at_work_held w s : at_work w s → busDeliverable w s = false.
Proof. intros (_ & _ & Ht). unfold busDeliverable. by rewrite Ht. Qed.

(** C38: the dots of every state a project reaches.  The running sessions and no
    others have one; it says attention exactly while something waits on a
    human, working exactly while a turn is open with nothing on record against
    it, and such a session takes no bus line; an unread one is on no client's
    screen; and the project's own status is the loudest of them. *)
Theorem dots_tell_the_truth w :
  WorkReach agentSpec w →
  dom w.(sessionStatuses) = w.(runningSessions) ∧ w.(runningCount) = size w.(runningSessions) ∧
  (∀ s st, w.(sessionStatuses) !! s = Some st →
     (st = attention ↔ waits_on_human w s) ∧
     (st = working ↔ at_work w s) ∧ (st = working → busDeliverable w s = false) ∧
     (st = unread → ∀ client, w.(focusedSessions) !! client ≠ Some s) ∧
     (RANK st <= RANK w.(status))%nat) ∧
  (w.(status) = done ∨ ∃ s, w.(sessionStatuses) !! s = Some w.(status)).
Proof.
  intros [Hi Hd]%work_ok_reach. destruct Hd as [Hdots Hun Hc Hl Ha]. split_and!; [|done| |done].
  - apply set_eq. intros s. rewrite elem_of_dom, Hdots. case_decide; split; by try intros [? [=]].
  - intros s st Hs. rewrite Hdots in Hs. case_decide as Hr; [|done]. injection Hs as Hs.
    assert (st = attention ↔ statusFor s w = attention) as -> by (rewrite <-Hs; by apply shown_iff).
    assert (st = working ↔ statusFor s w = working) as Hw by (rewrite <-Hs; by apply shown_iff).
    split_and!; [apply statusFor_attention|by rewrite Hw, statusFor_working| | |].
    + intros Hst%Hw%statusFor_working. by apply at_work_held.
    + intros -> client Hf. unfold shown in Hs. case_decide as Hm.
      * destruct Hm as [_ Hm]. apply Hun in Hm as (_ & _ & Hm). apply Hm, elem_of_map_img. by exists client.
      * revert Hs. unfold statusFor. repeat case_match; done.
    + apply (Hl s). rewrite Hdots. rewrite decide_True by done. by rewrite Hs.
Qed.

(** ** Unread marks and decays *)

Implicit Types w : WorkStatusState.

Lemma unread_build i p decayed s :
  s ∈ (build i (Some p) decayed).(unreadSessions) →
  s ∈ i.(unreadSessions) ∨
  (i.(readTracking) = true ∧ was_live p s = true ∧ (s ∉ decayed) ∧ s ∉ (map_img i.(focusedSessions) : gset string)).
Proof.
  intros (Hf & _ & [Hu|(p' & [= <-] & Hr & Hd & _ & Hl)])%elem_of_deriveUnread; [by left|right]. by split_and!.
Qed.

(** What a session already showed is not news. *)
Lemma quiet_build i p decayed s :
  derived_ok p → i.(runningSessions) = p.(runningSessions) → i.(unreadSessions) = p.(unreadSessions) →
  (s ∈ p.(runningSessions) → s ∉ decayed → statusFor s i = statusFor s p) →
  s ∈ (build i (Some p) decayed).(unreadSessions) → s ∈ p.(unreadSessions).
Proof.
  intros Hp Hr Hu Hst (Hf & Hraw & [Hm|(p' & [= <-] & _ & Hd & _ & Hl)])%elem_of_deriveUnread; [by rewrite <-Hu|].
  rewrite lookup_tabulate in Hraw. case_decide as Hrun; [|done]. injection Hraw as Hraw. rewrite Hr in Hrun. rewrite Hst in Hraw by done.
  unfold was_live in Hl. rewrite (ok_dots p Hp), decide_True in Hl by done.
  unfold shown in Hl. rewrite Hraw in Hl. case_decide; by rewrite ?andb_false_r in Hl.
Qed.

(** A mark that is new: its session was showing something else than an idle
    dot, a client has declared itself, and none is looking at the session. *)
Definition unseen_end (w w' : WorkStatusState) (s : string) : Prop :=
  was_live w s = true ∧ w'.(readTracking) = true ∧ s ∉ (map_img w'.(focusedSessions) : gset string).

(** The marks of [w'] are those of [w] and the ends nobody saw. *)
Definition marks_earned (w w' : WorkStatusState) : Prop :=
  ∀ s, s ∈ w'.(unreadSessions) → s ∈ w.(unreadSessions) ∨ unseen_end w w' s.

Lemma marks_rebuild w i : i.(unreadSessions) ⊆ w.(unreadSessions) → marks_earned w (rebuild w i).
Proof.
  intros Hi s Hs. destruct (unread_build i w ∅ s Hs) as [H|(H1 & H2 & _ & H3)]; [left; by apply Hi|right].
  exact (conj H2 (conj H1 H3)).
Qed.

Lemma marks_unless_same w i : i.(unreadSessions) = w.(unreadSessions) → marks_earned w (unless_same w i).
Proof. intros Hu. unfold unless_same. case_decide; [by left|]. apply marks_rebuild. by rewrite Hu. Qed.

Lemma marks_refl w : marks_earned w w.
Proof. by left. Qed.

Lemma marks_turn_start_running w s a now : marks_earned w (turn_start_running w s a now).
Proof. unfold turn_start_running. case_decide; [apply marks_refl|by apply marks_unless_same]. Qed.

Lemma marks_turnStart w s a now : marks_earned w (turnStart w s a now).
Proof.
  unfold turnStart. repeat case_match; try apply marks_turn_start_running. by apply marks_unless_same.
Qed.

Lemma marks_turnActivity w s now : marks_earned w (turnActivity w s now).
Proof.
  unfold turnActivity, turn_activity_running. repeat case_match; try apply marks_refl; by apply marks_unless_same.
Qed.

Lemma marks_reduce w msg : marks_earned w (reduceWorkStatus agentSpec w msg).
Proof.
  destruct msg; cbn [reduceWorkStatus].
  - apply marks_turnStart.
  - by apply marks_unless_same.
  - unfold openRequest. case_decide; [apply marks_refl|by apply marks_rebuild].
  - unfold openRequest. case_decide; [apply marks_refl|by apply marks_rebuild].
  - by apply marks_unless_same.
  - unfold foldNotification. destruct (_ || _); [apply marks_unless_same|apply marks_rebuild]; by destruct (endsTurn _).
  - unfold foldSessions. case_match; [apply marks_refl|by apply marks_rebuild].
  - case_decide; [apply marks_refl|by apply marks_rebuild].
  - case_match; [apply marks_refl|by apply marks_rebuild].
  - apply marks_refl.
Qed.

(** The second [build] of an interrupt finds nothing new. *)
Lemma marks_closeInterruptedTurn w s : derived_ok (closeTurn w s) → marks_earned w (closeInterruptedTurn w s).
Proof.
  intros Hd. assert (marks_earned w (closeTurn w s)) as Hm by (by apply marks_unless_same).
  unfold closeInterruptedTurn. case_decide; [done|]. intros s' Hs'. apply Hm. revert Hs'.
  by apply (quiet_build (closeTurn w s).(inputs) {{ interruptedTurns := (closeTurn w s).(interruptedTurns) ∪ {[s]} }} _ ∅).
Qed.

(** ** Turns nobody closed *)

(** An open turn the clock speaks of: its agent repairs a false close, nothing
    waits on a human, and its last reading is too old. *)
Definition stale_turn (w : WorkInputs) (now maxIdleMs : Z) (s : string) : Prop :=
  (s ∉ w.(keystrokeTurnSessions)) ∧ requests_open w.(pendingRequests) s = false ∧
  (∀ n, own_or_fallback w s = Some n → isCallToAction n = false) ∧
  ∃ t, w.(lastActivityAt) !! s = Some t ∧ (maxIdleMs < now - t)%Z.

Lemma turn_expired_stale w now idle s : turn_expired w now idle s = true ↔ stale_turn w now idle s.
Proof.
  unfold turn_expired, stale_turn. case_bool_decide as Hk; [split; [done|]; by intros (? & _)|].
  destruct (requests_open _ _); [split; [done|]; by intros (_ & ? & _)|].
  destruct (own_or_fallback w s) as [n|].
  - destruct (isCallToAction n) eqn:Hn; [split; [done|]; intros (_ & _ & Hc & _); by rewrite (Hc n) in Hn|].
    destruct (lastActivityAt w !! s) as [t|]; [rewrite Z.ltb_lt|]; naive_solver.
  - destruct (lastActivityAt w !! s) as [t|]; [rewrite Z.ltb_lt|]; naive_solver.
Qed.

Lemma elem_of_expired w now idle s :
  s ∈ expired_turns w now idle ↔ s ∈ w.(activeTurns) ∧ stale_turn w now idle s.
Proof. unfold expired_turns. rewrite elem_of_filter, turn_expired_stale. tauto. Qed.

Lemma active_expireTurns w now idle s :
  s ∈ (expireTurns w now idle).(activeTurns) ↔ s ∈ w.(activeTurns) ∧ ¬ stale_turn w now idle s.
Proof.
  unfold expireTurns. case_decide as He.
  - split; [|tauto]. intros Ha. split; [done|]. intros Hs.
    assert (s ∈ expired_turns w now idle) as Hin by (by apply elem_of_expired). rewrite He in Hin. set_solver.
  - simpl. rewrite elem_of_difference, elem_of_expired. tauto.
Qed.

Lemma turnOpenFor_difference (ts gone : gset string) s :
  s ∉ gone → (UNATTRIBUTED_TURN ∉ gone) → turnOpenFor (ts ∖ gone) s = turnOpenFor ts s.
Proof.
  intros Hs Ha. unfold turnOpenFor. f_equal; apply bool_decide_ext; rewrite elem_of_difference; tauto.
Qed.

(** A close that nobody reported marks no session. *)
Lemma marks_decay w i gone decayed :
  derived_ok w → i.(runningSessions) = w.(runningSessions) → i.(unreadSessions) = w.(unreadSessions) →
  i.(pendingRequests) = w.(pendingRequests) → i.(notifications) = w.(notifications) →
  i.(handlerArmedSessions) = w.(handlerArmedSessions) → i.(activeTurns) = w.(activeTurns) ∖ gone →
  gone ⊆ decayed → (UNATTRIBUTED_TURN ∈ gone → w.(runningSessions) ⊆ decayed) →
  (build i (Some w) decayed).(unreadSessions) ⊆ w.(unreadSessions).
Proof.
  intros Hd Hr Hu Hp Hn Hh Ha Hg Hall s. apply quiet_build; [done..|]. intros Hrun Hs.
  unfold statusFor, own_or_fallback, parkedByHandler. rewrite Hp, Hn, Hh, Ha.
  rewrite turnOpenFor_difference; [done|set_solver|]. intros H. by apply Hs, Hall.
Qed.

Lemma marks_expireTurns w now idle : derived_ok w → (expireTurns w now idle).(unreadSessions) ⊆ w.(unreadSessions).
Proof.
  intros Hd. unfold expireTurns. case_decide; [done|].
  apply (marks_decay w _ (expired_turns w now idle)); [done..| |]; case_decide; set_solver.
Qed.

Lemma marks_retract w s t :
  derived_ok w → s ≠ UNATTRIBUTED_TURN → (retractProvisionalTurn w s t).(unreadSessions) ⊆ w.(unreadSessions).
Proof.
  intros Hd Hs. unfold retractProvisionalTurn. case_decide; [|done].
  apply (marks_decay w _ {[s]}); [done..|]. set_solver.
Qed.

(** The turn nobody closed.  The check closes exactly the open turns whose
    last reading is older than the limit, of agents that would reopen a turn
    closed by mistake, with nothing on record waiting on a human; it clears no
    request and no notification, marks no session unread, and leaves a session
    it closed ready for the bus line that waited for it. *)
Theorem abandoned_turns_close w now maxIdleMs :
  WorkReach agentSpec w →
  let w' := expireTurns w now maxIdleMs in
  (∀ s, s ∈ w'.(activeTurns) ↔ s ∈ w.(activeTurns) ∧ ¬ stale_turn w now maxIdleMs s) ∧
  w'.(pendingRequests) = w.(pendingRequests) ∧ w'.(notifications) = w.(notifications) ∧
  w'.(unreadSessions) ⊆ w.(unreadSessions) ∧
  (∀ s, s ∈ w.(activeTurns) → stale_turn w now maxIdleMs s → ¬ anonymous_turn w' → busDeliverable w' s = true).
Proof.
  intros [_ Hd]%work_ok_reach w'.
  assert (w'.(pendingRequests) = w.(pendingRequests) ∧ w'.(notifications) = w.(notifications)) as [Hp Hn]
    by (unfold w', expireTurns; by case_decide).
  split_and!; [apply active_expireTurns|done|done|by apply marks_expireTurns|].
  intros s Hs Hst Ha. apply busDeliverable_true. rewrite Hp, Hn. unfold w' at 1. rewrite active_expireTurns.
  split_and!; [tauto|done|apply Hst|]. intros n Hown Hc. destruct Hst as (_ & _ & Hcalm & _).
  rewrite (Hcalm n) in Hc; [done|]. unfold own_or_fallback. by rewrite Hown.
Qed.

(** The events that close a turn on a guess. *)
Definition closes_on_a_guess (e : WorkEvent) : bool :=
  match e with
  | EvExpireInterval _ => true
  | EvProvisionalTimer s _ => negb (bool_decide (s = UNATTRIBUTED_TURN))
  | _ => false
  end.

Lemma marks_guess w e :
  derived_ok w → closes_on_a_guess e = true → (work_event agentSpec w e).(unreadSessions) ⊆ w.(unreadSessions).
Proof.
  intros Hd. destruct e; cbn [closes_on_a_guess work_event]; try done; [|intros _; by apply marks_expireTurns].
  rewrite negb_true_iff, bool_decide_eq_false. intros Hs. by apply marks_retract.
Qed.

Lemma marks_event w e : work_ok w → marks_earned w (work_event agentSpec w e).
Proof.
  intros Hw. destruct e; cbn [work_event].
  - apply marks_reduce.
  - apply marks_turnStart.
  - apply marks_turnActivity.
  - unfold userReply. case_match; [apply marks_refl|by apply marks_rebuild].
  - unfold retractProvisionalTurn. case_decide; [|apply marks_refl].
    intros s' [Hs|(? & ? & _ & ?)]%unread_build; [by left|right; by split_and!].
  - unfold answerRequest. case_match; [apply marks_refl|apply marks_turnStart].
  - unfold sessionFocus. case_match; [apply marks_refl|]. apply marks_rebuild. simpl. set_solver.
  - unfold clientFocusState. case_match; [apply marks_refl|by apply marks_rebuild].
  - by apply marks_unless_same.
  - case_match; [|apply marks_refl]. apply marks_closeInterruptedTurn. by apply closeTurn_ok.
  - by apply marks_unless_same.
  - unfold noteHookChannelLost. case_decide; [apply marks_refl|by apply marks_rebuild].
  - unfold noteHookChannelRestored. case_decide; [by apply marks_rebuild|apply marks_refl].
  - intros s Hs. left. exact (marks_expireTurns w now _ (proj2 Hw) s Hs).
Qed.

(** A session is marked unread only for an end nobody saw.  When an event
    of a reachable state puts a new mark on a session, the session was showing
    work, a question or an error, some client has declared what it looks at, no
    client is on that session, and the event is no guess of the bridge's own:
    neither the check for abandoned turns nor the timer of a provisional one. *)
Theorem unread_is_earned w e s :
  WorkReach agentSpec w → s ∈ (work_event agentSpec w e).(unreadSessions) →
  s ∈ w.(unreadSessions) ∨ (unseen_end w (work_event agentSpec w e) s ∧ closes_on_a_guess e = false).
Proof.
  intros Hw%work_ok_reach Hs. destruct (closes_on_a_guess e) eqn:He.
  - left. by apply (marks_guess w e (proj2 Hw) He).
  - destruct (marks_event w e Hw s Hs); [by left|right; by split].
Qed.

(** A channel written off infers no start: no keystroke opens a turn. *)
Lemma dead_channel_infers_nothing w s opts now :
  work_ok w → s ∈ w.(deadHookSessions) → (userReply w s opts now).(activeTurns) = w.(activeTurns).
Proof.
  intros [Hi _] Hs. unfold userReply. case_match; [done|]. simpl.
  destruct (reply_opens _ _ _ _) eqn:Ho; [|done]. exfalso. unfold reply_opens in Ho.
  apply andb_true_iff in Ho as [[_ Ho]%andb_true_iff _]. rewrite orb_true_iff, !bool_decide_eq_true in Ho.
  pose proof (ok_dead _ Hi). set_solver.
Qed.

(** A start that beat its session's list is held, and promoted with its clock
    reading by the list that shows the session, or dropped by the next one. *)
Lemma held_start_promoted w s t entries :
  s ∉ w.(runningSessions) →
  let w' := foldSessions agentSpec (turnStart w (Some s) None (Some t)) entries in
  w'.(pendingTurns) = ∅ ∧
  (s ∈ live_ids entries → s ∈ w'.(activeTurns) ∧ w'.(lastActivityAt) !! s = Some t).
Proof.
  intros Hs w'. set (w1 := turnStart w (Some s) None (Some t)).
  assert (s ∈ w1.(pendingTurns) ∧ w1.(pendingActivityAt) !! s = Some t) as [Hp Ht].
  { unfold w1, turnStart. rewrite decide_False by done. unfold unless_same. case_decide as He.
    - rewrite <-He. simpl. split; [set_solver|apply lookup_insert_eq].
    - simpl. split; [set_solver|apply lookup_insert_eq]. }
  assert (size w1.(pendingTurns) ≠ 0%nat) as Hsz by (intros H%size_empty_inv; set_solver).
  unfold w', foldSessions. fold w1. unfold fold_unchanged.
  rewrite (proj2 (Nat.eqb_neq _ _) Hsz), !andb_false_r. simpl. split; [done|]. intros Hl. split; [set_solver|].
  apply lookup_union_Some_l. unfold promoted_activity. by apply map_lookup_filter_Some.
Qed.

Lemma reach_run evs : WorkReach agentSpec (run_work agentSpec evs).
Proof.
  unfold run_work. induction evs as [|e evs IH] using rev_ind; [constructor|].
  rewrite foldl_app. simpl. by constructor.
Qed.
End agents.

(** ** Concrete runs *)

Definition no_agents : string → option AgentSpec := λ _, None.

Definition list_of (s : string) : WorkEvent :=
  EvFrame (session_updated [{| entry_id := s; running := true; archived := false; mode := Some "chat"; tool := None |}]).

(** A session works, a phone declares itself on no session, the turn ends. *)
Definition unseen_run : list WorkEvent :=
  [list_of "s"; EvClientFocusState false "phone"; EvTurnStart (Some "s") 1000].

Lemma dots_tell_the_truth_witness :
  let w := run_work no_agents unseen_run in
  w.(sessionStatuses) !! "s" = Some working ∧ dom w.(sessionStatuses) = w.(runningSessions).
Proof.
  intros w. split; [vm_compute; reflexivity|]. apply (dots_tell_the_truth no_agents w (reach_run no_agents unseen_run)).
Defined.

Lemma abandoned_turns_close_witness :
  let w := run_work no_agents unseen_run in
  let w' := expireTurns w (1001 + DEFAULT_TURN_IDLE_MS) DEFAULT_TURN_IDLE_MS in
  w.(sessionStatuses) !! "s" = Some working ∧ w'.(sessionStatuses) !! "s" = Some done ∧
  w'.(unreadSessions) ⊆ w.(unreadSessions).
Proof.
  intros w w'. split; [vm_compute; reflexivity|]. split; [vm_compute; reflexivity|].
  apply (abandoned_turns_close no_agents w _ _ (reach_run no_agents unseen_run)).
Defined.

Lemma unread_is_earned_witness :
  let w := run_work no_agents unseen_run in
  "s" ∈ w.(unreadSessions) ∨
  (unseen_end w (work_event no_agents w (EvFrame (agent_turn_end "s"))) "s" ∧
   closes_on_a_guess (EvFrame (agent_turn_end "s")) = false).
Proof.
  intros w. apply (unread_is_earned no_agents w _ "s" (reach_run no_agents unseen_run)).
  vm_compute. reflexivity.
Defined.

(** The reading of a held start outlives the hold when its turn ends first. *)
Example held_reading_outlives_turn :
  let w := run_work no_agents [EvTurnStart (Some "s") 5; EvFrame (agent_turn_end "s")] in
  w.(pendingTurns) = ∅ ∧ w.(pendingActivityAt) !! "s" = Some 5%Z.
Proof. by vm_compute. Qed.
