(* ===== verification/WorkDelivery.v ===== *)
(** * WorkDelivery: the status reduction drives the delivery queue

    [commitWork] of src/bridge/src/project-core.ts takes each new state of
    WorkStatus.v and tells the queue of DeliveryQueue.v which turns opened and
    which sessions were released, in that order.  The sets of sessions are
    visited in some [order]; no theorem depends on which. *)

From S2P Require Import Prelude DeliveryQueue WorkStatus.

Local Open Scope Z_scope.

Definition sameStatuses (a b : gmap string WorkStatus) : bool :=
  (size a =? size b)%nat && bool_decide (map_Forall (λ i s, b !! i = Some s) a).

(** What a commit leaves: the state, the queue, and whether the control plane
    was told and the session list stamped again. *)
Record Committed := {
  work : WorkStatusState;
  deliveries : Queue;
  advertised : bool;
  refreshed : bool }.

Section commit.
Context (time : nat → Z) (canDeliver : nat → string → bool).
Context (inject : nat → QueuedLine → list Reentry * option BusInjectOutcome).
Context (saves : nat → bool).
Context (order : gset string → list string).

(** The drain of one released id. *)
Definition serve (q : Queue) (i : string) : Queue :=
  if decide (i = UNATTRIBUTED_TURN) then drainAll time canDeliver inject saves q
  else drain_session time canDeliver inject saves i q.

Definition serve_queue (opened released : gset string) (q : Queue) : Queue :=
  foldl serve (foldl (λ q s, confirm saves s q) q (order opened)) (order released).

Definition commitWork (prev next : WorkStatusState) (q : Queue) : Committed :=
  if decide (next = prev) then {| work := prev; deliveries := q; advertised := false; refreshed := false |}
  else
    let perSessionChanged := negb (sameStatuses next.(sessionStatuses) prev.(sessionStatuses)) in
    {| work := next;
       deliveries := serve_queue (openedTurns prev next) (becameDeliverable prev next) q;
       advertised := negb (bool_decide (next.(status) = prev.(status)))
                     || negb (next.(runningCount) =? prev.(runningCount))%nat || perSessionChanged;
       refreshed := perSessionChanged |}.
End commit.

(** ** A line waits for its own session *)

Section waiting.
Context (time : nat → Z) (canDeliver : nat → string → bool).
Context (inject : nat → QueuedLine → list Reentry * option BusInjectOutcome).
Context (saves : nat → bool).
Context (Hclock : ∀ i j, (i <= j)%nat → time i <= time j) (Hsaves : ∀ n, saves n = true).

Abbreviation Inv := (Inv time canDeliver inject).
Abbreviation settled := (settled time canDeliver inject).
Abbreviation drain := (DeliveryQueue.drain time canDeliver inject saves).
Abbreviation confirm := (DeliveryQueue.confirm saves).

Definition waits (s : string) (l : QueuedLine) (q : Queue) : Prop := head (linesFor q.(lines) s) = Some l.

Lemma waits_leave d i s l q :
  waits s l q → (∀ x, x ∈ q.(lines) → x.(id) = i → x.(sessionId) ≠ s) → waits s l (leave saves d i q).
Proof.
  unfold waits, leave, commit, saveDeliveries. rewrite Hsaves. simpl. intros Hw Hx.
  enough (linesFor (removeLine q.(lines) i) s = linesFor q.(lines) s) as -> by done.
  unfold linesFor, removeLine. rewrite list_filter_filter. apply filter_ext_in. intros x Hin. naive_solver.
Qed.

(** Another session's line goes. *)
Lemma waits_leave_other d s s' l line q :
  Inv q → waits s l q → s' ≠ s → line.(sessionId) = s' →
  (∀ x, x ∈ q.(lines) → x.(id) = line.(id) → x = line) → waits s l (leave saves d line.(id) q).
Proof. intros Hq Hw Hne Hs Hone. apply waits_leave; [done|]. intros x Hx Hi. rewrite (Hone x Hx Hi). congruence. Qed.

Lemma head_is_alone q s line x :
  Inv q → head (linesFor q.(lines) s) = Some line → x ∈ q.(lines) → x.(id) = line.(id) → x = line.
Proof.
  intros Hq [Hin _]%head_linesFor Hx Hi. apply (same_id q.(lines)); [apply Hq|done..].
Qed.

Lemma waits_confirm s s' l q : Inv q → waits s l q → s' ≠ s → waits s l (confirm s' q).
Proof.
  intros Hq Hw Hne. unfold DeliveryQueue.confirm, head_for.
  destruct (head (linesFor q.(lines) s')) as [line|] eqn:Hh; [|done]. destruct (sentAt line); [|done].
  apply (waits_leave_other _ _ s'); [done..|by apply head_linesFor in Hh as [_ ?]|].
  intros x. by apply head_is_alone with s'.
Qed.

(** A line without a stamp is nobody's to confirm. *)
Lemma waits_confirm_unstamped s s' l q :
  Inv q → waits s l q → l.(sentAt) = None → waits s l (confirm s' q).
Proof.
  intros Hq Hw Hl. destruct (decide (s' = s)) as [->|]; [|by apply waits_confirm].
  unfold DeliveryQueue.confirm, head_for. unfold waits in Hw. rewrite Hw, Hl. exact Hw.
Qed.

(** What the adapter does while it is handed another session's line. *)
Lemma waits_reentry fuel acts s l q :
  Inv q → q.(draining) = true → waits s l q → l.(sentAt) = None →
  let q' := foldl (λ q act, match act with ReConfirm s' => confirm s' q | ReDrain s' => drain fuel s' q end) q acts in
  waits s l q'.
Proof.
  revert q. induction acts as [|[s'|s'] acts IH]; intros q Hq Hd Hw Hl; simpl; [done| |].
  - destruct (confirm_frame saves Hsaves s' q) as (_ & _ & Hd'). apply IH; [|by rewrite Hd'| |done].
    + by apply inv_confirm.
    + by apply waits_confirm_unstamped.
  - rewrite drain_busy by done. by apply IH.
Qed.

Lemma waits_stamp s l i at_ q :
  waits s l q → l.(id) ≠ i → waits s l (commit saves (stampSubmitted q.(lines) i at_) q).
Proof.
  unfold waits, commit, saveDeliveries. rewrite Hsaves. simpl. intros Hw Hi. rewrite linesFor_stamp.
  destruct (linesFor q.(lines) s) as [|x r]; simplify_eq/=. by rewrite decide_False.
Qed.

Lemma waits_attempt fuel s s' line l q :
  Inv q → head (linesFor q.(lines) s') = Some line → (default 0 line.(attempts)) <= 1 + Z.of_nat q.(restarts) →
  waits s l q → l.(sentAt) = None → s' ≠ s →
  waits s l (attempt time canDeliver inject saves (drain fuel) s' line q).
Proof.
  intros Hq Hhead Hatt Hw Hl Hne. pose proof (head_linesFor _ _ _ Hhead) as [Hin Hsid]. unfold attempt.
  destruct (canDeliver (ticks q) s') eqn:Hc; simpl negb; cbv iota; [|done].
  set (q1 := set_draining true (note_handed (ticks q) line (tick q))).
  assert (Inv q1) as Hq1 by (apply inv_draining, inv_hand; [by apply inv_tick|split; simpl; [by rewrite Hsid|done]]).
  destruct (inject (ticks q1) line) as [acts outcome].
  destruct (inv_reentry time canDeliver inject saves Hclock Hsaves fuel acts (tick q1)) as (Hq2 & _ & Hsub & _); [by apply inv_tick|done|].
  pose proof (waits_reentry fuel acts s l (tick q1) ltac:(by apply inv_tick) eq_refl Hw Hl) as Hw2. cbv zeta in Hw2.
  set (q2 := foldl _ (tick q1) acts) in *. change (lines (tick q1)) with (lines q) in Hsub.
  assert (∀ x, x ∈ q2.(lines) → x.(id) = line.(id) → x = line) as Hone.
  { intros x Hx. apply (head_is_alone q s' line); [done..|]. eapply elem_of_submseteq; [exact Hx|by apply sublist_submseteq]. }
  destruct outcome as [[]|]; [done| | |done].
  - apply (waits_leave_other _ _ s' l line (set_draining false q2)); [by apply inv_draining|done..].
  - apply (waits_stamp s l _ _ (tick (set_draining false q2))); [done|]. intros Hi.
    apply head_linesFor in Hw2 as [Hlin Hls]. apply Hone in Hi; [congruence|done].
Qed.

Lemma waits_drain fuel s s' l q :
  Inv q → q.(draining) = false → waits s l q → l.(sentAt) = None → s' ≠ s → waits s l (drain fuel s' q).
Proof.
  revert q. induction fuel as [|fuel IH]; intros q Hq Hd Hw Hl Hne; [done|]. simpl. rewrite Hd. unfold head_for.
  destruct (head (linesFor (lines q) s')) as [line|] eqn:Hhead; [|done].
  pose proof (head_line_ok _ _ _ _ _ _ Hq Hhead) as Hok. pose proof (head_linesFor _ _ _ Hhead) as [Hin Hsid]. unfold line_ok in Hok.
  destruct (sentAt line) as [t|] eqn:Ht; [|by apply waits_attempt].
  destruct (now time q - t <? CONFIRM_TIMEOUT_MS); [done|].
  destruct (Z.leb_spec MAX_SUBMIT_ATTEMPTS (default 0 line.(attempts))) as [Hmany|Hfew].
  - assert (Inv (leave saves GivenUp line.(id) (tick q))) as HI.
    { apply (inv_leave time canDeliver inject saves Hclock Hsaves); [by apply inv_tick|]. intros x Hx Hi. rewrite (head_is_alone q s' line x) by done.
      split; [simpl; by rewrite Ht|done]. }
    apply IH; [done| |by apply (waits_leave_other _ _ s'); try apply inv_tick; try done; intros; by apply (head_is_alone q s')|done..].
    unfold leave, commit, saveDeliveries. by rewrite Hsaves.
  - apply waits_attempt; [by apply inv_tick|done| |done..]. unfold MAX_SUBMIT_ATTEMPTS in Hfew. simpl. lia.
Qed.

(** ** What was handed over and what left stays so *)

Lemma handed_drain fuel s q h : h ∈ q.(handed) → h ∈ (drain fuel s q).(handed).
Proof.
  revert q. induction fuel as [|fuel IH]; intros q Hh; [done|]. simpl. destruct (draining q); [done|].
  assert (∀ line q', h ∈ q'.(handed) → h ∈ (attempt time canDeliver inject saves (drain fuel) s line q').(handed)) as Hatt.
  { intros line q' Hq'. destruct (attempt_history time canDeliver inject saves Hsaves fuel s line q') as [_ ->].
    case_match; [by right|done]. }
  destruct (head_for q s) as [line|]; [|done]. destruct (sentAt line); [|by apply Hatt].
  repeat case_match; [done| |by apply Hatt]. apply IH.
  destruct (leave_frame saves Hsaves GivenUp (id line) (tick q)) as [_ ->]. done.
Qed.

Lemma ticks_leave d i q : (q.(ticks) <= (leave saves d i q).(ticks))%nat.
Proof. unfold leave, commit, saveDeliveries. rewrite Hsaves. simpl. lia. Qed.

Lemma ticks_confirm s q : (q.(ticks) <= (confirm s q).(ticks))%nat.
Proof. unfold DeliveryQueue.confirm. repeat case_match; try lia. apply ticks_leave. Qed.

Lemma ticks_reentry fuel acts q :
  q.(draining) = true →
  (q.(ticks) <= (foldl (λ q act, match act with ReConfirm s' => confirm s' q | ReDrain s' => drain fuel s' q end) q acts).(ticks))%nat.
Proof.
  revert q. induction acts as [|[s'|s'] acts IH]; intros q Hd; simpl; [done| |].
  - destruct (confirm_frame saves Hsaves s' q) as (_ & _ & Hd').
    specialize (IH (confirm s' q)). pose proof (ticks_confirm s' q). rewrite Hd' in IH. specialize (IH Hd). lia.
  - rewrite drain_busy by done. by apply IH.
Qed.

Lemma ticks_attempt fuel s line q :
  (q.(ticks) <= (attempt time canDeliver inject saves (drain fuel) s line q).(ticks))%nat.
Proof.
  unfold attempt. destruct (negb _); [simpl; lia|]. destruct (inject _ line) as [acts outcome].
  set (q1 := tick (set_draining true _)). pose proof (ticks_reentry fuel acts q1 eq_refl) as Hr.
  assert (q.(ticks) <= q1.(ticks))%nat as H1 by (simpl; lia). set (q2 := foldl _ q1 acts) in *. clearbody q1 q2.
  destruct outcome as [[]|]; simpl; try lia.
  - pose proof (ticks_leave (Submitted (ticks q)) (id line) (set_draining false q2)). simpl in *. lia.
  - unfold commit, saveDeliveries. rewrite Hsaves. simpl. lia.
Qed.

Lemma ticks_drain fuel s q : (q.(ticks) <= (drain fuel s q).(ticks))%nat.
Proof.
  revert q. induction fuel as [|fuel IH]; intros q; [done|]. simpl. destruct (draining q); [done|].
  destruct (head_for q s) as [line|]; [|done]. destruct (sentAt line); [|apply ticks_attempt].
  repeat case_match.
  - simpl. lia.
  - pose proof (ticks_leave GivenUp (id line) (tick q)). specialize (IH (leave saves GivenUp (id line) (tick q))).
    simpl in *. lia.
  - pose proof (ticks_attempt fuel s line (tick q)). simpl in *. lia.
Qed.

Lemma gone_drain fuel s q g : g ∈ q.(gone) → g ∈ (drain fuel s q).(gone).
Proof. intros Hg. pose proof (drain_history time canDeliver inject saves Hsaves fuel s q) as H. by eapply elem_of_sublist. Qed.

(** ** One commit *)

(** The line was handed over since [q0]. *)
Definition handed_since (q0 : Queue) (l : QueuedLine) (q : Queue) : Prop :=
  ∃ k, (q0.(ticks) <= k)%nat ∧ (k, l) ∈ q.(handed).

(** The line of [s] still waits, or it was handed over. *)
Definition served (q0 : Queue) (s : string) (l : QueuedLine) (q : Queue) : Prop :=
  settled q ∧ (q0.(ticks) <= q.(ticks))%nat ∧ (waits s l q ∨ handed_since q0 l q).

Lemma served_confirm q0 s l s' q : l.(sentAt) = None → served q0 s l q → served q0 s l (confirm s' q).
Proof.
  intros Hl ([Hq Hd] & Ht & Hs). destruct (confirm_frame saves Hsaves s' q) as (_ & _ & Hd').
  split_and!; [split; [by apply inv_confirm|by rewrite Hd']|pose proof (ticks_confirm s' q); lia|].
  destruct Hs as [Hw|(k & Hk & Hh)]; [left; by apply waits_confirm_unstamped|right; exists k; split; [done|]].
  destruct (confirm_history saves Hsaves s' q) as [_ ->]. done.
Qed.

Lemma drain_hands_over q s l :
  q.(draining) = false → waits s l q → l.(sentAt) = None → canDeliver q.(ticks) s = true →
  (q.(ticks), l) ∈ (drain_session time canDeliver inject saves s q).(handed).
Proof.
  intros Hd Hw Hl Hc. unfold drain_session. simpl. rewrite Hd. unfold head_for, waits in *. rewrite Hw, Hl.
  destruct (attempt_history time canDeliver inject saves Hsaves (length (lines q)) s l q) as [_ ->]. rewrite Hc. by left.
Qed.

Lemma handed_since_drain q0 l s q :
  handed_since q0 l q → handed_since q0 l (drain_session time canDeliver inject saves s q).
Proof. intros (k & Hk & Hh). exists k. split; [done|]. by apply handed_drain. Qed.

Lemma handed_since_drains q0 l ids q :
  handed_since q0 l q → handed_since q0 l (foldl (λ q i, drain_session time canDeliver inject saves i q) q ids).
Proof. revert q. induction ids as [|i ids IH]; intros q Hq; simpl; [done|]. by apply IH, handed_since_drain. Qed.

Lemma served_drain q0 s l s' q :
  l.(sentAt) = None → (∀ k, (q0.(ticks) <= k)%nat → canDeliver k s = true) → served q0 s l q →
  let q' := drain_session time canDeliver inject saves s' q in
  served q0 s l q' ∧ (s' = s → handed_since q0 l q').
Proof.
  intros Hl Hc (Hset & Ht & Hs) q'.
  assert (settled q') as Hset' by (by apply settled_drain).
  assert (q0.(ticks) <= q'.(ticks))%nat as Ht' by (pose proof (ticks_drain (S (length (lines q))) s' q); unfold q', drain_session; lia).
  destruct Hs as [Hw|Hh]; [|apply (handed_since_drain _ _ s') in Hh; fold q' in Hh; split; [split_and!; auto|done]].
  destruct (decide (s' = s)) as [->|Hne].
  - assert (handed_since q0 l q') as Hh by (exists q.(ticks); split; [done|]; apply drain_hands_over; [apply Hset|auto..]).
    split; [split_and!; auto|done].
  - split; [|by intros]. split_and!; [done..|left]. destruct Hset as [Hq Hd]. by apply waits_drain.
Qed.

(** The drains of a list of sessions, that of [s] among them. *)
Lemma served_drains q0 s l ids q :
  l.(sentAt) = None → (∀ k, (q0.(ticks) <= k)%nat → canDeliver k s = true) → served q0 s l q →
  let q' := foldl (λ q i, drain_session time canDeliver inject saves i q) q ids in
  served q0 s l q' ∧ (s ∈ ids → handed_since q0 l q').
Proof.
  intros Hl Hc. revert q. induction ids as [|i ids IH]; intros q Hq; [split; [done|]; by intros ?%not_elem_of_nil|].
  cbn [foldl]. destruct (served_drain q0 s l i q Hl Hc Hq) as [Hs Hi]. destruct (IH _ Hs) as [Hs' Hin].
  split; [done|]. intros [->|Hids]%elem_of_cons; [|by apply Hin]. by apply handed_since_drains, Hi.
Qed.

Lemma served_serve q0 s l i q :
  l.(sentAt) = None → (∀ k, (q0.(ticks) <= k)%nat → canDeliver k s = true) → served q0 s l q →
  let q' := serve time canDeliver inject saves q i in
  served q0 s l q' ∧ (i = s ∨ i = UNATTRIBUTED_TURN → handed_since q0 l q') ∧ (handed_since q0 l q → handed_since q0 l q').
Proof.
  intros Hl Hc Hq. unfold serve. case_decide as Hi.
  - unfold drainAll. destruct (served_drains q0 s l (remove_dups (sessionId <$> lines q)) q Hl Hc Hq) as [Hs Hin].
    split_and!; [done| |apply handed_since_drains]. intros _. destruct Hq as (_ & _ & [Hw|Hh]); [|by apply handed_since_drains].
    apply Hin, elem_of_remove_dups, list_elem_of_fmap. apply head_linesFor in Hw as [Hw <-]. by exists l.
  - destruct (served_drain q0 s l i q Hl Hc Hq) as [Hs Hin].
    split_and!; [done|intros [->|]; [by apply Hin|done]|apply handed_since_drain].
Qed.

Lemma served_keeps q0 s l ids q :
  l.(sentAt) = None → (∀ k, (q0.(ticks) <= k)%nat → canDeliver k s = true) → served q0 s l q →
  handed_since q0 l q → handed_since q0 l (foldl (serve time canDeliver inject saves) q ids).
Proof.
  intros Hl Hc. revert q. induction ids as [|i ids IH]; intros q Hq Hh; [done|]. cbn [foldl].
  destruct (served_serve q0 s l i q Hl Hc Hq) as (Hs & _ & Hk). by apply IH, Hk.
Qed.

Lemma served_released q0 s l ids q :
  l.(sentAt) = None → (∀ k, (q0.(ticks) <= k)%nat → canDeliver k s = true) → served q0 s l q →
  s ∈ ids ∨ UNATTRIBUTED_TURN ∈ ids → handed_since q0 l (foldl (serve time canDeliver inject saves) q ids).
Proof.
  intros Hl Hc. revert q. induction ids as [|i ids IH]; intros q Hq Hin; [destruct Hin as [Hin|Hin]; by apply not_elem_of_nil in Hin|].
  cbn [foldl]. destruct (served_serve q0 s l i q Hl Hc Hq) as (Hs & Hi & Hk).
  destruct (decide (i = s ∨ i = UNATTRIBUTED_TURN)) as [He|He].
  - by apply (served_keeps q0 s l ids); [..|apply Hi].
  - apply IH; [done|]. rewrite !elem_of_cons in Hin. naive_solver.
Qed.

Lemma served_confirms q0 s l ids q :
  l.(sentAt) = None → served q0 s l q → served q0 s l (foldl (λ q s, confirm s q) q ids).
Proof. intros Hl. revert q. induction ids as [|i ids IH]; intros q Hq; simpl; [done|]. by apply IH, served_confirm. Qed.

(** ** The turn that opened *)

Lemma gone_confirms ids q g : g ∈ q.(gone) → g ∈ (foldl (λ q s, confirm s q) q ids).(gone).
Proof.
  revert q. induction ids as [|i ids IH]; intros q Hg; simpl; [done|]. apply IH.
  eapply elem_of_sublist; [exact Hg|]. by apply confirm_history.
Qed.

Lemma gone_serves ids q g : g ∈ q.(gone) → g ∈ (foldl (serve time canDeliver inject saves) q ids).(gone).
Proof.
  revert q. induction ids as [|i ids IH]; intros q Hg; simpl; [done|]. apply IH. unfold serve, drainAll, drain_session.
  case_decide; [|by apply gone_drain]. generalize (remove_dups (sessionId <$> lines q)). intros ss. clear IH. revert q Hg.
  induction ss as [|s ss IH]; intros q Hg; simpl; [done|]. by apply IH, (gone_drain (S (length (lines q))) s q).
Qed.

Lemma confirm_retires s l q :
  waits s l q → l.(sentAt) ≠ None → (Confirmed, l) ∈ (confirm s q).(gone).
Proof.
  intros Hw Hl. unfold DeliveryQueue.confirm, head_for. pose proof (head_linesFor _ _ _ Hw) as [Hin _].
  unfold waits in Hw. rewrite Hw. destruct (sentAt l); [|done]. by apply gone_leave.
Qed.

Lemma opened_retires s l ids q :
  Inv q → waits s l q → l.(sentAt) ≠ None → s ∈ ids → (Confirmed, l) ∈ (foldl (λ q s, confirm s q) q ids).(gone).
Proof.
  revert q. induction ids as [|i ids IH]; intros q Hq Hw Hl Hin; [by apply not_elem_of_nil in Hin|]. cbn [foldl].
  destruct (decide (i = s)) as [->|Hne]; [by apply gone_confirms, confirm_retires|].
  apply IH; [by apply inv_confirm|by apply waits_confirm|done|]. apply elem_of_cons in Hin as [->|]; done.
Qed.

(** ** Every commit leaves a queue the queue's own theorems are about *)

Abbreviation QueueReach := (QueueReach time canDeliver inject saves).

Lemma reach_confirms ids q : QueueReach q → QueueReach (foldl (λ q s, confirm s q) q ids).
Proof.
  revert q. induction ids as [|i ids IH]; intros q Hq; simpl; [done|]. apply IH.
  by apply (reach_step time canDeliver inject saves q (EvConfirm i)).
Qed.

Lemma reach_serves ids q : QueueReach q → QueueReach (foldl (serve time canDeliver inject saves) q ids).
Proof.
  revert q. induction ids as [|i ids IH]; intros q Hq; simpl; [done|]. apply IH. unfold serve. case_decide.
  - by apply (reach_step time canDeliver inject saves q EvDrainAll).
  - by apply (reach_step time canDeliver inject saves q (EvDrain i)).
Qed.
End waiting.

(** A held line is handed over on the edge that releases it.  Whatever the
    two states of a commit, with the queue in any reachable state: the line at
    the head of a session that was held and no longer is, is handed to the
    session's adapter within the commit, as long as the session stays at its
    boundary; the submitted line at the head of a session whose turn opened is
    confirmed; and the queue the commit leaves is a reachable one. *)
Theorem held_line_released time canDeliver inject saves order prev next q :
  (∀ i j, (i <= j)%nat → time i <= time j) → (∀ n, saves n = true) → (∀ X i, i ∈ order X ↔ i ∈ X) →
  QueueReach time canDeliver inject saves q →
  let q' := (commitWork time canDeliver inject saves order prev next q).(deliveries) in
  (∀ s l, s ≠ UNATTRIBUTED_TURN → busDeliverable prev s = false → busDeliverable next s = true →
     (∀ k, (q.(ticks) <= k)%nat → canDeliver k s = true) →
     waits s l q → l.(sentAt) = None → handed_since q l q') ∧
  (∀ s l, s ∈ openedTurns prev next → waits s l q → l.(sentAt) ≠ None → (Confirmed, l) ∈ q'.(gone)) ∧
  QueueReach time canDeliver inject saves q'.
Proof.
  intros Hclock Hsaves Horder Hq. pose proof (settled_reachable _ _ _ _ Hclock Hsaves q Hq) as Hset.
  unfold commitWork. case_decide as He; cbn [deliveries].
  { subst next. split_and!; [congruence| |done]. intros s l (_ & H1 & H2)%elem_of_openedTurns. done. }
  unfold serve_queue. split_and!.
  - intros s l Hne Hp Hn Hc Hw Hl. apply (served_released time canDeliver inject saves Hclock Hsaves q s l); [done..| |].
    + apply served_confirms; [done..|]. split_and!; [done|done|by left].
    + rewrite !Horder. by apply release_is_reported.
  - intros s l Ho Hw Hl. apply gone_serves; [done|]. apply (opened_retires time canDeliver inject saves Hclock Hsaves s); [apply Hset|done..|].
    by apply Horder.
  - by apply reach_serves, reach_confirms.
Qed.

(** ** A line held by an open turn *)

Definition demo_line : QueuedLine :=
  {| id := "l"; sessionId := "s"; kind := notify; text := "hi"; queuedAt := 0; sentAt := None; attempts := None |}.
Definition demo_clock (k : nat) : Z := Z.of_nat k.
(** The session is at work until the line has been taken in. *)
Definition demo_boundary (k : nat) (_ : string) : bool := (3 <? k)%nat.
Definition demo_adapter (_ : nat) (_ : QueuedLine) : list Reentry * option BusInjectOutcome := ([], Some awaiting_turn).
Definition demo_saves (_ : nat) : bool := true.

Definition demo_queue : Queue := queue_event demo_clock demo_boundary demo_adapter demo_saves (EvQueue demo_line) no_deliveries.

Definition demo_work (e : list WorkEvent) : WorkStatusState :=
  run_work (λ _, None)
    ([EvFrame (session_updated [{| entry_id := "s"; running := true; archived := false; mode := None; tool := None |}]);
      EvTurnStart (Some "s") 0] ++ e).

Lemma held_line_released_witness :
  let prev := demo_work [] in
  let next := demo_work [EvFrame (agent_turn_end "s")] in
  let q' := (commitWork demo_clock demo_boundary demo_adapter demo_saves elements prev next demo_queue).(deliveries) in
  busDeliverable prev "s" = false ∧ (∃ l, l ∈ demo_queue.(lines) ∧ handed_since demo_queue l q').
Proof.
  intros prev next q'. split; [vm_compute; reflexivity|]. exists demo_line. split; [left|].
  apply (held_line_released demo_clock demo_boundary demo_adapter demo_saves elements prev next demo_queue) with (s := "s").
  - intros i j Hij. unfold demo_clock. lia.
  - done.
  - intros X i. apply elem_of_elements.
  - apply reach_step; [constructor|reflexivity].
  - done.
  - vm_compute; reflexivity.
  - vm_compute; reflexivity.
  - intros k Hk. assert (ticks demo_queue = 4%nat) as Ht by (vm_compute; reflexivity). rewrite Ht in Hk.
    apply Nat.ltb_lt. lia.
  - vm_compute; reflexivity.
  - done.
Defined.
