(* ===== verification/ClientIp.v ===== *)
(** * ClientIp: the client's address behind trusted proxies

    Models [packages/antgrid-wire/src/client-ip.ts].  Addresses are lists of
    bytes, 4 for IPv4 and 16 for IPv6; parsing failures are [None], and so are
    the errors [parseCidr] throws. *)

From S2P Require Import Prelude.
From Stdlib Require Import DecimalString DecimalN.

Local Open Scope Z_scope.

Abbreviation Bytes := (list Z).

Record Cidr := { cbytes : Bytes; prefixBits : Z }.

Definition DOT : Ascii.ascii := Ascii.ascii_of_N 46.
Definition COLON_ : Ascii.ascii := Ascii.ascii_of_N 58.
Definition COMMA : Ascii.ascii := Ascii.ascii_of_N 44.
Definition SLASH : Ascii.ascii := Ascii.ascii_of_N 47.
Definition PERCENT : Ascii.ascii := Ascii.ascii_of_N 37.
Definition LBRACKET : Ascii.ascii := Ascii.ascii_of_N 91.
Definition RBRACKET : Ascii.ascii := Ascii.ascii_of_N 93.

Fixpoint dec_value (acc : Z) (s : string) : Z :=
  match s with EmptyString => acc | String c s' => dec_value (10 * acc + (code c - 48)) s' end.

(** [/^(0|[1-9]\d{0,2})$/] *)
Definition IPV4_OCTET (s : string) : bool :=
  match s with
  | String c s' => (is_char 48 c && bool_decide (s' = EmptyString)) ||
                   (in_range 49 57 c && (strlen s' <=? 2) && string_forallb is_digit s')
  | EmptyString => false
  end.

Definition hex_digit (c : Ascii.ascii) : option Z :=
  if is_digit c then Some (code c - 48)
  else if in_range 97 102 c then Some (code c - 87)
  else if in_range 65 70 c then Some (code c - 55) else None.

(** [/^[0-9a-fA-F]{1,4}$/] *)
Definition IPV6_GROUP (s : string) : bool :=
  len_between 1 4 s && string_forallb (λ c, match hex_digit c with Some _ => true | None => false end) s.

Fixpoint hex_num (acc : Z) (s : string) : Z :=
  match s with
  | EmptyString => acc
  | String c s' => hex_num (16 * acc + default 0 (hex_digit c)) s'
  end.

Definition parse_octet (s : string) : option Z :=
  if IPV4_OCTET s then let n := dec_value 0 s in if n >? 255 then None else Some n else None.

Definition parseIpv4 (s : string) : option Bytes :=
  match split_on DOT s with
  | [a; b; c; d] =>
      match parse_octet a, parse_octet b, parse_octet c, parse_octet d with
      | Some w, Some x, Some y, Some z => Some [w; x; y; z]
      | _, _, _, _ => None
      end
  | _ => None
  end.

(** [s.split("::")] *)
Fixpoint split_double (s : string) : list string :=
  match s with
  | EmptyString => [EmptyString]
  | String x s' =>
      match s' with
      | String y s'' =>
          if Ascii.eqb x COLON_ && Ascii.eqb y COLON_ then EmptyString :: split_double s''
          else match split_double s' with [] => [String x EmptyString] | p :: ps => String x p :: ps end
      | EmptyString => [String x EmptyString]
      end
  end.

Fixpoint group_words (v4TailAllowed : bool) (gs : list string) : option (list Z) :=
  match gs with
  | [] => Some []
  | g :: rest =>
      if IPV6_GROUP g then
        match group_words v4TailAllowed rest with Some ws => Some (hex_num 0 g :: ws) | None => None end
      else
        match parseIpv4 g with
        | Some [a; b; c; d] =>
            if v4TailAllowed && bool_decide (rest = [])
            then Some [Z.lor (Z.shiftl a 8) b; Z.lor (Z.shiftl c 8) d] else None
        | _ => None
        end
  end.

Definition groups (part : string) (v4TailAllowed : bool) : option (list Z) :=
  match part with EmptyString => Some [] | _ => group_words v4TailAllowed (split_on COLON_ part) end.

Definition word_bytes (w : Z) : Bytes := [Z.land (Z.shiftr w 8) 255; Z.land w 255].

Definition parseIpv6 (input : string) : option Bytes :=
  let s := match cut_at PERCENT input with Some (a, _) => a | None => input end in
  match split_double s with
  | [whole] =>
      match groups whole true with
      | Some ws => if Nat.eqb (length ws) 8 then Some (mjoin (word_bytes <$> ws)) else None
      | None => None
      end
  | [h; t] =>
      match groups h false, groups t true with
      | Some hs, Some ts =>
          if Nat.leb (length hs + length ts) 7
          then Some (mjoin (word_bytes <$> (hs ++ replicate (8 - (length hs + length ts)) 0 ++ ts)))
          else None
      | _, _ => None
      end
  | _ => None
  end.

Definition isMappedV4 (b : Bytes) : bool :=
  Nat.eqb (length b) 16 && bool_decide (take 10 b = replicate 10 0) &&
  bool_decide (take 2 (drop 10 b) = [255; 255]).

Definition has_char (c : Ascii.ascii) (s : string) : bool := negb (lacks c s).

Definition parseIpBytes (input : string) : option Bytes :=
  let s := trim input in if has_char COLON_ s then parseIpv6 s else parseIpv4 s.

Definition parseIp (input : string) : option Bytes :=
  match parseIpBytes input with
  | None => None
  | Some b => Some (if isMappedV4 b then drop 12 b else b)
  end.

(** [String(n)] and [n.toString(16)] of a non-negative number. *)
Definition dec_text (n : Z) : string := NilZero.string_of_uint (N.to_uint (Z.to_N n)).
Definition hex_char (d : Z) : Ascii.ascii :=
  Ascii.ascii_of_N (Z.to_N (if d <? 10 then 48 + d else 87 + d)).
Fixpoint hex_text_fuel (fuel : nat) (n : Z) : string :=
  match fuel with
  | O => EmptyString
  | S f => (if n <? 16 then EmptyString else hex_text_fuel f (n / 16)) +:+ sep (hex_char (n mod 16))
  end.
Definition hex_text (w : Z) : string := hex_text_fuel 4 w.

Fixpoint bytes_words (b : Bytes) : list Z :=
  match b with x :: y :: b' => Z.lor (Z.shiftl x 8) y :: bytes_words b' | _ => [] end.

(** The loop of [formatIp] over [words[i] === 0], from index [i]: the longest
    run so far and the start of the current run. *)
Fixpoint scan_runs (zs : list bool) (i bestStart bestLen : Z) (runStart : option Z) : Z * Z :=
  match zs with
  | true :: rest =>
      scan_runs rest (i + 1) bestStart bestLen (match runStart with None => Some i | _ => runStart end)
  | _ =>
      let '(bs, bl) :=
        match runStart with
        | Some r => if i - r >? bestLen then (r, i - r) else (bestStart, bestLen)
        | None => (bestStart, bestLen)
        end in
      match zs with
      | _ :: rest => scan_runs rest (i + 1) bs bl None
      | [] => (bs, bl)
      end
  end.

Definition hex_join (ws : list Z) : string := join_with COLON_ (hex_text <$> ws).

Definition formatIp (b : Bytes) : string :=
  if Nat.eqb (length b) 4 then join_with DOT (dec_text <$> b)
  else
    let words := bytes_words b in
    let '(bestStart, bestLen) := scan_runs ((λ w, w =? 0) <$> words) 0 (-1) 0 None in
    if bestLen <? 2 then hex_join words
    else hex_join (take (Z.to_nat bestStart) words) +:+ ("::" +:+
         hex_join (drop (Z.to_nat (bestStart + bestLen)) words)).

Definition parseCidr (input : string) : option Cidr :=
  let s := trim input in
  let '(addr, prefixStr) :=
    match cut_at SLASH s with Some (a, p) => (a, Some p) | None => (s, None) end in
  match parseIpBytes addr with
  | None => None
  | Some b =>
      let full := 8 * Z.of_nat (length b) in
      let prefix :=
        match prefixStr with
        | None => Some full
        | Some p => if len_between 1 3 p && string_forallb is_digit p then
                      let n := dec_value 0 p in if n >? full then None else Some n
                    else None
        end in
      match prefix with
      | None => None
      | Some n =>
          if isMappedV4 b then
            if n <? 96 then None else Some {| cbytes := drop 12 b; prefixBits := n - 96 |}
          else Some {| cbytes := b; prefixBits := n |}
      end
  end.

(** All entries, or nothing: a malformed entry throws. *)
Definition parseTrustedProxies (raw : option string) : option (list Cidr) :=
  let entries := filter (λ s, s ≠ EmptyString) (trim <$> split_on COMMA (default EmptyString raw)) in
  mapM parseCidr entries.

Definition toMappedV6 (ip : Bytes) : Bytes := replicate 10 0 ++ [255; 255] ++ ip.

Definition inCidr (ip0 : Bytes) (cidr : Cidr) : bool :=
  let ip := if Nat.eqb (length ip0) 4 && Nat.eqb (length cidr.(cbytes)) 16 then toMappedV6 ip0 else ip0 in
  if negb (Nat.eqb (length ip) (length cidr.(cbytes))) then false
  else
    let fullBytes := Z.to_nat (Z.shiftr cidr.(prefixBits) 3) in
    if negb (bool_decide (take fullBytes ip = take fullBytes cidr.(cbytes))) then false
    else
      let remBits := Z.land cidr.(prefixBits) 7 in
      if remBits =? 0 then true
      else
        let mask := Z.shiftl 255 (8 - remBits) in
        Z.land (nth fullBytes ip 0) mask =? Z.land (nth fullBytes cidr.(cbytes) 0) mask.

Definition stripHopPort (hop : string) : string :=
  match hop with
  | String c rest =>
      if Ascii.eqb c LBRACKET then
        match cut_at RBRACKET rest with Some (a, _) => a | None => hop end
      else
        match cut_at COLON_ hop with
        | Some (a, b) => if lacks COLON_ b && has_char DOT hop then a else hop
        | None => hop
        end
  | EmptyString => hop
  end.

Inductive ClientIpDegradation := untrusted_peer (detail : string) | unparseable_hop (detail : string).

Definition canonical (addr : string) : string :=
  match parseIp addr with Some b => formatIp b | None => addr end.

Definition is_trusted (trusted : list Cidr) (ip : Bytes) : bool := existsb (inCidr ip) trusted.

(** The walk, over the hops from the rightmost: the last is the leftmost. *)
Fixpoint walk (trusted : list Cidr) (peer : Bytes) (hops : list string) : string * option ClientIpDegradation :=
  match hops with
  | [] => (formatIp peer, None)
  | h :: rest =>
      match parseIp (stripHopPort h) with
      | None => (formatIp peer, Some (unparseable_hop h))
      | Some ip => if bool_decide (rest = []) || negb (is_trusted trusted ip) then (formatIp ip, None)
                   else walk trusted peer rest
      end
  end.

Definition hops_of (xff : string) : list string :=
  filter (λ h, h ≠ EmptyString) (trim <$> split_on COMMA xff).

Definition resolveClientIp (peerIp : string) (xff : option string) (trusted : list Cidr)
  : string * option ClientIpDegradation :=
  match trusted, xff with
  | [], _ | _, None | _, Some EmptyString => (canonical peerIp, None)
  | _, Some x =>
      match parseIp peerIp with
      | None => (canonical peerIp, Some (untrusted_peer peerIp))
      | Some peer =>
          if negb (is_trusted trusted peer) then (canonical peerIp, Some (untrusted_peer peerIp))
          else
            match hops_of x with
            | [] => (formatIp peer, Some (unparseable_hop x))
            | hops => walk trusted peer (rev hops)
            end
      end
  end.

(** ** Bytes and words *)

Definition is_byte (x : Z) : Prop := 0 <= x < 256.
Definition is_word (w : Z) : Prop := 0 <= w < 65536.

Lemma land_255 x : is_byte x → Z.land x 255 = x.
Proof. intros H. change 255 with (Z.ones 8). rewrite Z.land_ones by lia. by apply Z.mod_small. Qed.

Lemma pair_word x y : is_byte x → is_byte y → Z.lor (Z.shiftl x 8) y = 256 * x + y.
Proof.
  unfold is_byte. intros Hx Hy. rewrite Z.shiftl_mul_pow2 by lia. change (2 ^ 8) with 256.
  rewrite <-Z.lxor_lor, <-Z.add_nocarry_lxor; [lia|..];
    apply Z.bits_inj'; intros n Hn; rewrite Z.land_spec, Z.bits_0;
    (destruct (Z.ltb_spec n 8);
     [change 256 with (2 ^ 8); rewrite Z.mul_pow2_bits_low by lia; done
     |rewrite (Z.bits_above_log2 y n), ?andb_false_r; [done|lia|];
      destruct (Z.eq_dec y 0) as [->|]; [rewrite Z.log2_nonpos; lia|];
      apply Z.log2_lt_pow2; [lia|]; apply Z.lt_le_trans with (2 ^ 8); [lia|apply Z.pow_le_mono_r; lia]]).
Qed.

Lemma word_of_bytes x y : is_byte x → is_byte y → word_bytes (Z.lor (Z.shiftl x 8) y) = [x; y].
Proof.
  intros Hx Hy. rewrite pair_word by done. unfold word_bytes, is_byte in *. f_equal; [|f_equal].
  - rewrite Z.shiftr_div_pow2 by lia. change (2 ^ 8) with 256.
    replace ((256 * x + y) / 256) with x; [by apply land_255|].
    apply Z.div_unique with y; lia.
  - change 255 with (Z.ones 8). rewrite Z.land_ones by lia. change (2 ^ 8) with 256.
    symmetry. apply Z.mod_unique with x; lia.
Qed.

Lemma word_range x y : is_byte x → is_byte y → is_word (Z.lor (Z.shiftl x 8) y).
Proof. intros Hx Hy. rewrite pair_word by done. unfold is_byte, is_word in *. lia. Qed.

Fixpoint evenb (n : nat) : bool := match n with O => true | S O => false | S (S n') => evenb n' end.

Lemma bytes_words_spec n b :
  length b = (2 * n)%nat → Forall is_byte b →
  length (bytes_words b) = n ∧ Forall is_word (bytes_words b) ∧ mjoin (word_bytes <$> bytes_words b) = b.
Proof.
  revert b. induction n as [|n IH]; intros b Hlen Hb.
  { destruct b; [|done]. by split_and!. }
  destruct b as [|x [|y b]]; [simpl in Hlen; lia..|]. simpl in Hlen.
  apply Forall_cons in Hb as [Hx Hb]. apply Forall_cons in Hb as [Hy Hb].
  destruct (IH b ltac:(lia) Hb) as (H1 & H2 & H3). cbn [bytes_words]. split_and!.
  - simpl. by rewrite H1.
  - constructor; [by apply word_range|done].
  - rewrite fmap_cons.
    change (word_bytes (Z.lor (Z.shiftl x 8) y) ++ mjoin (word_bytes <$> bytes_words b) = x :: y :: b).
    rewrite word_of_bytes by done. by rewrite H3.
Qed.

(** ** Numbers and their text *)

Definition plain (c : Ascii.ascii) : bool := negb (is_space c).

Lemma trim_plain s : string_forallb plain s = true → trim s = s.
Proof.
  unfold trim. intros H. assert (trim_start s = s) as ->.
  { destruct s as [|c s]; [done|]. simpl in *. apply andb_true_iff in H as [Hc _].
    unfold plain in Hc. apply negb_true_iff in Hc. by rewrite Hc. }
  induction s as [|c s IH]; [done|]. simpl in *. apply andb_true_iff in H as [Hc Hs].
  rewrite IH by done. unfold plain in Hc. apply negb_true_iff in Hc. destruct s; [|done]. by rewrite Hc.
Qed.

Lemma octet_text_all :
  forallb (λ n, bool_decide (parse_octet (dec_text (Z.of_nat n)) = Some (Z.of_nat n)) &&
                string_forallb (λ c, plain c && negb (Ascii.eqb c DOT) && negb (Ascii.eqb c COLON_))
                  (dec_text (Z.of_nat n))) (seq 0 256) = true.
Proof. vm_compute. reflexivity. Qed.

Lemma octet_text n :
  is_byte n →
  parse_octet (dec_text n) = Some n ∧
  string_forallb (λ c, plain c && negb (Ascii.eqb c DOT) && negb (Ascii.eqb c COLON_)) (dec_text n) = true.
Proof.
  intros Hn. unfold is_byte in Hn. pose proof octet_text_all as H. rewrite forallb_forall in H.
  specialize (H (Z.to_nat n)). rewrite in_seq, Z2Nat.id in H by lia.
  specialize (H ltac:(lia)). reflect_bools. split; [done|].
  eapply string_forallb_impl; [|done]. intros c. done.
Qed.

Lemma hex_num_snoc acc s c :
  hex_num acc (s +:+ sep c) = 16 * hex_num acc s + default 0 (hex_digit c).
Proof. revert acc. induction s as [|d s IH]; intros acc; simpl; [done|apply IH]. Qed.

Lemma hex_char_all :
  forallb (λ n, bool_decide (hex_digit (hex_char (Z.of_nat n)) = Some (Z.of_nat n)) &&
    (plain (hex_char (Z.of_nat n)) && negb (Ascii.eqb (hex_char (Z.of_nat n)) COLON_) &&
     negb (Ascii.eqb (hex_char (Z.of_nat n)) PERCENT))) (seq 0 16) = true.
Proof. vm_compute. reflexivity. Qed.

Definition hex_plain (c : Ascii.ascii) : bool :=
  match hex_digit c with Some _ => true | None => false end &&
  (plain c && negb (Ascii.eqb c COLON_) && negb (Ascii.eqb c PERCENT)).

Lemma hex_char_spec d : 0 <= d < 16 → hex_digit (hex_char d) = Some d ∧ hex_plain (hex_char d) = true.
Proof.
  intros Hd. pose proof hex_char_all as H. rewrite forallb_forall in H.
  specialize (H (Z.to_nat d)). rewrite in_seq, Z2Nat.id in H by lia. specialize (H ltac:(lia)).
  apply andb_true_iff in H as [H1 H2]. apply bool_decide_eq_true in H1. split; [done|].
  unfold hex_plain. by rewrite H1.
Qed.

Lemma hex_text_fuel_spec f n :
  0 <= n < 16 ^ Z.of_nat (S f) →
  hex_num 0 (hex_text_fuel (S f) n) = n ∧ string_forallb hex_plain (hex_text_fuel (S f) n) = true ∧
  1 <= strlen (hex_text_fuel (S f) n) <= Z.of_nat (S f).
Proof.
  revert n. induction f as [|f IH]; intros n Hn.
  - change (16 ^ Z.of_nat 1) with 16 in Hn. destruct (hex_char_spec n Hn) as [H1 H2].
    simpl. rewrite (proj2 (Z.ltb_lt _ _)), Z.mod_small by lia. simpl. rewrite H1, H2. simpl. unfold strlen. simpl. lia.
  - assert (n mod 16 < 16 ∧ 0 <= n mod 16) as Hm by (pose proof (Z.mod_pos_bound n 16); lia).
    destruct (hex_char_spec (n mod 16) ltac:(lia)) as [H1 H2].
    change (hex_text_fuel (S (S f)) n) with
      ((if n <? 16 then EmptyString else hex_text_fuel (S f) (n / 16)) +:+ sep (hex_char (n mod 16))).
    destruct (Z.ltb_spec n 16).
    + simpl. rewrite H1, H2. rewrite Z.mod_small by lia. simpl. unfold strlen. simpl. lia.
    + rewrite Nat2Z.inj_succ, Z.pow_succ_r in Hn by lia.
      destruct (IH (n / 16)) as (I1 & I2 & I3).
      { split; [apply Z.div_pos; lia|apply Z.div_lt_upper_bound; lia]. }
      rewrite hex_num_snoc, I1, H1, string_forallb_app, I2, strlen_app. simpl. rewrite H2.
      split_and!; [rewrite Z.add_comm; symmetry; rewrite (Z.div_mod n 16) at 1 by lia; simpl; lia|done|..];
        unfold strlen in *; simpl in *; lia.
Qed.

Lemma hex_text_spec w :
  is_word w →
  hex_num 0 (hex_text w) = w ∧ IPV6_GROUP (hex_text w) = true ∧
  string_forallb hex_plain (hex_text w) = true ∧ hex_text w ≠ EmptyString.
Proof.
  intros Hw. destruct (hex_text_fuel_spec 3 w) as (H1 & H2 & H3); [exact Hw|].
  unfold hex_text. split_and!; [done| |done|].
  - unfold IPV6_GROUP, len_between. rewrite !(proj2 (Z.leb_le _ _)) by lia. simpl.
    eapply string_forallb_impl; [|exact H2]. intros c Hc. unfold hex_plain in Hc. by apply andb_true_iff in Hc as [? _].
  - intros Heq. rewrite Heq in H3. unfold strlen in H3. simpl in H3. lia.
Qed.

(** ** Round trip *)

Lemma join_forallb (p : Ascii.ascii → bool) c l :
  p c = true → Forall (λ s, string_forallb p s = true) l → string_forallb p (join_with c l) = true.
Proof.
  intros Hc. induction l as [|s [|s' l] IH]; intros Hl; [done| |]; apply Forall_cons in Hl as [Hs Hl]; [done|].
  change (join_with c (s :: s' :: l)) with (s +:+ (sep c +:+ join_with c (s' :: l))).
  rewrite !string_forallb_app, Hs, IH by done. simpl. by rewrite Hc.
Qed.

Lemma forallb_lacks (p : Ascii.ascii → bool) c s :
  p c = false → string_forallb p s = true → lacks c s = true.
Proof.
  intros Hc. apply string_forallb_impl. intros x Hx. apply negb_true_iff, Ascii.eqb_neq. intros ->. congruence.
Qed.

Lemma join_ne_nil c s l : s ≠ EmptyString → join_with c (s :: l) ≠ EmptyString.
Proof. destruct s; [done|]. by destruct l. Qed.

(** *** IPv4 *)

Lemma parse_format_v4 a b c d :
  is_byte a → is_byte b → is_byte c → is_byte d → parseIp (formatIp [a; b; c; d]) = Some [a; b; c; d].
Proof.
  intros Ha Hb Hc Hd. unfold formatIp. simpl Nat.eqb. cbv iota.
  destruct (octet_text a Ha) as [Pa Ta], (octet_text b Hb) as [Pb Tb],
    (octet_text c Hc) as [Pc Tc], (octet_text d Hd) as [Pd Td].
  set (q := λ ch, plain ch && negb (Ascii.eqb ch DOT) && negb (Ascii.eqb ch COLON_)) in *.
  assert (Forall (λ s, string_forallb q s = true) (dec_text <$> [a; b; c; d])) as Hq by (by repeat constructor).
  assert (string_forallb (λ ch, plain ch && negb (Ascii.eqb ch COLON_)) (join_with DOT (dec_text <$> [a; b; c; d])) = true) as Hj.
  { apply join_forallb; [done|]. eapply Forall_impl; [exact Hq|]. intros s. apply string_forallb_impl.
    intros ch Hch. unfold q in Hch. apply andb_true_iff in Hch as [Hch ->]. by apply andb_true_iff in Hch as [-> _]. }
  unfold parseIp, parseIpBytes. cbv zeta.
  rewrite trim_plain by (eapply string_forallb_impl, Hj; intros ch Hch; by apply andb_true_iff in Hch as [? _]).
  unfold has_char. rewrite (forallb_lacks _ COLON_ _ eq_refl Hj). cbn [negb]. unfold parseIpv4.
  rewrite split_join; [|done|].
  - simpl. by rewrite Pa, Pb, Pc, Pd.
  - eapply Forall_impl; [exact Hq|]. intros s. by apply forallb_lacks.
Qed.

(** *** IPv6: the text between the colons *)

(** [split_double] of [s] followed by [t], for [s] without a colon. *)
Definition push (s : string) (l : list string) : list string :=
  match l with [] => [s] | p :: ps => (s +:+ p) :: ps end.

Lemma split_double_ne s : split_double s ≠ [].
Proof.
  destruct s as [|x [|y s]]; simpl; try done. destruct (_ && _); [done|].
  destruct s; [done|]. by repeat case_match.
Qed.

Lemma split_double_app s t : lacks COLON_ s = true → split_double (s +:+ t) = push s (split_double t).
Proof.
  induction s as [|x s IH]; intros Hs.
  { simpl. destruct (split_double t) eqn:Ht; [by apply split_double_ne in Ht|done]. }
  apply lacks_cons in Hs as [Hx Hs]. apply Ascii.eqb_neq in Hx. specialize (IH Hs).
  change (String x s +:+ t) with (String x (s +:+ t)). cbn [split_double]. rewrite Hx. simpl.
  destruct (s +:+ t) as [|y u] eqn:Hst.
  - destruct s; [|done]. simpl in Hst. by subst t.
  - rewrite IH. destruct (split_double t) eqn:Ht; [by apply split_double_ne in Ht|done].
Qed.

Lemma split_double_colon y t :
  y ≠ COLON_ → split_double (String COLON_ (String y t)) = push (sep COLON_) (split_double (String y t)).
Proof.
  intros Hy. apply Ascii.eqb_neq in Hy.
  change (split_double (String COLON_ (String y t))) with
    (if Ascii.eqb COLON_ COLON_ && Ascii.eqb y COLON_ then EmptyString :: split_double t
     else match split_double (String y t) with [] => [sep COLON_] | p :: ps => String COLON_ p :: ps end).
  rewrite Hy, andb_false_r. by destruct (split_double (String y t)).
Qed.

Lemma push_push a b l : push a (push b l) = push (a +:+ b) l.
Proof. destruct l; simpl; [done|]. by rewrite string_app_assoc. Qed.

Lemma split_double_join l t :
  Forall (λ s, lacks COLON_ s = true ∧ s ≠ EmptyString) l →
  split_double (join_with COLON_ l +:+ t) = push (join_with COLON_ l) (split_double t).
Proof.
  induction l as [|s [|s' l] IH]; intros Hl.
  - simpl. destruct (split_double t) eqn:Ht; [by apply split_double_ne in Ht|done].
  - apply Forall_cons in Hl as [[Hs _] _]. by apply split_double_app.
  - apply Forall_cons in Hl as [[Hs _] Hl].
    change (join_with COLON_ (s :: s' :: l)) with (s +:+ (sep COLON_ +:+ join_with COLON_ (s' :: l))).
    rewrite <-!string_app_assoc, split_double_app by done.
    specialize (IH Hl). apply Forall_cons in Hl as [[Hs' Hne] _].
    destruct s' as [|y s'']; [done|]. apply lacks_cons in Hs' as [Hy _].
    assert (∃ u, join_with COLON_ (String y s'' :: l) +:+ t = String y u) as [u Hu].
    { destruct l as [|z l]; [by exists (s'' +:+ t)|]. eexists. reflexivity. }
    change (sep COLON_ +:+ (join_with COLON_ (String y s'' :: l) +:+ t))
      with (String COLON_ (join_with COLON_ (String y s'' :: l) +:+ t)).
    rewrite Hu. rewrite (split_double_colon y u Hy). rewrite <-Hu, IH. rewrite !push_push. by rewrite ?string_app_assoc.
Qed.

Lemma group_words_hex b ws :
  Forall is_word ws → group_words b (hex_text <$> ws) = Some ws.
Proof.
  induction ws as [|w ws IH]; intros Hws; [done|]. apply Forall_cons in Hws as [Hw Hws].
  destruct (hex_text_spec w Hw) as (H1 & H2 & _). rewrite fmap_cons. cbn [group_words].
  by rewrite H2, IH, H1.
Qed.

Lemma hex_texts_ok ws :
  Forall is_word ws → Forall (λ s, lacks COLON_ s = true ∧ s ≠ EmptyString) (hex_text <$> ws).
Proof.
  intros Hws. apply Forall_fmap. eapply Forall_impl; [exact Hws|]. intros w Hw.
  destruct (hex_text_spec w Hw) as (_ & _ & H3 & H4). split; [by apply (forallb_lacks hex_plain)|done].
Qed.

Lemma groups_hex b ws : Forall is_word ws → groups (hex_join ws) b = Some ws.
Proof.
  intros Hws. unfold groups, hex_join. destruct ws as [|w ws]; [done|].
  pose proof (hex_texts_ok (w :: ws) Hws) as Hok. rewrite fmap_cons in *.
  destruct (join_with COLON_ (hex_text w :: (hex_text <$> ws))) as [|x u] eqn:Hj.
  { by apply join_ne_nil in Hj; [|apply Forall_cons in Hok as [[_ ?] _]]. }
  rewrite <-Hj, split_join; [|done|].
  - rewrite <-fmap_cons. by apply group_words_hex.
  - eapply Forall_impl; [exact Hok|]. by intros s [? _].
Qed.

Lemma hex_join_plain ws : Forall is_word ws → string_forallb (λ c, plain c && negb (Ascii.eqb c PERCENT)) (hex_join ws) = true.
Proof.
  intros Hws. apply join_forallb; [done|]. apply Forall_fmap. eapply Forall_impl; [exact Hws|].
  intros w Hw. destruct (hex_text_spec w Hw) as (_ & _ & H3 & _). cbn. eapply string_forallb_impl; [|exact H3].
  intros c Hc. unfold hex_plain in Hc. rewrite !andb_true_iff in Hc. rewrite !andb_true_iff. tauto.
Qed.

Lemma cut_at_lacks c s : lacks c s = true → cut_at c s = None.
Proof.
  induction s as [|x s IH]; intros Hs; [done|]. apply lacks_cons in Hs as [Hx Hs].
  simpl. apply Ascii.eqb_neq in Hx. by rewrite Hx, IH.
Qed.

(** *** The longest run of zeros, over every pattern of eight words *)

Fixpoint patterns (n : nat) : list (list bool) :=
  match n with O => [[]] | S n' => ((λ l, true :: l) <$> patterns n') ++ ((λ l, false :: l) <$> patterns n') end.

Lemma patterns_all n zs : length zs = n → zs ∈ patterns n.
Proof.
  revert zs. induction n as [|n IH]; intros [|z zs] Hl; try done; [by left|].
  simpl. apply elem_of_app. destruct z; [left|right]; apply list_elem_of_fmap; exists zs; (split; [done|]);
    apply IH; by injection Hl.
Qed.

Definition run_ok (zs : list bool) : bool :=
  let '(bs, bl) := scan_runs zs 0 (-1) 0 None in
  (bl <? 2) || ((0 <=? bs) && (bs + bl <=? 8) &&
    bool_decide (take (Z.to_nat bl) (drop (Z.to_nat bs) zs) = replicate (Z.to_nat bl) true)).

Lemma runs_ok_all : forallb run_ok (patterns 8) = true.
Proof. vm_compute. reflexivity. Qed.

Lemma zeros_run (l : list Z) n : (λ w, w =? 0) <$> l = replicate n true → l = replicate n 0.
Proof.
  revert n. induction l as [|x l IH]; intros [|n] Heq; cbn in Heq; try done; try discriminate Heq.
  injection Heq as Hx Heq. apply Z.eqb_eq in Hx. subst x. cbn. f_equal. by apply IH.
Qed.

Lemma scan_runs_spec ws bs bl :
  length ws = 8%nat → scan_runs ((λ w, w =? 0) <$> ws) 0 (-1) 0 None = (bs, bl) → 2 <= bl →
  0 <= bs ∧ bs + bl <= 8 ∧
  take (Z.to_nat bs) ws ++ replicate (Z.to_nat bl) 0 ++ drop (Z.to_nat (bs + bl)) ws = ws.
Proof.
  intros Hlen Hscan Hbl. pose proof runs_ok_all as H. rewrite forallb_forall in H.
  specialize (H ((λ w, w =? 0) <$> ws)). rewrite <-list_elem_of_In in H.
  specialize (H (patterns_all 8 _ (eq_trans (length_fmap _ _) Hlen))). unfold run_ok in H. rewrite Hscan in H.
  apply orb_true_iff in H as [H|H]; reflect_bools; [lia|]. split_and!; [done..|].
  assert (take (Z.to_nat bl) (drop (Z.to_nat bs) ws) = replicate (Z.to_nat bl) 0) as Hrun.
  { apply zeros_run. by rewrite fmap_take, fmap_drop. }
  rewrite <-Hrun. rewrite Z2Nat.inj_add by lia.
  rewrite <-(drop_drop ws (Z.to_nat bl) (Z.to_nat bs)), take_drop. apply take_drop.
Qed.

Lemma has_colon a b : has_char COLON_ (a +:+ (sep COLON_ +:+ b)) = true.
Proof. unfold has_char, lacks. rewrite !string_forallb_app. simpl. by rewrite andb_false_r. Qed.

Lemma parse_v6_text s b :
  string_forallb (λ c, plain c && negb (Ascii.eqb c PERCENT)) s = true → has_char COLON_ s = true →
  parseIpv6 s = Some b → parseIpBytes s = Some b.
Proof.
  intros Hp Hc Hb. unfold parseIpBytes. cbv zeta.
  rewrite trim_plain by (eapply string_forallb_impl, Hp; intros c Hx; by apply andb_true_iff in Hx as [? _]).
  by rewrite Hc.
Qed.

Lemma parse_format_v6 b :
  length b = 16%nat → Forall is_byte b → parseIpBytes (formatIp b) = Some b.
Proof.
  intros Hlen Hb. destruct (bytes_words_spec 8 b Hlen Hb) as (Hwl & Hw & Hwb).
  unfold formatIp. rewrite Hlen. simpl Nat.eqb. cbv iota zeta.
  destruct (scan_runs _ 0 (-1) 0 None) as [bs bl] eqn:Hscan.
  set (ws := bytes_words b) in *. destruct (Z.ltb_spec bl 2) as [Hbl|Hbl].
  - apply parse_v6_text; [by apply hex_join_plain| |].
    + destruct ws as [|w1 [|w2 rest]]; [done..|]. apply (has_colon (hex_text w1)).
    + unfold parseIpv6. rewrite cut_at_lacks.
      2: { eapply forallb_lacks; [|by apply hex_join_plain]. done. }
      pose proof (split_double_join (hex_text <$> ws) EmptyString (hex_texts_ok ws Hw)) as Hsd.
      rewrite string_app_nil_r in Hsd. simpl in Hsd. unfold hex_join at 1. rewrite Hsd, string_app_nil_r.
      fold (hex_join ws). rewrite groups_hex, Hwl by done. simpl. by rewrite Hwb.
  - destruct (scan_runs_spec ws bs bl Hwl Hscan Hbl) as (Hb0 & Hb8 & Hsplit).
    set (pre := take (Z.to_nat bs) ws) in *. set (post := drop (Z.to_nat (bs + bl)) ws) in *.
    assert (Forall is_word pre ∧ Forall is_word post) as [Hpre Hpost] by (split; [by apply Forall_take|by apply Forall_drop]).
    assert (length pre + length post = 8 - Z.to_nat bl)%nat as Hpl.
    { unfold pre, post. rewrite length_take, length_drop, Hwl. lia. }
    apply parse_v6_text.
    + rewrite !string_forallb_app, !hex_join_plain by done. done.
    + apply (has_colon (hex_join pre)).
    + unfold parseIpv6. rewrite cut_at_lacks.
      2: { apply (forallb_lacks (λ c, plain c && negb (Ascii.eqb c PERCENT))); [done|].
           rewrite !string_forallb_app, !hex_join_plain by done. done. }
      pose proof (split_double_join (hex_text <$> pre) ("::" +:+ hex_join post) (hex_texts_ok pre Hpre)) as Hsd.
      pose proof (split_double_join (hex_text <$> post) EmptyString (hex_texts_ok post Hpost)) as Hsd2.
      rewrite string_app_nil_r in Hsd2. simpl in Hsd2. fold (hex_join post) in Hsd2.
      change (split_double ("::" +:+ hex_join post)) with (EmptyString :: split_double (hex_join post)) in Hsd.
      rewrite Hsd2 in Hsd. simpl in Hsd. rewrite !string_app_nil_r in Hsd. fold (hex_join pre) in Hsd.
      simpl. rewrite Hsd. rewrite !groups_hex by done.
      destruct (Nat.leb_spec (length pre + length post) 7); [|lia].
      replace (8 - (length pre + length post))%nat with (Z.to_nat bl) by lia. by rewrite Hsplit, Hwb.
Qed.

(** ** What a parse yields *)

Lemma dec_value_nonneg s acc :
  0 <= acc → string_forallb is_digit s = true → 0 <= dec_value acc s.
Proof.
  revert acc. induction s as [|c s IH]; intros acc Ha Hs; simpl in *; [done|].
  apply andb_true_iff in Hs as [Hc Hs]. unfold is_digit, in_range in Hc. reflect_bools. apply IH; [lia|done].
Qed.

Lemma octet_digits s : IPV4_OCTET s = true → string_forallb is_digit s = true.
Proof.
  destruct s as [|c s]; [done|]. simpl. unfold is_digit, is_char, in_range. intros H.
  apply orb_true_iff in H as [H|H]; reflect_bools; subst; simpl; rewrite ?(proj2 (Z.leb_le _ _)) by lia; simpl; [done|].
  assumption.
Qed.

Lemma parse_octet_byte s n : parse_octet s = Some n → is_byte n.
Proof.
  unfold parse_octet. destruct (IPV4_OCTET s) eqn:Ho; [|done]. cbv zeta.
  destruct (Z.gtb_spec (dec_value 0 s) 255); [done|]. intros [= <-]. unfold is_byte.
  pose proof (dec_value_nonneg s 0 ltac:(lia) (octet_digits s Ho)). lia.
Qed.

Lemma parseIpv4_bytes s b : parseIpv4 s = Some b → length b = 4%nat ∧ Forall is_byte b.
Proof.
  unfold parseIpv4. intros H. repeat case_match; simplify_eq.
  split; [done|]. rewrite !Forall_cons. eauto 10 using parse_octet_byte.
Qed.

Lemma hex_num_bound s acc :
  0 <= acc → string_forallb (λ c, match hex_digit c with Some _ => true | None => false end) s = true →
  0 <= hex_num acc s < (acc + 1) * 16 ^ strlen s.
Proof.
  revert acc. induction s as [|c s IH]; intros acc Ha Hs.
  { change (16 ^ strlen EmptyString) with 1. simpl. lia. }
  simpl in Hs. apply andb_true_iff in Hs as [Hc Hs]. simpl.
  assert (0 <= default 0 (hex_digit c) < 16) as Hd.
  { destruct (hex_digit c) as [d|] eqn:Hd; [|done]. simpl. revert Hd. unfold hex_digit, is_digit, in_range.
    repeat case_match; intros; simplify_eq; reflect_bools; lia. }
  destruct (IH (16 * acc + default 0 (hex_digit c)) ltac:(lia) Hs) as [H1 H2].
  split; [done|]. assert (strlen (String c s) = Z.succ (strlen s)) as -> by (unfold strlen; simpl; lia).
  rewrite Z.pow_succ_r by apply strlen_nonneg.
  eapply Z.lt_le_trans; [exact H2|].
  pose proof (Z.pow_pos_nonneg 16 (strlen s) ltac:(lia) (strlen_nonneg s)). nia.
Qed.

Lemma group_word s : IPV6_GROUP s = true → is_word (hex_num 0 s).
Proof.
  unfold IPV6_GROUP, len_between. intros H. reflect_bools.
  destruct (hex_num_bound s 0 ltac:(lia) ltac:(assumption)) as [Hlo Hhi]. split; [done|].
  eapply Z.lt_le_trans; [exact Hhi|]. rewrite Z.mul_1_l. change 65536 with (16 ^ 4). apply Z.pow_le_mono_r; lia.
Qed.

Lemma group_words_word t gs ws : group_words t gs = Some ws → Forall is_word ws.
Proof.
  revert ws. induction gs as [|g gs IH]; intros ws; simpl; [intros [= <-]; constructor|].
  destruct (IPV6_GROUP g) eqn:Hg.
  - destruct (group_words t gs); [|done]. intros [= <-]. constructor; [by apply group_word|by apply IH].
  - destruct (parseIpv4 g) as [v4|] eqn:Hv; [|done]. destruct (parseIpv4_bytes _ _ Hv) as [_ Hb].
    destruct v4 as [|a [|b [|c [|d [|]]]]]; try done. case_match; [|done]. intros [= <-].
    rewrite !Forall_cons in Hb. destruct Hb as (? & ? & ? & ? & _). rewrite !Forall_cons. auto using word_range.
Qed.

Lemma groups_word s t ws : groups s t = Some ws → Forall is_word ws.
Proof. unfold groups. destruct s; [intros [= <-]; constructor|]. apply group_words_word. Qed.

Lemma word_bytes_byte w : is_word w → Forall is_byte (word_bytes w).
Proof.
  intros Hw. unfold is_word in Hw. unfold word_bytes, is_byte. change 255 with (Z.ones 8). rewrite !Z.land_ones by lia. change (2 ^ 8) with 256.
  rewrite !Forall_cons. split_and!; try apply Z.mod_pos_bound; try apply Z.mod_pos_bound; lia || constructor.
Qed.

Lemma words_bytes_byte ws :
  Forall is_word ws → length (mjoin (word_bytes <$> ws)) = (2 * length ws)%nat ∧ Forall is_byte (mjoin (word_bytes <$> ws)).
Proof.
  induction ws as [|w ws IH]; intros Hws; [by split|]. apply Forall_cons in Hws as [Hw Hws].
  destruct (IH Hws) as [H1 H2]. rewrite fmap_cons.
  change (mjoin (word_bytes w :: (word_bytes <$> ws))) with (word_bytes w ++ mjoin (word_bytes <$> ws)).
  split; [rewrite length_app, H1; simpl; lia|]. apply Forall_app. split; [by apply word_bytes_byte|done].
Qed.

Lemma parseIpv6_bytes s b : parseIpv6 s = Some b → length b = 16%nat ∧ Forall is_byte b.
Proof.
  unfold parseIpv6. cbv zeta. destruct (split_double _) as [|h [|t [|]]]; try done.
  - destruct (groups h true) as [ws|] eqn:Hg; [|done]. destruct (Nat.eqb_spec (length ws) 8) as [He|]; [|done].
    intros [= <-]. destruct (words_bytes_byte ws (groups_word _ _ _ Hg)) as [-> ?]. by rewrite He.
  - destruct (groups h false) as [hs|] eqn:Hh; [|done]. destruct (groups t true) as [ts|] eqn:Ht; [|done].
    destruct (Nat.leb_spec (length hs + length ts) 7); [|done]. intros [= <-].
    destruct (words_bytes_byte (hs ++ replicate (8 - (length hs + length ts)) 0 ++ ts)) as [Hl Hf].
    { apply Forall_app; split; [by eapply groups_word|]. apply Forall_app; split; [|by eapply groups_word].
      by apply Forall_replicate. }
    split; [|done]. rewrite Hl, !length_app, length_replicate. lia.
Qed.

(** The addresses [parseIp] yields: four bytes, or sixteen that are not an
    IPv4 address in disguise. *)
Definition ip_ok (b : Bytes) : Prop :=
  Forall is_byte b ∧ (length b = 4%nat ∨ length b = 16%nat ∧ isMappedV4 b = false).

Lemma parseIp_ok s b : parseIp s = Some b → ip_ok b.
Proof.
  unfold parseIp. destruct (parseIpBytes s) as [b0|] eqn:Hp; [|done].
  assert ((length b0 = 4%nat ∨ length b0 = 16%nat) ∧ Forall is_byte b0) as [Hl Hf].
  { revert Hp. unfold parseIpBytes. cbv zeta. case_match; intros Hp;
      [apply parseIpv6_bytes in Hp|apply parseIpv4_bytes in Hp]; destruct Hp; auto. }
  intros [= <-]. destruct (isMappedV4 b0) eqn:Hm.
  - split; [by apply Forall_drop|]. left. rewrite length_drop. unfold isMappedV4 in Hm. reflect_bools.
    match goal with H : (length b0 =? 16)%nat = true |- _ => apply Nat.eqb_eq in H as -> end. done.
  - split; [done|]. destruct Hl; auto.
Qed.

Lemma parse_format b : ip_ok b → parseIp (formatIp b) = Some b.
Proof.
  intros [Hf [Hl|[Hl Hm]]].
  - destruct b as [|w [|x [|y [|z [|]]]]]; simplify_eq/=. rewrite !Forall_cons in Hf.
    destruct Hf as (? & ? & ? & ? & _). by apply parse_format_v4.
  - unfold parseIp. by rewrite parse_format_v6, Hm.
Qed.

(** ** Membership in a range, bit by bit *)

(** Bit [i] of an address, from the most significant bit of the first byte. *)
Definition ip_bit (b : Bytes) (i : Z) : bool := Z.testbit (nth (Z.to_nat (i / 8)) b 0) (7 - i mod 8).

Lemma byte_bits x y : is_byte x → is_byte y → (∀ n, 0 <= n < 8 → Z.testbit x n = Z.testbit y n) → x = y.
Proof.
  intros Hx Hy H. rewrite <-(land_255 x Hx), <-(land_255 y Hy). change 255 with (Z.ones 8).
  apply Z.bits_inj'. intros n Hn. rewrite !Z.land_spec. destruct (Z.ltb_spec n 8).
  - by rewrite H by lia.
  - rewrite Z.ones_spec_high by lia. by rewrite !andb_false_r.
Qed.

Lemma mask_bits x y r :
  is_byte x → is_byte y → 0 < r < 8 →
  Z.land x (Z.shiftl 255 (8 - r)) = Z.land y (Z.shiftl 255 (8 - r)) ↔
  (∀ n, 8 - r <= n < 8 → Z.testbit x n = Z.testbit y n).
Proof.
  intros Hx Hy Hr. change 255 with (Z.ones 8). split.
  - intros Heq n Hn. apply (f_equal (λ z, Z.testbit z n)) in Heq.
    rewrite !Z.land_spec, Z.shiftl_spec, Z.ones_spec_low, !andb_true_r in Heq by lia. done.
  - intros H. apply Z.bits_inj'. intros n Hn. rewrite !Z.land_spec, Z.shiftl_spec by lia.
    destruct (Z.ltb_spec n (8 - r)); [rewrite (Z.testbit_neg_r _ (n - (8 - r))), !andb_false_r by lia; done|].
    destruct (Z.ltb_spec n 8); [by rewrite H by lia|].
    rewrite <-(land_255 x Hx), <-(land_255 y Hy). change 255 with (Z.ones 8).
    rewrite !Z.land_spec, (Z.ones_spec_high 8 n) by lia. by rewrite !andb_false_r.
Qed.

Lemma take_eq_nth (k : nat) (a b : Bytes) :
  (k <= length a)%nat → length a = length b →
  take k a = take k b ↔ (∀ j, (j < k)%nat → nth j a 0 = nth j b 0).
Proof.
  revert a b. induction k as [|k IH]; intros a b Hk Hl; [by split; [intros _ j Hj; lia|]|].
  destruct a as [|x a], b as [|y b]; simpl in *; try lia. split.
  - intros [= -> Ht] j Hj. destruct j as [|j]; [done|]. apply (IH a b); [lia..|done|lia].
  - intros H. f_equal; [by apply (H 0%nat); lia|]. apply IH; [lia..|]. intros j Hj. apply (H (S j)). lia.
Qed.

Lemma nth_byte b j : Forall is_byte b → is_byte (nth j b 0).
Proof.
  intros Hb. destruct (decide (j < length b)%nat).
  - rewrite Forall_forall in Hb. apply Hb, list_elem_of_In, nth_In. lia.
  - rewrite nth_overflow by lia. done.
Qed.

(** The bits below [8 * k], and the [r] bits after them. *)
Lemma prefix_bits a b k r :
  0 <= k → 0 <= r < 8 →
  (∀ i, 0 <= i < 8 * k + r → ip_bit a i = ip_bit b i) ↔
  (∀ j, 0 <= j < k → ∀ n, 0 <= n < 8 → Z.testbit (nth (Z.to_nat j) a 0) n = Z.testbit (nth (Z.to_nat j) b 0) n) ∧
  (∀ n, 8 - r <= n < 8 → Z.testbit (nth (Z.to_nat k) a 0) n = Z.testbit (nth (Z.to_nat k) b 0) n).
Proof.
  intros Hk Hr.
  assert (∀ x j n, 0 <= n < 8 → ip_bit x (8 * j + (7 - n)) = Z.testbit (nth (Z.to_nat j) x 0) n) as Hbit.
  { intros x j n Hn. unfold ip_bit.
    replace ((8 * j + (7 - n)) / 8) with j by (apply Z.div_unique with (7 - n); lia).
    replace ((8 * j + (7 - n)) mod 8) with (7 - n) by (apply Z.mod_unique with j; lia). f_equal. lia. }
  split.
  - intros H. split; [intros j Hj n Hn|intros n Hn]; rewrite <-!Hbit by lia; apply H; lia.
  - intros [H1 H2] i Hi. pose proof (Z.mod_pos_bound i 8 ltac:(lia)) as Hm. pose proof (Z.div_mod i 8 ltac:(lia)) as Hd.
    replace i with (8 * (i / 8) + (7 - (7 - i mod 8))) by lia. rewrite !Hbit by lia.
    destruct (decide (i / 8 < k)); [apply H1; [pose proof (Z.div_pos i 8); lia|lia]|].
    replace (i / 8) with k by lia. apply H2. lia.
Qed.

Lemma same_length_cidr a c :
  Forall is_byte a → Forall is_byte c.(cbytes) → length a = length c.(cbytes) →
  0 <= c.(prefixBits) <= 8 * Z.of_nat (length a) →
  inCidr a c = true ↔ (∀ i, 0 <= i < c.(prefixBits) → ip_bit a i = ip_bit c.(cbytes) i).
Proof.
  destruct c as [b p]. cbn [cbytes prefixBits]. intros Ha Hb Hl Hp. unfold inCidr. cbn [cbytes prefixBits].
  assert (Nat.eqb (length a) 4 && Nat.eqb (length b) 16 = false) as ->.
  { rewrite Hl. destruct (Nat.eqb_spec (length b) 4) as [->|]; done. }
  rewrite Hl, Nat.eqb_refl. cbn [negb].
  rewrite Z.shiftr_div_pow2 by lia. change 7 with (Z.ones 3). rewrite Z.land_ones by lia. change (2 ^ 3) with 8.
  pose proof (Z.mod_pos_bound p 8 ltac:(lia)) as Hr. pose proof (Z.div_mod p 8 ltac:(lia)) as Hd.
  pose proof (Z.div_pos p 8 ltac:(lia) ltac:(lia)) as Hk. set (k := p / 8) in *. set (r := p mod 8) in *.
  rewrite Hd, prefix_bits by lia.
  assert (take (Z.to_nat k) a = take (Z.to_nat k) b ↔
    (∀ j, 0 <= j < k → ∀ n, 0 <= n < 8 → Z.testbit (nth (Z.to_nat j) a 0) n = Z.testbit (nth (Z.to_nat j) b 0) n)) as Htake.
  { rewrite take_eq_nth by lia. split.
    - intros H j Hj n _. by rewrite (H (Z.to_nat j)) by lia.
    - intros H j Hj. apply byte_bits; [by apply nth_byte..|]. rewrite <-(Nat2Z.id j). apply H. lia. }
  rewrite <-Htake. case_bool_decide as Ht; cbn [negb]; [|naive_solver].
  destruct (Z.eqb_spec r 0) as [H0|H0].
  - rewrite H0. split; [intros _|done]. split; [done|]. intros n Hn. lia.
  - rewrite Z.eqb_eq, mask_bits by (apply nth_byte || lia; done). naive_solver.
Qed.

Lemma parseIpBytes_ok s b :
  parseIpBytes s = Some b → (length b = 4%nat ∨ length b = 16%nat) ∧ Forall is_byte b.
Proof.
  unfold parseIpBytes. cbv zeta. case_match; intros Hp;
    [apply parseIpv6_bytes in Hp|apply parseIpv4_bytes in Hp]; destruct Hp; auto.
Qed.

Lemma parseCidr_ok s c :
  parseCidr s = Some c →
  Forall is_byte c.(cbytes) ∧ (length c.(cbytes) = 4%nat ∨ length c.(cbytes) = 16%nat) ∧
  0 <= c.(prefixBits) <= 8 * Z.of_nat (length c.(cbytes)).
Proof.
  unfold parseCidr. cbv zeta.
  destruct (match cut_at SLASH (trim s) with Some (a, p) => (a, Some p) | None => (trim s, None) end) as [addr pfx].
  destruct (parseIpBytes addr) as [b|] eqn:Hb; [|done]. destruct (parseIpBytes_ok _ _ Hb) as [Hl Hf].
  set (prefix := match pfx with None => _ | Some p => _ end).
  assert (∀ n, prefix = Some n → 0 <= n <= 8 * Z.of_nat (length b)) as Hn.
  { unfold prefix. intros n. destruct pfx as [p|]; [|intros [= <-]; lia].
    destruct (len_between 1 3 p && string_forallb is_digit p) eqn:Hd; [|done]. apply andb_true_iff in Hd as [_ Hd].
    destruct (Z.gtb_spec (dec_value 0 p) (8 * Z.of_nat (length b))); [done|]. intros [= <-].
    split; [by apply dec_value_nonneg|done]. }
  clearbody prefix. destruct prefix as [n|]; [|done]. specialize (Hn n eq_refl).
  destruct (isMappedV4 b) eqn:Hm.
  - destruct (Z.ltb_spec n 96); [done|]. intros [= <-]. cbn [cbytes prefixBits].
    unfold isMappedV4 in Hm. apply andb_true_iff in Hm as [Hm _]. apply andb_true_iff in Hm as [Hm _].
    apply Nat.eqb_eq in Hm. rewrite length_drop, Hm. rewrite Hm in Hn. split_and!; [by apply Forall_drop|by left|lia..].
  - intros [= <-]. cbn [cbytes prefixBits]. split_and!; [done|done|lia..].
Qed.

(** The address as a range of [c]'s width compares it. *)
Definition widen (ip : Bytes) (c : Cidr) : Bytes :=
  if Nat.eqb (length ip) 4 && Nat.eqb (length c.(cbytes)) 16 then toMappedV6 ip else ip.

Lemma inCidr_widen ip c : inCidr ip c = inCidr (widen ip c) c.
Proof.
  unfold widen. destruct (Nat.eqb (length ip) 4 && Nat.eqb (length c.(cbytes)) 16) eqn:Hw; [|done].
  unfold inCidr at 1. rewrite Hw. apply andb_true_iff in Hw as [Hl _]. apply Nat.eqb_eq in Hl.
  unfold inCidr. cbv zeta.
  assert (Nat.eqb (length (toMappedV6 ip)) 4 = false) as ->; [|done].
  unfold toMappedV6. rewrite !length_app, Hl. done.
Qed.

Lemma inCidr_length ip c : length (widen ip c) ≠ length c.(cbytes) → inCidr ip c = false.
Proof. intros H. unfold inCidr. cbv zeta. fold (widen ip c). by rewrite (proj2 (Nat.eqb_neq _ _) H). Qed.

Lemma widen_bytes ip c : Forall is_byte ip → Forall is_byte (widen ip c).
Proof.
  intros H. unfold widen. destruct (_ && _); [|done]. unfold toMappedV6. apply Forall_app; split; [by apply Forall_replicate|].
  repeat (apply Forall_cons; split); done.
Qed.

(** A configured proxy range matches exactly the addresses that share its
    prefix: for a range that [parseCidr] accepts and an address that [parseIp]
    yields, [inCidr] is true iff the address, an IPv4 one widened to its mapped
    form against an IPv6 range, has the range's length and the range's first
    [prefixBits] bits.  The byte-and-mask comparison is a comparison of bits. *)
Theorem in_cidr_prefix s c t ip :
  parseCidr s = Some c → parseIp t = Some ip →
  inCidr ip c = true ↔
    length (widen ip c) = length c.(cbytes) ∧
    (∀ i, 0 <= i < c.(prefixBits) → ip_bit (widen ip c) i = ip_bit c.(cbytes) i).
Proof.
  intros Hc Hip. destruct (parseCidr_ok _ _ Hc) as (Hb & _ & Hp). destruct (parseIp_ok _ _ Hip) as [Hi _].
  destruct (decide (length (widen ip c) = length c.(cbytes))) as [Hl|Hl].
  - rewrite inCidr_widen, same_length_cidr; [tauto|by apply widen_bytes|done|done|by rewrite Hl].
  - rewrite inCidr_length by done. naive_solver.
Qed.

Definition c10_8 : Cidr := {| cbytes := [10; 32; 0; 0]; prefixBits := 12 |}.

Lemma in_cidr_prefix_witness :
  parseCidr "10.32.0.0/12" = Some c10_8 ∧ parseIp "::ffff:10.47.0.9" = Some [10; 47; 0; 9] ∧
  (length (widen [10; 47; 0; 9] c10_8) = length c10_8.(cbytes) ∧
   ∀ i, 0 <= i < c10_8.(prefixBits) → ip_bit (widen [10; 47; 0; 9] c10_8) i = ip_bit c10_8.(cbytes) i).
Proof.
  split_and!; [reflexivity..|].
  apply (in_cidr_prefix "10.32.0.0/12" c10_8 "::ffff:10.47.0.9" [10; 47; 0; 9]); reflexivity.
Defined.

(** One address, one key.  Two texts that parse are given the same
    canonical text iff they denote the same address, and that text denotes it
    again: the per-IP buckets and the logs cannot split one host over two
    spellings (mapped, padded, compressed, upper case) nor merge two hosts. *)
Theorem one_address_one_key s s' b b' :
  parseIp s = Some b → parseIp s' = Some b' →
  (canonical s = canonical s' ↔ b = b') ∧ parseIp (canonical s) = Some b ∧ canonical (canonical s) = canonical s.
Proof.
  intros Hs Hs'. pose proof (parse_format b (parseIp_ok _ _ Hs)) as Hb.
  pose proof (parse_format b' (parseIp_ok _ _ Hs')) as Hb'. unfold canonical. rewrite Hs, Hs', Hb.
  split_and!; [|done..]. split; [|by intros ->]. intros Heq. rewrite Heq, Hb' in Hb. by injection Hb.
Qed.

Lemma one_address_one_key_witness :
  (canonical "2001:DB8:0:0:0::1" = canonical "2001:db8::0001" ↔
   [32; 1; 13; 184; 0; 0; 0; 0; 0; 0; 0; 0; 0; 0; 0; 1] = [32; 1; 13; 184; 0; 0; 0; 0; 0; 0; 0; 0; 0; 0; 0; 1]) ∧
  parseIp (canonical "2001:DB8:0:0:0::1") = Some [32; 1; 13; 184; 0; 0; 0; 0; 0; 0; 0; 0; 0; 0; 0; 1] ∧
  canonical (canonical "2001:DB8:0:0:0::1") = canonical "2001:DB8:0:0:0::1".
Proof. apply one_address_one_key; reflexivity. Defined.

(** ** The walk over the forwarded hops *)

Lemma hops_of_app l r : hops_of (l +:+ (sep COMMA +:+ r)) = hops_of l ++ hops_of r.
Proof. unfold hops_of. by rewrite split_on_app, fmap_app, filter_app. Qed.

(** Whether the walk goes past a hop that is not the leftmost. *)
Definition passes (trusted : list Cidr) (h : string) : Prop :=
  match parseIp (stripHopPort h) with Some ip => is_trusted trusted ip = true | None => False end.

Lemma walk_stops trusted peer r2 h l :
  Forall (passes trusted) r2 → ¬ passes trusted h →
  walk trusted peer (r2 ++ h :: l) =
    match parseIp (stripHopPort h) with
    | Some ip => (formatIp ip, None)
    | None => (formatIp peer, Some (unparseable_hop h))
    end.
Proof.
  intros Hr Hh. induction r2 as [|x r2 IH]; simpl.
  - unfold passes in Hh. destruct (parseIp (stripHopPort h)); [|done].
    destruct (is_trusted trusted l0); [by destruct Hh|]. by rewrite orb_true_r.
  - apply Forall_cons in Hr as [Hx Hr]. unfold passes in Hx. destruct (parseIp (stripHopPort x)); [|done].
    rewrite Hx. rewrite bool_decide_eq_false_2 by (by destruct r2). by apply IH.
Qed.

(** Forged hops have no effect.  With a trusted peer, once the hops our
    own proxies appended ([r]) hold one that is not a trusted proxy, the
    rightmost such hop alone decides the address, whatever the client wrote to
    the left of them ([l]); a hop that does not parse falls back to the peer.
    Without a trusted set, or from a peer outside it, the header is ignored. *)
Theorem forged_hops_ignored peerIp l r trusted :
  (trusted = [] ∨ (∀ peer, parseIp peerIp = Some peer → is_trusted trusted peer = false) →
   fst (resolveClientIp peerIp (Some (l +:+ (sep COMMA +:+ r))) trusted) = canonical peerIp) ∧
  (∀ peer r1 h r2,
    parseIp peerIp = Some peer → is_trusted trusted peer = true →
    hops_of r = r1 ++ h :: r2 → Forall (passes trusted) r2 → ¬ passes trusted h →
    resolveClientIp peerIp (Some (l +:+ (sep COMMA +:+ r))) trusted =
      match parseIp (stripHopPort h) with
      | Some ip => (formatIp ip, None)
      | None => (formatIp peer, Some (unparseable_hop h))
      end).
Proof.
  assert (∃ x u, l +:+ (sep COMMA +:+ r) = String x u) as (x & u & Hs) by (destruct l; eauto).
  split.
  - intros Hno. unfold resolveClientIp. rewrite Hs. destruct trusted as [|t ts]; [done|].
    destruct Hno as [|Hno]; [done|]. destruct (parseIp peerIp) as [peer|]; [|done].
    by rewrite (Hno peer eq_refl).
  - intros peer r1 h r2 Hp Ht Hr Hr2 Hh. unfold resolveClientIp.
    destruct trusted as [|t ts]; [done|]. rewrite Hs, Hp, Ht, <-Hs. cbn [negb].
    rewrite hops_of_app, Hr.
    assert (rev (hops_of l ++ r1 ++ h :: r2) = rev r2 ++ h :: rev (hops_of l ++ r1)) as Hrev.
    { rewrite (app_assoc (hops_of l)), rev_app_distr. simpl. by rewrite <-app_assoc. }
    destruct (hops_of l ++ r1 ++ h :: r2) as [|y ys] eqn:Hy; [by destruct (hops_of l), r1|].
    rewrite Hrev. apply walk_stops; [|done]. apply Forall_rev. exact Hr2.
Qed.

Lemma forged_hops_ignored_witness :
  (([c10_8] = [] ∨ (∀ peer, parseIp "192.0.2.1" = Some peer → is_trusted [c10_8] peer = false)) →
   fst (resolveClientIp "192.0.2.1" (Some "1.1.1.1,203.0.113.7:4711, 10.33.0.1"%string) [c10_8]) = canonical "192.0.2.1") ∧
  resolveClientIp "10.32.0.1" (Some ("1.1.1.1" +:+ (sep COMMA +:+ "203.0.113.7:4711, 10.33.0.1"))) [c10_8] =
    ("203.0.113.7"%string, None).
Proof.
  split.
  - apply (proj1 (forged_hops_ignored "192.0.2.1" "1.1.1.1" "203.0.113.7:4711, 10.33.0.1" [c10_8])).
  - apply (proj2 (forged_hops_ignored "10.32.0.1" "1.1.1.1" "203.0.113.7:4711, 10.33.0.1" [c10_8])
      [10; 32; 0; 1] [] "203.0.113.7:4711" ["10.33.0.1"%string]); try reflexivity.
    + constructor; [reflexivity|constructor].
    + vm_compute. discriminate.
Defined.
