(* ===== verification/SocketAdmissions.v ===== *)
(** * SocketAdmissions: the relay's per-IP and global socket caps

    Models [relay/src/socket-admissions.ts].  A socket is admitted before its
    WebSocket upgrade and released on close; [byIp] is the running count per
    client address. *)

From S2P Require Import Prelude JsMap.

Local Open Scope Z_scope.
Local Open Scope js_scope.

Inductive AdmissionRejection := global | ip.

#[export] Instance AdmissionRejection_eq_dec : EqDecision AdmissionRejection.
Proof. solve_decision. Defined.

Record SocketAdmissions := {
  reservations : jsmap string string;
  byIp : jsmap string Z;
}.

(** What [reserve] can do: throw on a duplicate id, reject, or admit. *)
Inductive ReserveResult :=
| DuplicateReservation
| Rejected (why : AdmissionRejection)
| Reserved (s : SocketAdmissions).

Definition initial : SocketAdmissions := {| reservations := JsMap.empty; byIp := JsMap.empty |}.

Section SocketAdmissions.
Context (globalLimit perIpLimit : Z).

Definition reserve (s : SocketAdmissions) (id addr : string) : ReserveResult :=
  if has id s.(reservations) then DuplicateReservation
  else if (get addr s.(byIp) ?| 0) >=? perIpLimit then Rejected ip
  else if size s.(reservations) >=? globalLimit then Rejected global
  else Reserved {|
    reservations := set id addr s.(reservations);
    byIp := set addr ((get addr s.(byIp) ?| 0) + 1) s.(byIp) |}.
End SocketAdmissions.

Definition release (s : SocketAdmissions) (id : string) : SocketAdmissions * bool :=
  match get id s.(reservations) with
  | None => (s, false)
  | Some addr =>
      let count := get addr s.(byIp) ?| 0 in
      ({| reservations := delete id s.(reservations);
          byIp := if count <=? 1 then delete addr s.(byIp)
                  else set addr (count - 1) s.(byIp) |}, true)
  end.

Definition size_ (s : SocketAdmissions) : Z := size s.(reservations).
Definition countForIp (s : SocketAdmissions) (addr : string) : Z := get addr s.(byIp) ?| 0.
Definition clear (s : SocketAdmissions) : SocketAdmissions :=
  {| reservations := JsMap.empty; byIp := JsMap.empty |}.

(** ** The counters are the reservations

    [held s addr] counts the reservations of one address; the invariant says
    that [byIp] holds exactly that number, with no entry at zero. *)
Definition held (m : jsmap string string) (addr : string) : Z :=
  Z.of_nat (length (filter (λ kv, kv.2 = addr) m)).

Record Inv (s : SocketAdmissions) : Prop := {
  inv_reservations : wf s.(reservations);
  inv_byIp_wf : wf s.(byIp);
  inv_byIp : ∀ addr, get addr s.(byIp) =
    if decide (held s.(reservations) addr = 0) then None else Some (held s.(reservations) addr);
}.

Lemma held_app m1 m2 addr : held (m1 ++ m2) addr = held m1 addr + held m2 addr.
Proof. unfold held. rewrite filter_app, length_app. lia. Qed.

Lemma held_single id addr addr' : held [(id, addr)] addr' = if decide (addr = addr') then 1 else 0.
Proof. unfold held. rewrite filter_cons. simpl. by case_decide. Qed.

Lemma held_nonneg m addr : 0 <= held m addr.
Proof. unfold held. lia. Qed.

Lemma held_le_size m addr : held m addr <= size m.
Proof. unfold held, size. pose proof (length_filter (λ kv : string * string, kv.2 = addr) m). lia. Qed.

Lemma inv_count s addr : Inv s → get addr s.(byIp) ?| 0 = held s.(reservations) addr.
Proof. intros [_ _ H]. rewrite H. case_decide; simpl; lia. Qed.

Lemma inv_initial : Inv initial.
Proof. split; [apply wf_empty..|]. intros addr. by rewrite decide_True. Qed.

Lemma held_insert m id addr addr' :
  get id m = None → held (set id addr m) addr' = held m addr' + (if decide (addr = addr') then 1 else 0).
Proof. intros H. by rewrite set_fresh, held_app, held_single. Qed.

Lemma inv_reserve globalLimit perIpLimit s id addr s' :
  Inv s → reserve globalLimit perIpLimit s id addr = Reserved s' → Inv s'.
Proof.
  intros HI. unfold reserve, has.
  destruct (get id s.(reservations)) eqn:Hid; [done|].
  destruct (_ >=? perIpLimit); [done|]. destruct (_ >=? globalLimit); [done|].
  intros [= <-]. rewrite inv_count by done. destruct HI as [H1 H2 H3].
  split; simpl; [auto with js..|]. intros addr'.
  rewrite get_set, held_insert by done.
  pose proof (held_nonneg s.(reservations) addr').
  destruct (decide (addr' = addr)) as [->|Hne].
  - rewrite (decide_True (P := addr = addr)) by done. by rewrite decide_False by lia.
  - rewrite (decide_False (P := addr = addr')) by congruence. rewrite Z.add_0_r. apply H3.
Qed.

Lemma inv_release s id : Inv s → Inv (release s id).1.
Proof.
  intros HI. unfold release. destruct (get id s.(reservations)) as [addr|] eqn:Hid; [|done].
  simpl. rewrite inv_count by done. destruct HI as [H1 H2 H3].
  destruct (get_split _ _ _ H1 Hid) as (m1 & m2 & Hm & _ & _ & Hdel).
  assert (∀ a, held s.(reservations) a =
    held (delete id s.(reservations)) a + (if decide (addr = a) then 1 else 0)) as Hheld.
  { intros a. rewrite Hdel, Hm. rewrite (cons_middle (id, addr)), !held_app, held_single. lia. }
  split; simpl; [auto with js| |].
  - case_match; auto with js.
  - intros a. pose proof (held_nonneg (delete id s.(reservations)) a).
    pose proof (Hheld addr) as Haddr. rewrite decide_True in Haddr by done.
    destruct (decide (a = addr)) as [->|Hne].
    + destruct (Z.leb_spec (held s.(reservations) addr) 1).
      * rewrite get_delete_eq. by rewrite decide_True by lia.
      * rewrite get_set_eq, decide_False by lia. f_equal. lia.
    + specialize (Hheld a). rewrite (decide_False (P := addr = a)), Z.add_0_r in Hheld by congruence.
      rewrite <-Hheld. case_match; [rewrite get_delete_ne by done|rewrite get_set_ne by done]; apply H3.
Qed.

(** ** The caps hold along every run *)

Inductive Op := Reserve (id addr : string) | Release (id : string).

Section run.
Context (globalLimit perIpLimit : Z).

Definition apply_op (s : SocketAdmissions) (o : Op) : SocketAdmissions :=
  match o with
  | Reserve id addr =>
      match reserve globalLimit perIpLimit s id addr with Reserved s' => s' | _ => s end
  | Release id => (release s id).1
  end.

Definition run_ops (ops : list Op) : SocketAdmissions := foldl apply_op initial ops.

Definition Capped (s : SocketAdmissions) : Prop :=
  Inv s ∧ size_ s <= Z.max 0 globalLimit ∧ ∀ addr, countForIp s addr <= Z.max 0 perIpLimit.

Lemma release_count s id addr : Inv s → countForIp (release s id).1 addr <= countForIp s addr.
Proof.
  intros HI. pose proof (inv_release s id HI) as HI'. unfold countForIp.
  rewrite !inv_count by done. unfold release.
  destruct (get id s.(reservations)) eqn:Hid; [|simpl; lia]. simpl.
  unfold held, delete. rewrite list_filter_filter.
  rewrite (list_filter_iff _ (λ kv, kv.1 ≠ id ∧ kv.2 = addr))
    by (intros kv; apply and_comm).
  rewrite <-(list_filter_filter (λ kv, kv.1 ≠ id)).
  pose proof (length_filter (λ kv : string * string, kv.1 ≠ id)
    (filter (λ kv, kv.2 = addr) s.(reservations))). lia.
Qed.

Lemma capped_step s o : Capped s → Capped (apply_op s o).
Proof.
  intros (HI & Hg & Hip). destruct o as [id addr|id]; simpl.
  - destruct (reserve globalLimit perIpLimit s id addr) as [| |s'] eqn:Hr; [done..|].
    pose proof (inv_reserve _ _ _ _ _ _ HI Hr) as HI'. revert Hr. unfold reserve, has.
    destruct (get id s.(reservations)) eqn:Hid; [done|].
    destruct (Z.geb_spec (get addr s.(byIp) ?| 0) perIpLimit); [done|].
    destruct (Z.geb_spec (size s.(reservations)) globalLimit); [done|].
    intros [= <-]. split_and!; [done| |].
    + unfold size_. simpl. pose proof (size_set_le id addr s.(reservations)). lia.
    + intros addr'. unfold countForIp. simpl. rewrite get_set.
      case_decide; simpl; [lia|]. apply Hip.
  - split_and!; [by apply inv_release| |].
    + unfold size_, release in *. destruct (get id s.(reservations)); simpl; [|done].
      pose proof (size_delete_le id s.(reservations)). lia.
    + intros addr. pose proof (release_count s id addr HI). specialize (Hip addr). lia.
Qed.

(** Whatever sequence of admissions and releases the relay processes, it
    never holds more sockets than [maxConnections], never more than
    [rateLimitConnPerIp] from one address, and the per-address counter it
    tests is exactly the number of live reservations of that address. *)
Theorem admission_caps_hold (ops : list Op) (addr : string) :
  size_ (run_ops ops) <= Z.max 0 globalLimit ∧
  countForIp (run_ops ops) addr <= Z.max 0 perIpLimit ∧
  countForIp (run_ops ops) addr = held (run_ops ops).(reservations) addr.
Proof.
  assert (Capped (run_ops ops)) as (HI & Hg & Hip).
  { unfold run_ops. induction ops as [|o l IH] using rev_ind;
      [|rewrite foldl_app; by apply capped_step].
    split_and!; [apply inv_initial|unfold size_, size; simpl; lia|].
    intros a. unfold countForIp. simpl. lia. }
  split_and!; [done..|]. by apply inv_count.
Qed.
End run.
