(* ===== verification/RateLimiter.v ===== *)
(** * RateLimiter: the relay's fixed-window and token-bucket limiters

    Models [relay/src/rate-limiter.ts].  Both limiters keep a [Map] from a key
    to its state and evict entries that no longer matter when the map is at
    capacity; the theorems show that eviction is never a way around a limit.
    The token bucket's JavaScript numbers are modelled as exact rationals. *)

From S2P Require Import Prelude JsMap.
From Stdlib Require Import QArith Qminmax Lqa.

Local Open Scope Z_scope.
Local Open Scope js_scope.

Definition MAX_KEYS : Z := 10000.

(** ** The fixed window *)

Record WindowEntry := { count : Z; windowStart : Z }.

Record MessageRateLimiter := { windows : jsmap string WindowEntry; mLastEvictAt : Z }.

Definition new_windows : MessageRateLimiter := {| windows := JsMap.empty; mLastEvictAt := 0 |}.

Definition evictStale (now : Z) (m : jsmap string WindowEntry) : jsmap string WindowEntry :=
  delete_where (λ _ e, now - e.(windowStart) >=? 1000) m.

(** [!entry || now - entry.windowStart >= 1000] *)
Definition stale (now : Z) (o : option WindowEntry) : bool :=
  match o with None => true | Some e => now - e.(windowStart) >=? 1000 end.

Definition window_allow (maxPerSec now : Z) (key : string) (l : MessageRateLimiter)
  : MessageRateLimiter * bool :=
  let entry := get key l.(windows) in
  if stale now entry then
    let '(ws, ev) :=
      if bool_decide (entry = None) && (size l.(windows) >=? MAX_KEYS) &&
         (now - l.(mLastEvictAt) >=? 1000)
      then (evictStale now l.(windows), now) else (l.(windows), l.(mLastEvictAt)) in
    ({| windows := set key {| count := 1; windowStart := now |} ws; mLastEvictAt := ev |}, true)
  else
    match entry with
    | None => (l, true)
    | Some e =>
        ({| windows := set key {| count := e.(count) + 1; windowStart := e.(windowStart) |} l.(windows);
            mLastEvictAt := l.(mLastEvictAt) |}, e.(count) + 1 <=? maxPerSec)
    end.

(** A call: when, and for which key. *)
Record WCall := { wc_now : Z; wc_key : string }.

(** How many of the calls for [k] are allowed. *)
Fixpoint allowed (maxPerSec : Z) (k : string) (l : MessageRateLimiter) (cs : list WCall) : Z :=
  match cs with
  | [] => 0
  | c :: cs' =>
      let '(l', ok) := window_allow maxPerSec c.(wc_now) c.(wc_key) l in
      (if bool_decide (c.(wc_key) = k) && ok then 1 else 0) + allowed maxPerSec k l' cs'
  end.

Lemma get_evictStale now k m :
  wf m →
  get k (evictStale now m) =
    match get k m with Some e => if now - e.(windowStart) >=? 1000 then None else Some e | None => None end.
Proof. intros. unfold evictStale. by rewrite get_delete_where. Qed.

(** What one call does to the entry of a key: the called key gets a fresh
    window or one more hit, any other key keeps its entry or, when its window
    has elapsed, may lose it. *)
Lemma window_allow_spec maxPerSec now key l :
  wf l.(windows) →
  let '(l', ok) := window_allow maxPerSec now key l in
  wf l'.(windows) ∧
  (stale now (get key l.(windows)) = true →
     ok = true ∧ get key l'.(windows) = Some {| count := 1; windowStart := now |}) ∧
  (∀ e, get key l.(windows) = Some e → stale now (Some e) = false →
     ok = (e.(count) + 1 <=? maxPerSec) ∧
     get key l'.(windows) = Some {| count := e.(count) + 1; windowStart := e.(windowStart) |}) ∧
  (∀ k, k ≠ key → get k l'.(windows) = get k l.(windows) ∨
     (get k l'.(windows) = None ∧ stale now (get k l.(windows)) = true)).
Proof.
  intros Hwf. unfold window_allow. destruct (stale now (get key (windows l))) eqn:Hst.
  - destruct (_ && _ && _).
    + split_and!; cbn [windows]; [apply wf_set; by apply wf_delete_where| | |].
      * intros _. by rewrite get_set_eq.
      * intros e He Hf. rewrite He in Hst. congruence.
      * intros k Hk. rewrite get_set_ne, get_evictStale by done.
        destruct (get k (windows l)) as [e|]; simpl; [|by left].
        destruct (_ >=? 1000); [by right|by left].
    + split_and!; cbn [windows]; [by apply wf_set| | |].
      * intros _. by rewrite get_set_eq.
      * intros e He Hf. rewrite He in Hst. congruence.
      * intros k Hk. rewrite get_set_ne by done. by left.
  - destruct (get key (windows l)) as [e|] eqn:He; [|done].
    split_and!; cbn [windows]; [by apply wf_set|done| |].
    + intros e' [= <-] _. by rewrite get_set_eq.
    + intros k Hk. rewrite get_set_ne by done. by left.
Qed.

Section window_bound.
Context (maxPerSec t : Z) (k : string).

Let cap : Z := Z.max 1 maxPerSec.

(** What the entry of [k] still lets through before [t + 1000]. *)
Definition budget (o : option WindowEntry) : Z :=
  match o with
  | None => cap
  | Some e => Z.max 0 (cap - e.(count)) + (if e.(windowStart) >=? t then 0 else cap)
  end.

Lemma budget_le o : (∀ e, o = Some e → 0 <= e.(count)) → 0 <= budget o <= 2 * cap.
Proof.
  unfold budget. assert (1 <= cap) by (unfold cap; lia).
  destruct o as [e|]; [|lia]. intros Hc. specialize (Hc e eq_refl). case_match; lia.
Qed.

Lemma allowed_budget l cs :
  wf l.(windows) →
  Forall (λ c, t <= c.(wc_now) < t + 1000) cs →
  (∀ e, get k l.(windows) = Some e → 0 <= e.(count)) →
  allowed maxPerSec k l cs <= budget (get k l.(windows)).
Proof.
  assert (1 <= cap) as Hcap by (unfold cap; lia).
  revert l. induction cs as [|[now key] cs IH]; intros l Hwf Hcs Hc.
  { simpl. by apply budget_le. }
  apply Forall_cons in Hcs as [Hnow Hcs]. simpl in Hnow. cbn [allowed wc_now wc_key].
  pose proof (window_allow_spec maxPerSec now key l Hwf) as Hspec.
  destruct (window_allow maxPerSec now key l) as [l' ok]. destruct Hspec as (Hwf' & Hfresh & Hhit & Hother).
  destruct (bool_decide_reflect (key = k)) as [->|Hne]; simpl.
  - destruct (stale now (get k l.(windows))) eqn:Hst.
    + destruct (Hfresh eq_refl) as [-> Hg].
      specialize (IH l' Hwf' Hcs). rewrite Hg in IH.
      specialize (IH ltac:(intros e [= <-]; simpl; lia)). cbn [budget] in IH. simpl in IH.
      rewrite (proj2 (Z.geb_le _ _)) in IH by lia.
      destruct (get k l.(windows)) as [e|] eqn:He; unfold budget; [|lia].
      simpl in Hst. reflect_bools.
      destruct (windowStart e >=? t) eqn:Hw; reflect_bools; try lia.
    + destruct (get k l.(windows)) as [e|] eqn:He; [|done].
      destruct (Hhit e eq_refl Hst) as [Hok Hg]. specialize (Hc e eq_refl).
      specialize (IH l' Hwf' Hcs). rewrite Hg in IH.
      specialize (IH ltac:(intros e' [= <-]; simpl; lia)). unfold budget in IH |- *. simpl in IH.
      destruct ok; [|lia]. symmetry in Hok. apply Z.leb_le in Hok.
      assert (cap = maxPerSec) by (unfold cap; lia). lia.
  - destruct (Hother k ltac:(congruence)) as [Heq|[Hnone Hst]].
    + rewrite <-Heq in Hc |- *. by apply IH.
    + specialize (IH l' Hwf' Hcs). rewrite Hnone in IH. specialize (IH ltac:(done)).
      destruct (get k l.(windows)) as [e|]; [|done]. simpl in Hst. reflect_bools.
      unfold budget in *. destruct (Z.geb_spec (windowStart e) t); lia.
Qed.
End window_bound.

(** A limiter reached from the empty one by some calls. *)
Fixpoint window_run (maxPerSec : Z) (l : MessageRateLimiter) (cs : list WCall) : MessageRateLimiter :=
  match cs with
  | [] => l
  | c :: cs' => window_run maxPerSec (window_allow maxPerSec c.(wc_now) c.(wc_key) l).1 cs'
  end.

Lemma window_run_ok maxPerSec l cs :
  wf l.(windows) → (∀ k e, get k l.(windows) = Some e → 0 <= e.(count)) →
  let l' := window_run maxPerSec l cs in
  wf l'.(windows) ∧ (∀ k e, get k l'.(windows) = Some e → 0 <= e.(count)).
Proof.
  revert l. induction cs as [|[now key] cs IH]; intros l Hwf Hc; [done|]. simpl.
  pose proof (window_allow_spec maxPerSec now key l Hwf) as Hspec.
  destruct (window_allow maxPerSec now key l) as [l' ok]. simpl.
  destruct Hspec as (Hwf' & Hfresh & Hhit & Hother). apply IH; [done|].
  intros k e He. destruct (decide (k = key)) as [->|Hne].
  - destruct (stale now (get key l.(windows))) eqn:Hst.
    + destruct (Hfresh eq_refl) as [_ Hg]. rewrite Hg in He. simplify_eq/=. lia.
    + destruct (get key l.(windows)) as [e0|] eqn:He0; [|done].
      destruct (Hhit e0 eq_refl Hst) as [_ Hg]. rewrite Hg in He. simplify_eq/=.
      specialize (Hc key e0 He0). lia.
  - destruct (Hother k Hne) as [Heq|[Heq _]]; rewrite Heq in He; [by eapply Hc|done].
Qed.

(** ** The token bucket *)

Record Bucket := { tokens : Q; lastRefill : Z }.

Record TokenBucketRateLimiter := { buckets : jsmap string Bucket; tLastEvictAt : Z }.

Definition new_buckets : TokenBucketRateLimiter := {| buckets := JsMap.empty; tLastEvictAt := 0 |}.

Definition Qltb (a b : Q) : bool := negb (Qle_bool b a).
Definition math_min (a b : Q) : Q := if Qle_bool a b then a else b.

Section TokenBucketRateLimiter.
Context (refillPerSec burst : Q).

(** [((now - bucket.lastRefill) / 1000) * this.refillPerSec] *)
Definition refill (now : Z) (b : Bucket) : Q :=
  (inject_Z (now - b.(lastRefill)) / inject_Z 1000 * refillPerSec)%Q.

Definition evictFull (now : Z) (m : jsmap string Bucket) : jsmap string Bucket :=
  delete_where (λ _ b, Qle_bool burst (b.(tokens) + refill now b)) m.

(** The bucket a call works on: created full, or refilled. *)
Definition current (now : Z) (o : option Bucket) : Bucket :=
  match o with
  | None => {| tokens := burst; lastRefill := now |}
  | Some b =>
      if Qltb 0 (refill now b)
      then {| tokens := math_min burst (b.(tokens) + refill now b); lastRefill := now |} else b
  end.

Definition bucket_allow (now : Z) (key : string) (cost : Q) (l : TokenBucketRateLimiter)
  : TokenBucketRateLimiter * bool :=
  let '(bs, ev) :=
    match get key l.(buckets) with
    | None =>
        if (size l.(buckets) >=? MAX_KEYS) && (now - l.(tLastEvictAt) >=? 1000)
        then (evictFull now l.(buckets), now) else (l.(buckets), l.(tLastEvictAt))
    | Some _ => (l.(buckets), l.(tLastEvictAt))
    end in
  let bucket := current now (get key l.(buckets)) in
  if Qltb bucket.(tokens) cost
  then ({| buckets := set key bucket bs; tLastEvictAt := ev |}, false)
  else ({| buckets := set key {| tokens := bucket.(tokens) - cost; lastRefill := bucket.(lastRefill) |} bs;
           tLastEvictAt := ev |}, true).

Definition bucket_remove (key : string) (l : TokenBucketRateLimiter) : TokenBucketRateLimiter :=
  {| buckets := delete key l.(buckets); tLastEvictAt := l.(tLastEvictAt) |}.

Record BCall := { bc_now : Z; bc_key : string; bc_cost : Q }.

(** The total cost allowed to [k] over a run of calls. *)
Fixpoint spent (k : string) (l : TokenBucketRateLimiter) (cs : list BCall) : Q :=
  match cs with
  | [] => 0
  | c :: cs' =>
      let '(l', ok) := bucket_allow c.(bc_now) c.(bc_key) c.(bc_cost) l in
      ((if bool_decide (c.(bc_key) = k) && ok then c.(bc_cost) else 0) + spent k l' cs')%Q
  end.

(** *** The level of a bucket *)

Definition level (now : Z) (o : option Bucket) : Q := (current now o).(tokens).

(** Buckets are never above the burst, below zero, or refilled in the future. *)
Definition sane (now : Z) (o : option Bucket) : Prop :=
  match o with
  | None => True
  | Some b => (0 <= b.(tokens) <= burst)%Q ∧ b.(lastRefill) <= now
  end.

Definition earned (t1 t2 : Z) : Q := (inject_Z (t2 - t1) / inject_Z 1000 * refillPerSec)%Q.

Context (Hrate : (0 <= refillPerSec)%Q) (Hburst : (0 <= burst)%Q).

Lemma Qltb_true a b : Qltb a b = true → (a < b)%Q.
Proof.
  unfold Qltb. intros H%negb_true_iff. apply Qnot_le_lt. intros Hle%Qle_bool_iff. congruence.
Qed.

Lemma Qltb_false a b : Qltb a b = false → (b <= a)%Q.
Proof. unfold Qltb. intros H%negb_false_iff. by apply Qle_bool_iff. Qed.

Lemma math_min_spec a b : (math_min a b <= a ∧ math_min a b <= b ∧ (math_min a b == a ∨ math_min a b == b))%Q.
Proof.
  unfold math_min. destruct (Qle_bool a b) eqn:H.
  - apply Qle_bool_iff in H. split_and!; [apply Qle_refl|done|by left].
  - assert (b < a)%Q as Hlt by (apply Qnot_le_lt; intros Hle%Qle_bool_iff; congruence).
    split_and!; [lra|apply Qle_refl|by right].
Qed.

Lemma earned_nonneg t1 t2 : t1 <= t2 → (0 <= earned t1 t2)%Q.
Proof.
  intros H. unfold earned. apply Qmult_le_0_compat; [|done].
  apply Qle_shift_div_l; [reflexivity|]. rewrite Qmult_0_l.
  change 0%Q with (inject_Z 0). rewrite <-Zle_Qle. lia.
Qed.

Lemma earned_trans t1 t2 t3 : (earned t1 t2 + earned t2 t3 == earned t1 t3)%Q.
Proof.
  unfold earned. replace (t3 - t1) with ((t2 - t1) + (t3 - t2)) by lia.
  rewrite inject_Z_plus. field.
Qed.

Lemma refill_earned now b : refill now b = earned b.(lastRefill) now.
Proof. done. Qed.

(** The level in terms of what was earned since the last refill. *)
Lemma level_spec now b :
  sane now (Some b) →
  (level now (Some b) <= burst)%Q ∧
  (level now (Some b) <= b.(tokens) + earned b.(lastRefill) now)%Q ∧
  (level now (Some b) == burst ∨ level now (Some b) == b.(tokens) + earned b.(lastRefill) now)%Q.
Proof.
  intros [[H0 H1] Ht]. unfold level, current. rewrite refill_earned.
  pose proof (earned_nonneg _ _ Ht).
  destruct (Qltb 0 (earned (lastRefill b) now)) eqn:Hr.
  - cbn [tokens]. pose proof (math_min_spec burst (tokens b + earned (lastRefill b) now)). tauto.
  - apply Qltb_false in Hr. split_and!; [done|lra|right; lra].
Qed.

Lemma level_bounds now o : sane now o → (0 <= level now o <= burst)%Q.
Proof.
  destruct o as [b|]; [|intros _; unfold level; simpl; lra].
  intros Hs. destruct (level_spec now b Hs) as (H1 & H2 & H3). destruct Hs as [[? ?] Ht].
  pose proof (earned_nonneg _ _ Ht). split; [|done]. destruct H3 as [->| ->]; lra.
Qed.

Lemma sane_later t1 t2 o : t1 <= t2 → sane t1 o → sane t2 o.
Proof. intros Ht. destruct o as [b|]; [|done]. simpl. intros [? ?]. split; [done|lia]. Qed.

Lemma level_later t1 t2 o :
  t1 <= t2 → sane t1 o → (level t2 o <= level t1 o + earned t1 t2)%Q.
Proof.
  intros Ht Hs. pose proof (earned_nonneg _ _ Ht). destruct o as [b|]; [|unfold level; simpl; lra].
  destruct (level_spec t1 b Hs) as (_ & _ & H1).
  destruct (level_spec t2 b (sane_later _ _ _ Ht Hs)) as (H2 & H3 & _).
  pose proof (earned_trans b.(lastRefill) t1 t2). destruct H1 as [H1|H1]; lra.
Qed.

Lemma sane_current now o : sane now o → sane now (Some (current now o)).
Proof.
  intros Hs. pose proof (level_bounds now o Hs) as Hl. unfold level in Hl.
  split; [done|]. destruct o as [b|]; simpl; [|lia].
  destruct (Qltb _ _); simpl; [lia|apply Hs].
Qed.

Lemma earned_current now o : sane now o → (earned (current now o).(lastRefill) now <= 0)%Q.
Proof.
  assert (earned now now <= 0)%Q as Hz.
  { unfold earned. rewrite Z.sub_diag. change (inject_Z 0) with 0%Q.
    unfold Qdiv. rewrite !Qmult_0_l. apply Qle_refl. }
  intros Hs. destruct o as [b|]; [|done]. unfold current.
  destruct (Qltb 0 (refill now b)) eqn:Hr; [done|]. apply Qltb_false in Hr. by rewrite <-refill_earned.
Qed.

Lemma get_evictFull now k m :
  wf m → get k (evictFull now m) =
    match get k m with
    | Some b => if Qle_bool burst (b.(tokens) + refill now b) then None else Some b
    | None => None end.
Proof. intros. unfold evictFull. by rewrite get_delete_where. Qed.

(** Evicting an idle bucket does not change what its key may still spend. *)
Lemma level_evicted now b :
  sane now (Some b) → Qle_bool burst (b.(tokens) + refill now b) = true →
  (level now None <= level now (Some b))%Q.
Proof.
  intros Hs Hle%Qle_bool_iff. rewrite refill_earned in Hle.
  destruct (level_spec now b Hs) as (_ & _ & [->|Heq]); unfold level at 1; simpl; lra.
Qed.

(** One call, seen from any key [k]. *)
Lemma bucket_allow_spec now key cost l k :
  wf l.(buckets) → (∀ k, sane now (get k l.(buckets))) → (0 <= cost)%Q →
  let '(l', ok) := bucket_allow now key cost l in
  let paid := (if bool_decide (key = k) && ok then cost else 0)%Q in
  wf l'.(buckets) ∧ sane now (get k l'.(buckets)) ∧
  (paid + level now (get k l'.(buckets)) <= level now (get k l.(buckets)))%Q.
Proof.
  intros Hwf Hs Hc. unfold bucket_allow.
  destruct (match get key (buckets l) with Some _ => _ | None => _ end) as [bs ev] eqn:Hbs.
  assert (wf bs ∧ (get k bs = get k l.(buckets) ∨ get k bs = None ∧
    (level now None <= level now (get k l.(buckets)))%Q)) as [Hwf' Hk].
  { revert Hbs. destruct (get key (buckets l)); [by intros [= <- <-]; split; [|left]|].
    destruct (_ && _); intros [= <- <-]; [|by split; [|left]].
    split; [by apply wf_delete_where|]. rewrite get_evictFull by done.
    specialize (Hs k). destruct (get k (buckets l)) as [b|]; [|by left].
    destruct (Qle_bool burst _) eqn:Hf; [|by left]. right. split; [done|]. by apply level_evicted. }
  pose proof (sane_current now _ (Hs key)) as Hcur. pose proof (earned_current now _ (Hs key)) as He.
  set (b := current now (get key (buckets l))) in *.
  assert (∀ b' bp, bp = b' → k ≠ key → let m := set key bp bs in
    sane now (get k m) ∧ (0 + level now (get k m) <= level now (get k (buckets l)))%Q) as Hother.
  { intros b' bp _ Hne. cbn zeta. rewrite get_set_ne by done.
    destruct Hk as [->|[-> Hk]]; split; [by apply Hs|rewrite Qplus_0_l; apply Qle_refl|done|].
    by rewrite Qplus_0_l. }
  destruct (Qltb (tokens b) cost) eqn:Hlt; cbn [buckets].
  - split; [by apply wf_set|]. rewrite andb_false_r. destruct (decide (k = key)) as [->|Hne].
    + rewrite get_set_eq. split; [done|].
      destruct (level_spec now b Hcur) as (_ & H2 & _). unfold level at 2. fold b. lra.
    + by apply (Hother b b).
  - apply Qltb_false in Hlt. split; [by apply wf_set|]. rewrite andb_true_r.
    destruct (decide (k = key)) as [->|Hne].
    + rewrite bool_decide_true, get_set_eq by done.
      set (b2 := {| tokens := tokens b - cost; lastRefill := lastRefill b |}).
      assert (sane now (Some b2)) as Hs2.
      { destruct Hcur as [[? ?] ?]. unfold b2. simpl. split; [|done]. lra. }
      split; [done|]. destruct (level_spec now b2 Hs2) as (_ & H2 & _).
      unfold level at 2. fold b. unfold b2 in H2 at 2 3. cbn [tokens lastRefill] in H2.
      fold b2. lra.
    + rewrite bool_decide_false by congruence. by eapply Hother.
Qed.

(** Calls in the order of time, none before [now]. *)
Fixpoint timed (now : Z) (cs : list BCall) : Prop :=
  match cs with
  | [] => True
  | c :: cs' => now <= c.(bc_now) ∧ (0 <= c.(bc_cost))%Q ∧ timed c.(bc_now) cs'
  end.

Definition finish (now : Z) (cs : list BCall) : Z := default now (bc_now <$> last cs).

Lemma finish_cons now c cs : finish now (c :: cs) = finish c.(bc_now) cs.
Proof. unfold finish. destruct cs as [|c' cs]; [done|]. rewrite last_cons_cons. by destruct (last (c' :: cs)) eqn:E; [|apply last_None in E]. Qed.

Lemma spent_bound k now l cs :
  wf l.(buckets) → (∀ k, sane now (get k l.(buckets))) → timed now cs →
  (spent k l cs <= level now (get k l.(buckets)) + earned now (finish now cs))%Q.
Proof.
  revert now l. induction cs as [|[t key cost] cs IH]; intros now l Hwf Hs.
  { intros _. simpl. pose proof (level_bounds now _ (Hs k)).
    pose proof (earned_nonneg now (finish now [])). unfold finish in *. simpl in *.
    specialize (H0 ltac:(lia)). lra. }
  cbn [timed bc_now bc_cost]. intros (Ht & Hc & Hcs). rewrite finish_cons. cbn [spent bc_now bc_key bc_cost].
  assert (∀ k, sane t (get k l.(buckets))) as Hs' by (intros; by eapply sane_later).
  pose proof (λ k, bucket_allow_spec t key cost l k Hwf Hs' Hc) as Hspec.
  destruct (bucket_allow t key cost l) as [l' ok].
  destruct (Hspec k) as (Hwf' & _ & Hpaid).
  specialize (IH t l' Hwf' ltac:(intros k'; apply Hspec) Hcs).
  pose proof (level_later now t _ Ht (Hs k)). pose proof (earned_trans now t (finish t cs)). lra.
Qed.
End TokenBucketRateLimiter.

(** ** The properties *)

(** A token bucket never lets one key through faster than its rate: over
    any run of calls in time order starting from an empty limiter, and whatever
    other keys are used and evicted in between, the cost allowed to a key is at
    most the burst plus the refill of the elapsed time. *)
Theorem token_bucket_rate (refillPerSec burst : Q) (k : string) (now : Z) (cs : list BCall) :
  (0 <= refillPerSec)%Q → (0 <= burst)%Q → timed now cs →
  (spent refillPerSec burst k new_buckets cs <= burst + earned refillPerSec now (finish now cs))%Q.
Proof.
  intros Hr Hb Ht.
  pose proof (spent_bound refillPerSec burst Hr Hb k now new_buckets cs wf_empty (λ _, I) Ht) as H.
  exact H.
Qed.

(** Whatever a relay's push limiter has seen before, the pushes it allows
    one key in any 1000 ms number at most twice [max 1 maxPerSec]: two
    consecutive windows, never more, evictions included. *)
Theorem window_rate (maxPerSec t : Z) (k : string) (before cs : list WCall) :
  Forall (λ c, t <= c.(wc_now) < t + 1000) cs →
  allowed maxPerSec k (window_run maxPerSec new_windows before) cs <= 2 * Z.max 1 maxPerSec.
Proof.
  intros Hcs. destruct (window_run_ok maxPerSec new_windows before wf_empty) as [Hwf Hc]; [done|].
  etrans; [apply (allowed_budget maxPerSec t); [done..|apply Hc]|].
  apply budget_le. apply Hc.
Qed.

Lemma token_bucket_rate_witness :
  let cs := [ {| bc_now := 0; bc_key := "c1"; bc_cost := 2 |}; {| bc_now := 500; bc_key := "c1"; bc_cost := 2 |};
              {| bc_now := 2000; bc_key := "c1"; bc_cost := 2 |} ] in
  (spent 1 2 "c1" new_buckets cs == 4)%Q ∧ (spent 1 2 "c1" new_buckets cs <= 2 + earned 1 0 2000)%Q.
Proof.
  split; [vm_compute; reflexivity|].
  apply (token_bucket_rate 1 2 "c1" 0); [vm_compute; discriminate..|].
  simpl. repeat split; vm_compute; discriminate.
Defined.

Lemma window_rate_witness :
  let c t := {| wc_now := t; wc_key := "push:a" |} in
  allowed 1 "push:a" (window_run 1 new_windows [c 100]) [c 1050; c 1100; c 1200; c 2000] = 1 ∧
  allowed 1 "push:a" (window_run 1 new_windows [c 100]) [c 1050; c 1100; c 1200; c 2000] <= 2.
Proof.
  split; [vm_compute; reflexivity|].
  apply (window_rate 1 1050 "push:a"). repeat constructor; simpl; lia.
Defined.
