(* ===== verification/ReplayCache.v ===== *)
(** * ReplayCache: hello nonces already seen

    Models [relay/src/replay-cache.ts].  [seen] maps a (device, nonce) key to
    the time it was accepted; a [Map] keeps insertion order, and [checkAndRecord]
    re-inserts, so that order is the order of age: the overflow eviction and the
    sweep both rely on it. *)

From S2P Require Import Prelude JsMap.

Local Open Scope Z_scope.

Definition DEFAULT_MAX_ENTRIES : Z := 50000.

Definition space : Ascii.ascii := Ascii.ascii_of_N 32.

(** [`${deviceId} ${nonce}`] *)
Definition replayKey (deviceId nonce : string) : string := deviceId +:+ (sep space +:+ nonce).

Abbreviation Seen := (jsmap string Z).

Section ReplayCache.
Context (ttlMs maxEntries : Z).

Definition checkAndRecord (now : Z) (deviceId nonce : string) (seen : Seen) : Seen * bool :=
  let key := replayKey deviceId nonce in
  let live := match get key seen with Some prev => now - prev <? ttlMs | None => false end in
  if live then (seen, false)
  else
    let seen1 := delete key seen in
    let seen2 :=
      if size seen1 >=? maxEntries then
        match oldest seen1 with Some k => delete k seen1 | None => seen1 end
      else seen1 in
    (set key now seen2, true).

(** The sweep walks the map in order and stops at the first live entry. *)
Fixpoint sweep_entries (cutoff : Z) (seen : Seen) : Seen :=
  match seen with
  | [] => []
  | (k, ts) :: rest => if ts <? cutoff then sweep_entries cutoff rest else (k, ts) :: rest
  end.

Definition sweep (now : Z) (seen : Seen) : Seen := sweep_entries (now - ttlMs) seen.

(** What happens to a cache: a hello is checked, or the timer sweeps. *)
Inductive ROp :=
| RCheck (now : Z) (deviceId nonce : string)
| RSweep (now : Z).

Definition r_step (seen : Seen) (o : ROp) : Seen * bool :=
  match o with
  | RCheck now d n => checkAndRecord now d n seen
  | RSweep now => (sweep now seen, false)
  end.

Definition r_time (o : ROp) : Z := match o with RCheck now _ _ => now | RSweep now => now end.

Fixpoint r_run (seen : Seen) (ops : list ROp) : Seen :=
  match ops with [] => seen | o :: ops' => r_run (r_step seen o).1 ops' end.

(** How many checks of a run are accepted. *)
Fixpoint accepted (seen : Seen) (ops : list ROp) : Z :=
  match ops with
  | [] => 0
  | o :: ops' => (if (r_step seen o).2 then 1 else 0) + accepted (r_step seen o).1 ops'
  end.

(** The clock only goes forward. *)
Fixpoint forward (now : Z) (ops : list ROp) : Prop :=
  match ops with [] => True | o :: ops' => now <= r_time o ∧ forward (r_time o) ops' end.

(** *** Keys *)

Lemma replayKey_inj d1 n1 d2 n2 :
  lacks space d1 = true → lacks space d2 = true →
  replayKey d1 n1 = replayKey d2 n2 → d1 = d2 ∧ n1 = n2.
Proof. apply join_inj. Qed.

(** *** Insertion order is age order *)

Fixpoint aged (m : Seen) : Prop :=
  match m with
  | [] => True
  | (_, ts) :: m' => (∀ k' ts', (k', ts') ∈ m' → ts <= ts') ∧ aged m'
  end.

Definition Ok (now : Z) (seen : Seen) : Prop :=
  wf seen ∧ aged seen ∧ ∀ k ts, (k, ts) ∈ seen → ts <= now.

Lemma aged_sublist m1 m2 : sublist m1 m2 → aged m2 → aged m1.
Proof.
  induction 1 as [|[k ts] m1 m2 Hs IH|[k ts] m1 m2 Hs IH]; simpl; [done| |].
  - intros [H1 H2]. split; [|by apply IH]. intros k' ts' Hin. eapply H1.
    by eapply elem_of_sublist.
  - intros [_ H2]. by apply IH.
Qed.

Lemma ok_sublist now m1 m2 : sublist m1 m2 → Ok now m2 → Ok now m1.
Proof.
  intros Hs (H1 & H2 & H3). split_and!.
  - unfold wf, keys in *. eapply sublist_NoDup; [exact H1|by apply fmap_sublist].
  - by eapply aged_sublist.
  - intros k ts Hin. eapply H3, elem_of_sublist; done.
Qed.

Lemma aged_snoc m k ts : aged m → (∀ k' ts', (k', ts') ∈ m → ts' <= ts) → aged (m ++ [(k, ts)]).
Proof.
  induction m as [|[k0 ts0] m IH]; simpl.
  - intros _ _. split; [|done]. by intros ? ? ?%not_elem_of_nil.
  - intros [H1 H2] H. split.
    + intros k' ts' [Hin|Heq%list_elem_of_singleton]%elem_of_app; [by eapply H1|].
      simplify_eq. apply (H k0). left.
    + apply IH; [done|]. intros k' ts' Hin. apply (H k'). by right.
Qed.

Lemma ok_later t1 t2 seen : t1 <= t2 → Ok t1 seen → Ok t2 seen.
Proof. intros Ht (H1 & H2 & H3). split_and!; [done..|]. intros k ts Hin%H3. lia. Qed.

(** What an accepted check does: the key goes to the tail, the rest of the map
    loses at most its head, and only when the map is full. *)
Definition trimmed (key : string) (seen : Seen) : Seen :=
  let seen1 := delete key seen in if size seen1 >=? maxEntries then tail seen1 else seen1.

Lemma check_spec now d n seen :
  wf seen →
  checkAndRecord now d n seen =
    let key := replayKey d n in
    if match get key seen with Some prev => now - prev <? ttlMs | None => false end
    then (seen, false) else (trimmed key seen ++ [(key, now)], true).
Proof.
  intros Hwf. unfold checkAndRecord, trimmed. cbn zeta. set (key := replayKey d n).
  destruct (match get key seen with Some _ => _ | None => _ end); [done|]. f_equal.
  pose proof (wf_delete key seen Hwf) as Hwf1. pose proof (get_delete_eq key seen) as Hget.
  destruct (size (delete key seen) >=? maxEntries); [|by rewrite set_fresh].
  destruct (delete key seen) as [|[k0 ts0] m] eqn:Hd; [done|].
  unfold oldest. simpl.
  assert (delete k0 ((k0, ts0) :: m) = m) as -> by (by apply (delete_split k0 ts0 [] m)).
  apply set_fresh. simpl in Hget. by destruct (decide (key = k0)).
Qed.

Lemma trimmed_sublist key seen : sublist (trimmed key seen) seen.
Proof.
  unfold trimmed. assert (sublist (delete key seen) seen) by apply sublist_filter.
  destruct (_ >=? _); [|done]. etrans; [|done]. destruct (delete key seen); simpl; by repeat constructor.
Qed.

Lemma sweep_sublist cutoff seen : sublist (sweep_entries cutoff seen) seen.
Proof.
  induction seen as [|[k ts] m IH]; simpl; [constructor|].
  case_match; [by constructor|done].
Qed.

Lemma trimmed_fresh key seen : key ∉ keys (trimmed key seen).
Proof.
  assert (key ∉ keys (delete key seen)) as H.
  { apply get_None_keys, get_delete_eq. }
  intros Hin. apply H. revert Hin. unfold trimmed. destruct (_ >=? _); [|done].
  destruct (delete key seen); simpl; [done|]. intros. by right.
Qed.

Lemma ok_step t seen o : Ok t seen → t <= r_time o → Ok (r_time o) (r_step seen o).1.
Proof.
  intros HO Ht. apply (ok_later _ (r_time o)) in HO; [|done]. destruct o as [now d n|now]; simpl in *.
  - rewrite check_spec by apply HO. cbn zeta.
    destruct (match get _ seen with Some _ => _ | None => _ end); [done|]. simpl.
    pose proof (ok_sublist _ _ _ (trimmed_sublist (replayKey d n) seen) HO) as (H1 & H2 & H3).
    split_and!.
    + unfold wf, keys. rewrite fmap_app. apply NoDup_app. split_and!; [done| |apply NoDup_singleton].
      intros x Hx ->%list_elem_of_singleton. by apply (trimmed_fresh (replayKey d n) seen).
    + by apply aged_snoc.
    + intros k ts [Hin|Heq%list_elem_of_singleton]%elem_of_app; [by eapply H3|simplify_eq; lia].
  - eapply ok_sublist; [apply sweep_sublist|done].
Qed.

Lemma ok_empty t : Ok t [].
Proof. split_and!; [apply wf_empty|done|]. by intros ? ? ?%not_elem_of_nil. Qed.
Lemma run_ok t seen ops : Ok t seen → forward t ops → ∃ t', Ok t' (r_run seen ops).
Proof.
  revert t seen. induction ops as [|o ops IH]; intros t seen HO Hf; [by exists t|].
  destruct Hf as [Ht Hf]. simpl. eapply IH; [|exact Hf]. by eapply ok_step.
Qed.

(** *** A recorded pair stays recorded

    [recent key t seen n]: the key is recorded at time [t] and at most [n]
    entries came after it. *)
Definition recent (key : string) (t : Z) (seen : Seen) (n : Z) : Prop :=
  ∃ m1 m2, seen = m1 ++ (key, t) :: m2 ∧ size m2 <= n.

Lemma recent_get key t seen n : wf seen → recent key t seen n → get key seen = Some t.
Proof.
  intros Hwf (m1 & m2 & -> & _). apply elem_get_Some; [done|]. apply elem_of_the_middle.
Qed.

Lemma recent_sweep key t seen n cutoff :
  cutoff <= t → aged seen → recent key t seen n → recent key t (sweep_entries cutoff seen) n.
Proof.
  intros Hc. induction seen as [|[k ts] seen IH]; intros Ha Hr.
  { destruct Hr as ([|] & ? & ? & _); done. }
  destruct Hr as (m1 & m2 & Hm & Hn). destruct Ha as [Ha1 Ha2]. simpl.
  destruct (Z.ltb_spec ts cutoff); [|by exists m1, m2].
  destruct m1 as [|x m1]; simplify_eq/=; [lia|]. apply IH; [done|]. by exists m1, m2.
Qed.

Lemma recent_trimmed key key' t seen n :
  key' ≠ key → n + 1 < maxEntries → recent key t seen n → recent key t (trimmed key' seen) n.
Proof.
  intros Hne Hn (m1 & m2 & -> & Hm2). unfold trimmed. cbn zeta.
  assert (delete key' (m1 ++ (key, t) :: m2) = delete key' m1 ++ (key, t) :: delete key' m2) as ->.
  { unfold delete. rewrite filter_app, filter_cons_True; [done|]. simpl. congruence. }
  pose proof (size_delete_le key' m2).
  destruct (Z.geb_spec (size (delete key' m1 ++ (key, t) :: delete key' m2)) maxEntries) as [Hs|].
  - destruct (delete key' m1) as [|x l] eqn:Hd.
    + unfold size in *. simpl in *. lia.
    + exists l, (delete key' m2). split; [done|lia].
  - exists (delete key' m1), (delete key' m2). split; [done|lia].
Qed.

Lemma recent_step t now key seen n o :
  0 < ttlMs → n + 1 < maxEntries → t <= now < t + ttlMs → now = r_time o → Ok now seen →
  recent key t seen n →
  recent key t (r_step seen o).1 (n + if (r_step seen o).2 then 1 else 0).
Proof.
  intros Httl Hn Ht -> HO Hr. pose proof HO as (Hwf & Ha & _).
  destruct o as [now d nonce|now]; simpl in *.
  - rewrite check_spec by done. cbn zeta.
    destruct (decide (replayKey d nonce = key)) as [Hk|Hk].
    + rewrite Hk, (recent_get key t seen n Hwf Hr).
      rewrite (proj2 (Z.ltb_lt _ _)) by lia. simpl. by rewrite Z.add_0_r.
    + destruct (match get _ seen with Some _ => _ | None => _ end); simpl; [by rewrite Z.add_0_r|].
      destruct (recent_trimmed key (replayKey d nonce) t seen n Hk Hn Hr) as (m1 & m2 & -> & Hm2).
      exists m1, (m2 ++ [(replayKey d nonce, now)]). split; [by rewrite <-app_assoc|].
      unfold size in *. rewrite length_app. simpl. lia.
  - rewrite Z.add_0_r. apply recent_sweep; [lia|done..].
Qed.

Lemma accepted_nonneg seen ops : 0 <= accepted seen ops.
Proof. revert seen. induction ops as [|o ops IH]; intros seen; simpl; [lia|]. specialize (IH (r_step seen o).1). case_match; lia. Qed.

Lemma recent_run t now key seen n ops :
  0 < ttlMs → n + accepted seen ops < maxEntries → Ok now seen → t <= now → forward now ops →
  Forall (λ o, r_time o < t + ttlMs) ops → recent key t seen n →
  recent key t (r_run seen ops) (n + accepted seen ops) ∧ wf (r_run seen ops).
Proof.
  intros Httl. revert now seen n. induction ops as [|o ops IH]; intros now seen n Hn HO Ht Hf Hall Hr.
  { simpl. rewrite Z.add_0_r. split; [done|apply HO]. }
  destruct Hf as [Hf1 Hf2]. apply Forall_cons in Hall as [Ho Hall]. simpl in *.
  pose proof (accepted_nonneg (r_step seen o).1 ops).
  assert (recent key t (r_step seen o).1 (n + if (r_step seen o).2 then 1 else 0)) as Hr'.
  { destruct (decide (n + 1 < maxEntries)) as [Hlt|Hge].
    - eapply (recent_step t (r_time o)); try done; [lia|]. by eapply ok_later.
    - assert ((r_step seen o).2 = false) as Hrej by (destruct (r_step seen o).2; [lia|done]).
      rewrite Hrej, Z.add_0_r. pose proof HO as (Hwf & Ha & _). destruct o as [u d nn|u]; simpl in *.
      + rewrite check_spec in Hrej |- * by done. cbn zeta in *. by case_match.
      + apply recent_sweep; [lia|done..]. }
  rewrite Z.add_assoc. apply (IH (r_time o)); [lia| |lia|done..].
  by apply (ok_step now).
Qed.
End ReplayCache.

(** ** The properties *)

(** A (device, nonce) pair the cache accepted at [t] is refused for the
    whole [ttlMs] that follows, whatever other hellos are checked and whenever
    the sweep runs, unless [maxEntries] other pairs were accepted meanwhile
    (only then can capacity push it out).  The checks are those of any cache
    reached from the empty one. *)
Theorem replay_refused (ttlMs maxEntries : Z) (before during : list ROp) (d n : string) (t0 t now : Z) :
  0 < ttlMs → forward t0 (before ++ RCheck t d n :: during ++ [RCheck now d n]) →
  let seen := r_run ttlMs maxEntries [] before in
  (checkAndRecord ttlMs maxEntries t d n seen).2 = true →
  let seen1 := (checkAndRecord ttlMs maxEntries t d n seen).1 in
  accepted ttlMs maxEntries seen1 during < maxEntries →
  now < t + ttlMs →
  (checkAndRecord ttlMs maxEntries now d n (r_run ttlMs maxEntries seen1 during)).2 = false.
Proof.
  intros Httl Hf. cbn zeta.
  assert (∃ t1, t1 <= t ∧ Ok t1 (r_run ttlMs maxEntries [] before) ∧
    forward t (during ++ [RCheck now d n])) as (t1 & Ht1 & HO & Hd).
  { revert Hf. generalize (ok_empty t0). generalize (@nil (string * Z)). revert t0.
    induction before as [|o before IH]; intros t0 m Hm [H1 H2]; [by exists t0|].
    simpl. eapply IH; [|exact H2]. by eapply ok_step. }
  set (seen := r_run _ _ [] before) in *. intros Hacc Hcap Hnow.
  pose proof (ok_later _ _ _ Ht1 HO) as HO1.
  pose proof (ok_step ttlMs maxEntries t seen (RCheck t d n) HO1 ltac:(simpl; lia)) as HO2.
  simpl in HO2. rewrite (check_spec ttlMs maxEntries t d n seen (proj1 HO1)) in *. cbn zeta in *.
  destruct (match get _ seen with Some _ => _ | None => _ end); [done|]. cbn [fst snd] in *.
  set (key := replayKey d n) in *. set (seen1 := trimmed maxEntries key seen ++ [(key, t)]) in *.
  assert (forward t during ∧ Forall (λ o, r_time o < t + ttlMs) during) as [Hd1 Hd2].
  { revert Hd Hnow. generalize t at 1 3 as u. clear. induction during as [|o during IH]; intros u.
    - done.
    - simpl. intros [H1 H2] Hnow. destruct (IH _ H2 Hnow) as [IH1 IH2]. split; [done|].
      constructor; [|done]. clear -H2 Hnow. revert H2. generalize (r_time o) as v. intros v Hv.
      enough (v <= now) by lia. clear Hnow. revert v Hv. induction during as [|o' l IH]; intros v; simpl.
      + by intros [? _].
      + intros [? ?%IH]. lia. }
  destruct (recent_run ttlMs maxEntries t t key seen1 0 during) as [Hr Hwf]; try done.
  { exists (trimmed maxEntries key seen), []. done. }
  apply recent_get in Hr; [|done]. unfold checkAndRecord, key in *. cbn zeta. rewrite Hr.
  by rewrite (proj2 (Z.ltb_lt _ _)) by lia.
Qed.

(** The sweep, which stops at the first live entry, forgets exactly the
    pairs older than [ttlMs], since insertion order is age order; and the cache
    never holds more than [maxEntries] pairs. *)
Theorem sweep_exact (ttlMs maxEntries : Z) (ops : list ROp) (t0 now : Z) :
  forward t0 ops → 1 <= maxEntries →
  let seen := r_run ttlMs maxEntries [] ops in
  sweep ttlMs now seen = filter (λ e, now - ttlMs <= e.2) seen ∧ size seen <= maxEntries.
Proof.
  intros Hf Hmax. cbn zeta. split.
  - destruct (run_ok ttlMs maxEntries t0 [] ops (ok_empty t0) Hf) as (t & _ & Ha & _).
    unfold sweep. induction (r_run ttlMs maxEntries [] ops) as [|[k ts] m IH]; [done|].
    destruct Ha as [Ha1 Ha2]. simpl sweep_entries. rewrite filter_cons. simpl.
    destruct (Z.ltb_spec ts (now - ttlMs)).
    + rewrite decide_False by lia. by apply IH.
    + rewrite decide_True by lia. f_equal. symmetry. apply filter_all.
      intros [k' ts'] Hin%Ha1. simpl. lia.
  - assert (∀ seen, wf seen → size seen <= maxEntries →
      wf (r_run ttlMs maxEntries seen ops) ∧ size (r_run ttlMs maxEntries seen ops) <= maxEntries) as H.
    { clear Hf. induction ops as [|o ops IH]; intros seen Hwf Hs; [done|]. simpl.
      destruct o as [u d n|u]; simpl.
      - assert (wf (checkAndRecord ttlMs maxEntries u d n seen).1) as Hwf'.
        { unfold checkAndRecord. cbn zeta. repeat case_match; simpl; auto with js. }
        apply IH; [done|]. rewrite check_spec by done. cbn zeta.
        destruct (match get _ seen with Some _ => _ | None => _ end); [done|]. simpl.
        unfold trimmed. cbn zeta. pose proof (size_delete_le (replayKey d n) seen).
        destruct (Z.geb_spec (size (delete (replayKey d n) seen)) maxEntries);
          unfold size in *; rewrite length_app; simpl; [|lia].
        destruct (delete (replayKey d n) seen); simpl in *; lia.
      - pose proof (sweep_sublist (u - ttlMs) seen) as Hsub. apply IH.
        + unfold wf, keys. eapply sublist_NoDup; [exact Hwf|by apply fmap_sublist].
        + apply sublist_length in Hsub. unfold size, sweep in *. lia. }
    apply H; [apply wf_empty|unfold size; simpl; lia].
Qed.

(** The same signed hello is never admitted twice while its timestamp is
    inside the clock window, provided the retention is longer than the whole
    window [2 * clockSkewMs]. *)
Theorem hello_replay_window (ttlMs maxEntries clockSkewMs ts : Z) (d n : string) (seen : Seen)
    (during : list ROp) (t now : Z) :
  0 <= clockSkewMs → 2 * clockSkewMs < ttlMs → wf seen → aged seen →
  (∀ k u, (k, u) ∈ seen → u <= t) →
  Z.abs (t - ts) <= clockSkewMs → Z.abs (now - ts) <= clockSkewMs →
  (checkAndRecord ttlMs maxEntries t d n seen).2 = true →
  let seen1 := (checkAndRecord ttlMs maxEntries t d n seen).1 in
  forward t during → Forall (λ o, r_time o <= now) during →
  accepted ttlMs maxEntries seen1 during < maxEntries →
  (checkAndRecord ttlMs maxEntries now d n (r_run ttlMs maxEntries seen1 during)).2 = false.
Proof.
  intros Hskew Httl Hwf Ha Hle Ht Hnow Hacc. cbn zeta. intros Hf Hall Hcap.
  assert (Ok t seen) as HO by done.
  pose proof (ok_step ttlMs maxEntries t seen (RCheck t d n) HO ltac:(simpl; lia)) as HO2.
  simpl in HO2. rewrite (check_spec ttlMs maxEntries t d n seen Hwf) in *. cbn zeta in *.
  destruct (match get _ seen with Some _ => _ | None => _ end); [done|]. cbn [fst snd] in *.
  set (key := replayKey d n) in *. set (seen1 := trimmed maxEntries key seen ++ [(key, t)]) in *.
  destruct (recent_run ttlMs maxEntries t t key seen1 0 during) as [Hr Hwf']; try done; try lia.
  { eapply Forall_impl; [exact Hall|]. simpl. intros o Ho. lia. }
  { exists (trimmed maxEntries key seen), []. done. }
  apply recent_get in Hr; [|done]. unfold checkAndRecord, key in *. cbn zeta. rewrite Hr.
  by rewrite (proj2 (Z.ltb_lt _ _)) by lia.
Qed.

(** With a retention of exactly [2 * clockSkewMs], which the configuration
    accepts, the bound is strict at both ends: a hello captured when its
    timestamp was [clockSkewMs] ahead is accepted again [2 * clockSkewMs] later,
    still inside the clock window. *)
Lemma replay_boundary (clockSkewMs ts : Z) (d n : string) (maxEntries : Z) :
  0 < clockSkewMs →
  let t := ts - clockSkewMs in
  let now := ts + clockSkewMs in
  let ttl := 2 * clockSkewMs in
  let seen1 := (checkAndRecord ttl maxEntries t d n []).1 in
  Z.abs (t - ts) <= clockSkewMs ∧ Z.abs (now - ts) <= clockSkewMs ∧
  (checkAndRecord ttl maxEntries t d n []).2 = true ∧
  (checkAndRecord ttl maxEntries now d n seen1).2 = true.
Proof.
  intros Hc. cbn zeta. split_and!; [lia..| |].
  - by rewrite check_spec by apply wf_empty.
  - assert ((checkAndRecord (2 * clockSkewMs) maxEntries (ts - clockSkewMs) d n []).1 =
      [(replayKey d n, ts - clockSkewMs)]) as ->.
    { rewrite check_spec by apply wf_empty. cbn. unfold trimmed. cbn zeta. by case_match. }
    rewrite check_spec by apply NoDup_singleton. cbn zeta. cbn [get].
    rewrite decide_True by done. by rewrite (proj2 (Z.ltb_ge _ _)) by lia.
Qed.

Lemma replay_refused_witness :
  (checkAndRecord 100 3 50 "d" "n" (r_run 100 3 (checkAndRecord 100 3 10 "d" "n" []).1
     [RCheck 20 "d" "m"; RSweep 30])).2 = false.
Proof.
  apply (replay_refused 100 3 [] [RCheck 20 "d" "m"; RSweep 30] "d" "n" 0 10 50);
    [lia|simpl; lia|vm_compute; reflexivity|vm_compute; reflexivity|lia].
Defined.

Lemma sweep_exact_witness :
  let seen := r_run 100 3 [] [RCheck 20 "d" "m"; RCheck 90 "d" "n"] in
  sweep 100 130 seen = [("d n", 90)] ∧ sweep 100 130 seen = filter (λ e, 130 - 100 <= e.2) seen.
Proof.
  split; [vm_compute; reflexivity|].
  apply (sweep_exact 100 3 [RCheck 20 "d" "m"; RCheck 90 "d" "n"] 0 130); simpl; lia.
Defined.

Lemma hello_replay_window_witness :
  (checkAndRecord 300 10 220 "d" "n" (r_run 300 10 (checkAndRecord 300 10 10 "d" "n" []).1 [])).2 = false.
Proof.
  apply (hello_replay_window 300 10 120 120 "d" "n" [] [] 10 220);
    try (simpl; lia); try apply wf_empty; try exact I; try (vm_compute; reflexivity);
    try apply Forall_nil_2. intros k u Hin. by apply not_elem_of_nil in Hin.
Defined.
