(* ===== verification/Liveness.v ===== *)
(** * Liveness: when a relay socket was last heard

    Models [relay/src/connection-liveness.ts].  Entries are keyed by connection
    id, so a callback of a superseded socket cannot refresh its successor. *)

From S2P Require Import Prelude JsMap.

Local Open Scope Z_scope.
Local Open Scope js_scope.

Record ConnectionLiveness := {
  connectedAt : Z;
  protocolPongAt : option Z;
  applicationPingAt : option Z;
}.

Record LivenessAges := {
  connectionAgeMs : Z;
  protocolPongAgeMs : option Z;
  applicationPingAgeMs : option Z;
}.

Abbreviation Tracker := (jsmap string ConnectionLiveness).

Definition add (connectionId : string) (now : Z) (state : Tracker) : Tracker :=
  set connectionId {| connectedAt := now; protocolPongAt := None; applicationPingAt := None |} state.

Definition remove (connectionId : string) (state : Tracker) : Tracker := delete connectionId state.

(** The entry is mutated in place. *)
Definition noteProtocolPong (connectionId : string) (now : Z) (state : Tracker) : Tracker :=
  match get connectionId state with
  | Some s => set connectionId {| connectedAt := s.(connectedAt); protocolPongAt := Some now;
                                  applicationPingAt := s.(applicationPingAt) |} state
  | None => state
  end.

Definition noteApplicationPing (connectionId : string) (now : Z) (state : Tracker) : Tracker :=
  match get connectionId state with
  | Some s => set connectionId {| connectedAt := s.(connectedAt); protocolPongAt := s.(protocolPongAt);
                                  applicationPingAt := Some now |} state
  | None => state
  end.

Definition duplexAt (s : ConnectionLiveness) : Z :=
  Z.max s.(connectedAt) (Z.max (s.(protocolPongAt) ?| 0) (s.(applicationPingAt) ?| 0)).

Definition isTimedOut (connectionId : string) (now windowMs : Z) (state : Tracker) : bool :=
  match get connectionId state with
  | None => false
  | Some s => now - duplexAt s >? windowMs
  end.

Definition ages (connectionId : string) (now : Z) (state : Tracker) : option LivenessAges :=
  match get connectionId state with
  | None => None
  | Some s => Some {| connectionAgeMs := now - s.(connectedAt);
                      protocolPongAgeMs := (λ t, now - t) <$> s.(protocolPongAt);
                      applicationPingAgeMs := (λ t, now - t) <$> s.(applicationPingAt) |}
  end.

(** ** What the tracker is told, and what it should answer *)

Inductive LEvent :=
| LAdd (c : string) (t : Z)
| LRemove (c : string)
| LPong (c : string) (t : Z)
| LPing (c : string) (t : Z).

Definition l_step (state : Tracker) (e : LEvent) : Tracker :=
  match e with
  | LAdd c t => add c t state
  | LRemove c => remove c state
  | LPong c t => noteProtocolPong c t state
  | LPing c t => noteApplicationPing c t state
  end.

(** The last time [c] itself was heard since it was added, if it is tracked. *)
Definition heard_step (c : string) (o : option Z) (e : LEvent) : option Z :=
  match e with
  | LAdd c' t => if decide (c' = c) then Some t else o
  | LRemove c' => if decide (c' = c) then None else o
  | LPong c' t | LPing c' t => if decide (c' = c) then (λ _, t) <$> o else o
  end.

Definition heard (c : string) (es : list LEvent) : option Z := foldl (heard_step c) None es.

Definition l_time (e : LEvent) : option Z :=
  match e with LAdd _ t | LPong _ t | LPing _ t => Some t | LRemove _ => None end.

Fixpoint in_order (now : Z) (es : list LEvent) : Prop :=
  match es with
  | [] => True
  | e :: es' =>
      match l_time e with
      | None => in_order now es'
      | Some t => now <= t ∧ in_order t es'
      end
  end.

(** Nothing in an entry is later than [now]. *)
Definition past (now : Z) (s : ConnectionLiveness) : Prop :=
  s.(connectedAt) <= now ∧ (s.(protocolPongAt) ?| 0) <= now ∧ (s.(applicationPingAt) ?| 0) <= now.

Lemma duplexAt_past now s : past now s → duplexAt s <= now.
Proof. unfold past, duplexAt. lia. Qed.

Lemma step_heard now c state o e :
  0 <= now → (∀ t, l_time e = Some t → now <= t) →
  duplexAt <$> get c state = o → (∀ s, get c state = Some s → past now s) →
  duplexAt <$> get c (l_step state e) = heard_step c o e ∧
  (∀ s, get c (l_step state e) = Some s → past (l_time e ?| now) s).
Proof.
  intros Hn Ht <- Hp. destruct e as [c' t|c'|c' t|c' t]; simpl in *;
    try specialize (Ht t eq_refl); unfold add, remove, noteProtocolPong, noteApplicationPing.
  - rewrite get_set. destruct (decide (c' = c)) as [->|].
    + rewrite decide_True by done. simpl. unfold duplexAt, past. simpl.
      split; [f_equal; lia|]. intros s [= <-]. simpl. lia.
    + rewrite decide_False by congruence. split; [done|]. intros s Hs%Hp. unfold past in *. lia.
  - rewrite get_delete. destruct (decide (c' = c)) as [->|].
    + by rewrite decide_True.
    + rewrite decide_False by congruence. done.
  - destruct (decide (c' = c)) as [->|].
    + destruct (get c state) as [s|] eqn:Hs; simpl; [|by rewrite Hs].
      specialize (Hp s eq_refl). rewrite get_set_eq. simpl. unfold duplexAt, past in *. simpl.
      split; [f_equal; lia|]. intros s' [= <-]. simpl. lia.
    + assert (∀ s, past now s → past t s) as Hl by (unfold past; intros; lia).
      destruct (get c' state); [rewrite get_set_ne by congruence|]; eauto.
  - destruct (decide (c' = c)) as [->|].
    + destruct (get c state) as [s|] eqn:Hs; simpl; [|by rewrite Hs].
      specialize (Hp s eq_refl). rewrite get_set_eq. simpl. unfold duplexAt, past in *. simpl.
      split; [f_equal; lia|]. intros s' [= <-]. simpl. lia.
    + assert (∀ s, past now s → past t s) as Hl by (unfold past; intros; lia).
      destruct (get c' state); [rewrite get_set_ne by congruence|]; eauto.
Qed.

Lemma run_heard c es : ∀ now state o,
  0 <= now → in_order now es →
  duplexAt <$> get c state = o → (∀ s, get c state = Some s → past now s) →
  duplexAt <$> get c (foldl l_step state es) = foldl (heard_step c) o es.
Proof.
  induction es as [|e es IH]; intros now state o Hn Hio Ho Hp; [done|]. simpl in *.
  destruct (step_heard now c state o e Hn) as [H1 H2]; [|done..|].
  { intros t Ht. rewrite Ht in Hio. by destruct Hio. }
  destruct (l_time e) as [t|] eqn:Ht.
  - destruct Hio as [Hle Hio]. eapply (IH t); [lia|done..].
  - eapply (IH now); done.
Qed.

(** A relay socket is timed out exactly when it is tracked and more than
    [windowMs] passed since that same connection was last heard (connected,
    answered a protocol ping, or probed); events of other connections, and of
    one already removed, change nothing. *)
Theorem timed_out_iff (c : string) (es : list LEvent) (now windowMs : Z) :
  in_order 0 es →
  isTimedOut c now windowMs (foldl l_step [] es) =
    match heard c es with None => false | Some t => now - t >? windowMs end.
Proof.
  intros Hio. unfold isTimedOut, heard.
  rewrite <-(run_heard c es 0 [] None); [|done..].
  by destruct (get c (foldl l_step [] es)).
Qed.

Lemma timed_out_iff_witness :
  let es := [LAdd "a" 5; LAdd "b" 6; LPong "a" 30; LRemove "a"; LPong "a" 40; LPing "b" 41] in
  isTimedOut "b" 90 40 (foldl l_step [] es) = true ∧ isTimedOut "a" 900 40 (foldl l_step [] es) = false.
Proof.
  intros es. assert (in_order 0 es) as H by (by vm_compute).
  split; [rewrite (timed_out_iff "b" es 90 40 H)|rewrite (timed_out_iff "a" es 900 40 H)]; reflexivity.
Defined.
