(* ===== verification/Wire.v ===== *)
(** * Wire: the relay control-envelope schemas

    Models [packages/antgrid-wire/src/relay-protocol.ts], [bus-protocol.ts],
    [push-protocol.ts] and the key schema of [machine-directory.ts]: the
    messages as data, and each Zod schema as the decoder from a parsed JSON
    value that [safeParse] runs.  [z.object] strips the keys it does not name
    and [z.literal] accepts one value; both are what the decoders do.  Zod's own
    formats for a UUID and an ISO date-time are third-party code: they are the
    parameters [is_uuid] and [is_datetime]. *)

From S2P Require Import Prelude JsMap.

Local Open Scope Z_scope.
Local Open Scope js_scope.

(** ** JSON values, as [JSON.parse] returns them

    [JInt] is a number with an integer value, [JFrac] any other number.  An
    object's fields have distinct names. *)
#[local] Set Warnings "-register-all".

Inductive json :=
| JNull
| JBool (b : bool)
| JInt (n : Z)
| JFrac
| JStr (s : string)
| JArr (l : list json)
| JObj (fields : list (string * json)).

Definition field (k : string) (j : json) : option json :=
  match j with JObj fs => get k fs | _ => None end.

Definition is_object (j : json) : bool := match j with JObj _ => true | _ => false end.

Definition as_string (j : json) : option string := match j with JStr s => Some s | _ => None end.
Definition as_int (j : json) : option Z :=
  match j with
  | JInt n => check (- (2 ^ 53) <? n) && (n <? 2 ^ 53); Some n
  | _ => None
  end.

(** A required string field passing [p]; an optional one; a literal field. *)
Definition string_field (p : string → bool) (k : string) (j : json) : option string :=
  v ← field k j; s ← as_string v; check p s; Some s.

Definition optional_field {A} (dec : json → option A) (k : string) (j : json) : option (option A) :=
  match field k j with None => Some None | Some v => Some <$> dec v end.

Definition string_that (p : string → bool) (j : json) : option string :=
  s ← as_string j; check p s; Some s.

Definition int_field (lo hi : Z) (k : string) (j : json) : option Z :=
  v ← field k j; n ← as_int v; check (lo <=? n) && (n <=? hi); Some n.

Definition literal_field (lit k : string) (j : json) : option unit :=
  v ← field k j; s ← as_string v; check (bool_decide (s = lit)); Some tt.

(** The largest safe integer: no schema bound of the code is above it. *)
Definition MAX_SAFE : Z := 2 ^ 53 - 1.

(** ** Constants and regular expressions *)

Definition RELAY_MAX_CONTROL_FRAME_BYTES : Z := 128 * 1024.
Definition BUS_MAX_PLAINTEXT_BYTES : Z := 92160.
(** [Math.ceil(x / 3) * 4] on a positive integer. *)
Definition BUS_BOX_MAX_CHARS : Z := (BUS_MAX_PLAINTEXT_BYTES + 28 + 2) / 3 * 4.
Definition BUS_MAX_TTL_MS : Z := 6 * 60 * 60000.

Definition b64_char (c : Ascii.ascii) : bool :=
  is_upper c || is_lower c || is_digit c || is_char 43 c || is_char 47 c.

(** [/^[a-zA-Z0-9_.#-]+$/] with [.min(1).max(128)]. *)
Definition DEVICE_ID (s : string) : bool :=
  len_between 1 128 s &&
  string_forallb (λ c, is_upper c || is_lower c || is_digit c ||
                       is_char 95 c || is_char 46 c || is_char 35 c || is_char 45 c) s.

(** [n] base64 characters followed by [pad]. *)
Definition b64_exactly (n : nat) (pad s : string) : bool :=
  (strlen s =? Z.of_nat n + strlen pad) &&
  string_forallb b64_char (String.substring 0 n s) &&
  bool_decide (String.substring n (String.length pad) s = pad).

(** [/^[A-Za-z0-9+/]{43}=$/] and [/^[A-Za-z0-9+/]{86}==$/]. *)
Definition RawKey32Schema (s : string) : bool := b64_exactly 43 "=" s.
Definition BusAckSig (s : string) : bool := b64_exactly 86 "==" s.

(** [/^[A-Za-z0-9+/]+={0,2}$/]: the longest prefix of base64 characters, then
    at most two padding characters and nothing else. *)
Fixpoint b64_padded_tail (s : string) : bool :=
  match s with
  | EmptyString => true
  | String c s' => if b64_char c then b64_padded_tail s'
                   else bool_decide (s = "=") || bool_decide (s = "==")
  end.
Definition b64_padded (s : string) : bool :=
  match s with String c s' => b64_char c && b64_padded_tail s' | EmptyString => false end.

(** [/^[A-Z][A-Z0-9_]{0,63}$/] *)
Definition BusAckCode (s : string) : bool :=
  match s with
  | String c s' => is_upper c && (strlen s' <=? 63) &&
                   string_forallb (λ c, is_upper c || is_digit c || is_char 95 c) s'
  | EmptyString => false
  end.

(** [/^[A-Za-z0-9_-]{1,64}$/] *)
Definition collapse_key (s : string) : bool :=
  len_between 1 64 s &&
  string_forallb (λ c, is_upper c || is_lower c || is_digit c || is_char 95 c || is_char 45 c) s.

(** ** Messages *)

Inductive deviceType := agent | app.
#[export] Instance deviceType_eq_dec : EqDecision deviceType.
Proof. solve_decision. Defined.

Definition deviceType_name (d : deviceType) : string :=
  match d with agent => "agent" | app => "app" end.

Record BusBlob := { epk : string; box : string }.

Record HelloMessage := {
  h_deviceType : deviceType;
  h_deviceId : string;
  h_name : string;
  h_publicKey : string;
  h_epoch : Z;
  h_licenseToken : string;
  h_ts : string;
  h_nonce : string;
  h_sig : string;
  h_bus : bool;  (** [bus: z.literal(1).optional()]: present or not *)
}.

Inductive outcome := applied | refused.
Inductive provider := fcm | apns.

Record BusSendMessage := { bs_id : string; bs_to : string; bs_blob : BusBlob; bs_ttlMs : Z }.
Record BusAckMessage := {
  ba_id : string; ba_outcome : outcome; ba_code : option string; ba_sig : string }.
Record PushDeliverMessage := {
  pd_pushToken : string; pd_provider : provider; pd_blob : BusBlob; pd_collapseKey : option string }.

Inductive ClientMessage :=
| Hello (m : HelloMessage)
| PushDeliver (m : PushDeliverMessage)
| Ping
| BusSend (m : BusSendMessage)
| BusAck (m : BusAckMessage)
| BusDrain.

#[export] Instance BusBlob_eq_dec : EqDecision BusBlob.
Proof. solve_decision. Defined.
#[export] Instance outcome_eq_dec : EqDecision outcome.
Proof. solve_decision. Defined.

(** ** Client-to-relay schemas *)
Section schemas.
Context (is_uuid is_datetime : string → bool).

Definition deviceType_field (j : json) : option deviceType :=
  v ← field "deviceType" j; s ← as_string v;
  if bool_decide (s = "agent") then Some agent
  else if bool_decide (s = "app") then Some app else None.

(** [z.literal(1).optional()] *)
Definition bus_flag (j : json) : option bool :=
  match field "bus" j with
  | None => Some false
  | Some (JInt 1) => Some true
  | Some _ => None
  end.

Definition HelloMessage_parse (j : json) : option HelloMessage :=
  _ ← literal_field "hello" "type" j;
  _ ← int_field 3 3 "protocolVersion" j;
  dt ← deviceType_field j;
  did ← string_field DEVICE_ID "deviceId" j;
  nm ← string_field (len_between 1 256) "name" j;
  pk ← string_field (len_between 1 256) "publicKey" j;
  ep ← int_field 0 MAX_SAFE "epoch" j;
  lt ← string_field (len_between 1 8192) "licenseToken" j;
  ts ← string_field is_datetime "ts" j;
  nonce ← string_field (len_between 20 64) "nonce" j;
  sg ← string_field (len_between 1 256) "sig" j;
  bus ← bus_flag j;
  Some {| h_deviceType := dt; h_deviceId := did; h_name := nm; h_publicKey := pk;
          h_epoch := ep; h_licenseToken := lt; h_ts := ts; h_nonce := nonce;
          h_sig := sg; h_bus := bus |}.

Definition blob_with (pe pb : string → bool) (j : json) : option BusBlob :=
  check is_object j;
  e ← string_field pe "epk" j;
  b ← string_field pb "box" j;
  Some {| epk := e; box := b |}.

Definition BusBlob_parse : json → option BusBlob :=
  blob_with RawKey32Schema (λ s, len_between 40 BUS_BOX_MAX_CHARS s && b64_padded s).

Definition BusSendMessage_parse (j : json) : option BusSendMessage :=
  _ ← literal_field "bus:send" "type" j;
  id ← string_field is_uuid "id" j;
  to ← string_field is_uuid "to" j;
  blob ← field "blob" j ≫= BusBlob_parse;
  ttl ← int_field 1 BUS_MAX_TTL_MS "ttlMs" j;
  Some {| bs_id := id; bs_to := to; bs_blob := blob; bs_ttlMs := ttl |}.

Definition outcome_field (j : json) : option outcome :=
  v ← field "outcome" j; s ← as_string v;
  if bool_decide (s = "applied") then Some applied
  else if bool_decide (s = "refused") then Some refused else None.

(** [codeIffRefused]: a refusal names its code, and only a refusal does. *)
Definition codeIffRefused (o : outcome) (c : option string) : bool :=
  bool_decide (o = refused ↔ is_Some c).

Definition BusAckMessage_parse (j : json) : option BusAckMessage :=
  _ ← literal_field "bus:ack" "type" j;
  id ← string_field is_uuid "id" j;
  o ← outcome_field j;
  c ← optional_field (string_that BusAckCode) "code" j;
  sg ← string_field BusAckSig "sig" j;
  check codeIffRefused o c;
  Some {| ba_id := id; ba_outcome := o; ba_code := c; ba_sig := sg |}.

Definition provider_field (j : json) : option provider :=
  v ← field "provider" j; s ← as_string v;
  if bool_decide (s = "fcm") then Some fcm
  else if bool_decide (s = "apns") then Some apns else None.

Definition PushDeliverMessage_parse (j : json) : option PushDeliverMessage :=
  _ ← literal_field "push:deliver" "type" j;
  tok ← string_field (len_between 1 4096) "pushToken" j;
  pr ← provider_field j;
  blob ← field "blob" j ≫= blob_with (len_between 1 256) (len_between 1 8192);
  ck ← optional_field (string_that collapse_key) "collapseKey" j;
  Some {| pd_pushToken := tok; pd_provider := pr; pd_blob := blob; pd_collapseKey := ck |}.

(** [z.discriminatedUnion("type", ...)]: the [type] field picks the schema. *)
Definition ClientMessage_parse (j : json) : option ClientMessage :=
  t ← field "type" j ≫= as_string;
  if bool_decide (t = "hello") then Hello <$> HelloMessage_parse j
  else if bool_decide (t = "push:deliver") then PushDeliver <$> PushDeliverMessage_parse j
  else if bool_decide (t = "ping") then Some Ping
  else if bool_decide (t = "bus:send") then BusSend <$> BusSendMessage_parse j
  else if bool_decide (t = "bus:ack") then BusAck <$> BusAckMessage_parse j
  else if bool_decide (t = "bus:drain") then Some BusDrain
  else None.
End schemas.

(** ** Relay-to-client messages *)

Inductive ErrorCode :=
| AUTH_FAILED | INVALID_MESSAGE | NOT_AUTHENTICATED | MESSAGE_RATE_LIMITED
| LICENSE_INVALID | LICENSE_EXPIRED | LICENSE_REVOKED | LICENSE_REQUIRED
| LICENSE_UNAVAILABLE | SUPERSEDED | PROTOCOL_VIOLATION.
#[export] Instance ErrorCode_eq_dec : EqDecision ErrorCode.
Proof. solve_decision. Defined.

Definition all_error_codes : list (ErrorCode * string) :=
  [ (AUTH_FAILED, "AUTH_FAILED"); (INVALID_MESSAGE, "INVALID_MESSAGE");
    (NOT_AUTHENTICATED, "NOT_AUTHENTICATED"); (MESSAGE_RATE_LIMITED, "MESSAGE_RATE_LIMITED");
    (LICENSE_INVALID, "LICENSE_INVALID"); (LICENSE_EXPIRED, "LICENSE_EXPIRED");
    (LICENSE_REVOKED, "LICENSE_REVOKED"); (LICENSE_REQUIRED, "LICENSE_REQUIRED");
    (LICENSE_UNAVAILABLE, "LICENSE_UNAVAILABLE"); (SUPERSEDED, "SUPERSEDED");
    (PROTOCOL_VIOLATION, "PROTOCOL_VIOLATION") ].

Inductive BusRefusalReason :=
| not_agent | self | recipient_outdated | queue_full | rate_limited | expired.
#[export] Instance BusRefusalReason_eq_dec : EqDecision BusRefusalReason.
Proof. solve_decision. Defined.

Definition all_refusal_reasons : list (BusRefusalReason * string) :=
  [ (not_agent, "not-agent"); (self, "self"); (recipient_outdated, "recipient-outdated");
    (queue_full, "queue-full"); (rate_limited, "rate-limited"); (expired, "expired") ].

Inductive receipt_state := queued | delivered_to_socket.
#[export] Instance receipt_state_eq_dec : EqDecision receipt_state.
Proof. solve_decision. Defined.

Definition all_receipt_states : list (receipt_state * string) :=
  [ (queued, "queued"); (delivered_to_socket, "delivered-to-socket") ].

Definition all_outcomes : list (outcome * string) :=
  [ (applied, "applied"); (refused, "refused") ].

(** [z.enum]: the name of a member, and the member of a name. *)
Definition enum_name {A} `{EqDecision A} (tbl : list (A * string)) (a : A) : string :=
  get a tbl ?| EmptyString.
Definition enum_parse {A} (tbl : list (A * string)) (s : string) : option A :=
  get s ((λ p, (p.2, p.1)) <$> tbl).

Inductive ServerMessage :=
| Welcome (deviceId : string) (epoch : Z) (serverTime : string) (bus : bool)
| ErrorMessage (code : ErrorCode) (message : string) (retryable : bool) (serverTime : option string)
| PeerOnline (peerId : string)
| PeerOffline (peerId : string)
| PushResult (pushToken : string) (ok : bool) (reason : option string)
| Pong
| PeerPolicyChanged (generation : string)
| BusReceipt (id to : string) (state : receipt_state)
| BusDeliver (id from : string) (blob : BusBlob)
| BusAcked (id to : string) (o : outcome) (c : option string) (sig : string)
| BusRefused (id to : string) (reason : BusRefusalReason) (retryable : bool).

Definition opt_field (k : string) (o : option json) : list (string * json) :=
  match o with Some j => [(k, j)] | None => [] end.

(** The object literals the relay serialises, field by field. *)
Definition ServerMessage_json (m : ServerMessage) : json :=
  let obj ty fs := JObj (("type", JStr ty) :: fs) in
  match m with
  | Welcome d e t b =>
      obj "welcome" ([("deviceId", JStr d); ("epoch", JInt e); ("serverTime", JStr t)] ++
                     opt_field "bus" (if b then Some (JInt 1) else None))
  | ErrorMessage c msg r t =>
      obj "error" ([("code", JStr (enum_name all_error_codes c)); ("message", JStr msg);
                    ("retryable", JBool r)] ++ opt_field "serverTime" (JStr <$> t))
  | PeerOnline p => obj "peer-online" [("peerId", JStr p)]
  | PeerOffline p => obj "peer-offline" [("peerId", JStr p)]
  | PushResult t o r =>
      obj "push:result" ([("pushToken", JStr t); ("ok", JBool o)] ++ opt_field "reason" (JStr <$> r))
  | Pong => obj "pong" []
  | PeerPolicyChanged g => obj "peer-policy-changed" [("generation", JStr g)]
  | BusReceipt id to st =>
      obj "bus:receipt" [("id", JStr id); ("to", JStr to);
                         ("state", JStr (enum_name all_receipt_states st))]
  | BusDeliver id from b =>
      obj "bus:deliver" [("id", JStr id); ("from", JStr from);
                         ("blob", JObj [("epk", JStr b.(epk)); ("box", JStr b.(box))])]
  | BusAcked id to o c sg =>
      obj "bus:acked" ([("id", JStr id); ("to", JStr to);
                        ("outcome", JStr (enum_name all_outcomes o))] ++
                       opt_field "code" (JStr <$> c) ++ [("sig", JStr sg)])
  | BusRefused id to rs r =>
      obj "bus:refused" [("id", JStr id); ("to", JStr to);
                         ("reason", JStr (enum_name all_refusal_reasons rs));
                         ("retryable", JBool r)]
  end.

(** [/^(0|[1-9][0-9]{0,18})$/] *)
Definition generation_regex (s : string) : bool :=
  bool_decide (s = "0") ||
  match s with
  | String c s' => in_range 49 57 c && (strlen s' <=? 18) && string_forallb is_digit s'
  | EmptyString => false
  end.

Section server_schema.
Context (is_uuid is_datetime : string → bool).

Definition bool_field (k : string) (j : json) : option bool :=
  match field k j with Some (JBool b) => Some b | _ => None end.

Definition enum_field {A} (tbl : list (A * string)) (k : string) (j : json) : option A :=
  v ← field k j; s ← as_string v; enum_parse tbl s.

Definition any_string (s : string) : bool := true.

(** [ServerMessage.safeParse]: how a client reads what the relay sent. *)
Definition ServerMessage_parse (j : json) : option ServerMessage :=
  t ← field "type" j ≫= as_string;
  if bool_decide (t = "welcome") then
    d ← string_field any_string "deviceId" j; e ← int_field 0 MAX_SAFE "epoch" j;
    st ← string_field is_datetime "serverTime" j; b ← bus_flag j;
    Some (Welcome d e st b)
  else if bool_decide (t = "error") then
    c ← enum_field all_error_codes "code" j; msg ← string_field any_string "message" j;
    r ← bool_field "retryable" j; st ← optional_field (string_that is_datetime) "serverTime" j;
    Some (ErrorMessage c msg r st)
  else if bool_decide (t = "peer-online") then PeerOnline <$> string_field any_string "peerId" j
  else if bool_decide (t = "peer-offline") then PeerOffline <$> string_field any_string "peerId" j
  else if bool_decide (t = "push:result") then
    tok ← string_field any_string "pushToken" j; o ← bool_field "ok" j;
    r ← optional_field as_string "reason" j;
    Some (PushResult tok o r)
  else if bool_decide (t = "pong") then Some Pong
  else if bool_decide (t = "peer-policy-changed") then
    PeerPolicyChanged <$> string_field generation_regex "generation" j
  else if bool_decide (t = "bus:receipt") then
    id ← string_field is_uuid "id" j; to ← string_field is_uuid "to" j;
    st ← enum_field all_receipt_states "state" j;
    Some (BusReceipt id to st)
  else if bool_decide (t = "bus:deliver") then
    id ← string_field is_uuid "id" j; fr ← string_field is_uuid "from" j;
    b ← field "blob" j ≫= BusBlob_parse;
    Some (BusDeliver id fr b)
  else if bool_decide (t = "bus:acked") then
    id ← string_field is_uuid "id" j; to ← string_field is_uuid "to" j;
    o ← outcome_field j; c ← optional_field (string_that BusAckCode) "code" j;
    sg ← string_field BusAckSig "sig" j;
    check codeIffRefused o c;
    Some (BusAcked id to o c sg)
  else if bool_decide (t = "bus:refused") then
    id ← string_field is_uuid "id" j; to ← string_field is_uuid "to" j;
    rs ← enum_field all_refusal_reasons "reason" j; r ← bool_field "retryable" j;
    Some (BusRefused id to rs r)
  else None.

(** The field values the schemas require. *)
Definition blob_ok (b : BusBlob) : bool :=
  RawKey32Schema b.(epk) && (len_between 40 BUS_BOX_MAX_CHARS b.(box) && b64_padded b.(box)).

Definition ServerMessage_ok (m : ServerMessage) : bool :=
  match m with
  | Welcome _ e t _ => (0 <=? e) && (e <=? MAX_SAFE) && is_datetime t
  | ErrorMessage _ _ _ (Some t) => is_datetime t
  | PeerPolicyChanged g => generation_regex g
  | BusReceipt id to _ => is_uuid id && is_uuid to
  | BusDeliver id from b => is_uuid id && is_uuid from && blob_ok b
  | BusAcked id to o c sg =>
      is_uuid id && is_uuid to && BusAckSig sg && codeIffRefused o c &&
      match c with Some c => BusAckCode c | None => true end
  | BusRefused id to _ _ => is_uuid id && is_uuid to
  | _ => true
  end.

Lemma as_int_small n : (0 <=? n) && (n <=? MAX_SAFE) = true → as_int (JInt n) = Some n.
Proof.
  unfold as_int, MAX_SAFE. intros; reflect_bools.
  by rewrite !(proj2 (Z.ltb_lt _ _)) by lia.
Qed.

(** Every frame the relay sends with well-formed identifiers is read back
    by a client's [ServerMessage] schema as exactly the message the relay
    meant, optional fields included. *)
Theorem ServerMessage_roundtrip (m : ServerMessage) :
  ServerMessage_ok m = true → ServerMessage_parse (ServerMessage_json m) = Some m.
Proof.
  destruct m as [d e t []|c msg r [t|]|p|p|tok o [r|]| |g|id to []|id fr [e b]|id to [] [c|] sg|id to [] []];
    try (destruct c); unfold ServerMessage_ok, blob_ok; simpl epk; simpl box;
    intros Hok; try reflexivity.
  1,2: assert (as_int (JInt e) = Some e) as He by
         (apply as_int_small; by reflect_bools; apply andb_true_iff; split; apply Z.leb_le).
  all: reflect_bools.
  all: cbv -[as_int generation_regex RawKey32Schema len_between BUS_BOX_MAX_CHARS b64_padded
             BusAckSig BusAckCode Z.leb MAX_SAFE codeIffRefused].
  all: try rewrite He.
  all: repeat match goal with
       | H : ?b = true |- context [?b] => rewrite H
       | H : (?a <= ?b)%Z |- context [(?a <=? ?b)%Z] => rewrite (proj2 (Z.leb_le a b) H)
       end.
  all: try reflexivity.
Qed.
End server_schema.

(** A crude UUID test for the witnesses: 36 characters. *)
Definition uuid_shape (s : string) : bool := strlen s =? 36.

Lemma ServerMessage_roundtrip_witness :
  let m := BusAcked "0f8fad5b-d9cb-469f-a165-70867728950e" "7c9e6679-7425-40de-944b-e07fc1f90ae7"
             refused (Some "NOT_ORCHESTRATOR")
             "AAAAAAAAAAAAAAAAAAAAAAAAAAAAAAAAAAAAAAAAAAAAAAAAAAAAAAAAAAAAAAAAAAAAAAAAAAAAAAAAAAAAAA==" in
  ServerMessage_parse uuid_shape (λ _, true) (ServerMessage_json m) = Some m.
Proof. intros m. apply (ServerMessage_roundtrip uuid_shape (λ _, true) m). vm_compute. reflexivity. Defined.
