(* ===== verification/BusSeal.v ===== *)
(** * BusSeal: mail sealed to a machine and signed by another

    src/bridge/src/session-bus/seal.ts, with the Ed25519 and X25519 wrappers it
    calls (ed25519-pkcs8.ts, key-exchange.ts).  The primitives are the class
    [Crypto], JSON's text form the class [JsonText]; what node:crypto throws is
    [None].  The inner header and its schema, the unambiguous framing of the
    signed fields, the seal and the open are the source's. *)

From S2P Require Import Prelude JsMap Wire Buffers.

Local Open Scope Z_scope.
Local Open Scope js_scope.

(** ** What is outside the repository *)

(** node:crypto.  Keys are DER documents; [gcm_seal] answers the ciphertext and
    the tag, [gcm_open] is [None] where [decipher.final] throws. *)
Class Crypto := {
  ed25519_sign : bytes → bytes → option bytes;
  ed25519_verify : bytes → bytes → bytes → option bool;
  diffieHellman : bytes → bytes → option bytes;
  hkdf_sha256 : bytes → bytes → bytes → Z → bytes;
  gcm_seal : bytes → bytes → bytes → bytes → bytes * bytes;
  gcm_open : bytes → bytes → bytes → bytes → bytes → option bytes;
}.

(** [JSON.stringify] and [JSON.parse], and Zod's UUID format. *)
Class JsonText := {
  stringify : json → string;
  json_parse : string → option json;
  uuid : string → bool;
}.

(** ** Constants *)

Definition BUS_SEAL_INFO : string := "antgrid-bus-v1".
Definition BUS_AAD_LABEL : string := "antgrid/bus-aad/1".
Definition BUS_SIG_LABEL : string := "antgrid/bus-sig/1".
Definition BUS_ACK_LABEL : string := "antgrid/bus-ack/1".
Definition BUS_CLOCK_SKEW_MS : Z := 5 * 60000.
Definition NONCE_LEN : nat := 12.
Definition TAG_LEN : nat := 16.

Definition ED25519_PKCS8_PREFIX : bytes := [48; 46; 2; 1; 0; 48; 5; 6; 3; 43; 101; 112; 4; 34; 4; 32].
Definition ED25519_SPKI_PREFIX : bytes := [48; 42; 48; 5; 6; 3; 43; 101; 112; 3; 33; 0].
Definition PKCS8_PREFIX : bytes := [48; 46; 2; 1; 0; 48; 5; 6; 3; 43; 101; 110; 4; 34; 4; 32].
Definition SPKI_PREFIX : bytes := [48; 42; 48; 5; 6; 3; 43; 101; 110; 3; 33; 0].

(** [/^[A-Za-z0-9+/]{86}==$/] *)
Definition SIG_B64 (s : string) : bool := b64_exactly 86 "==" s.

(** ** The inner header *)

Inductive BusRole := as_agent | as_orchestrator.
Inductive BusKind := a_message | a_request | a_response.
#[export] Instance BusRole_eq_dec : EqDecision BusRole.
Proof. solve_decision. Defined.
#[export] Instance BusKind_eq_dec : EqDecision BusKind.
Proof. solve_decision. Defined.

Definition all_bus_roles : list (BusRole * string) := [(as_agent, "agent"); (as_orchestrator, "orchestrator")].
Definition all_bus_kinds : list (BusKind * string) :=
  [(a_message, "message"); (a_request, "request"); (a_response, "response")].

(** [v: z.literal(1)] carries nothing. *)
Record InnerHeader := {
  ih_from : string;
  ih_to : string;
  ih_id : string;
  ih_role : BusRole;
  ih_kind : BusKind;
  ih_correlationId : option string;
  ih_sentAt : Z;
  ih_expiresAt : Z;
}.

Definition InnerHeader_json (h : InnerHeader) : json :=
  JObj ([("v", JInt 1); ("from", JStr h.(ih_from)); ("to", JStr h.(ih_to)); ("id", JStr h.(ih_id));
         ("role", JStr (enum_name all_bus_roles h.(ih_role))); ("kind", JStr (enum_name all_bus_kinds h.(ih_kind)))] ++
        opt_field "correlationId" (JStr <$> h.(ih_correlationId)) ++
        [("sentAt", JInt h.(ih_sentAt)); ("expiresAt", JInt h.(ih_expiresAt))]).

Section schema.
Context `{!JsonText}.

Definition enum_field {A} (tbl : list (A * string)) (k : string) (j : json) : option A :=
  v ← field k j; s ← as_string v; enum_parse tbl s.

(** The [refine] of the schema. *)
Definition header_times_ok (h : InnerHeader) : bool :=
  (h.(ih_sentAt) <? h.(ih_expiresAt)) && (h.(ih_expiresAt) - h.(ih_sentAt) <=? BUS_MAX_TTL_MS).

Definition InnerHeaderSchema (j : json) : option InnerHeader :=
  _ ← int_field 1 1 "v" j;
  fr ← string_field uuid "from" j;
  to ← string_field uuid "to" j;
  id ← string_field uuid "id" j;
  ro ← enum_field all_bus_roles "role" j;
  ki ← enum_field all_bus_kinds "kind" j;
  co ← optional_field (string_that uuid) "correlationId" j;
  se ← int_field 0 MAX_SAFE "sentAt" j;
  ex ← int_field 0 MAX_SAFE "expiresAt" j;
  let h := {| ih_from := fr; ih_to := to; ih_id := id; ih_role := ro; ih_kind := ki;
              ih_correlationId := co; ih_sentAt := se; ih_expiresAt := ex |} in
  check header_times_ok h; Some h.

(** The headers the protocol admits: ids are UUIDs, the times are safe integers in
    order and at most six hours apart. *)
Definition header_ok (h : InnerHeader) : Prop :=
  uuid h.(ih_from) = true ∧ uuid h.(ih_to) = true ∧ uuid h.(ih_id) = true ∧
  (∀ c, h.(ih_correlationId) = Some c → uuid c = true) ∧
  0 <= h.(ih_sentAt) < h.(ih_expiresAt) ∧ h.(ih_expiresAt) <= h.(ih_sentAt) + 21600000 ∧ h.(ih_expiresAt) <= 9007199254740991.

Definition role_text (r : BusRole) : string := match r with as_agent => "agent" | as_orchestrator => "orchestrator" end.
Definition kind_text (k : BusKind) : string :=
  match k with a_message => "message" | a_request => "request" | a_response => "response" end.

(** The JSON objects that say a header; other fields are not read. *)
Definition says_header (j : json) (h : InnerHeader) : Prop :=
  field "v" j = Some (JInt 1) ∧ field "from" j = Some (JStr h.(ih_from)) ∧ field "to" j = Some (JStr h.(ih_to)) ∧
  field "id" j = Some (JStr h.(ih_id)) ∧ field "role" j = Some (JStr (role_text h.(ih_role))) ∧
  field "kind" j = Some (JStr (kind_text h.(ih_kind))) ∧ field "correlationId" j = JStr <$> h.(ih_correlationId) ∧
  field "sentAt" j = Some (JInt h.(ih_sentAt)) ∧ field "expiresAt" j = Some (JInt h.(ih_expiresAt)).
End schema.

(** ** Framing *)

Definition prefixed (f : bytes) : bytes := writeUInt32BE (blen f) ++ f.
Definition lengthPrefixed (fields : list bytes) : bytes := concat (prefixed <$> fields).

Definition encodeInnerPlaintext (hJson body sig : string) : bytes :=
  lengthPrefixed [utf8_encode hJson; utf8_encode body; utf8_encode sig].

(** The loop of [decodeInnerPlaintext]: every turn takes at least the four
    bytes of a length, so the bytes left are enough fuel. *)
Fixpoint decode_fields (fuel : nat) (fields : list bytes) (rest : bytes) : option (list bytes) :=
  match rest with
  | [] => Some fields
  | _ =>
      match fuel with
      | O => None
      | S fuel =>
          if (length fields =? 3)%nat || (length rest <? 4)%nat then None
          else let len := readUInt32BE (take 4 rest) in
               let after := drop 4 rest in
               if blen after <? len then None
               else decode_fields fuel (fields ++ [take (Z.to_nat len) after]) (drop (Z.to_nat len) after)
      end
  end.

Definition decodeInnerPlaintext (buf : bytes) : option (string * string * string) :=
  match decode_fields (length buf) [] buf with
  | Some [h; b; s] =>
      if BUS_MAX_PLAINTEXT_BYTES <? blen b then None
      else match utf8_decode s with
           | Some sig => if negb (SIG_B64 sig) then None
                         else hJson ← utf8_decode h; body ← utf8_decode b; Some (hJson, body, sig)
           | None => None
           end
  | _ => None
  end.

Definition busAad (from to id : string) : bytes :=
  lengthPrefixed [utf8_encode BUS_AAD_LABEL; utf8_encode from; utf8_encode to; utf8_encode id].

Definition busSignedBytes (h : InnerHeader) (body : string) : bytes :=
  lengthPrefixed (utf8_encode <$>
    [BUS_SIG_LABEL; "1"; h.(ih_from); h.(ih_to); h.(ih_id);
     enum_name all_bus_roles h.(ih_role); enum_name all_bus_kinds h.(ih_kind);
     h.(ih_correlationId) ?| EmptyString; String_of h.(ih_sentAt); String_of h.(ih_expiresAt); body]).

Record BusAckFields := {
  ak_from : string; ak_to : string; ak_id : string; ak_outcome : outcome; ak_code : option string }.

Definition busAckSignedBytes (f : BusAckFields) : bytes :=
  lengthPrefixed (utf8_encode <$>
    [BUS_ACK_LABEL; f.(ak_from); f.(ak_to); f.(ak_id); enum_name all_outcomes f.(ak_outcome); f.(ak_code) ?| EmptyString]).

(** ** Keys *)
Section crypto.
Context `{!Crypto}.

(** [rawSeedToPkcs8] throws on a seed that is not 32 bytes. *)
Definition rawSeedToPkcs8 (seed : bytes) : option bytes :=
  check (length seed =? 32)%nat; Some (ED25519_PKCS8_PREFIX ++ seed).

Definition signEd25519 (seedB64 : string) (data : bytes) : option string :=
  key ← rawSeedToPkcs8 (b64_decode seedB64); b64_encode <$> ed25519_sign key data.

Definition verifyEd25519 (pubB64 : string) (data : bytes) (sigB64 : string) : bool :=
  let pub := b64_decode pubB64 in
  let sig := b64_decode sigB64 in
  if negb (length pub =? 32)%nat || negb (length sig =? 64)%nat then false
  else ed25519_verify (ED25519_SPKI_PREFIX ++ pub) data sig ?| false.

Definition deriveSharedSecret (myPrivateKey theirPublicKey : bytes) : option bytes :=
  diffieHellman (PKCS8_PREFIX ++ myPrivateKey) (SPKI_PREFIX ++ theirPublicKey).

Definition sealKey (shared epk recipientPub : bytes) : bytes :=
  hkdf_sha256 shared epk (utf8_encode BUS_SEAL_INFO ++ recipientPub) 32.

Definition signBusAck (seedB64 : string) (f : BusAckFields) : option string := signEd25519 seedB64 (busAckSignedBytes f).
Definition verifyBusAck (pubB64 : string) (f : BusAckFields) (sig : string) : bool :=
  verifyEd25519 pubB64 (busAckSignedBytes f) sig.

(** ** Seal and open *)

Inductive SealError := PLAINTEXT_TOO_LARGE | BAD_RECIPIENT_KEY.
Inductive OpenError := UNOPENABLE | MALFORMED | BAD_SIGNATURE | HEADER_MISMATCH.

Context `{!JsonText}.

(** The ephemeral key pair and the nonce are what the generators return. *)
Record Fresh := { eph_public : bytes; eph_private : bytes; fresh_nonce : bytes }.

Definition sealBus (r : Fresh) (header : InnerHeader) (body signSeedB64 recipientBusPubB64 : string) : BusBlob + SealError :=
  let recipientPub := b64_decode recipientBusPubB64 in
  if negb (length recipientPub =? 32)%nat then inr BAD_RECIPIENT_KEY
  else match signEd25519 signSeedB64 (busSignedBytes header body) with
       | None => inr BAD_RECIPIENT_KEY
       | Some sig =>
           let plaintext := encodeInnerPlaintext (stringify (InnerHeader_json header)) body sig in
           if BUS_MAX_PLAINTEXT_BYTES <? blen plaintext then inr PLAINTEXT_TOO_LARGE
           else match deriveSharedSecret r.(eph_private) recipientPub with
                | None => inr BAD_RECIPIENT_KEY
                | Some shared =>
                    let key := sealKey shared r.(eph_public) recipientPub in
                    let '(ct, tag) := gcm_seal key r.(fresh_nonce)
                      (busAad header.(ih_from) header.(ih_to) header.(ih_id)) plaintext in
                    inl {| epk := b64_encode r.(eph_public); box := b64_encode (r.(fresh_nonce) ++ ct ++ tag) |}
                end
       end.

(** The plaintext of a box, or [None] where opening it throws. *)
Definition open_box (epk box ownPriv ownPub aad : bytes) : option bytes :=
  shared ← deriveSharedSecret ownPriv epk;
  gcm_open (sealKey shared epk ownPub) (take NONCE_LEN box) aad
    (take (length box - TAG_LEN - NONCE_LEN) (drop NONCE_LEN box)) (drop (length box - TAG_LEN) box).

Definition openBus (blob : BusBlob) (from to id ownBusPrivB64 ownBusPubB64 senderEd25519PubB64 : string) :
    InnerHeader * string + OpenError :=
  let epk := b64_decode blob.(epk) in
  let box := b64_decode blob.(Wire.box) in
  if negb (length epk =? 32)%nat || (length box <? NONCE_LEN + TAG_LEN)%nat then inr UNOPENABLE
  else match open_box epk box (b64_decode ownBusPrivB64) (b64_decode ownBusPubB64) (busAad from to id) with
       | None => inr UNOPENABLE
       | Some plaintext =>
           match decodeInnerPlaintext plaintext with
           | None => inr MALFORMED
           | Some (hJson, body, sig) =>
               match json_parse hJson ≫= InnerHeaderSchema with
               | None => inr MALFORMED
               | Some header =>
                   if bool_decide (header.(ih_from) ≠ from) || bool_decide (header.(ih_to) ≠ to) ||
                      bool_decide (header.(ih_id) ≠ id) then inr HEADER_MISMATCH
                   else if negb (verifyEd25519 senderEd25519PubB64 (busSignedBytes header body) sig) then inr BAD_SIGNATURE
                   else inl (header, body)
               end
           end
       end.

Definition isExpired (header : InnerHeader) (now : Z) : bool := header.(ih_expiresAt) + BUS_CLOCK_SKEW_MS <? now.
End crypto.

(** ** Framing is unambiguous *)

Definition short (f : bytes) : Prop := blen f < 2 ^ 32.

Lemma take_prefixed f rest : take 4 (prefixed f ++ rest) = writeUInt32BE (blen f).
Proof. done. Qed.

Lemma drop_prefixed f rest : drop 4 (prefixed f ++ rest) = f ++ rest.
Proof. done. Qed.

Lemma prefixed_inj f g r1 r2 : short f → short g → prefixed f ++ r1 = prefixed g ++ r2 → f = g ∧ r1 = r2.
Proof.
  intros Hf Hg Heq. assert (blen f = blen g) as Hlen.
  { rewrite <-(readUInt32BE_write (blen f)), <-(readUInt32BE_write (blen g)) by (unfold short in *; auto with js).
    by rewrite <-(take_prefixed f r1), <-(take_prefixed g r2), Heq. }
  apply (f_equal (drop 4)) in Heq. rewrite !drop_prefixed in Heq. apply app_inj_1 in Heq; [done|]. unfold blen in Hlen. lia.
Qed.

Lemma lengthPrefixed_cons f fs : lengthPrefixed (f :: fs) = prefixed f ++ lengthPrefixed fs.
Proof. done. Qed.

Lemma lengthPrefixed_inj fs gs : Forall short fs → Forall short gs → lengthPrefixed fs = lengthPrefixed gs → fs = gs.
Proof.
  intros Hf. revert gs. induction Hf as [|f fs Hf Hfs IH]; intros [|g gs] Hgs Heq; [done|done|done|].
  inversion Hgs; subst. rewrite !lengthPrefixed_cons in Heq. apply prefixed_inj in Heq as [-> Heq]; [|done..].
  f_equal. by apply IH.
Qed.

Lemma length_lengthPrefixed fs : (4 * length fs <= length (lengthPrefixed fs))%nat.
Proof.
  induction fs as [|f fs IH]; [done|]. rewrite lengthPrefixed_cons, length_app. unfold prefixed.
  rewrite length_app. simpl length. lia.
Qed.

Lemma decode_fields_prefixed fs fuel acc :
  Forall short fs → (length acc + length fs <= 3)%nat → (length fs <= fuel)%nat →
  decode_fields fuel acc (lengthPrefixed fs) = Some (acc ++ fs).
Proof.
  intros Hfs. revert fuel acc. induction Hfs as [|f fs Hf Hfs IH]; intros fuel acc Hlen Hfuel.
  - destruct fuel; simpl; by rewrite app_nil_r.
  - destruct fuel as [|fuel]; [simpl in Hfuel; lia|]. simpl in Hlen, Hfuel. rewrite lengthPrefixed_cons.
    change (decode_fields (S fuel) acc (prefixed f ++ lengthPrefixed fs)) with
      (if (length acc =? 3)%nat || (length (prefixed f ++ lengthPrefixed fs) <? 4)%nat then None
       else if blen (f ++ lengthPrefixed fs) <? readUInt32BE (writeUInt32BE (blen f)) then None
       else decode_fields fuel (acc ++ [take (Z.to_nat (readUInt32BE (writeUInt32BE (blen f)))) (f ++ lengthPrefixed fs)])
              (drop (Z.to_nat (readUInt32BE (writeUInt32BE (blen f)))) (f ++ lengthPrefixed fs))).
    rewrite (proj2 (Nat.eqb_neq _ _)) by lia. rewrite (proj2 (Nat.ltb_ge _ _)) by (rewrite length_app; simpl; lia).
    rewrite readUInt32BE_write by (unfold short in *; auto with js). simpl orb. cbv iota.
    rewrite (proj2 (Z.ltb_ge _ _)) by (rewrite blen_app; pose proof (blen_nonneg (lengthPrefixed fs)); lia).
    unfold blen. rewrite Nat2Z.id, take_app_length, drop_app_length. rewrite IH by (rewrite ?length_app; simpl; lia).
    by rewrite <-app_assoc.
Qed.

Lemma decode_encode_plaintext hJson body sig :
  short (utf8_encode hJson) → blen (utf8_encode body) <= BUS_MAX_PLAINTEXT_BYTES → SIG_B64 sig = true →
  short (utf8_encode sig) →
  decodeInnerPlaintext (encodeInnerPlaintext hJson body sig) = Some (hJson, body, sig).
Proof.
  intros Hh Hb Hsig Hs. unfold decodeInnerPlaintext, encodeInnerPlaintext.
  rewrite decode_fields_prefixed.
  - simpl. rewrite (proj2 (Z.ltb_ge _ _)) by done. rewrite utf8_decode_encode, Hsig. simpl.
    by rewrite !utf8_decode_encode.
  - repeat constructor; [done| |done]. unfold short, BUS_MAX_PLAINTEXT_BYTES in *. lia.
  - simpl. lia.
  - pose proof (length_lengthPrefixed [utf8_encode hJson; utf8_encode body; utf8_encode sig]) as Hl. simpl length in Hl |- *. lia.
Qed.

(** ** Lengths of the signed fields *)

Lemma blen_utf8 s : blen (utf8_encode s) <= 2 * strlen s.
Proof.
  unfold strlen. induction s as [|c s IH]; [done|]. simpl utf8_encode. rewrite blen_app.
  unfold utf8_char. simpl String.length. destruct (code c <? 128); unfold blen in *; simpl; lia.
Qed.

Lemma blen_utf8_ge s : strlen s <= blen (utf8_encode s).
Proof.
  unfold strlen. induction s as [|c s IH]; [done|]. simpl utf8_encode. rewrite blen_app.
  unfold utf8_char. simpl String.length. destruct (code c <? 128); unfold blen in *; simpl; lia.
Qed.

Lemma short_string s : strlen s <= 2 ^ 20 → short (utf8_encode s).
Proof. intros Hs. unfold short. pose proof (blen_utf8 s). lia. Qed.

Lemma length_pretty_N_go (k : nat) (x : N) (s : string) :
  (x < 10 ^ N.of_nat k)%N → (String.length (pretty.pretty_N_go x s) <= k + String.length s)%nat.
Proof.
  revert x s. induction k as [|k IH]; intros x s Hx.
  - replace x with 0%N by (simpl in Hx; lia). by rewrite pretty.pretty_N_go_0.
  - destruct (decide (0 < x)%N) as [Hp|Hz].
    + rewrite pretty.pretty_N_go_step by done. etrans; [apply IH|simpl; lia].
      rewrite Nat2N.inj_succ, N.pow_succ_r' in Hx. apply N.Div0.div_lt_upper_bound. lia.
    + replace x with 0%N by lia. rewrite pretty.pretty_N_go_0. lia.
Qed.

Lemma short_number n : 0 <= n <= MAX_SAFE → short (utf8_encode (String_of n)).
Proof.
  intros Hn. apply short_string. unfold strlen, String_of, pretty.pretty, pretty.pretty_Z.
  destruct n as [|p|p]; [simpl; lia| |lia]. unfold pretty.pretty, pretty.pretty_positive, pretty.pretty, pretty.pretty_N.
  destruct (decide _); [simpl; lia|]. pose proof (length_pretty_N_go 16 (Npos p) "") as Hl.
  assert (N.pos p < 10 ^ N.of_nat 16)%N as Hp by (unfold MAX_SAFE in Hn; simpl; lia).
  specialize (Hl Hp). simpl String.length in Hl at 2. lia.
Qed.

Lemma short_role r : short (utf8_encode (enum_name all_bus_roles r)).
Proof. apply short_string. by destruct r. Qed.
Lemma short_kind k : short (utf8_encode (enum_name all_bus_kinds k)).
Proof. apply short_string. by destruct k. Qed.
Lemma short_outcome o : short (utf8_encode (enum_name all_outcomes o)).
Proof. apply short_string. by destruct o. Qed.

#[export] Instance role_name_inj : Inj (=) (=) (enum_name all_bus_roles).
Proof. by intros [] []. Qed.
#[export] Instance kind_name_inj : Inj (=) (=) (enum_name all_bus_kinds).
Proof. by intros [] []. Qed.
#[export] Instance outcome_name_inj : Inj (=) (=) (enum_name all_outcomes).
Proof. by intros [] []. Qed.

(** ** Headers *)
Section headers.
Context `{!JsonText}.

Lemma int_field_iff lo hi k j n :
  - (2 ^ 53) < lo → hi < 2 ^ 53 → int_field lo hi k j = Some n ↔ field k j = Some (JInt n) ∧ lo <= n <= hi.
Proof.
  intros Hlo Hhi. unfold int_field. destruct (field k j) as [[| |m| | | |]|]; simpl; try (split; [done|by intros [[=] _]]).
  destruct (_ && _) eqn:Hs; simpl.
  - destruct ((lo <=? m) && (m <=? hi)) eqn:Hr; split; try done.
    + intros [= <-]. split; [done|]. reflect_bools. lia.
    + by intros [[= ->] _].
    + intros [[= ->] ?]. rewrite andb_false_iff, !Z.leb_gt in Hr. lia.
  - split; [done|]. intros [[= ->] ?]. rewrite andb_false_iff, !Z.ltb_ge in Hs. lia.
Qed.

Lemma string_field_iff p k j s : string_field p k j = Some s ↔ field k j = Some (JStr s) ∧ p s = true.
Proof.
  unfold string_field. destruct (field k j) as [[| | | |x| |]|]; simpl; try (split; [done|by intros [[=] _]]).
  destruct (p x) eqn:Hx; (split; [intros [= <-]; done|intros [[= ->] ?]; congruence]).
Qed.

Lemma role_field_iff k j r : enum_field all_bus_roles k j = Some r ↔ field k j = Some (JStr (role_text r)).
Proof.
  unfold enum_field. destruct (field k j) as [[| | | |x| |]|]; simpl; try (split; [done|by intros [=]]).
  unfold enum_parse. simpl. repeat (case_decide; simplify_eq/=); destruct r; split; intros [=]; simplify_eq/=; done.
Qed.

Lemma kind_field_iff k j r : enum_field all_bus_kinds k j = Some r ↔ field k j = Some (JStr (kind_text r)).
Proof.
  unfold enum_field. destruct (field k j) as [[| | | |x| |]|]; simpl; try (split; [done|by intros [=]]).
  unfold enum_parse. simpl. repeat (case_decide; simplify_eq/=); destruct r; split; intros [=]; simplify_eq/=; done.
Qed.

Lemma optional_string_iff p k j o :
  optional_field (string_that p) k j = Some o ↔ field k j = JStr <$> o ∧ ∀ c, o = Some c → p c = true.
Proof.
  unfold optional_field, string_that. destruct (field k j) as [[| | | |x| |]|]; simpl.
  5: destruct (p x) eqn:Hx; simpl.
  all: destruct o as [c|]; simpl; split; try done; try by intros [[=] ?].
  - intros [= <-]. split; [done|]. by intros y [= <-].
  - by intros [[= ->] _].
  - intros [[= ->] Hc]. specialize (Hc c eq_refl). congruence.
Qed.

Lemma times_ok_iff h :
  header_times_ok h = true ↔ h.(ih_sentAt) < h.(ih_expiresAt) ∧ h.(ih_expiresAt) <= h.(ih_sentAt) + 21600000.
Proof. unfold header_times_ok, BUS_MAX_TTL_MS. rewrite andb_true_iff, Z.ltb_lt, Z.leb_le. lia. Qed.

Lemma schema_reads j h : InnerHeaderSchema j = Some h ↔ says_header j h ∧ header_ok h.
Proof.
  assert (∀ lo, 0 <= lo → - (2 ^ 53) < lo) as Hlow by lia. assert (MAX_SAFE < 2 ^ 53) as Hsafe by (unfold MAX_SAFE; lia).
  unfold InnerHeaderSchema, says_header, header_ok. split.
  - intros Hp. simplify_option_eq. destruct (header_times_ok _) eqn:Hok; [|done]. injection Hp as <-. simpl in *.
    apply times_ok_iff in Hok. simpl in Hok.
    repeat match goal with
    | Hf : int_field _ _ _ _ = Some _ |- _ => apply int_field_iff in Hf as [? ?]; [|lia..]
    | Hf : string_field _ _ _ = Some _ |- _ => apply string_field_iff in Hf as [? ?]
    | Hf : enum_field all_bus_roles _ _ = Some _ |- _ => apply role_field_iff in Hf
    | Hf : enum_field all_bus_kinds _ _ = Some _ |- _ => apply kind_field_iff in Hf
    | Hf : optional_field _ _ _ = Some _ |- _ => apply optional_string_iff in Hf as [? ?]
    end.
    unfold MAX_SAFE in *. split; [split_and!; try done|split_and!; try done; lia].
    match goal with Hv : field "v" _ = Some (JInt ?n), Hn : 1 <= ?n <= 1 |- _ => rewrite Hv; do 2 f_equal; lia end.
  - destruct h as [fr to id ro ki co se ex]. simpl. intros [(Hv & Hf & Ht & Hi & Hr & Hk & Hc & Hs & He) (Uf & Ut & Ui & Uc & Hse & Hle & Hmax)].
    rewrite (proj2 (int_field_iff 1 1 "v" j 1 ltac:(lia) ltac:(lia))) by (split; [done|lia]). cbn [mbind option_bind].
    rewrite (proj2 (string_field_iff uuid "from" j fr)) by done. rewrite (proj2 (string_field_iff uuid "to" j to)) by done.
    rewrite (proj2 (string_field_iff uuid "id" j id)) by done. rewrite (proj2 (role_field_iff "role" j ro)) by done.
    rewrite (proj2 (kind_field_iff "kind" j ki)) by done. rewrite (proj2 (optional_string_iff uuid "correlationId" j co)) by done.
    cbn [mbind option_bind]. assert (9007199254740991 = MAX_SAFE) as Hm by done. rewrite Hm in Hmax.
    rewrite (proj2 (int_field_iff 0 MAX_SAFE "sentAt" j se ltac:(lia) Hsafe)) by (split; [done|lia]).
    rewrite (proj2 (int_field_iff 0 MAX_SAFE "expiresAt" j ex ltac:(lia) Hsafe)) by (split; [done|lia]).
    cbn [mbind option_bind]. rewrite (proj2 (times_ok_iff _)) by (simpl; lia). done.
Qed.

Lemma says_itself h : says_header (InnerHeader_json h) h.
Proof. unfold says_header, InnerHeader_json. destruct h as [fr to id [] [] [c|] se ex]; simpl; split_and!; done. Qed.

Lemma header_roundtrip h : header_ok h → InnerHeaderSchema (InnerHeader_json h) = Some h.
Proof. intros Hh. apply schema_reads. split; [apply says_itself|done]. Qed.

Lemma schema_header_ok j h : InnerHeaderSchema j = Some h → header_ok h.
Proof. by intros [_ ?]%schema_reads. Qed.
End headers.

(** ** Signatures as base64 *)

Lemma b64_char_of n : 0 <= n < 64 → b64_char (b64_of n) = true.
Proof.
  intros Hn. assert (Forall (λ k, b64_char (b64_of k) = true) (seqZ 0 64)) as Hall.
  { apply (bool_decide_unpack _). vm_compute. done. }
  rewrite Forall_forall in Hall. apply Hall. apply elem_of_seqZ. lia.
Qed.

Lemma b64_encode_one_over (k : nat) b : is_bytes b → length b = (3 * k + 1)%nat →
  ∃ p, b64_encode b = p +:+ "==" ∧ String.length p = (4 * k + 2)%nat ∧ string_forallb b64_char p = true.
Proof.
  revert b. induction k as [|k IH]; intros b Hb Hlen.
  - destruct b as [|x [|]]; simpl in Hlen; try lia. unfold is_bytes in Hb. rewrite Forall_singleton in Hb. unfold is_byte in Hb.
    exists (String (b64_of (x / 4)) (String (b64_of (x * 16 mod 64)) "")). cbn [b64_encode]. split_and!; [done|done|].
    simpl. by rewrite !b64_char_of by euclid.
  - destruct b as [|x [|y [|z b]]]; simpl in Hlen; try lia. unfold is_bytes in Hb. rewrite !Forall_cons in Hb.
    destruct Hb as (Hx & Hy & Hz & Hb). destruct (IH b Hb ltac:(lia)) as (p & Hp & Hl & Hf).
    unfold is_byte in *. cbn [b64_encode]. cbv zeta. rewrite Hp.
    eexists (String (b64_of _) (String (b64_of _) (String (b64_of _) (String (b64_of _) p)))).
    split; [reflexivity|]. split; [simpl; lia|]. simpl. by rewrite !b64_char_of by euclid.
Qed.

Lemma substring_app_l p s : String.substring 0 (String.length p) (p +:+ s) = p.
Proof. induction p as [|c p IH]; simpl; [by destruct s|]. by f_equal. Qed.

Lemma substring_app_r p s : String.substring (String.length p) (String.length s) (p +:+ s) = s.
Proof.
  induction p as [|c p IH]; simpl; [|done]. induction s as [|c s IH]; simpl; [done|]. by f_equal.
Qed.

Lemma signature_b64 sig : is_bytes sig → length sig = 64%nat → SIG_B64 (b64_encode sig) = true.
Proof.
  intros Hb Hlen. destruct (b64_encode_one_over 21 sig Hb Hlen) as (p & -> & Hl & Hf).
  unfold SIG_B64, b64_exactly. assert (86%nat = String.length p) as -> by lia.
  rewrite strlen_app, substring_app_l, (substring_app_r p "=="), Hf.
  unfold strlen. by rewrite Z.eqb_refl, bool_decide_eq_true_2.
Qed.

(** ** What the primitives are relied on for *)

Record CryptoLaws `{!Crypto} := {
  (** A pair of X25519 keys, raw; both sides derive the same secret. *)
  dh_pair : bytes → bytes → Prop;
  dh_agrees a A b B : dh_pair a A → dh_pair b B →
    diffieHellman (PKCS8_PREFIX ++ a) (SPKI_PREFIX ++ B) = diffieHellman (PKCS8_PREFIX ++ b) (SPKI_PREFIX ++ A);
  gcm_inverse key nonce aad p : is_bytes p →
    let '(ct, tag) := gcm_seal key nonce aad p in
    is_bytes ct ∧ is_bytes tag ∧ length tag = TAG_LEN ∧ gcm_open key nonce aad ct tag = Some p;
  (** A pair of Ed25519 keys, raw; signatures are 64 bytes and verify. *)
  signing_pair : bytes → bytes → Prop;
  signatures_verify seed pub m sig : signing_pair seed pub →
    ed25519_sign (ED25519_PKCS8_PREFIX ++ seed) m = Some sig →
    is_bytes sig ∧ length sig = 64%nat ∧ ed25519_verify (ED25519_SPKI_PREFIX ++ pub) m sig = Some true;
}.
#[global] Arguments CryptoLaws : clear implicits.
#[global] Arguments CryptoLaws {_}.

Section opens.
Context `{!Crypto, !JsonText} (laws : CryptoLaws).

Lemma signed_verifies seed pub m sigB64 :
  signing_pair laws (b64_decode seed) (b64_decode pub) → length (b64_decode pub) = 32%nat →
  signEd25519 seed m = Some sigB64 → SIG_B64 sigB64 = true ∧ verifyEd25519 pub m sigB64 = true.
Proof.
  intros Hpair Hlen. unfold signEd25519, rawSeedToPkcs8. destruct (_ =? _)%nat; [|done]. simpl.
  destruct (ed25519_sign _ m) as [sig|] eqn:Hs; [|done]. intros [= <-].
  destruct (signatures_verify laws _ _ _ _ Hpair Hs) as (Hb & Hl & Hv).
  split; [by apply signature_b64|]. unfold verifyEd25519. rewrite b64_decode_encode by done.
  by rewrite Hlen, Hl, Hv.
Qed.

Lemma prefixed_bytes f : is_bytes f → is_bytes (prefixed f).
Proof. intros Hf. apply Forall_app. split; [apply writeUInt32BE_bytes|done]. Qed.

Lemma lengthPrefixed_bytes fs : Forall is_bytes fs → is_bytes (lengthPrefixed fs).
Proof.
  induction 1 as [|f fs Hf _ IH]; [constructor|]. rewrite lengthPrefixed_cons. apply Forall_app. split; [|done].
  by apply prefixed_bytes.
Qed.

Lemma plaintext_bytes hJson body sig : is_bytes (encodeInnerPlaintext hJson body sig).
Proof. apply lengthPrefixed_bytes. repeat constructor; apply utf8_encode_bytes. Qed.

Lemma blen_prefixed f : blen (prefixed f) = 4 + blen f.
Proof. unfold prefixed. by rewrite blen_app. Qed.

Lemma plaintext_fits hJson body sig :
  blen (encodeInnerPlaintext hJson body sig) <= BUS_MAX_PLAINTEXT_BYTES →
  short (utf8_encode hJson) ∧ blen (utf8_encode body) <= BUS_MAX_PLAINTEXT_BYTES ∧ short (utf8_encode sig).
Proof.
  unfold encodeInnerPlaintext, short. rewrite !lengthPrefixed_cons, !blen_app, !blen_prefixed.
  pose proof (blen_nonneg (utf8_encode hJson)). pose proof (blen_nonneg (utf8_encode body)).
  pose proof (blen_nonneg (utf8_encode sig)). change (blen (lengthPrefixed [])) with 0. unfold BUS_MAX_PLAINTEXT_BYTES. lia.
Qed.

(** The slices the opener takes of a box are what the sealer put together. *)
Lemma box_slices (nonce ct tag : bytes) :
  length nonce = NONCE_LEN → length tag = TAG_LEN →
  let box := nonce ++ ct ++ tag in
  take NONCE_LEN box = nonce ∧ take (length box - TAG_LEN - NONCE_LEN) (drop NONCE_LEN box) = ct ∧
  drop (length box - TAG_LEN) box = tag ∧ (length box <? NONCE_LEN + TAG_LEN)%nat = false.
Proof.
  intros Hn Ht box. unfold box. rewrite !length_app, <-Hn, <-Ht, take_app_length, drop_app_length. split_and!.
  - done.
  - rewrite take_app_le by lia. apply take_ge. lia.
  - rewrite app_assoc. rewrite drop_app_ge by (rewrite length_app; lia). rewrite length_app.
    replace (_ - _ - _)%nat with 0%nat by lia. done.
  - apply Nat.ltb_ge. lia.
Qed.

(** C18: what a machine seals to another, the other opens: with the right keys on
    both sides the header and the body come out as they went in, whatever the
    body, as long as the sealer accepted it. *)
Theorem sealed_mail_opens (r : Fresh) h body seed busPriv busPub senderPub blob :
  header_ok h → json_parse (stringify (InnerHeader_json h)) = Some (InnerHeader_json h) →
  dh_pair laws r.(eph_private) r.(eph_public) → is_bytes r.(eph_public) → length r.(eph_public) = 32%nat →
  is_bytes r.(fresh_nonce) → length r.(fresh_nonce) = NONCE_LEN →
  dh_pair laws (b64_decode busPriv) (b64_decode busPub) →
  signing_pair laws (b64_decode seed) (b64_decode senderPub) → length (b64_decode senderPub) = 32%nat →
  sealBus r h body seed busPub = inl blob →
  openBus blob h.(ih_from) h.(ih_to) h.(ih_id) busPriv busPub senderPub = inl (h, body).
Proof.
  intros Hh Hjson Hdhe Hep Hel Hnb Hnl Hdhr Hsign Hspub. unfold sealBus.
  destruct (negb _); [done|]. destruct (signEd25519 seed _) as [sig|] eqn:Hs; [|done].
  set (plain := encodeInnerPlaintext _ body sig). destruct (_ <? blen plain) eqn:Hfit; [done|].
  unfold deriveSharedSecret. destruct (diffieHellman _ _) as [shared|] eqn:Hdh; [|done].
  pose proof (gcm_inverse laws (sealKey shared r.(eph_public) (b64_decode busPub)) r.(fresh_nonce)
    (busAad h.(ih_from) h.(ih_to) h.(ih_id)) plain (plaintext_bytes _ _ _)) as Hgcm.
  destruct (gcm_seal _ _ _ _) as [ct tag]. destruct Hgcm as (Hct & Htag & Htl & Hopen). intros [= <-].
  destruct (box_slices r.(fresh_nonce) ct tag Hnl Htl) as (Hs1 & Hs2 & Hs3 & Hs4).
  destruct (signed_verifies _ _ _ _ Hsign Hspub Hs) as [Hreg Hver].
  apply Z.ltb_ge in Hfit. destruct (plaintext_fits _ _ _ Hfit) as (Hf1 & Hf2 & Hf3).
  unfold openBus. cbn [epk Wire.box].
  rewrite !b64_decode_encode by (done || (apply Forall_app; split; [done|]; by apply Forall_app)).
  rewrite Hel, Hs4. change (negb (32 =? 32)%nat || false) with false. cbv iota zeta. unfold open_box. rewrite Hs1, Hs2, Hs3. unfold deriveSharedSecret.
  rewrite (dh_agrees laws _ _ _ _ Hdhr Hdhe), Hdh. cbn [mbind option_bind]. rewrite Hopen.
  unfold plain. rewrite decode_encode_plaintext by done. rewrite Hjson. cbn [mbind option_bind].
  rewrite header_roundtrip by done. rewrite !bool_decide_eq_false_2 by (intros Hne; by apply Hne). cbn [orb].
  by rewrite Hver.
Qed.
End opens.

(** ** Whose words they are *)
Section authentic.
Context `{!Crypto, !JsonText} (uuid_36 : ∀ s, uuid s = true → strlen s = 36).

(** What a sealer accepts, and more. *)
Definition sealable (m : InnerHeader * string) : Prop := header_ok m.1 ∧ short (utf8_encode m.2).

Definition mail_bytes (m : InnerHeader * string) : bytes := busSignedBytes m.1 m.2.

Lemma short_uuid s : uuid s = true → short (utf8_encode s).
Proof. intros Hu. apply short_string. rewrite uuid_36 by done. lia. Qed.

Lemma header_times h : header_ok h → 0 <= h.(ih_sentAt) <= MAX_SAFE ∧ 0 <= h.(ih_expiresAt) <= MAX_SAFE.
Proof. intros (_ & _ & _ & _ & Hs & Hle & He). unfold MAX_SAFE. lia. Qed.

Lemma correlation_short h : header_ok h → short (utf8_encode (h.(ih_correlationId) ?| EmptyString)).
Proof. intros (_ & _ & _ & Hc & _). destruct (ih_correlationId h) as [c|]; [by apply short_uuid, Hc|done]. Qed.

Lemma mail_fields_short m : sealable m → Forall short (utf8_encode <$>
    [BUS_SIG_LABEL; "1"; m.1.(ih_from); m.1.(ih_to); m.1.(ih_id); enum_name all_bus_roles m.1.(ih_role);
     enum_name all_bus_kinds m.1.(ih_kind); m.1.(ih_correlationId) ?| EmptyString; String_of m.1.(ih_sentAt);
     String_of m.1.(ih_expiresAt); m.2]).
Proof.
  intros [Hh Hb]. pose proof (header_times _ Hh) as [Hs He]. pose proof (correlation_short _ Hh) as Hc.
  destruct Hh as (Hf & Ht & Hi & _). rewrite !fmap_cons. repeat (apply Forall_cons; split); [done|done|..].
  all: eauto using short_uuid, short_role, short_kind, short_number.
Qed.

(** The signed bytes name the header and the body: nothing bleeds into its
    neighbour, an absent correlation id is not an empty one. *)
Lemma mail_bytes_inj m1 m2 : sealable m1 → sealable m2 → mail_bytes m1 = mail_bytes m2 → m1 = m2.
Proof.
  intros H1 H2 Heq. apply lengthPrefixed_inj in Heq; [|by apply mail_fields_short..].
  destruct m1 as [[f1 t1 i1 r1 k1 c1 s1 e1] b1], m2 as [[f2 t2 i2 r2 k2 c2 s2 e2] b2]. simpl in Heq.
  injection Heq as Hf Ht Hi Hr Hk Hc Hs He Hb.
  repeat match goal with Hx : utf8_encode _ = utf8_encode _ |- _ => apply (inj utf8_encode) in Hx end.
  apply (inj (enum_name all_bus_roles)) in Hr. apply (inj (enum_name all_bus_kinds)) in Hk.
  apply (inj String_of) in Hs, He. subst.
  assert (∀ c, uuid c = true → c ≠ EmptyString) as Hne.
  { intros c Hu ->. by apply uuid_36 in Hu. }
  destruct H1 as [(_ & _ & _ & H1 & _) _], H2 as [(_ & _ & _ & H2 & _) _]. simpl in *.
  destruct c1 as [c1|], c2 as [c2|]; simpl in Hc; subst; try done.
  - exfalso. by eapply Hne; [apply H1|].
  - exfalso. by eapply Hne; [apply H2|].
Qed.

(** A signature on mail is never one on an acknowledgement. *)
Lemma mail_is_no_ack m f : mail_bytes m ≠ busAckSignedBytes f.
Proof.
  unfold mail_bytes, busSignedBytes, busAckSignedBytes. rewrite !fmap_cons, !lengthPrefixed_cons. intros Heq.
  apply prefixed_inj in Heq as [Heq _]; [|done..]. by apply (inj utf8_encode) in Heq.
Qed.

Lemma decoded_shorter (n : nat) b s : (length b <= n)%nat → utf8_decode b = Some s → strlen s <= blen b.
Proof.
  revert b s. induction n as [|n IH]; intros [|x b] s Hn Hd; simpl in Hn; try lia.
  - by injection Hd as <-.
  - by injection Hd as <-.
  - simpl in Hd. destruct ((0 <=? x) && (x <? 128)).
    + destruct (utf8_decode b) as [s'|] eqn:Hs; [|done]. injection Hd as <-. apply IH in Hs; [|lia].
      unfold strlen, blen in *. simpl. lia.
    + destruct b as [|y b]; [done|]. case_match; [|done]. destruct (utf8_decode b) as [s'|] eqn:Hs; [|done].
      injection Hd as <-. apply IH in Hs; [|simpl in *; lia]. unfold strlen, blen in *. simpl. lia.
Qed.

Lemma decoded_body_fits buf hJson body sig : decodeInnerPlaintext buf = Some (hJson, body, sig) →
  strlen body <= BUS_MAX_PLAINTEXT_BYTES.
Proof.
  unfold decodeInnerPlaintext. destruct (decode_fields _ _ _) as [[|h [|b [|s [|]]]]|]; try done.
  destruct (_ <? blen b) eqn:Hfit; [done|]. destruct (utf8_decode s); [|done]. case_match; [done|].
  destruct (utf8_decode h); [|done]. simpl. destruct (utf8_decode b) as [b'|] eqn:Hb; [|done]. simpl. intros [= <- <- <-].
  apply Z.ltb_ge in Hfit. pose proof (decoded_shorter (length b) b b' ltac:(done) Hb). lia.
Qed.

(** What [openBus] checked of mail it opened. *)
Lemma openBus_checked blob from to id priv pub senderPub h body :
  openBus blob from to id priv pub senderPub = inl (h, body) →
  header_ok h ∧ h.(ih_from) = from ∧ h.(ih_to) = to ∧ h.(ih_id) = id ∧ strlen body <= BUS_MAX_PLAINTEXT_BYTES ∧
  ∃ sig, verifyEd25519 senderPub (mail_bytes (h, body)) sig = true.
Proof.
  unfold openBus. destruct (negb _ || _); [done|]. destruct (open_box _ _ _ _ _) as [buf|]; [|done].
  destruct (decodeInnerPlaintext buf) as [[[hJson b] sig]|] eqn:Hdec; [|done].
  destruct (json_parse hJson ≫= _) as [h'|] eqn:Hp; [|done]. destruct (_ || _ || _) eqn:Hne; [done|].
  destruct (negb (verifyEd25519 _ _ _)) eqn:Hv; [done|]. intros [= -> ->].
  apply bind_Some in Hp as (j & _ & Hp%schema_header_ok). reflect_bools.
  apply decoded_body_fits in Hdec. split_and!; try done; try by apply dec_stable. by exists sig.
Qed.

End authentic.

(** C20: the inner header's schema reads exactly the headers of the protocol.  It
    returns a header where the JSON object says it, field by field under its type,
    version 1, the correlation id absent or a text, and the header is one the
    protocol admits: every id is a UUID, the times are safe integers, the expiry is
    after the sending and at most six hours later.  Everything else is refused, and
    the object the sealer writes for such a header is read back as that header. *)
Theorem header_schema_exact `{!JsonText} j h :
  (InnerHeaderSchema j = Some h ↔
    (field "v" j = Some (JInt 1) ∧ field "from" j = Some (JStr h.(ih_from)) ∧ field "to" j = Some (JStr h.(ih_to)) ∧
     field "id" j = Some (JStr h.(ih_id)) ∧ field "role" j = Some (JStr (role_text h.(ih_role))) ∧
     field "kind" j = Some (JStr (kind_text h.(ih_kind))) ∧ field "correlationId" j = JStr <$> h.(ih_correlationId) ∧
     field "sentAt" j = Some (JInt h.(ih_sentAt)) ∧ field "expiresAt" j = Some (JInt h.(ih_expiresAt))) ∧
    uuid h.(ih_from) = true ∧ uuid h.(ih_to) = true ∧ uuid h.(ih_id) = true ∧
    (∀ c, h.(ih_correlationId) = Some c → uuid c = true) ∧
    0 <= h.(ih_sentAt) < h.(ih_expiresAt) ∧ h.(ih_expiresAt) <= h.(ih_sentAt) + 21600000 ∧ h.(ih_expiresAt) <= 9007199254740991) ∧
  (header_ok h → InnerHeaderSchema (InnerHeader_json h) = Some h).
Proof. split; [apply schema_reads|apply header_roundtrip]. Qed.

(** ** A toy instance *)

Definition demo_id (c : N) : string := Nat.iter 36 (String (Ascii.ascii_of_N c)) EmptyString.
Definition demo_header : InnerHeader := {|
  ih_from := demo_id 97; ih_to := demo_id 98; ih_id := demo_id 99; ih_role := as_agent; ih_kind := a_message;
  ih_correlationId := None; ih_sentAt := 1000; ih_expiresAt := 61000 |}.
Definition demo_body : string := "{}".

#[local] Instance demo_json : JsonText := {|
  stringify _ := "header"; json_parse _ := Some (InnerHeader_json demo_header); uuid s := strlen s =? 36 |}.

Definition demo_crypto (verifies : bytes → bool) : Crypto := {|
  ed25519_sign _ _ := Some (replicate 64 7);
  ed25519_verify _ m _ := Some (verifies m);
  diffieHellman _ _ := Some [];
  hkdf_sha256 _ _ _ _ := [];
  gcm_seal _ _ _ p := (p, replicate 16 0);
  gcm_open _ _ _ ct _ := Some ct;
|}.

Ltac few_bytes := repeat (apply Forall_cons; split; [unfold is_byte; lia|]); apply Forall_nil_2.

Program Definition demo_laws : @CryptoLaws (demo_crypto (λ _, true)) :=
  @Build_CryptoLaws (demo_crypto (λ _, true)) (λ _ _, True) _ _ (λ _ _, True) _.
Next Obligation. done. Qed.
Next Obligation. intros. simpl. split_and!; [done|few_bytes|done..]. Qed.
Next Obligation. intros. simpl in *. simplify_eq. split_and!; [few_bytes|done..]. Qed.

Definition demo_key : string := b64_encode (replicate 32 0).
Definition demo_fresh : Fresh := {| eph_public := replicate 32 1; eph_private := replicate 32 2; fresh_nonce := replicate 12 3 |}.
Definition demo_blob (verifies : bytes → bool) : BusBlob :=
  match @sealBus (demo_crypto verifies) demo_json demo_fresh demo_header demo_body demo_key demo_key with
  | inl b => b
  | inr _ => {| epk := EmptyString; box := EmptyString |}
  end.

Lemma demo_header_ok : header_ok demo_header.
Proof. by vm_compute. Qed.

Lemma sealed_mail_opens_witness :
  @openBus (demo_crypto (λ _, true)) demo_json (demo_blob (λ _, true)) (demo_id 97) (demo_id 98) (demo_id 99)
    demo_key demo_key demo_key = inl (demo_header, demo_body).
Proof.
  refine (@sealed_mail_opens (demo_crypto (λ _, true)) demo_json demo_laws demo_fresh demo_header demo_body
    demo_key demo_key demo_key demo_key (demo_blob (λ _, true)) _ _ _ _ _ _ _ _ _ _ _).
  - by vm_compute.
  - done.
  - done.
  - few_bytes.
  - done.
  - few_bytes.
  - done.
  - done.
  - done.
  - by vm_compute.
  - by vm_compute.
Defined.

Definition demo_verifies (m : bytes) : bool := bool_decide (m = mail_bytes (demo_header, demo_body)).

Lemma header_schema_exact_witness : InnerHeaderSchema (InnerHeader_json demo_header) = Some demo_header.
Proof. apply (proj2 (header_schema_exact (InnerHeader_json demo_header) demo_header)). apply demo_header_ok. Defined.
