(* ===== verification/SeenStore.v ===== *)
(** * SeenStore: the verdicts a machine remembers

    src/bridge/src/session-bus/seen-store.ts.  What was decided about each
    message another machine sent, so that a resend is answered again and not
    applied again.  The table [bus_seen] has one row per sending machine and
    message id; every hundredth record prunes what has expired and what exceeds
    the table's bound.

    SQLite's [ORDER BY at DESC] is a parameter, a function that sorts its rows
    newest first and says nothing about ties.  [works] says whether the database
    answered one call: where it did not, [withBusDb] returns the fallback. *)

From S2P Require Import Prelude Wire BusSeal.
From stdpp Require Import sorting.
From Stdlib Require Import Sorted.

Local Open Scope Z_scope.

Definition MAX_BUS_SEEN : nat := Z.to_nat 10000.
Definition PRUNE_EVERY : Z := 100.

Lemma MAX_BUS_SEEN_value : Z.of_nat MAX_BUS_SEEN = 10000.
Proof. unfold MAX_BUS_SEEN. lia. Qed.
#[global] Opaque MAX_BUS_SEEN.

(** The key of a row: the sending machine and the message's id. *)
Abbreviation mail_key := (string * string)%type (only parsing).

Record SeenRow := { seen_outcome : outcome; seen_code : option string; seen_response : option string }.

(** [outcome] is a column of text. *)
Record Stored := {
  st_key : mail_key;
  st_at : Z;
  st_expires_at : Z;
  st_outcome : string;
  st_code : option string;
  st_response : option string;
}.

#[export] Instance Stored_eq_dec : EqDecision Stored.
Proof. solve_decision. Defined.

Record SeenTable := { rows : list Stored; recorded : Z }.

Definition openSeenStore (found : list Stored) : SeenTable := {| rows := found; recorded := 0 |}.

(** [response.slice(0, BUS_MAX_PLAINTEXT_BYTES)] *)
Definition capped (response : string) : string := String.substring 0 (Z.to_nat BUS_MAX_PLAINTEXT_BYTES) response.

Definition find_seen (k : mail_key) (l : list Stored) : option Stored :=
  snd <$> list_find (λ r, r.(st_key) = k) l.

Definition read_seen (r : Stored) : option SeenRow :=
  o ← enum_parse all_outcomes r.(st_outcome);
  Some {| seen_outcome := o; seen_code := r.(st_code); seen_response := r.(st_response) |}.

Definition seen_get (works : bool) (k : mail_key) (t : SeenTable) : option SeenRow :=
  if works then find_seen k t.(rows) ≫= read_seen else None.

(** [INSERT ... ON CONFLICT (from_machine, id) DO UPDATE]: the row keeps its
    place. *)
Definition upsert (r : Stored) (l : list Stored) : list Stored :=
  match find_seen r.(st_key) l with
  | Some _ => (λ x, if bool_decide (x.(st_key) = r.(st_key)) then r else x) <$> l
  | None => l ++ [r]
  end.

Definition stored_verdict (k : mail_key) (row : SeenRow) (expiresAt at_ : Z) : Stored := {|
  st_key := k; st_at := at_; st_expires_at := expiresAt; st_outcome := enum_name all_outcomes row.(seen_outcome);
  st_code := row.(seen_code); st_response := capped <$> row.(seen_response) |}.

Section ordered.
Context (newest_first : list Stored → list Stored).

Definition unexpired (at_ : Z) (l : list Stored) : list Stored :=
  filter (λ r, ¬ (r.(st_expires_at) + BUS_CLOCK_SKEW_MS < at_)) l.

(** The rows past the bound, newest first, and the delete by their keys. *)
Definition overflowing (l : list Stored) : list Stored := drop MAX_BUS_SEEN (newest_first l).

Definition prune (at_ : Z) (l : list Stored) : list Stored :=
  let live := unexpired at_ l in
  filter (λ r, r.(st_key) ∉ st_key <$> overflowing live) live.

Definition seen_record (works : bool) (k : mail_key) (row : SeenRow) (expiresAt at_ : Z) (t : SeenTable) : SeenTable :=
  if works then
    let l := upsert (stored_verdict k row expiresAt at_) t.(rows) in
    let n := t.(recorded) + 1 in
    {| rows := if bool_decide (n `mod` PRUNE_EVERY ≠ 0) then l else prune at_ l; recorded := n |}
  else t.
End ordered.

(** ** The table keeps one row per key *)

#[export] Instance st_key_eq_dec (k : mail_key) : ∀ r, Decision (r.(st_key) = k).
Proof. intros r. apply _. Defined.

Definition one_each (l : list Stored) : Prop := NoDup (st_key <$> l).

Lemma find_seen_Some k l r : find_seen k l = Some r → r ∈ l ∧ r.(st_key) = k.
Proof.
  unfold find_seen. intros ([i x] & Hf & ->)%fmap_Some. apply list_find_Some in Hf as (Hl & Hk & _).
  split; [|done]. by eapply list_elem_of_lookup_2.
Qed.

Lemma find_seen_None k l : find_seen k l = None ↔ k ∉ st_key <$> l.
Proof.
  unfold find_seen. rewrite fmap_None, list_find_None, Forall_forall, list_elem_of_fmap. split.
  - intros Hn (r & -> & Hr). by apply (Hn r Hr).
  - intros Hn r Hr Hk. apply Hn. by exists r.
Qed.

Lemma elem_find_seen r l : one_each l → r ∈ l → find_seen r.(st_key) l = Some r.
Proof.
  intros Hnd Hr. destruct (find_seen r.(st_key) l) as [x|] eqn:Hf.
  - apply find_seen_Some in Hf as [Hx Hk]. f_equal. unfold one_each in Hnd.
    apply list_elem_of_lookup in Hx as [i Hi], Hr as [j Hj].
    assert (i = j) as ->; [|congruence].
    apply (NoDup_lookup (st_key <$> l) i j x.(st_key)); [done|by rewrite list_lookup_fmap, Hi|].
    by rewrite list_lookup_fmap, Hj, Hk.
  - apply find_seen_None in Hf. exfalso. apply Hf, list_elem_of_fmap. by exists r.
Qed.

Lemma upsert_keys r l : st_key <$> upsert r l = if decide (r.(st_key) ∈ st_key <$> l) then st_key <$> l else (st_key <$> l) ++ [r.(st_key)].
Proof.
  unfold upsert. destruct (find_seen _ l) as [x|] eqn:Hf.
  - rewrite decide_True. 2: { apply find_seen_Some in Hf as [Hx <-]. apply list_elem_of_fmap. by exists x. }
    rewrite <-list_fmap_compose. apply list_fmap_ext. intros i y _. simpl. by case_bool_decide.
  - apply find_seen_None in Hf. by rewrite decide_False, fmap_app.
Qed.

Lemma one_each_upsert r l : one_each l → one_each (upsert r l).
Proof.
  unfold one_each. intros Hl. rewrite upsert_keys. destruct (decide _); [done|].
  apply NoDup_app. split; [done|]. split; [|apply NoDup_singleton]. intros k Hk ->%list_elem_of_singleton. done.
Qed.

Lemma elem_upsert r l x : x ∈ upsert r l ↔ x = r ∨ (x ∈ l ∧ x.(st_key) ≠ r.(st_key)).
Proof.
  unfold upsert. destruct (find_seen _ l) as [y|] eqn:Hf.
  - apply find_seen_Some in Hf as [Hy Hk]. rewrite list_elem_of_fmap. split.
    + intros (z & -> & Hz). case_bool_decide; [by left|by right].
    + intros [->|[Hx Hne]].
      * exists y. by rewrite bool_decide_eq_true_2.
      * exists x. by rewrite bool_decide_eq_false_2.
  - apply find_seen_None in Hf. rewrite elem_of_app, list_elem_of_singleton. split.
    + intros [Hx| ->]; [right; split; [done|]|by left]. intros Hk. apply Hf. rewrite <-Hk. apply list_elem_of_fmap. by exists x.
    + intros [->|[Hx _]]; [by right|by left].
Qed.

Lemma one_each_filter (P : Stored → Prop) `{∀ x, Decision (P x)} l : one_each l → one_each (filter P l).
Proof. intros Hl. eapply sublist_NoDup; [apply Hl|]. apply fmap_sublist, sublist_filter. Qed.

(** ** What a prune takes *)
Section pruning.
Context (newest_first : list Stored → list Stored).
Context (sorts : ∀ l, newest_first l ≡ₚ l ∧ StronglySorted (λ a b, b.(st_at) <= a.(st_at)) (newest_first l)).

(** A row goes when it has expired or when the table's bound is taken up by
    live rows at least as new. *)
Lemma pruned_row at_ l r : one_each l → r ∈ l → r ∉ prune newest_first at_ l →
  r.(st_expires_at) + BUS_CLOCK_SKEW_MS < at_ ∨
  ∃ newer, newer ⊆ l ∧ one_each newer ∧ length newer = MAX_BUS_SEEN ∧
           Forall (λ x, x.(st_key) ≠ r.(st_key) ∧ r.(st_at) <= x.(st_at)) newer.
Proof.
  intros Hnd Hr Hgone. destruct (decide (r.(st_expires_at) + BUS_CLOCK_SKEW_MS < at_)) as [He|He]; [by left|right].
  set (live := unexpired at_ l). assert (r ∈ live) as Hlive by (by apply list_elem_of_filter).
  assert (one_each live) as Hlnd by (by apply one_each_filter).
  destruct (sorts live) as [Hperm Hsort]. set (sorted := newest_first live) in *.
  assert (one_each sorted) as Hsnd by (unfold one_each; by rewrite Hperm).
  assert (r ∈ drop MAX_BUS_SEEN sorted) as Hdrop.
  { destruct (decide (r.(st_key) ∈ st_key <$> overflowing newest_first live)) as [Hin|Hout].
    - apply list_elem_of_fmap in Hin as (x & Hk & Hx). unfold overflowing in Hx. fold sorted in Hx.
      assert (x = r) as <-; [|done]. assert (x ∈ sorted) as Hxs.
      { rewrite <-(take_drop MAX_BUS_SEEN sorted). apply elem_of_app. by right. }
      rewrite Hperm in Hxs. pose proof (elem_find_seen x live Hlnd Hxs) as H1.
      pose proof (elem_find_seen r live Hlnd Hlive) as H2. rewrite Hk in H2. congruence.
    - exfalso. apply Hgone. unfold prune. fold live. by apply list_elem_of_filter. }
  rewrite <-(take_drop MAX_BUS_SEEN sorted) in Hsort, Hsnd.
  assert (length sorted > MAX_BUS_SEEN)%nat as Hlen.
  { destruct (decide (length sorted <= MAX_BUS_SEEN)%nat) as [Hle|]; [|lia].
    rewrite drop_ge in Hdrop by done. by apply not_elem_of_nil in Hdrop. }
  exists (take MAX_BUS_SEEN sorted). split_and!.
  - intros x Hx. assert (x ∈ live) as Hxl.
    { rewrite <-Hperm. rewrite <-(take_drop MAX_BUS_SEEN sorted). apply elem_of_app. by left. }
    by apply list_elem_of_filter in Hxl as [_ ?].
  - unfold one_each in *. rewrite fmap_app in Hsnd. by apply NoDup_app in Hsnd as [? _].
  - rewrite length_take. lia.
  - apply Forall_forall. intros x Hx. split.
    + unfold one_each in Hsnd. rewrite fmap_app in Hsnd. apply NoDup_app in Hsnd as (_ & Hdis & _).
      intros Hk. apply (Hdis x.(st_key)); [apply list_elem_of_fmap; by exists x|]. rewrite Hk.
      apply list_elem_of_fmap. by exists r.
    + by apply (StronglySorted_app_1_elem_of _ _ _ x r Hsort).
Qed.

Lemma elem_prune at_ l x : x ∈ prune newest_first at_ l → x ∈ l.
Proof. unfold prune, unexpired. rewrite !list_elem_of_filter. tauto. Qed.

Lemma one_each_prune at_ l : one_each l → one_each (prune newest_first at_ l).
Proof. intros Hl. by do 2 apply one_each_filter. Qed.

End pruning.

(** ** Runs *)

Record Verdict := { v_key : mail_key; v_row : SeenRow; v_expiresAt : Z; v_at : Z }.

Definition row_of (v : Verdict) : Stored := stored_verdict v.(v_key) v.(v_row) v.(v_expiresAt) v.(v_at).

(** What is answered for a verdict. *)
Definition answer_of (v : Verdict) : SeenRow := {|
  seen_outcome := v.(v_row).(seen_outcome); seen_code := v.(v_row).(seen_code);
  seen_response := capped <$> v.(v_row).(seen_response) |}.

Definition run_seen (newest_first : list Stored → list Stored) (vs : list Verdict) : SeenTable :=
  foldl (λ t v, seen_record newest_first true v.(v_key) v.(v_row) v.(v_expiresAt) v.(v_at) t) (openSeenStore []) vs.

Definition last_verdict (k : mail_key) (vs : list Verdict) : option Verdict := last (filter (λ v, v.(v_key) = k) vs).

(** A verdict whose expiry, with the tolerated skew, is behind the clock of some
    record; one that [MAX_BUS_SEEN] other messages, as new or newer, crowd out. *)
Definition outlived (vs : list Verdict) (v : Verdict) : Prop :=
  ∃ w, w ∈ vs ∧ v.(v_expiresAt) + BUS_CLOCK_SKEW_MS < w.(v_at).
Definition crowded_out (vs : list Verdict) (v : Verdict) : Prop :=
  ∃ newer : list Stored, one_each newer ∧ length newer = MAX_BUS_SEEN ∧
    Forall (λ x, x.(st_key) ≠ v.(v_key) ∧ v.(v_at) <= x.(st_at) ∧ ∃ w, w ∈ vs ∧ x = row_of w) newer.

Lemma read_row_of v : read_seen (row_of v) = Some (answer_of v).
Proof. unfold read_seen, row_of, stored_verdict, answer_of. simpl. by destruct (seen_outcome _). Qed.

Lemma last_verdict_snoc k vs v :
  last_verdict k (vs ++ [v]) = if decide (v.(v_key) = k) then Some v else last_verdict k vs.
Proof.
  unfold last_verdict. rewrite filter_app, filter_cons, filter_nil. destruct (decide _); [by rewrite last_snoc|].
  by rewrite app_nil_r.
Qed.

Section runs.
Context (newest_first : list Stored → list Stored).
Context (sorts : ∀ l, newest_first l ≡ₚ l ∧ StronglySorted (λ a b, b.(st_at) <= a.(st_at)) (newest_first l)).

(** Every row is its key's last verdict, and a last verdict without a row was
    outlived or crowded out. *)
Definition table_ok (vs : list Verdict) (l : list Stored) : Prop :=
  one_each l ∧
  (∀ x, x ∈ l → ∃ v, last_verdict x.(st_key) vs = Some v ∧ v ∈ vs ∧ x = row_of v) ∧
  (∀ k v, last_verdict k vs = Some v → row_of v ∉ l → outlived vs v ∨ crowded_out vs v).

Lemma outlived_snoc vs w v : outlived vs v → outlived (vs ++ [w]) v.
Proof. intros (x & Hx & He). exists x. rewrite elem_of_app. auto. Qed.

Lemma crowded_out_snoc vs w v : crowded_out vs v → crowded_out (vs ++ [w]) v.
Proof.
  intros (n & H1 & H2 & H3). exists n. split_and!; [done..|]. eapply Forall_impl; [apply H3|]. simpl.
  intros x (? & ? & y & ? & ?). split_and!; [done..|]. exists y. rewrite elem_of_app. auto.
Qed.

Lemma table_ok_upsert vs l v : table_ok vs l → table_ok (vs ++ [v]) (upsert (row_of v) l).
Proof.
  intros (Hnd & Hrows & Hlost). split_and!.
  - by apply one_each_upsert.
  - intros x Hx. rewrite last_verdict_snoc. apply elem_upsert in Hx as [->|[Hx Hne]].
    + exists v. rewrite decide_True by done. split_and!; [done| |done]. apply elem_of_app. right. by apply list_elem_of_singleton.
    + destruct (Hrows x Hx) as (w & Hw & Hin & ->). exists w. rewrite decide_False by (intros Heq; by apply Hne).
      split_and!; [done| |done]. apply elem_of_app. by left.
  - intros k w. rewrite last_verdict_snoc. destruct (decide (v_key v = k)) as [<-|Hne]; intros Hl Hgone.
    + injection Hl as <-. exfalso. apply Hgone, elem_upsert. by left.
    + destruct (Hlost k w Hl) as [He|Hc]; [|left; by apply outlived_snoc|right; by apply crowded_out_snoc].
      intros Hin. apply Hgone, elem_upsert. right. split; [done|]. simpl.
      unfold last_verdict in Hl. apply last_Some_elem_of, list_elem_of_filter in Hl as [Hk _]. congruence.
Qed.

Lemma table_ok_prune vs l v : table_ok vs l → v ∈ vs → table_ok vs (prune newest_first v.(v_at) l).
Proof.
  intros (Hnd & Hrows & Hlost) Hv. split_and!.
  - by apply one_each_prune.
  - intros x Hx. apply Hrows. by eapply elem_prune.
  - intros k w Hl Hgone. destruct (decide (row_of w ∈ l)) as [Hin|Hout]; [|by eapply Hlost].
    destruct (pruned_row newest_first sorts _ _ _ Hnd Hin Hgone) as [He|(newer & Hsub & Hn1 & Hlen & Hall)].
    + left. by exists v.
    + right. exists newer. split_and!; [done..|]. apply Forall_forall. intros x Hx.
      rewrite Forall_forall in Hall. destruct (Hall x Hx) as [Hk Hat]. split_and!; [done..|].
      destruct (Hrows x (Hsub x Hx)) as (y & _ & Hy & ->). by exists y.
Qed.

Lemma run_seen_snoc vs v : run_seen newest_first (vs ++ [v]) =
  seen_record newest_first true v.(v_key) v.(v_row) v.(v_expiresAt) v.(v_at) (run_seen newest_first vs).
Proof. unfold run_seen. by rewrite foldl_app. Qed.

Lemma table_ok_run vs : table_ok vs (run_seen newest_first vs).(rows).
Proof.
  induction vs as [|v vs IH] using rev_ind.
  - split_and!; [constructor|by intros x ?%not_elem_of_nil|done].
  - rewrite run_seen_snoc. unfold seen_record. cbn [rows].
    assert (v ∈ vs ++ [v]) as Hv by (apply elem_of_app; right; by apply list_elem_of_singleton).
    case_bool_decide; [by apply table_ok_upsert|]. apply table_ok_prune; [|done]. by apply table_ok_upsert.
Qed.

End runs.

(** A machine's memory of its verdicts.  Whatever messages were decided and
    in whatever order, a lookup answers the last verdict on the message, its
    response included up to the cap, or nothing; and it answers nothing about a
    message that was decided only when the verdict had expired by the clock of
    some later record, or when ten thousand other messages at least as new had
    taken its place. *)
Theorem verdict_remembered (newest_first : list Stored → list Stored) vs k v :
  (∀ l, newest_first l ≡ₚ l ∧ StronglySorted (λ a b, b.(st_at) <= a.(st_at)) (newest_first l)) →
  last_verdict k vs = Some v →
  seen_get true k (run_seen newest_first vs) = Some (answer_of v) ∨
  seen_get true k (run_seen newest_first vs) = None ∧ (outlived vs v ∨ crowded_out vs v).
Proof.
  intros Hs Hl. destruct (table_ok_run newest_first Hs vs) as (Hnd & Hrows & Hlost). unfold seen_get.
  assert (v.(v_key) = k) as <-.
  { unfold last_verdict in Hl. by apply last_Some_elem_of, list_elem_of_filter in Hl as [? _]. }
  destruct (decide (row_of v ∈ (run_seen newest_first vs).(rows))) as [Hin|Hout].
  - left. rewrite (elem_find_seen (row_of v)) by done. apply read_row_of.
  - right. split; [|by eapply Hlost]. destruct (find_seen v.(v_key) _) as [x|] eqn:Hf; [|done].
    apply find_seen_Some in Hf as [Hx Hk]. destruct (Hrows x Hx) as (w & Hw & _ & ->). rewrite Hk in Hw. congruence.
Qed.

(** ** A concrete order *)

Definition by_age (a b : Stored) : Prop := b.(st_at) <= a.(st_at).
#[export] Instance by_age_dec : RelDecision by_age.
Proof. intros a b. unfold by_age. apply _. Defined.
#[export] Instance by_age_total : Total by_age.
Proof. intros a b. unfold by_age. lia. Qed.
#[export] Instance by_age_trans : Transitive by_age.
Proof. intros a b c. unfold by_age. lia. Qed.

Lemma merge_sort_sorts l : merge_sort by_age l ≡ₚ l ∧ StronglySorted (λ a b, b.(st_at) <= a.(st_at)) (merge_sort by_age l).
Proof. split; [apply merge_sort_Permutation|apply (StronglySorted_merge_sort by_age)]. Qed.

Definition demo_verdict : Verdict := {|
  v_key := ("m1", "i1"); v_row := {| seen_outcome := refused; seen_code := Some "STALE"; seen_response := None |};
  v_expiresAt := 1000; v_at := 0 |}.

Lemma verdict_remembered_witness :
  seen_get true ("m1", "i1") (run_seen (merge_sort by_age) [demo_verdict]) = Some (answer_of demo_verdict) ∨
  seen_get true ("m1", "i1") (run_seen (merge_sort by_age) [demo_verdict]) = None ∧
  (outlived [demo_verdict] demo_verdict ∨ crowded_out [demo_verdict] demo_verdict).
Proof. apply (verdict_remembered (merge_sort by_age) [demo_verdict] ("m1", "i1") demo_verdict merge_sort_sorts). reflexivity. Defined.
