(* ===== verification/BusTransport.v ===== *)
(** * BusTransport: session-bus mail over the relay

    src/bridge/src/session-bus/relay-transport.ts, the whole class
    [RelayBusTransport].  What leaves is sealed and paced; what arrives is
    opened, attributed to a machine of the account's directory, deduplicated by
    the seen store and handed to the host, one delivery at a time; every verdict
    is acknowledged under the machine's signature.

    The chain of deliveries is cut at its two awaits: [phase] is where the
    delivery in hand waits, [inbox] the deliveries behind it.  Each handler runs
    at one instant: an [Instant] holds what its clocks, its keys, the directory,
    the link and the database answer there.  The token count is in thousandths,
    times are whole milliseconds.  What the class does to the outside is
    appended to [trace].  Log lines are left out. *)

From S2P Require Import Prelude JsMap Wire Buffers BusSeal SeenStore.
From stdpp Require sorting.
From Stdlib Require Sorted.
From coqutil Require Import Datatypes.RecordSetters.
Import DoubleBraceUpdate.

Local Open Scope Z_scope.
Local Open Scope js_scope.

#[global] Arguments constant {E} newValue / _.

(** ** Constants *)

Definition BUS_LINK_FRAMES_PER_SEC : Z := 8.
Definition BUS_LINK_BURST : Z := 24.
Definition MAX_PENDING_INBOUND : Z := 64.
Definition BUS_DRAIN_MIN_INTERVAL_MS : Z := 5000.
Definition BUS_ACK_FLUSH_MS : Z := 125.
Definition MAX_QUEUED_ACKS : nat := Z.to_nat 512.
#[global] Opaque MAX_QUEUED_ACKS.

(** [/^[0-9a-f]{8}-...-[0-9a-f]{12}$/i] *)
Definition is_hex (c : Ascii.ascii) : bool := is_digit c || in_range 97 102 c || in_range 65 70 c.
Definition UUID (s : string) : bool :=
  let groups := split_on (Ascii.ascii_of_N 45) s in
  bool_decide (String.length <$> groups = [8; 4; 4; 4; 12]%nat) && forallb (string_forallb is_hex) groups.

(** ** Data *)

Inductive BusHeldReason :=
| no_transport | central_offline | relay_unsupported | directory_unavailable | no_bus_key | paced | remote_access_off
| relay_queue_full | relay_rate_limited | relay_recipient_outdated | ack_unverified | recipient_key_stale.
#[export] Instance BusHeldReason_eq_dec : EqDecision BusHeldReason.
Proof. solve_decision. Defined.

Inductive SendRefusal := too_large | past_expiry.
Inductive BusSendResult := Sent | NotSent (reason : BusHeldReason) | SendRefused (code : SendRefusal).

Inductive TransportOutcome := Relayed | Applied | Refused (code : string) | Retry (reason : BusHeldReason).
#[export] Instance TransportOutcome_eq_dec : EqDecision TransportOutcome.
Proof. solve_decision. Defined.

Inductive InboundVerdict := VApplied (response : option string) | VRefused (code : string) | VDefer.

Record BusSendInput := {
  si_to : string; si_id : string; si_kind : BusKind; si_correlationId : option string;
  si_body : json; si_sentAt : Z; si_expiresAt : Z; si_role : BusRole }.

Record DeliverFrame := { df_id : string; df_from : string; df_blob : BusBlob }.
Record AckFrame := { af_id : string; af_outcome : outcome; af_code : option string; af_sig : string }.

(** The account's directory, as the wire carries it and machine-directory.ts
    reads it. *)
Record MachineEntry := {
  me_deviceId : string; me_ed25519Pub : string; me_busPublicKey : option string; me_orchestrator : bool }.
Record DirectoryView := { dv_allowed : bool; dv_machines : list MachineEntry }.

Definition find_machine (d : string) (v : DirectoryView) : option MachineEntry :=
  snd <$> list_find (λ m, m.(me_deviceId) = d) v.(dv_machines).

Inductive LinkState := ready | offline | unsupported.

(** [accepts n] is what the [n]th [sendBus] of the instant returns. *)
Record Link := { can_send : bool; link_state : option LinkState; accepts : nat → bool }.

Record Instant := {
  t_now : Z;                                 (** the relay-corrected clock *)
  t_local : Z;                               (** the wall clock *)
  i_self : option string;
  i_seed : option string;
  i_busKey : option (string * string);       (** private, public *)
  i_directory : option DirectoryView;
  i_link : option Link;
  i_remoteAccess : bool;
  i_fresh : Fresh;
  i_db : bool;
}.

(** [directory.machine] and [directory.busKeyFor]. *)
Definition machine (i : Instant) (d : string) : option MachineEntry := i.(i_directory) ≫= find_machine d.
Definition busKeyFor (i : Instant) (d : string) : option string :=
  v ← i.(i_directory); check v.(dv_allowed); m ← find_machine d v; m.(me_busPublicKey).

(** [!s] of a string that may be null. *)
Definition truthy (o : option string) : option string :=
  match o with Some EmptyString => None | _ => o end.

Inductive RefusalRule := Rule (retryable : bool) (o : TransportOutcome).

Definition REFUSAL_RULES (r : BusRefusalReason) : RefusalRule :=
  match r with
  | queue_full => Rule true (Retry relay_queue_full)
  | rate_limited => Rule true (Retry relay_rate_limited)
  | recipient_outdated => Rule true (Retry relay_recipient_outdated)
  | not_agent => Rule false (Refused "RELAY_NOT_AGENT")
  | self => Rule false (Refused "RELAY_SELF")
  | expired => Rule false (Refused "EXPIRED")
  end.

(** What was offered to the link. *)
Inductive LinkFrame :=
| FSend (id to : string) (blob : BusBlob) (ttlMs : Z)
| FAck (a : AckFrame)
| FDrain.

Inductive Effect :=
| EOffered (f : LinkFrame) (ok : bool)
| EOutcome (id to : string) (o : TransportOutcome)
| EReplay (from id response : string) (expiresAt : Z)
| EInbound (from id : string) (header : InnerHeader) (body : json) (role : BusRole)
| EDecided (from id : string) (o : outcome) (code : option string)
| EAckQueued (from id : string) (o : outcome) (code : option string)
| ESetAside (from id : string) (at_ : Z)     (** not acknowledged: the relay still holds it *)
| EIgnored (from id : string)
| EKick.

Inductive ChainPhase :=
| Resting
| AwaitFresh (msg : DeliverFrame) (me : string)
| AwaitInbound (msg : DeliverFrame) (header : InnerHeader).

Record Transport := {
  tokens : Z;
  tokensAt : option Z;
  inbox : list DeliverFrame;
  phase : ChainPhase;
  pending : Z;
  drainWanted : bool;
  lastDrainAt : option Z;
  drainTimer : option Z;
  ackTimer : option Z;
  acks : list AckFrame;
  stopped : bool;
  seen : SeenTable;
  trace : list Effect;
}.

Definition new_transport (found : list Stored) : Transport := {|
  tokens := 1000 * BUS_LINK_BURST; tokensAt := None; inbox := []; phase := Resting; pending := 0;
  drainWanted := false; lastDrainAt := None; drainTimer := None; ackTimer := None; acks := []; stopped := false;
  seen := openSeenStore found; trace := [] |}.

Definition emit (e : Effect) (w : Transport) : Transport := w {{ trace := w.(trace) ++ [e] }}.

Section transport.
Context `{!Crypto, !JsonText} (newest_first : list Stored → list Stored).
Implicit Types (i : Instant) (w : Transport).

(** ** Pacing *)

Definition refill i w : Transport :=
  let earned := match w.(tokensAt) with
    | Some at_ => if at_ <? i.(t_now)
                  then Z.min (1000 * BUS_LINK_BURST) (w.(tokens) + (i.(t_now) - at_) * BUS_LINK_FRAMES_PER_SEC)
                  else w.(tokens)
    | None => w.(tokens)
    end in
  w {{ tokens := earned; tokensAt := Some i.(t_now) }}.

Definition takeToken i w : bool * Transport :=
  let w := refill i w in
  if w.(tokens) <? 1000 then (false, w) else (true, w {{ tokens := w.(tokens) - 1000 }}).

Definition returnToken w : Transport := w {{ tokens := Z.min (1000 * BUS_LINK_BURST) (w.(tokens) + 1000) }}.

(** ** Drains *)

Definition sendDrain i w : Transport :=
  if w.(stopped) then w
  else let w := w {{ lastDrainAt := Some i.(t_now) }} in
       match i.(i_link) with
       | Some l => if l.(can_send) then emit (EOffered FDrain (l.(accepts) 0%nat)) w else w
       | None => w
       end.

Definition requestDrain i w : Transport :=
  if w.(stopped) then w
  else let wait := match w.(lastDrainAt) with
         | Some at_ => at_ + BUS_DRAIN_MIN_INTERVAL_MS - i.(t_now)
         | None => 0
         end in
       if wait <=? 0 then sendDrain i (w {{ drainTimer := None }})
       else match w.(drainTimer) with
            | Some _ => w
            | None => w {{ drainTimer := Some (i.(t_now) + wait) }}
            end.

Definition onAuthenticated i w : Transport := sendDrain i w.

Definition drain_fires i w : Transport := sendDrain i (w {{ drainTimer := None }}).

Definition stop w : Transport := w {{ stopped := true; drainTimer := None; ackTimer := None; acks := [] }}.

(** ** Sending *)

(** The header of an outgoing message, or why there is none. *)
Definition lifetime_of (s : BusSendInput) : Z := Z.min (s.(si_expiresAt) - s.(si_sentAt)) BUS_MAX_TTL_MS.
Definition elapsed_of i (s : BusSendInput) : Z := Z.max 0 (i.(t_local) - s.(si_sentAt)).

Definition outgoing_header i (me : string) (s : BusSendInput) : InnerHeader :=
  let sentAt := i.(t_now) - elapsed_of i s in
  {| ih_from := me; ih_to := s.(si_to); ih_id := s.(si_id); ih_role := s.(si_role); ih_kind := s.(si_kind);
     ih_correlationId := truthy s.(si_correlationId); ih_sentAt := sentAt; ih_expiresAt := sentAt + lifetime_of s |}.

(** The link to send on, in the order the source asks. *)
Definition usable_link i : Link + BusHeldReason :=
  match i.(i_link) with
  | None => inr no_transport
  | Some l => if negb l.(can_send) then inr relay_unsupported
              else match l.(link_state) ?| unsupported with
                   | offline => inr central_offline
                   | unsupported => inr relay_unsupported
                   | ready => inl l
                   end
  end.

Definition send i (s : BusSendInput) w : BusSendResult * Transport :=
  if negb i.(i_remoteAccess) then (NotSent remote_access_off, w)
  else match truthy i.(i_self) with
  | None => (NotSent no_transport, w)
  | Some me =>
  if negb (UUID s.(si_to)) || bool_decide (s.(si_to) = me) then (NotSent no_transport, w)
  else if (lifetime_of s <=? 0) || (lifetime_of s <=? elapsed_of i s) then (SendRefused past_expiry, w)
  else match usable_link i with
  | inr reason => (NotSent reason, w)
  | inl l =>
  match i.(i_directory) with
  | None => (NotSent directory_unavailable, emit EKick w)
  | Some _ =>
  match truthy (busKeyFor i s.(si_to)) with
  | None => (NotSent no_bus_key, emit EKick w)
  | Some recipientKey =>
  match truthy i.(i_seed) with
  | None => (NotSent no_transport, w)
  | Some seed =>
      let header := outgoing_header i me s in
      match sealBus i.(i_fresh) header (stringify s.(si_body)) seed recipientKey with
      | inr PLAINTEXT_TOO_LARGE => (SendRefused too_large, w)
      | inr BAD_RECIPIENT_KEY => (NotSent no_bus_key, emit EKick w)
      | inl blob =>
          let '(taken, w) := takeToken i w in
          if negb taken then (NotSent paced, w)
          else let f := FSend s.(si_id) s.(si_to) blob (Z.max 1 (header.(ih_expiresAt) - i.(t_now))) in
               if l.(accepts) 0%nat then (Sent, emit (EOffered f true) w)
               else (NotSent central_offline, returnToken (emit (EOffered f false) w))
      end
  end end end end end.

(** ** Acknowledgements *)

Definition scheduleAckFlush i (delay : Z) w : Transport :=
  match w.(ackTimer) with
  | Some _ => w
  | None => if w.(stopped) then w else w {{ ackTimer := Some (i.(t_now) + delay) }}
  end.

(** The loop offers the head until the tokens or the link stop it. *)
Fixpoint flush_loop i (l : Link) (n : nat) (queue : list AckFrame) w : Transport :=
  match queue with
  | [] => w {{ acks := [] }}
  | a :: rest =>
      let '(taken, w) := takeToken i w in
      if negb taken then w {{ acks := queue }}
      else if l.(accepts) n then flush_loop i l (S n) rest (emit (EOffered (FAck a) true) w)
      else (returnToken (emit (EOffered (FAck a) false) w)) {{ acks := queue }}
  end.

Definition flushAcks i w : Transport :=
  if w.(stopped) then w
  else let w := match i.(i_link) with
         | Some l => if l.(can_send) then flush_loop i l 0 w.(acks) w else w
         | None => w
         end in
       match w.(acks) with [] => w | _ => scheduleAckFlush i BUS_ACK_FLUSH_MS w end.

Definition ack_fires i w : Transport := flushAcks i (w {{ ackTimer := None }}).

Definition defer i (id from : string) w : Transport :=
  emit (ESetAside from id i.(t_now)) (w {{ drainWanted := true }}).

(** A signature that throws ends the delivery in the chain's [catch], which
    wants a drain as the missing key does. *)
Definition ack i (from id : string) (o : outcome) (code : option string) w : Transport :=
  match truthy i.(i_self), truthy i.(i_seed) with
  | Some me, Some seed =>
      match signBusAck seed {| ak_from := from; ak_to := me; ak_id := id; ak_outcome := o; ak_code := code |} with
      | None => defer i id from w
      | Some sig =>
          let kept := if (MAX_QUEUED_ACKS <=? length w.(acks))%nat then tail w.(acks) else w.(acks) in
          scheduleAckFlush i 0 (emit (EAckQueued from id o code)
            (w {{ acks := kept ++ [{| af_id := id; af_outcome := o; af_code := truthy code; af_sig := sig |}] }}))
      end
  | _, _ => defer i id from w
  end.


(** ** Outcomes *)

Definition handleAcked i (id to : string) (o : outcome) (code : option string) (sig : string) w : Transport :=
  let peerPub := (λ m, m.(me_ed25519Pub)) <$> machine i to in
  let verified := match truthy i.(i_self), truthy peerPub with
    | Some me, Some pub => verifyBusAck pub {| ak_from := me; ak_to := to; ak_id := id; ak_outcome := o; ak_code := code |} sig
    | _, _ => false
    end in
  if negb verified then
    let w := match truthy peerPub with None => emit EKick w | Some _ => w end in
    emit (EOutcome id to (Retry ack_unverified)) w
  else match o with
       | applied => emit (EOutcome id to Applied) w
       | refused =>
           let code := code ?| "MALFORMED" in
           if bool_decide (code = "UNOPENABLE") then emit (EOutcome id to (Retry recipient_key_stale)) (emit EKick w)
           else emit (EOutcome id to (Refused code)) w
       end.

Definition handleRefused (id to : string) (reason : BusRefusalReason) (retryable : bool) w : Transport :=
  let '(Rule expected o) := REFUSAL_RULES reason in
  if negb (eqb expected retryable) then
    emit (EOutcome id to (match o with Retry _ => o | _ => Retry relay_rate_limited end)) w
  else emit (EOutcome id to o) w.

(** ** The chain of deliveries *)

(** [processDeliver] past the directory: up to the host's verdict, or done. *)
Definition open_delivery i (msg : DeliverFrame) (me : string) (entry : MachineEntry) w : Transport :=
  let from := msg.(df_from) in
  let id := msg.(df_id) in
  match i.(i_busKey) with
  | None => defer i id from w
  | Some (priv, pub) =>
      match openBus msg.(df_blob) from me id priv pub entry.(me_ed25519Pub) with
      | inr e => ack i from id refused (Some (match e with
          | UNOPENABLE => "UNOPENABLE" | MALFORMED => "MALFORMED"
          | BAD_SIGNATURE => "BAD_SIGNATURE" | HEADER_MISMATCH => "HEADER_MISMATCH" end)) w
      | inl (h, text) =>
          match seen_get i.(i_db) (from, id) w.(seen) with
          | Some row =>
              let w := match row.(seen_response) with
                | Some response => emit (EReplay from h.(ih_id) response h.(ih_expiresAt)) w
                | None => w
                end in
              ack i from id row.(seen_outcome) row.(seen_code) w
          | None =>
              if isExpired h i.(t_now) then ack i from id refused (Some "STALE") w
              else match json_parse text with
                   | None => ack i from id refused (Some "MALFORMED") w
                   | Some body =>
                       let role := if bool_decide (h.(ih_role) = as_orchestrator) && entry.(me_orchestrator)
                                   then as_orchestrator else as_agent in
                       (emit (EInbound from id h body role) w) {{ phase := AwaitInbound msg h }}
                   end
          end
      end
  end.

(** What the directory says of the sender, fetched just now ([fresh]) or not. *)
Definition vet_sender i (msg : DeliverFrame) (me : string) (fresh : bool) w : Transport :=
  let from := msg.(df_from) in
  match i.(i_directory) with
  | Some v =>
      if negb v.(dv_allowed) then defer i msg.(df_id) from w
      else match find_machine from v with
           | Some entry => open_delivery i msg me entry w
           | None => if negb fresh then defer i msg.(df_id) from w
                     else ack i from msg.(df_id) refused (Some "UNKNOWN_SENDER") w
           end
  | None => defer i msg.(df_id) from w
  end.

Definition begin_delivery i (msg : DeliverFrame) w : Transport :=
  match truthy i.(i_self) with
  | None => emit (EIgnored msg.(df_from) msg.(df_id)) w
  | Some me =>
      if bool_decide (msg.(df_from) = me) then emit (EIgnored msg.(df_from) msg.(df_id)) w
      else match truthy i.(i_seed) with
           | None => defer i msg.(df_id) msg.(df_from) w
           | Some _ =>
               let known := match i.(i_directory) with
                 | Some v => v.(dv_allowed) && bool_decide (is_Some (find_machine msg.(df_from) v))
                 | None => false
                 end in
               if known then vet_sender i msg me false w
               else w {{ phase := AwaitFresh msg me }}
           end
  end.

(** [finally]: the delivery in hand is done. *)
Definition finish i w : Transport :=
  let w := w {{ pending := w.(pending) - 1 }} in
  if (w.(pending) =? 0) && w.(drainWanted) then requestDrain i (w {{ drainWanted := false }}) else w.

(** The microtasks after a handler: deliveries run one after the other until one
    waits or none is left. *)
Fixpoint run_chain (fuel : nat) i w : Transport :=
  match w.(phase), w.(inbox), fuel with
  | Resting, msg :: rest, S fuel =>
      let w := begin_delivery i msg (w {{ inbox := rest }}) in
      match w.(phase) with Resting => run_chain fuel i (finish i w) | _ => w end
  | _, _, _ => w
  end.

Definition continue_chain i w : Transport :=
  match w.(phase) with
  | Resting => let w := finish i w in run_chain (length w.(inbox)) i w
  | _ => w
  end.

(** [ensureFresh] settles. *)
Definition fresh_settles i (fresh : bool) w : Transport :=
  match w.(phase) with
  | AwaitFresh msg me => continue_chain i (vet_sender i msg me fresh (w {{ phase := Resting }}))
  | _ => w
  end.

(** [onInbound] settles: a verdict, or [None] where it threw. *)
Definition decide_delivery i (from id : string) (h : InnerHeader) (verdict : option InboundVerdict) w : Transport :=
  let record o code response w :=
    emit (EDecided from id o code)
      (w {{ seen := seen_record newest_first i.(i_db) (from, id)
              {| seen_outcome := o; seen_code := code; seen_response := response |} h.(ih_expiresAt) i.(t_local) w.(seen) }}) in
  match verdict with
  | None | Some VDefer => defer i id from w
  | Some (VApplied response) => ack i from id applied None (record applied None response w)
  | Some (VRefused code) => ack i from id refused (Some code) (record refused (Some code) None w)
  end.

Definition inbound_settles i (verdict : option InboundVerdict) w : Transport :=
  match w.(phase) with
  | AwaitInbound msg h => continue_chain i (decide_delivery i msg.(df_from) msg.(df_id) h verdict (w {{ phase := Resting }}))
  | _ => w
  end.

Definition enqueueDeliver i (msg : DeliverFrame) w : Transport :=
  if MAX_PENDING_INBOUND <=? w.(pending) then requestDrain i (emit (ESetAside msg.(df_from) msg.(df_id) i.(t_now)) w)
  else let w := w {{ pending := w.(pending) + 1; inbox := w.(inbox) ++ [msg] }} in
       run_chain (length w.(inbox)) i w.

Definition handleFrame i (msg : ServerMessage) w : Transport :=
  if w.(stopped) then w
  else match msg with
       | BusReceipt id to _ => emit (EOutcome id to Relayed) w
       | BusAcked id to o c sig => handleAcked i id to o c sig w
       | Wire.BusRefused id to reason retryable => handleRefused id to reason retryable w
       | BusDeliver id from blob => enqueueDeliver i {| df_id := id; df_from := from; df_blob := blob |} w
       | _ => w
       end.

(** ** Events *)

Inductive TransportEvent :=
| EvSend (s : BusSendInput)
| EvAuthenticated
| EvStop
| EvFrame (msg : ServerMessage)
| EvFresh (fresh : bool)
| EvVerdict (verdict : option InboundVerdict)
| EvAckTimer
| EvDrainTimer.

Definition transport_event i (e : TransportEvent) w : Transport :=
  match e with
  | EvSend s => snd (send i s w)
  | EvAuthenticated => onAuthenticated i w
  | EvStop => stop w
  | EvFrame msg => handleFrame i msg w
  | EvFresh fresh => fresh_settles i fresh w
  | EvVerdict v => inbound_settles i v w
  | EvAckTimer => match w.(ackTimer) with Some _ => ack_fires i w | None => w end
  | EvDrainTimer => match w.(drainTimer) with Some _ => drain_fires i w | None => w end
  end.

Lemma run_chain_step fuel i w :
  run_chain (S fuel) i w =
    match w.(phase), w.(inbox) with
    | Resting, msg :: rest =>
        match (begin_delivery i msg (w {{ inbox := rest }})).(phase) with
        | Resting => run_chain fuel i (finish i (begin_delivery i msg (w {{ inbox := rest }})))
        | _ => begin_delivery i msg (w {{ inbox := rest }})
        end
    | _, _ => w
    end.
Proof. simpl. by destruct (phase w), (inbox w). Qed.

Lemma run_chain_0 i w : run_chain 0 i w = w.
Proof. simpl. by destruct (phase w), (inbox w). Qed.

Definition run_transport (evs : list (Instant * TransportEvent)) w : Transport :=
  foldl (λ w ie, transport_event ie.1 ie.2 w) w evs.
End transport.

(** ** What stays where it is

    Sending, acknowledging and hearing of outcomes move tokens and queues of
    frames; the chain of deliveries, the drains and the table are not theirs. *)

Definition quiet_effect (e : Effect) : bool :=
  match e with
  | EOffered FDrain _ | EInbound _ _ _ _ _ | EDecided _ _ _ _ | EAckQueued _ _ _ _ | ESetAside _ _ _ | EIgnored _ _ => false
  | _ => true
  end.

Record quiet (w w' : Transport) : Prop := {
  q_inbox : w'.(inbox) = w.(inbox);
  q_phase : w'.(phase) = w.(phase);
  q_pending : w'.(pending) = w.(pending);
  q_drainWanted : w'.(drainWanted) = w.(drainWanted);
  q_lastDrainAt : w'.(lastDrainAt) = w.(lastDrainAt);
  q_drainTimer : w'.(drainTimer) = w.(drainTimer);
  q_stopped : w'.(stopped) = w.(stopped);
  q_seen : w'.(seen) = w.(seen);
  q_trace : ∃ es, w'.(trace) = w.(trace) ++ es ∧ Forall (λ e, quiet_effect e = true) es;
}.

#[export] Instance quiet_preorder : PreOrder quiet.
Proof.
  split.
  - intros w. split; try done. exists []. by rewrite app_nil_r.
  - intros w1 w2 w3 [????????(es & Ht & Hes)] [????????(es' & Ht' & Hes')]. split; try congruence.
    exists (es ++ es'). split; [by rewrite Ht', Ht, app_assoc|by apply Forall_app].
Qed.

Section quiet.
Context `{!Crypto, !JsonText}.
Implicit Types (i : Instant) (w : Transport).

Ltac untouched := split; try done; exists []; by rewrite app_nil_r.

Lemma quiet_emit e w : quiet_effect e = true → quiet w (emit e w).
Proof. intros He. split; try done. exists [e]. split; [done|]. by constructor. Qed.

Lemma quiet_takeToken i w : quiet w (snd (takeToken i w)).
Proof. unfold takeToken. destruct (_ <? _); untouched. Qed.

Lemma quiet_returnToken w : quiet w (returnToken w).
Proof. untouched. Qed.

Lemma quiet_acks q w : quiet w (w {{ acks := q }}).
Proof. untouched. Qed.

Lemma quiet_scheduleAckFlush i d w : quiet w (scheduleAckFlush i d w).
Proof. unfold scheduleAckFlush. destruct (ackTimer w); [done|]. destruct (stopped w); [done|]. untouched. Qed.

Lemma quiet_flush_loop i l n q w : quiet w (flush_loop i l n q w).
Proof.
  revert n w. induction q as [|a q IH]; intros n w; [apply quiet_acks|]. cbn [flush_loop].
  pose proof (quiet_takeToken i w) as Ht. destruct (takeToken i w) as [[] w1]; simpl in Ht; cbn [negb]; cbv iota.
  - destruct (accepts l n).
    + etrans; [apply Ht|]. etrans; [|apply IH]. by apply quiet_emit.
    + etrans; [apply Ht|]. etrans; [|apply quiet_acks]. etrans; [|apply quiet_returnToken]. by apply quiet_emit.
  - etrans; [apply Ht|apply quiet_acks].
Qed.

Lemma quiet_flushAcks i w : quiet w (flushAcks i w).
Proof.
  unfold flushAcks. destruct (stopped w); [done|]. set (w1 := match i_link i with Some _ => _ | None => _ end).
  assert (quiet w w1) as Hw1.
  { unfold w1. destruct (i_link i) as [l|]; [|done]. destruct (can_send l); [|done]. apply quiet_flush_loop. }
  destruct (acks w1); [done|]. etrans; [apply Hw1|apply quiet_scheduleAckFlush].
Qed.

Lemma quiet_ack_fires i w : quiet w (ack_fires i w).
Proof. unfold ack_fires. etrans; [|apply quiet_flushAcks]. untouched. Qed.

Lemma quiet_send i s w : quiet w (snd (send i s w)).
Proof.
  unfold send. repeat (case_match; try done); simpl; try by apply quiet_emit.
  all: match goal with Ht : takeToken ?j ?x = (_, ?y) |- _ => pose proof (quiet_takeToken j x) as Hc; rewrite Ht in Hc; simpl in Hc end.
  - done.
  - etrans; [apply Hc|by apply quiet_emit].
  - etrans; [apply Hc|]. etrans; [|apply quiet_returnToken]. by apply quiet_emit.
Qed.

Lemma quiet_handleAcked i id to o c sig w : quiet w (handleAcked i id to o c sig w).
Proof.
  unfold handleAcked. destruct (negb _).
  - destruct (truthy _); [by apply quiet_emit|]. etrans; [by apply (quiet_emit EKick)|by apply quiet_emit].
  - destruct o; [by apply quiet_emit|]. case_bool_decide; [|by apply quiet_emit].
    etrans; [by apply (quiet_emit EKick)|by apply quiet_emit].
Qed.

Lemma quiet_handleRefused id to r b w : quiet w (handleRefused id to r b w).
Proof. unfold handleRefused. destruct (REFUSAL_RULES r) as [e o]. destruct (negb _); by apply quiet_emit. Qed.

End quiet.

(** ** Runs with a clock *)

Lemma upper_bound {A} (f : A → Z) (l : list A) : ∃ L, Forall (λ x, f x <= L) l.
Proof.
  induction l as [|x l [L HL]]; [by exists 0|]. exists (Z.max (f x) L). constructor; [lia|].
  eapply Forall_impl; [exact HL|]. simpl. lia.
Qed.

Lemma last_is_latest (evs : list (Instant * TransportEvent)) i e :
  Sorted.StronglySorted Z.le ((λ ie, ie.1.(t_now)) <$> evs ++ [(i, e)]) → Forall (λ ie, ie.1.(t_now) <= i.(t_now)) evs.
Proof.
  rewrite fmap_app. intros Hmono. apply Forall_forall. intros ie Hie.
  eapply (sorting.StronglySorted_app_1_elem_of Z.le); [exact Hmono| |by apply list_elem_of_singleton].
  apply list_elem_of_fmap. by exists ie.
Qed.

Lemma first_is_earliest (evs : list (Instant * TransportEvent)) i e :
  Sorted.StronglySorted Z.le ((λ ie, ie.1.(t_now)) <$> (i, e) :: evs) →
  Sorted.StronglySorted Z.le ((λ ie, ie.1.(t_now)) <$> evs) ∧ Forall (λ ie, i.(t_now) <= ie.1.(t_now)) evs.
Proof.
  rewrite fmap_cons. intros [Hs Hall]%Sorted.StronglySorted_inv. split; [done|]. by rewrite Forall_fmap in Hall.
Qed.

(** ** A small machine, run *)

(** A header's text is its id; every text of an id's length is the header of that id. *)
Definition toy_header (id : string) : InnerHeader := {|
  ih_from := demo_id 97; ih_to := demo_id 98; ih_id := id; ih_role := as_agent; ih_kind := a_message;
  ih_correlationId := None; ih_sentAt := 1000; ih_expiresAt := 61000 |}.
Definition toy_json : JsonText := {|
  stringify j := match field "id" j ≫= as_string with Some id => id | None => EmptyString end;
  json_parse text := if strlen text =? 36 then Some (InnerHeader_json (toy_header text)) else None; uuid s := strlen s =? 36 |}.
Definition toy_crypto : Crypto := demo_crypto (λ _, true).

Definition toy_mail (n : N) : ServerMessage :=
  BusDeliver (demo_id n) (demo_id 97)
    match @sealBus toy_crypto toy_json demo_fresh (toy_header (demo_id n)) (demo_id n) demo_key demo_key with
    | inl b => b
    | inr _ => {| epk := EmptyString; box := EmptyString |}
    end.

Definition toy_peer : string := "00000000-0000-4000-8000-000000000001".

Definition toy_instant (now local : Z) : Instant := {|
  t_now := now; t_local := local; i_self := Some (demo_id 98); i_seed := Some demo_key; i_busKey := Some (demo_key, demo_key);
  i_directory := Some {| dv_allowed := true; dv_machines :=
    (λ d, {| me_deviceId := d; me_ed25519Pub := demo_key; me_busPublicKey := Some demo_key; me_orchestrator := false |})
      <$> [demo_id 97; toy_peer] |};
  i_link := Some {| can_send := true; link_state := Some ready; accepts := λ _, true |};
  i_remoteAccess := true; i_fresh := demo_fresh; i_db := true |}.

(** Message [n] arrives and is applied. *)
Definition toy_delivery (now local : Z) (n : N) : list (Instant * TransportEvent) :=
  [(toy_instant now local, EvFrame (toy_mail n)); (toy_instant now local, EvVerdict (Some (VApplied None)))].

Definition toy_run : list (Instant * TransportEvent) :=
  toy_delivery 2000 2000 65 ++ toy_delivery 3000 3000 66 ++ toy_delivery 4000 4000 65.
