(* ===== verification/BusOnce.v ===== *)
(** * BusOnce: a message is decided once

    The relay hands over the same message again until it is acknowledged, and
    the sender resends it.  In the transport of BusTransport.v with the store of
    SeenStore.v the host's verdict stands all the same: it is not asked again, and
    copies that are read are answered by that verdict, as long as the database
    answers, its table is not full and its clock is not ahead of the relay's.
    The theorem is about every run, whatever is delivered, in whatever order and
    however often, and whatever happens between a delivery and its verdict. *)

From S2P Require Import Prelude JsMap Wire Buffers BusSeal SeenStore BusTransport.
From coqutil Require Import Datatypes.RecordSetters.
Import DoubleBraceUpdate.

Local Open Scope Z_scope.

(** The messages a trace says were decided. *)
Definition decided (e : Effect) : option (string * string) :=
  match e with EDecided from id _ _ => Some (from, id) | _ => None end.
Definition decisions (t : list Effect) : list (string * string) := omap decided t.
Definition times_decided (k : string * string) (t : list Effect) : nat := length (filter (λ x, x = k) (decisions t)).

(** The answers to a copy that was not opened, or was opened after its time. *)
Definition UNREAD : list string :=
  ["UNOPENABLE"; "MALFORMED"; "BAD_SIGNATURE"; "HEADER_MISMATCH"; "STALE"; "UNKNOWN_SENDER"]%string.
Definition unread (o : outcome) (code : option string) : Prop := o = refused ∧ ∃ c, code = Some c ∧ c ∈ UNREAD.

(** What may follow the verdict [o], [code] on the message [k]: the host is not
    asked again, nothing else is decided, and a copy is answered by that verdict
    unless it was not read. *)
Definition follows (k : string * string) (o : outcome) (code : option string) (e : Effect) : Prop :=
  match e with
  | EInbound from id _ _ _ | EDecided from id _ _ => (from, id) ≠ k
  | EAckQueued from id o' code' => (from, id) = k → (o', code') = (o, code) ∨ unread o' code'
  | _ => True
  end.

Definition stands (k : string * string) (t : list Effect) : Prop :=
  ∀ before o code after, t = before ++ EDecided k.1 k.2 o code :: after → Forall (follows k o code) after.

(** The effects these are about. *)
Definition logged (e : Effect) : bool :=
  match e with EInbound _ _ _ _ _ | EDecided _ _ _ _ | EAckQueued _ _ _ _ => true | _ => false end.
Definition log_of (t : list Effect) : list Effect := filter (λ e, logged e = true) t.

Lemma log_of_app t1 t2 : log_of (t1 ++ t2) = log_of t1 ++ log_of t2.
Proof. apply filter_app. Qed.

Lemma stands_log k t : stands k (log_of t) → stands k t.
Proof.
  intros Hlog before o code after ->. rewrite log_of_app in Hlog. unfold log_of in Hlog at 2.
  rewrite filter_cons_True in Hlog by done. specialize (Hlog _ _ _ _ eq_refl). rewrite Forall_forall in *.
  intros e He. destruct (logged e) eqn:Hl; [|by destruct e]. apply Hlog. by apply list_elem_of_filter.
Qed.

Lemma stands_snoc k e t :
  stands k t → (∀ o code, EDecided k.1 k.2 o code ∈ t → follows k o code e) → stands k (t ++ [e]).
Proof.
  intros Ht He before o code after Heq. destruct (exists_last (l := EDecided k.1 k.2 o code :: after)) as (l & x & Hl); [done|].
  rewrite Hl, app_assoc in Heq. apply app_inj_tail in Heq as [-> <-].
  destruct l as [|y l]; simpl in Hl; [by injection Hl as _ ->|]. injection Hl as <- ->. apply Forall_app. split; [by eapply Ht|].
  constructor; [|done]. apply He. apply elem_of_app. right. by left.
Qed.

Lemma stands_times k t : stands k t → (times_decided k t <= 1)%nat.
Proof.
  unfold times_decided, decisions. induction t as [|e t IH]; [simpl; lia|]. intros Hs.
  assert (stands k t) as Ht by (intros before o code after ->; by apply (Hs (e :: before) o code after)).
  simpl. destruct (decided e) as [k'|] eqn:He; [|by apply IH]. rewrite filter_cons.
  destruct (decide (k' = k)) as [->|]; [|by apply IH]. destruct e; try done. injection He as He.
  specialize (Hs [] o code t). rewrite <-He in Hs. specialize (Hs eq_refl).
  rewrite (filter_none (λ x, x = k)); [simpl; lia|]. intros x Hx ->. apply list_elem_of_omap in Hx as (e & Hin & Hd).
  rewrite Forall_forall in Hs. specialize (Hs e Hin). destruct e; try done. injection Hd as Hd. simpl in Hs. congruence.
Qed.

(** What the claim rests on: the table, where the chain is and what it said. *)
Record Core := { c_seen : SeenTable; c_phase : ChainPhase; c_inbox : list DeliverFrame; c_log : list Effect }.
Definition core (w : Transport) : Core :=
  {| c_seen := w.(seen); c_phase := w.(phase); c_inbox := w.(inbox); c_log := log_of w.(trace) |}.

Definition at_phase (p : ChainPhase) (c : Core) : Core :=
  {| c_seen := c.(c_seen); c_phase := p; c_inbox := c.(c_inbox); c_log := c.(c_log) |}.
Definition said (e : Effect) (c : Core) : Core :=
  {| c_seen := c.(c_seen); c_phase := c.(c_phase); c_inbox := c.(c_inbox); c_log := c.(c_log) ++ [e] |}.

Section frames.
Context `{!Crypto, !JsonText}.
Implicit Types (i : Instant) (w : Transport).

Lemma core_says e w : logged e = true → core (emit e w) = said e (core w).
Proof.
  intros He. unfold core, said, emit. simpl. f_equal. rewrite log_of_app. f_equal. unfold log_of.
  by rewrite filter_cons_True.
Qed.

Lemma core_emit e w : logged e = false → core (emit e w) = core w.
Proof.
  intros He. unfold core, emit. simpl. f_equal. rewrite log_of_app. unfold log_of at 2.
  rewrite filter_cons_False by (by rewrite He). apply app_nil_r.
Qed.

Lemma core_quiet w w' : quiet w w' → core w' = core w.
Proof.
  intros [Hi Hp _ _ _ _ _ Hs (es & Ht & Hes)]. unfold core. rewrite Hi, Hp, Hs, Ht, log_of_app. f_equal.
  rewrite <-(app_nil_r (log_of (trace w))) at 2. f_equal. apply filter_none. intros e He.
  rewrite Forall_forall in Hes. specialize (Hes e He). by destruct e.
Qed.

Lemma core_sendDrain i w : core (sendDrain i w) = core w.
Proof.
  unfold sendDrain. destruct (stopped w); [done|]. destruct (i_link i) as [l|]; [|done].
  destruct (can_send l); [|done]. by rewrite core_emit.
Qed.

Lemma core_requestDrain i w : core (requestDrain i w) = core w.
Proof.
  unfold requestDrain. destruct (stopped w); [done|]. destruct (_ <=? 0); [by rewrite core_sendDrain|].
  by destruct (drainTimer w).
Qed.

Lemma core_defer i id from w : core (defer i id from w) = core w.
Proof. unfold defer. by rewrite core_emit. Qed.

(** An acknowledgement is queued, or wants the keys and is deferred. *)
Lemma core_ack i from id o c w :
  core (ack i from id o c w) = core w ∨ core (ack i from id o c w) = said (EAckQueued from id o c) (core w).
Proof.
  unfold ack. destruct (truthy (i_self i)); [|left; apply core_defer].
  destruct (truthy (i_seed i)); [|left; apply core_defer]. destruct (signBusAck _ _); [|left; apply core_defer].
  right. rewrite (core_quiet _ _ (quiet_scheduleAckFlush _ _ _)). by rewrite core_says.
Qed.

Lemma core_finish i w : core (finish i w) = core w.
Proof. unfold finish. case_match; [|done]. by rewrite core_requestDrain. Qed.

(** What a copy may be answered without asking the host. *)
Definition answers (i : Instant) (msg : DeliverFrame) (c : Core) (o : outcome) (code : option string) : Prop :=
  unread o code ∨
  ∃ row, seen_get i.(i_db) (msg.(df_from), msg.(df_id)) c.(c_seen) = Some row ∧ row.(seen_outcome) = o ∧ row.(seen_code) = code.

(** What a delivery that begins can come to: set aside, answered, waiting for the
    directory, or with the host; and then it opened, is not expired and no verdict
    on it is known. *)
Inductive begins (i : Instant) (msg : DeliverFrame) (c : Core) : Core → Prop :=
| begins_done : begins i msg c c
| begins_acks o code : answers i msg c o code → begins i msg c (said (EAckQueued msg.(df_from) msg.(df_id) o code) c)
| begins_waits me : begins i msg c (at_phase (AwaitFresh msg me) c)
| begins_inbound h body me priv pub spub j role :
    openBus msg.(df_blob) msg.(df_from) me msg.(df_id) priv pub spub = inl (h, body) →
    seen_get i.(i_db) (msg.(df_from), msg.(df_id)) c.(c_seen) = None → isExpired h i.(t_now) = false →
    begins i msg c (at_phase (AwaitInbound msg h) (said (EInbound msg.(df_from) msg.(df_id) h j role) c)).

Lemma ack_begins i msg o code w :
  answers i msg (core w) o code → begins i msg (core w) (core (ack i msg.(df_from) msg.(df_id) o code w)).
Proof. intros Ha. destruct (core_ack i msg.(df_from) msg.(df_id) o code w) as [->| ->]; by constructor. Qed.

Lemma unread_begins i msg c w :
  c ∈ UNREAD → begins i msg (core w) (core (ack i msg.(df_from) msg.(df_id) refused (Some c) w)).
Proof. intros Hc. apply ack_begins. left. split; [done|]. by exists c. Qed.

Lemma open_delivery_begins i msg me entry w : begins i msg (core w) (core (open_delivery i msg me entry w)).
Proof.
  unfold open_delivery. destruct (i_busKey i) as [[priv pub]|]; [|rewrite core_defer; constructor].
  destruct (openBus _ _ _ _ _ _ _) as [[h text]|e] eqn:Ho; [|apply unread_begins; destruct e; set_solver].
  destruct (seen_get _ _ _) as [row|] eqn:Hs.
  - set (w1 := match seen_response row with Some _ => _ | None => w end).
    assert (core w1 = core w) as Hw1 by (unfold w1; destruct (seen_response row); [by rewrite core_emit|done]).
    rewrite <-Hw1. apply ack_begins. right. exists row. rewrite Hw1. by split.
  - destruct (isExpired h _) eqn:He; [apply unread_begins; set_solver|].
    destruct (json_parse text) as [body|]; [|apply unread_begins; set_solver].
    change (core (?x {{ phase := ?p }})) with (at_phase p (core x)). rewrite core_says by done.
    by eapply begins_inbound.
Qed.

Lemma vet_sender_begins i msg me fresh w : begins i msg (core w) (core (vet_sender i msg me fresh w)).
Proof.
  unfold vet_sender. destruct (i_directory i) as [v|]; [|rewrite core_defer; constructor].
  destruct (negb _); [rewrite core_defer; constructor|]. destruct (find_machine _ _); [apply open_delivery_begins|].
  destruct (negb _); [rewrite core_defer; constructor|apply unread_begins; set_solver].
Qed.

Lemma begin_delivery_begins i msg w : begins i msg (core w) (core (begin_delivery i msg w)).
Proof.
  unfold begin_delivery. destruct (truthy (i_self i)) as [me|]; [|rewrite core_emit by done; constructor].
  case_bool_decide; [rewrite core_emit by done; constructor|].
  destruct (truthy (i_seed i)); [|rewrite core_defer; constructor].
  case_match; [apply vet_sender_begins|]. change (core (?x {{ phase := ?p }})) with (at_phase p (core x)). constructor.
Qed.

End frames.

(** ** The table forgets nothing that is not expired *)
Section store.
Context (newest_first : list Stored → list Stored).
Context (sorts : ∀ l, newest_first l ≡ₚ l ∧ Sorted.StronglySorted (λ a b, b.(st_at) <= a.(st_at)) (newest_first l)).

Lemma length_upsert r l : (length (upsert r l) <= S (length l))%nat.
Proof. unfold upsert. destruct (find_seen _ l); [rewrite length_fmap|rewrite length_app; simpl]; lia. Qed.

Lemma record_keeps k row e at_ (t : SeenTable) r :
  one_each t.(rows) → (length t.(rows) < MAX_BUS_SEEN)%nat → r ∈ upsert (stored_verdict k row e at_) t.(rows) →
  r ∈ (seen_record newest_first true k row e at_ t).(rows) ∨ r.(st_expires_at) + BUS_CLOCK_SKEW_MS < at_.
Proof.
  intros Hnd Hlen Hr. unfold seen_record. cbn [rows]. case_bool_decide; [by left|].
  set (l := upsert _ _) in *. assert (one_each l) as Hl by (by apply one_each_upsert).
  destruct (decide (r ∈ prune newest_first at_ l)) as [|Hgone]; [by left|].
  destruct (pruned_row newest_first sorts _ _ _ Hl Hr Hgone) as [|(newer & Hsub & Hn & Hln & Hall)]; [by right|].
  exfalso. assert (length (r.(st_key) :: (st_key <$> newer)) <= length (st_key <$> l))%nat as Hle.
  { apply submseteq_length, NoDup_submseteq.
    - constructor; [|done]. intros Hin. apply list_elem_of_fmap in Hin as (x & Hk & Hx).
      rewrite Forall_forall in Hall. by destruct (Hall x Hx).
    - intros k' Hk'. apply elem_of_cons in Hk' as [->|Hk']; apply list_elem_of_fmap; [by exists r|].
      apply list_elem_of_fmap in Hk' as (x & -> & Hx). exists x. split; [done|]. by apply Hsub. }
  simpl in Hle. rewrite !length_fmap, Hln in Hle. pose proof (length_upsert (stored_verdict k row e at_) t.(rows)). unfold l in Hle. lia.
Qed.

Lemma seen_record_from k row e at_ (t : SeenTable) r :
  r ∈ (seen_record newest_first true k row e at_ t).(rows) → r ∈ upsert (stored_verdict k row e at_) t.(rows).
Proof. unfold seen_record. cbn [rows]. case_bool_decide; [done|apply elem_prune]. Qed.

Lemma record_one_each k row e at_ t : one_each t.(rows) → one_each (seen_record newest_first true k row e at_ t).(rows).
Proof.
  intros Hnd. unfold seen_record. cbn [rows]. case_bool_decide; [by apply one_each_upsert|].
  by apply one_each_prune, one_each_upsert.
Qed.
End store.

(** ** One message *)
Section once.
Context `{!Crypto, !JsonText} (newest_first : list Stored → list Stored).
Context (sorts : ∀ l, newest_first l ≡ₚ l ∧ Sorted.StronglySorted (λ a b, b.(st_at) <= a.(st_at)) (newest_first l)).
Context (k : string * string) (E : Z).
Implicit Types (i : Instant) (w : Transport).

Definition key_of (msg : DeliverFrame) : string * string := (msg.(df_from), msg.(df_id)).

(** Every copy of the message that opens, opens with the same expiry. *)
Definition carries (msg : DeliverFrame) : Prop :=
  key_of msg = k → ∀ me priv pub spub h body,
    openBus msg.(df_blob) msg.(df_from) me msg.(df_id) priv pub spub = inl (h, body) → h.(ih_expiresAt) = E.

Definition undecided (t : list Effect) : Prop := ∀ o code, EDecided k.1 k.2 o code ∉ t.

Definition waits_ok (c : Core) : Prop :=
  match c.(c_phase) with
  | Resting => True
  | AwaitFresh msg _ => carries msg
  | AwaitInbound msg h => key_of msg = k → h.(ih_expiresAt) = E ∧ undecided c.(c_log)
  end.

Definition remembered (l : list Stored) : Prop :=
  ∃ r, r ∈ l ∧ r.(st_key) = k ∧ r.(st_expires_at) = E ∧ is_Some (read_seen r).

(** No row of the message reads as another verdict. *)
Definition agrees (o : outcome) (code : option string) (l : list Stored) : Prop :=
  ∀ r row, r ∈ l → r.(st_key) = k → read_seen r = Some row → row.(seen_outcome) = o ∧ row.(seen_code) = code.

(** At the clock [L], the verdict on the message stands, and if there is one, then
    the table knows it or no copy of the message is fresh any more. *)
Record Once (L : Z) (c : Core) : Prop := {
  o_rows : one_each c.(c_seen).(rows);
  o_inbox : Forall carries c.(c_inbox);
  o_waits : waits_ok c;
  o_stands : stands k c.(c_log);
  o_known : ∀ o code, EDecided k.1 k.2 o code ∈ c.(c_log) →
    agrees o code c.(c_seen).(rows) ∧ (remembered c.(c_seen).(rows) ∨ E + BUS_CLOCK_SKEW_MS < L);
}.

Lemma once_later L L' c : L <= L' → Once L c → Once L' c.
Proof.
  intros Hle []. split; try done. intros o code Hk. destruct (o_known0 o code Hk) as [Ha [Hr|Hl]]; split; try done; [by left|right; lia].
Qed.

Lemma once_rests L c : Once L c → Once L (at_phase Resting c).
Proof. intros []. by split. Qed.

Lemma key_parts (from id : string) : (from, id) = k ↔ k.1 = from ∧ k.2 = id.
Proof. destruct k as [f d]. simpl. split; [by intros [= -> ->]|by intros [-> ->]]. Qed.

(** Something else than a verdict is said, which may follow the verdicts there
    are. *)
Lemma once_says L e c :
  (∀ o code, EDecided k.1 k.2 o code ∈ c.(c_log) → follows k o code e) → decided e = None →
  (∀ msg h, c.(c_phase) ≠ AwaitInbound msg h) → Once L c → Once L (said e c).
Proof.
  intros Hf He Hp []. assert (∀ o code, EDecided k.1 k.2 o code ∈ c.(c_log) ++ [e] → EDecided k.1 k.2 o code ∈ c.(c_log)) as Hold.
  { intros o code [Hin|Hin%list_elem_of_singleton]%elem_of_app; [done|by subst e]. }
  split; try done.
  - unfold waits_ok in *. simpl. destruct (c_phase c); [done|done|]. by destruct (Hp msg header).
  - by apply stands_snoc.
  - intros o code Hin. by apply o_known0, Hold.
Qed.

Lemma remembered_get l : one_each l → remembered l → ∃ row, seen_get true k {| rows := l; recorded := 0 |} = Some row.
Proof.
  intros Hnd (r & Hr & Hk & _ & [row Hrow]). exists row. unfold seen_get. simpl. rewrite <-Hk.
  by rewrite elem_find_seen.
Qed.

(** What a copy is answered may follow the verdict. *)
Lemma answers_follow i msg c o code L :
  i.(i_db) = true → Once L c → answers i msg c o code →
  ∀ o' code', EDecided k.1 k.2 o' code' ∈ c.(c_log) → follows k o' code' (EAckQueued msg.(df_from) msg.(df_id) o code).
Proof.
  intros Hdb Hc Ha o' code' Hin Hk. destruct Ha as [Hu|(row & Hs & <- & <-)]; [by right|left].
  rewrite Hdb, Hk in Hs. unfold seen_get in Hs. apply bind_Some in Hs as (r & Hf & Hread).
  apply find_seen_Some in Hf as [Hr Hrk]. destruct (o_known _ _ Hc _ _ Hin) as [Hag _].
  by destruct (Hag r row Hr Hrk Hread) as [-> ->].
Qed.

Lemma once_begins i msg c c' :
  i.(i_db) = true → carries msg → c.(c_phase) = Resting → begins i msg c c' → Once i.(t_now) c → Once i.(t_now) c'.
Proof.
  intros Hdb Hmsg Hp Hb Hc. destruct Hb as [|o code Ha|me|h body me priv pub spub j role Ho Hs He]; [done| |by destruct Hc; split|].
  { apply once_says; [by eapply answers_follow|done|by rewrite Hp|done]. }
  assert (key_of msg = k → undecided c.(c_log)) as Hfresh.
  { intros Hk o code Hin. destruct (o_known _ _ Hc _ _ Hin) as [_ [Hrem|Hlate]].
    - apply remembered_get in Hrem as [row Hrow]; [|by destruct Hc]. unfold key_of in Hk. rewrite Hk, Hdb in Hs.
      unfold seen_get in *. simpl in Hrow. congruence.
    - unfold isExpired in He. apply Z.ltb_ge in He. rewrite (Hmsg Hk _ _ _ _ _ _ Ho) in He. lia. }
  assert (Once i.(t_now) (said (EInbound msg.(df_from) msg.(df_id) h j role) c)) as [].
  { apply once_says; [|done|by rewrite Hp|done]. intros o code Hin Hk. by destruct (Hfresh Hk o code). }
  split; try done. intros Hk. split; [by eapply Hmsg|]. intros o code Hin. simpl in Hin.
  apply elem_of_app in Hin as [Hin|Hin%list_elem_of_singleton]; [|done]. by destruct (Hfresh Hk o code).
Qed.

Lemma once_chain fuel i w : i.(i_db) = true → Once i.(t_now) (core w) → Once i.(t_now) (core (run_chain fuel i w)).
Proof.
  intros Hdb. revert w. induction fuel as [|fuel IH]; intros w Hw; [by rewrite run_chain_0|].
  rewrite run_chain_step. destruct (phase w) eqn:Hp; [|done..]. destruct (inbox w) as [|msg rest] eqn:Hin; [done|].
  set (w1 := w {{ inbox := rest }}). assert (carries msg ∧ Once i.(t_now) (core w1)) as [Hmsg Hw1].
  { destruct Hw as [? Hbox ? ? ?]. simpl in Hbox. rewrite Hin in Hbox. apply Forall_cons in Hbox as [Hm Hr].
    split; [done|]. by split. }
  pose proof (once_begins i msg (core w1) _ Hdb Hmsg Hp (begin_delivery_begins i msg w1) Hw1) as Hb.
  destruct (phase (begin_delivery i msg w1)) eqn:Hp'; [|done..]. apply IH. by rewrite core_finish.
Qed.

Lemma once_continue i w : i.(i_db) = true → Once i.(t_now) (core w) → Once i.(t_now) (core (continue_chain i w)).
Proof.
  intros Hdb Hw. unfold continue_chain. destruct (phase w) eqn:Hp; [|done..]. apply once_chain; [done|].
  by rewrite core_finish.
Qed.

(** The table's row, or the message is late, after a verdict. *)
Lemma once_record i from id o code response h c :
  i.(i_db) = true → i.(t_local) <= i.(t_now) → (length c.(c_seen).(rows) < MAX_BUS_SEEN)%nat →
  Once i.(t_now) c → ((from, id) = k → h.(ih_expiresAt) = E ∧ undecided c.(c_log)) →
  Once i.(t_now) {|
    c_seen := seen_record newest_first i.(i_db) (from, id)
      {| seen_outcome := o; seen_code := code; seen_response := response |} h.(ih_expiresAt) i.(t_local) c.(c_seen);
    c_phase := Resting; c_inbox := c.(c_inbox); c_log := c.(c_log) ++ [EDecided from id o code] |}.
Proof.
  intros -> Hclock Hlen Hc Hk. destruct Hc as [Hrows Hbox _ Hstands Hknown].
  set (row := {| seen_outcome := o; seen_code := code; seen_response := response |}).
  set (new := stored_verdict (from, id) row h.(ih_expiresAt) i.(t_local)).
  pose proof (record_keeps newest_first sorts (from, id) row h.(ih_expiresAt) i.(t_local) c.(c_seen)) as Hkeep.
  assert (read_seen new = Some {| seen_outcome := o; seen_code := code; seen_response := capped <$> response |}) as Hread
    by (unfold read_seen; simpl; by destruct o).
  split; simpl; [by apply record_one_each|done|done| |].
  - apply stands_snoc; [done|]. intros o' code' Hin Heq. by destruct (Hk Heq) as [_ Hnot], (Hnot o' code').
  - intros o' code' Hin. destruct (decide ((from, id) = k)) as [He|He].
    + destruct (Hk He) as [HE Hnot]. apply elem_of_app in Hin as [Hin|Hin%list_elem_of_singleton]; [by destruct (Hnot o' code')|].
      injection Hin as _ _ -> ->. split.
      * intros r row' Hr Hrk Hrow. apply seen_record_from, elem_upsert in Hr as [->|[_ Hne]]; [|by rewrite Hrk, <-He in Hne]; fold new in Hrow.
        by rewrite Hread in Hrow; injection Hrow as <-.
      * destruct (Hkeep new) as [Hr|Hr]; [done|done|by apply elem_upsert; left| |right; simpl in Hr; lia].
        left. exists new. split_and!; [done|done|done|by rewrite Hread].
    + apply elem_of_app in Hin as [Hin|Hin%list_elem_of_singleton]; [|by injection Hin as H1 H2 _ _; destruct He; apply key_parts].
      destruct (Hknown o' code' Hin) as [Hag Hrem]. split.
      * intros r row' Hr Hrk Hrow. apply seen_record_from, elem_upsert in Hr as [->|[Hr _]]; [by destruct He|by eapply Hag].
      * destruct Hrem as [(r & Hr & Hrk & HrE & Hsome)|Hlate]; [|by right].
        destruct (Hkeep r) as [Hr'|Hr']; [done|done|apply elem_upsert; right; split; [done|simpl; congruence]| |right; lia].
        left. by exists r.
Qed.

(** The verdict, and its acknowledgement after it. *)
Lemma once_acks i from id o code w :
  w.(phase) = Resting →
  ((from, id) = k → ∀ o' code', EDecided k.1 k.2 o' code' ∈ log_of w.(trace) → (o', code') = (o, code)) →
  Once i.(t_now) (core w) → Once i.(t_now) (core (ack i from id o code w)).
Proof.
  intros Hp Hone Hw. destruct (core_ack i from id o code w) as [->| ->]; [done|].
  apply once_says; [|done|simpl; by rewrite Hp|done]. intros o' code' Hin' Hk. left. by rewrite (Hone Hk o' code' Hin').
Qed.

Lemma once_decides i msg h verdict w :
  i.(i_db) = true → i.(t_local) <= i.(t_now) → (length w.(seen).(rows) < MAX_BUS_SEEN)%nat →
  w.(phase) = AwaitInbound msg h → Once i.(t_now) (core w) →
  Once i.(t_now) (core (decide_delivery newest_first i msg.(df_from) msg.(df_id) h verdict (w {{ phase := Resting }}))).
Proof.
  intros Hdb Hclock Hlen Hp Hw. assert (key_of msg = k → h.(ih_expiresAt) = E ∧ undecided (core w).(c_log)) as Hk.
  { intros He. pose proof (o_waits _ _ Hw) as Hwait. unfold waits_ok in Hwait. simpl in Hwait. rewrite Hp in Hwait. auto. }
  assert (∀ o code response, Once i.(t_now) (core (ack i msg.(df_from) msg.(df_id) o code (emit (EDecided msg.(df_from) msg.(df_id) o code)
    (w {{ phase := Resting; seen := seen_record newest_first i.(i_db) (key_of msg)
       {| seen_outcome := o; seen_code := code; seen_response := response |} h.(ih_expiresAt) i.(t_local) w.(seen) }}))))) as Hrec.
  { intros o code response. set (w1 := emit _ _).
    pose proof (once_record i msg.(df_from) msg.(df_id) o code response h (core w) Hdb Hclock Hlen Hw Hk) as H1.
    assert (core w1 = {| c_seen := seen_record newest_first i.(i_db) (key_of msg)
       {| seen_outcome := o; seen_code := code; seen_response := response |} h.(ih_expiresAt) i.(t_local) w.(seen);
       c_phase := Resting; c_inbox := w.(inbox); c_log := log_of w.(trace) ++ [EDecided msg.(df_from) msg.(df_id) o code] |}) as Hw1
      by (unfold w1; by rewrite core_says).
    assert (log_of w1.(trace) = log_of w.(trace) ++ [EDecided msg.(df_from) msg.(df_id) o code]) as Hlog
      by (change (log_of w1.(trace)) with (c_log (core w1)); by rewrite Hw1).
    assert (Once i.(t_now) (core w1)) as H2 by (rewrite Hw1; exact H1).
    apply once_acks; [done| |done]. rewrite Hlog.
    intros Heq o' code' [Hin|Hin%list_elem_of_singleton]%elem_of_app; [by destruct (proj2 (Hk Heq) o' code')|].
    by injection Hin as _ _ -> ->. }
  unfold decide_delivery. destruct verdict as [[response|code|]|]; rewrite ?core_defer; try apply Hrec.
  all: by apply (once_rests _ (core w)).
Qed.

Lemma once_event i e w :
  i.(i_db) = true → i.(t_local) <= i.(t_now) → (length w.(seen).(rows) < MAX_BUS_SEEN)%nat →
  (∀ id from blob, e = EvFrame (BusDeliver id from blob) → carries {| df_id := id; df_from := from; df_blob := blob |}) →
  Once i.(t_now) (core w) → Once i.(t_now) (core (transport_event newest_first i e w)).
Proof.
  intros Hdb Hclock Hlen Hmsg Hw. destruct e as [s| | |msg|fresh|v| |]; simpl.
  - by rewrite (core_quiet _ _ (quiet_send _ _ _)).
  - unfold onAuthenticated. by rewrite core_sendDrain.
  - done.
  - unfold handleFrame. destruct (stopped w); [done|].
    destruct msg; try done; [by rewrite core_emit| |by rewrite (core_quiet _ _ (quiet_handleAcked _ _ _ _ _ _ _))
      |by rewrite (core_quiet _ _ (quiet_handleRefused _ _ _ _ _))].
    unfold enqueueDeliver. destruct (_ <=? _); [rewrite core_requestDrain; by rewrite core_emit|].
    apply once_chain; [done|]. destruct Hw as [? Hbox ? ? ?]. split; try done. simpl. apply Forall_app. split; [done|].
    constructor; [|constructor]. by apply Hmsg.
  - unfold fresh_settles. destruct (phase w) as [|msg me|] eqn:Hp; [done| |done]. apply once_continue; [done|].
    eapply (once_begins i msg (core (w {{ phase := Resting }}))); [done| |done|apply vet_sender_begins|by apply (once_rests _ (core w))].
    pose proof (o_waits _ _ Hw) as Hwait. unfold waits_ok in Hwait. simpl in Hwait. by rewrite Hp in Hwait.
  - unfold inbound_settles. destruct (phase w) as [| |msg h] eqn:Hp; [done|done|]. apply once_continue; [done|].
    by apply once_decides.
  - destruct (ackTimer w); [|done]. by rewrite (core_quiet _ _ (quiet_ack_fires _ _)).
  - destruct (drainTimer w); [|done]. unfold drain_fires. by rewrite core_sendDrain.
Qed.

End once.

(** ** Runs *)

Lemma take_snoc_room {A B} (f : list A → B) (P : B → Prop) l x :
  (∀ n, P (f (take n (l ++ [x])))) → (∀ n, P (f (take n l))) ∧ P (f l).
Proof.
  intros Hall. assert (∀ n, P (f (take n l))) as Hl.
  { intros n. specialize (Hall (Nat.min n (length l))). rewrite take_app_le in Hall by lia.
    by rewrite <-take_take, firstn_all in Hall. }
  split; [done|]. specialize (Hl (length l)). by rewrite firstn_all in Hl.
Qed.


(** ** A small machine, run *)

#[local] Existing Instances toy_json toy_crypto.

Example toy_run_decides :
  decisions (run_transport (sorting.merge_sort by_age) toy_run (new_transport [])).(trace) =
    [(demo_id 97, demo_id 65); (demo_id 97, demo_id 66)] ∧
  af_id <$> (run_transport (sorting.merge_sort by_age) toy_run (new_transport [])).(acks) = [demo_id 65; demo_id 66; demo_id 65].
Proof. vm_compute. done. Qed.

(** A wall clock 400 seconds ahead of the relay's: the hundredth verdict prunes
    the table by it, and a copy the transport still takes for fresh is applied a
    second time.  The store of host-server.ts reads the wall clock. *)
Example fast_clock_applies_twice :
  times_decided (demo_id 97, demo_id 1)
    (run_transport (sorting.merge_sort by_age)
      (concat ((λ n, toy_delivery 2000 402000 (N.of_nat n)) <$> List.seq 1 100) ++ toy_delivery 3000 403000 1)
      (new_transport [])).(trace) = 2%nat.
Proof. vm_compute. done. Qed.

(** Whatever opens here is a toy header. *)
Lemma toy_opens blob from me id priv pub spub h body :
  openBus blob from me id priv pub spub = inl (h, body) → h.(ih_expiresAt) = 61000.
Proof.
  unfold openBus. destruct (negb _ || _); [done|]. destruct (open_box _ _ _ _ _); [|done].
  destruct (decodeInnerPlaintext _) as [[[text b] sig]|]; [|done]. simpl json_parse.
  destruct (strlen text =? 36) eqn:Hu; [|done]. cbn [mbind option_bind].
  rewrite header_roundtrip by (unfold header_ok; simpl; split_and!; done).
  destruct (_ || _ || _); [done|]. destruct (negb _); [done|]. by intros [= <- <-].
Qed.

Lemma toy_decided :
  EDecided (demo_id 97) (demo_id 65) applied None ∈
    (run_transport (sorting.merge_sort by_age) toy_run (new_transport [])).(trace).
Proof.
  assert ((run_transport (sorting.merge_sort by_age) toy_run (new_transport [])).(trace) !! 1%nat =
    Some (EDecided (demo_id 97) (demo_id 65) applied None)) as Hl by (vm_compute; reflexivity).
  by eapply list_elem_of_lookup_2.
Qed.

Lemma toy_room n :
  (length (run_transport (sorting.merge_sort by_age) (take n toy_run) (new_transport [])).(seen).(rows) < MAX_BUS_SEEN)%nat.
Proof.
  assert (length (run_transport (sorting.merge_sort by_age) (take n toy_run) (new_transport [])).(seen).(rows) <= 2)%nat.
  { do 7 (destruct n as [|n]; [by apply Nat.leb_le; vm_compute|]). apply Nat.leb_le. by vm_compute. }
  pose proof MAX_BUS_SEEN_value. lia.
Qed.

