(* ===== verification/BusAccount.v ===== *)
(** * BusAccount: every delivery is accounted for

    The relay keeps a message until it is acknowledged, so the transport of
    BusTransport.v must not lose one it was handed.  While it is not stopped, each
    delivery is answered by an acknowledgement, still in the chain, set aside, or
    ignored; whatever was set aside is asked for again, by a drain sent since, one
    on a timer, or one wanted as soon as the chain rests; and what is ignored is
    the machine's own, or came while it had no device id. *)

From S2P Require Import Prelude JsMap Wire Buffers BusSeal SeenStore BusTransport.
From coqutil Require Import Datatypes.RecordSetters.
Import DoubleBraceUpdate.

Local Open Scope Z_scope.

(** The message of an effect that ends a delivery, and when one was set aside. *)
Definition settled_by (e : Effect) : option (string * string) :=
  match e with EAckQueued f id _ _ | ESetAside f id _ | EIgnored f id => Some (f, id) | _ => None end.
Definition settled (t : list Effect) : list (string * string) := omap settled_by t.

Definition aside_at (e : Effect) : option Z := match e with ESetAside _ _ t => Some t | _ => None end.
Definition asides (t : list Effect) : list Z := omap aside_at t.

Definition msg_key (m : DeliverFrame) : string * string := (m.(df_from), m.(df_id)).

Definition waiting (p : ChainPhase) : list (string * string) :=
  match p with Resting => [] | AwaitFresh m _ | AwaitInbound m _ => [msg_key m] end.

(** The deliveries in the chain, the one in hand first. *)
Definition in_chain (w : Transport) : list (string * string) := waiting w.(phase) ++ (msg_key <$> w.(inbox)).

Definition arrival (ie : Instant * TransportEvent) : option (string * string) :=
  match ie.2 with EvFrame (BusDeliver id from _) => Some (from, id) | _ => None end.

(** Whose mail is ignored at an instant: anyone's while the machine has no device
    id, and its own. *)
Definition ignorable (i : Instant) (from : string) : Prop := truthy i.(i_self) = None ∨ truthy i.(i_self) = Some from.

(** ** The books *)

(** The senders whose mail may have been ignored, in a run. *)
Section ledger.
Context (J : string → Prop).

Definition fairly (e : Effect) : Prop := match e with EIgnored from _ => J from | _ => True end.

(** A drain answers for what was set aside at [t]. *)
Definition asked_again (w : Transport) (t : Z) : Prop :=
  w.(drainWanted) = true ∨ is_Some w.(drainTimer) ∨ ∃ d, w.(lastDrainAt) = Some d ∧ t <= d.

(** With [hand] the delivery just taken from the chain, not settled yet, and [n]
    deliveries counted beside those in the chain. *)
Record Ledger (L : Z) (came : list (string * string)) (n : Z) (hand : list (string * string)) (w : Transport) : Prop := {
  b_running : w.(stopped) = false;
  b_pending : w.(pending) = Z.of_nat (length (in_chain w)) + n;
  b_came : came ≡ₚ settled w.(trace) ++ hand ++ in_chain w;
  b_wanted : w.(drainWanted) = true → 0 < w.(pending);
  b_past : Forall (λ t, t <= L) (asides w.(trace));
  b_fair : Forall fairly w.(trace);
}.

Definition Books (L : Z) (came : list (string * string)) (n : Z) (hand : list (string * string)) (w : Transport) : Prop :=
  Ledger L came n hand w ∧ Forall (asked_again w) (asides w.(trace)).
End ledger.

Section books.
Context `{!Crypto, !JsonText} (J : string → Prop).
Implicit Types (i : Instant) (w : Transport).
#[local] Abbreviation Ledger := (Ledger J).
#[local] Abbreviation Books := (Books J).
#[local] Abbreviation fairly := (fairly J).

Lemma settled_app t1 t2 : settled (t1 ++ t2) = settled t1 ++ settled t2.
Proof. apply omap_app. Qed.
Lemma asides_app t1 t2 : asides (t1 ++ t2) = asides t1 ++ asides t2.
Proof. apply omap_app. Qed.

Lemma quiet_settles es : Forall (λ e, quiet_effect e = true) es → settled es = [] ∧ asides es = [].
Proof. induction 1 as [|e es He _ [IH1 IH2]]; [done|]. by destruct e. Qed.

Lemma quiet_fairly es : Forall (λ e, quiet_effect e = true) es → Forall fairly es.
Proof. intros Hes. eapply Forall_impl; [exact Hes|]. by intros []. Qed.

Lemma fairly_snoc e w : fairly e → Forall fairly w.(trace) → Forall fairly (emit e w).(trace).
Proof. intros He Hw. apply Forall_app. split; [done|]. by constructor. Qed.

Lemma ledger_quiet L came n hand w w' : quiet w w' → Ledger L came n hand w → Ledger L came n hand w'.
Proof.
  intros [Hi Hp Hpe Hd Hl Ht Hs _ (es & Htr & Hes)] []. pose proof (quiet_fairly es Hes) as Hfair.
  apply quiet_settles in Hes as [Hes1 Hes2].
  assert (in_chain w' = in_chain w) as Hc by (unfold in_chain; by rewrite Hi, Hp).
  split; rewrite ?Htr, ?settled_app, ?asides_app, ?Hes1, ?Hes2, ?app_nil_r, ?Hc, ?Hs, ?Hpe, ?Hd; try done.
  by apply Forall_app.
Qed.

Lemma books_quiet L came n hand w w' : quiet w w' → Books L came n hand w → Books L came n hand w'.
Proof.
  intros Hq [Hl Ha]. split; [by eapply ledger_quiet|]. destruct Hq as [_ _ _ Hd Hla Ht _ _ (es & Htr & Hes)].
  apply quiet_settles in Hes as [_ Hes]. rewrite Htr, asides_app, Hes, app_nil_r.
  eapply Forall_impl; [exact Ha|]. unfold asked_again. by rewrite Hd, Ht, Hla.
Qed.

Lemma books_later L L' came n hand w : L <= L' → Books L came n hand w → Books L' came n hand w.
Proof. intros Hle [[] Ha]. split; [|done]. split; try done. eapply Forall_impl; [exact b_past0|]. simpl. lia. Qed.

Lemma books_emit L came n hand e w :
  settled_by e = None → aside_at e = None → Books L came n hand w → Books L came n hand (emit e w).
Proof.
  intros He Ht [[] Ha]. split; [split|]; simpl; rewrite ?settled_app, ?asides_app; simpl; rewrite ?He, ?Ht, ?app_nil_r; try done.
  apply fairly_snoc; [|done]. by destruct e.
Qed.

(** A drain sent, or one on the timer, answers for all that was set aside. *)
Lemma books_sendDrain i came n hand w : Ledger i.(t_now) came n hand w → Books i.(t_now) came n hand (sendDrain i w).
Proof.
  intros []. unfold sendDrain. rewrite b_running0. set (w0 := w {{ lastDrainAt := Some i.(t_now) }}).
  assert (Books i.(t_now) came n hand w0) as Hw.
  { split; [by split|]. eapply Forall_impl; [exact b_past0|]. intros t Ht. right. right. exists i.(t_now). by split. }
  destruct (i_link i) as [l|]; [|done]. destruct (can_send l); [|done]. by apply books_emit.
Qed.

Lemma books_requestDrain i came n hand w : Ledger i.(t_now) came n hand w → Books i.(t_now) came n hand (requestDrain i w).
Proof.
  intros Hw. unfold requestDrain. rewrite (b_running _ _ _ _ _ _ Hw).
  destruct (_ <=? 0); [apply books_sendDrain; by destruct Hw|].
  destruct (drainTimer w) as [d|] eqn:Hd.
  - split; [done|]. apply Forall_forall. intros t _. right. left. by rewrite Hd.
  - split; [by destruct Hw|]. apply Forall_forall. intros t _. right. left. by eexists.
Qed.

(** ** One delivery *)

Lemma books_settles L came n k e w :
  settled_by e = Some k → fairly e → (∀ t, aside_at e = Some t → t <= L ∧ w.(drainWanted) = true) →
  Books L came n [k] w → Books L came n [] (emit e w).
Proof.
  intros He Hf Ht [[] Ha]. split; [split|]; simpl; rewrite ?settled_app, ?asides_app; simpl; rewrite ?He; try done.
  - rewrite b_came0. by rewrite <-app_assoc.
  - apply Forall_app. split; [done|]. destruct (aside_at e) as [t|]; [|done]. constructor; [by apply Ht|done].
  - by apply fairly_snoc.
  - apply Forall_app. split; [done|]. destruct (aside_at e) as [t|]; [|done]. constructor; [|done]. left. by apply (Ht t).
Qed.

Lemma books_wanted L came n hand w : 0 < n → Books L came n hand w → Books L came n hand (w {{ drainWanted := true }}).
Proof.
  intros Hn [[] Ha]. split; [split; try done|].
  - intros _. change (0 < w.(pending)). lia.
  - apply Forall_forall. intros t _. by left.
Qed.

Lemma books_defer i came n id from w :
  0 < n → Books i.(t_now) came n [(from, id)] w → Books i.(t_now) came n [] (defer i id from w).
Proof.
  intros Hn Hw. unfold defer. eapply books_settles; [done|done| |by apply books_wanted].
  intros t [= <-]. split; [lia|done].
Qed.

Lemma books_ack i came n from id o c w :
  0 < n → Books i.(t_now) came n [(from, id)] w → Books i.(t_now) came n [] (ack i from id o c w).
Proof.
  intros Hn Hw. unfold ack. destruct (truthy (i_self i)); [|by apply books_defer].
  destruct (truthy (i_seed i)); [|by apply books_defer]. destruct (signBusAck _ _); [|by apply books_defer].
  eapply books_quiet; [apply quiet_scheduleAckFlush|]. eapply books_settles; [done|done|done|].
  by eapply books_quiet; [apply quiet_acks|].
Qed.

(** The delivery in hand waits again: it is back in the chain. *)
Lemma books_waits L came n p k w :
  waiting p = [k] → w.(phase) = Resting → Books L came (n + 1) [k] w → Books L came n [] (w {{ phase := p }}).
Proof.
  intros Hp Hw [[Hr Hpe Hc Hwa Hpa Hfa] Ha]. split; [|done].
  assert (in_chain (w {{ phase := p }}) = k :: in_chain w) as Hk.
  { unfold in_chain. change (phase (w {{ phase := p }})) with p. by rewrite Hp, Hw. }
  split; rewrite ?Hk; try done. change (w.(pending) = Z.of_nat (length (k :: in_chain w)) + n). rewrite length_cons. lia.
Qed.

(** A delivery that begins is settled, or waits and is counted with the chain. *)
Definition counted (w : Transport) : Z := match w.(phase) with Resting => 1 | _ => 0 end.

Definition steps (i : Instant) came k (w w' : Transport) : Prop :=
  w.(phase) = Resting → Books i.(t_now) came 1 [k] w → Books i.(t_now) came (counted w') [] w'.

Lemma phase_quiet w w' : quiet w w' → w'.(phase) = w.(phase).
Proof. by intros []. Qed.

Lemma phase_emit e w : (emit e w).(phase) = w.(phase).
Proof. done. Qed.

Lemma phase_defer i id from w : (defer i id from w).(phase) = w.(phase).
Proof. done. Qed.

Lemma phase_ack i from id o c w : (ack i from id o c w).(phase) = w.(phase).
Proof.
  unfold ack. destruct (truthy (i_self i)); [|done]. destruct (truthy (i_seed i)); [|done].
  destruct (signBusAck _ _); [|done]. by rewrite (phase_quiet _ _ (quiet_scheduleAckFlush _ _ _)).
Qed.

Lemma steps_defer i came id from w : steps i came (from, id) w (defer i id from w).
Proof. intros Hp Hw. unfold counted. rewrite phase_defer, Hp. by apply books_defer. Qed.

Lemma steps_ack i came from id o c w : steps i came (from, id) w (ack i from id o c w).
Proof. intros Hp Hw. unfold counted. rewrite phase_ack, Hp. by apply books_ack. Qed.

Lemma steps_quiet i came k w w1 w2 : quiet w w1 → steps i came k w1 w2 → steps i came k w w2.
Proof. intros Hq Hs Hp Hw. apply Hs; [by rewrite (phase_quiet _ _ Hq)|by eapply books_quiet]. Qed.

Lemma steps_emit i came k e w w' :
  settled_by e = None → aside_at e = None → steps i came k (emit e w) w' → steps i came k w w'.
Proof. intros He Ht Hs Hp Hw. apply Hs; [done|by apply books_emit]. Qed.

Lemma steps_seen i came k s w w' : steps i came k (w {{ seen := s }}) w' → steps i came k w w'.
Proof. intros Hs Hp [[] Ha]. apply Hs; [done|]. by split. Qed.

Lemma steps_waits i came p k w : waiting p = [k] → steps i came k w (w {{ phase := p }}).
Proof.
  intros Hp Hw Hb. unfold counted. destruct p; [done| |]; simpl; eapply books_waits; try done; exact Hb.
Qed.

Lemma steps_open_delivery i came msg me entry w : steps i came (msg_key msg) w (open_delivery i msg me entry w).
Proof.
  unfold open_delivery. destruct (i_busKey i) as [[priv pub]|]; [|apply steps_defer].
  destruct (openBus _ _ _ _ _ _ _) as [[h text]|e]; [|apply steps_ack].
  destruct (seen_get _ _ _) as [row|].
  - destruct (seen_response row); [|apply steps_ack]. eapply steps_quiet; [|apply steps_ack]. by apply quiet_emit.
  - destruct (isExpired h _); [apply steps_ack|]. destruct (json_parse text) as [body|]; [|apply steps_ack].
    eapply steps_emit; [| |by apply steps_waits]; done.
Qed.

Lemma steps_vet_sender i came msg me fresh w : steps i came (msg_key msg) w (vet_sender i msg me fresh w).
Proof.
  unfold vet_sender. destruct (i_directory i) as [v|]; [|apply steps_defer].
  destruct (negb _); [apply steps_defer|]. destruct (find_machine _ _); [apply steps_open_delivery|].
  destruct (negb _); [apply steps_defer|apply steps_ack].
Qed.

Lemma steps_begin i came msg w :
  (∀ from, ignorable i from → J from) → steps i came (msg_key msg) w (begin_delivery i msg w).
Proof.
  intros HJ. unfold begin_delivery.
  assert (ignorable i msg.(df_from) → steps i came (msg_key msg) w (emit (EIgnored msg.(df_from) msg.(df_id)) w)) as Hignore.
  { intros Hi Hp Hb. unfold counted. rewrite phase_emit, Hp. eapply books_settles; [done|by apply HJ|done|done]. }
  destruct (truthy (i_self i)) as [me|] eqn:Hme; [|apply Hignore; by left].
  case_bool_decide as Heq; [apply Hignore; right; by rewrite Heq|].
  destruct (truthy (i_seed i)); [|apply steps_defer]. case_match; [apply steps_vet_sender|].
  by apply steps_waits.
Qed.

Lemma steps_decide newest_first i came from id h verdict w :
  steps i came (from, id) w (decide_delivery newest_first i from id h verdict w).
Proof.
  unfold decide_delivery. destruct verdict as [[response|code|]|]; try apply steps_defer.
  all: eapply steps_seen, steps_emit; [| |apply steps_ack]; done.
Qed.

(** ** The chain *)

Lemma books_finish i came w : Books i.(t_now) came 1 [] w → Books i.(t_now) came 0 [] (finish i w).
Proof.
  intros [[Hr Hp Hc Hw Hpast Hfa] Ha]. unfold finish.
  change (pending (w {{ pending := w.(pending) - 1 }})) with (w.(pending) - 1).
  change (drainWanted (w {{ pending := w.(pending) - 1 }})) with (drainWanted w).
  assert (w.(pending) - 1 = Z.of_nat (length (in_chain w)) + 0) as Hpend by lia.
  destruct (_ && drainWanted w) eqn:Hd.
  - apply books_requestDrain. split; done.
  - split; [|done]. split; try done. change (drainWanted w = true → 0 < w.(pending) - 1). intros Hwant.
    rewrite Hwant, andb_true_r in Hd. apply Z.eqb_neq in Hd. lia.
Qed.

Lemma books_chain fuel i came w :
  (∀ from, ignorable i from → J from) → Books i.(t_now) came 0 [] w → Books i.(t_now) came 0 [] (run_chain fuel i w).
Proof.
  intros HJ. revert w. induction fuel as [|fuel IH]; intros w Hw; [by rewrite run_chain_0|].
  rewrite run_chain_step. destruct (phase w) eqn:Hp; [|done..]. destruct (inbox w) as [|msg rest] eqn:Hin; [done|].
  set (w1 := w {{ inbox := rest }}). assert (Books i.(t_now) came 1 [msg_key msg] w1) as Hw1.
  { destruct Hw as [[Hr Hpe Hc Hwa Hpa Hfa] Ha]. split; [|done]. assert (in_chain w = msg_key msg :: in_chain w1) as Hk.
    { unfold in_chain. change (phase w1) with (phase w). by rewrite Hp, Hin. }
    rewrite Hk in *. split; try done. change (w.(pending) = Z.of_nat (length (in_chain w1)) + 1). rewrite length_cons in Hpe. lia. }
  assert (w1.(phase) = Resting) as Hp1 by done.
  pose proof (steps_begin i came msg w1 HJ Hp1 Hw1) as Hb. unfold counted in Hb.
  destruct (phase (begin_delivery i msg w1)) eqn:Hp'; [|done..]. by apply IH, books_finish.
Qed.

Lemma books_continue i came w :
  (∀ from, ignorable i from → J from) → Books i.(t_now) came (counted w) [] w → Books i.(t_now) came 0 [] (continue_chain i w).
Proof.
  unfold counted, continue_chain. intros HJ Hw. destruct (phase w); [|done..]. by apply books_chain, books_finish.
Qed.

(** The delivery that was waiting is in hand again. *)
Lemma books_taken L came k w :
  waiting w.(phase) = [k] → Books L came 0 [] w → Books L came 1 [k] (w {{ phase := Resting }}).
Proof.
  intros Hp [[Hr Hpe Hc Hwa Hpa Hfa] Ha]. split; [|done].
  assert (in_chain w = k :: in_chain (w {{ phase := Resting }})) as Hk by (unfold in_chain; by rewrite Hp).
  rewrite Hk in *. split; try done. change (w.(pending) = Z.of_nat (length (in_chain (w {{ phase := Resting }}))) + 1).
  rewrite length_cons in Hpe. lia.
Qed.

Lemma books_event newest_first i e came w :
  (∀ from, ignorable i from → J from) → e ≠ EvStop → Books i.(t_now) came 0 [] w →
  Books i.(t_now) (came ++ option_list (arrival (i, e))) 0 [] (transport_event newest_first i e w).
Proof.
  intros HJ Hne Hw. assert (arrival (i, e) = None → came ++ option_list (arrival (i, e)) = came) as Hno.
  { intros ->. by rewrite app_nil_r. }
  destruct e as [s| | |msg|fresh|v| |]; simpl; rewrite ?app_nil_r; try done.
  - eapply books_quiet; [apply quiet_send|done].
  - apply books_sendDrain. by destruct Hw.
  - unfold handleFrame. rewrite (b_running _ _ _ _ _ _ (proj1 Hw)). destruct msg; rewrite ?app_nil_r; try done.
    + by apply books_emit.
    + unfold enqueueDeliver. set (msg := {| df_id := id; df_from := from; df_blob := blob |}).
      destruct Hw as [[] Ha]. destruct (_ <=? _).
      * apply books_requestDrain. split; simpl; rewrite ?settled_app, ?asides_app; simpl; try done.
        -- rewrite b_came0, <-!app_assoc. simpl. f_equiv. rewrite (Permutation_app_comm (in_chain w)). done.
        -- apply Forall_app. split; [done|]. constructor; [apply Z.le_refl|done].
        -- by apply fairly_snoc.
      * apply books_chain; [done|]. split; [|done]. set (w1 := w {{ pending := _; inbox := _ }}).
        assert (in_chain w1 = in_chain w ++ [msg_key msg]) as Hk.
        { unfold in_chain. change (inbox w1) with (inbox w ++ [msg]). by rewrite fmap_app, app_assoc. }
        split; rewrite ?Hk; try done.
        -- change (w.(pending) + 1 = Z.of_nat (length (in_chain w ++ [msg_key msg])) + 0). rewrite length_app. simpl length. lia.
        -- rewrite b_came0. change (trace w1) with (trace w). by rewrite <-!app_assoc.
        -- change (drainWanted w = true → 0 < w.(pending) + 1). intros Hd. apply b_wanted0 in Hd. lia.
    + eapply books_quiet; [apply quiet_handleAcked|done].
    + eapply books_quiet; [apply quiet_handleRefused|done].
  - unfold fresh_settles. destruct (phase w) as [|msg me|] eqn:Hp; [done| |done].
    apply books_continue; [done|]. apply (steps_vet_sender i came msg me fresh); [done|]. apply books_taken; [by rewrite Hp|done].
  - unfold inbound_settles. destruct (phase w) as [| |msg h] eqn:Hp; [done|done|].
    apply books_continue; [done|]. apply (steps_decide newest_first i came msg.(df_from) msg.(df_id)); [done|].
    apply (books_taken _ _ (msg_key msg)); [by rewrite Hp|done].
  - destruct (ackTimer w); [|done]. eapply books_quiet; [apply quiet_ack_fires|done].
  - destruct (drainTimer w); [|done]. unfold drain_fires. apply books_sendDrain. by destruct Hw as [[] ?].
Qed.

End books.


#[local] Existing Instances toy_json toy_crypto.

