(* ===== verification/BusLink.v ===== *)
(** * BusLink: what the transport puts on the link and learns from it

    Of the transport of BusTransport.v: sends and acknowledgements together keep
    to one rate; every copy of a message carries the times the first one did; and
    a terminal outcome is only ever reported on the recipient's signed word or on
    a refusal of the relay that cannot be retried. *)

From S2P Require Import Prelude JsMap Wire Buffers BusSeal SeenStore BusTransport.
From coqutil Require Import Datatypes.RecordSetters.
Import DoubleBraceUpdate.

Local Open Scope Z_scope.

(** A mail or acknowledgement frame the link took, and an outcome reported. *)
Definition on_link (e : Effect) : bool :=
  match e with EOffered (FSend _ _ _ _) true | EOffered (FAck _) true => true | _ => false end.
Definition frames (t : list Effect) : Z := Z.of_nat (length (filter (λ e, on_link e = true) t)).

Definition reported (e : Effect) : option (string * string * TransportOutcome) :=
  match e with EOutcome id to o => Some (id, to, o) | _ => None end.
Definition reports (t : list Effect) : list (string * string * TransportOutcome) := omap reported t.

Lemma frames_app t1 t2 : frames (t1 ++ t2) = frames t1 + frames t2.
Proof. unfold frames. rewrite filter_app, length_app. lia. Qed.
Lemma frames_one e : frames [e] = if on_link e then 1 else 0.
Proof. unfold frames. rewrite filter_cons, filter_nil. by destruct (on_link e). Qed.
Lemma reports_app t1 t2 : reports (t1 ++ t2) = reports t1 ++ reports t2.
Proof. apply omap_app. Qed.

(** ** What the chain of deliveries leaves alone *)

Definition silent_effect (e : Effect) : Prop := on_link e = false ∧ reported e = None.

Record silent (w w' : Transport) : Prop := {
  s_tokens : w'.(tokens) = w.(tokens);
  s_tokensAt : w'.(tokensAt) = w.(tokensAt);
  s_trace : ∃ es, w'.(trace) = w.(trace) ++ es ∧ Forall silent_effect es;
}.

#[export] Instance silent_preorder : PreOrder silent.
Proof.
  split.
  - intros w. split; try done. exists []. by rewrite app_nil_r.
  - intros w1 w2 w3 [??(es & Ht & Hes)] [??(es' & Ht' & Hes')]. split; try congruence.
    exists (es ++ es'). split; [by rewrite Ht', Ht, app_assoc|by apply Forall_app].
Qed.

Section silent.
Context `{!Crypto, !JsonText}.
Implicit Types (i : Instant) (w : Transport).

Ltac still := split; [done|done|exists []; by rewrite app_nil_r].

Lemma silent_emit e w : silent_effect e → silent w (emit e w).
Proof. intros He. split; [done|done|]. exists [e]. split; [done|]. by constructor. Qed.

Lemma silent_sendDrain i w : silent w (sendDrain i w).
Proof.
  unfold sendDrain. destruct (stopped w); [done|]. assert (silent w (w {{ lastDrainAt := Some i.(t_now) }})) by still.
  destruct (i_link i) as [l|]; [|done]. destruct (can_send l); [|done]. etrans; [done|]. by apply silent_emit.
Qed.

Lemma silent_requestDrain i w : silent w (requestDrain i w).
Proof.
  unfold requestDrain. destruct (stopped w); [done|]. destruct (_ <=? 0).
  - etrans; [|apply silent_sendDrain]. still.
  - destruct (drainTimer w); [done|]. still.
Qed.

Lemma silent_scheduleAckFlush i d w : silent w (scheduleAckFlush i d w).
Proof. unfold scheduleAckFlush. destruct (ackTimer w); [done|]. destruct (stopped w); [done|]. still. Qed.

Lemma silent_defer i id from w : silent w (defer i id from w).
Proof. unfold defer. etrans; [|by apply silent_emit]. still. Qed.

Lemma silent_ack i from id o c w : silent w (ack i from id o c w).
Proof.
  unfold ack. destruct (truthy (i_self i)); [|apply silent_defer]. destruct (truthy (i_seed i)); [|apply silent_defer].
  destruct (signBusAck _ _); [|apply silent_defer]. etrans; [|apply silent_scheduleAckFlush]. etrans; [|by apply silent_emit]. still.
Qed.

Lemma silent_phase p w : silent w (w {{ phase := p }}).
Proof. still. Qed.

Lemma silent_open_delivery i msg me entry w : silent w (open_delivery i msg me entry w).
Proof.
  unfold open_delivery. destruct (i_busKey i) as [[priv pub]|]; [|apply silent_defer].
  destruct (openBus _ _ _ _ _ _ _) as [[h text]|e]; [|apply silent_ack]. destruct (seen_get _ _ _) as [row|].
  - etrans; [|apply silent_ack]. destruct (seen_response row); [|done]. by apply silent_emit.
  - destruct (isExpired h _); [apply silent_ack|]. destruct (json_parse text); [|apply silent_ack].
    etrans; [|apply silent_phase]. by apply silent_emit.
Qed.

Lemma silent_vet_sender i msg me fresh w : silent w (vet_sender i msg me fresh w).
Proof.
  unfold vet_sender. destruct (i_directory i) as [v|]; [|apply silent_defer]. destruct (negb _); [apply silent_defer|].
  destruct (find_machine _ _); [apply silent_open_delivery|]. destruct (negb _); [apply silent_defer|apply silent_ack].
Qed.

Lemma silent_begin i msg w : silent w (begin_delivery i msg w).
Proof.
  unfold begin_delivery. destruct (truthy (i_self i)) as [me|]; [|by apply silent_emit].
  case_bool_decide; [by apply silent_emit|]. destruct (truthy (i_seed i)); [|apply silent_defer].
  case_match; [apply silent_vet_sender|apply silent_phase].
Qed.

Lemma silent_finish i w : silent w (finish i w).
Proof.
  unfold finish. case_match; [|still]. etrans; [|apply silent_requestDrain]. still.
Qed.

Lemma silent_chain fuel i w : silent w (run_chain fuel i w).
Proof.
  revert w. induction fuel as [|fuel IH]; intros w; [by rewrite run_chain_0|]. rewrite run_chain_step.
  destruct (phase w); [|done..]. destruct (inbox w) as [|msg rest]; [done|].
  assert (silent w (begin_delivery i msg (w {{ inbox := rest }}))) as Hb by (etrans; [|apply silent_begin]; still).
  destruct (phase (begin_delivery _ _ _)); [|done..]. etrans; [exact Hb|]. etrans; [|apply IH]. apply silent_finish.
Qed.

Lemma silent_continue i w : silent w (continue_chain i w).
Proof. unfold continue_chain. destruct (phase w); [|done..]. etrans; [apply silent_finish|apply silent_chain]. Qed.

Lemma silent_decide newest_first i from id h v w : silent w (decide_delivery newest_first i from id h v w).
Proof.
  unfold decide_delivery. destruct v as [[response|code|]|]; try apply silent_defer.
  all: etrans; [|apply silent_ack]; etrans; [|by apply silent_emit]; still.
Qed.

(** The events that touch neither tokens nor outcomes. *)
Definition silent_event (e : TransportEvent) : bool :=
  match e with EvSend _ | EvAckTimer => false | EvFrame (BusReceipt _ _ _ | BusAcked _ _ _ _ _ | BusRefused _ _ _ _) => false | _ => true end.

Lemma silent_events newest_first i e w : silent_event e = true → silent w (transport_event newest_first i e w).
Proof.
  destruct e as [s| | |msg|fresh|v| |]; intros He; try done; simpl.
  - apply silent_sendDrain.
  - still.
  - unfold handleFrame. destruct (stopped w); [done|]. destruct msg; try done. unfold enqueueDeliver. destruct (_ <=? _).
    + etrans; [|apply silent_requestDrain]. by apply silent_emit.
    + etrans; [|apply silent_chain]. still.
  - unfold fresh_settles. destruct (phase w); [done| |done]. etrans; [|apply silent_continue].
    etrans; [|apply silent_vet_sender]. apply silent_phase.
  - unfold inbound_settles. destruct (phase w); [done|done|]. etrans; [|apply silent_continue].
    etrans; [|apply silent_decide]. apply silent_phase.
  - destruct (drainTimer w); [|done]. unfold drain_fires. etrans; [|apply silent_sendDrain]. still.
Qed.

Lemma silent_reports w w' : silent w w' → reports w'.(trace) = reports w.(trace) ∧ frames w'.(trace) = frames w.(trace).
Proof.
  intros [_ _ (es & -> & Hes)]. rewrite reports_app, frames_app. assert (reports es = [] ∧ frames es = 0) as [-> ->].
  { induction Hes as [|e es [Hl Hr] _ [IH1 IH2]]; [done|]. change (e :: es) with ([e] ++ es).
    rewrite reports_app, frames_app, frames_one, Hl, IH1, IH2. simpl. by rewrite Hr. }
  by rewrite app_nil_r, Z.add_0_r.
Qed.
End silent.

(** ** Pacing *)

(** What the bucket holds at [L]. *)
Definition credit (w : Transport) (L : Z) : Z :=
  match w.(tokensAt) with
  | Some at_ => Z.min (1000 * BUS_LINK_BURST) (w.(tokens) + (L - at_) * BUS_LINK_FRAMES_PER_SEC)
  | None => w.(tokens)
  end.

Definition bucket_ok (L : Z) (w : Transport) : Prop :=
  0 <= w.(tokens) <= 1000 * BUS_LINK_BURST ∧ ∀ at_, w.(tokensAt) = Some at_ → at_ <= L.

Definition paced_at (L : Z) (w w' : Transport) : Prop :=
  bucket_ok L w → bucket_ok L w' ∧ 1000 * frames w'.(trace) + credit w' L <= 1000 * frames w.(trace) + credit w L.

#[export] Instance paced_preorder L : PreOrder (paced_at L).
Proof.
  split; [by intros w Hw|]. intros w1 w2 w3 H12 H23 H1. destruct (H12 H1) as [H2 Hle]. destruct (H23 H2) as [H3 Hle'].
  split; [done|lia].
Qed.

Section pacing.
Context `{!Crypto, !JsonText}.
Implicit Types (i : Instant) (w : Transport).

Lemma paced_same L w w' :
  w'.(tokens) = w.(tokens) → w'.(tokensAt) = w.(tokensAt) → frames w'.(trace) = frames w.(trace) → paced_at L w w'.
Proof. intros Ht Ha Hf [Hb1 Hb2]. unfold bucket_ok, credit. rewrite Ht, Ha, Hf. split; [done|lia]. Qed.

Lemma paced_silent L w w' : silent w w' → paced_at L w w'.
Proof. intros Hs. apply paced_same; [apply Hs..|by apply silent_reports]. Qed.

(** A token taken pays for one frame. *)
Lemma take_token i w : bucket_ok i.(t_now) w →
  let '(taken, w') := takeToken i w in
  w'.(trace) = w.(trace) ∧ w'.(tokensAt) = Some i.(t_now) ∧ bucket_ok i.(t_now) w' ∧
  w'.(tokens) <= credit w i.(t_now) - (if taken then 1000 else 0).
Proof.
  destruct w as [tk ta]. intros [Hb1 Hb2]. unfold takeToken, refill, bucket_ok, credit. simpl in *.
  unfold BUS_LINK_FRAMES_PER_SEC, BUS_LINK_BURST in *. destruct ta as [a|].
  - specialize (Hb2 a eq_refl). destruct (Z.ltb_spec a i.(t_now)); destruct (_ <? 1000) eqn:Ht; simpl; reflect_bools;
      split_and!; try done; try lia; intros ? [= <-]; lia.
  - destruct (_ <? 1000) eqn:Ht; simpl; reflect_bools; split_and!; try done; try lia; intros ? [= <-]; lia.
Qed.

Lemma credit_now i w : w.(tokensAt) = Some i.(t_now) → bucket_ok i.(t_now) w → credit w i.(t_now) = w.(tokens).
Proof. intros Ha [Hb _]. unfold credit. rewrite Ha, Z.sub_diag. lia. Qed.

(** Taking a token, and then offering a frame the link takes, or giving the
    token back, or neither. *)
Lemma paced_offer i e w w1 taken :
  takeToken i w = (taken, w1) → on_link e = taken → paced_at i.(t_now) w (emit e w1).
Proof.
  intros Ht He Hb. pose proof (take_token i w Hb) as Hw. rewrite Ht in Hw. destruct Hw as (Htr & Ha & Hb1 & Hle).
  split; [exact Hb1|]. change (trace (emit e w1)) with (w1.(trace) ++ [e]). rewrite frames_app, frames_one, Htr, He.
  change (credit (emit e w1) (t_now i)) with (credit w1 (t_now i)). rewrite credit_now by done. destruct taken; lia.
Qed.

Lemma paced_take i w : paced_at i.(t_now) w (snd (takeToken i w)).
Proof.
  intros Hb. pose proof (take_token i w Hb) as Hw. destruct (takeToken i w) as [taken w1]. destruct Hw as (Htr & Ha & Hb1 & Hle).
  split; [exact Hb1|]. simpl. rewrite Htr, credit_now by done. destruct taken; lia.
Qed.

Lemma paced_returned i e w w1 :
  takeToken i w = (true, w1) → on_link e = false → paced_at i.(t_now) w (returnToken (emit e w1)).
Proof.
  intros Ht He Hb. pose proof (take_token i w Hb) as Hw. rewrite Ht in Hw. destruct Hw as (Htr & Ha & [Hb1 Hb2] & Hle).
  set (w2 := returnToken (emit e w1)). change (tokens w2) with (Z.min (1000 * BUS_LINK_BURST) (w1.(tokens) + 1000)).
  assert (bucket_ok i.(t_now) w2) as Hw2.
  { split; [|done]. change (tokens w2) with (Z.min (1000 * BUS_LINK_BURST) (w1.(tokens) + 1000)). lia. }
  split; [done|]. rewrite (credit_now i w2) by done.
  change (tokens w2) with (Z.min (1000 * BUS_LINK_BURST) (w1.(tokens) + 1000)).
  change (trace w2) with (w1.(trace) ++ [e]). rewrite frames_app, frames_one, Htr, He. lia.
Qed.

Lemma paced_flush_loop i l n q w : paced_at i.(t_now) w (flush_loop i l n q w).
Proof.
  revert n w. induction q as [|a q IH]; intros n w; [by apply paced_same|]. cbn [flush_loop].
  pose proof (paced_take i w) as Hp. destruct (takeToken i w) as [[] w1] eqn:Ht; cbn [negb]; cbv iota.
  - destruct (accepts l n).
    + etrans; [|apply IH]. by apply (paced_offer i _ w w1 true).
    + etrans; [by apply (paced_returned i (EOffered (FAck a) false) w w1)|]. by apply paced_same.
  - etrans; [apply Hp|]. by apply paced_same.
Qed.

Lemma paced_emit L e w : on_link e = false → paced_at L w (emit e w).
Proof.
  intros He. apply paced_same; [done..|]. change (trace (emit e w)) with (w.(trace) ++ [e]).
  rewrite frames_app, frames_one, He. lia.
Qed.

Lemma paced_send i s w : paced_at i.(t_now) w (snd (send i s w)).
Proof.
  unfold send. repeat (case_match; try done); simpl; try by apply paced_emit.
  all: match goal with Ht : takeToken ?j ?x = (?b, _), Hn : negb ?b = _ |- _ =>
         destruct b; [|pose proof (paced_take j x) as Hp; rewrite Ht in Hp] end; try done.
  - by eapply paced_offer.
  - by eapply paced_returned.
Qed.

Lemma paced_ack_fires i w : paced_at i.(t_now) w (ack_fires i w).
Proof.
  unfold ack_fires. set (w0 := w {{ ackTimer := None }}). etrans; [by apply (paced_same _ w w0)|].
  unfold flushAcks. destruct (stopped w0); [done|]. set (w1 := match i_link i with Some _ => _ | None => _ end).
  assert (paced_at i.(t_now) w0 w1) as Hw1.
  { unfold w1. destruct (i_link i) as [l|]; [|done]. destruct (can_send l); [|done]. apply paced_flush_loop. }
  destruct (acks w1); [done|]. etrans; [exact Hw1|]. apply paced_silent, silent_scheduleAckFlush.
Qed.

Lemma paced_handleAcked L i id to o c sig w : paced_at L w (handleAcked i id to o c sig w).
Proof.
  unfold handleAcked. destruct (negb _).
  - destruct (truthy _); [by apply paced_emit|]. etrans; [|by apply paced_emit]. by apply paced_emit.
  - destruct o; [by apply paced_emit|]. case_bool_decide; [|by apply paced_emit]. etrans; [|by apply paced_emit]. by apply paced_emit.
Qed.

Lemma paced_event newest_first i e w : paced_at i.(t_now) w (transport_event newest_first i e w).
Proof.
  destruct (silent_event e) eqn:He; [by apply paced_silent, silent_events|].
  destruct e as [s| | |msg|fresh|v| |]; try done; simpl.
  - apply paced_send.
  - unfold handleFrame. destruct (stopped w); [done|]. destruct msg; try done.
    + by apply paced_emit.
    + apply paced_handleAcked.
    + unfold handleRefused. destruct (REFUSAL_RULES reason) as [ex o]. destruct (negb _); by apply paced_emit.
  - destruct (ackTimer w); [|done]. apply paced_ack_fires.
Qed.

Lemma bucket_later L L' w : L <= L' → bucket_ok L w → bucket_ok L' w.
Proof. intros Hle [Hb Ha]. split; [done|]. intros a Hat. specialize (Ha a Hat). lia. Qed.

Lemma credit_later L L' w : L <= L' → credit w L' <= credit w L + (L' - L) * BUS_LINK_FRAMES_PER_SEC.
Proof. unfold credit, BUS_LINK_FRAMES_PER_SEC. destruct (tokensAt w); lia. Qed.

Lemma credit_bounds L w : bucket_ok L w → 0 <= credit w L <= 1000 * BUS_LINK_BURST.
Proof. intros [Hb Ha]. unfold credit. destruct (tokensAt w) as [a|]; [|done]. specialize (Ha a eq_refl). unfold BUS_LINK_FRAMES_PER_SEC, BUS_LINK_BURST in *. lia. Qed.

(** From the clock [L] on, a run spends what the bucket held and what time
    earned. *)
Lemma paced_run newest_first evs w L L' :
  bucket_ok L w → Sorted.StronglySorted Z.le ((λ ie, ie.1.(t_now)) <$> evs) →
  Forall (λ ie, L <= ie.1.(t_now) <= L') evs → L <= L' →
  let w' := run_transport newest_first evs w in
  bucket_ok L' w' ∧
  1000 * frames w'.(trace) + credit w' L' <= 1000 * frames w.(trace) + credit w L + (L' - L) * BUS_LINK_FRAMES_PER_SEC.
Proof.
  revert w L. induction evs as [|[i e] evs IH]; intros w L Hb Hmono Hrange HL.
  - simpl. split; [by apply (bucket_later L)|]. pose proof (credit_later L L' w HL). lia.
  - apply Forall_cons in Hrange as [[HLi HiL] Hrange]. simpl in HLi, HiL. apply first_is_earliest in Hmono as [Hrest Hall].
    assert (bucket_ok i.(t_now) w) as Hbi by (by apply (bucket_later L)).
    destruct (paced_event newest_first i e w Hbi) as [Hb' Hle].
    destruct (IH (transport_event newest_first i e w) i.(t_now) Hb' Hrest) as [Hb2 Hle2]; [|done|].
    + rewrite Forall_forall in Hrange, Hall |- *. intros ie Hie. specialize (Hrange ie Hie). specialize (Hall ie Hie). cbn beta in *. lia.
    + split; [exact Hb2|]. pose proof (credit_later L i.(t_now) w HLi) as Hc.
      change (run_transport newest_first ((i, e) :: evs) w) with (run_transport newest_first evs (transport_event newest_first i e w)).
      set (w' := run_transport newest_first evs _) in *. unfold BUS_LINK_FRAMES_PER_SEC in *. lia.
Qed.
End pacing.

(** Mail and acknowledgements share one pace.  In any stretch of a run whose
    clock does not go backwards, between the instants [from] and [to], the link
    takes at most a burst of 24 frames and eight more a second, acknowledgements
    and mail together, whatever fails, is retried or piles up. *)
Theorem link_frames_paced `{!Crypto, !JsonText} (newest_first : list Stored → list Stored) (found : list Stored)
    (before stretch : list (Instant * TransportEvent)) (from to : Z) :
  Sorted.StronglySorted Z.le ((λ ie, ie.1.(t_now)) <$> before ++ stretch) →
  Forall (λ ie, from <= ie.1.(t_now) <= to) stretch → Forall (λ ie, ie.1.(t_now) <= from) before → from <= to →
  let w := run_transport newest_first before (new_transport found) in
  let w' := run_transport newest_first (before ++ stretch) (new_transport found) in
  1000 * (frames w'.(trace) - frames w.(trace)) <= 1000 * BUS_LINK_BURST + (to - from) * BUS_LINK_FRAMES_PER_SEC.
Proof.
  intros Hmono Hin Hbefore Hle w w'. rewrite fmap_app in Hmono.
  assert (bucket_ok from w) as Hb.
  { destruct before as [|[i e] before]; [by split|]. set (evs := (i, e) :: before) in *.
    apply (paced_run newest_first evs (new_transport found) i.(t_now) from).
    - by split.
    - by eapply sorting.StronglySorted_app_1_l.
    - apply sorting.StronglySorted_app_1_l, first_is_earliest in Hmono as [_ Hall].
      rewrite Forall_forall in Hall, Hbefore |- *. intros ie Hie. split; [|by apply Hbefore].
      apply elem_of_cons in Hie as [->|Hie]; [done|]. by apply Hall.
    - by apply Forall_cons in Hbefore as [? _]. }
  apply sorting.StronglySorted_app_1_r in Hmono.
  destruct (paced_run newest_first stretch w from to Hb Hmono Hin Hle) as [Hb' Hp].
  unfold w', run_transport. rewrite foldl_app. fold (run_transport newest_first before (new_transport found)). fold w.
  fold (run_transport newest_first stretch w). pose proof (credit_bounds _ _ Hb). pose proof (credit_bounds _ _ Hb'). lia.
Qed.

(** ** Resends *)
Section resends.
Context `{!Crypto, !JsonText}.
Implicit Types (i : Instant) (w : Transport).

Lemma takeToken_trace i w : (snd (takeToken i w)).(trace) = w.(trace).
Proof. unfold takeToken. by destruct (_ <? _). Qed.

(** What a send that went out put on the link. *)
Lemma sent_mail i s w w' : send i s w = (Sent, w') →
  ∃ me key seed blob,
    truthy i.(i_self) = Some me ∧ truthy i.(i_seed) = Some seed ∧ truthy (busKeyFor i s.(si_to)) = Some key ∧
    0 < lifetime_of s ∧ elapsed_of i s < lifetime_of s ∧
    sealBus i.(i_fresh) (outgoing_header i me s) (stringify s.(si_body)) seed key = inl blob ∧
    w'.(trace) = w.(trace) ++
      [EOffered (FSend s.(si_id) s.(si_to) blob (Z.max 1 ((outgoing_header i me s).(ih_expiresAt) - i.(t_now)))) true].
Proof.
  unfold send. destruct (negb (i_remoteAccess i)); [done|]. destruct (truthy (i_self i)) as [me|] eqn:Hme; [|done].
  destruct (negb _ || _); [done|]. destruct (_ || _) eqn:Hexp; [done|]. destruct (usable_link i) as [l|]; [|done].
  destruct (i_directory i); [|done]. destruct (truthy (busKeyFor _ _)) as [key|] eqn:Hkey; [|done].
  destruct (truthy (i_seed i)) as [seed|] eqn:Hseed; [|done]. destruct (sealBus _ _ _ _ _) as [blob|[]] eqn:Hs; [|done..].
  pose proof (takeToken_trace i w) as Ht. destruct (takeToken i w) as [[] w1]; [|done]. simpl in Ht.
  cbn [negb]. cbv iota. destruct (accepts l 0); [|done]. intros [= <-]. exists me, key, seed, blob.
  apply orb_false_iff in Hexp as [H1%Z.leb_gt H2%Z.leb_gt]. split_and!; try done. cbn. by rewrite Ht.
Qed.

End resends.

(** A send at the instant [k], from [w] to [w'], that put mail under [header] on
    the wire: the body is sealed under it, and the frame tells the relay a time to
    live that ends when the header expires and that the relay's schema accepts. *)
Definition sent_under `{!Crypto, !JsonText} (s : BusSendInput) (header : InnerHeader) (k : Instant) (w w' : Transport) : Prop :=
  ∃ seed key blob ttl,
    sealBus k.(i_fresh) header (stringify s.(si_body)) seed key = inl blob ∧
    w'.(trace) = w.(trace) ++ [EOffered (FSend s.(si_id) s.(si_to) blob ttl) true] ∧
    k.(t_now) + ttl = header.(ih_expiresAt) ∧ 1 <= ttl <= BUS_MAX_TTL_MS.

(** Every copy of a message carries the times of the first.  Two sends of the
    same input that go out, however far apart, from the same machine with the
    same offset between its clock and the relay's, seal the same header: one
    expiry, at most the longest lifetime after the one sending time, not past at
    either send; and each tells the relay a time to live that ends then and that
    the relay's schema accepts. *)
Theorem resends_carry_one_header `{!Crypto, !JsonText} (i j : Instant) (s : BusSendInput) (wi wi' wj wj' : Transport) :
  send i s wi = (Sent, wi') → send j s wj = (Sent, wj') →
  i.(i_self) = j.(i_self) → i.(t_now) - i.(t_local) = j.(t_now) - j.(t_local) →
  s.(si_sentAt) <= i.(t_local) → s.(si_sentAt) <= j.(t_local) →
  ∃ header, 0 < header.(ih_expiresAt) - header.(ih_sentAt) <= BUS_MAX_TTL_MS ∧
    sent_under s header i wi wi' ∧ sent_under s header j wj wj'.
Proof.
  intros Hi Hj Hself Hoff Hli Hlj.
  apply sent_mail in Hi as (me & ki & seedi & bi & Hme & _ & _ & Hlt & Hei & Hsi & Hti).
  apply sent_mail in Hj as (me' & kj & seedj & bj & Hme' & _ & _ & _ & Hej & Hsj & Htj).
  assert (me' = me) as -> by congruence. assert (outgoing_header j me s = outgoing_header i me s) as Hh.
  { unfold outgoing_header, elapsed_of. rewrite !Z.max_r by lia. f_equal; lia. }
  rewrite Hh in Hsj, Htj. exists (outgoing_header i me s).
  assert ((outgoing_header i me s).(ih_expiresAt) = i.(t_now) - elapsed_of i s + lifetime_of s) as Hx by done.
  assert ((outgoing_header i me s).(ih_sentAt) = i.(t_now) - elapsed_of i s) as Hy by done.
  unfold elapsed_of in *. rewrite Z.max_r in Hei, Hx, Hy by lia. rewrite Z.max_r in Hej by lia.
  assert (lifetime_of s <= BUS_MAX_TTL_MS) as Hmax by (unfold lifetime_of; lia).
  split_and!; [lia|lia| |].
  - exists seedi, ki, bi, (Z.max 1 ((outgoing_header i me s).(ih_expiresAt) - i.(t_now))). split_and!; try done; lia.
  - exists seedj, kj, bj, (Z.max 1 ((outgoing_header i me s).(ih_expiresAt) - j.(t_now))). split_and!; try done; lia.
Qed.

(** ** Outcomes *)

(** What a frame says about a message this machine sent, at an instant. *)
Definition acked_word `{!Crypto} (i : Instant) (id to : string) (o : outcome) (code : option string) : Prop :=
  ∃ me pub sig, i.(i_self) = Some me ∧ me_ed25519Pub <$> machine i to = Some pub ∧
    verifyBusAck pub {| ak_from := me; ak_to := to; ak_id := id; ak_outcome := o; ak_code := code |} sig = true.

Definition earned `{!Crypto} (evs : list (Instant * TransportEvent)) (r : string * string * TransportOutcome) : Prop :=
  let '(id, to, o) := r in
  match o with
  | Applied => ∃ i code sig, (i, EvFrame (BusAcked id to applied code sig)) ∈ evs ∧ acked_word i id to applied code
  | Refused code =>
      (∃ i c sig, (i, EvFrame (BusAcked id to refused c sig)) ∈ evs ∧ acked_word i id to refused c ∧ code = default "MALFORMED" c ∧ code ≠ "UNOPENABLE") ∨
      (∃ i reason, (i, EvFrame (BusRefused id to reason false)) ∈ evs ∧ REFUSAL_RULES reason = Rule false (Refused code))
  | Relayed => ∃ i st, (i, EvFrame (BusReceipt id to st)) ∈ evs
  | Retry _ => True
  end.

Section outcomes.
Context `{!Crypto, !JsonText}.
Implicit Types (i : Instant) (w : Transport).

Lemma reports_emit e w : reports (emit e w).(trace) = reports w.(trace) ++ match reported e with Some r => [r] | None => [] end.
Proof. change (trace (emit e w)) with (w.(trace) ++ [e]). rewrite reports_app. simpl. by destruct (reported e). Qed.

Lemma reports_takeToken i w : reports (snd (takeToken i w)).(trace) = reports w.(trace).
Proof. by rewrite takeToken_trace. Qed.

Lemma reports_send i s w : reports (snd (send i s w)).(trace) = reports w.(trace).
Proof.
  unfold send. repeat (case_match; try done); simpl snd; rewrite ?reports_emit, ?app_nil_r; try done.
  all: match goal with Ht : takeToken ?j ?x = _ |- _ => pose proof (reports_takeToken j x) as Hr; rewrite Ht in Hr; simpl in Hr end; try done.
  change (trace (returnToken ?x)) with (trace x). by rewrite reports_emit, app_nil_r.
Qed.

Lemma reports_flush_loop i l n q w : reports (flush_loop i l n q w).(trace) = reports w.(trace).
Proof.
  revert n w. induction q as [|a q IH]; intros n w; [done|]. cbn [flush_loop].
  pose proof (reports_takeToken i w) as Hr. destruct (takeToken i w) as [[] w1]; simpl in Hr; cbn [negb]; cbv iota; [|exact Hr].
  destruct (accepts l n).
  - by rewrite IH, reports_emit, app_nil_r.
  - change (reports (emit (EOffered (FAck a) false) w1).(trace) = reports w.(trace)). by rewrite reports_emit, app_nil_r.
Qed.

Lemma reports_ack_fires i w : reports (ack_fires i w).(trace) = reports w.(trace).
Proof.
  unfold ack_fires, flushAcks. destruct (stopped _); [done|]. set (w1 := match i_link i with Some _ => _ | None => _ end).
  assert (reports w1.(trace) = reports w.(trace)) as <-.
  { unfold w1. destruct (i_link i) as [l|]; [|done]. destruct (can_send l); [|done]. by rewrite reports_flush_loop. }
  destruct (acks w1); [done|]. apply silent_reports, silent_scheduleAckFlush.
Qed.

Lemma truthy_Some o s : truthy o = Some s → o = Some s.
Proof. by destruct o as [[]|]. Qed.

Lemma earned_event newest_first i e w r evs : (i, e) ∈ evs →
  r ∈ reports (transport_event newest_first i e w).(trace) → r ∈ reports w.(trace) ∨ earned evs r.
Proof.
  intros Hin Hr. destruct (silent_event e) eqn:He.
  { left. by rewrite (proj1 (silent_reports _ _ (silent_events newest_first i e w He))) in Hr. }
  destruct e as [s| | |msg|fresh|v| |]; try done; cbn [transport_event] in Hr.
  - left. by rewrite reports_send in Hr.
  - unfold handleFrame in Hr. destruct (stopped w); [by left|]. destruct msg; try done.
    + rewrite reports_emit in Hr. apply elem_of_app in Hr as [Hr|Hr%list_elem_of_singleton]; [by left|right]. rewrite Hr. by exists i, state.
    + unfold handleAcked in Hr. destruct (truthy (i_self i)) as [me|] eqn:Hme.
      2: { cbn [negb] in Hr; cbv iota zeta in Hr. rewrite reports_emit in Hr.
           apply elem_of_app in Hr as [Hr|Hr%list_elem_of_singleton]; [left|right; by rewrite Hr].
           destruct (truthy (me_ed25519Pub <$> machine i to)); rewrite ?reports_emit, ?app_nil_r in Hr; done. }
      destruct (truthy (me_ed25519Pub <$> machine i to)) as [pub|] eqn:Hpub.
      2: { cbn [negb] in Hr; cbv iota zeta in Hr. rewrite !reports_emit, app_nil_r in Hr. apply elem_of_app in Hr as [Hr|Hr%list_elem_of_singleton]; [by left|right; by rewrite Hr]. }
      destruct (verifyBusAck _ _ _) eqn:Hv; cbn [negb] in Hr; cbv iota in Hr.
      2: { rewrite reports_emit in Hr. apply elem_of_app in Hr as [Hr|Hr%list_elem_of_singleton]; [by left|right; by rewrite Hr]. }
      assert (acked_word i id to o c) as Hw.
      { exists me, pub, sig. split_and!; [by apply truthy_Some|by apply truthy_Some|done]. }
      destruct o.
      * rewrite reports_emit in Hr. apply elem_of_app in Hr as [Hr|Hr%list_elem_of_singleton]; [by left|right].
        rewrite Hr. by exists i, c, sig.
      * case_bool_decide as Hun; rewrite ?reports_emit, ?app_nil_r in Hr;
          apply elem_of_app in Hr as [Hr|Hr%list_elem_of_singleton]; try by left.
        -- right. by rewrite Hr.
        -- right. rewrite Hr. left. by exists i, c, sig.
    + unfold handleRefused in Hr. destruct (REFUSAL_RULES reason) as [ex o] eqn:Hrule.
      destruct (negb (eqb ex retryable)) eqn:Hneq; rewrite reports_emit in Hr;
        apply elem_of_app in Hr as [Hr|Hr%list_elem_of_singleton]; try (by left); right; rewrite Hr.
      * by destruct o.
      * apply negb_false_iff, eqb_prop in Hneq as ->. destruct reason; simpl in Hrule; simplify_eq; simpl; try done.
        all: right; eexists i, _; split; [exact Hin|done].
  - left. destruct (ackTimer w); [|done]. by rewrite reports_ack_fires in Hr.
Qed.
End outcomes.

(** C11: no outcome is made up.  A message is reported applied only after the
    machine it was sent to said so under the key the directory gives it, about
    this very message and this sender; refused only on such a word, never on one
    that blames the sender's copy of the key, or on a refusal of the relay whose
    reason and flag agree that it is final; relayed only on the relay's receipt. *)
Theorem outcomes_earned `{!Crypto, !JsonText} (newest_first : list Stored → list Stored) (found : list Stored)
    (evs : list (Instant * TransportEvent)) id to o :
  EOutcome id to o ∈ (run_transport newest_first evs (new_transport found)).(trace) → earned evs (id, to, o).
Proof.
  intros Hin. assert ((id, to, o) ∈ reports (run_transport newest_first evs (new_transport found)).(trace)) as Hr.
  { apply list_elem_of_omap. by exists (EOutcome id to o). }
  clear Hin. revert Hr. generalize (id, to, o). clear id to o. intros r.
  assert (∀ es w, (∀ ie, ie ∈ es → ie ∈ evs) → r ∈ reports (run_transport newest_first es w).(trace) →
    r ∈ reports w.(trace) ∨ earned evs r) as Hrun.
  { induction es as [|[i e] es IH]; intros w Hsub Hr; [by left|]. simpl in Hr. apply IH in Hr as [Hr|Hr]; [|by right|].
    - eapply earned_event; [|exact Hr]. apply Hsub, elem_of_cons. by left.
    - intros ie Hie. apply Hsub, elem_of_cons. by right. }
  intros Hr. destruct (Hrun evs _ (λ _ H, H) Hr) as [Hnil|]; [|done]. by apply not_elem_of_nil in Hnil.
Qed.

(** ** The small machine again *)

#[local] Existing Instances toy_json toy_crypto.

Definition toy_input : BusSendInput := {|
  si_to := toy_peer; si_id := demo_id 70; si_kind := a_message; si_correlationId := None;
  si_body := JObj [("id", JStr (demo_id 70))]; si_sentAt := 1000; si_expiresAt := 601000; si_role := as_agent |}.

Definition toy_sends (w : Transport) (now : Z) : Transport := snd (send (toy_instant now now) toy_input w).

Lemma link_frames_paced_witness :
  let evs := toy_run ++ [(toy_instant 5000 5000, EvAckTimer); (toy_instant 6000 6000, EvSend toy_input)] in
  1000 * (frames (run_transport (sorting.merge_sort by_age) evs (new_transport [])).(trace) - 0)
    <= 1000 * BUS_LINK_BURST + (6000 - 2000) * BUS_LINK_FRAMES_PER_SEC.
Proof.
  apply (link_frames_paced (sorting.merge_sort by_age) [] []
    (toy_run ++ [(toy_instant 5000 5000, EvAckTimer); (toy_instant 6000 6000, EvSend toy_input)]) 2000 6000).
  - apply (bool_decide_unpack _). vm_compute. done.
  - apply (bool_decide_unpack _). vm_compute. done.
  - constructor.
  - lia.
Defined.

Example toy_run_frames :
  frames (run_transport (sorting.merge_sort by_age)
    (toy_run ++ [(toy_instant 5000 5000, EvAckTimer); (toy_instant 6000 6000, EvSend toy_input)]) (new_transport [])).(trace) = 4.
Proof. vm_compute. done. Qed.

Lemma surjective_pairing_Sent i s w : fst (send i s w) = Sent → send i s w = (Sent, snd (send i s w)).
Proof. destruct (send i s w). simpl. by intros ->. Qed.

Lemma resends_carry_one_header_witness :
  ∃ header, 0 < header.(ih_expiresAt) - header.(ih_sentAt) <= BUS_MAX_TTL_MS ∧
    sent_under toy_input header (toy_instant 2000 2000) (new_transport []) (toy_sends (new_transport []) 2000) ∧
    sent_under toy_input header (toy_instant 9000 9000) (toy_sends (new_transport []) 2000) (toy_sends (toy_sends (new_transport []) 2000) 9000).
Proof.
  apply (resends_carry_one_header (toy_instant 2000 2000) (toy_instant 9000 9000) toy_input).
  - apply surjective_pairing_Sent; vm_compute; reflexivity.
  - apply surjective_pairing_Sent; vm_compute; reflexivity.
  - reflexivity.
  - reflexivity.
  - simpl. lia.
  - simpl. lia.
Defined.

Definition toy_acked : list (Instant * TransportEvent) :=
  [(toy_instant 2000 2000, EvSend toy_input);
   (toy_instant 3000 3000, EvFrame (BusAcked (demo_id 70) toy_peer applied None (b64_encode (replicate 64 7))))].

Lemma outcomes_earned_witness : earned toy_acked (demo_id 70, toy_peer, Applied).
Proof.
  apply (outcomes_earned (sorting.merge_sort by_age) [] toy_acked).
  apply list_elem_of_lookup. exists 1%nat. vm_compute. reflexivity.
Defined.
