(* ===== verification/BusStores.v ===== *)
(** * BusStores: what one session of the bus keeps

    The pure halves of src/bridge/src/session-bus/message-log.ts, held-store.ts,
    mailbox.ts and thread-store.ts, with the addresses of address.ts and the
    envelope of envelope.ts and protocol.ts: the log of what crossed, the outbox
    of what is not acknowledged, the posts waiting to be read, and the threads a
    reply may go out on.  Each is a list folded by the operations below; how it
    is written to the database is BusDb.v.

    The [data] part of an envelope is its JSON text; a card, which the bus only
    carries, is left out of the references. *)

From S2P Require Import Prelude Wire PairBudget.

Local Open Scope Z_scope.
Local Open Scope js_scope.

(** ** Constants *)

Definition BUS_MESSAGE_TTL_MS : Z := 6 * 60 * 60000.
Definition HELD_MESSAGE_TTL_MS : Z := BUS_MESSAGE_TTL_MS.
Definition MAX_HELD_MESSAGES : nat := 32.
Definition MAX_MAILBOX_POSTS : nat := 50.
Definition MAILBOX_TTL_MS : Z := 3 * 24 * 60 * 60000.
Definition MAX_THREADS_PER_SESSION : nat := 100.
Definition MAX_LOG_ENTRIES : nat := 500.
Definition MAX_LOGGED_PART_CHARS : nat := Z.to_nat 2000.
Definition LOCAL_MACHINE_ID : string := "local".
#[global] Opaque MAX_LOGGED_PART_CHARS.

(** ** Addresses *)

Record SessionMemberKey := { k_machine : string; k_project : string; k_session : string }.
Record SessionMemberRef := {
  r_key : SessionMemberKey; r_machineLabel : option string; r_projectLabel : option string; r_sessionName : option string }.

#[export] Instance SessionMemberKey_eq_dec : EqDecision SessionMemberKey.
Proof. solve_decision. Defined.
#[export] Instance SessionMemberRef_eq_dec : EqDecision SessionMemberRef.
Proof. solve_decision. Defined.

Definition namesMachine (machineId selfMachineId : string) : bool :=
  bool_decide (machineId = selfMachineId) || bool_decide (machineId = LOCAL_MACHINE_ID).

Definition isLeadContext (sessionId contextId : string) : bool := bool_decide (contextId = sessionId).

Definition sameAddress (a b : SessionMemberKey) : bool := bool_decide (a = b).

(** [a] is this machine's own answer for the session, [b] what a frame claims. *)
Definition addressesSameSession (a b : SessionMemberKey) : bool :=
  namesMachine b.(k_machine) a.(k_machine) && bool_decide (a.(k_session) = b.(k_session)).

(** The pair budget's name for an address. *)
Definition end_of (a : SessionMemberKey) : PairEnd := {| machineId := a.(k_machine); sessionId := a.(k_session) |}.

(** ** Envelopes *)

Inductive BusPart :=
| PText (text : string)
| PData (data : string)
| PArtifact (artifactId name mediaType : string) (size : Z) (sha256 summary : string).

Record BusEnvelope := {
  e_messageId : string;
  e_threadId : option string;
  e_contextId : string;
  e_parts : list BusPart;
  e_peer : SessionMemberRef;
  e_summary : string;
  e_timestamp : Z;
  e_unexpected : option string;
}.

#[export] Instance BusPart_eq_dec : EqDecision BusPart.
Proof. solve_decision. Defined.
#[export] Instance BusEnvelope_eq_dec : EqDecision BusEnvelope.
Proof. solve_decision. Defined.

Record EnvelopeDraft := {
  d_threadId : option string; d_contextId : string; d_parts : list BusPart; d_summary : string; d_unexpected : option string }.

Definition stampEnvelope (draft : EnvelopeDraft) (messageId : string) (peer : SessionMemberRef) (now : Z) : BusEnvelope := {|
  e_messageId := messageId; e_threadId := draft.(d_threadId); e_contextId := draft.(d_contextId);
  e_parts := draft.(d_parts); e_peer := peer; e_summary := draft.(d_summary); e_timestamp := now;
  e_unexpected := match draft.(d_unexpected) with Some EmptyString => None | u => u end |}.

(** [p.text.slice(0, MAX_LOGGED_PART_CHARS)] of a text that is longer. *)
Definition trim_part (p : BusPart) : BusPart :=
  match p with
  | PText text => if (MAX_LOGGED_PART_CHARS <? String.length text)%nat then PText (String.substring 0 MAX_LOGGED_PART_CHARS text) else p
  | _ => p
  end.

Definition trimEnvelopeForLog (e : BusEnvelope) : BusEnvelope := {|
  e_messageId := e.(e_messageId); e_threadId := e.(e_threadId); e_contextId := e.(e_contextId);
  e_parts := trim_part <$> e.(e_parts); e_peer := e.(e_peer); e_summary := e.(e_summary);
  e_timestamp := e.(e_timestamp); e_unexpected := e.(e_unexpected) |}.

Definition carriesArtifact (parts : list BusPart) : bool :=
  existsb (λ p, match p with PArtifact _ _ _ _ _ _ => true | _ => false end) parts.

(** A message frame: what one session sends another. *)
Record BusFrame := {
  f_verb : Verb; f_from : SessionMemberKey; f_to : SessionMemberKey; f_contextId : string;
  f_threadId : option string; f_envelope : BusEnvelope }.
#[export] Instance BusFrame_eq_dec : EqDecision BusFrame.
Proof. solve_decision. Defined.

(** ** The message log *)

Inductive Direction := inbound | outbound.
#[export] Instance Direction_eq_dec : EqDecision Direction.
Proof. solve_decision. Defined.

Record LoggedEnvelope := {
  l_at : Z;
  l_direction : Direction;
  l_peer : SessionMemberKey;
  l_envelope : BusEnvelope;
  l_deliveredAt : option Z;
  l_relayedAt : option Z;
  l_refusedAt : option Z;
  l_refusedCode : option string;
}.

Definition appendLog (log : list LoggedEnvelope) (at_ : Z) (d : Direction) (peer : SessionMemberKey) (e : BusEnvelope) :
    list LoggedEnvelope :=
  slice_last MAX_LOG_ENTRIES (log ++ [{| l_at := at_; l_direction := d; l_peer := peer; l_envelope := trimEnvelopeForLog e;
    l_deliveredAt := None; l_relayedAt := None; l_refusedAt := None; l_refusedCode := None |}]).

#[export] Instance LoggedEnvelope_eq_dec : EqDecision LoggedEnvelope.
Proof. solve_decision. Defined.

(** [findIndex] of the outbound entry of a message. *)
Definition is_outbound (messageId : string) (e : LoggedEnvelope) : Prop :=
  e.(l_direction) = outbound ∧ e.(l_envelope).(e_messageId) = messageId.
#[export] Instance is_outbound_dec m e : Decision (is_outbound m e).
Proof. unfold is_outbound. apply _. Defined.

Definition outbound_entry (messageId : string) (log : list LoggedEnvelope) : option (nat * LoggedEnvelope) :=
  list_find (is_outbound messageId) log.

Definition stamp_entry (messageId : string) (skip : LoggedEnvelope → bool) (f : LoggedEnvelope → LoggedEnvelope)
    (log : list LoggedEnvelope) : list LoggedEnvelope :=
  match outbound_entry messageId log with
  | None => log
  | Some (i, e) => if skip e then log else <[i := f e]> log
  end.

Definition delivered_at (at_ : Z) (e : LoggedEnvelope) : LoggedEnvelope := {|
  l_at := e.(l_at); l_direction := e.(l_direction); l_peer := e.(l_peer); l_envelope := e.(l_envelope);
  l_deliveredAt := Some at_; l_relayedAt := e.(l_relayedAt); l_refusedAt := e.(l_refusedAt); l_refusedCode := e.(l_refusedCode) |}.
Definition relayed_at (at_ : Z) (e : LoggedEnvelope) : LoggedEnvelope := {|
  l_at := e.(l_at); l_direction := e.(l_direction); l_peer := e.(l_peer); l_envelope := e.(l_envelope);
  l_deliveredAt := e.(l_deliveredAt); l_relayedAt := Some at_; l_refusedAt := e.(l_refusedAt); l_refusedCode := e.(l_refusedCode) |}.
Definition refused_at (at_ : Z) (code : string) (e : LoggedEnvelope) : LoggedEnvelope := {|
  l_at := e.(l_at); l_direction := e.(l_direction); l_peer := e.(l_peer); l_envelope := e.(l_envelope);
  l_deliveredAt := e.(l_deliveredAt); l_relayedAt := e.(l_relayedAt); l_refusedAt := Some at_; l_refusedCode := Some code |}.

Definition given {A} (o : option A) : bool := bool_decide (is_Some o).

Definition markDelivered (messageId : string) (at_ : Z) : list LoggedEnvelope → list LoggedEnvelope :=
  stamp_entry messageId (λ e, given e.(l_deliveredAt)) (delivered_at at_).
Definition markRelayed (messageId : string) (at_ : Z) : list LoggedEnvelope → list LoggedEnvelope :=
  stamp_entry messageId (λ e, given e.(l_relayedAt) || given e.(l_deliveredAt) || given e.(l_refusedAt)) (relayed_at at_).
Definition markRefused (messageId : string) (at_ : Z) (code : string) : list LoggedEnvelope → list LoggedEnvelope :=
  stamp_entry messageId (λ e, given e.(l_deliveredAt) || given e.(l_refusedAt)) (refused_at at_ code).

Definition entriesForThread (threadId : string) (log : list LoggedEnvelope) : list LoggedEnvelope :=
  filter (λ e, e.(l_envelope).(e_threadId) = Some threadId) log.

Definition lastOutboundSummary (threadId : string) (log : list LoggedEnvelope) : option string :=
  (λ e, e.(l_envelope).(e_summary)) <$>
    last (filter (λ e, e.(l_direction) = outbound ∧ e.(l_envelope).(e_threadId) = Some threadId) log).

(** ** The outbox *)

Record HeldMessage := {
  h_messageId : string;
  h_contextId : string;
  h_to : SessionMemberKey;
  h_frame : BusFrame;
  h_heldAt : Z;
  h_attempts : Z;
  h_nextAttemptAt : Z;
  h_relayedAt : option Z;
  h_lastReason : option string;
}.

#[export] Instance HeldMessage_eq_dec : EqDecision HeldMessage.
Proof. solve_decision. Defined.

Definition hasHeld (held : list HeldMessage) (messageId : string) : bool :=
  existsb (λ m, bool_decide (m.(h_messageId) = messageId)) held.

(** The outbox with the message, and what its bound pushed out. *)
Definition holdMessage (held : list HeldMessage) (m : HeldMessage) : list HeldMessage * list HeldMessage :=
  let all := held ++ [m] in
  if (length all <=? MAX_HELD_MESSAGES)%nat then (all, [])
  else let cut := (length all - MAX_HELD_MESSAGES)%nat in (drop cut all, take cut all).

Definition held_fresh (now : Z) (m : HeldMessage) : Prop := now - m.(h_heldAt) < HELD_MESSAGE_TTL_MS.
#[export] Instance held_fresh_dec now m : Decision (held_fresh now m).
Proof. unfold held_fresh. apply _. Defined.

Definition expireHeld (held : list HeldMessage) (now : Z) : list HeldMessage * list HeldMessage :=
  (filter (held_fresh now) held, filter (λ m, ¬ held_fresh now m) held).

Definition releaseHeld (held : list HeldMessage) (messageIds : list string) : list HeldMessage :=
  filter (λ m, m.(h_messageId) ∉ messageIds) held.

(** ** The mailbox *)

Record MailboxPost := {
  p_messageId : string;
  p_threadId : option string;
  p_contextId : string;
  p_at : Z;
  p_from : SessionMemberKey;
  p_summary : string;
  p_envelope : BusEnvelope;
  p_read : bool;
}.

#[export] Instance MailboxPost_eq_dec : EqDecision MailboxPost.
Proof. solve_decision. Defined.

Record MailboxState := { posts : list MailboxPost; dropped : Z }.
#[export] Instance MailboxState_eq_dec : EqDecision MailboxState.
Proof. solve_decision. Defined.
Definition emptyMailbox : MailboxState := {| posts := []; dropped := 0 |}.

Definition post_fresh (now : Z) (p : MailboxPost) : Prop := now - p.(p_at) < MAILBOX_TTL_MS.
#[export] Instance post_fresh_dec now p : Decision (post_fresh now p).
Proof. unfold post_fresh. apply _. Defined.

Definition expireOldPosts (s : MailboxState) (now : Z) : MailboxState :=
  let kept := filter (post_fresh now) s.(posts) in
  {| posts := kept; dropped := s.(dropped) + Z.of_nat (length s.(posts) - length kept) |}.

Definition appendPost (s : MailboxState) (p : MailboxPost) (now : Z) : MailboxState :=
  let fresh := expireOldPosts s now in
  let all := fresh.(posts) ++ [p] in
  let over := (length all - MAX_MAILBOX_POSTS)%nat in
  {| posts := drop over all; dropped := fresh.(dropped) + Z.of_nat over |}.

Definition read_post (p : MailboxPost) : MailboxPost := {|
  p_messageId := p.(p_messageId); p_threadId := p.(p_threadId); p_contextId := p.(p_contextId); p_at := p.(p_at);
  p_from := p.(p_from); p_summary := p.(p_summary); p_envelope := p.(p_envelope); p_read := true |}.

Definition markRead (s : MailboxState) (messageIds : list string) : MailboxState :=
  {| posts := (λ p, if p.(p_read) || bool_decide (p.(p_messageId) ∉ messageIds) then p else read_post p) <$> s.(posts);
     dropped := s.(dropped) |}.

Definition unreadPosts (s : MailboxState) : list MailboxPost := filter (λ p, p.(p_read) = false) s.(posts).

(** The rows [saveMailbox] writes, the count first, and what [loadMailbox] folds
    out of rows. *)
Inductive MailboxRow := RPost (p : MailboxPost) | RDrops (n : Z).
Definition MAILBOX_ROW_CAP : nat := MAX_MAILBOX_POSTS + 1.

Definition mailbox_rows (s : MailboxState) : list MailboxRow :=
  RDrops s.(dropped) :: (RPost <$> slice_last MAX_MAILBOX_POSTS s.(posts)).
Definition loadMailbox (rows : list MailboxRow) (now : Z) : MailboxState :=
  expireOldPosts
    {| posts := omap (λ r, match r with RPost p => Some p | _ => None end) rows;
       dropped := sum_by (λ r, match r with RDrops n => n | _ => 0 end) rows |} now.

(** ** Threads *)

Record ThreadRow := {
  t_threadId : string;
  t_contextId : string;
  t_peer : SessionMemberKey;
  t_lastAt : Z;
  t_openedByPeer : bool;
}.

#[export] Instance ThreadRow_eq_dec : EqDecision ThreadRow.
Proof. solve_decision. Defined.

Definition threadById (threads : list ThreadRow) (threadId : string) : option ThreadRow :=
  snd <$> list_find (λ t, t.(t_threadId) = threadId) threads.

(** The index of the oldest row, the first of several. *)
Fixpoint oldest_from (best : nat) (at_ : Z) (i : nat) (threads : list ThreadRow) : nat :=
  match threads with
  | [] => best
  | t :: rest => if t.(t_lastAt) <? at_ then oldest_from i t.(t_lastAt) (S i) rest else oldest_from best at_ (S i) rest
  end.

Definition withoutOldest (threads : list ThreadRow) : list ThreadRow :=
  match threads with
  | [] => []
  | t :: rest => delete (oldest_from 0 t.(t_lastAt) 1 rest) threads
  end.

Definition advance (held row : ThreadRow) : ThreadRow := {|
  t_threadId := held.(t_threadId); t_contextId := held.(t_contextId); t_peer := held.(t_peer);
  t_lastAt := Z.max held.(t_lastAt) row.(t_lastAt); t_openedByPeer := held.(t_openedByPeer) |}.

Definition upsertThread (threads : list ThreadRow) (row : ThreadRow) : list ThreadRow :=
  let next := match threadById threads row.(t_threadId) with Some held => advance held row | None => row end in
  let all := filter (λ t, t.(t_threadId) ≠ row.(t_threadId)) threads ++ [next] in
  if (MAX_THREADS_PER_SESSION <? length all)%nat then withoutOldest all else all.

Definition thread_fresh (now : Z) (t : ThreadRow) : Prop := now - t.(t_lastAt) < MAILBOX_TTL_MS.
#[export] Instance thread_fresh_dec now t : Decision (thread_fresh now t).
Proof. unfold thread_fresh. apply _. Defined.

Definition expireThreads (threads : list ThreadRow) (now : Z) : list ThreadRow := filter (thread_fresh now) threads.
