(* ===== verification/Coordinator.v ===== *)
(** * Coordinator: the session bus of one machine

    src/bridge/src/session-bus/coordinator.ts, the class [SessionBusCoordinator]:
    it turns an agent's message into an addressed frame, keeps every message for
    another machine in an outbox until that machine has acknowledged it, folds
    what arrives into the stores of BusStores.v, and answers how far a message
    has got.  A target on the same machine is folded in process, as
    [deliverLocal] of host-server.ts does it.

    Each call runs at one [Ctx]: the clock, the ids drawn, the session index and
    the transport as they answer there.  The transport may report outcomes before
    a send returns ([c_send] lists them), and the coordinator is re-entered by
    them, as its comments allow for.  [c_disk] is the database, which is assumed
    to answer; a list is written whole, by BusDb.v.  What consumers, waiters and
    listeners are told is appended to [c_effects].  Artifacts and their slices
    ([fetch]) are left out, and so are log lines. *)

From S2P Require Import Prelude JsMap Wire PairBudget BusSeal SeenStore BusTransport BusStores.
From stdpp Require Import sorting.
From coqutil Require Import Datatypes.RecordSetters.
Import DoubleBraceUpdate.

Local Open Scope Z_scope.
Local Open Scope js_scope.

#[global] Arguments constant {E} newValue / _.

Definition BUS_RELAYED_RESEND_MS : Z := 5 * 60000.
Definition BUS_RETRY_BASE_MS : Z := 1000.
Definition BUS_RETRY_MAX_MS : Z := 60000.
Definition RECENT_SENT_CAP : Z := 1024.

(** ** State *)

Record SessionState := {
  s_log : list LoggedEnvelope;
  s_held : list HeldMessage;
  s_mailbox : MailboxState;
  s_threads : list ThreadRow;
  s_projectId : option string;
}.

(** The rows of one session. *)
Record Stores := {
  dk_log : list LoggedEnvelope; dk_held : list HeldMessage; dk_mailbox : list MailboxRow; dk_threads : list ThreadRow }.
Definition no_rows : Stores := {| dk_log := []; dk_held := []; dk_mailbox := []; dk_threads := [] |}.

Record SessionBusEvent := {
  ev_kind : Verb; ev_session : string; ev_threadId : option string; ev_opensThread : bool;
  ev_peer : SessionMemberRef; ev_envelope : BusEnvelope; ev_answering : option string }.

Inductive Rung := RHeld | RRelayed | RDelivered | RRefused.
Record RungReport := { rr_rung : Rung; rr_heldReason : option string; rr_refusedCode : option string }.

(** The arguments of [deps.send]. *)
Record SendCtx := { x_frame : BusFrame; x_contextId : string; x_to : SessionMemberKey; x_messageId : string; x_sentAt : Z }.

Inductive CEffect :=
| CEvent (e : SessionBusEvent)
| CListener (project : string) (e : SessionBusEvent)
| CResolved (waiter : nat) (r : RungReport)
| CReported (messageId toMachine : string) (o : TransportOutcome)   (** the transport said so *)
| COffered (x : SendCtx) (r : BusSendResult)                        (** an offer to the transport, and its answer *)
| CFolded (f : BusFrame).                                           (** a frame of this machine was folded in process *)

Record Coord := {
  c_sessions : jsmap string SessionState;
  c_heldIndex : gmap string string;
  c_recentSent : jsmap string string;
  c_waiters : jsmap string (list nat);
  c_waits : nat;
  c_timer : bool;
  c_listeners : gset string;
  c_disk : gmap (string * string) Stores;
  c_budgets : PairBudgetStore;
  c_drawn : nat;
  c_dispatched : nat;
  c_effects : list CEffect;
}.

Definition new_coord (disk : gmap (string * string) Stores) (budgets : PairBudgetStore) : Coord := {|
  c_sessions := JsMap.empty; c_heldIndex := ∅; c_recentSent := JsMap.empty; c_waiters := JsMap.empty; c_waits := 0;
  c_timer := false; c_listeners := ∅; c_disk := disk; c_budgets := budgets; c_drawn := 0; c_dispatched := 0;
  c_effects := [] |}.

Record SelfAddress := { self_key : SessionMemberKey; self_ref : SessionMemberRef }.

Record Ctx := {
  c_now : Z;
  c_newId : nat → string;
  c_projectIdFor : string → option string;
  c_self : string → option SelfAddress;
  c_addressable : bool;
  c_loaded : string → bool;                 (** the core of the session's project is up *)
  c_offMachine : bool;
  c_send : nat → SendCtx → list (string * string * TransportOutcome) * BusSendResult;
  c_envelopeBytes : BusEnvelope → Z;
}.

Definition MAX_ENVELOPE_BYTES : Z := 64 * 1024.
Definition checkEnvelopeSize (bytes : BusEnvelope → Z) (e : BusEnvelope) : bool := MAX_ENVELOPE_BYTES <? bytes e.

Inductive Refusal := NOT_MEMBER | AGENT_NOT_READY | UNKNOWN_PEER | ENVELOPE_TOO_LARGE | OverBudget (r : PairRefusal).

Section coordinator.
Implicit Types (c : Ctx) (w : Coord).

(** ** The stores of a session *)

Definition anyPending w : bool := existsb (λ s, negb (bool_decide (s.(s_held) = []))) (values w.(c_sessions)).

Definition ensureTimer w : Coord := if w.(c_timer) || negb (anyPending w) then w else w {{ c_timer := true }}.

Definition index_held (sessionId : string) (l : list HeldMessage) (index : gmap string string) : gmap string string :=
  foldl (λ ix m, <[m.(h_messageId) := sessionId]> ix) index l.
Definition unindex_held (l : list HeldMessage) (index : gmap string string) : gmap string string :=
  foldl (λ ix m, base.delete m.(h_messageId) ix) index l.

Definition load_state c (sessionId : string) w : SessionState :=
  match c.(c_projectIdFor) sessionId with
  | None => {| s_log := []; s_held := []; s_mailbox := emptyMailbox; s_threads := []; s_projectId := None |}
  | Some projectId =>
      let rows := w.(c_disk) !! (projectId, sessionId) ?| no_rows in
      {| s_log := slice_last MAX_LOG_ENTRIES rows.(dk_log);
         s_held := slice_last MAX_HELD_MESSAGES rows.(dk_held);
         s_mailbox := loadMailbox (slice_last MAILBOX_ROW_CAP rows.(dk_mailbox)) c.(c_now);
         s_threads := expireThreads (slice_last MAX_THREADS_PER_SESSION rows.(dk_threads)) c.(c_now);
         s_projectId := Some projectId |}
  end.

Definition stateFor c (sessionId : string) w : SessionState * Coord :=
  match get sessionId w.(c_sessions) with
  | Some s => (s, w)
  | None =>
      let s := load_state c sessionId w in
      (s, ensureTimer (w {{ c_sessions := JsMap.set sessionId s w.(c_sessions);
                            c_heldIndex := index_held sessionId s.(s_held) w.(c_heldIndex) }}))
  end.

(** [Partial<SessionState>]: the stores a commit replaces. *)
Record Patch := {
  pt_log : option (list LoggedEnvelope); pt_held : option (list HeldMessage);
  pt_mailbox : option MailboxState; pt_threads : option (list ThreadRow) }.
Definition no_patch : Patch := {| pt_log := None; pt_held := None; pt_mailbox := None; pt_threads := None |}.

Definition patched (s : SessionState) (p : Patch) : SessionState := {|
  s_log := p.(pt_log) ?| s.(s_log); s_held := p.(pt_held) ?| s.(s_held); s_mailbox := p.(pt_mailbox) ?| s.(s_mailbox);
  s_threads := p.(pt_threads) ?| s.(s_threads); s_projectId := s.(s_projectId) |}.

(** The rows after [next] is saved over [s]: a store that changed is written. *)
Definition saved (s next : SessionState) (rows : Stores) : Stores := {|
  dk_log := if bool_decide (next.(s_log) = s.(s_log)) then rows.(dk_log) else slice_last MAX_LOG_ENTRIES next.(s_log);
  dk_held := if bool_decide (next.(s_held) = s.(s_held)) then rows.(dk_held) else slice_last MAX_HELD_MESSAGES next.(s_held);
  dk_mailbox := if bool_decide (next.(s_mailbox) = s.(s_mailbox)) then rows.(dk_mailbox) else mailbox_rows next.(s_mailbox);
  dk_threads := if bool_decide (next.(s_threads) = s.(s_threads)) then rows.(dk_threads)
                else slice_last MAX_THREADS_PER_SESSION next.(s_threads) |}.

Definition commit c (sessionId : string) (p : Patch) w : Coord :=
  let '(s, w) := stateFor c sessionId w in
  let next := patched s p in
  let index := if bool_decide (next.(s_held) = s.(s_held)) then w.(c_heldIndex)
               else index_held sessionId next.(s_held) (unindex_held s.(s_held) w.(c_heldIndex)) in
  let disk := match next.(s_projectId) with
    | Some projectId => <[(projectId, sessionId) := saved s next (w.(c_disk) !! (projectId, sessionId) ?| no_rows)]> w.(c_disk)
    | None => w.(c_disk)
    end in
  ensureTimer (w {{ c_sessions := JsMap.set sessionId next w.(c_sessions); c_heldIndex := index; c_disk := disk }}).

(** ** How far a message has got *)

Definition report (r : Rung) (reason code : option string) : RungReport :=
  {| rr_rung := r; rr_heldReason := reason; rr_refusedCode := code |}.

Definition rung_in (messageId : string) (s : SessionState) : RungReport :=
  let held := report RHeld ((snd <$> list_find (λ h, h.(h_messageId) = messageId) s.(s_held)) ≫= h_lastReason) None in
  match snd <$> outbound_entry messageId s.(s_log) with
  | None => held
  | Some e =>
      if given e.(l_refusedAt) then report RRefused None e.(l_refusedCode)
      else if given e.(l_deliveredAt) then report RDelivered None None
      else if given e.(l_relayedAt) then report RRelayed None None
      else held
  end.

Definition session_of (messageId : string) w : option string :=
  match w.(c_heldIndex) !! messageId with Some s => Some s | None => get messageId w.(c_recentSent) end.

Definition rungOf c (messageId : string) w : RungReport * Coord :=
  match session_of messageId w with
  | None => (report RHeld None None, w)
  | Some sessionId => let '(s, w) := stateFor c sessionId w in (rung_in messageId s, w)
  end.

Definition noteSent (messageId sessionId : string) w : Coord :=
  let m := JsMap.set messageId sessionId w.(c_recentSent) in
  w {{ c_recentSent := if RECENT_SENT_CAP <? JsMap.size m
                       then match oldest m with Some k => JsMap.delete k m | None => m end else m }}.

(** Each waiter of a message is told its rung and taken off. *)
Definition resolve_waiter c (messageId : string) (n : nat) w : Coord :=
  let rest := filter (λ k, k ≠ n) (get messageId w.(c_waiters) ?| []) in
  let w := w {{ c_waiters := match rest with [] => JsMap.delete messageId w.(c_waiters) | _ => JsMap.set messageId rest w.(c_waiters) end }} in
  let '(r, w) := rungOf c messageId w in
  w {{ c_effects := w.(c_effects) ++ [CResolved n r] }}.

Definition settleWaiters c (messageId : string) w : Coord :=
  foldl (λ w n, resolve_waiter c messageId n w) w (get messageId w.(c_waiters) ?| []).

Definition settle_all c (ids : list string) w : Coord := foldl (λ w id, settleWaiters c id w) w ids.

(** The caller waits, unless the message is past [held] already; [None] stands
    for a promise that is not resolved yet. *)
Definition awaitRung c (messageId : string) w : option RungReport * Coord :=
  let '(r, w) := rungOf c messageId w in
  match r.(rr_rung) with
  | RHeld =>
      let n := w.(c_waits) in
      (None, w {{ c_waits := S n; c_waiters := JsMap.set messageId ((get messageId w.(c_waiters) ?| []) ++ [n]) w.(c_waiters) }})
  | _ => (Some r, w)
  end.

(** A waiter's timer. *)
Definition rung_timeout c (messageId : string) (n : nat) w : Coord :=
  if bool_decide (n ∈ get messageId w.(c_waiters) ?| []) then resolve_waiter c messageId n w else w.

(** ** The outbox *)

Definition some_log (l : list LoggedEnvelope) : Patch := {| pt_log := Some l; pt_held := None; pt_mailbox := None; pt_threads := None |}.
Definition some_held (h : list HeldMessage) : Patch := {| pt_log := None; pt_held := Some h; pt_mailbox := None; pt_threads := None |}.
Definition held_and_log (h : list HeldMessage) (l : list LoggedEnvelope) : Patch :=
  {| pt_log := Some l; pt_held := Some h; pt_mailbox := None; pt_threads := None |}.

Definition new_held (frame : BusFrame) (now nextAttemptAt : Z) : HeldMessage := {|
  h_messageId := frame.(f_envelope).(e_messageId); h_contextId := frame.(f_contextId); h_to := frame.(f_to);
  h_frame := frame; h_heldAt := now; h_attempts := 1; h_nextAttemptAt := nextAttemptAt; h_relayedAt := None; h_lastReason := None |}.

Definition hold c (sessionId : string) (frame : BusFrame) (now nextAttemptAt : Z) w : Coord :=
  let '(s, w) := stateFor c sessionId w in
  let '(state, evicted) := holdMessage s.(s_held) (new_held frame now nextAttemptAt) in
  let log := foldl (λ l e, markRefused e.(h_messageId) now "OUTBOX_FULL" l) s.(s_log) evicted in
  let w := commit c sessionId (held_and_log state log) w in
  settle_all c (h_messageId <$> evicted) w.

Definition settleHeld c (sessionId messageId : string) (stamp : list LoggedEnvelope → list LoggedEnvelope) w : Coord :=
  let '(s, w) := stateFor c sessionId w in
  settleWaiters c messageId (commit c sessionId (held_and_log (releaseHeld s.(s_held) [messageId]) (stamp s.(s_log))) w).

Definition with_reason (reason : string) (m : HeldMessage) : HeldMessage := {|
  h_messageId := m.(h_messageId); h_contextId := m.(h_contextId); h_to := m.(h_to); h_frame := m.(h_frame);
  h_heldAt := m.(h_heldAt); h_attempts := m.(h_attempts); h_nextAttemptAt := m.(h_nextAttemptAt);
  h_relayedAt := m.(h_relayedAt); h_lastReason := Some reason |}.
Definition with_relayed (now : Z) (m : HeldMessage) : HeldMessage := {|
  h_messageId := m.(h_messageId); h_contextId := m.(h_contextId); h_to := m.(h_to); h_frame := m.(h_frame);
  h_heldAt := m.(h_heldAt); h_attempts := m.(h_attempts); h_nextAttemptAt := now + BUS_RELAYED_RESEND_MS;
  h_relayedAt := Some now; h_lastReason := m.(h_lastReason) |}.
Definition due_now (m : HeldMessage) : HeldMessage := {|
  h_messageId := m.(h_messageId); h_contextId := m.(h_contextId); h_to := m.(h_to); h_frame := m.(h_frame);
  h_heldAt := m.(h_heldAt); h_attempts := m.(h_attempts); h_nextAttemptAt := 0;
  h_relayedAt := m.(h_relayedAt); h_lastReason := m.(h_lastReason) |}.

(** [held.map((h) => (h.messageId === messageId ? f(h) : h))] *)
Definition on_message (messageId : string) (f : HeldMessage → HeldMessage) (l : list HeldMessage) : list HeldMessage :=
  (λ h, if bool_decide (h.(h_messageId) = messageId) then f h else h) <$> l.

Definition reason_text (r : BusHeldReason) : string :=
  match r with
  | no_transport => "no-transport" | central_offline => "central-offline" | relay_unsupported => "relay-unsupported"
  | directory_unavailable => "directory-unavailable" | no_bus_key => "no-bus-key" | paced => "paced"
  | remote_access_off => "remote-access-off" | relay_queue_full => "relay-queue-full"
  | relay_rate_limited => "relay-rate-limited" | relay_recipient_outdated => "relay-recipient-outdated"
  | ack_unverified => "ack-unverified" | recipient_key_stale => "recipient-key-stale"
  end.

Definition setHeldReason c (sessionId messageId : string) (reason : BusHeldReason) w : Coord :=
  let '(s, w) := stateFor c sessionId w in
  if existsb (λ m, bool_decide (m.(h_messageId) = messageId) && negb (bool_decide (m.(h_lastReason) = Some (reason_text reason)))) s.(s_held)
  then commit c sessionId (some_held (on_message messageId (with_reason (reason_text reason)) s.(s_held))) w
  else w.

(** What the transport learned about a message of this machine. *)
Definition onTransportOutcome c (messageId toMachine : string) (o : TransportOutcome) w : Coord :=
  let w := w {{ c_effects := w.(c_effects) ++ [CReported messageId toMachine o] }} in
  match w.(c_heldIndex) !! messageId with
  | None => w
  | Some sessionId =>
      let '(s, w) := stateFor c sessionId w in
      match snd <$> list_find (λ h, h.(h_messageId) = messageId) s.(s_held) with
      | None => w
      | Some m =>
          if bool_decide (m.(h_to).(k_machine) ≠ toMachine) then w
          else match o with
               | Relayed =>
                   if given m.(h_relayedAt) then w
                   else settleWaiters c messageId (commit c sessionId
                     (held_and_log (on_message messageId (with_relayed c.(c_now)) s.(s_held))
                        (markRelayed messageId c.(c_now) s.(s_log))) w)
               | Applied =>
                   settleWaiters c messageId (commit c sessionId
                     (held_and_log (releaseHeld s.(s_held) [messageId]) (markDelivered messageId c.(c_now) s.(s_log))) w)
               | Refused code =>
                   settleWaiters c messageId (commit c sessionId
                     (held_and_log (releaseHeld s.(s_held) [messageId]) (markRefused messageId c.(c_now) code s.(s_log))) w)
               | Retry reason =>
                   commit c sessionId (some_held (on_message messageId (with_reason (reason_text reason)) s.(s_held))) w
               end
      end
  end.

(** ** Leaving the machine *)

Definition isLocalTarget (from to : SessionMemberKey) : bool := namesMachine to.(k_machine) from.(k_machine).

(** One send of the transport, the outcomes it brings back before it returns
    first. *)
Definition transport_answer c (n : nat) (x : SendCtx) : list (string * string * TransportOutcome) * BusSendResult :=
  if negb c.(c_offMachine) then ([], NotSent remote_access_off) else c.(c_send) n x.
Definition dispatchRemote c (x : SendCtx) w : BusSendResult * Coord :=
  let '(outcomes, r) := transport_answer c w.(c_dispatched) x in
  let w := w {{ c_dispatched := S w.(c_dispatched); c_effects := w.(c_effects) ++ [COffered x r] }} in
  (r, foldl (λ w '(id, to, o), onTransportOutcome c id to o w) w outcomes).

(** ** Arriving *)

Definition emit_event c (e : SessionBusEvent) w : Coord :=
  let told := match c.(c_projectIdFor) e.(ev_session) with
    | Some project => if bool_decide (project ∈ w.(c_listeners)) then [CListener project e] else []
    | None => []
    end in
  w {{ c_effects := w.(c_effects) ++ CEvent e :: told }}.

(** [budgetFor(recordsFor(sessionId), pairKey(me, to))] *)
Definition pairBudgetFor c (sessionId : string) (me : SessionMemberKey) (to : SessionMemberKey) w : PairBudgetState * Coord :=
  let '(records, b) := recordsFor c.(c_projectIdFor) sessionId c.(c_now) w.(c_budgets) in
  (budgetFor records (pairKey (end_of me) (end_of to)), w {{ c_budgets := b }}).

Definition spend c (sessionId : string) (budget : PairBudgetState) (verb : Verb) (progressed : bool) w : Coord :=
  w {{ c_budgets := write c.(c_projectIdFor) sessionId (spendBudget budget verb progressed c.(c_now)) c.(c_now) w.(c_budgets) }}.

Definition onMessage c (sessionId : string) (me : SelfAddress) (f : BusFrame) w : Coord :=
  let now := c.(c_now) in
  let env := f.(f_envelope) in
  let '(s, w) := stateFor c sessionId w in
  let opensThread := match f.(f_threadId) with
    | None => true
    | Some t => bool_decide (threadById s.(s_threads) t = None)
    end in
  let w := commit c sessionId {|
    pt_log := Some (appendLog s.(s_log) now inbound f.(f_from) env);
    pt_held := None;
    pt_mailbox := match f.(f_verb) with
      | post => Some (appendPost s.(s_mailbox) {| p_messageId := env.(e_messageId); p_threadId := f.(f_threadId);
          p_contextId := f.(f_contextId); p_at := now; p_from := f.(f_from); p_summary := env.(e_summary);
          p_envelope := env; p_read := false |} now)
      | notify => None
      end;
    pt_threads := match f.(f_threadId) with
      | Some t => Some (upsertThread s.(s_threads) {| t_threadId := t; t_contextId := f.(f_contextId); t_peer := f.(f_from);
          t_lastAt := now; t_openedByPeer := true |})
      | None => None
      end |} w in
  let '(budget, w) := pairBudgetFor c sessionId me.(self_key) f.(f_from) w in
  let w := spend c sessionId budget f.(f_verb) (opensThread || carriesArtifact env.(e_parts)) w in
  emit_event c {| ev_kind := f.(f_verb); ev_session := sessionId; ev_threadId := f.(f_threadId); ev_opensThread := opensThread;
    ev_peer := env.(e_peer); ev_envelope := env;
    ev_answering := match f.(f_threadId) with
      | Some t => if opensThread then None else lastOutboundSummary t s.(s_log)
      | None => None
      end |} w.

(** Of a message frame; [true] is [applied], [false] is [dropped]. *)
Definition handleInbound c (f : BusFrame) w : bool * Coord :=
  match c.(c_self) f.(f_to).(k_session) with
  | None => (false, w)
  | Some me =>
      if negb (addressesSameSession me.(self_key) f.(f_to)) then (false, w)
      else (true, onMessage c f.(f_to).(k_session) me f w)
  end.

(** [deliverLocal] of the host: a core must be up for the target's project. *)
Definition deliverToLocal c (f : BusFrame) w : bool * Coord :=
  match c.(c_projectIdFor) f.(f_to).(k_session) with
  | None => (false, w)
  | Some _ =>
      if negb (c.(c_loaded) f.(f_to).(k_session)) then (false, w)
      else let '(taken, w) := handleInbound c f w in
           (taken, if taken : bool then w {{ c_effects := w.(c_effects) ++ [CFolded f] }} else w)
  end.

(** ** Sending *)

Record MessageInput := {
  mi_session : string; mi_verb : Verb; mi_threadId : option string; mi_to : SessionMemberRef;
  mi_summary : string; mi_parts : list BusPart; mi_unexpected : option string; mi_contextId : option string }.

Record MessageResult := {
  mr_rung : Rung; mr_heldReason : option BusHeldReason; mr_refusedCode : option string; mr_local : bool;
  mr_machineLabel : option string; mr_sessionName : option string; mr_retryUntil : option Z;
  mr_sent : bool; mr_held : bool; mr_messageId : string; mr_threadId : string; mr_opensThread : bool }.

Definition noSelf c : Refusal := if c.(c_addressable) then NOT_MEMBER else AGENT_NOT_READY.

(** [this.newId()] *)
Definition newId c w : string * Coord := (c.(c_newId) w.(c_drawn), w {{ c_drawn := S w.(c_drawn) }}).

Definition refusal_text (code : SendRefusal) : string :=
  match code with too_large => "PLAINTEXT_TOO_LARGE" | past_expiry => "EXPIRED" end.

(** The frame of an input and whether it opens its thread; the ids are drawn in
    this order. *)
Definition compose_frame c (me : SelfAddress) (i : MessageInput) w : BusFrame * bool * Coord :=
  let contextId := i.(mi_contextId) ?| i.(mi_session) in
  let '(threadId, w) := match i.(mi_threadId) with Some t => (t, w) | None => newId c w end in
  let '(messageId, w) := newId c w in
  let envelope := stampEnvelope {| d_threadId := Some threadId; d_contextId := contextId; d_parts := i.(mi_parts);
    d_summary := i.(mi_summary); d_unexpected := i.(mi_unexpected) |} messageId me.(self_ref) c.(c_now) in
  ({| f_verb := i.(mi_verb); f_from := me.(self_key); f_to := i.(mi_to).(r_key); f_contextId := contextId;
      f_threadId := Some threadId; f_envelope := envelope |}, bool_decide (i.(mi_threadId) = None), w).

(** Rung, reason and code of the answer. *)
Definition local_send c (sessionId : string) (f : BusFrame) w : (Rung * option BusHeldReason * option string) * Coord :=
  let '(taken, w) := deliverToLocal c f w in
  if taken : bool then
    let '(after, w) := stateFor c sessionId w in
    ((RDelivered, None, None), commit c sessionId (some_log (markDelivered f.(f_envelope).(e_messageId) c.(c_now) after.(s_log))) w)
  else ((RHeld, None, None), hold c sessionId f c.(c_now) (c.(c_now) + BUS_RETRY_BASE_MS) w).

Definition remote_send c (sessionId : string) (f : BusFrame) w : (Rung * option BusHeldReason * option string) * Coord :=
  let messageId := f.(f_envelope).(e_messageId) in
  let w := hold c sessionId f c.(c_now) (c.(c_now) + BUS_RETRY_BASE_MS) w in
  let '(sent, w) := dispatchRemote c {| x_frame := f; x_contextId := f.(f_contextId); x_to := f.(f_to);
    x_messageId := messageId; x_sentAt := c.(c_now) |} w in
  match sent with
  | SendRefused code =>
      ((RRefused, None, Some (refusal_text code)),
       settleHeld c sessionId messageId (markRefused messageId c.(c_now) (refusal_text code)) w)
  | _ =>
      let w := match sent with NotSent reason => setHeldReason c sessionId messageId reason w | _ => w end in
      let '(reached, w) := rungOf c messageId w in
      (match reached.(rr_rung) with
       | RHeld => (RHeld, match sent with NotSent reason => Some reason | _ => None end, None)
       | r => (r, None, reached.(rr_refusedCode))
       end, w)
  end.

(** What is checked before anything is stamped. *)
Definition send_refusal c (me : SelfAddress) (to : SessionMemberKey) : option Refusal :=
  if addressesSameSession me.(self_key) to then Some UNKNOWN_PEER
  else if negb (namesMachine to.(k_machine) me.(self_key).(k_machine)) && negb c.(c_addressable) then Some AGENT_NOT_READY
  else None.

Definition post_message c (me : SelfAddress) (i : MessageInput) (f : BusFrame) (opensThread : bool) (budget : PairBudgetState) w :
    MessageResult * Coord :=
  let now := c.(c_now) in
  let '(s, w) := stateFor c i.(mi_session) w in
  let threadId := f.(f_threadId) ?| "" in
  let w := commit c i.(mi_session) {|
    pt_log := Some (appendLog s.(s_log) now outbound f.(f_to) f.(f_envelope));
    pt_held := None; pt_mailbox := None;
    pt_threads := Some (upsertThread s.(s_threads) {| t_threadId := threadId; t_contextId := f.(f_contextId);
      t_peer := f.(f_to); t_lastAt := now; t_openedByPeer := false |}) |} w in
  let w := noteSent f.(f_envelope).(e_messageId) i.(mi_session) w in
  let local := isLocalTarget f.(f_from) f.(f_to) in
  let '((rung, heldReason, refusedCode), w) :=
    if local then local_send c i.(mi_session) f w else remote_send c i.(mi_session) f w in
  let w := spend c i.(mi_session) budget i.(mi_verb) (opensThread || carriesArtifact i.(mi_parts)) w in
  let held := match rung with RHeld => true | _ => false end in
  ({| mr_rung := rung; mr_heldReason := heldReason; mr_refusedCode := refusedCode; mr_local := local;
      mr_machineLabel := truthy i.(mi_to).(r_machineLabel); mr_sessionName := truthy i.(mi_to).(r_sessionName);
      mr_retryUntil := if held then Some (now + HELD_MESSAGE_TTL_MS) else None; mr_sent := negb held; mr_held := held;
      mr_messageId := f.(f_envelope).(e_messageId); mr_threadId := threadId; mr_opensThread := opensThread |}, w).

Definition message c (i : MessageInput) w : (Refusal + MessageResult) * Coord :=
  match c.(c_self) i.(mi_session) with
  | None => (inl (noSelf c), w)
  | Some me =>
      let to := i.(mi_to).(r_key) in
      match send_refusal c me to with
      | Some r => (inl r, w)
      | None =>
          let '(_, w) := stateFor c i.(mi_session) w in
          let '(budget, w) := pairBudgetFor c i.(mi_session) me.(self_key) to w in
          match refusalForPair (Some budget) i.(mi_verb) c.(c_now) with
          | Some r => (inl (OverBudget r), w)
          | None =>
              let '(f, opensThread, w) := compose_frame c me i w in
              if checkEnvelopeSize c.(c_envelopeBytes) f.(f_envelope) then (inl ENVELOPE_TOO_LARGE, w)
              else let '(r, w) := post_message c me i f opensThread budget w in (inr r, w)
          end
      end
  end.

(** Would the pair's ceilings refuse the verb now? *)
Definition pairRefusal c (sessionId : string) (to : SessionMemberKey) (verb : Verb) w : option PairRefusal * Coord :=
  match c.(c_self) sessionId with
  | None => (None, w)
  | Some me =>
      let '(budget, w) := pairBudgetFor c sessionId me.(self_key) to w in
      (refusalForPair (Some budget) verb c.(c_now), w)
  end.

(** ** The timer's pass *)

(** The log operations a pass puts off to its end. *)
Inductive Stamp := SDelivered (messageId : string) | SRefused (messageId code : string).
Definition apply_stamp (now : Z) (log : list LoggedEnvelope) (op : Stamp) : list LoggedEnvelope :=
  match op with
  | SDelivered id => markDelivered id now log
  | SRefused id code => markRefused id now code log
  end.

Record Update := { u_attempts : Z; u_nextAttemptAt : Z; u_lastReason : option BusHeldReason }.

Definition updated (u : Update) (m : HeldMessage) : HeldMessage := {|
  h_messageId := m.(h_messageId); h_contextId := m.(h_contextId); h_to := m.(h_to); h_frame := m.(h_frame);
  h_heldAt := m.(h_heldAt); h_attempts := u.(u_attempts); h_nextAttemptAt := u.(u_nextAttemptAt);
  h_relayedAt := m.(h_relayedAt);
  h_lastReason := match u.(u_lastReason) with Some r => Some (reason_text r) | None => m.(h_lastReason) end |}.

Record Pass := {
  ps_logOps : list Stamp; ps_gone : list string; ps_updates : gmap string Update; ps_blocked : gset string }.

(** [Math.min(BUS_RETRY_BASE_MS * 2 ** (attempts - 1), BUS_RETRY_MAX_MS)] once
    per attempt, or the slow offer of a message the relay holds. *)
Definition backoff (m : HeldMessage) (attempts : Z) : Z :=
  if given m.(h_relayedAt) then BUS_RELAYED_RESEND_MS
  else Z.min (BUS_RETRY_BASE_MS * 2 ^ (attempts - 1)) BUS_RETRY_MAX_MS.

(** [Set.add] *)
Definition set_add (id : string) (l : list string) : list string := if decide (id ∈ l) then l else l ++ [id].

Definition note_gone (op : Stamp) (id : string) (p : Pass) : Pass := {|
  ps_logOps := p.(ps_logOps) ++ [op]; ps_gone := set_add id p.(ps_gone); ps_updates := p.(ps_updates); ps_blocked := p.(ps_blocked) |}.
Definition note_update (id : string) (u : Update) (p : Pass) : Pass := {|
  ps_logOps := p.(ps_logOps); ps_gone := p.(ps_gone); ps_updates := <[id := u]> p.(ps_updates); ps_blocked := p.(ps_blocked) |}.
Definition note_blocked (machine : string) (p : Pass) : Pass := {|
  ps_logOps := p.(ps_logOps); ps_gone := p.(ps_gone); ps_updates := p.(ps_updates); ps_blocked := {[ machine ]} ∪ p.(ps_blocked) |}.

(** One message of the pass. *)
Definition offer c (now : Z) (st : Pass * Coord) (m : HeldMessage) : Pass * Coord :=
  let '(p, w) := st in
  let id := m.(h_messageId) in
  if (now <? m.(h_nextAttemptAt)) || bool_decide (m.(h_to).(k_machine) ∈ p.(ps_blocked)) then (p, w)
  else
    let attempts := m.(h_attempts) + 1 in
    if isLocalTarget m.(h_frame).(f_from) m.(h_to) then
      let '(taken, w) := deliverToLocal c m.(h_frame) w in
      if taken : bool then (note_gone (SDelivered id) id p, w)
      else (note_update id {| u_attempts := attempts; u_nextAttemptAt := now + BUS_RETRY_BASE_MS; u_lastReason := None |} p, w)
    else
      let '(result, w) := dispatchRemote c {| x_frame := m.(h_frame); x_contextId := m.(h_contextId); x_to := m.(h_to);
        x_messageId := id; x_sentAt := m.(h_heldAt) |} w in
      let nextAttemptAt := now + backoff m attempts in
      match result with
      | SendRefused code => (note_gone (SRefused id (refusal_text code)) id p, w)
      | Sent => (note_update id {| u_attempts := attempts; u_nextAttemptAt := nextAttemptAt; u_lastReason := None |} p, w)
      | NotSent reason =>
          (note_update id {| u_attempts := attempts; u_nextAttemptAt := nextAttemptAt; u_lastReason := Some reason |}
             (note_blocked m.(h_to).(k_machine) p), w)
      end.

Definition started_pass (dead : list HeldMessage) : Pass := {|
  ps_logOps := (λ m, SRefused m.(h_messageId) "EXPIRED") <$> dead; ps_gone := foldl (λ l id, set_add id l) [] (h_messageId <$> dead);
  ps_updates := ∅; ps_blocked := ∅ |}.

(** The outbox the pass leaves of the freshest one. *)
Definition after_pass (p : Pass) (held : list HeldMessage) : list HeldMessage :=
  (λ m, match p.(ps_updates) !! m.(h_messageId) with Some u => updated u m | None => m end) <$>
    filter (λ m, m.(h_messageId) ∉ p.(ps_gone)) held.

Definition finish_pass c (sessionId : string) (now : Z) (p : Pass) w : Coord :=
  let '(fresh, w) := stateFor c sessionId w in
  let held := after_pass p fresh.(s_held) in
  let log := foldl (apply_stamp now) fresh.(s_log) p.(ps_logOps) in
  let patch := {|
    pt_held := if negb (bool_decide (length held = length fresh.(s_held))) || negb (bool_decide (p.(ps_updates) = ∅))
               then Some held else None;
    pt_log := if bool_decide (log = fresh.(s_log)) then None else Some log;
    pt_mailbox := None; pt_threads := None |} in
  let w := if given patch.(pt_held) || given patch.(pt_log) then commit c sessionId patch w else w in
  settle_all c p.(ps_gone) w.

Definition flushHeld c (sessionId : string) (now : Z) w : Coord :=
  let '(s, w) := stateFor c sessionId w in
  let '(live, dead) := expireHeld s.(s_held) now in
  let '(p, w) := foldl (offer c now) (started_pass dead, w) live in
  finish_pass c sessionId now p w.

Definition stop c w : Coord :=
  let w := settle_all c (keys w.(c_waiters)) w in
  w {{ c_timer := false }}.

Definition pump c w : Coord :=
  let w := foldl (λ w sessionId, flushHeld c sessionId c.(c_now) w) w (keys w.(c_sessions)) in
  if w.(c_timer) && negb (anyPending w) then stop c w else w.

(** Messages for the machine, or for any, are made due. *)
Definition made_due (machine : option string) (m : HeldMessage) : HeldMessage :=
  if match machine with Some id => negb (bool_decide (m.(h_to).(k_machine) = id)) | None => false end then m
  else if m.(h_nextAttemptAt) =? 0 then m else due_now m.

Definition make_due c (machine : option string) (sessionId : string) w : Coord :=
  match get sessionId w.(c_sessions) with
  | None => w
  | Some s =>
      let held := made_due machine <$> s.(s_held) in
      if bool_decide (held = s.(s_held)) then w else commit c sessionId (some_held held) w
  end.

Definition retryNow c (machine : option string) w : Coord :=
  pump c (foldl (λ w sessionId, make_due c machine sessionId w) w (keys w.(c_sessions))).

(** ** Loading, forgetting, reading *)

Definition load c (sessionId : string) w : Coord := ensureTimer (stateFor c sessionId w).2.

(** [listSessionBusSessions]: the scopes with rows a restart acts on, sorted. *)
Definition scope_le (a b : string * string) : Prop :=
  String.ltb a.1 b.1 || (bool_decide (a.1 = b.1) && String.leb a.2 b.2) = true.
#[local] Instance scope_le_dec : RelDecision scope_le.
Proof. intros a b. unfold scope_le. apply _. Defined.
Definition filed (disk : gmap (string * string) Stores) (where_ : string * string) : bool :=
  match disk !! where_ with
  | None => false
  | Some r => negb (bool_decide (r.(dk_held) = [])) || negb (bool_decide (r.(dk_mailbox) = [])) || negb (bool_decide (r.(dk_threads) = []))
  end.
Definition listSessionBusSessions w : list (string * string) :=
  merge_sort scope_le (filter (λ where_, filed w.(c_disk) where_ = true) (elements (dom w.(c_disk)))).

Definition coord_resume c w : Coord :=
  foldl (λ w '(projectId, sessionId),
    if bool_decide (c.(c_projectIdFor) sessionId = Some projectId) then (stateFor c sessionId w).2 else w)
    w (listSessionBusSessions w).

Definition forget_held c (w : Coord) (m : HeldMessage) : Coord :=
  settleWaiters c m.(h_messageId) (w {{ c_heldIndex := base.delete m.(h_messageId) w.(c_heldIndex) }}).
Definition forget c (sessionId : string) w : Coord :=
  let w := match get sessionId w.(c_sessions) with Some s => foldl (forget_held c) w s.(s_held) | None => w end in
  w {{ c_sessions := JsMap.delete sessionId w.(c_sessions) }}.

Definition forgetProjectStates c (projectId : string) w : Coord :=
  foldl (λ w sessionId,
    if bool_decide ((get sessionId w.(c_sessions)) ≫= s_projectId = Some projectId) then forget c sessionId w else w)
    w (keys w.(c_sessions)).

Definition setListener (projectId : string) (on : bool) w : Coord :=
  w {{ c_listeners := if on then {[ projectId ]} ∪ w.(c_listeners) else w.(c_listeners) ∖ {[ projectId ]} }}.

Definition messages c (sessionId : string) w : list LoggedEnvelope * Coord :=
  let '(s, w) := stateFor c sessionId w in (s.(s_log), w).

Definition set_mailbox (m : MailboxState) : Patch := {| pt_log := None; pt_held := None; pt_mailbox := Some m; pt_threads := None |}.
Definition set_threads (t : list ThreadRow) : Patch := {| pt_log := None; pt_held := None; pt_mailbox := None; pt_threads := Some t |}.

Definition mailbox c (sessionId : string) w : MailboxState * Coord :=
  let '(s, w) := stateFor c sessionId w in
  let m := expireOldPosts s.(s_mailbox) c.(c_now) in
  (m, if bool_decide (m = s.(s_mailbox)) then w else commit c sessionId (set_mailbox m) w).

Definition threads c (sessionId : string) w : list ThreadRow * Coord :=
  let '(s, w) := stateFor c sessionId w in
  let t := expireThreads s.(s_threads) c.(c_now) in
  (t, if bool_decide (t = s.(s_threads)) then w else commit c sessionId (set_threads t) w).

Definition markMailboxRead c (sessionId : string) (messageIds : list string) w : Coord :=
  let '(s, w) := stateFor c sessionId w in
  let m := markRead s.(s_mailbox) messageIds in
  if bool_decide (m = s.(s_mailbox)) then w else commit c sessionId (set_mailbox m) w.

Definition coord_clearHalt c (sessionId : string) w : Coord :=
  w {{ c_budgets := clearHalts c.(c_projectIdFor) sessionId c.(c_now) w.(c_budgets) }}.

(** ** The calls, each at its own [Ctx] *)

Inductive CoordCall :=
| Message (i : MessageInput) | Inbound (f : BusFrame) | Outcome (messageId toMachine : string) (o : TransportOutcome)
| Tick | RetryNow (machine : option string) | AwaitRung (messageId : string) | RungTimeout (messageId : string) (n : nat)
| Load (sessionId : string) | Resume | Forget (sessionId : string) | ForgetProject (projectId : string) | Stop
| SetListener (projectId : string) (on : bool) | AskPair (sessionId : string) (to : SessionMemberKey) (verb : Verb)
| Messages (sessionId : string) | Mailbox (sessionId : string) | Threads (sessionId : string)
| MarkRead (sessionId : string) (messageIds : list string) | ClearHalt (sessionId : string).

Definition coord_call c (call : CoordCall) w : Coord :=
  match call with
  | Message i => (message c i w).2
  | Inbound f => (handleInbound c f w).2
  | Outcome id to o => onTransportOutcome c id to o w
  | Tick => if w.(c_timer) then pump c w else w
  | RetryNow machine => retryNow c machine w
  | AwaitRung id => (awaitRung c id w).2
  | RungTimeout id n => rung_timeout c id n w
  | Load sessionId => load c sessionId w
  | Resume => coord_resume c w
  | Forget sessionId => forget c sessionId w
  | ForgetProject projectId => forgetProjectStates c projectId w
  | Stop => stop c w
  | SetListener projectId on => setListener projectId on w
  | AskPair sessionId to verb => (pairRefusal c sessionId to verb w).2
  | Messages sessionId => (messages c sessionId w).2
  | Mailbox sessionId => (mailbox c sessionId w).2
  | Threads sessionId => (threads c sessionId w).2
  | MarkRead sessionId ids => markMailboxRead c sessionId ids w
  | ClearHalt sessionId => coord_clearHalt c sessionId w
  end.

(** The process ends and another one starts on the same database. *)
Definition coord_restart (w : Coord) : Coord := {|
  c_sessions := JsMap.empty; c_heldIndex := ∅; c_recentSent := JsMap.empty; c_waiters := JsMap.empty; c_waits := w.(c_waits);
  c_timer := false; c_listeners := ∅; c_disk := w.(c_disk); c_budgets := PairBudget.restart w.(c_budgets);
  c_drawn := w.(c_drawn); c_dispatched := w.(c_dispatched); c_effects := w.(c_effects) |}.

Inductive CoordEvent := Called (c : Ctx) (call : CoordCall) | Restarted.
Definition coord_step (w : Coord) (e : CoordEvent) : Coord :=
  match e with Called c call => coord_call c call w | Restarted => coord_restart w end.
Definition coord_run (w : Coord) (es : list CoordEvent) : Coord := foldl coord_step w es.
End coordinator.
