(* ===== verification/CoordinatorLedger.v ===== *)
(** * CoordinatorLedger: what becomes of a message that was sent

    A session's log and its outbox tell one story, in memory and in the rows a
    restart reads: an outgoing entry that is neither delivered nor refused is in
    the outbox, and a delivered one was reported applied by the machine it was
    addressed to, or folded into the session it was addressed to on this one.
    [account] says this of one log and outbox, [books] of a whole coordinator;
    [quiet] is what every call but a send leaves alone. *)

From S2P Require Import Prelude JsMap Wire PairBudget BusTransport BusStores Coordinator.
From coqutil Require Import Datatypes.RecordSetters.
Import DoubleBraceUpdate.

Local Open Scope Z_scope.
Local Open Scope js_scope.

(** ** Logs as maps over their entries *)

Definition oid (e : LoggedEnvelope) : string := e.(l_envelope).(e_messageId).
Definition is_out (e : LoggedEnvelope) : Prop := e.(l_direction) = outbound.
#[local] Instance is_out_dec e : Decision (is_out e).
Proof. unfold is_out. apply _. Defined.
Definition outbound_ids (log : list LoggedEnvelope) : list string := oid <$> filter is_out log.

Definition stamp_id (op : Stamp) : string := match op with SDelivered id | SRefused id _ => id end.

(** [apply_stamp] on one entry. *)
Definition stamp_one (id : string) (skip : LoggedEnvelope → bool) (f : LoggedEnvelope → LoggedEnvelope) (e : LoggedEnvelope) :
    LoggedEnvelope := if decide (is_outbound id e) then if skip e then e else f e else e.
Definition entry_stamp (now : Z) (e : LoggedEnvelope) (op : Stamp) : LoggedEnvelope :=
  match op with
  | SDelivered id => stamp_one id (λ e, given e.(l_deliveredAt)) (delivered_at now) e
  | SRefused id code => stamp_one id (λ e, given e.(l_deliveredAt) || given e.(l_refusedAt)) (refused_at now code) e
  end.

(** The parts of an entry no stamp touches. *)
Definition same_entry (e e' : LoggedEnvelope) : Prop :=
  e'.(l_at) = e.(l_at) ∧ e'.(l_direction) = e.(l_direction) ∧ e'.(l_peer) = e.(l_peer) ∧ e'.(l_envelope) = e.(l_envelope).

Lemma stamp_one_same id skip f e : (∀ x, same_entry x (f x)) → same_entry e (stamp_one id skip f e).
Proof. intros Hf. unfold stamp_one. split_cases; try apply Hf; by repeat split. Qed.

Lemma entry_stamp_same now e op : same_entry e (entry_stamp now e op).
Proof. destruct op; apply stamp_one_same; by repeat split. Qed.

Lemma entry_stamps_same now ops e : same_entry e (foldl (entry_stamp now) e ops).
Proof.
  revert e. induction ops as [|op ops IH]; intros e; [by repeat split|].
  destruct (IH (entry_stamp now e op)) as (?&?&?&?), (entry_stamp_same now e op) as (?&?&?&?).
  repeat split; simpl; congruence.
Qed.

Lemma outbound_ids_map (f : LoggedEnvelope → LoggedEnvelope) log :
  (∀ e, same_entry e (f e)) → outbound_ids (f <$> log) = outbound_ids log.
Proof.
  intros Hf. unfold outbound_ids. induction log as [|e log IH]; [done|]. rewrite fmap_cons, !filter_cons.
  destruct (Hf e) as (_&Hd&_&He).
  destruct (decide (is_out e)) as [H|H], (decide (is_out (f e))) as [H'|H']; unfold is_out in *; try congruence.
  rewrite !fmap_cons, IH. f_equal. unfold oid. congruence.
Qed.

Lemma elem_outbound_ids log id : id ∈ outbound_ids log ↔ ∃ e, e ∈ log ∧ is_outbound id e.
Proof.
  unfold outbound_ids, is_outbound. rewrite list_elem_of_fmap. setoid_rewrite list_elem_of_filter.
  unfold is_out, oid. naive_solver.
Qed.

(** Where an outgoing id occurs once, stamping its first entry is stamping it
    wherever it is. *)
Lemma stamp_entry_map id skip f log :
  NoDup (outbound_ids log) → stamp_entry id skip f log = stamp_one id skip f <$> log.
Proof.
  intros Hnd. unfold stamp_entry, outbound_entry.
  induction log as [|e log IH]; [done|]. cbn [list_find]. rewrite fmap_cons. unfold stamp_one at 1.
  assert (NoDup (outbound_ids log)) as Hnd'.
  { unfold outbound_ids in *. rewrite filter_cons in Hnd. case_decide; [|done]. by apply NoDup_cons in Hnd as [_ Hnd]. }
  destruct (decide (is_outbound id e)) as [Ho|Ho].
  - assert (stamp_one id skip f <$> log = log) as ->; [|by destruct (skip e)].
    transitivity (Datatypes.id <$> log); [|by rewrite list_fmap_id].
    apply list_fmap_ext. intros i x Hx. unfold stamp_one. rewrite decide_False; [done|].
    intros Hox. apply list_elem_of_lookup_2 in Hx. unfold outbound_ids in Hnd. rewrite filter_cons, decide_True in Hnd by apply Ho.
    apply NoDup_cons in Hnd as [Hnin _]. apply Hnin. apply elem_outbound_ids. exists x. split; [done|].
    destruct Ho as [_ <-]. done.
  - specialize (IH Hnd'). destruct (list_find (is_outbound id) log) as [[i x]|]; cbn [fmap option_fmap option_map prod_map fst snd Datatypes.id] in *.
    + revert IH. by destruct (skip x); intros <-.
    + by rewrite <- IH.
Qed.

Lemma apply_stamp_map now log op : NoDup (outbound_ids log) → apply_stamp now log op = (λ e, entry_stamp now e op) <$> log.
Proof. intros Hnd. destruct op; by apply stamp_entry_map. Qed.

Lemma apply_stamps_map now ops log :
  NoDup (outbound_ids log) → foldl (apply_stamp now) log ops = (λ e, foldl (entry_stamp now) e ops) <$> log.
Proof.
  revert log. induction ops as [|op ops IH]; intros log Hnd; simpl; [by rewrite list_fmap_id|].
  rewrite apply_stamp_map by done. rewrite IH.
  - by rewrite <- list_fmap_compose.
  - by rewrite outbound_ids_map by (intros; apply entry_stamp_same).
Qed.

(** ** One log and one outbox *)

(** The message reached the session it was addressed to: that machine's
    acknowledgement was reported, or the frame was folded on this machine. *)
Definition arrived (eff : list CEffect) (id : string) (to : SessionMemberKey) : Prop :=
  CReported id to.(k_machine) Applied ∈ eff ∨
  ∃ f, CFolded f ∈ eff ∧ f.(f_to) = to ∧ f.(f_envelope).(e_messageId) = id.

Definition unsettled (e : LoggedEnvelope) : Prop := e.(l_deliveredAt) = None ∧ e.(l_refusedAt) = None.

(** A held message fits the log it stands beside. *)
Record holdable (drawn : string → Prop) (log : list LoggedEnvelope) (m : HeldMessage) : Prop := {
  hb_drawn : drawn m.(h_messageId);
  hb_to : m.(h_frame).(f_to) = m.(h_to);
  hb_id : m.(h_frame).(f_envelope).(e_messageId) = m.(h_messageId);
  hb_attempts : 0 <= m.(h_attempts);
  hb_peer : ∀ e, e ∈ log → is_outbound m.(h_messageId) e → e.(l_peer) = m.(h_to);
}.

(** [ex] is the message being sent right now, whose entry waits for its place in
    the outbox. *)
Record account (drawn : string → Prop) (eff : list CEffect) (ex : option string)
    (log : list LoggedEnvelope) (held : list HeldMessage) : Prop := {
  ac_unique : NoDup (outbound_ids log);
  ac_drawn : ∀ id, id ∈ outbound_ids log → drawn id;
  ac_held : ∀ m, m ∈ held → holdable drawn log m;
  ac_open : ∀ e, e ∈ log → is_out e → unsettled e → ex ≠ Some (oid e) → ∃ m, m ∈ held ∧ m.(h_messageId) = oid e;
  ac_arrived : ∀ e, e ∈ log → is_out e → e.(l_deliveredAt) ≠ None → arrived eff (oid e) e.(l_peer);
  ac_log_size : (length log ≤ MAX_LOG_ENTRIES)%nat;
  ac_held_size : (length held ≤ MAX_HELD_MESSAGES)%nat;
}.

(** What an outbox pass keeps of a held message. *)
Definition alike (m m' : HeldMessage) : Prop :=
  m'.(h_messageId) = m.(h_messageId) ∧ m'.(h_to) = m.(h_to) ∧ m'.(h_frame) = m.(h_frame) ∧ m'.(h_heldAt) = m.(h_heldAt) ∧
  (0 <= m.(h_attempts) → 0 <= m'.(h_attempts)).

Lemma account_empty drawn eff ex : account drawn eff ex [] [].
Proof. split; try (intros ? H; by apply not_elem_of_nil in H); simpl; [by apply NoDup_nil|lia|lia]. Qed.

Lemma arrived_mono eff eff' id to : (∀ x, x ∈ eff → x ∈ eff') → arrived eff id to → arrived eff' id to.
Proof. unfold arrived. naive_solver. Qed.

Lemma account_mono (drawn drawn' : string → Prop) eff eff' ex ex' log held :
  (∀ id, drawn id → drawn' id) → (∀ x, x ∈ eff → x ∈ eff') → (ex = None ∨ ex = ex') →
  account drawn eff ex log held → account drawn' eff' ex' log held.
Proof.
  intros Hd He Hex [? Hdr Hh Ho Ha ? ?]. split; auto.
  - intros m Hm. destruct (Hh m Hm). split; auto.
  - intros e Hin Hout Hun Hne. apply Ho; auto. destruct Hex as [->| ->]; done.
  - intros. eapply arrived_mono; eauto.
Qed.

Lemma holdable_alike drawn log m m' : alike m m' → holdable drawn log m → holdable drawn log m'.
Proof. intros (Hid&Hto&Hf&_&Hat) [?????]. split; rewrite ?Hid, ?Hto, ?Hf; auto. Qed.

Lemma holdable_map drawn (f : LoggedEnvelope → LoggedEnvelope) log m :
  (∀ e, same_entry e (f e)) → holdable drawn log m → holdable drawn (f <$> log) m.
Proof.
  intros Hf [Hd Ht Hi Hn Hp]. split; auto. intros e' He' [Hd' Ho]. apply list_elem_of_fmap in He' as (e&->&He).
  destruct (Hf e) as (_&Hdir&->&Henv). apply Hp; [done|]. split; congruence.
Qed.

(** The stamps a change owes for what it takes off the outbox. *)
Lemma unsettled_stamps now ops e : unsettled (foldl (entry_stamp now) e ops) →
  unsettled e ∧ (is_out e → ∀ op, op ∈ ops → stamp_id op ≠ oid e).
Proof.
  revert e. induction ops as [|op ops IH]; intros e Hun; simpl in *.
  { split; [done|]. intros _ op Hop. by apply not_elem_of_nil in Hop. }
  apply IH in Hun as [Hun Hops]. destruct (entry_stamp_same now e op) as (_&Hdir&_&Henv).
  assert (unsettled e ∧ (is_out e → stamp_id op ≠ oid e)) as [He Hop].
  { unfold unsettled in *. destruct op as [id|id code]; simpl in *; unfold stamp_one, given in *; split_cases; simpl in *;
      try (by destruct Hun); (split; [done|]); intros Ho ->; (try by apply H; split); try (by destruct H0);
      destruct Hun as [Hu1 Hu2]; rewrite ?Hu1, ?Hu2 in *; by repeat case_bool_decide. }
  split; [done|]. intros Hout op' [->|Hin]%elem_of_cons; [by apply Hop|].
  unfold oid in *. rewrite <- Henv. apply Hops; [|done]. unfold is_out in *. congruence.
Qed.

Lemma delivered_stamps now ops e : (foldl (entry_stamp now) e ops).(l_deliveredAt) ≠ None →
  e.(l_deliveredAt) ≠ None ∨ (is_out e ∧ SDelivered (oid e) ∈ ops).
Proof.
  revert e. induction ops as [|op ops IH]; intros e; simpl; [by left|]. intros [Hd|[Ho Hin]]%IH.
  - destruct op as [id|id code]; simpl in *; unfold stamp_one in *;
      destruct (decide (is_outbound id e)) as [[Ho <-]|Hn]; [|by left| |by left].
    + right. split; [done|]. apply list_elem_of_here.
    + left. by destruct (given _ || given _).
  - destruct (entry_stamp_same now e op) as (_&Hdir&_&Henv). right. unfold is_out, oid in *. rewrite <- Hdir, <- Henv.
    split; [congruence|by apply list_elem_of_further].
Qed.

Lemma account_settle drawn eff ex ex' now ops log held held' :
  account drawn eff ex log held →
  (∀ id, SDelivered id ∈ ops → ∀ e, e ∈ log → is_outbound id e → arrived eff id e.(l_peer)) →
  (∀ m', m' ∈ held' → holdable drawn log m') →
  (∀ m, m ∈ held → (∃ op, op ∈ ops ∧ stamp_id op = m.(h_messageId)) ∨ ∃ m', m' ∈ held' ∧ m'.(h_messageId) = m.(h_messageId)) →
  (∀ id, ex = Some id → ex' = Some id ∨ (∃ op, op ∈ ops ∧ stamp_id op = id) ∨ ∃ m', m' ∈ held' ∧ m'.(h_messageId) = id) →
  (length held' ≤ MAX_HELD_MESSAGES)%nat →
  account drawn eff ex' (foldl (apply_stamp now) log ops) held'.
Proof.
  intros [Hu Hdr Hh Ho Ha Hls Hhs] Hops Hnew Hold Hex Hlen. rewrite apply_stamps_map by done.
  set (f := λ e, foldl (entry_stamp now) e ops). assert (∀ e, same_entry e (f e)) as Hf by (intros; apply entry_stamps_same).
  split; rewrite ?outbound_ids_map by done; auto.
  - intros m Hm. apply holdable_map; auto.
  - intros e' He' Hout Hun Hne. apply list_elem_of_fmap in He' as (e&->&He). apply unsettled_stamps in Hun as [Hun Hst].
    destruct (Hf e) as (_&Hdir&_&Henv). unfold is_out in Hout. rewrite Hdir in Hout. specialize (Hst Hout).
    assert (oid (f e) = oid e) as Heq by (unfold oid; congruence). rewrite Heq in *.
    destruct (decide (ex = Some (oid e))) as [He1|He1].
    + destruct (Hex _ He1) as [Hex1|[(op&Hin&Hid)|Hex1]]; [done|by destruct (Hst op Hin)|done].
    + destruct (Ho e He Hout Hun He1) as (m&Hm&Hid). destruct (Hold m Hm) as [(op&Hin&Hop)|(m'&Hm'&Hid')].
      * by destruct (Hst op Hin); rewrite Hop.
      * exists m'. split; [done|congruence].
  - intros e' He' Hout Hd. apply list_elem_of_fmap in He' as (e&->&He). destruct (Hf e) as (_&Hdir&Hpeer&Henv).
    assert (oid (f e) = oid e) as Heq by (unfold oid; congruence). rewrite Heq, Hpeer. unfold is_out in Hout. rewrite Hdir in Hout.
    apply delivered_stamps in Hd as [Hd|[Ho' Hin]]; [ by apply Ha|]. by apply (Hops _ Hin).
  - by rewrite length_fmap.
Qed.

Lemma elem_slice_last {A} n (l : list A) x : x ∈ slice_last n l → x ∈ l.
Proof. intros Hx. eapply elem_of_sublist; [done|]. apply sublist_drop. Qed.

Lemma outbound_ids_app l1 l2 : outbound_ids (l1 ++ l2) = outbound_ids l1 ++ outbound_ids l2.
Proof. unfold outbound_ids. by rewrite filter_app, fmap_app. Qed.

Lemma outbound_ids_slice n log : sublist (outbound_ids (slice_last n log)) (outbound_ids log).
Proof.
  unfold slice_last. generalize (length log - n)%nat. intros k. rewrite <- (take_drop k log) at 2. rewrite outbound_ids_app. by apply sublist_inserts_l.
Qed.

(** Restricting the log to its newest entries. *)
Lemma account_slice drawn eff ex log held :
  NoDup (outbound_ids log) → (∀ id, id ∈ outbound_ids log → drawn id) → (∀ m, m ∈ held → holdable drawn log m) →
  (∀ e, e ∈ log → is_out e → unsettled e → ex ≠ Some (oid e) → ∃ m, m ∈ held ∧ m.(h_messageId) = oid e) →
  (∀ e, e ∈ log → is_out e → e.(l_deliveredAt) ≠ None → arrived eff (oid e) e.(l_peer)) →
  (length held ≤ MAX_HELD_MESSAGES)%nat → account drawn eff ex (slice_last MAX_LOG_ENTRIES log) held.
Proof.
  intros Hu Hd Hh Ho Ha Hl. pose proof (outbound_ids_slice MAX_LOG_ENTRIES log) as Hsub.
  split; try done; try (intros e He%elem_slice_last; eauto; fail).
  - by eapply sublist_NoDup.
  - intros id Hid. apply Hd. by eapply elem_of_sublist.
  - intros m Hm. destruct (Hh m Hm). split; auto. intros e He%elem_slice_last. auto.
  - rewrite slice_last_length. lia.
Qed.

Lemma account_append drawn eff ex ex' log held at_ d peer e :
  account drawn eff ex log held → (d = inbound → ex' = ex) →
  (d = outbound → ex = None ∧ drawn e.(e_messageId) ∧ (e.(e_messageId) ∉ outbound_ids log) ∧ ex' = Some e.(e_messageId) ∧
    ∀ m, m ∈ held → m.(h_messageId) ≠ e.(e_messageId)) →
  account drawn eff ex' (appendLog log at_ d peer e) held.
Proof.
  intros [Hu Hdr Hh Ho Ha Hls Hhs] Hin Hnew. unfold appendLog. set (x := Build_LoggedEnvelope _ _ _ _ _ _ _ _).
  assert (outbound_ids [x] = (if decide (d = outbound) then [e.(e_messageId)] else [])) as Hx.
  { unfold outbound_ids. rewrite filter_cons, filter_nil. unfold is_out. simpl. repeat case_decide; done. }
  apply account_slice; auto.
  - rewrite outbound_ids_app, Hx. case_decide as Hd; [|by rewrite app_nil_r].
    apply NoDup_app. split; [done|]. split; [|apply NoDup_singleton]. intros id Hid Heq. apply list_elem_of_singleton in Heq as ->.
    by apply (Hnew Hd).
  - intros id. rewrite outbound_ids_app, Hx. intros [Hid|Hid]%elem_of_app; [auto|]. case_decide as Hd; [|by apply not_elem_of_nil in Hid].
    apply list_elem_of_singleton in Hid as ->. by apply Hnew.
  - intros m Hm. destruct (Hh m Hm). split; auto. intros y [Hy|Hy]%elem_of_app; auto. intros [Hdir Hid].
    apply list_elem_of_singleton in Hy as ->. destruct (Hnew Hdir) as (_&_&_&_&Hne). by destruct (Hne m Hm).
  - intros y [Hy|Hy]%elem_of_app Hout Hun Hne.
    + apply Ho; auto. destruct d; [by rewrite <- Hin|]. by destruct (Hnew eq_refl) as (->&_).
    + apply list_elem_of_singleton in Hy as ->. by destruct (Hnew Hout) as (_&_&_&->&_).
  - intros y [Hy|Hy]%elem_of_app Hout Hd; [by apply Ha|]. by apply list_elem_of_singleton in Hy as ->.
Qed.

(** A receipt of the relay settles nothing. *)
Lemma account_relayed drawn eff ex id now log held held' :
  account drawn eff ex log held →
  (∀ m', m' ∈ held' → ∃ m, m ∈ held ∧ alike m m') →
  (∀ m, m ∈ held → ∃ m', m' ∈ held' ∧ alike m m') → (length held' ≤ MAX_HELD_MESSAGES)%nat →
  account drawn eff ex (markRelayed id now log) held'.
Proof.
  intros [Hu Hdr Hh Ho Ha Hls Hhs] Hnew Hold Hlen. unfold markRelayed. rewrite stamp_entry_map by done.
  set (f := stamp_one _ _ _). assert (∀ e, same_entry e (f e)) as Hf by (intros; apply stamp_one_same; by repeat split).
  assert (∀ e, (f e).(l_deliveredAt) = e.(l_deliveredAt) ∧ (f e).(l_refusedAt) = e.(l_refusedAt)) as Hs.
  { intros e. unfold f, stamp_one. by repeat case_match. }
  assert (∀ e', e' ∈ f <$> log → ∃ e, e ∈ log ∧ is_out e = is_out e' ∧ oid e = oid e' ∧ l_peer e = l_peer e' ∧
    l_deliveredAt e = l_deliveredAt e' ∧ l_refusedAt e = l_refusedAt e') as Hback.
  { intros e' He'. apply list_elem_of_fmap in He' as (e&->&He). exists e. destruct (Hf e) as (_&Hd&Hp&Henv), (Hs e).
    unfold is_out, oid. rewrite Hd, Hp, Henv. by repeat split. }
  split; rewrite ?outbound_ids_map, ?length_fmap by done; auto.
  - intros m' Hm'. destruct (Hnew m' Hm') as (m&Hm&Hal). eapply holdable_map, holdable_alike; eauto.
  - intros e' He' Hout Hun Hne. destruct (Hback e' He') as (e&He&Hio&Hid&Hp&Hd&Hr). unfold unsettled in *.
    rewrite <- Hid, <- Hio, <- Hd, <- Hr in *. destruct (Ho e He Hout Hun Hne) as (m&Hm&Hmid).
    destruct (Hold m Hm) as (m'&Hm'&Hal&_). exists m'. split; [done|congruence].
  - intros e' He' Hout Hdel. destruct (Hback e' He') as (e&He&Hio&Hid&Hp&Hd&Hr). rewrite <- Hid, <- Hio, <- Hd, <- Hp in *. auto.
Qed.

(** An outbox whose messages all stood before, under the same log. *)
Lemma account_rehold drawn eff ex log held held' :
  account drawn eff ex log held → (∀ m', m' ∈ held' → ∃ m, m ∈ held ∧ alike m m') →
  (∀ m, m ∈ held → ∃ m', m' ∈ held' ∧ alike m m') → (length held' ≤ MAX_HELD_MESSAGES)%nat → account drawn eff ex log held'.
Proof.
  intros Ha Hnew Hold Hl. apply (account_settle _ _ ex ex 0 [] log held); auto.
  - intros id Hin. by apply not_elem_of_nil in Hin.
  - intros m' Hm'. destruct (Hnew m' Hm') as (m&Hm&Hal). eapply holdable_alike; [done|]. by apply Ha.
  - intros m Hm. right. destruct (Hold m Hm) as (m'&Hm'&Hal&_). by exists m'.
Qed.
