(* ===== verification/CoordinatorOutbox.v ===== *)
(** * CoordinatorOutbox: the coordinator keeps its books

    Every call of the coordinator preserves the accounts of CoordinatorLedger.v,
    in memory and on disk, and all but a send are [quiet]: they log nothing
    outgoing and hold nothing new.  From this: what becomes of every message. *)

From S2P Require Import Prelude JsMap Wire PairBudget BusTransport BusStores Coordinator CoordinatorLedger.
From coqutil Require Import Datatypes.RecordSetters.
Import DoubleBraceUpdate.

Local Open Scope Z_scope.
Local Open Scope js_scope.

Section books.
Context (newIds : nat → string).
Implicit Types (c : Ctx) (w : Coord) (s : SessionState) (sid : string).

Definition drawn_by (n : nat) (id : string) : Prop := ∃ k, (k < n)%nat ∧ id = newIds k.

Definition rows_of w (p sid : string) : Stores := w.(c_disk) !! (p, sid) ?| no_rows.
Definition pinned w (p sid : string) : Prop := ∃ s, get sid w.(c_sessions) = Some s ∧ s.(s_projectId) = Some p.

Definition account_of w (ex : option string) := account (drawn_by w.(c_drawn)) w.(c_effects) ex.

(** Every session in memory keeps its account and its rows; so do the rows of
    those that are not. *)
Record books (ex : string → option string) w : Prop := {
  bk_memory : ∀ sid s, get sid w.(c_sessions) = Some s → account_of w (ex sid) s.(s_log) s.(s_held);
  bk_tied : ∀ sid s p, get sid w.(c_sessions) = Some s → s.(s_projectId) = Some p →
    (rows_of w p sid).(dk_log) = s.(s_log) ∧ (rows_of w p sid).(dk_held) = s.(s_held);
  bk_disk : ∀ p sid, ¬ pinned w p sid → account_of w None (rows_of w p sid).(dk_log) (rows_of w p sid).(dk_held);
}.

(** A held message is next offered when it was, or within five minutes of [now]. *)
Definition paced_from (now : Z) (m m' : HeldMessage) : Prop :=
  m'.(h_nextAttemptAt) = m.(h_nextAttemptAt) ∨ now < m'.(h_nextAttemptAt) ≤ now + BUS_RELAYED_RESEND_MS.
Definition stands (now : Z) (m m' : HeldMessage) : Prop := alike m m' ∧ paced_from now m m'.

(** Nothing outgoing is new in [s'] and nothing held. *)
Definition fewer (now : Z) s s' : Prop :=
  (∀ e', e' ∈ s'.(s_log) → is_out e' → ∃ e, e ∈ s.(s_log) ∧ is_out e ∧ oid e' = oid e ∧ e'.(l_peer) = e.(l_peer)) ∧
  (∀ m', m' ∈ s'.(s_held) → ∃ m, m ∈ s.(s_held) ∧ stands now m m').

(** The retry timer runs while a message is held, and the sessions messages are
    looked up in are in memory. *)
Definition timed w : Prop := anyPending w = true → w.(c_timer) = true.
Definition placed w : Prop :=
  (∀ id sid, w.(c_heldIndex) !! id = Some sid → is_Some (get sid w.(c_sessions))) ∧
  (∀ id sid, get id w.(c_recentSent) = Some sid → is_Some (get sid w.(c_sessions))).
Definition armed w : Prop := timed w ∧ placed w.

(** What a call at the instant [now] other than a send does. *)
Record quiet (now : Z) w w' : Prop := {
  qt_eff : w.(c_effects) `prefix_of` w'.(c_effects);
  qt_drawn : w'.(c_drawn) = w.(c_drawn);
  qt_armed : armed w → armed w';
  qt_keep : ∀ sid s, get sid w.(c_sessions) = Some s →
    ∃ s', get sid w'.(c_sessions) = Some s' ∧ s'.(s_projectId) = s.(s_projectId) ∧ fewer now s s';
}.

Definition kept (now : Z) (ex : string → option string) w w' : Prop := books ex w' ∧ quiet now w w'.

Lemma alike_refl m : alike m m.
Proof. by repeat split. Qed.

#[export] Instance stands_pre now : PreOrder (stands now).
Proof.
  split.
  - intros m. split; [apply alike_refl|by left].
  - intros m1 m2 m3 [(?&?&?&?&?) P1] [(?&?&?&?&?) P2]. split; [repeat split; auto; congruence|].
    destruct P2 as [P2|P2]; [|by right]. destruct P1 as [P1|P1]; [left; congruence|right; by rewrite P2].
Qed.

#[export] Instance fewer_pre now : PreOrder (fewer now).
Proof.
  split.
  - intros s. split; [intros e He Ho; by exists e|intros m Hm; by exists m].
  - intros s1 s2 s3 [H1 H2] [H3 H4]. split.
    + intros e He Ho. destruct (H3 e He Ho) as (e2&He2&Ho2&Hi&Hp). destruct (H1 e2 He2 Ho2) as (e1&He1&Ho1&Hi1&Hp1).
      exists e1. repeat split; auto; congruence.
    + intros m Hm. destruct (H4 m Hm) as (m2&Hm2&Ha). destruct (H2 m2 Hm2) as (m1&Hm1&Ha1). exists m1.
      split; [done|by etrans].
Qed.

#[export] Instance quiet_pre now : PreOrder (quiet now).
Proof.
  split.
  - intros w. split; auto. intros sid s Hs. by exists s.
  - intros w1 w2 w3 [E1 D1 T1 K1] [E2 D2 T2 K2]. split; [by etrans|congruence|auto|]. intros sid s Hs.
    destruct (K1 sid s Hs) as (s2&Hs2&Hp2&Hf2). destruct (K2 sid s2 Hs2) as (s3&Hs3&Hp3&Hf3).
    exists s3. split; [done|]. split; [congruence|by etrans].
Qed.

Lemma armed_same w w' :
  w'.(c_sessions) = w.(c_sessions) → w'.(c_timer) = w.(c_timer) → w'.(c_heldIndex) = w.(c_heldIndex) →
  w'.(c_recentSent) = w.(c_recentSent) → armed w → armed w'.
Proof. intros Hs Ht Hi Hr. unfold armed, timed, placed, anyPending. by rewrite Hs, Ht, Hi, Hr. Qed.

Lemma kept_trans now ex ex' w1 w2 w3 : kept now ex w1 w2 → kept now ex' w2 w3 → kept now ex' w1 w3.
Proof. intros [_ Q1] [B2 Q2]. split; [done|by etrans]. Qed.

Lemma kept_refl now ex w : books ex w → kept now ex w w.
Proof. by split. Qed.

Lemma told now x w w' : quiet now w w' → x ∈ w.(c_effects) → x ∈ w'.(c_effects).
Proof. intros Q Hx. eapply elem_of_prefix; [done|apply Q]. Qed.

(** Changes to the rest of the state. *)
Lemma books_same ex w w' :
  w'.(c_sessions) = w.(c_sessions) → w'.(c_disk) = w.(c_disk) → w'.(c_drawn) = w.(c_drawn) →
  w.(c_effects) `prefix_of` w'.(c_effects) → books ex w → books ex w'.
Proof.
  intros Hs Hd Hn He [B1 B2 B3]. assert (∀ x, x ∈ w.(c_effects) → x ∈ w'.(c_effects)) as He' by (intros x Hx; by eapply elem_of_prefix).
  split; unfold pinned, rows_of, account_of in *; rewrite ?Hs, ?Hd, ?Hn; auto.
  - intros sid s Hg. eapply account_mono; [| |by right|by apply B1]; auto.
  - intros p sid Hp. eapply account_mono; [| |by right|by apply B3]; auto.
Qed.

Lemma kept_same now ex w w' :
  w'.(c_sessions) = w.(c_sessions) → w'.(c_disk) = w.(c_disk) → w'.(c_drawn) = w.(c_drawn) →
  w'.(c_timer) = w.(c_timer) → w'.(c_heldIndex) = w.(c_heldIndex) → w'.(c_recentSent) = w.(c_recentSent) →
  w.(c_effects) `prefix_of` w'.(c_effects) → books ex w → kept now ex w w'.
Proof.
  intros Hs Hd Hn Ht Hix Hr He B. split; [by eapply books_same|]. split; rewrite ?Hs; [done|done| |].
  - by apply armed_same.
  - intros sid s Hg. by exists s.
Qed.

Lemma ensureTimer_frame w :
  (ensureTimer w).(c_sessions) = w.(c_sessions) ∧ (ensureTimer w).(c_disk) = w.(c_disk) ∧
  (ensureTimer w).(c_drawn) = w.(c_drawn) ∧ (ensureTimer w).(c_effects) = w.(c_effects) ∧
  (ensureTimer w).(c_heldIndex) = w.(c_heldIndex) ∧ (ensureTimer w).(c_recentSent) = w.(c_recentSent).
Proof. unfold ensureTimer. by case_match. Qed.

Lemma ensureTimer_armed w : placed w → armed (ensureTimer w).
Proof.
  intros Hpl. split; [|unfold placed; by destruct (ensureTimer_frame w) as (->&_&_&_&->&->)].
  unfold timed, ensureTimer. destruct (c_timer w) eqn:Ht; simpl; [done|]. destruct (anyPending w) eqn:Hp; simpl; [done|congruence].
Qed.

Lemma ensureTimer_kept now ex w w1 :
  books ex w1 → w.(c_effects) `prefix_of` w1.(c_effects) → w1.(c_drawn) = w.(c_drawn) →
  (∀ sid s, get sid w.(c_sessions) = Some s →
    ∃ s', get sid w1.(c_sessions) = Some s' ∧ s'.(s_projectId) = s.(s_projectId) ∧ fewer now s s') →
  (armed w → placed w1) → kept now ex w (ensureTimer w1).
Proof.
  intros [B1 B2 B3] Q1 Q2 Q4 Q5. destruct (ensureTimer_frame w1) as (Es&Ed&En&Ee&_).
  split; split; unfold pinned, rows_of, account_of in *; rewrite ?Es, ?Ed, ?En, ?Ee; auto.
  intros A. apply ensureTimer_armed, Q5, A.
Qed.

Lemma index_held_lookup sid l index id sid' :
  index_held sid l index !! id = Some sid' → sid' = sid ∨ index !! id = Some sid'.
Proof.
  revert index. induction l as [|m l IH]; intros index; [by right|]. intros [->|H]%IH; [by left|].
  destruct (decide (id = m.(h_messageId))) as [->|Hne]; [rewrite lookup_insert_eq in H; left; congruence|].
  rewrite lookup_insert_ne in H by done. by right.
Qed.

Lemma unindex_held_lookup l index id sid' : unindex_held l index !! id = Some sid' → index !! id = Some sid'.
Proof.
  revert index. induction l as [|m l IH]; intros index; [done|]. intros H%IH. by apply lookup_delete_Some in H as [_ H].
Qed.

Lemma loaded_set sid s (sessions : jsmap string SessionState) sid' :
  sid' = sid ∨ is_Some (get sid' sessions) → is_Some (get sid' (JsMap.set sid s sessions)).
Proof. intros H. rewrite get_set. case_decide; [by eexists|]. by destruct H. Qed.

Lemma stateFor_present c sid s w : get sid w.(c_sessions) = Some s → stateFor c sid w = (s, w).
Proof. unfold stateFor. by intros ->. Qed.

Lemma load_account c sid ex w : books ex w → get sid w.(c_sessions) = None →
  account_of w None (load_state c sid w).(s_log) (load_state c sid w).(s_held) ∧
  ∀ p, (load_state c sid w).(s_projectId) = Some p →
    (rows_of w p sid).(dk_log) = (load_state c sid w).(s_log) ∧ (rows_of w p sid).(dk_held) = (load_state c sid w).(s_held).
Proof.
  intros B Hg. unfold load_state. destruct (c.(c_projectIdFor) sid) as [p|]; [|split; [apply account_empty|done]].
  fold (rows_of w p sid). cbn [s_log s_held s_projectId].
  assert (account_of w None (rows_of w p sid).(dk_log) (rows_of w p sid).(dk_held)) as Ha.
  { apply (bk_disk _ _ B). intros (s&Hs&_). congruence. }
  destruct (Ha) as [_ _ _ _ _ Hl Hh]. rewrite !slice_last_short by done. split; [done|]. by intros p' [= <-].
Qed.

Lemma stateFor_kept c sid ex w : books ex w →
  kept c.(c_now) ex w (stateFor c sid w).2 ∧ get sid (stateFor c sid w).2.(c_sessions) = Some (stateFor c sid w).1.
Proof.
  intros B. unfold stateFor. destruct (get sid w.(c_sessions)) as [s|] eqn:Hg; [split; [by apply kept_refl|done]|].
  destruct (load_account c sid ex w B Hg) as [Ha Ht]. set (s := load_state c sid w) in *.
  cbn [fst snd]. match goal with |- context [ensureTimer ?x] => set (w1 := x) end.
  destruct (ensureTimer_frame w1) as (Es&Ed&En&Ee&_). rewrite Es. split; [|apply get_set_eq].
  destruct B as [B1 B2 B3].
  assert (∀ sid' s', get sid' (JsMap.set sid s w.(c_sessions)) = Some s' → sid' = sid ∧ s' = s ∨ sid' ≠ sid ∧ get sid' w.(c_sessions) = Some s') as Hget.
  { intros sid' s'. rewrite get_set. case_decide; [intros [= <-]; by left|by right]. }
  apply ensureTimer_kept; [split|..]; change (c_sessions w1) with (JsMap.set sid s w.(c_sessions)); change (c_drawn w1) with (c_drawn w);
    change (c_effects w1) with (c_effects w); auto.
  - intros sid' s' [[-> ->]|[Hne Hs']]%Hget; [|by apply B1]. eapply account_mono; [| |by left|exact Ha]; auto.
  - intros sid' s' p [[-> ->]|[Hne Hs']]%Hget Hp; [by apply Ht|by apply B2].
  - intros p sid' Hp. apply B3. intros (s'&Hs'&Hp'). apply Hp. exists s'. split; [|done].
    change (c_sessions w1) with (JsMap.set sid s w.(c_sessions)). rewrite get_set, decide_False; [done|congruence].
  - intros sid' s' Hs'. exists s'. rewrite get_set, decide_False by congruence. split; [done|]. by split.
  - intros [_ [P1 P2]]. split; intros id sid' H; change (c_sessions w1) with (JsMap.set sid s w.(c_sessions)); apply loaded_set.
    + change (c_heldIndex w1) with (index_held sid s.(s_held) w.(c_heldIndex)) in H.
      apply index_held_lookup in H as [->|H]; [by left|right; by eapply P1].
    + right. by eapply P2.
Qed.

(** What [commit] does to a session in memory. *)
Lemma commit_present c sid p s w : get sid w.(c_sessions) = Some s →
  (commit c sid p w).(c_sessions) = JsMap.set sid (patched s p) w.(c_sessions) ∧
  (commit c sid p w).(c_disk) = match s.(s_projectId) with
    | Some project => <[(project, sid) := saved s (patched s p) (rows_of w project sid)]> w.(c_disk)
    | None => w.(c_disk) end ∧
  (commit c sid p w).(c_drawn) = w.(c_drawn) ∧ (commit c sid p w).(c_effects) = w.(c_effects).
Proof.
  intros Hg. unfold commit. rewrite (stateFor_present _ _ _ _ Hg). cbv zeta.
  match goal with |- context [ensureTimer ?x] => set (w1 := x) end.
  destruct (ensureTimer_frame w1) as (->&->&->&->&_). done.
Qed.

Lemma saved_rows s next rows :
  rows.(dk_log) = s.(s_log) → rows.(dk_held) = s.(s_held) →
  (length next.(s_log) ≤ MAX_LOG_ENTRIES)%nat → (length next.(s_held) ≤ MAX_HELD_MESSAGES)%nat →
  (saved s next rows).(dk_log) = next.(s_log) ∧ (saved s next rows).(dk_held) = next.(s_held).
Proof.
  intros Hl Hh Hll Hhl. unfold saved. cbn [dk_log dk_held]. rewrite !slice_last_short by done.
  split; case_bool_decide; congruence.
Qed.

Lemma commit_books c sid p s ex ex' w :
  books ex w → get sid w.(c_sessions) = Some s → (∀ sid', sid' ≠ sid → ex' sid' = ex sid') →
  account_of w (ex' sid) (patched s p).(s_log) (patched s p).(s_held) → books ex' (commit c sid p w).
Proof.
  intros [B1 B2 B3] Hg Hex Ha. destruct (commit_present c sid p s w Hg) as (Hs&Hd&Hn&He).
  assert (∀ sid' s', get sid' (commit c sid p w).(c_sessions) = Some s' →
    sid' = sid ∧ s' = patched s p ∨ sid' ≠ sid ∧ get sid' w.(c_sessions) = Some s') as Hget.
  { intros sid' s'. rewrite Hs, get_set. case_decide; [intros [= <-]; by left|by right]. }
  assert (∀ project sid', ¬ (sid' = sid ∧ s.(s_projectId) = Some project) →
    rows_of (commit c sid p w) project sid' = rows_of w project sid') as Hother.
  { intros project sid' Hne. unfold rows_of. rewrite Hd. destruct (s_projectId s) as [q|]; [|done].
    rewrite lookup_insert_ne; [done|]. intros [= <- <-]. by apply Hne. }
  split; unfold account_of in *; rewrite ?Hn, ?He.
  - intros sid' s' [[-> ->]|[Hne Hs']]%Hget; [done|]. rewrite Hex by done. by apply B1.
  - intros sid' s' project [[-> ->]|[Hne Hs']]%Hget Hp.
    + unfold rows_of at 1 2. rewrite Hd. change (s_projectId (patched s p)) with (s_projectId s) in Hp. rewrite Hp.
      rewrite lookup_insert_eq. cbn [default]. destruct (B2 sid s project Hg Hp). by apply saved_rows; try apply Ha.
    + rewrite Hother by naive_solver. by apply B2.
  - intros project sid' Hp. rewrite Hother.
    + apply B3. intros (s'&Hs'&Hp'). apply Hp. destruct (decide (sid' = sid)) as [->|Hne].
      * exists (patched s p). rewrite Hs, get_set_eq. split; [done|]. simpl. congruence.
      * exists s'. rewrite Hs, get_set_ne by done. done.
    + intros [-> Hq]. apply Hp. exists (patched s p). by rewrite Hs, get_set_eq.
Qed.

Lemma commit_armed c sid p s w : get sid w.(c_sessions) = Some s → placed w → armed (commit c sid p w).
Proof.
  intros Hg [P1 P2]. unfold commit. rewrite (stateFor_present _ _ _ _ Hg). cbv zeta. apply ensureTimer_armed.
  split; cbn [c_sessions c_heldIndex c_recentSent].
  - intros id sid' H. apply loaded_set.
    assert (sid' = sid ∨ w.(c_heldIndex) !! id = Some sid') as [->|H']; [|by left|right; by eapply P1].
    revert H. match goal with |- ?x !! _ = _ → _ => change x with (if bool_decide ((patched s p).(s_held) = s.(s_held)) then w.(c_heldIndex)
      else index_held sid (patched s p).(s_held) (unindex_held s.(s_held) w.(c_heldIndex))) end.
    case_bool_decide; [by right|]. intros [Hq|H']%index_held_lookup; [by left|right]. by apply unindex_held_lookup in H'.
  - intros id sid' H. apply loaded_set. right. by eapply P2.
Qed.

Lemma commit_quiet c sid p s w : get sid w.(c_sessions) = Some s → fewer c.(c_now) s (patched s p) → quiet c.(c_now) w (commit c sid p w).
Proof.
  intros Hg Hf. destruct (commit_present c sid p s w Hg) as (Hs&Hd&Hn&He). split; rewrite ?He, ?Hn, ?Hs; auto.
  { intros [_ Hp]. by eapply commit_armed. }
  intros sid' s' Hs'. rewrite get_set. case_decide as Heq; subst.
  - rewrite Hg in Hs'. simplify_eq. by exists (patched s' p).
  - exists s'. split; [done|]. by split.
Qed.

Lemma commit_kept c sid p s ex ex' w :
  books ex w → get sid w.(c_sessions) = Some s → (∀ sid', sid' ≠ sid → ex' sid' = ex sid') →
  account_of w (ex' sid) (patched s p).(s_log) (patched s p).(s_held) → fewer c.(c_now) s (patched s p) →
  kept c.(c_now) ex' w (commit c sid p w).
Proof. intros. split; [by eapply commit_books|by eapply commit_quiet]. Qed.

(** ** Waiters *)

Lemma rungOf_kept c id ex w : books ex w → kept c.(c_now) ex w (rungOf c id w).2.
Proof.
  intros B. unfold rungOf. destruct (session_of id w) as [sid|]; [|by apply kept_refl].
  pose proof (stateFor_kept c sid ex w B) as [Hk _]. by destruct (stateFor c sid w).
Qed.



Lemma resolve_waiter_kept c id n ex w : books ex w → kept c.(c_now) ex w (resolve_waiter c id n w).
Proof.
  intros B. unfold resolve_waiter. cbv zeta. match goal with |- context [rungOf c id ?x] => set (w1 := x) end.
  assert (kept c.(c_now) ex w w1) as K1 by by apply kept_same. pose proof (rungOf_kept c id ex w1 (proj1 K1)) as K2.
  destruct (rungOf c id w1) as [r w2]. eapply kept_trans; [exact K1|]. eapply kept_trans; [exact K2|].
  apply kept_same; [reflexivity..| |by apply K2]. by apply prefix_app_r.
Qed.

(** A fold of kept steps. *)
Lemma foldl_kept {A} (f : Coord → A → Coord) now ex l w :
  (∀ x w, books ex w → kept now ex w (f w x)) → books ex w → kept now ex w (foldl f w l).
Proof.
  intros Hf. revert w. induction l as [|x l IH]; intros w B; [by apply kept_refl|].
  simpl. eapply kept_trans; [by apply Hf|]. apply IH, Hf, B.
Qed.

Lemma settleWaiters_kept c id ex w : books ex w → kept c.(c_now) ex w (settleWaiters c id w).
Proof. apply foldl_kept. intros. by apply resolve_waiter_kept. Qed.

Lemma settled_kept c id ex w w' : kept c.(c_now) ex w w' → kept c.(c_now) ex w (settleWaiters c id w').
Proof. intros K. eapply kept_trans; [exact K|]. apply settleWaiters_kept, K. Qed.

Lemma settle_all_kept c ids ex w : books ex w → kept c.(c_now) ex w (settle_all c ids w).
Proof. apply foldl_kept. intros. by apply settleWaiters_kept. Qed.

(** ** Outcomes and offers *)

Definition outgoing_from (log log' : list LoggedEnvelope) : Prop :=
  ∀ e', e' ∈ log' → is_out e' → ∃ e, e ∈ log ∧ is_out e ∧ oid e' = oid e ∧ e'.(l_peer) = e.(l_peer).

Lemma outgoing_refl log : outgoing_from log log.
Proof. intros e He Ho. by exists e. Qed.

Lemma outgoing_map f log : (∀ e, same_entry e (f e)) → outgoing_from log (f <$> log).
Proof.
  intros Hf e' He' Ho. apply list_elem_of_fmap in He' as (e&->&He). exists e. destruct (Hf e) as (_&Hd&Hp&Henv).
  unfold is_out, oid in *. repeat split; congruence.
Qed.

Lemma outgoing_stamps now ops log : NoDup (outbound_ids log) → outgoing_from log (foldl (apply_stamp now) log ops).
Proof. intros Hnd. rewrite apply_stamps_map by done. apply outgoing_map. intros. apply entry_stamps_same. Qed.

Lemma outgoing_relayed id now log : NoDup (outbound_ids log) → outgoing_from log (markRelayed id now log).
Proof.
  intros Hnd. unfold markRelayed. rewrite stamp_entry_map by done. apply outgoing_map. intros. apply stamp_one_same. by repeat split.
Qed.

Lemma on_message_stands now id f l :
  (∀ m, stands now m (f m)) →
  (∀ m', m' ∈ on_message id f l → ∃ m, m ∈ l ∧ stands now m m') ∧ (∀ m, m ∈ l → ∃ m', m' ∈ on_message id f l ∧ stands now m m').
Proof.
  intros Hf. unfold on_message. split.
  - intros m' Hm'. apply list_elem_of_fmap in Hm' as (m&->&Hm). exists m. split; [done|]. by case_bool_decide.
  - intros m Hm. eexists. split; [by apply list_elem_of_fmap_2|]. by case_bool_decide.
Qed.

Lemma with_reason_stands now r m : stands now m (with_reason r m).
Proof. split; [by repeat split|by left]. Qed.
Lemma with_relayed_stands now m : stands now m (with_relayed now m).
Proof. split; [by repeat split|right; cbn; unfold BUS_RELAYED_RESEND_MS; lia]. Qed.

Lemma elem_releaseHeld l ids m : m ∈ releaseHeld l ids ↔ m ∈ l ∧ m.(h_messageId) ∉ ids.
Proof. unfold releaseHeld. rewrite list_elem_of_filter. tauto. Qed.

Lemma stamps_one now op log : apply_stamp now log op = foldl (apply_stamp now) log [op].
Proof. done. Qed.

Lemma stands_alike now (l l' : list HeldMessage) :
  (∀ m', m' ∈ l' → ∃ m, m ∈ l ∧ stands now m m') → ∀ m', m' ∈ l' → ∃ m, m ∈ l ∧ alike m m'.
Proof. intros H m' Hm'. destruct (H m' Hm') as (m&Hm&Ha&_). by exists m. Qed.

(** A message is released with the stamp of its outcome. *)
Lemma account_release drawn eff ex now op log held :
  account drawn eff ex log held → (∀ id, op = SDelivered id → ∀ e, e ∈ log → is_outbound id e → arrived eff id e.(l_peer)) →
  account drawn eff ex (apply_stamp now log op) (releaseHeld held [stamp_id op]).
Proof.
  intros Ha Hop. rewrite stamps_one. apply (account_settle _ _ ex ex now [op] log held); auto.
  - intros id Hin%list_elem_of_singleton. by apply Hop.
  - intros m' [Hm' _]%elem_releaseHeld. by apply Ha.
  - intros m Hm. destruct (decide (m.(h_messageId) = stamp_id op)) as [Heq|Hne].
    + left. exists op. by rewrite list_elem_of_singleton.
    + right. exists m. rewrite elem_releaseHeld, list_elem_of_singleton. done.
  - etrans; [apply length_filter|]. apply Ha.
Qed.

Lemma release_fewer now op s t : NoDup (outbound_ids s.(s_log)) →
  fewer t s (patched s (held_and_log (releaseHeld s.(s_held) [stamp_id op]) (apply_stamp now s.(s_log) op))).
Proof.
  intros Hnd. split; cbn.
  - rewrite stamps_one. by apply outgoing_stamps.
  - intros m [Hm _]%elem_releaseHeld. by exists m.
Qed.

(** Releasing with a stamp, in a session in memory. *)
Lemma release_kept c sid now op ex s w :
  books ex w → get sid w.(c_sessions) = Some s →
  (∀ id, op = SDelivered id → ∀ e, e ∈ s.(s_log) → is_outbound id e → arrived w.(c_effects) id e.(l_peer)) →
  kept c.(c_now) ex w (commit c sid (held_and_log (releaseHeld s.(s_held) [stamp_id op]) (apply_stamp now s.(s_log) op)) w).
Proof.
  intros B Hg Hop. pose proof (bk_memory _ _ B _ _ Hg) as Ha. eapply commit_kept; [done|done|done| |].
  - cbn. apply account_release; auto.
  - apply release_fewer, Ha.
Qed.

(** Another outbox over the same log. *)
Lemma rehold_kept c sid ex s held' w :
  books ex w → get sid w.(c_sessions) = Some s → (∀ m', m' ∈ held' → ∃ m, m ∈ s.(s_held) ∧ stands c.(c_now) m m') →
  (∀ m, m ∈ s.(s_held) → ∃ m', m' ∈ held' ∧ stands c.(c_now) m m') → length held' = length s.(s_held) →
  kept c.(c_now) ex w (commit c sid (some_held held') w).
Proof.
  intros B Hg Hnew Hold Hl. pose proof (bk_memory _ _ B _ _ Hg) as Ha. eapply commit_kept; [done|done|done| |].
  - eapply account_rehold; [exact Ha|by eapply stands_alike|intros m Hm; destruct (Hold m Hm) as (m'&?&?&_); by exists m'|].
    cbn. rewrite Hl. apply Ha.
  - split; [apply outgoing_refl|done].
Qed.

Lemma on_message_kept c sid ex s id f w :
  books ex w → get sid w.(c_sessions) = Some s → (∀ m, stands c.(c_now) m (f m)) →
  kept c.(c_now) ex w (commit c sid (some_held (on_message id f s.(s_held))) w).
Proof.
  intros B Hg Hf. destruct (on_message_stands _ id f s.(s_held) Hf). eapply rehold_kept; eauto. apply length_fmap.
Qed.

Lemma list_find_elem {A} (P : A → Prop) `{∀ x, Decision (P x)} l x : snd <$> list_find P l = Some x → x ∈ l ∧ P x.
Proof.
  destruct (list_find P l) as [[i y]|] eqn:Hf; [|done]. intros [= <-]. apply list_find_Some in Hf as (Hi&Hp&_).
  split; [by eapply list_elem_of_lookup_2|done].
Qed.

Lemma onTransportOutcome_kept c id to o ex w : books ex w → kept c.(c_now) ex w (onTransportOutcome c id to o w).
Proof.
  intros B. unfold onTransportOutcome. cbv zeta.
  match goal with |- context [c_heldIndex ?x] => set (w1 := x) end.
  assert (kept c.(c_now) ex w w1) as K1. { apply kept_same; [reflexivity..| |done]. by apply prefix_app_r. }
  assert (CReported id to o ∈ w1.(c_effects)) as Hrep by (apply elem_of_app; right; apply list_elem_of_here).
  destruct (w1.(c_heldIndex) !! id) as [sid|]; [|done].
  destruct (stateFor_kept c sid ex w1 (proj1 K1)) as [K2 Hg]. destruct (stateFor c sid w1) as [s w2] eqn:Hst. cbn [fst snd] in *.
  pose proof (told _ _ _ _ (proj2 K2) Hrep) as Hrep2. pose proof (kept_trans _ _ _ _ _ _ K1 K2) as K12.
  destruct (snd <$> list_find _ s.(s_held)) as [m|] eqn:Hf; [|done]. apply list_find_elem in Hf as [Hm Hid].
  case_bool_decide as Hto; [done|]. eapply kept_trans; [exact K12|]. destruct K2 as [B2 _].
  pose proof (bk_memory _ _ B2 _ _ Hg) as Ha. destruct o as [| |code|reason].
  - case_match; [by apply kept_refl|]. apply settled_kept.
    destruct (on_message_stands c.(c_now) id (with_relayed c.(c_now)) s.(s_held) (with_relayed_stands _)) as [Hn Ho].
    eapply commit_kept; [exact B2|exact Hg|done| |].
    + eapply account_relayed; [exact Ha|by eapply stands_alike|intros x Hx; destruct (Ho x Hx) as (y&?&?&_); by exists y|]. cbn. unfold on_message. rewrite length_fmap. apply Ha.
    + split; [apply outgoing_relayed, Ha|done].
  - apply settled_kept, (release_kept _ _ c.(c_now) (SDelivered id)); auto. intros id' [= <-] e He Ho. left.
    assert (e.(l_peer) = m.(h_to)) as -> by (apply (ac_held _ _ _ _ _ Ha m Hm); [done|by rewrite Hid]). by rewrite Hto.
  - apply settled_kept, (release_kept _ _ c.(c_now) (SRefused id code)); auto. done.
  - apply on_message_kept; [done|done|]. intros. apply with_reason_stands.
Qed.

Lemma elem_snoc_l {A} (x y : A) l : x ∈ l → x ∈ l ++ [y].
Proof. intros. by apply elem_of_app; left. Qed.

(** Put into the trace between [w] and [w']. *)
Definition since w w' (x : CEffect) : Prop := ∃ new, w'.(c_effects) = w.(c_effects) ++ new ∧ x ∈ new.

Lemma since_before now w0 w1 w2 x : quiet now w0 w1 → since w1 w2 x → since w0 w2 x.
Proof.
  intros [[l1 E1] _ _] (l2&E2&Hx). exists (l1 ++ l2). split; [by rewrite E2, E1, app_assoc|]. apply elem_of_app. by right.
Qed.
Lemma since_after now w0 w1 w2 x : since w0 w1 x → quiet now w1 w2 → since w0 w2 x.
Proof.
  intros (l1&E1&Hx) [[l2 E2] _ _]. exists (l1 ++ l2). split; [by rewrite E2, E1, app_assoc|]. apply elem_of_app. by left.
Qed.

Lemma dispatchRemote_kept c x ex w : books ex w →
  kept c.(c_now) ex w (dispatchRemote c x w).2 ∧ since w (dispatchRemote c x w).2 (COffered x (dispatchRemote c x w).1).
Proof.
  intros B. unfold dispatchRemote. destruct (transport_answer c w.(c_dispatched) x) as [outcomes r]. cbv zeta. cbn [fst snd].
  match goal with |- context [foldl _ ?y outcomes] => set (w1 := y) end.
  assert (kept c.(c_now) ex w w1) as K1 by (apply kept_same; [reflexivity..| |done]; by apply prefix_app_r).
  assert (kept c.(c_now) ex w1 (foldl (λ w '(id, to, o), onTransportOutcome c id to o w) w1 outcomes)) as K2.
  { apply foldl_kept; [|by apply K1]. intros [[id to] o] w' B'. by apply onTransportOutcome_kept. }
  split; [by eapply kept_trans|]. eapply since_after; [|apply K2]. exists [COffered x r]. split; [done|apply list_elem_of_here].
Qed.

Lemma emit_kept c e ex w : books ex w → kept c.(c_now) ex w (emit_event c e w).
Proof. intros B. unfold emit_event. cbv zeta. apply kept_same; [reflexivity..| |done]. by apply prefix_app_r. Qed.

Lemma pairBudget_kept c sid me to ex w : books ex w → kept c.(c_now) ex w (pairBudgetFor c sid me to w).2.
Proof. intros B. unfold pairBudgetFor. destruct (recordsFor _ _ _ _) as [r b]. by apply kept_same. Qed.

Lemma spend_kept c sid b v p ex w : books ex w → kept c.(c_now) ex w (spend c sid b v p w).
Proof. intros B. by apply kept_same. Qed.

Lemma onMessage_kept c sid me f ex w : books ex w → kept c.(c_now) ex w (onMessage c sid me f w).
Proof.
  intros B. unfold onMessage. cbv zeta. destruct (stateFor_kept c sid ex w B) as [K1 Hg].
  destruct (stateFor c sid w) as [s w1]. cbn [fst snd] in *. eapply kept_trans; [exact K1|]. destruct K1 as [B1 _].
  match goal with |- context [commit c sid ?p w1] => set (patch := p); set (w2 := commit c sid patch w1) end.
  pose proof (bk_memory _ _ B1 _ _ Hg) as Ha.
  assert (kept c.(c_now) ex w1 w2) as K2.
  { eapply commit_kept; [exact B1|exact Hg|done| |].
    - cbn. by eapply account_append.
    - split; cbn.
      + intros e' He' Ho. apply elem_slice_last, elem_of_app in He' as [He'|He'].
        * by exists e'.
        * by apply list_elem_of_singleton in He' as ->.
      + intros m Hm. by exists m. }
  pose proof (pairBudget_kept c sid me.(self_key) f.(f_from) ex w2 (proj1 K2)) as K3.
  destruct (pairBudgetFor _ _ _ _ w2) as [b w3]. cbn [snd] in K3. eapply kept_trans; [exact K2|]. eapply kept_trans; [exact K3|].
  match goal with |- context [spend c sid b ?v ?p w3] => pose proof (spend_kept c sid b v p ex w3 (proj1 K3)) as K4 end.
  eapply kept_trans; [exact K4|]. apply emit_kept, K4.
Qed.

Lemma handleInbound_kept c f ex w : books ex w → kept c.(c_now) ex w (handleInbound c f w).2.
Proof.
  intros B. unfold handleInbound. destruct (c_self c _) as [me|]; [|by apply kept_refl].
  case_match; [by apply kept_refl|]. by apply onMessage_kept.
Qed.

Lemma deliverToLocal_kept c f ex w : books ex w →
  kept c.(c_now) ex w (deliverToLocal c f w).2 ∧ ((deliverToLocal c f w).1 = true → CFolded f ∈ (deliverToLocal c f w).2.(c_effects)).
Proof.
  intros B. unfold deliverToLocal. destruct (c_projectIdFor c _); [|split; [by apply kept_refl|done]].
  case_match; [split; [by apply kept_refl|done]|]. pose proof (handleInbound_kept c f ex w B) as K.
  destruct (handleInbound c f w) as [[] w1]; cbn [fst snd] in *; [|done]. split.
  - eapply kept_trans; [exact K|]. apply kept_same; [reflexivity..| |apply K]. by apply prefix_app_r.
  - intros _. apply elem_of_app. right. apply list_elem_of_here.
Qed.

(** ** A message being sent *)

Section sends.
(** Whether the timer is of interest: it is not once the coordinator was stopped. *)
Context (on : Prop).

(** The books are straight and, where it matters, the timer runs if it has to. *)
Definition balanced (ex : string → option string) w : Prop := books ex w ∧ (on → armed w).

Lemma kept_balanced now ex ex' w w' : balanced ex w → kept now ex' w w' → balanced ex' w'.
Proof. intros [_ T] [B Q]. split; [done|]. intros Hon. apply (qt_armed _ _ _ Q), T, Hon. Qed.

Definition nobody : string → option string := λ _, None.
Definition sending (sid id : string) : string → option string := λ sid', if decide (sid' = sid) then Some id else None.

Lemma sending_ne sid id sid' : sid' ≠ sid → nobody sid' = sending sid id sid'.
Proof. intros H. unfold sending. by rewrite decide_False. Qed.

Lemma foldl_stamps_evicted now code (l : list HeldMessage) log :
  foldl (λ l e, markRefused e.(h_messageId) now code l) log l = foldl (apply_stamp now) log ((λ e, SRefused e.(h_messageId) code) <$> l).
Proof. revert log. induction l as [|m l IH]; intros log; [done|]. apply IH. Qed.

Lemma holdMessage_parts held m :
  ∃ cut, holdMessage held m = (drop cut (held ++ [m]), take cut (held ++ [m])) ∧
    (length held ≤ MAX_HELD_MESSAGES → cut ≤ length held)%nat ∧ (length (drop cut (held ++ [m])) ≤ MAX_HELD_MESSAGES)%nat.
Proof.
  unfold holdMessage. cbv zeta. case_match eqn:Hl.
  - exists 0%nat. rewrite drop_0, take_0. apply Nat.leb_le in Hl. repeat split; [lia|done].
  - eexists. split; [done|]. apply Nat.leb_gt in Hl. rewrite length_drop, length_app in *. simpl in *. unfold MAX_HELD_MESSAGES in *. lia.
Qed.

Lemma hold_books c sid f now next s w :
  balanced (sending sid f.(f_envelope).(e_messageId)) w → get sid w.(c_sessions) = Some s →
  drawn_by w.(c_drawn) f.(f_envelope).(e_messageId) →
  (∀ e, e ∈ s.(s_log) → is_outbound f.(f_envelope).(e_messageId) e → e.(l_peer) = f.(f_to)) →
  balanced nobody (hold c sid f now next w).
Proof.
  intros [B Hpl] Hg Hd Hpeer. unfold hold. rewrite (stateFor_present _ _ _ _ Hg). set (m := new_held f now next).
  pose proof (bk_memory _ _ B _ _ Hg) as Ha. destruct (holdMessage_parts s.(s_held) m) as (cut&->&Hcut&Hlen).
  specialize (Hcut (ac_held_size _ _ _ _ _ Ha)). rewrite foldl_stamps_evicted.
  match goal with |- context [settle_all c _ ?y] => enough (balanced nobody y) as Bc end.
  { eapply kept_balanced; [exact Bc|]. apply settle_all_kept, Bc. }
  split; [|intros Hon; eapply commit_armed; [done|apply Hpl, Hon]].
  assert (∀ x, x ∈ s.(s_held) ++ [m] → holdable (drawn_by w.(c_drawn)) s.(s_log) x) as Hall.
  { intros x [Hx|Hx]%elem_of_app; [by apply Ha|]. apply list_elem_of_singleton in Hx as ->. by split. }
  eapply commit_books; [exact B|exact Hg|apply sending_ne|]. cbn [patched held_and_log pt_log pt_held s_log s_held default].
  eapply account_settle; [exact Ha| | | | |done].
  - intros id Hin. by apply list_elem_of_fmap in Hin as (?&?&_).
  - intros x Hx. apply Hall. eapply elem_of_sublist; [exact Hx|apply sublist_drop].
  - intros x Hx. rewrite <- (take_drop cut (s.(s_held) ++ [m])) in Hall.
    assert (x ∈ take cut (s.(s_held) ++ [m]) ++ drop cut (s.(s_held) ++ [m])) as Hin by (rewrite take_drop; by apply elem_snoc_l).
    apply elem_of_app in Hin as [Hin|Hin]; [left|right; by exists x].
    exists (SRefused x.(h_messageId) "OUTBOX_FULL"). split; [|done]. apply list_elem_of_fmap. by exists x.
  - intros id. unfold sending. rewrite decide_True by done. intros [= <-]. right. right. exists m. split; [|done].
    rewrite drop_app_le by done. apply elem_of_app. right. apply list_elem_of_here.
Qed.

(** The session's entry of a frame, where it still has one, names its target. *)
Definition addressed s (f : BusFrame) : Prop :=
  ∀ e, e ∈ s.(s_log) → is_outbound f.(f_envelope).(e_messageId) e → e.(l_peer) = f.(f_to).

Lemma addressed_fewer now s s' f : fewer now s s' → addressed s f → addressed s' f.
Proof.
  intros [Hout _] Ha e' He' [Hdir Hid]. destruct (Hout e' He' Hdir) as (e&He&Ho&Hoid&->). apply Ha; [done|].
  split; [done|]. unfold oid in Hoid. congruence.
Qed.

Lemma settleHeld_kept c sid id code now ex w : books ex w → kept c.(c_now) ex w (settleHeld c sid id (markRefused id now code) w).
Proof.
  intros B. unfold settleHeld. destruct (stateFor_kept c sid ex w B) as [K Hg]. destruct (stateFor c sid w) as [s w1].
  cbn [fst snd] in *. apply settled_kept. eapply kept_trans; [exact K|].
  by apply (release_kept _ _ now (SRefused id code)); [apply K| |].
Qed.

Lemma setHeldReason_kept c sid id r ex w : books ex w → kept c.(c_now) ex w (setHeldReason c sid id r w).
Proof.
  intros B. unfold setHeldReason. destruct (stateFor_kept c sid ex w B) as [K Hg]. destruct (stateFor c sid w) as [s w1].
  cbn [fst snd] in *. case_match; [|done]. eapply kept_trans; [exact K|].
  apply on_message_kept; [apply K|done|]. intros. apply with_reason_stands.
Qed.

Lemma local_send_books c sid f s w :
  balanced (sending sid f.(f_envelope).(e_messageId)) w → get sid w.(c_sessions) = Some s →
  drawn_by w.(c_drawn) f.(f_envelope).(e_messageId) → addressed s f → balanced nobody (local_send c sid f w).2.
Proof.
  intros B Hg Hd Had. unfold local_send. destruct (deliverToLocal_kept c f _ w (proj1 B)) as [K1 Hf].
  pose proof (kept_balanced _ _ _ _ _ B K1) as [B1 T1]. destruct K1 as [_ Q1].
  destruct (deliverToLocal c f w) as [ok w1]. cbn [fst snd] in *.
  destruct (qt_keep _ _ _ Q1 _ _ Hg) as (s1&Hg1&_&Hfew). pose proof (addressed_fewer _ _ _ _ Hfew Had) as Had1.
  destruct ok.
  - rewrite (stateFor_present _ _ _ _ Hg1). split; [|intros Hon; eapply commit_armed; [done|apply T1, Hon]]. eapply commit_books; [exact B1|exact Hg1|apply sending_ne|].
    pose proof (bk_memory _ _ B1 _ _ Hg1) as Ha. set (id := f.(f_envelope).(e_messageId)) in *.
    eapply (account_settle _ _ _ _ _ [SDelivered id] _ s1.(s_held)); [exact Ha| | | | |apply Ha].
    + intros id' Hin%list_elem_of_singleton e He Ho. injection Hin as ->. right. exists f.
      split; [by apply Hf|]. split; [|done]. symmetry. by apply Had1.
    + apply Ha.
    + intros m Hm. right. by exists m.
    + intros id'. unfold sending. rewrite decide_True by done. intros [= <-]. right. left.
      exists (SDelivered id). by rewrite list_elem_of_singleton.
  - eapply hold_books; [by split|exact Hg1| |exact Had1]. by rewrite (qt_drawn _ _ _ Q1).
Qed.

Lemma remote_send_books c sid f s w :
  balanced (sending sid f.(f_envelope).(e_messageId)) w → get sid w.(c_sessions) = Some s →
  drawn_by w.(c_drawn) f.(f_envelope).(e_messageId) → addressed s f → balanced nobody (remote_send c sid f w).2.
Proof.
  intros B Hg Hd Had. unfold remote_send. cbv zeta.
  assert (balanced nobody (hold c sid f c.(c_now) (c.(c_now) + BUS_RETRY_BASE_MS) w)) as B1 by (by eapply hold_books).
  match goal with |- context [dispatchRemote c ?x ?y] => destruct (dispatchRemote_kept c x nobody y (proj1 B1)) as [K2 _] end.
  apply (kept_balanced _ _ _ _ _ B1) in K2 as B2.
  destruct (dispatchRemote c _ _) as [[|reason|code] w2]; cbn [fst snd] in *.
  - pose proof (rungOf_kept c f.(f_envelope).(e_messageId) _ _ (proj1 B2)) as K3. apply (kept_balanced _ _ _ _ _ B2) in K3.
    by destruct (rungOf c _ w2).
  - pose proof (setHeldReason_kept c sid f.(f_envelope).(e_messageId) reason _ _ (proj1 B2)) as K3.
    apply (kept_balanced _ _ _ _ _ B2) in K3 as B3. match type of B3 with balanced _ ?w3 =>
      pose proof (rungOf_kept c f.(f_envelope).(e_messageId) _ w3 (proj1 B3)) as K4; apply (kept_balanced _ _ _ _ _ B3) in K4;
      by destruct (rungOf c _ w3) end.
  - eapply kept_balanced; [exact B2|]. apply settleHeld_kept, B2.
Qed.

(** Everything logged or held so far has a drawn id. *)
Lemma next_id_new k : Inj (=) (=) newIds → ¬ drawn_by k (newIds k).
Proof. intros Hi (j&Hj&He). apply Hi in He. lia. Qed.

Lemma drawn_more n n' id : (n ≤ n')%nat → drawn_by n id → drawn_by n' id.
Proof. intros Hn (k&Hk&->). exists k. split; [lia|done]. Qed.

Lemma draw_books ex w n : (w.(c_drawn) ≤ n)%nat → books ex w → books ex (w {{ c_drawn := n }}).
Proof.
  intros Hn [B1 B2 B3]. assert (∀ id, drawn_by w.(c_drawn) id → drawn_by n id) as Hd by (intros id; by apply drawn_more). split.
  - intros sid s Hs. eapply account_mono; [exact Hd|done|by right|by apply (B1 sid)].
  - exact B2.
  - intros p sid Hp. eapply account_mono; [exact Hd|done|by right|by apply B3].
Qed.

Lemma compose_frame_books c me i ex w : c.(c_newId) = newIds → Inj (=) (=) newIds → books ex w →
  let f := (compose_frame c me i w).1.1 in
  books ex (compose_frame c me i w).2 ∧ drawn_by (compose_frame c me i w).2.(c_drawn) f.(f_envelope).(e_messageId) ∧
  ¬ drawn_by w.(c_drawn) f.(f_envelope).(e_messageId) ∧
  (compose_frame c me i w).2.(c_sessions) = w.(c_sessions) ∧ (compose_frame c me i w).2.(c_disk) = w.(c_disk) ∧
  (compose_frame c me i w).2.(c_timer) = w.(c_timer) ∧
  (compose_frame c me i w).2.(c_heldIndex) = w.(c_heldIndex) ∧ (compose_frame c me i w).2.(c_recentSent) = w.(c_recentSent) ∧ f.(f_to) = i.(mi_to).(r_key).
Proof.
  intros Hc Hi B. unfold compose_frame, newId. rewrite Hc. destruct i.(mi_threadId) as [t|]; cbn [fst snd].
  - split; [apply draw_books; [lia|done]|]. split; [eexists; split; [|reflexivity]; cbn; lia|]. split; [by apply next_id_new|done].
  - split; [do 2 (apply draw_books; [cbn; lia|]); done|]. split; [eexists; split; [|reflexivity]; cbn; lia|].
    split; [|done]. cbn. intros Hd. eapply next_id_new; [done|]. eapply drawn_more; [|exact Hd]. lia.
Qed.

Lemma noteSent_balanced ex id sid w : balanced ex w → is_Some (get sid w.(c_sessions)) → balanced ex (noteSent id sid w).
Proof.
  intros [B A] Hs. split; [exact (let 'Build_books _ _ B1 B2 B3 := B in Build_books _ (noteSent id sid w) B1 B2 B3)|].
  intros Hon. destruct (A Hon) as [T [P1 P2]].
  split; [exact T|]. split; [exact P1|]. intros id' sid'. change (c_sessions (noteSent id sid w)) with (c_sessions w).
  assert (∀ m : jsmap string string, (∀ k, get k m = Some sid' → sid' = sid ∨ is_Some (get sid' w.(c_sessions))) →
    get id' m = Some sid' → is_Some (get sid' w.(c_sessions))) as Hm by (intros m Hm [->|H]%Hm; done).
  unfold noteSent. cbv zeta. cbn [c_recentSent]. apply Hm. intros k.
  assert (get k (JsMap.set id sid w.(c_recentSent)) = Some sid' → sid' = sid ∨ is_Some (get sid' w.(c_sessions))) as Hset.
  { rewrite get_set. case_decide; [intros [= <-]; by left|]. intros Hq. right. by eapply P2. }
  match goal with |- get k ?x = _ → _ => change x with (if RECENT_SENT_CAP <? JsMap.size (JsMap.set id sid w.(c_recentSent))
    then match oldest (JsMap.set id sid w.(c_recentSent)) with Some k => JsMap.delete k (JsMap.set id sid w.(c_recentSent)) | None => JsMap.set id sid w.(c_recentSent) end
    else JsMap.set id sid w.(c_recentSent)) end.
  case_match; [|done]. case_match; [|done]. rewrite get_delete. case_decide; [done|]. exact Hset.
Qed.

Lemma post_message_books c me i f o b w w0 s :
  balanced nobody w → get i.(mi_session) w.(c_sessions) = Some s → drawn_by w.(c_drawn) f.(f_envelope).(e_messageId) →
  books nobody w0 → w.(c_sessions) = w0.(c_sessions) → ¬ drawn_by w0.(c_drawn) f.(f_envelope).(e_messageId) →
  balanced nobody (post_message c me i f o b w).2.
Proof.
  intros [B Hpl] Hg Hd B0 Hw0 Hnew. unfold post_message. cbv zeta. rewrite (stateFor_present _ _ _ _ Hg).
  set (sid := i.(mi_session)) in *. set (id := f.(f_envelope).(e_messageId)) in *.
  match goal with |- context [commit c sid ?p w] => set (patch := p); set (w1 := commit c sid patch w) end.
  destruct (commit_present c sid patch s w Hg) as (Hs&_&Hn&He). fold w1 in Hs, Hn, He.
  pose proof (bk_memory _ _ B _ _ Hg) as Ha. assert (account_of w0 None s.(s_log) s.(s_held)) as Ha0.
  { apply (bk_memory _ _ B0 sid s). by rewrite <- Hw0. }
  assert (∀ x, x ∈ outbound_ids s.(s_log) → x ≠ id) as Hnl.
  { intros x Hx ->. by apply Hnew, (ac_drawn _ _ _ _ _ Ha0). }
  assert (balanced (sending sid id) w1) as B1.
  { split; [|intros Hon; eapply commit_armed; [done|apply Hpl, Hon]]. eapply commit_books; [exact B|exact Hg| |].
    - intros sid' Hne. symmetry. by apply sending_ne.
    - cbn. eapply account_append; [exact Ha|done|]. intros _. split; [done|]. split; [done|]. split.
      + intros Hin. by apply (Hnl id).
      + split; [unfold sending; by rewrite decide_True|]. intros m Hm Hid. apply Hnew. replace id with m.(h_messageId) by done.
        apply (ac_held _ _ _ _ _ Ha0 m Hm). }
  set (s1 := patched s patch). assert (addressed s1 f) as Had.
  { intros e Hin [Hdir Hid]. cbn in Hin. apply elem_slice_last, elem_of_app in Hin as [Hin|Hin].
    - exfalso. apply (Hnl (oid e)); [|done]. apply elem_outbound_ids. by exists e.
    - by apply list_elem_of_singleton in Hin as ->. }
  set (w2 := noteSent id sid w1). assert (balanced (sending sid id) w2) as B2 by (apply noteSent_balanced; [done|]; rewrite Hs, get_set_eq; by eexists).
  assert (get sid w2.(c_sessions) = Some s1) as Hg2 by (change (c_sessions w2) with (c_sessions w1); by rewrite Hs, get_set_eq).
  assert (drawn_by w2.(c_drawn) id) as Hd2 by (change (c_drawn w2) with (c_drawn w1); by rewrite Hn).
  assert (balanced nobody (if isLocalTarget f.(f_from) f.(f_to) then local_send c sid f w2 else remote_send c sid f w2).2) as B3.
  { case_match; [by eapply local_send_books|by eapply remote_send_books]. }
  destruct (if isLocalTarget _ _ then _ else _) as [[[rung reason] code] w3]. cbn [fst snd] in *.
  eapply kept_balanced; [exact B3|]. apply spend_kept, B3.
Qed.

Lemma message_books c i w :
  c.(c_newId) = newIds → Inj (=) (=) newIds → balanced nobody w → balanced nobody (message c i w).2.
Proof.
  intros Hc Hi B. unfold message. destruct (c_self c _) as [me|]; [|done]. cbv zeta.
  destruct (send_refusal c me _); [done|]. destruct (stateFor_kept c i.(mi_session) nobody w (proj1 B)) as [K1 Hg].
  apply (kept_balanced _ _ _ _ _ B) in K1 as B1. destruct (stateFor c _ w) as [s w1]. cbn [fst snd] in *.
  pose proof (pairBudget_kept c i.(mi_session) me.(self_key) i.(mi_to).(r_key) nobody w1 (proj1 B1)) as K2.
  apply (kept_balanced _ _ _ _ _ B1) in K2 as B2. destruct K2 as [_ Q2].
  destruct (qt_keep _ _ _ Q2 _ _ Hg) as (s2&Hg2&_). destruct (pairBudgetFor _ _ _ _ w1) as [b w2]. cbn [snd] in *.
  destruct (refusalForPair _ _ _); [done|].
  destruct (compose_frame_books c me i nobody w2 Hc Hi (proj1 B2)) as (B3&Hd&Hnew&Hs&_&Ht&Hix&Hr&_).
  destruct (compose_frame c me i w2) as [[f o] w3]. cbn [fst snd] in *. case_match.
  { split; [done|]. intros Hon. by eapply armed_same; [| | | |apply B2, Hon]. }
  assert (on → armed w3) as T3 by (intros Hon; by eapply armed_same; [| | | |apply B2, Hon]).
  pose proof (post_message_books c me i f o b w3 w2 s2 (conj B3 T3)) as B4. destruct (post_message c me i f o b w3) as [r w4].
  apply B4; auto; [by rewrite Hs|apply B2].
Qed.
End sends.
End books.
