(* ===== verification/CoordinatorPass.v ===== *)
(** * CoordinatorPass: the outbox is offered again

    A pass of [flushHeld] over one session's outbox, and [pump] over all: what
    it settles is stamped in the log, and what it leaves is young enough and
    either due later or kept back by an offer declined in that same pass. *)

From S2P Require Import Prelude JsMap Wire PairBudget BusTransport BusStores Coordinator CoordinatorLedger CoordinatorOutbox.
From coqutil Require Import Datatypes.RecordSetters.
Import DoubleBraceUpdate.

Local Open Scope Z_scope.
Local Open Scope js_scope.

Section pass.
Context (newIds : nat → string).
#[local] Abbreviation books := (CoordinatorOutbox.books newIds).
#[local] Abbreviation kept := (CoordinatorOutbox.kept newIds).
Implicit Types (c : Ctx) (w : Coord) (s : SessionState) (sid : string) (p : Pass).

(** What a pass has done so far, [s0] and [w0] being where it began and [done]
    the messages it has been through. *)
Record pass_ok (now : Z) (ex : string → option string) (s0 : SessionState) (dead done : list HeldMessage) (w0 : Coord) p w : Prop := {
  po_kept : kept now ex w0 w;
  po_delivered : ∀ id, SDelivered id ∈ p.(ps_logOps) →
    ∃ m, m ∈ s0.(s_held) ∧ m.(h_messageId) = id ∧ CFolded m.(h_frame) ∈ w.(c_effects);
  po_gone : ∀ id, id ∈ p.(ps_gone) → ∃ op, op ∈ p.(ps_logOps) ∧ stamp_id op = id;
  po_dead : ∀ m, m ∈ dead → m.(h_messageId) ∈ p.(ps_gone);
  po_updates : ∀ id u, p.(ps_updates) !! id = Some u →
    0 <= u.(u_attempts) ∧ now < u.(u_nextAttemptAt) <= now + BUS_RELAYED_RESEND_MS;
  po_blocked : ∀ machine, machine ∈ p.(ps_blocked) →
    ∃ x r, since w0 w (COffered x (NotSent r)) ∧ x.(x_to).(k_machine) = machine;
  po_done : ∀ m, m ∈ done → m.(h_messageId) ∈ p.(ps_gone) ∨ is_Some (p.(ps_updates) !! m.(h_messageId)) ∨
    now < m.(h_nextAttemptAt) ∨ m.(h_to).(k_machine) ∈ p.(ps_blocked);
}.

Lemma elem_set_add id x l : id ∈ set_add x l ↔ id = x ∨ id ∈ l.
Proof. unfold set_add. case_decide; [|rewrite elem_of_app, list_elem_of_singleton; tauto]. naive_solver. Qed.

Lemma elem_set_adds id ids l : id ∈ foldl (λ l x, set_add x l) l ids ↔ id ∈ ids ∨ id ∈ l.
Proof.
  revert l. induction ids as [|x ids IH]; intros l; simpl; [set_solver|]. rewrite IH, elem_set_add, elem_of_cons. tauto.
Qed.

Lemma backoff_bounds m attempts : 1 <= attempts → 0 < backoff m attempts <= BUS_RELAYED_RESEND_MS.
Proof.
  intros Ha. unfold backoff, BUS_RETRY_BASE_MS, BUS_RETRY_MAX_MS, BUS_RELAYED_RESEND_MS. case_match; [lia|].
  pose proof (Z.pow_pos_nonneg 2 (attempts - 1)). lia.
Qed.

(** A step that only adds to the trace and the books. *)
Lemma pass_later now ex s0 dead done w0 p w w' :
  pass_ok now ex s0 dead done w0 p w → kept now ex w w' → pass_ok now ex s0 dead done w0 p w'.
Proof.
  intros [K D G De U B Do] K'. split; auto.
  - by eapply kept_trans.
  - intros id Hid. destruct (D id Hid) as (m&?&?&?). exists m. split; [done|]. split; [done|]. by eapply told; [apply K'|].
  - intros machine Hm. destruct (B machine Hm) as (x&r&Hx&?). exists x, r. split; [|done]. eapply since_after; [done|apply K'].
Qed.

Lemma pass_gone now ex s0 dead done w0 p w m op :
  pass_ok now ex s0 dead done w0 p w → stamp_id op = m.(h_messageId) →
  (∀ id, op = SDelivered id → m ∈ s0.(s_held) ∧ CFolded m.(h_frame) ∈ w.(c_effects)) →
  pass_ok now ex s0 dead (done ++ [m]) w0 (note_gone op m.(h_messageId) p) w.
Proof.
  intros [K D G De U B Do] Hop Hd. split; auto; cbn [note_gone ps_logOps ps_gone ps_updates ps_blocked].
  - intros id [Hid|Hid]%elem_of_app; [by apply D|]. apply list_elem_of_singleton in Hid. symmetry in Hid.
    exists m. destruct (Hd id Hid). subst op. done.
  - intros id [->|Hid]%elem_set_add.
    + exists op. split; [|done]. apply elem_of_app. right. apply list_elem_of_here.
    + destruct (G id Hid) as (op'&?&?). exists op'. split; [|done]. by apply elem_snoc_l.
  - intros x Hx. apply elem_set_add. right. by apply De.
  - intros x [Hx|Hx]%elem_of_app.
    + destruct (Do x Hx) as [H|H]; [left; by apply elem_set_add; right|by right].
    + apply list_elem_of_singleton in Hx as ->. left. apply elem_set_add. by left.
Qed.

Lemma pass_update now ex s0 dead done w0 p w m u :
  pass_ok now ex s0 dead done w0 p w → 0 <= u.(u_attempts) ∧ now < u.(u_nextAttemptAt) <= now + BUS_RELAYED_RESEND_MS →
  pass_ok now ex s0 dead (done ++ [m]) w0 (note_update m.(h_messageId) u p) w.
Proof.
  intros [K D G De U B Do] Hu. split; auto; cbn [note_update ps_logOps ps_gone ps_updates ps_blocked].
  - intros id u'. destruct (decide (id = m.(h_messageId))) as [->|Hne]; [rewrite lookup_insert_eq; by intros [= <-]|].
    rewrite lookup_insert_ne by done. by apply U.
  - intros x [Hx|Hx]%elem_of_app.
    + destruct (Do x Hx) as [H|[H|H]]; [by left| |by right; right]. right. left.
      destruct (decide (x.(h_messageId) = m.(h_messageId))) as [->|Hne]; [by rewrite lookup_insert_eq|by rewrite lookup_insert_ne].
    + apply list_elem_of_singleton in Hx as ->. right. left. by rewrite lookup_insert_eq.
Qed.

Lemma pass_blocked now ex s0 dead done w0 p w x r :
  pass_ok now ex s0 dead done w0 p w → since w0 w (COffered x (NotSent r)) →
  pass_ok now ex s0 dead done w0 (note_blocked x.(x_to).(k_machine) p) w.
Proof.
  intros [K D G De U B Do] Hs. split; auto; cbn [note_blocked ps_logOps ps_gone ps_updates ps_blocked].
  - intros machine [->%elem_of_singleton|Hm]%elem_of_union; [by exists x, r|by apply B].
  - intros y Hy. destruct (Do y Hy) as [H|[H|[H|H]]]; auto. right. right. right. set_solver.
Qed.

Lemma pass_skip now ex s0 dead done w0 p w m :
  pass_ok now ex s0 dead done w0 p w → now < m.(h_nextAttemptAt) ∨ m.(h_to).(k_machine) ∈ p.(ps_blocked) →
  pass_ok now ex s0 dead (done ++ [m]) w0 p w.
Proof.
  intros [K D G De U B Do] Hm. split; auto. intros x [Hx|Hx]%elem_of_app; [by apply Do|].
  apply list_elem_of_singleton in Hx as ->. auto.
Qed.

Lemma offer_ok c ex s0 dead done w0 p w m :
  pass_ok c.(c_now) ex s0 dead done w0 p w → m ∈ s0.(s_held) → 0 <= m.(h_attempts) →
  pass_ok c.(c_now) ex s0 dead (done ++ [m]) w0 (offer c c.(c_now) (p, w) m).1 (offer c c.(c_now) (p, w) m).2.
Proof.
  intros Hp Hm Hat. unfold offer. cbv zeta. case_match eqn:Hskip.
  { apply pass_skip; [done|]. apply orb_true_iff in Hskip as [H|H]; reflect_bools; auto. }
  destruct (po_kept _ _ _ _ _ _ _ _ Hp) as [B _]. case_match.
  - destruct (deliverToLocal_kept newIds c m.(h_frame) ex w B) as [K Hf]. apply (pass_later _ _ _ _ _ _ _ _ _ Hp) in K as Hp1.
    destruct (deliverToLocal c m.(h_frame) w) as [[] w1]; cbn [fst snd] in *.
    + apply pass_gone; auto.
    + apply pass_update; [done|]. cbn. unfold BUS_RETRY_BASE_MS, BUS_RELAYED_RESEND_MS. lia.
  - match goal with |- context [dispatchRemote c ?x w] => set (off := x) end.
    destruct (dispatchRemote_kept newIds c off ex w B) as [K Hs]. apply (pass_later _ _ _ _ _ _ _ _ _ Hp) in K as Hp1.
    pose proof (since_before _ _ _ _ _ (proj2 (po_kept _ _ _ _ _ _ _ _ Hp)) Hs) as Hs0.
    pose proof (backoff_bounds m (m.(h_attempts) + 1) ltac:(lia)).
    destruct (dispatchRemote c off w) as [[|r|code] w1]; cbn [fst snd] in *.
    + apply pass_update; [done|]. cbn. lia.
    + change m.(h_to) with off.(x_to). apply pass_update; [|cbn; lia]. by eapply pass_blocked.
    + by apply pass_gone.
Qed.

Lemma offers_ok c ex s0 dead w0 l : ∀ done p w,
  pass_ok c.(c_now) ex s0 dead done w0 p w → (∀ m, m ∈ l → m ∈ s0.(s_held) ∧ 0 <= m.(h_attempts)) →
  pass_ok c.(c_now) ex s0 dead (done ++ l) w0 (foldl (offer c c.(c_now)) (p, w) l).1 (foldl (offer c c.(c_now)) (p, w) l).2.
Proof.
  induction l as [|m l IH]; intros done p w Hp Hl; [by rewrite app_nil_r|].
  destruct (Hl m) as [Hm Hat]; [apply list_elem_of_here|]. pose proof (offer_ok c ex s0 dead done w0 p w m Hp Hm Hat) as H1.
  cbn [foldl]. destruct (offer c c.(c_now) (p, w) m) as [p1 w1]. cbn [fst snd] in H1.
  specialize (IH _ _ _ H1). rewrite <- app_assoc in IH. apply IH. intros x Hx. apply Hl. by apply list_elem_of_further.
Qed.

Lemma updated_stands now u m : 0 <= u.(u_attempts) → now < u.(u_nextAttemptAt) <= now + BUS_RELAYED_RESEND_MS → stands now m (updated u m).
Proof. intros H1 H2. split; [by repeat split|by right]. Qed.

Lemma after_pass_elem now p held m' :
  (∀ id u, p.(ps_updates) !! id = Some u → 0 <= u.(u_attempts) ∧ now < u.(u_nextAttemptAt) <= now + BUS_RELAYED_RESEND_MS) →
  m' ∈ after_pass p held → ∃ m, m ∈ held ∧ (m.(h_messageId) ∉ p.(ps_gone)) ∧ stands now m m' ∧
    (is_Some (p.(ps_updates) !! m.(h_messageId)) → now < m'.(h_nextAttemptAt)).
Proof.
  intros U Hm. unfold after_pass in Hm. apply list_elem_of_fmap in Hm as (m&->&Hm). apply list_elem_of_filter in Hm as [Hg Hm].
  exists m. split; [done|]. split; [done|]. destruct (p.(ps_updates) !! h_messageId m) as [u|] eqn:Hu; [|by split; [|intros [? ?]]].
  destruct (U _ _ Hu). split; [by apply updated_stands|]. intros _. cbn. lia.
Qed.

Lemma after_pass_same p held : length (after_pass p held) = length held → p.(ps_updates) = ∅ → after_pass p held = held.
Proof.
  unfold after_pass. intros Hl Hu. rewrite length_fmap in Hl. rewrite Hu.
  assert (∀ l : list HeldMessage, (λ m, match (∅ : gmap string Update) !! m.(h_messageId) with Some u => updated u m | None => m end) <$> l = l) as Hid.
  { intros l. rewrite <- (list_fmap_id l) at 2. apply list_fmap_ext. intros i x _. by rewrite lookup_empty. }
  rewrite Hid. induction held as [|m held IH]; [done|]. rewrite filter_cons in *. case_decide.
  - simpl in Hl. f_equal. apply IH. lia.
  - simpl in Hl. pose proof (length_filter (λ m, m.(h_messageId) ∉ p.(ps_gone)) held). lia.
Qed.

(** The session the pass leaves, before waiters are told. *)
Definition settled_state now p s : SessionState := {|
  s_log := foldl (apply_stamp now) s.(s_log) p.(ps_logOps); s_held := after_pass p s.(s_held);
  s_mailbox := s.(s_mailbox); s_threads := s.(s_threads); s_projectId := s.(s_projectId) |}.

Definition pass_patch now p s : Patch :=
  let held := after_pass p s.(s_held) in
  let log := foldl (apply_stamp now) s.(s_log) p.(ps_logOps) in
  {| pt_held := if negb (bool_decide (length held = length s.(s_held))) || negb (bool_decide (p.(ps_updates) = ∅))
                then Some held else None;
     pt_log := if bool_decide (log = s.(s_log)) then None else Some log; pt_mailbox := None; pt_threads := None |}.

Lemma pass_patch_state now p s : patched s (pass_patch now p s) = settled_state now p s.
Proof.
  unfold patched, pass_patch, settled_state. cbv zeta. cbn [pt_held pt_log pt_mailbox pt_threads default]. f_equal.
  - by case_bool_decide.
  - destruct (decide (length (after_pass p (s_held s)) = length (s_held s))) as [H|H]; [|by rewrite bool_decide_eq_false_2].
    rewrite (bool_decide_eq_true_2 _ H). case_bool_decide; [|done]. cbn. symmetry. by apply after_pass_same.
Qed.

Lemma finish_pass_unfold c sid now p s w : get sid w.(c_sessions) = Some s →
  finish_pass c sid now p w = settle_all c p.(ps_gone)
    (if given (pass_patch now p s).(pt_held) || given (pass_patch now p s).(pt_log) then commit c sid (pass_patch now p s) w else w).
Proof. intros Hg. unfold finish_pass. by rewrite (stateFor_present _ _ _ _ Hg). Qed.

Lemma pass_account c ex sid s0 dead done w0 p w s :
  books ex w0 → get sid w0.(c_sessions) = Some s0 → get sid w.(c_sessions) = Some s → fewer c.(c_now) s0 s →
  pass_ok c.(c_now) ex s0 dead done w0 p w →
  account_of newIds w (ex sid) (settled_state c.(c_now) p s).(s_log) (settled_state c.(c_now) p s).(s_held) ∧
  fewer c.(c_now) s (settled_state c.(c_now) p s).
Proof.
  intros B0 Hg0 Hg [Hout Hheld] Hp. destruct (po_kept _ _ _ _ _ _ _ _ Hp) as [B _].
  pose proof (bk_memory _ _ _ B _ _ Hg) as Ha. pose proof (bk_memory _ _ _ B0 _ _ Hg0) as Ha0. split.
  - cbn. eapply account_settle; [exact Ha| | | |by left|].
    + intros id Hin e He [Hdir Hid]. destruct (po_delivered _ _ _ _ _ _ _ _ Hp id Hin) as (m&Hm&Hmid&Hf).
      destruct (ac_held _ _ _ _ _ Ha0 m Hm) as [_ Hto Hfid _ Hpeer]. right. exists m.(h_frame). split; [done|].
      destruct (Hout e He Hdir) as (e0&He0&Ho0&Hoid&->). split; [|congruence]. rewrite Hto. symmetry. apply Hpeer; [done|].
      split; [done|]. unfold oid in Hoid. congruence.
    + intros m' Hm'. destruct (after_pass_elem _ _ _ _ (po_updates _ _ _ _ _ _ _ _ Hp) Hm') as (m&Hm&_&[Hal _]&_).
      eapply holdable_alike; [done|]. by apply Ha.
    + intros m Hm. destruct (decide (m.(h_messageId) ∈ p.(ps_gone))) as [Hin|Hnin].
      * left. by apply (po_gone _ _ _ _ _ _ _ _ Hp).
      * right. eexists. split.
        { unfold after_pass. apply list_elem_of_fmap. exists m. split; [reflexivity|]. by apply list_elem_of_filter. }
        by destruct (p.(ps_updates) !! h_messageId m).
    + unfold after_pass. rewrite length_fmap. etrans; [apply length_filter|]. apply Ha.
  - split; cbn.
    + apply outgoing_stamps, Ha.
    + intros m' Hm'. destruct (after_pass_elem _ _ _ _ (po_updates _ _ _ _ _ _ _ _ Hp) Hm') as (m&Hm&_&Hst&_). by exists m.
Qed.

(** What [flushHeld] leaves of a session's outbox. *)
Definition flushed c w0 w s0 s' : Prop := ∀ m', m' ∈ s'.(s_held) → ∃ m, m ∈ s0.(s_held) ∧ stands c.(c_now) m m' ∧
  held_fresh c.(c_now) m ∧
  (c.(c_now) < m'.(h_nextAttemptAt) ∨
   ∃ x r, since w0 w (COffered x (NotSent r)) ∧ x.(x_to).(k_machine) = m'.(h_to).(k_machine)).

Lemma flushed_later c w0 w w' s0 s s' :
  flushed c w0 w s0 s → quiet c.(c_now) w w' → fewer c.(c_now) s s' → flushed c w0 w' s0 s'.
Proof.
  intros Hf Q [_ Hh] m' Hm'. destruct (Hh m' Hm') as (m1&Hm1&[Hal Hpa]). destruct (Hf m1 Hm1) as (m&Hm&Hst&Hfr&Hwhy).
  exists m. split; [done|]. split; [etrans; [done|by split]|]. split; [done|]. destruct Hwhy as [Hn|(x&r&Hx&Hto)].
  - left. destruct Hpa as [->|[? ?]]; done.
  - right. exists x, r. split; [by eapply since_after|]. destruct Hal as (_&->&_). done.
Qed.

Lemma flushHeld_ok c sid ex w : books ex w →
  kept c.(c_now) ex w (flushHeld c sid c.(c_now) w) ∧
  ∃ s s', (∀ s0, get sid w.(c_sessions) = Some s0 → s = s0) ∧ get sid (flushHeld c sid c.(c_now) w).(c_sessions) = Some s' ∧
    flushed c w (flushHeld c sid c.(c_now) w) s s'.
Proof.
  intros B. unfold flushHeld. destruct (stateFor_kept newIds c sid ex w B) as [K Hg].
  assert (∀ s0, get sid w.(c_sessions) = Some s0 → (stateFor c sid w).1 = s0) as Hsame.
  { intros s0 Hs0. by rewrite (stateFor_present _ _ _ _ Hs0). }
  destruct (stateFor c sid w) as [s w1]. cbn [fst snd] in *. unfold expireHeld.
  set (live := filter (held_fresh c.(c_now)) s.(s_held)). set (dead := filter (λ m, ¬ held_fresh c.(c_now) m) s.(s_held)).
  pose proof (proj1 K) as B1. pose proof (bk_memory _ _ _ B1 _ _ Hg) as Ha.
  assert (pass_ok c.(c_now) ex s dead [] w1 (started_pass dead) w1) as P0.
  { split; cbn [started_pass ps_logOps ps_gone ps_updates ps_blocked].
    - by apply kept_refl.
    - intros id Hin. by apply list_elem_of_fmap in Hin as (?&?&_).
    - intros id [Hin|Hin]%elem_set_adds; [|by apply not_elem_of_nil in Hin]. apply list_elem_of_fmap in Hin as (m&->&Hm).
      exists (SRefused m.(h_messageId) "EXPIRED"). split; [|done]. apply list_elem_of_fmap. by exists m.
    - intros m Hm. apply elem_set_adds. left. by apply list_elem_of_fmap_2.
    - intros id u. by rewrite lookup_empty.
    - intros machine Hm. set_solver.
    - intros m Hm. by apply not_elem_of_nil in Hm. }
  pose proof (offers_ok c ex s dead w1 live [] _ _ P0) as Hp. change ([] ++ live) with live in Hp.
  destruct (foldl (offer c c.(c_now)) (started_pass dead, w1) live) as [p w2]. cbn [fst snd] in Hp.
  assert (pass_ok c.(c_now) ex s dead live w1 p w2) as Hok.
  { apply Hp. intros m Hm. apply list_elem_of_filter in Hm as [_ Hm]. split; [done|]. apply (ac_held _ _ _ _ _ Ha m Hm). }
  clear Hp P0. destruct (po_kept _ _ _ _ _ _ _ _ Hok) as [B2 Q2]. destruct (qt_keep _ _ _ Q2 _ _ Hg) as (s2&Hg2&Hpr&Hfew).
  rewrite (finish_pass_unfold _ _ _ _ _ _ Hg2).
  destruct (pass_account c ex sid s dead live w1 p w2 s2 B1 Hg Hg2 Hfew Hok) as [Ha3 Hf3].
  match goal with |- context [settle_all c _ ?y] => set (w3 := y) end.
  assert (kept c.(c_now) ex w2 w3 ∧ get sid w3.(c_sessions) = Some (settled_state c.(c_now) p s2)) as [K3 Hg3].
  { subst w3. case_match eqn:Hch.
    - split; [eapply commit_kept; try done; by rewrite pass_patch_state|].
      destruct (commit_present c sid (pass_patch c.(c_now) p s2) s2 w2 Hg2) as (->&_). by rewrite get_set_eq, pass_patch_state.
    - split; [by apply kept_refl|]. rewrite Hg2. f_equal. rewrite <- pass_patch_state.
      apply orb_false_iff in Hch as [H1 H2]. unfold patched. unfold given in *. reflect_bools.
      destruct (pt_held _); [by destruct H1|]. destruct (pt_log _); [by destruct H2|]. by destruct s2. }
  pose proof (settle_all_kept newIds c p.(ps_gone) ex w3 (proj1 K3)) as K4. set (w4 := settle_all c p.(ps_gone) w3) in *.
  split.
  { eapply kept_trans; [exact K|]. eapply kept_trans; [split; [exact B2|exact Q2]|]. by eapply kept_trans. }
  destruct (qt_keep _ _ _ (proj2 K4) _ _ Hg3) as (s4&Hg4&_&Hf4). exists s, s4. split; [done|]. split; [done|].
  eapply flushed_later; [|exact (proj2 K4)|exact Hf4].
  intros m' Hm'. cbn in Hm'. destruct (after_pass_elem _ _ _ _ (po_updates _ _ _ _ _ _ _ _ Hok) Hm') as (m2&Hm2&Hng&Hst&Hup).
  destruct Hfew as [_ Hh]. destruct (Hh m2 Hm2) as (m&Hm&[Hal Hpa]). pose proof Hal as (Hid&Hto&_). rewrite Hid in *.
  assert (held_fresh c.(c_now) m) as Hfr.
  { destruct (decide (held_fresh c.(c_now) m)); [done|]. destruct Hng. apply (po_dead _ _ _ _ _ _ _ _ Hok). by apply list_elem_of_filter. }
  exists m. split; [done|]. split; [etrans; [by split|done]|]. split; [done|].
  destruct (po_done _ _ _ _ _ _ _ _ Hok m) as [H|[H|[H|H]]]; [by apply list_elem_of_filter|done|left; auto| |].
  - left. destruct Hst as [_ [->|[? ?]]]; [|done]. destruct Hpa as [->|[? ?]]; done.
  - right. destruct (po_blocked _ _ _ _ _ _ _ _ Hok _ H) as (x&r&Hx&Hxt). exists x, r. split.
    + eapply since_before; [exact (proj2 K)|]. eapply since_after; [exact Hx|]. exact (proj2 K3).
    + destruct Hst as [(_&Hto'&_) _]. congruence.
Qed.

(** ** All sessions *)

Lemma flushed_earlier c w0 w1 w s0 s1 s' : quiet c.(c_now) w0 w1 → fewer c.(c_now) s0 s1 → flushed c w1 w s1 s' → flushed c w0 w s0 s'.
Proof.
  intros Q [_ Hh] Hf m' Hm'. destruct (Hf m' Hm') as (m1&Hm1&Hst&Hfr&Hwhy). destruct (Hh m1 Hm1) as (m&Hm&Hst0).
  exists m. split; [done|]. split; [by etrans|]. split.
  - destruct Hst0 as [(_&_&_&Hat&_) _]. unfold held_fresh in *. by rewrite <- Hat.
  - destruct Hwhy as [Hn|(x&r&Hx&Hto)]; [by left|]. right. exists x, r. split; [by eapply since_before|done].
Qed.

Lemma flush_all_ok c ex l : ∀ w, books ex w →
  let w' := foldl (λ w sid, flushHeld c sid c.(c_now) w) w l in
  kept c.(c_now) ex w w' ∧ ∀ sid s0, sid ∈ l → get sid w.(c_sessions) = Some s0 →
    ∃ s', get sid w'.(c_sessions) = Some s' ∧ flushed c w w' s0 s'.
Proof.
  induction l as [|sid l IH]; intros w B; simpl.
  { split; [by apply kept_refl|]. intros sid s0 Hin. by apply not_elem_of_nil in Hin. }
  destruct (flushHeld_ok c sid ex w B) as [K1 (s&s1&Hs&Hg1&Hf1)]. set (w1 := flushHeld c sid c.(c_now) w) in *.
  destruct (IH w1 (proj1 K1)) as [K2 Hrest]. split; [by eapply kept_trans|].
  intros sid' s0 [->|Hin]%elem_of_cons Hg.
  - rewrite (Hs _ Hg) in Hf1. destruct (qt_keep _ _ _ (proj2 K2) _ _ Hg1) as (s2&Hg2&_&Hf2). exists s2. split; [done|].
    by eapply flushed_later; [|exact (proj2 K2)|].
  - destruct (qt_keep _ _ _ (proj2 K1) _ _ Hg) as (s2&Hg2&_&Hf2). destruct (Hrest sid' s2 Hin Hg2) as (s3&Hg3&Hf3).
    exists s3. split; [done|]. by eapply flushed_earlier; [exact (proj2 K1)| |].
Qed.

(** Telling waiters loads nothing where all sessions asked about are loaded. *)
Lemma rungOf_placed c id w : placed w → (rungOf c id w).2 = w.
Proof.
  intros [P1 P2]. unfold rungOf, session_of. destruct (w.(c_heldIndex) !! id) as [sid|] eqn:Hi.
  - destruct (P1 _ _ Hi) as [s Hs]. by rewrite (stateFor_present _ _ _ _ Hs).
  - destruct (get id w.(c_recentSent)) as [sid|] eqn:Hr; [|done].
    destruct (P2 _ _ Hr) as [s Hs]. by rewrite (stateFor_present _ _ _ _ Hs).
Qed.

Lemma resolve_waiter_placed c id n w : placed w →
  (resolve_waiter c id n w).(c_sessions) = w.(c_sessions) ∧ placed (resolve_waiter c id n w).
Proof.
  intros P. unfold resolve_waiter. cbv zeta. match goal with |- context [rungOf c id ?x] => set (w1 := x) end.
  assert (placed w1) as P1 by exact P. pose proof (rungOf_placed c id w1 P1) as Hr. destruct (rungOf c id w1) as [r w2].
  cbn [snd] in Hr. subst w2. by split.
Qed.

Lemma settle_all_placed c ids : ∀ w, placed w → (settle_all c ids w).(c_sessions) = w.(c_sessions) ∧ placed (settle_all c ids w).
Proof.
  assert (∀ id l w, placed w → let w' := foldl (λ w n, resolve_waiter c id n w) w l in w'.(c_sessions) = w.(c_sessions) ∧ placed w') as H1.
  { intros id l. induction l as [|n l IH]; intros w P; [done|]. simpl. destruct (resolve_waiter_placed c id n w P) as [Hs P1].
    destruct (IH _ P1) as [Hs' P']. split; [congruence|done]. }
  induction ids as [|id ids IH]; intros w P; [done|]. simpl. destruct (H1 id (get id w.(c_waiters) ?| []) w P) as [Hs P1].
  destruct (IH _ P1) as [Hs' P']. split; [etrans; [exact Hs'|exact Hs]|done].
Qed.

Lemma stop_books c ex w : books ex w → books ex (stop c w) ∧ quiet c.(c_now) w (settle_all c (keys w.(c_waiters)) w).
Proof.
  intros B. destruct (settle_all_kept newIds c (keys w.(c_waiters)) ex w B) as [B1 Q]. split; [|done].
  by apply (books_same newIds ex (settle_all c (keys w.(c_waiters)) w) (stop c w)).
Qed.

Lemma pump_ok c ex w : books ex w →
  kept c.(c_now) ex w (pump c w) ∧ ∀ sid s0, get sid w.(c_sessions) = Some s0 →
    ∃ s', get sid (pump c w).(c_sessions) = Some s' ∧ flushed c w (pump c w) s0 s'.
Proof.
  intros B. unfold pump. destruct (flush_all_ok c ex (keys w.(c_sessions)) w B) as [K1 H1]. cbv zeta in *.
  set (w1 := foldl _ w _) in *. pose proof (proj1 K1) as B1.
  assert (kept c.(c_now) ex w1 (if w1.(c_timer) && negb (anyPending w1) then stop c w1 else w1)) as K2.
  { case_match eqn:Hst; [|by apply kept_refl]. apply andb_true_iff in Hst as [_ Hp]. apply negb_true_iff in Hp.
    destruct (stop_books c ex w1 B1) as [B2 [Q1 Q2 Q3 Q4]]. split; [done|]. split; [exact Q1|exact Q2| |exact Q4].
    intros [_ P]. destruct (settle_all_placed c (keys w1.(c_waiters)) w1 P) as [Hs P2].
    split; [|exact P2]. intros Hpend. exfalso. unfold anyPending in *. change (c_sessions (stop c w1)) with
      (c_sessions (settle_all c (keys w1.(c_waiters)) w1)) in Hpend. rewrite Hs in Hpend. congruence. }
  split; [by eapply kept_trans|]. intros sid s0 Hg. destruct (H1 sid s0) as (s1&Hg1&Hf1); [by eapply get_Some_keys|done|].
  destruct (qt_keep _ _ _ (proj2 K2) _ _ Hg1) as (s2&Hg2&_&Hf2). exists s2. split; [done|].
  by eapply flushed_later; [|exact (proj2 K2)|].
Qed.
End pass.
