(* ===== verification/CoordinatorRuns.v ===== *)
(** * CoordinatorRuns: every message sent is accounted for

    The books of CoordinatorOutbox.v hold in every run of the coordinator, from
    an empty database, over any number of restarts; what that means for the
    messages, for the timer's passes, and for the sends that are refused. *)

From S2P Require Import Prelude JsMap Wire PairBudget BusTransport BusStores Coordinator CoordinatorLedger CoordinatorOutbox CoordinatorPass.
From coqutil Require Import Datatypes.RecordSetters.
Import DoubleBraceUpdate.

Local Open Scope Z_scope.
Local Open Scope js_scope.

Section runs.
Context (newIds : nat → string) (Hinj : Inj (=) (=) newIds).
#[local] Abbreviation books := (CoordinatorOutbox.books newIds nobody).
#[local] Abbreviation kept := (CoordinatorOutbox.kept newIds).
Implicit Types (c : Ctx) (w : Coord) (s : SessionState) (sid : string).

(** ** Loading, forgetting, making due *)

Lemma forget_held_books c m w : books w → books (forget_held c w m).
Proof. intros B. unfold forget_held. apply settleWaiters_kept. by apply (books_same newIds nobody w). Qed.

Lemma unload_books w sid : books w → books (w {{ c_sessions := JsMap.delete sid w.(c_sessions) }}).
Proof.
  intros [B1 B2 B3]. split; cbn [c_sessions].
  - intros sid' s. change (c_sessions (w {{ c_sessions := JsMap.delete sid w.(c_sessions) }})) with (JsMap.delete sid w.(c_sessions)).
    rewrite get_delete. case_decide; [done|]. apply B1.
  - intros sid' s p. change (c_sessions (w {{ c_sessions := JsMap.delete sid w.(c_sessions) }})) with (JsMap.delete sid w.(c_sessions)).
    rewrite get_delete. case_decide; [done|]. apply B2.
  - intros p sid' Hp. destruct (get sid' w.(c_sessions)) as [s|] eqn:Hs.
    + destruct (decide (s.(s_projectId) = Some p)) as [Hpr|Hpr].
      * destruct (B2 _ _ _ Hs Hpr) as [Hl Hh]. change (rows_of (w {{ c_sessions := JsMap.delete sid w.(c_sessions) }}) p sid') with (rows_of w p sid').
        rewrite Hl, Hh. exact (B1 _ _ Hs).
      * apply B3. intros (s'&Hs'&Hp'). congruence.
    + apply B3. intros (s'&Hs'&_). congruence.
Qed.

Lemma forget_books c sid w : books w → books (forget c sid w).
Proof.
  intros B. unfold forget. cbv zeta. apply unload_books. destruct (get sid w.(c_sessions)) as [s|]; [|done].
  generalize (s_held s). intros l. revert w B. induction l as [|m l IH]; intros w B; [done|]. simpl. by apply IH, forget_held_books.
Qed.

Lemma forgetProject_books c p w : books w → books (forgetProjectStates c p w).
Proof.
  unfold forgetProjectStates. generalize (keys w.(c_sessions)). intros l. revert w.
  induction l as [|sid l IH]; intros w B; [done|]. simpl. apply IH. case_bool_decide; [by apply forget_books|done].
Qed.

Lemma made_due_alike machine m : alike m (made_due machine m).
Proof. unfold made_due. repeat case_match; by repeat split. Qed.

Lemma make_due_books c machine sid w : books w → books (make_due c machine sid w).
Proof.
  intros B. unfold make_due. destruct (get sid w.(c_sessions)) as [s|] eqn:Hg; [|done]. cbv zeta.
  case_bool_decide; [done|]. pose proof (bk_memory _ _ _ B _ _ Hg) as Ha.
  eapply commit_books; [exact B|exact Hg|done|]. cbn. eapply account_rehold; [exact Ha| | |].
  - intros m' Hm'. apply list_elem_of_fmap in Hm' as (m&->&Hm). exists m. split; [done|apply made_due_alike].
  - intros m Hm. eexists. split; [by apply list_elem_of_fmap_2|apply made_due_alike].
  - rewrite length_fmap. apply Ha.
Qed.

Lemma make_due_armed c machine sid w : armed w → armed (make_due c machine sid w).
Proof.
  intros A. unfold make_due. destruct (get sid w.(c_sessions)) as [s|] eqn:Hg; [|done]. cbv zeta.
  case_bool_decide; [done|]. eapply commit_armed; [done|apply A].
Qed.

Lemma foldl_inv {A B} (P : B → Prop) (f : B → A → B) l b : (∀ x b, P b → P (f b x)) → P b → P (foldl f b l).
Proof. intros Hf. revert b. induction l as [|x l IH]; intros b Hb; [done|]. simpl. by apply IH, Hf. Qed.

Lemma retryNow_books c machine w : books w → books (retryNow c machine w).
Proof.
  intros B. unfold retryNow. apply (pump_ok newIds). apply foldl_inv; [|done]. intros. by apply make_due_books.
Qed.

Lemma retryNow_armed c machine w : books w → armed w → armed (retryNow c machine w).
Proof.
  intros B A. unfold retryNow. set (w1 := foldl _ w _).
  assert (books w1 ∧ armed w1) as [B1 A1].
  { apply (foldl_inv (λ w, books w ∧ armed w)); [|by split]. intros sid w' [B' A']. split; [by apply make_due_books|by apply make_due_armed]. }
  by apply (qt_armed _ _ _ (proj2 (proj1 (pump_ok newIds c nobody w1 B1)))).
Qed.

(** A commit of stores the books do not speak of. *)
Lemma commit_other c sid s p w : books w → get sid w.(c_sessions) = Some s → p.(pt_log) = None → p.(pt_held) = None →
  kept c.(c_now) nobody w (commit c sid p w).
Proof.
  intros B Hg Hl Hh. assert ((patched s p).(s_log) = s.(s_log) ∧ (patched s p).(s_held) = s.(s_held)) as [El Eh].
  { unfold patched. by rewrite Hl, Hh. }
  eapply commit_kept; [exact B|exact Hg|done| |].
  - rewrite El, Eh. exact (bk_memory _ _ _ B _ _ Hg).
  - split; [rewrite El; apply outgoing_refl|]. rewrite Eh. intros m Hm. by exists m.
Qed.

Lemma reading_kept c w (call : CoordCall) : books w →
  match call with
  | AwaitRung _ | RungTimeout _ _ | Load _ | Resume | SetListener _ _ | AskPair _ _ _ | Messages _ | Mailbox _ | Threads _
  | MarkRead _ _ | ClearHalt _ => kept c.(c_now) nobody w (coord_call c call w)
  | _ => True
  end.
Proof.
  intros B. pose proof (λ sid, stateFor_kept newIds c sid nobody w B) as Hst.
  destruct call as [| | | | |id|id n|sid| | | | |p on|sid to v|sid|sid|sid|sid ids|sid]; try done; simpl.
  - pose proof (rungOf_kept newIds c id nobody w B) as K. unfold awaitRung. destruct (rungOf c id w) as [r w1]. cbn [snd] in K.
    destruct (rr_rung r); try done. eapply kept_trans; [exact K|]. apply kept_same; try done. apply K.
  - unfold rung_timeout. case_bool_decide; [by apply resolve_waiter_kept|by apply kept_refl].
  - destruct (Hst sid) as [K _]. unfold load. destruct K as [B1 Q]. eapply ensureTimer_kept; [exact B1|apply Q..|].
    intros A. by apply (qt_armed _ _ _ Q).
  - apply foldl_kept; [|done]. intros [p sid] w' B'. case_bool_decide; [by apply stateFor_kept|by apply kept_refl].
  - by apply kept_same.
  - unfold pairRefusal. destruct (c_self c sid) as [me|]; [|by apply kept_refl].
    pose proof (pairBudget_kept newIds c sid me.(self_key) to nobody w B) as K. by destruct (pairBudgetFor c sid _ to w).
  - destruct (Hst sid) as [K _]. unfold messages. by destruct (stateFor c sid w).
  - destruct (Hst sid) as [K Hg]. unfold mailbox. destruct (stateFor c sid w) as [s w1]. cbn [fst snd] in *.
    case_bool_decide; [done|]. eapply kept_trans; [exact K|]. by eapply commit_other; [apply K|exact Hg| |].
  - destruct (Hst sid) as [K Hg]. unfold threads. destruct (stateFor c sid w) as [s w1]. cbn [fst snd] in *.
    case_bool_decide; [done|]. eapply kept_trans; [exact K|]. by eapply commit_other; [apply K|exact Hg| |].
  - destruct (Hst sid) as [K Hg]. unfold markMailboxRead. destruct (stateFor c sid w) as [s w1]. cbn [fst snd] in *.
    case_bool_decide; [done|]. eapply kept_trans; [exact K|]. by eapply commit_other; [apply K|exact Hg| |].
  - by apply kept_same.
Qed.

(** ** Runs *)

(** The calls after which the timer may rest though a message is held. *)
Definition lets_go (e : CoordEvent) : Prop :=
  match e with Called _ (Stop | Forget _ | ForgetProject _) => True | _ => False end.

Lemma call_books c call w : c.(c_newId) = newIds → books w →
  books (coord_call c call w) ∧ (¬ lets_go (Called c call) → armed w → armed (coord_call c call w)).
Proof.
  intros Hc B. pose proof (reading_kept c w call B) as Hread.
  assert (∀ w', kept c.(c_now) nobody w w' → books w' ∧ (¬ lets_go (Called c call) → armed w → armed w')) as Hk.
  { intros w' [B' Q]. split; [done|]. intros _. apply (qt_armed _ _ _ Q). }
  destruct call as [i|f|id to o| |machine| | | | |sid|p| | | | | | | | ]; try (by apply Hk); clear Hread; simpl.
  - destruct (message_books newIds (armed w) c i w Hc Hinj) as [B' A']; [by split|]. done.
  - by apply Hk, handleInbound_kept.
  - by apply Hk, onTransportOutcome_kept.
  - case_match; [|done]. apply Hk, (pump_ok newIds c nobody w B).
  - split; [by apply retryNow_books|intros _; by apply retryNow_armed].
  - split; [by apply forget_books|by intros []].
  - split; [by apply forgetProject_books|by intros []].
  - split; [by apply (stop_books newIds)|by intros []].
Qed.

Lemma restart_books w : books w → books (coord_restart w) ∧ armed (coord_restart w).
Proof.
  intros [B1 B2 B3]. split; [|by split; [|split; intros ? ?; cbn; rewrite ?lookup_empty]]. split; try done.
  intros p sid _. change (rows_of (coord_restart w) p sid) with (rows_of w p sid).
  destruct (get sid w.(c_sessions)) as [s|] eqn:Hs.
  - destruct (decide (s.(s_projectId) = Some p)) as [Hpr|Hpr].
    + destruct (B2 _ _ _ Hs Hpr) as [-> ->]. exact (B1 _ _ Hs).
    + apply B3. intros (s'&Hs'&Hp'). congruence.
  - apply B3. intros (s'&Hs'&_). congruence.
Qed.

Lemma new_coord_books budgets : books (new_coord ∅ budgets) ∧ armed (new_coord ∅ budgets).
Proof.
  split; [|by split; [|split; intros ? ?; cbn; rewrite ?lookup_empty]]. split; try done.
  intros p sid _. unfold rows_of. cbn. rewrite lookup_empty. apply account_empty.
Qed.

(** The contexts of a run draw their ids from one supply. *)
Definition one_supply (es : list CoordEvent) : Prop :=
  ∀ e, e ∈ es → match e with Called c _ => c.(c_newId) = newIds | Restarted => True end.

Lemma run_books budgets es : one_supply es →
  books (coord_run (new_coord ∅ budgets) es) ∧
  ((∀ e, e ∈ es → ¬ lets_go e) → armed (coord_run (new_coord ∅ budgets) es)).
Proof.
  induction es as [|e es IH] using rev_ind; intros Hes; [destruct (new_coord_books budgets); by split|].
  unfold coord_run in *. rewrite foldl_app. simpl. destruct IH as [B A]; [intros x Hx; apply Hes; by apply elem_snoc_l|].
  pose proof (Hes e ltac:(apply elem_of_app; right; apply list_elem_of_here)) as He. destruct e as [c call|]; simpl.
  - destruct (call_books c call _ He B) as [B' A']. split; [done|]. intros Hgo. apply A'.
    + apply Hgo, elem_of_app. right. apply list_elem_of_here.
    + apply A. intros x Hx. by apply Hgo, elem_snoc_l.
  - destruct (restart_books _ B). by split.
Qed.

(** ** What becomes of a message *)

(** Every outgoing entry of the log that is not settled has its message in the
    outbox, addressed as the entry says; every delivered one arrived. *)
Definition accounted (eff : list CEffect) (log : list LoggedEnvelope) (held : list HeldMessage) : Prop :=
  ∀ e, e ∈ log → e.(l_direction) = outbound →
    (e.(l_deliveredAt) = None → e.(l_refusedAt) = None →
     ∃ m, m ∈ held ∧ m.(h_messageId) = oid e ∧ m.(h_to) = e.(l_peer) ∧ m.(h_frame).(f_to) = e.(l_peer) ∧
          m.(h_frame).(f_envelope).(e_messageId) = oid e) ∧
    (e.(l_deliveredAt) ≠ None → arrived eff (oid e) e.(l_peer)).

Lemma account_accounted drawn eff log held : account drawn eff None log held → accounted eff log held.
Proof.
  intros Ha e He Ho. split; [|by apply (ac_arrived _ _ _ _ _ Ha)]. intros Hd Hr.
  destruct (ac_open _ _ _ _ _ Ha e He Ho) as (m&Hm&Hid); [done|done|]. exists m. destruct (ac_held _ _ _ _ _ Ha m Hm) as [_ Hto Hfid _ Hpeer].
  assert (e.(l_peer) = m.(h_to)) as -> by (apply Hpeer; [done|]; by split). repeat split; congruence.
Qed.

(** C8: in every run of the coordinator from an empty database, with any calls,
    outcomes and restarts in any order and message ids that do not repeat, every
    outgoing entry of a session's log is one of three things: delivered, and
    then the machine it was addressed to reported it applied or the frame was
    folded into the addressed session on this machine; refused, with the reason
    stamped; or still in that session's outbox under the same id and address.
    So no message is dropped silently, and none is shown delivered that did not
    arrive.  The same holds of the rows every session would be loaded from. *)
Theorem every_message_accounted budgets es : one_supply es →
  let w := coord_run (new_coord ∅ budgets) es in
  (∀ sid s, get sid w.(c_sessions) = Some s → accounted w.(c_effects) s.(s_log) s.(s_held)) ∧
  (∀ p sid, accounted w.(c_effects) (rows_of w p sid).(dk_log) (rows_of w p sid).(dk_held)).
Proof.
  intros Hes w. destruct (run_books budgets es Hes) as [[B1 B2 B3] _]. fold w in B1, B2, B3. split.
  - intros sid s Hs. eapply account_accounted, B1, Hs.
  - intros p sid. destruct (get sid w.(c_sessions)) as [s|] eqn:Hs; [destruct (decide (s.(s_projectId) = Some p)) as [Hp|Hp]|].
    + destruct (B2 _ _ _ Hs Hp) as [-> ->]. eapply account_accounted, B1, Hs.
    + eapply account_accounted, B3. intros (s'&Hs'&Hp'). congruence.
    + eapply account_accounted, B3. intros (s'&Hs'&_). congruence.
Qed.

(** C12: the outbox keeps moving.  In every run that neither stops the
    coordinator nor forgets a session, the retry timer is set whenever a message
    is held.  And a tick of the timer leaves in no outbox a message older than
    its six hours, leaves every other one due when it was due before or within five minutes
    of now, unless the transport declined, in this very pass, an offer to the same
    machine, and holds nothing it did not hold before. *)
Theorem tick_moves_outbox budgets es c : one_supply es →
  let w := coord_run (new_coord ∅ budgets) es in
  ((∀ e, e ∈ es → ¬ lets_go e) → anyPending w = true → w.(c_timer) = true) ∧
  (w.(c_timer) = true → ∀ sid s, get sid w.(c_sessions) = Some s →
    let w' := coord_call c Tick w in
    ∃ s', get sid w'.(c_sessions) = Some s' ∧ ∀ m', m' ∈ s'.(s_held) →
      ∃ m, m ∈ s.(s_held) ∧ stands c.(c_now) m m' ∧ c.(c_now) - m'.(h_heldAt) < HELD_MESSAGE_TTL_MS ∧
        (c.(c_now) < m'.(h_nextAttemptAt) ∨
         ∃ x r, since w w' (COffered x (NotSent r)) ∧ x.(x_to).(k_machine) = m'.(h_to).(k_machine))).
Proof.
  intros Hes w. destruct (run_books budgets es Hes) as [B A]. fold w in B, A. split.
  - intros Hgo. apply A, Hgo.
  - intros Ht sid s Hs. simpl. rewrite Ht. destruct (pump_ok newIds c nobody w B) as [_ Hp].
    destruct (Hp sid s Hs) as (s'&Hs'&Hf). exists s'. split; [done|]. intros m' Hm'.
    destruct (Hf m' Hm') as (m&Hm&Hst&Hfr&Hwhy). exists m. split; [done|]. split; [done|]. split; [|done].
    destruct Hst as [(_&_&_&->&_) _]. exact Hfr.
Qed.
End runs.

(** ** Sends that are refused *)

Section refusals.
Implicit Types (c : Ctx) (w : Coord) (i : MessageInput).

(** What a refused send may leave behind: the session's stores loaded, and ids
    drawn. *)
Record untouched (c : Ctx) (sid : string) (w w' : Coord) : Prop := {
  un_disk : w'.(c_disk) = w.(c_disk);
  un_effects : w'.(c_effects) = w.(c_effects);
  un_sent : w'.(c_recentSent) = w.(c_recentSent);
  un_offers : w'.(c_dispatched) = w.(c_dispatched);
  un_budgets : w'.(c_budgets).(PairBudget.disk) = w.(c_budgets).(PairBudget.disk);
  un_sessions : w'.(c_sessions) = w.(c_sessions) ∨ w'.(c_sessions) = (stateFor c sid w).2.(c_sessions);
}.

Lemma stateFor_frame c sid w :
  let w' := (stateFor c sid w).2 in
  w'.(c_disk) = w.(c_disk) ∧ w'.(c_effects) = w.(c_effects) ∧ w'.(c_recentSent) = w.(c_recentSent) ∧
  w'.(c_dispatched) = w.(c_dispatched) ∧ w'.(c_budgets) = w.(c_budgets).
Proof.
  unfold stateFor. destruct (get sid w.(c_sessions)); [done|]. cbv zeta. cbn [snd]. unfold ensureTimer. by case_match.
Qed.

Lemma stateFor_untouched c sid w :
  untouched c sid w (stateFor c sid w).2 ∧ (stateFor c sid w).2.(c_budgets) = w.(c_budgets).
Proof. destruct (stateFor_frame c sid w) as (?&?&?&?&Hb). split; [|done]. split; auto. by rewrite Hb. Qed.

Lemma pairBudgetFor_frame c sid me to w :
  let w' := (pairBudgetFor c sid me to w).2 in
  w'.(c_disk) = w.(c_disk) ∧ w'.(c_effects) = w.(c_effects) ∧ w'.(c_recentSent) = w.(c_recentSent) ∧
  w'.(c_dispatched) = w.(c_dispatched) ∧ w'.(c_sessions) = w.(c_sessions) ∧
  w'.(c_budgets).(PairBudget.disk) = w.(c_budgets).(PairBudget.disk).
Proof.
  unfold pairBudgetFor, recordsFor, load_records. destruct (bySession _ !! sid); [done|]. by destruct (c_projectIdFor c sid).
Qed.

Lemma pairBudgetFor_ext c sid me to w w' : w'.(c_budgets) = w.(c_budgets) → (pairBudgetFor c sid me to w').1 = (pairBudgetFor c sid me to w).1.
Proof. intros H. unfold pairBudgetFor. rewrite H. by destruct (recordsFor _ _ _ _). Qed.

Lemma compose_frame_frame c me i w :
  let w' := (compose_frame c me i w).2 in
  w'.(c_disk) = w.(c_disk) ∧ w'.(c_effects) = w.(c_effects) ∧ w'.(c_recentSent) = w.(c_recentSent) ∧
  w'.(c_dispatched) = w.(c_dispatched) ∧ w'.(c_sessions) = w.(c_sessions) ∧ w'.(c_budgets) = w.(c_budgets).
Proof. unfold compose_frame, newId. by destruct i.(mi_threadId). Qed.

(** Why a send was refused. *)
Definition refused_because c i w (r : Refusal) : Prop :=
  let to := i.(mi_to).(r_key) in
  match r with
  | NOT_MEMBER => c.(c_self) i.(mi_session) = None ∧ c.(c_addressable) = true
  | AGENT_NOT_READY => c.(c_addressable) = false ∧
      (c.(c_self) i.(mi_session) = None ∨
       ∃ me, c.(c_self) i.(mi_session) = Some me ∧ namesMachine to.(k_machine) me.(self_key).(k_machine) = false)
  | UNKNOWN_PEER => ∃ me, c.(c_self) i.(mi_session) = Some me ∧ addressesSameSession me.(self_key) to = true
  | OverBudget q => (pairRefusal c i.(mi_session) to i.(mi_verb) w).1 = Some q
  | ENVELOPE_TOO_LARGE => ∃ me f, c.(c_self) i.(mi_session) = Some me ∧ f.(f_from) = me.(self_key) ∧ f.(f_to) = to ∧
      f.(f_envelope).(e_parts) = i.(mi_parts) ∧ MAX_ENVELOPE_BYTES < c.(c_envelopeBytes) f.(f_envelope)
  end.

Lemma untouched_trans c sid w w1 w2 : untouched c sid w w1 → w1.(c_sessions) = (stateFor c sid w).2.(c_sessions) →
  w2.(c_disk) = w1.(c_disk) → w2.(c_effects) = w1.(c_effects) → w2.(c_recentSent) = w1.(c_recentSent) →
  w2.(c_dispatched) = w1.(c_dispatched) → w2.(c_sessions) = w1.(c_sessions) →
  w2.(c_budgets).(PairBudget.disk) = w1.(c_budgets).(PairBudget.disk) → untouched c sid w w2.
Proof. intros [? ? ? ? ? ?] Hs ? ? ? ? ? ?. split; try congruence. Qed.

(** C19: a send that is refused leaves no trace: nothing logged, held, offered,
    charged or stored, no thread opened, at most the session's stores loaded.
    It is refused only for the reason given: the session is not this bridge's,
    the machine has no address, the target is the session itself, the pair is
    over its budget exactly as [pairRefusal] answers beforehand, or the stamped
    envelope is too large.  And a pair that [pairRefusal] refuses is refused by
    the send, whatever the message. *)
Theorem refused_send_leaves_no_trace c i w :
  (∀ r, (message c i w).1 = inl r → untouched c i.(mi_session) w (message c i w).2 ∧ refused_because c i w r) ∧
  (∀ me q, c.(c_self) i.(mi_session) = Some me → send_refusal c me i.(mi_to).(r_key) = None →
    (pairRefusal c i.(mi_session) i.(mi_to).(r_key) i.(mi_verb) w).1 = Some q → (message c i w).1 = inl (OverBudget q)).
Proof.
  unfold message, refused_because, pairRefusal. destruct (c_self c _) as [me|] eqn:Hself.
  2: { split; [|done]. intros r [= <-]. split; [split; auto|]. unfold noSelf. destruct (c_addressable c); auto. }
  cbv zeta. set (to := i.(mi_to).(r_key)). set (sid := i.(mi_session)) in *.
  destruct (send_refusal c me to) as [r0|] eqn:Hpre.
  { split; [|intros me' q [= <-]; congruence]. intros r [= <-]. split; [split; auto|]. unfold send_refusal in Hpre.
    case_match eqn:Hsame; [injection Hpre as <-; by exists me|]. case_match eqn:Hm; [|done]. injection Hpre as <-.
    reflect_bools. split; [done|]. right. by exists me. }
  destruct (stateFor_untouched c sid w) as [Hun Hbud]. pose proof (eq_refl ((stateFor c sid w).2.(c_sessions))) as Hss.
  destruct (stateFor c sid w) as [s w1] eqn:Hst. cbn [snd] in *.
  pose proof (pairBudgetFor_ext c sid me.(self_key) to w w1 Hbud) as Hb.
  destruct (pairBudgetFor_frame c sid me.(self_key) to w1) as (F1&F2&F3&F4&F5&F6).
  destruct (pairBudgetFor c sid _ to w1) as [b w2]. destruct (pairBudgetFor c sid _ to w) as [b' w2'].
  cbn [fst snd] in *. subst b'.
  assert (untouched c sid w w2) as Hun2 by (eapply untouched_trans; eauto; by rewrite Hst).
  destruct (refusalForPair (Some b) _ _) as [q|] eqn:Hq.
  { split; [|by intros me' q' [= <-] _ [= <-]]. intros r [= <-]. done. }
  split; [|done]. destruct (compose_frame_frame c me i w2) as (G1&G2&G3&G4&G5&G6).
  destruct (compose_frame c me i w2) as [[f o] w3] eqn:Hcf. cbn [snd] in *. case_match eqn:Hsz.
  - intros r [= <-]. split.
    + eapply (untouched_trans c sid w w2); try done; rewrite ?Hst, ?G6; simpl; congruence.
    + exists me, f. unfold checkEnvelopeSize in Hsz. reflect_bools. unfold compose_frame, newId in Hcf.
      destruct i.(mi_threadId); injection Hcf as <- _ _; auto.
  - destruct (post_message c me i f o b w3). done.
Qed.
End refusals.

(** ** A small run *)

Fixpoint ticket (n : nat) : string := match n with O => "m" | S n => "m" +:+ ticket n end.

#[export] Instance ticket_inj : Inj (=) (=) ticket.
Proof.
  assert (∀ n, strlen (ticket n) = Z.of_nat n + 1) as Hl.
  { induction n as [|n IH]; [done|]. change (ticket (S n)) with ("m" +:+ ticket n). rewrite strlen_app, IH. change (strlen "m") with 1. lia. }
  intros n m H. pose proof (f_equal strlen H) as H'. rewrite !Hl in H'. lia.
Qed.

Definition toy_key (machine session : string) : SessionMemberKey := {| k_machine := machine; k_project := "p"; k_session := session |}.
Definition toy_ref (k : SessionMemberKey) : SessionMemberRef :=
  {| r_key := k; r_machineLabel := None; r_projectLabel := None; r_sessionName := None |}.
Definition toy_ctx (answer : BusSendResult) (now : Z) : Ctx := {|
  c_now := now; c_newId := ticket; c_projectIdFor := λ _, Some "p";
  c_self := λ s, Some {| self_key := toy_key "here" s; self_ref := toy_ref (toy_key "here" s) |};
  c_addressable := true; c_loaded := λ _, true; c_offMachine := true; c_send := λ _ _, ([], answer);
  c_envelopeBytes := λ _, 1000 |}.
Definition toy_message (to : SessionMemberKey) (verb : Verb) : MessageInput := {|
  mi_session := "a"; mi_verb := verb; mi_threadId := None; mi_to := toy_ref to; mi_summary := "s"; mi_parts := [PText "hello"];
  mi_unexpected := None; mi_contextId := None |}.

(** One message to a session on this machine, two to another: the first of them
    is acknowledged, the second not yet. *)
Definition toy_calls : list CoordEvent := [
  Called (toy_ctx Sent 100000) (Message (toy_message (toy_key "here" "b") post));
  Called (toy_ctx Sent 100500) (Message (toy_message (toy_key "there" "c") notify));
  Called (toy_ctx (NotSent central_offline) 101000) (Message (toy_message (toy_key "there" "c") post));
  Called (toy_ctx Sent 101000) (Outcome "mmmm" "there" Applied);
  Called (toy_ctx (NotSent central_offline) 102000) Tick].

Example toy_calls_story :
  let w := coord_run (new_coord ∅ PairBudget.new_store) toy_calls in
  (λ s, ((λ e, (oid e, given e.(l_deliveredAt), given e.(l_refusedAt))) <$> s.(s_log), h_messageId <$> s.(s_held))) <$>
    get "a" w.(c_sessions) =
  Some ([("mm", true, false); ("mmmm", true, false); ("mmmmmm", false, false)], ["mmmmmm"]) ∧
  (length <$> (posts <$> (s_mailbox <$> get "b" w.(c_sessions)))) = Some 1%nat ∧ w.(c_timer) = true.
Proof. by vm_compute. Qed.

Lemma toy_one_supply : one_supply ticket toy_calls.
Proof. intros e He. repeat (apply elem_of_cons in He as [->|He]; [done|]). by apply not_elem_of_nil in He. Qed.

#[local] Abbreviation toy_end := (coord_run (new_coord ∅ PairBudget.new_store) toy_calls).
Definition toy_a : SessionState :=
  get "a" toy_end.(c_sessions) ?| load_state (toy_ctx Sent 0) "a" (new_coord ∅ PairBudget.new_store).

Lemma toy_a_loaded : get "a" toy_end.(c_sessions) = Some toy_a.
Proof. by vm_compute. Qed.

Lemma every_message_accounted_witness : accounted toy_end.(c_effects) toy_a.(s_log) toy_a.(s_held).
Proof.
  exact (proj1 (every_message_accounted ticket ticket_inj PairBudget.new_store toy_calls toy_one_supply) "a" toy_a toy_a_loaded).
Defined.

Lemma toy_timer : toy_end.(c_timer) = true.
Proof. by vm_compute. Qed.

Lemma tick_moves_outbox_witness :
  ∃ s', get "a" (coord_call (toy_ctx Sent 200000) Tick toy_end).(c_sessions) = Some s' ∧
    ∀ m', m' ∈ s'.(s_held) → 200000 - m'.(h_heldAt) < HELD_MESSAGE_TTL_MS.
Proof.
  destruct (proj2 (tick_moves_outbox ticket ticket_inj PairBudget.new_store toy_calls (toy_ctx Sent 200000) toy_one_supply)
    toy_timer "a" toy_a toy_a_loaded) as (s'&Hs'&Hm).
  exists s'. split; [exact Hs'|]. intros m' Hin. destruct (Hm m' Hin) as (m&_&_&Hfr&_). exact Hfr.
Defined.

Lemma refused_send_leaves_no_trace_witness :
  untouched (toy_ctx Sent 103000) "a" toy_end (message (toy_ctx Sent 103000) (toy_message (toy_key "here" "a") post) toy_end).2.
Proof.
  exact (proj1 (proj1 (refused_send_leaves_no_trace (toy_ctx Sent 103000) (toy_message (toy_key "here" "a") post) toy_end)
    UNKNOWN_PEER ltac:(vm_compute; reflexivity))).
Defined.
