(* ===== verification/RelayAuth.v ===== *)
(** * RelayAuth: slot ids and the signed hello body

    Models [packages/antgrid-wire/src/relay-slot.ts], [relay-auth.ts] and the
    relay's [normalizeHostHeader] ([relay/src/server.ts]).  SHA-256 is outside
    the repository: a parameter, of which only the digest length is used. *)

From S2P Require Import Prelude Wire.
From Stdlib Require Import DecimalString DecimalN DecimalFacts ZifyN.

Local Open Scope Z_scope.

(** ** relay-slot.ts *)

Definition HASH : Ascii.ascii := Ascii.ascii_of_N 35.

Definition relaySlotId (deviceUuid machineDeviceId : string) : string :=
  deviceUuid +:+ (sep HASH +:+ machineDeviceId).

(** [routeId.slice(0, routeId.indexOf("#"))], or the whole string. *)
Fixpoint baseSlotDeviceId (routeId : string) : string :=
  match routeId with
  | EmptyString => EmptyString
  | String c s => if Ascii.eqb c HASH then EmptyString else String c (baseSlotDeviceId s)
  end.

Fixpoint startsWith (s p : string) {struct p} : bool :=
  match p, s with
  | EmptyString, _ => true
  | String a p', String b s' => Ascii.eqb a b && startsWith s' p'
  | String _ _, EmptyString => false
  end.

Definition isSlotOf (routeId deviceId : string) : bool := startsWith routeId (deviceId +:+ sep HASH).

Lemma startsWith_iff s p : startsWith s p = true ↔ ∃ t, s = p +:+ t.
Proof.
  revert s. induction p as [|a p IH]; intros s; simpl.
  - split; [by exists s|by intros _].
  - destruct s as [|b s]; simpl; [split; [done|by intros [? ?]]|].
    rewrite andb_true_iff, Ascii.eqb_eq, IH. split.
    + intros [-> [t ->]]. by exists t.
    + intros [t [= -> ->]]. split; [done|by exists t].
Qed.

Lemma base_slot_app d m : lacks HASH d = true → baseSlotDeviceId (d +:+ (sep HASH +:+ m)) = d.
Proof.
  induction d as [|c d IH]; intros Hd; [done|]. apply lacks_cons in Hd as [Hc Hd].
  simpl in *. apply Ascii.eqb_neq in Hc. by rewrite Hc, IH.
Qed.

Lemma base_slot_id d : lacks HASH d = true → baseSlotDeviceId d = d.
Proof.
  induction d as [|c d IH]; intros Hd; [done|]. apply lacks_cons in Hd as [Hc Hd].
  simpl in *. apply Ascii.eqb_neq in Hc. by rewrite Hc, IH.
Qed.

Lemma base_slot_split r :
  (lacks HASH r = true ∧ baseSlotDeviceId r = r) ∨
  (∃ m, r = relaySlotId (baseSlotDeviceId r) m ∧ lacks HASH (baseSlotDeviceId r) = true).
Proof.
  induction r as [|c r IH]; [by left|]. simpl. destruct (Ascii.eqb_spec c HASH) as [->|Hc].
  - right. exists r. done.
  - destruct IH as [[H1 H2]|(m & H1 & H2)].
    + left. split; [|by rewrite H2]. unfold lacks in *. simpl. apply Ascii.eqb_neq in Hc. by rewrite Hc.
    + right. exists m. split; [unfold relaySlotId in *; simpl; by f_equal|].
      unfold lacks in *. simpl. apply Ascii.eqb_neq in Hc. by rewrite Hc.
Qed.

(** ** relay-auth.ts *)

Definition RELAY_AUTH_DOMAIN : string := "antgrid.relay-auth.v3".
Definition VERSION_BYTE : string := sep (Ascii.ascii_of_N 3).
Definition NUL : Ascii.ascii := Ascii.zero.

(** UTF-8 of a string of code units below 256. *)
Fixpoint utf8 (s : string) : string :=
  match s with
  | EmptyString => EmptyString
  | String c s' =>
      let n := Ascii.N_of_ascii c in
      if (n <? 128)%N then String c (utf8 s')
      else String (Ascii.ascii_of_N (192 + n / 64)) (String (Ascii.ascii_of_N (128 + n mod 64)) (utf8 s'))
  end.

(** [String(n)] of a non-negative integer. *)
Definition decimal (n : N) : string := NilZero.string_of_uint (N.to_uint n).

Record HelloSigFields := {
  relayHost : string; deviceType : deviceType; deviceId : string; publicKey : string;
  epoch : N; licenseToken : string; ts : string; nonce : string }.

Section buildHelloSigBody.
Context (sha256 : string → string).

Definition joined (fields : list string) (last : string) : string :=
  foldr (λ f acc, f +:+ (sep NUL +:+ acc)) last fields.

Definition buildHelloSigBody (f : HelloSigFields) : string :=
  joined [ utf8 RELAY_AUTH_DOMAIN; VERSION_BYTE; utf8 f.(relayHost); utf8 (deviceType_name f.(deviceType));
           utf8 f.(deviceId); utf8 f.(publicKey); utf8 (decimal f.(epoch));
           sha256 (utf8 f.(licenseToken)); utf8 f.(ts) ] (utf8 f.(nonce)).
End buildHelloSigBody.

(** ** server.ts: the Host header *)

(** [toLowerCase] on code units below 256. *)
Definition lower_char (c : Ascii.ascii) : Ascii.ascii :=
  if is_upper c || (in_range 192 222 c && negb (is_char 215 c))
  then Ascii.ascii_of_N (Ascii.N_of_ascii c + 32) else c.

Fixpoint map_string (f : Ascii.ascii → Ascii.ascii) (s : string) : string :=
  match s with EmptyString => EmptyString | String c s' => String (f c) (map_string f s') end.

(** [s.endsWith(p)], returning what precedes. *)
Fixpoint before_suffix (p s : string) : option string :=
  if bool_decide (s = p) then Some EmptyString
  else match s with EmptyString => None | String c s' => String c <$> before_suffix p s' end.

(** [lastIndexOf(":")] of a string ending in a port is the start of the port. *)
Definition normalizeHostHeader (host : string) : string :=
  let lower := trim_end (trim_start (map_string lower_char host)) in
  match before_suffix ":80" lower with
  | Some h => h
  | None => match before_suffix ":443" lower with Some h => h | None => lower end
  end.

(** [normalizeRelayHost] works on [new URL(relayUrl)], of which it uses the
    [hostname] and the [port] (empty for the default port of the scheme). *)
Definition normalizeRelayHost (hostname port : string) : string :=
  let host := map_string lower_char hostname in
  if bool_decide (port = EmptyString) then host else host +:+ (":" +:+ port).

(** The [Host] header of the request to that URL. *)
Definition host_header (hostname port : string) : string :=
  if bool_decide (port = EmptyString) then hostname else hostname +:+ (":" +:+ port).

(** *** Encoding lemmas *)

Lemma ascii_of_N_inj a b : (a < 256)%N → (b < 256)%N → Ascii.ascii_of_N a = Ascii.ascii_of_N b → a = b.
Proof. intros Ha Hb H. by rewrite <-(Ascii.N_ascii_embedding a Ha), H, Ascii.N_ascii_embedding. Qed.

Lemma N_of_ascii_inj a b : Ascii.N_of_ascii a = Ascii.N_of_ascii b → a = b.
Proof. intros H. by rewrite <-(Ascii.ascii_N_embedding a), H, Ascii.ascii_N_embedding. Qed.

Lemma utf8_inj s t : utf8 s = utf8 t → s = t.
Proof.
  revert t. induction s as [|c s IH]; intros [|d t]; simpl; try done; try by case_match.
  pose proof (Ascii.N_ascii_bounded c). pose proof (Ascii.N_ascii_bounded d).
  assert (∀ a, (a < 256)%N → (192 + a / 64 < 256 ∧ 128 + a mod 64 < 256)%N) as Hb.
  { intros a Ha. assert (a / 64 < 4)%N by (apply N.Div0.div_lt_upper_bound; lia).
    pose proof (N.mod_lt a 64 ltac:(done)). lia. }
  destruct (Hb _ H) as [Hc1 Hc2]. destruct (Hb _ H0) as [Hd1 Hd2].
  destruct (N.ltb_spec (Ascii.N_of_ascii c) 128), (N.ltb_spec (Ascii.N_of_ascii d) 128); intros Heq.
  - simplify_eq. f_equal. by apply IH.
  - injection Heq as Heq _. apply (f_equal Ascii.N_of_ascii) in Heq.
    rewrite Ascii.N_ascii_embedding in Heq by lia. exfalso; lia.
  - injection Heq as Heq _. apply (f_equal Ascii.N_of_ascii) in Heq.
    rewrite Ascii.N_ascii_embedding in Heq by lia. exfalso; lia.
  - injection Heq as H3 H4 H5. apply ascii_of_N_inj in H3, H4; [|lia..].
    f_equal; [|by apply IH]. apply N_of_ascii_inj.
    rewrite (N.div_mod (Ascii.N_of_ascii c) 64), (N.div_mod (Ascii.N_of_ascii d) 64) by done. lia.
Qed.

Lemma lacks_cons_iff c x s : lacks c (String x s) = negb (Ascii.eqb x c) && lacks c s.
Proof. done. Qed.

Lemma utf8_lacks s : lacks NUL s = true → lacks NUL (utf8 s) = true.
Proof.
  induction s as [|c s IH]; [done|]. intros [Hc Hs]%lacks_cons. simpl.
  pose proof (Ascii.N_ascii_bounded c).
  assert (∀ n, (0 < n < 256)%N → Ascii.eqb (Ascii.ascii_of_N n) NUL = false) as Hn.
  { intros n Hn. apply Ascii.eqb_neq. change NUL with (Ascii.ascii_of_N 0). intros Heq%ascii_of_N_inj; lia. }
  destruct (N.ltb_spec (Ascii.N_of_ascii c) 128); rewrite !lacks_cons_iff, IH by done.
  - apply Ascii.eqb_neq in Hc. by rewrite Hc.
  - rewrite !Hn; [done|pose proof (N.mod_lt (Ascii.N_of_ascii c) 64 ltac:(done)); lia|].
    assert (Ascii.N_of_ascii c / 64 < 4)%N by (apply N.Div0.div_lt_upper_bound; lia). lia.
Qed.

Lemma decimal_inj a b : decimal a = decimal b → a = b.
Proof.
  unfold decimal. intros H. apply DecimalN.Unsigned.to_uint_inj.
  assert (∀ n, N.to_uint n ≠ Decimal.Nil) as Hn.
  { intros n Hn. pose proof (DecimalN.Unsigned.of_to n) as Ho. rewrite Hn in Ho. simpl in Ho. subst n. done. }
  pose proof (NilZero.usu (N.to_uint a) (Hn a)) as Ha. pose proof (NilZero.usu (N.to_uint b) (Hn b)) as Hb.
  rewrite H in Ha. congruence.
Qed.

Lemma decimal_lacks n : lacks NUL (decimal n) = true.
Proof.
  unfold decimal. generalize (N.to_uint n). intros u. unfold NilZero.string_of_uint.
  assert (∀ u, lacks NUL (NilEmpty.string_of_uint u) = true) as H by (clear; intros u; by induction u).
  by destruct u; [|apply (H (Decimal.D0 u))|apply (H (Decimal.D1 u))|apply (H (Decimal.D2 u))
    |apply (H (Decimal.D3 u))|apply (H (Decimal.D4 u))|apply (H (Decimal.D5 u))|apply (H (Decimal.D6 u))
    |apply (H (Decimal.D7 u))|apply (H (Decimal.D8 u))|apply (H (Decimal.D9 u))].
Qed.

Lemma device_id_lacks_nul s : DEVICE_ID s = true → lacks NUL s = true.
Proof.
  unfold DEVICE_ID, lacks. intros [_ H]%andb_true_iff. eapply string_forallb_impl, H.
  intros c Hc. apply negb_true_iff, Ascii.eqb_neq. intros ->. by vm_compute in Hc.
Qed.

(** Two strings of one length before the rest of equal strings are equal. *)
Lemma app_length_inj s1 s2 t1 t2 :
  String.length s1 = String.length t1 → s1 +:+ s2 = t1 +:+ t2 → s1 = t1 ∧ s2 = t2.
Proof.
  revert t1. induction s1 as [|c s1 IH]; intros [|d t1]; simpl; [done..|].
  intros [= Hl] [= -> Heq]. by destruct (IH t1 Hl Heq) as [-> ->].
Qed.

Lemma join_utf8_inj a b s t :
  lacks NUL a = true → lacks NUL b = true →
  utf8 a +:+ (sep NUL +:+ s) = utf8 b +:+ (sep NUL +:+ t) → a = b ∧ s = t.
Proof.
  intros Ha Hb Heq. apply join_inj in Heq as [H1 H2]; [|by apply utf8_lacks..].
  split; [by apply utf8_inj|done].
Qed.

Lemma deviceType_name_inj a b : deviceType_name a = deviceType_name b → a = b.
Proof. by destruct a, b. Qed.

(** *** The port suffix *)

Lemma before_suffix_spec p s h : before_suffix p s = Some h → s = h +:+ p.
Proof.
  revert h. induction s as [|c s IH]; intros h; simpl.
  - by case_bool_decide; [intros [= <-]|].
  - case_bool_decide; [by intros [= <-]|].
    destruct (before_suffix p s) as [h'|]; simpl; [|done]. intros [= <-]. by rewrite (IH h').
Qed.

Lemma before_suffix_none p c s : lacks c s = true → lacks c p = false → before_suffix p s = None.
Proof.
  intros Hs Hp. destruct (before_suffix p s) as [h|] eqn:He; [|done].
  apply before_suffix_spec in He. subst s. unfold lacks in *. rewrite string_forallb_app in Hs.
  apply andb_true_iff in Hs as [_ Hs]. congruence.
Qed.

Definition COLON : Ascii.ascii := Ascii.ascii_of_N 58.

(** A hostname as [URL] gives it: lower case, no white space, no colon. *)
Definition url_hostname (h : string) : bool :=
  string_forallb (λ c, Ascii.eqb (lower_char c) c && negb (is_space c) && negb (Ascii.eqb c COLON)) h.
Definition url_port (p : string) : bool := string_forallb is_digit p.

Lemma plain_chars (s : string) :
  string_forallb (λ c, Ascii.eqb (lower_char c) c && negb (is_space c)) s = true →
  trim_end (trim_start (map_string lower_char s)) = s.
Proof.
  intros H. assert (map_string lower_char s = s) as ->.
  { induction s as [|c s IH]; [done|]. simpl in *. reflect_bools.
    apply Ascii.eqb_eq in H. rewrite H. f_equal. by apply IH. }
  assert (trim_start s = s) as ->.
  { destruct s as [|c s]; [done|]. simpl in *. reflect_bools. by rewrite H1. }
  induction s as [|c s IH]; [done|]. simpl in *. reflect_bools. rewrite IH by done.
  destruct s; [|done]. by rewrite H1.
Qed.

Lemma digit_plain c : is_digit c = true → Ascii.eqb (lower_char c) c && negb (is_space c) = true.
Proof.
  unfold lower_char, is_space, is_upper, is_digit, in_range, is_char. intros H. reflect_bools.
  repeat match goal with |- context [(?a <=? ?b)%Z] => destruct (Z.leb_spec a b); try lia end;
  repeat match goal with |- context [(?a =? ?b)%Z] => destruct (Z.eqb_spec a b); try lia end;
  simpl; by rewrite Ascii.eqb_refl.
Qed.

Lemma join_colon_inj h1 p1 h2 p2 :
  lacks COLON h1 = true → lacks COLON h2 = true →
  h1 +:+ (":" +:+ p1) = h2 +:+ (":" +:+ p2) → h1 = h2 ∧ p1 = p2.
Proof. apply (join_inj COLON). Qed.

Lemma suffix_port q h p :
  lacks COLON h = true → lacks COLON p = true → p ≠ q →
  before_suffix (":" +:+ q) (h +:+ (":" +:+ p)) = None.
Proof.
  intros Hh Hp Hne. destruct (before_suffix _ _) as [h'|] eqn:He; [|done]. exfalso.
  apply before_suffix_spec in He.
  destruct (lacks COLON h') eqn:Hl.
  - apply join_colon_inj in He as [_ Hpq]; [congruence|done..].
  - revert h Hh He. induction h' as [|c h' IH]; intros h Hh He; [done|].
    unfold lacks in Hl. simpl in Hl. destruct (Ascii.eqb_spec c COLON) as [->|Hc].
    + destruct h as [|d h]; simpl in He.
      * injection He as He. assert (lacks COLON p = false); [|congruence].
        rewrite He. unfold lacks. rewrite string_forallb_app. simpl. by rewrite andb_false_r.
      * injection He as -> _. unfold lacks in Hh. simpl in Hh. done.
    + destruct h as [|d h]; simpl in He; [injection He as <- _; done|].
      injection He as -> He. apply lacks_cons in Hh as [_ Hh]. by apply (IH Hl h).
Qed.

(** ** The properties *)

(** The slot id an app presents gives back its account device, and a
    route id belongs to an account device exactly when stripping its scope
    gives that device: revoking by account device reaches the bare holder and
    every slot under it, and nothing else. *)
Theorem slot_belongs (r d m : string) :
  lacks HASH d = true →
  baseSlotDeviceId (relaySlotId d m) = d ∧
  (r = d ∨ isSlotOf r d = true ↔ baseSlotDeviceId r = d).
Proof.
  intros Hd. split; [by apply base_slot_app|].
  unfold isSlotOf. rewrite startsWith_iff. split.
  - intros [->|[t ->]]; [by apply base_slot_id|].
    rewrite <-string_app_assoc. by apply base_slot_app.
  - intros <-. destruct (base_slot_split r) as [[_ Hr]|(t & Hr & _)]; [by left|].
    right. exists t. rewrite <-string_app_assoc. exact Hr.
Qed.

(** The signed hello body determines every field the relay checks: two
    hellos with the same body have the same host, device type, device id,
    public key, epoch, timestamp and nonce, and the same token digest.  So a
    signature for one relay host, device or epoch is not one for another. *)
Theorem hello_body_injective (sha256 : string → string) (f g : HelloSigFields) :
  (∀ s t, String.length (sha256 s) = String.length (sha256 t)) →
  lacks NUL f.(relayHost) = true → lacks NUL g.(relayHost) = true →
  DEVICE_ID f.(deviceId) = true → DEVICE_ID g.(deviceId) = true →
  lacks NUL f.(publicKey) = true → lacks NUL g.(publicKey) = true →
  lacks NUL f.(ts) = true → lacks NUL g.(ts) = true →
  buildHelloSigBody sha256 f = buildHelloSigBody sha256 g →
  f.(relayHost) = g.(relayHost) ∧ f.(deviceType) = g.(deviceType) ∧ f.(deviceId) = g.(deviceId) ∧
  f.(publicKey) = g.(publicKey) ∧ f.(epoch) = g.(epoch) ∧ f.(ts) = g.(ts) ∧ f.(nonce) = g.(nonce) ∧
  sha256 (utf8 f.(licenseToken)) = sha256 (utf8 g.(licenseToken)).
Proof.
  intros Hsha Hh1 Hh2 Hd1%device_id_lacks_nul Hd2%device_id_lacks_nul Hp1 Hp2 Ht1 Ht2.
  unfold buildHelloSigBody. cbn [joined foldr].
  intros [_ H]%app_length_inj; [|done]. apply app_length_inj in H as [_ H]; [|done].
  apply app_length_inj in H as [_ H]; [|done]. apply app_length_inj in H as [_ H]; [|done].
  apply join_utf8_inj in H as [-> H]; [|done..].
  apply join_utf8_inj in H as [Hdt%deviceType_name_inj H]; [|by destruct (deviceType f)|by destruct (deviceType g)].
  apply join_utf8_inj in H as [-> H]; [|done..]. apply join_utf8_inj in H as [-> H]; [|done..].
  apply join_utf8_inj in H as [He%decimal_inj H]; [|apply decimal_lacks..].
  apply app_length_inj in H as [-> H]; [|apply Hsha]. apply app_length_inj in H as [_ H]; [|done].
  apply join_utf8_inj in H as [-> H]; [|done..]. apply utf8_inj in H. by split_and!.
Qed.

(** The host the client signs and the host the relay rebuilds from the
    upgrade request agree, for any URL whose port is not one of the other
    scheme's default. *)
Theorem hosts_agree (hostname port : string) :
  url_hostname hostname = true → url_port port = true → port ≠ "80" → port ≠ "443" →
  normalizeHostHeader (host_header hostname port) = normalizeRelayHost hostname port.
Proof.
  intros Hh Hp H80 H443. unfold url_hostname in Hh.
  assert (lacks COLON hostname = true) as Hc.
  { eapply string_forallb_impl, Hh. intros c Hc. by apply andb_true_iff in Hc as [_ ?]. }
  assert (lacks COLON port = true) as Hcp.
  { eapply string_forallb_impl, Hp. intros c Hd. apply negb_true_iff, Ascii.eqb_neq. by intros ->. }
  assert (string_forallb (λ c, Ascii.eqb (lower_char c) c && negb (is_space c)) hostname = true) as Hpl.
  { eapply string_forallb_impl, Hh. intros c Hx. by apply andb_true_iff in Hx as [? _]. }
  assert (map_string lower_char hostname = hostname) as Hl.
  { clear -Hpl. induction hostname as [|c s IH]; [done|]. simpl in *. reflect_bools.
    apply Ascii.eqb_eq in H. rewrite H. f_equal. by apply IH. }
  unfold normalizeHostHeader, normalizeRelayHost, host_header. cbn zeta. rewrite Hl.
  destruct (bool_decide_reflect (port = EmptyString)) as [_|Hne].
  - rewrite plain_chars by done. by rewrite !(before_suffix_none _ COLON).
  - rewrite plain_chars.
    + change ":80" with (":" +:+ "80"). change ":443" with (":" +:+ "443"). by rewrite !suffix_port.
    + rewrite !string_forallb_app, Hpl. simpl. eapply string_forallb_impl, Hp. apply digit_plain.
Qed.

Lemma slot_belongs_witness :
  baseSlotDeviceId (relaySlotId "phone" "desk") = "phone" ∧
  ("phone#desk" = "phone" ∨ isSlotOf "phone#desk" "phone" = true).
Proof.
  destruct (slot_belongs "phone#desk" "phone" "desk" eq_refl) as [H1 H2].
  split; [exact H1|]. apply H2. reflexivity.
Defined.

Definition demo_hello (host nonce : string) : HelloSigFields :=
  {| relayHost := host; deviceType := agent; deviceId := "desk"; publicKey := "key"; epoch := 7;
     licenseToken := "tok"; ts := "2026-01-01T00:00:00Z"; nonce := nonce |}.

Lemma hello_body_injective_witness :
  buildHelloSigBody (λ _, "digest") (demo_hello "a.io" "n1") ≠
  buildHelloSigBody (λ _, "digest") (demo_hello "b.io" "n1").
Proof.
  intros H. apply hello_body_injective in H as [H _]; [|vm_compute; reflexivity..|reflexivity|reflexivity|reflexivity|reflexivity].
  discriminate H.
Defined.

Lemma hosts_agree_witness :
  normalizeHostHeader (host_header "relay.io" "8443") = "relay.io:8443".
Proof.
  rewrite (hosts_agree "relay.io" "8443" eq_refl eq_refl); [reflexivity|discriminate|discriminate].
Defined.
