(* ===== verification/Connections.v ===== *)
(** * Connections: the relay's live-connection table

    Models [relay/src/connections.ts].  Three maps index the same [Connection]
    objects: by connection id, by device id, and per account.  The objects are
    compared by identity: [oid] stands for it.  The one mutable member,
    [lastSeen], is kept beside the objects, by identity. *)

From S2P Require Import Prelude JsMap Wire RelayAuth.

Local Open Scope Z_scope.
Local Open Scope js_scope.

Inductive Phase := awaiting_hello | authenticating | ready | closed.
#[export] Instance Phase_eq_dec : EqDecision Phase.
Proof. solve_decision. Defined.

(** [WsData] and the socket's [readyState === 1]. *)
Record Socket := {
  ip : string;
  wsRelayHost : string;
  wsDeviceId : option string;
  phase : Phase;
  isOpen : bool;
}.

Record Connection := {
  oid : positive;
  connectionId : string;
  deviceId : string;
  deviceType : Wire.deviceType;
  uid : string;
  publicKey : string;
  epoch : Z;
  helloNonce : string;
  helloTs : Z;
  busCapable : bool;
  connectedAt : Z;
}.
#[export] Instance Connection_eq_dec : EqDecision Connection.
Proof. solve_decision. Defined.

Record ConnectionSummary := {
  s_deviceId : string; s_deviceType : Wire.deviceType; s_connectedAt : Z; s_lastSeen : Z }.

Record Connections := {
  byConnectionId : jsmap string Connection;
  byDeviceId : jsmap string Connection;
  byUid : jsmap string (list Connection);
  lastSeen : gmap positive Z;
}.

Definition no_connections : Connections :=
  {| byConnectionId := JsMap.empty; byDeviceId := JsMap.empty; byUid := JsMap.empty; lastSeen := ∅ |}.

(** [set.add(conn)] and [set.delete(conn)] on a [Set] of objects. *)
Definition set_add (c : Connection) (s : list Connection) : list Connection :=
  if decide (c.(oid) ∈ oid <$> s) then s else s ++ [c].
Definition set_delete (c : Connection) (s : list Connection) : list Connection :=
  filter (λ x, x.(oid) ≠ c.(oid)) s.

(** [seen] is the [lastSeen] the object is created with. *)
Definition insert (conn : Connection) (seen : Z) (t : Connections) : Connections :=
  {| byConnectionId := set conn.(connectionId) conn t.(byConnectionId);
     byDeviceId := set conn.(deviceId) conn t.(byDeviceId);
     byUid := set conn.(uid) (set_add conn (get conn.(uid) t.(byUid) ?| [])) t.(byUid);
     lastSeen := <[conn.(oid) := seen]> t.(lastSeen) |}.

Definition remove (conn : Connection) (t : Connections) : Connections :=
  {| byConnectionId := delete conn.(connectionId) t.(byConnectionId);
     byDeviceId :=
       match get conn.(deviceId) t.(byDeviceId) with
       | Some c => if decide (c.(oid) = conn.(oid)) then delete conn.(deviceId) t.(byDeviceId)
                   else t.(byDeviceId)
       | None => t.(byDeviceId)
       end;
     byUid :=
       match get conn.(uid) t.(byUid) with
       | Some s =>
           match set_delete conn s with
           | [] => delete conn.(uid) t.(byUid)
           | s' => set conn.(uid) s' t.(byUid)
           end
       | None => t.(byUid)
       end;
     lastSeen := t.(lastSeen) |}.

Definition getByConnectionId (id : string) (t : Connections) : option Connection :=
  get id t.(byConnectionId).
Definition getByDeviceId (id : string) (t : Connections) : option Connection := get id t.(byDeviceId).
Definition getAll (t : Connections) : list Connection := values t.(byConnectionId).

Definition getByAccountDevice (id : string) (t : Connections) : list Connection :=
  let exact := get id t.(byDeviceId) in
  match exact with Some c => [c] | None => [] end ++
  filter (λ c, negb (bool_decide (Some c.(oid) = oid <$> exact)) && isSlotOf c.(deviceId) id = true)
    (values t.(byDeviceId)).

Definition getConnectionsForUser (userId : string) (t : Connections) : list Connection :=
  get userId t.(byUid) ?| [].

Definition updateLastSeen (id : string) (now : Z) (t : Connections) : Connections :=
  match get id t.(byDeviceId) with
  | Some c => {| byConnectionId := t.(byConnectionId); byDeviceId := t.(byDeviceId);
                 byUid := t.(byUid); lastSeen := <[c.(oid) := now]> t.(lastSeen) |}
  | None => t
  end.

Definition getConnectionCount (t : Connections) : Z := size t.(byDeviceId).

Definition toSummary (t : Connections) (c : Connection) : ConnectionSummary :=
  {| s_deviceId := c.(deviceId); s_deviceType := c.(deviceType); s_connectedAt := c.(connectedAt);
     s_lastSeen := t.(lastSeen) !! c.(oid) ?| c.(connectedAt) |}.

Definition listConnections (t : Connections) : list ConnectionSummary :=
  toSummary t <$> values t.(byDeviceId).

Definition listConnectionsForUser (userId : string) (t : Connections) : list ConnectionSummary :=
  toSummary t <$> filter (λ c, c.(uid) = userId) (values t.(byDeviceId)).

(** ** The table is one list

    [Rep t L]: every index of [t] holds exactly the connections of [L], in the
    order they were admitted, with no device, socket or object twice. *)
Record Rep (t : Connections) (L : list Connection) : Prop := {
  rep_conn : t.(byConnectionId) = (λ c, (c.(connectionId), c)) <$> L;
  rep_dev : t.(byDeviceId) = (λ c, (c.(deviceId), c)) <$> L;
  rep_uid_wf : wf t.(byUid);
  rep_uid : ∀ u, get u t.(byUid) ?| [] = filter (λ c, c.(uid) = u) L;
  rep_uid_nonempty : ∀ u, get u t.(byUid) ≠ Some [];
  nodup_conn : NoDup (connectionId <$> L);
  nodup_dev : NoDup (deviceId <$> L);
  nodup_oid : NoDup (oid <$> L);
}.

Lemma rep_empty : Rep no_connections [].
Proof. split; try done; try apply NoDup_nil_2. Qed.

Section index.
Context {A : Type} (key : A → string).

Lemma get_index k l :
  NoDup (key <$> l) → ∀ c, get k ((λ c, (key c, c)) <$> l) = Some c ↔ c ∈ l ∧ key c = k.
Proof.
  intros Hnd c. assert (wf ((λ c, (key c, c)) <$> l)) as Hwf.
  { unfold wf, keys. by rewrite <-list_fmap_compose. }
  split.
  - intros (c' & [= -> ->] & Hin)%get_Some_elem%list_elem_of_fmap. done.
  - intros [Hin <-]. apply elem_get_Some; [done|]. apply list_elem_of_fmap. eauto.
Qed.

Lemma values_index l : values ((λ c, (key c, c)) <$> l) = l.
Proof. unfold values. rewrite <-list_fmap_compose. apply list_fmap_id. Qed.

Lemma set_index_fresh c l :
  key c ∉ key <$> l → set (key c) c ((λ c, (key c, c)) <$> l) = (λ c, (key c, c)) <$> (l ++ [c]).
Proof.
  intros Hn. rewrite set_fresh, fmap_app; [done|]. apply get_None_keys. unfold keys.
  by rewrite <-list_fmap_compose.
Qed.

Lemma delete_index l1 c l2 :
  NoDup (key <$> (l1 ++ c :: l2)) →
  delete (key c) ((λ c, (key c, c)) <$> (l1 ++ c :: l2)) = (λ c, (key c, c)) <$> (l1 ++ l2).
Proof.
  intros Hnd. assert (wf ((λ c, (key c, c)) <$> (l1 ++ c :: l2))) as Hwf.
  { unfold wf, keys. by rewrite <-list_fmap_compose. }
  rewrite !fmap_app, fmap_cons in Hwf. rewrite !fmap_app, fmap_cons. by apply delete_split.
Qed.
End index.

Section rep.
Context (t : Connections) (L : list Connection) (HR : Rep t L).

Lemma getByConnectionId_iff id c : getByConnectionId id t = Some c ↔ c ∈ L ∧ c.(connectionId) = id.
Proof. unfold getByConnectionId. rewrite (rep_conn _ _ HR). by apply get_index, HR. Qed.

Lemma getByDeviceId_iff id c : getByDeviceId id t = Some c ↔ c ∈ L ∧ c.(deviceId) = id.
Proof. unfold getByDeviceId. rewrite (rep_dev _ _ HR). by apply get_index, HR. Qed.

Lemma getAll_rep : getAll t = L.
Proof. unfold getAll. rewrite (rep_conn _ _ HR). apply values_index. Qed.

Lemma getConnectionsForUser_rep u : getConnectionsForUser u t = filter (λ c, c.(uid) = u) L.
Proof. apply (rep_uid _ _ HR). Qed.

Lemma oid_inj c d : c ∈ L → d ∈ L → c.(oid) = d.(oid) → c = d.
Proof.
  intros Hc Hd Heq. pose proof (nodup_oid _ _ HR) as Hnd.
  apply list_elem_of_split in Hc as (l1 & l2 & ->).
  rewrite fmap_app, fmap_cons in Hnd. apply NoDup_split_not_in in Hnd as [H1 H2].
  apply elem_of_app in Hd as [Hd|[->|Hd]%elem_of_cons]; [|done|].
  - exfalso. apply H1. rewrite Heq. by apply list_elem_of_fmap_2.
  - exfalso. apply H2. rewrite Heq. by apply list_elem_of_fmap_2.
Qed.

Lemma elem_getByAccountDevice id c :
  c ∈ getByAccountDevice id t ↔ c ∈ L ∧ (c.(deviceId) = id ∨ isSlotOf c.(deviceId) id = true).
Proof.
  unfold getByAccountDevice. cbn zeta. rewrite (rep_dev _ _ HR), values_index, <-(rep_dev _ _ HR).
  rewrite elem_of_app, list_elem_of_filter. change (get id t.(byDeviceId)) with (getByDeviceId id t).
  pose proof (getByDeviceId_iff id) as Hiff. destruct (getByDeviceId id t) as [e|] eqn:He.
  - destruct (proj1 (Hiff e) eq_refl) as [HeL Hed]. rewrite list_elem_of_singleton. simpl. split.
    + intros [->|[[_ Hs]%andb_true_iff HcL]]; eauto.
    + intros [HcL [Hd|Hs]].
      * left. assert (Some e = Some c) by (by apply Hiff). congruence.
      * destruct (decide (c.(oid) = e.(oid))) as [Ho|Ho]; [left; by apply oid_inj|right].
        rewrite bool_decide_false by congruence. by rewrite Hs.
  - rewrite bool_decide_false by done. simpl. split.
    + intros [?%not_elem_of_nil|[Hs HcL]]; [done|eauto].
    + intros [HcL [Hd|Hs]]; [|by right]. assert (None = Some c) by (by apply Hiff). done.
Qed.

Lemma NoDup_getByAccountDevice id : NoDup (getByAccountDevice id t).
Proof.
  assert (NoDup L) as HL by (eapply NoDup_fmap_1, (nodup_oid _ _ HR)).
  unfold getByAccountDevice. cbn zeta. rewrite (rep_dev _ _ HR), values_index.
  apply NoDup_app. split_and!; [case_match; [apply NoDup_singleton|constructor]| |by apply NoDup_filter].
  intros c. destruct (get id _) as [e|]; [|by intros ?%not_elem_of_nil].
  intros ->%list_elem_of_singleton [Hc _]%list_elem_of_filter.
  by rewrite bool_decide_true in Hc.
Qed.

Lemma remove_split c : c ∈ L → ∃ L1 L2, L = L1 ++ c :: L2 ∧ set_delete c L = L1 ++ L2.
Proof.
  intros Hc. pose proof (nodup_oid _ _ HR) as Hnd.
  apply list_elem_of_split in Hc as (L1 & L2 & ->). exists L1, L2. split; [done|].
  rewrite fmap_app, fmap_cons in Hnd. apply NoDup_split_not_in in Hnd as [H1 H2].
  unfold set_delete. rewrite filter_app, filter_cons_False by naive_solver.
  f_equal; apply filter_all; intros x Hx Heq.
  - apply H1. rewrite <-Heq. by apply list_elem_of_fmap_2.
  - apply H2. rewrite <-Heq. by apply list_elem_of_fmap_2.
Qed.

Lemma rep_insert c seen :
  c.(connectionId) ∉ connectionId <$> L → c.(deviceId) ∉ deviceId <$> L → c.(oid) ∉ oid <$> L →
  Rep (insert c seen t) (L ++ [c]).
Proof.
  intros Hc Hd Ho. pose proof HR as [H1 H2 H3 H4 H5 H6 H7 H8].
  assert (set_add c (get c.(uid) t.(byUid) ?| []) = filter (λ x, x.(uid) = c.(uid)) L ++ [c]) as Hadd.
  { rewrite H4. unfold set_add. rewrite decide_False; [done|].
    intros (x & Hx & [_ Hin]%list_elem_of_filter)%list_elem_of_fmap. apply Ho.
    rewrite Hx. by apply list_elem_of_fmap_2. }
  assert (∀ key : Connection → string, key c ∉ key <$> L → NoDup (key <$> L) → NoDup (key <$> (L ++ [c]))) as Hn.
  { intros key Hk Hnd. rewrite fmap_app. apply NoDup_app. split_and!; [done| |apply NoDup_singleton].
    by intros x Hx ->%list_elem_of_singleton. }
  split; cbn [insert byConnectionId byDeviceId byUid].
  - rewrite H1. by apply set_index_fresh.
  - rewrite H2. by apply set_index_fresh.
  - by apply wf_set.
  - intros u. rewrite Hadd, get_set, filter_app, filter_cons. simpl.
    destruct (decide (u = c.(uid))) as [->|Hne]; simpl.
    + by rewrite decide_True.
    + rewrite H4, decide_False, app_nil_r by congruence. done.
  - intros u. rewrite Hadd, get_set. case_decide; [|done]. by destruct (filter _ L).
  - by apply Hn.
  - by apply Hn.
  - rewrite fmap_app. apply NoDup_app. split_and!; [done| |apply NoDup_singleton].
    by intros x Hx ->%list_elem_of_singleton.
Qed.

Lemma rep_delete c : c ∈ L → Rep (remove c t) (set_delete c L).
Proof.
  intros Hc. destruct (remove_split c Hc) as (L1 & L2 & HL & Hdel). rewrite Hdel.
  pose proof HR as [H1 H2 H3 H4 H5 H6 H7 H8].
  assert (get c.(deviceId) t.(byDeviceId) = Some c) as Hget by (by apply getByDeviceId_iff).
  assert (∀ u, set_delete c (filter (λ x, x.(uid) = u) L) = filter (λ x, x.(uid) = u) (L1 ++ L2)) as Hset.
  { intros u. rewrite <-Hdel. unfold set_delete. rewrite !list_filter_filter.
    apply list_filter_iff. intros x. tauto. }
  assert (∀ u, u ≠ c.(uid) → filter (λ x, x.(uid) = u) (L1 ++ L2) = filter (λ x, x.(uid) = u) L) as Hother.
  { intros u Hu. rewrite HL, !filter_app, filter_cons_False by congruence. done. }
  assert (is_Some (get c.(uid) t.(byUid))) as [s Hs].
  { specialize (H4 c.(uid)). destruct (get c.(uid) t.(byUid)); [by eexists|]. simpl in H4.
    assert (c ∈ filter (λ x, x.(uid) = c.(uid)) L) as Hin by (by apply list_elem_of_filter).
    rewrite <-H4 in Hin. by apply not_elem_of_nil in Hin. }
  assert (s = filter (λ x, x.(uid) = c.(uid)) L) as Hsf by (specialize (H4 c.(uid)); by rewrite Hs in H4).
  assert (∀ A (key : Connection → A), NoDup (key <$> L) → NoDup (key <$> (L1 ++ L2))) as Hn.
  { intros A key. rewrite <-Hdel. intros Hnd. eapply sublist_NoDup; [exact Hnd|].
    apply fmap_sublist, sublist_filter. }
  split; cbn [remove byConnectionId byDeviceId byUid].
  - rewrite H1, HL. apply delete_index. by rewrite <-HL.
  - rewrite Hget, decide_True, H2, HL by done. apply delete_index. by rewrite <-HL.
  - rewrite Hs. case_match; auto with js.
  - intros u. rewrite Hs, Hsf, Hset. destruct (decide (u = c.(uid))) as [->|Hne].
    + destruct (filter _ (L1 ++ L2)); [by rewrite get_delete_eq|by rewrite get_set_eq].
    + rewrite (Hother u) by done.
      destruct (filter _ (L1 ++ L2)); [rewrite get_delete_ne by done|rewrite get_set_ne by done]; apply H4.
  - intros u. rewrite Hs. case_match eqn:Hd; [rewrite get_delete; by case_decide|].
    rewrite get_set. by case_decide.
  - by apply Hn.
  - by apply Hn.
  - by apply Hn.
Qed.

Lemma rep_updateLastSeen id now : Rep (updateLastSeen id now t) L.
Proof. unfold updateLastSeen. case_match; [|done]. by destruct HR; split. Qed.
End rep.

(** ** Tables the relay can reach

    The relay inserts a connection only under a fresh socket and object, after
    removing the holder of the same device id, and removes only connections of
    the table; [live] is the list of connections it holds. *)
Inductive Reach : Connections → list Connection → Prop :=
| reach_empty : Reach no_connections []
| reach_insert t live c seen :
    Reach t live →
    c.(connectionId) ∉ connectionId <$> live → c.(deviceId) ∉ deviceId <$> live →
    c.(oid) ∉ oid <$> live →
    Reach (insert c seen t) (live ++ [c])
| reach_remove t live c : Reach t live → c ∈ live → Reach (remove c t) (set_delete c live)
| reach_seen t live id now : Reach t live → Reach (updateLastSeen id now t) live.

Lemma reach_rep t live : Reach t live → Rep t live.
Proof.
  induction 1; [apply rep_empty|by apply rep_insert|by apply rep_delete|by apply rep_updateLastSeen].
Qed.

(** The three indexes never disagree: in every table the relay reaches,
    each lookup answers as a scan of the live connections would, the account
    lookup included, which reaches a device and all its slots, once each. *)
Theorem connection_indexes_agree (t : Connections) (live : list Connection) (u d : string) (c : Connection) :
  Reach t live →
  (getByConnectionId d t = Some c ↔ c ∈ live ∧ c.(connectionId) = d) ∧
  (getByDeviceId d t = Some c ↔ c ∈ live ∧ c.(deviceId) = d) ∧
  getAll t = live ∧
  getConnectionsForUser u t = filter (λ c, c.(uid) = u) live ∧
  (c ∈ getByAccountDevice d t ↔ c ∈ live ∧ (c.(deviceId) = d ∨ isSlotOf c.(deviceId) d = true)) ∧
  NoDup (getByAccountDevice d t) ∧
  s_deviceId <$> listConnectionsForUser u t = deviceId <$> filter (λ c, c.(uid) = u) live ∧
  getConnectionCount t = Z.of_nat (length live).
Proof.
  intros HR%reach_rep. split_and!.
  - by apply getByConnectionId_iff.
  - by apply getByDeviceId_iff.
  - by apply getAll_rep.
  - by apply getConnectionsForUser_rep.
  - by apply elem_getByAccountDevice.
  - by apply NoDup_getByAccountDevice with (L := live).
  - unfold listConnectionsForUser. by rewrite (rep_dev _ _ HR), values_index, <-list_fmap_compose.
  - unfold getConnectionCount, size. by rewrite (rep_dev _ _ HR), length_fmap.
Qed.

Definition demo_conn (o : positive) (id d u : string) : Connection :=
  {| oid := o; connectionId := id; deviceId := d; deviceType := agent; uid := u; publicKey := "k";
     epoch := 1; helloNonce := "n"; helloTs := 0; busCapable := true; connectedAt := 0 |}.

Lemma connection_indexes_agree_witness :
  let t := remove (demo_conn 1 "c1" "d" "u") (insert (demo_conn 2 "c2" "d#m" "u") 0
             (insert (demo_conn 1 "c1" "d" "u") 0 no_connections)) in
  getConnectionsForUser "u" t = [demo_conn 2 "c2" "d#m" "u"].
Proof.
  intros t.
  assert (Reach t (set_delete (demo_conn 1 "c1" "d" "u")
    (([] ++ [demo_conn 1 "c1" "d" "u"]) ++ [demo_conn 2 "c2" "d#m" "u"]))) as HR.
  { apply reach_remove; [|by left].
    apply reach_insert; [apply reach_insert; [apply reach_empty|..]|..]; simpl;
      rewrite ?list_elem_of_singleton; try discriminate; by intros ?%not_elem_of_nil. }
  destruct (connection_indexes_agree _ _ "u" "d" (demo_conn 1 "c1" "d" "u") HR) as (_ & _ & _ & H & _).
  exact H.
Defined.
