(* ===== verification/License.v ===== *)
(** * License: the relay's device-token gate

    Models [relay/src/license/verify.ts], [cache.ts] and [gate.ts].  [jose]'s
    [jwtVerify] and [importJWK] and the JWKS fetch are outside the repository:
    they are parameters, and what they throw is an [Err].  The cache is a [Map]
    keyed by device id whose entries are mutated in place. *)

From S2P Require Import Prelude JsMap Wire.

Local Open Scope Z_scope.
Local Open Scope js_scope.

Inductive DeviceTier := free | trial | pro | enterprise.
#[export] Instance DeviceTier_eq_dec : EqDecision DeviceTier.
Proof. solve_decision. Defined.

Definition DEVICE_TIERS : list (string * DeviceTier) :=
  [("free", free); ("trial", trial); ("pro", pro); ("enterprise", enterprise)].

Record DeviceClaims := {
  deviceUuid : string; uid : string; tier : DeviceTier; jti : string; pk : string; exp : json }.

(** ** verify.ts *)

Definition AUTH_BASE_PATH : string := "/api/auth".

(** [s.replace(/\/+$/, "")] *)
Fixpoint strip_slashes (s : string) : string :=
  match s with
  | EmptyString => EmptyString
  | String c s' =>
      match strip_slashes s' with
      | EmptyString => if is_char 47 c then EmptyString else String c EmptyString
      | t => String c t
      end
  end.

Definition deviceTokenIssuer (issuerBaseUrl : string) : string :=
  strip_slashes issuerBaseUrl +:+ AUTH_BASE_PATH.

#[local] Set Warnings "-register-all".

(** What the key resolver or [jwtVerify] throws: the kinds the catch
    distinguishes, and the [cause] each may carry. *)
Inductive ErrKind := JwksUnavailableError | JWTExpired | OtherError.
#[export] Instance ErrKind_eq_dec : EqDecision ErrKind.
Proof. solve_decision. Defined.

Inductive Err := mkErr (kind : ErrKind) (cause : option Err).

(** The loop looks at the error and at most four causes below it. *)
Fixpoint unavailable_within (depth : nat) (cur : option Err) : bool :=
  match depth, cur with
  | S depth', Some (mkErr k c) =>
      bool_decide (k = JwksUnavailableError) || unavailable_within depth' c
  | _, _ => false
  end.
Definition isJwksUnavailable (err : Err) : bool := unavailable_within 5 (Some err).

Inductive LicenseCode := INVALID | EXPIRED | REVOKED | UNAVAILABLE.
#[export] Instance LicenseCode_eq_dec : EqDecision LicenseCode.
Proof. solve_decision. Defined.

Definition license_error (c : LicenseCode) : ErrorCode :=
  match c with
  | INVALID => LICENSE_INVALID | EXPIRED => LICENSE_EXPIRED
  | REVOKED => LICENSE_REVOKED | UNAVAILABLE => LICENSE_UNAVAILABLE
  end.

(** [typeof v === "string" && v.length > 0] on an optional member. *)
Definition non_empty_string (o : option json) : option string :=
  match o with
  | Some (JStr s) => if strlen s >? 0 then Some s else None
  | _ => None
  end.

Definition valid_tier (o : option json) : option DeviceTier :=
  match o with Some (JStr s) => get s DEVICE_TIERS | _ => None end.

(** [typeof v === "number"] *)
Definition numeric (o : option json) : option json :=
  match o with Some (JInt n) => Some (JInt n) | Some JFrac => Some JFrac | _ => None end.

Section verify.
(** A JWK and its [kid]; the imported key; [importJWK(matched, "EdDSA")]; and
    [jwtVerify(token, getKey, { issuer, algorithms: ["EdDSA"] })], which asks
    the resolver for the key of the header's [kid]. *)
Context {JWK VerifyKey : Type}.
Context (kid_of : JWK → option string).
Context (importJWK : JWK → VerifyKey + Err).
Context (jwtVerify : string → (option string → VerifyKey + Err) → string → json + Err).

Definition getKey (getKeys : string → list JWK + Err) (kid : option string) : VerifyKey + Err :=
  match kid with
  | Some k =>
      if strlen k >? 0 then
        match getKeys k with
        | inr e => inr e
        | inl keys =>
            match list_find (λ j, kid_of j = Some k) keys with
            | None => inr (mkErr OtherError None)
            | Some (_, matched) => importJWK matched
            end
        end
      else inr (mkErr OtherError None)
  | None => inr (mkErr OtherError None)
  end.

Definition claims_of (payload : json) : DeviceClaims + LicenseCode :=
  match non_empty_string (field "deviceUuid" payload) with
  | None => inr INVALID
  | Some d =>
  match non_empty_string (field "azp" payload) with
  | None => inr INVALID
  | Some azp =>
  match non_empty_string (field "uid" payload) with
  | None => inr INVALID
  | Some u =>
  match valid_tier (field "tier" payload) with
  | None => inr INVALID
  | Some t =>
  match non_empty_string (field "pk" payload) with
  | None => inr INVALID
  | Some p =>
  match numeric (field "exp" payload) with
  | None => inr INVALID
  | Some x => inl {| deviceUuid := d; uid := u; tier := t; jti := azp; pk := p; exp := x |}
  end end end end end end.

Definition verifyDeviceToken (getKeys : string → list JWK + Err) (token expectedIssuer : string)
  : DeviceClaims + LicenseCode :=
  match jwtVerify token (getKey getKeys) expectedIssuer with
  | inl payload => claims_of payload
  | inr (mkErr k _ as err) =>
      if isJwksUnavailable err then inr UNAVAILABLE
      else inr (if decide (k = JWTExpired) then EXPIRED else INVALID)
  end.
End verify.

(** ** cache.ts *)

Record LicenseCacheEntry := {
  e_jti : string; e_deviceId : string; e_userId : string; e_tier : DeviceTier; e_pk : string;
  e_revoked : bool }.

Abbreviation LicenseCache := (jsmap string LicenseCacheEntry).

Definition with_revoked (b : bool) (e : LicenseCacheEntry) : LicenseCacheEntry :=
  {| e_jti := e.(e_jti); e_deviceId := e.(e_deviceId); e_userId := e.(e_userId);
     e_tier := e.(e_tier); e_pk := e.(e_pk); e_revoked := b |}.

Definition cache_set (maxEntries : Z) (entry : LicenseCacheEntry) (c : LicenseCache) : LicenseCache :=
  let c1 :=
    if negb (has entry.(e_deviceId) c) && (size c >=? maxEntries) then
      match oldest c with Some k => delete k c | None => c end
    else c in
  set entry.(e_deviceId) entry c1.

Definition markRevoked (deviceId : string) (userId : option string) (c : LicenseCache) : LicenseCache :=
  match get deviceId c with
  | None => c
  | Some entry =>
      match userId with
      | Some u => if decide (entry.(e_userId) = u) then set deviceId (with_revoked true entry) c else c
      | None => set deviceId (with_revoked true entry) c
      end
  end.

Definition dropByUser (userId : string) (c : LicenseCache) : LicenseCache * list string :=
  ((λ kv, if decide (kv.2.(e_userId) = userId) then (kv.1, with_revoked true kv.2) else kv) <$> c,
   e_deviceId <$> filter (λ e, e.(e_userId) = userId) (values c)).

(** ** gate.ts *)

Definition entry_of (claims : DeviceClaims) : LicenseCacheEntry :=
  {| e_jti := claims.(jti); e_deviceId := claims.(deviceUuid); e_userId := claims.(uid);
     e_tier := claims.(tier); e_pk := claims.(pk); e_revoked := false |}.

(** [post?.revoked && post.jti === claims.jti] *)
Definition revoked_for (post : option LicenseCacheEntry) (claims : DeviceClaims) : bool :=
  match post with
  | Some p => p.(e_revoked) && bool_decide (p.(e_jti) = claims.(jti))
  | None => false
  end.

(** The gate, from the point where the awaited verification settles: between
    that point and the result nothing else runs. *)
Definition gate_verify (maxEntries : Z) (verified : DeviceClaims + LicenseCode)
    (deviceId publicKeyBase64 : string) (c : LicenseCache)
  : LicenseCache * (LicenseCacheEntry + LicenseCode) :=
  match verified with
  | inr code => (c, inr code)
  | inl claims =>
      if negb (bool_decide (claims.(deviceUuid) = deviceId)) then (c, inr INVALID)
      else if negb (bool_decide (claims.(pk) = publicKeyBase64)) then (c, inr INVALID)
      else if revoked_for (get deviceId c) claims then (c, inr REVOKED)
      else (cache_set maxEntries (entry_of claims) c, inl (entry_of claims))
  end.

Definition gate_verifyAppToken (maxEntries : Z) (verified : DeviceClaims + LicenseCode) (c : LicenseCache)
  : LicenseCache * (LicenseCacheEntry + LicenseCode) :=
  match verified with
  | inr code => (c, inr code)
  | inl claims =>
      if revoked_for (get claims.(deviceUuid) c) claims then (c, inr REVOKED)
      else (cache_set maxEntries (entry_of claims) c, inl (entry_of claims))
  end.

(** ** The cache *)

(** Every entry is filed under its own device id. *)
Definition filed (c : LicenseCache) : Prop := ∀ d e, get d c = Some e → e.(e_deviceId) = d.

Lemma get_cache_set maxEntries e c d :
  wf c →
  get d (cache_set maxEntries e c) =
    if decide (d = e.(e_deviceId)) then Some e
    else if negb (has e.(e_deviceId) c) && (size c >=? maxEntries) && bool_decide (oldest c = Some d)
         then None else get d c.
Proof.
  intros Hwf. unfold cache_set. cbn zeta. rewrite get_set. case_decide as Hd; [done|].
  destruct (negb _ && _); simpl; [|done].
  destruct (oldest c) as [k|] eqn:Hk.
  - rewrite get_delete. case_decide as Hdk; [subst; by rewrite bool_decide_true|].
    by rewrite bool_decide_false by congruence.
  - by rewrite bool_decide_false.
Qed.

Lemma wf_cache_set maxEntries e c : wf c → wf (cache_set maxEntries e c).
Proof. intros. unfold cache_set. repeat case_match; auto with js. Qed.

Lemma get_map_values {A} (f : string → A → A) (c : jsmap string A) d :
  get d ((λ kv, (kv.1, f kv.1 kv.2)) <$> c) = f d <$> get d c.
Proof.
  induction c as [|[k v] c IH]; [done|]. rewrite fmap_cons. cbn [get fst snd].
  case_decide; [by subst|done].
Qed.

Lemma dropByUser_map u c :
  (dropByUser u c).1 =
    (λ kv, (kv.1, if decide (kv.2.(e_userId) = u) then with_revoked true kv.2 else kv.2)) <$> c.
Proof. unfold dropByUser. simpl. apply list_fmap_ext. intros _ [k v] _. simpl. by case_decide. Qed.

Lemma get_dropByUser u c d :
  get d (dropByUser u c).1 =
    (λ e, if decide (e.(e_userId) = u) then with_revoked true e else e) <$> get d c.
Proof.
  rewrite dropByUser_map.
  pose proof (get_map_values
    (λ _ (e : LicenseCacheEntry), if decide (e.(e_userId) = u) then with_revoked true e else e) c d) as H.
  exact H.
Qed.

Lemma keys_dropByUser u c : keys (dropByUser u c).1 = keys c.
Proof. unfold keys. rewrite dropByUser_map, <-list_fmap_compose. by apply list_fmap_ext. Qed.

(** A revocation without a user is for whoever holds the device. *)
Definition in_scope (u : option string) (e : LicenseCacheEntry) : bool :=
  match u with None => true | Some v => bool_decide (e.(e_userId) = v) end.

Lemma get_markRevoked d u c d' :
  get d' (markRevoked d u c) =
    if decide (d' = d) then (λ e, if in_scope u e then with_revoked true e else e) <$> get d c
    else get d' c.
Proof.
  unfold markRevoked. destruct (get d c) as [e|] eqn:He; [|case_decide; by subst].
  destruct u as [v|]; simpl; [destruct (decide (e_userId e = v)) as [Hv|Hv]|].
  - rewrite bool_decide_true, get_set by done. by case_decide.
  - rewrite bool_decide_false by done. case_decide; by subst.
  - rewrite get_set. by case_decide.
Qed.

(** What changes the cache: an accepted token, a revocation, an expiry. *)
Inductive COp :=
| CVerify (verified : DeviceClaims + LicenseCode) (deviceId publicKey : string)
| CVerifyApp (verified : DeviceClaims + LicenseCode)
| CRevoke (deviceId : string) (userId : option string)
| CDrop (userId : string).

Definition c_step (maxEntries : Z) (c : LicenseCache) (o : COp) : LicenseCache :=
  match o with
  | CVerify v d k => (gate_verify maxEntries v d k c).1
  | CVerifyApp v => (gate_verifyAppToken maxEntries v c).1
  | CRevoke d u => markRevoked d u c
  | CDrop u => (dropByUser u c).1
  end.

(** The token an operation stored, if it stored one. *)
Definition stored (maxEntries : Z) (c : LicenseCache) (o : COp) : option LicenseCacheEntry :=
  match o with
  | CVerify v d k => match (gate_verify maxEntries v d k c).2 with inl e => Some e | _ => None end
  | CVerifyApp v => match (gate_verifyAppToken maxEntries v c).2 with inl e => Some e | _ => None end
  | _ => None
  end.

Lemma gate_verify_spec maxEntries v d k c :
  match gate_verify maxEntries v d k c with
  | (c', inl e) => ∃ claims, v = inl claims ∧ claims.(deviceUuid) = d ∧ claims.(pk) = k ∧
      revoked_for (get d c) claims = false ∧ e = entry_of claims ∧ c' = cache_set maxEntries e c
  | (c', inr _) => c' = c
  end.
Proof.
  unfold gate_verify. destruct v as [claims|code]; [|done].
  destruct (bool_decide_reflect (deviceUuid claims = d)); [|done].
  destruct (bool_decide_reflect (pk claims = k)); [|done]. simpl.
  destruct (revoked_for (get d c) claims) eqn:Hr; [done|]. by exists claims.
Qed.

Lemma gate_app_spec maxEntries v c :
  match gate_verifyAppToken maxEntries v c with
  | (c', inl e) => ∃ claims, v = inl claims ∧
      revoked_for (get claims.(deviceUuid) c) claims = false ∧ e = entry_of claims ∧
      c' = cache_set maxEntries e c
  | (c', inr _) => c' = c
  end.
Proof.
  unfold gate_verifyAppToken. destruct v as [claims|code]; [|done].
  destruct (revoked_for _ claims) eqn:Hr; [done|]. by exists claims.
Qed.

(** Storing an entry that the revocation check let through. *)
Lemma revoked_entry_set maxEntries c d e claims :
  wf c → get d c = Some e → e.(e_revoked) = true →
  revoked_for (get claims.(deviceUuid) c) claims = false →
  get d (cache_set maxEntries (entry_of claims) c) = Some e ∨
  (get d (cache_set maxEntries (entry_of claims) c) = Some (entry_of claims) ∧
     claims.(deviceUuid) = d ∧ claims.(jti) ≠ e.(e_jti)) ∨
  (get d (cache_set maxEntries (entry_of claims) c) = None ∧ maxEntries <= size c).
Proof.
  intros Hwf He Hr Hnr. rewrite get_cache_set by done. cbn [entry_of e_deviceId].
  case_decide as Hd.
  - right; left. split_and!; [done|done|]. rewrite <-Hd, He in Hnr. simpl in Hnr.
    rewrite Hr in Hnr. simpl in Hnr. apply bool_decide_eq_false in Hnr. congruence.
  - destruct (negb _ && _ && _) eqn:Hc; [|by left]. reflect_bools. right; right. split; [done|lia].
Qed.

(** ** The properties *)

(** C33: The gate admits an agent only on a token whose signature and issuer
    [jwtVerify] checked, whose payload names this very device id and this very
    public key, and whose credential the cache does not hold as revoked for that
    device at that moment (the cache holds one credential per device, so an older
    revocation may have been displaced: [revoked_token_readmitted] below); the
    account it reports is the payload's [uid], and the entry is cached under the
    device. *)
Theorem gate_accepts {JWK VerifyKey} (kid_of : JWK → option string) (importJWK : JWK → VerifyKey + Err)
    (jwtVerify : string → (option string → VerifyKey + Err) → string → json + Err)
    (getKeys : string → list JWK + Err) (maxEntries : Z) (token issuer d k : string)
    (c c' : LicenseCache) (e : LicenseCacheEntry) :
  gate_verify maxEntries (verifyDeviceToken kid_of importJWK jwtVerify getKeys token issuer) d k c = (c', inl e) →
  ∃ payload,
    jwtVerify token (getKey kid_of importJWK getKeys) issuer = inl payload ∧
    field "deviceUuid" payload = Some (JStr d) ∧ field "pk" payload = Some (JStr k) ∧
    field "uid" payload = Some (JStr e.(e_userId)) ∧ field "azp" payload = Some (JStr e.(e_jti)) ∧
    e.(e_deviceId) = d ∧ e.(e_pk) = k ∧ strlen e.(e_userId) > 0 ∧
    (∀ post, get d c = Some post → post.(e_revoked) = true → post.(e_jti) ≠ e.(e_jti)) ∧
    get d c' = Some e.
Proof.
  intros Hg. pose proof (gate_verify_spec maxEntries
    (verifyDeviceToken kid_of importJWK jwtVerify getKeys token issuer) d k c) as Hs.
  rewrite Hg in Hs. destruct Hs as (claims & Hv & <- & <- & Hr & -> & ->).
  assert (∀ o x, non_empty_string o = Some x → o = Some (JStr x) ∧ strlen x > 0) as Hne.
  { intros [[]|] x; simpl; try done. destruct (Z.gtb_spec (strlen s) 0); [|done].
    intros [= <-]. split; [done|lia]. }
  unfold verifyDeviceToken in Hv.
  destruct (jwtVerify _ _ _) as [payload|[kd cause]]; [|by repeat case_match].
  exists payload. split; [done|]. unfold claims_of in Hv. repeat (case_match; [|done]).
  simplify_eq. cbn [deviceUuid pk uid jti entry_of e_userId e_jti e_deviceId e_pk].
  repeat match goal with H : non_empty_string _ = Some _ |- _ => apply Hne in H as [??] end.
  split_and!; try done.
  - intros post Hp Hrev Hj. cbn [deviceUuid] in Hr. rewrite Hp in Hr. simpl in Hr. rewrite Hrev in Hr.
    simpl in Hr. apply bool_decide_eq_false in Hr. by apply Hr.
  - unfold cache_set. by rewrite get_set_eq.
Qed.

(** A revocation sticks.  Whatever the gate, another revocation or an
    expiry does next, the revoked entry of a device stays revoked, unless a
    verified token with a different credential id replaces it or the cache, at
    capacity, evicts it; and while it stays, the gate refuses that credential
    both to an agent and to an app. *)
Theorem revocation_sticks (maxEntries : Z) (c : LicenseCache) (o : COp) (d : string) (e : LicenseCacheEntry) :
  wf c → get d c = Some e → e.(e_revoked) = true →
  (get d (c_step maxEntries c o) = Some e ∨
   (∃ e', get d (c_step maxEntries c o) = Some e' ∧ stored maxEntries c o = Some e' ∧
          e'.(e_jti) ≠ e.(e_jti)) ∨
   (get d (c_step maxEntries c o) = None ∧ maxEntries <= size c)) ∧
  (∀ claims k, claims.(deviceUuid) = d → claims.(jti) = e.(e_jti) → claims.(pk) = k →
     (gate_verify maxEntries (inl claims) d k c).2 = inr REVOKED ∧
     (gate_verifyAppToken maxEntries (inl claims) c).2 = inr REVOKED).
Proof.
  intros Hwf He Hr.
  assert (with_revoked true e = e) as Hsame by (destruct e; simpl in *; by subst).
  split.
  - destruct o as [v d' k|v|d' u|u]; cbn [c_step stored].
    + pose proof (gate_verify_spec maxEntries v d' k c) as Hs.
      destruct (gate_verify maxEntries v d' k c) as [c' [e'|code]]; simpl; [|subst; by left].
      destruct Hs as (claims & -> & <- & _ & Hnr & -> & ->).
      destruct (revoked_entry_set maxEntries c d e claims Hwf He Hr Hnr) as [H|[(H & _ & Hj)|H]]; eauto 8.
    + pose proof (gate_app_spec maxEntries v c) as Hs.
      destruct (gate_verifyAppToken maxEntries v c) as [c' [e'|code]]; simpl; [|subst; by left].
      destruct Hs as (claims & -> & Hnr & -> & ->).
      destruct (revoked_entry_set maxEntries c d e claims Hwf He Hr Hnr) as [H|[(H & _ & Hj)|H]]; eauto 8.
    + left. rewrite get_markRevoked. case_decide; [|done]. subst d'. rewrite He. simpl.
      destruct (in_scope u e); [by rewrite Hsame|done].
    + left. rewrite get_dropByUser, He. simpl. case_decide; [by rewrite Hsame|done].
  - intros claims k <- Hj <-. unfold gate_verify, gate_verifyAppToken.
    rewrite !bool_decide_true by done. simpl.
    rewrite He. simpl. by rewrite Hr, bool_decide_true.
Qed.

(** A revocation reaches the account that asked for it and no other: a
    scoped [markRevoked] changes the entry of its own user only, and
    [dropByUser] revokes exactly the entries of one user, whose device ids it
    returns. *)
Theorem revocation_scoped (c : LicenseCache) (d u : string) :
  wf c → filed c →
  (∀ d', get d' (markRevoked d (Some u) c) =
     (λ e, if decide (d' = d ∧ e.(e_userId) = u) then with_revoked true e else e) <$> get d' c) ∧
  (∀ d', get d' (dropByUser u c).1 =
     (λ e, if decide (e.(e_userId) = u) then with_revoked true e else e) <$> get d' c) ∧
  (∀ d', d' ∈ (dropByUser u c).2 ↔ ∃ e, get d' c = Some e ∧ e.(e_userId) = u).
Proof.
  intros Hwf Hf. split_and!.
  - intros d'. rewrite get_markRevoked. case_decide as Hd.
    + subst d'. destruct (get d c) as [e|]; [|done]. simpl.
      destruct (bool_decide_reflect (e_userId e = u)); [rewrite decide_True by done|rewrite decide_False by naive_solver]; done.
    + destruct (get d' c); [|done]. simpl. by rewrite decide_False by naive_solver.
  - apply get_dropByUser.
  - intros d'. unfold dropByUser. simpl. rewrite list_elem_of_fmap. split.
    + intros (e & -> & [Hu Hin]%list_elem_of_filter). exists e. split; [|done].
      unfold values in Hin. apply list_elem_of_fmap in Hin as ([k e'] & -> & Hin).
      apply elem_get_Some in Hin; [|done]. simpl. by rewrite (Hf k e' Hin).
    + intros (e & He & Hu). exists e. split; [by rewrite (Hf _ _ He)|].
      apply list_elem_of_filter. split; [done|]. apply list_elem_of_fmap.
      exists (d', e). split; [done|by apply get_Some_elem].
Qed.

(** The cache keeps one credential per device: once a token with a new
    credential id is accepted, the revoked one before it is accepted again. *)
Definition old_claims : DeviceClaims :=
  {| deviceUuid := "d"; uid := "u"; tier := free; jti := "old"; pk := "k"; exp := JInt 1 |}.
Definition new_claims : DeviceClaims :=
  {| deviceUuid := "d"; uid := "u"; tier := free; jti := "new"; pk := "k"; exp := JInt 1 |}.

Lemma revoked_token_readmitted :
  let c1 := (gate_verify 10 (inl old_claims) "d" "k" []).1 in
  let c2 := markRevoked "d" (Some "u") c1 in
  let c3 := (gate_verify 10 (inl new_claims) "d" "k" c2).1 in
  (gate_verify 10 (inl old_claims) "d" "k" c2).2 = inr REVOKED ∧
  (gate_verify 10 (inl old_claims) "d" "k" c3).2 = inl (entry_of old_claims).
Proof. vm_compute. done. Qed.

(** *** Concrete gates *)
Definition demo_jwtVerify (token : string) (resolve : option string → unit + Err) (issuer : string)
  : json + Err :=
  if bool_decide (issuer = "https://a.io/api/auth") then
    match resolve (Some "k1") with
    | inl _ => inl (JObj [("deviceUuid", JStr token); ("azp", JStr "j"); ("uid", JStr "u");
                          ("tier", JStr "pro"); ("pk", JStr "key"); ("exp", JInt 9)])
    | inr e => inr (mkErr OtherError (Some e))
    end
  else inr (mkErr OtherError None).

Definition demo_gate (token : string) (c : LicenseCache) : LicenseCache * (LicenseCacheEntry + LicenseCode) :=
  gate_verify 10 (verifyDeviceToken (λ k, Some k) (λ _, inl ()) demo_jwtVerify (λ _, inl ["k1"])
    token (deviceTokenIssuer "https://a.io//")) "dev" "key" c.

(** The gate is run: the device's own token is admitted, another device's is not,
    nor its own once it is revoked. *)
Lemma gate_accepts_witness :
  (∃ e payload, (demo_gate "dev" []).2 = inl e ∧ e.(e_userId) = "u" ∧ get "dev" (demo_gate "dev" []).1 = Some e ∧
    demo_jwtVerify "dev" (getKey (λ k, Some k) (λ _, inl ()) (λ _, inl ["k1"])) (deviceTokenIssuer "https://a.io//") = inl payload ∧
    field "deviceUuid" payload = Some (JStr "dev") ∧ field "pk" payload = Some (JStr "key")) ∧
  (demo_gate "other" []).2 = inr INVALID ∧
  (demo_gate "dev" (markRevoked "dev" (Some "u") (demo_gate "dev" []).1)).2 = inr REVOKED.
Proof.
  split; [|split; vm_compute; reflexivity].
  assert ((demo_gate "dev" []).2 = inl {| e_jti := "j"; e_deviceId := "dev"; e_userId := "u"; e_tier := pro; e_pk := "key"; e_revoked := false |}) as He by (vm_compute; reflexivity).
  destruct (demo_gate "dev" []) as [c' out] eqn:Hg. cbn [fst snd] in *. subst out.
  destruct (gate_accepts (λ k : string, Some k) (λ _, inl ()) demo_jwtVerify (λ _, inl ["k1"]) 10
    "dev" (deviceTokenIssuer "https://a.io//") "dev" "key" [] c' _ Hg) as (p & H1 & H2 & H3 & _ & _ & _ & _ & _ & _ & H4).
  eexists _, p. split_and!; [reflexivity|reflexivity|exact H4|exact H1|exact H2|exact H3].
Defined.

Lemma revocation_sticks_witness :
  let c := markRevoked "d" (Some "u") (gate_verify 10 (inl old_claims) "d" "k" []).1 in
  get "d" c = Some (with_revoked true (entry_of old_claims)) ∧
  (gate_verify 10 (inl old_claims) "d" "k" c).2 = inr REVOKED.
Proof.
  intros c. split; [reflexivity|].
  apply (revocation_sticks 10 c (CDrop "x") "d" (with_revoked true (entry_of old_claims)));
    [apply NoDup_singleton|reflexivity..].
Defined.

Lemma revocation_scoped_witness :
  let c := (gate_verify 10 (inl old_claims) "d" "k" []).1 in
  get "d" (markRevoked "d" (Some "other") c) = Some (entry_of old_claims).
Proof.
  intros c. assert (wf c) as Hwf by apply NoDup_singleton.
  assert (filed c) as Hf.
  { intros d e He. apply get_Some_elem in He. unfold c in He. simpl in He.
    apply list_elem_of_singleton in He. by simplify_eq. }
  rewrite (proj1 (revocation_scoped c "d" "other" Hwf Hf) "d"). reflexivity.
Defined.
