(* ===== verification/JwksCache.v ===== *)
(** * JwksCache: the key server's keys (src/relay/src/license/jwks-cache.ts)

    The cache in front of the web's JWKS endpoint, as a transition system: a
    caller asks for the keys and is answered at once or waits for the one fetch
    in flight; the fetch settles and every waiter is answered.  [License.getKey]
    is the caller; the fetch itself is the outside. *)

From Stdlib Require Import Sorting.Sorted.
From S2P Require Import Prelude.

Local Open Scope Z_scope.
Local Open Scope js_scope.

Definition DEFAULT_TTL_MS : Z := 24 * 60 * 60 * 1000.
Definition DEFAULT_KID_MISS_REFRESH_COOLDOWN_MS : Z := 60 * 1000.

Section cache.
Context {JWK : Type} (kid_of : JWK → option string).
Context (ttlMs kidMissRefreshCooldownMs : Z).

(** Who waits for the fetch: a call that missed a kid, or one that had no
    fresh keys. *)
Inductive Wait := KidMiss | Stale.

(** What a call comes to: keys, the absent cache read as if it were keys, or
    [JwksUnavailableError]. *)
Inductive Answer := Keys (keys : list JWK) | Undefined | Unavailable.

(** What the fetch comes to: it throws, answers with an error status, or with a
    body, which has an array of keys or does not. *)
Inductive FetchResult := Threw | NotOk | Body (keys : option (list JWK)).

Record JwksCache := {
  cachedKeys : option (list JWK);
  cachedAt : Z;
  pendingFetch : bool;
  lastKidMissRefreshAt : Z;
  (** the calls that await the fetch *)
  waiting : list (nat * Wait);
  (** history, latest first: the fetches begun and why, the key sets received,
      and the answers, with how many key sets had been received by then *)
  fetches : list (Z * Wait);
  received : list (Z * list JWK);
  answers : list (nat * Answer * nat) }.

Definition new_cache : JwksCache :=
  {| cachedKeys := None; cachedAt := 0; pendingFetch := false; lastKidMissRefreshAt := 0;
     waiting := []; fetches := []; received := []; answers := [] |}.

Definition answer (caller : nat) (a : Answer) (c : JwksCache) : JwksCache :=
  {| cachedKeys := c.(cachedKeys); cachedAt := c.(cachedAt); pendingFetch := c.(pendingFetch);
     lastKidMissRefreshAt := c.(lastKidMissRefreshAt); waiting := c.(waiting); fetches := c.(fetches);
     received := c.(received); answers := (caller, a, length c.(received)) :: c.(answers) |}.

Definition set_kid_miss (t : Z) (c : JwksCache) : JwksCache :=
  {| cachedKeys := c.(cachedKeys); cachedAt := c.(cachedAt); pendingFetch := c.(pendingFetch);
     lastKidMissRefreshAt := t; waiting := c.(waiting); fetches := c.(fetches);
     received := c.(received); answers := c.(answers) |}.

(** [this.cachedKeys as JWK[]] *)
Definition cached_answer (c : JwksCache) : Answer :=
  match c.(cachedKeys) with Some keys => Keys keys | None => Undefined end.

(** [refresh]: join the fetch in flight or begin one; the caller awaits it. *)
Definition refresh (caller : nat) (why : Wait) (now : Z) (c : JwksCache) : JwksCache :=
  {| cachedKeys := c.(cachedKeys); cachedAt := c.(cachedAt); pendingFetch := true;
     lastKidMissRefreshAt := c.(lastKidMissRefreshAt); waiting := c.(waiting) ++ [(caller, why)];
     fetches := if c.(pendingFetch) then c.(fetches) else (now, why) :: c.(fetches);
     received := c.(received); answers := c.(answers) |}.

Definition fresh (now : Z) (c : JwksCache) : bool :=
  match c.(cachedKeys) with Some _ => now - c.(cachedAt) <? ttlMs | None => false end.

(** [opts.forKid] is given, not empty, and in no cached key. *)
Definition misses (forKid : option string) (c : JwksCache) : bool :=
  match forKid with
  | Some kid => (strlen kid >? 0) && negb (existsb (λ k, bool_decide (kid_of k = Some kid)) (c.(cachedKeys) ?| []))
  | None => false
  end.

Definition getKeys (caller : nat) (forKid : option string) (now : Z) (c : JwksCache) : JwksCache :=
  if fresh now c && misses forKid c then
    if now - c.(lastKidMissRefreshAt) <? kidMissRefreshCooldownMs then answer caller (cached_answer c) c
    else refresh caller KidMiss now (set_kid_miss now c)
  else if fresh now c then answer caller (cached_answer c) c
  else refresh caller Stale now c.

(** [doFetch] *)
Definition doFetch (result : FetchResult) (now : Z) (c : JwksCache) : option (list JWK) * JwksCache :=
  match result with
  | Body (Some keys) =>
      (Some keys,
       {| cachedKeys := Some keys; cachedAt := now; pendingFetch := c.(pendingFetch);
          lastKidMissRefreshAt := c.(lastKidMissRefreshAt); waiting := c.(waiting); fetches := c.(fetches);
          received := (now, keys) :: c.(received); answers := c.(answers) |})
  | Threw | NotOk | Body None => (None, c)
  end.

(** What a waiter makes of the settled fetch. *)
Definition settle (got : option (list JWK)) (c : JwksCache) (w : nat * Wait) : JwksCache :=
  answer w.1
    match got with
    | Some keys => Keys keys
    | None =>
        match w.2, c.(cachedKeys) with
        | KidMiss, _ => cached_answer c
        | Stale, Some keys => Keys keys
        | Stale, None => Unavailable
        end
    end c.

(** The fetch settles: [pendingFetch] is cleared and the waiters go on. *)
Definition fetch_settled (result : FetchResult) (now : Z) (c : JwksCache) : JwksCache :=
  let '(got, c) := doFetch result now c in
  let cleared :=
    {| cachedKeys := c.(cachedKeys); cachedAt := c.(cachedAt); pendingFetch := false;
       lastKidMissRefreshAt := c.(lastKidMissRefreshAt); waiting := []; fetches := c.(fetches);
       received := c.(received); answers := c.(answers) |} in
  foldl (settle got) cleared c.(waiting).

(** ** The cache's life, on a clock that does not step back *)

Inductive Reach : JwksCache → Z → nat → Prop :=
  | reach_new t : Reach new_cache t 0
  | reach_get c t t' calls caller forKid :
      Reach c t calls → t <= t' → Reach (getKeys caller forKid t' c) t' (S calls)
  | reach_settled c t t' calls result :
      Reach c t calls → t <= t' → c.(pendingFetch) = true → Reach (fetch_settled result t' c) t' calls.

(** ** The invariant *)

Definition kid_miss_starts (c : JwksCache) : list Z := omap (λ f, match f.2 with KidMiss => Some f.1 | Stale => None end) c.(fetches).

Definition answer_ok (rs : list (Z * list JWK)) (a : nat * Answer * nat) : Prop :=
  match a.1.2 with
  | Keys keys => keys ∈ rs.*2
  | Undefined => False
  | Unavailable => a.2 = 0%nat
  end.

Definition stale_start_ok (rs : list (Z * list JWK)) (f : Z * Wait) : Prop :=
  match f.2 with
  | Stale => ∀ at_ keys, (at_, keys) ∈ rs → at_ < f.1 → ttlMs <= f.1 - at_
  | KidMiss => True
  end.

Record Inv (c : JwksCache) (now : Z) (calls : nat) : Prop := {
  inv_cached : match c.(cachedKeys) with
    | Some keys => (c.(cachedAt), keys) ∈ c.(received)
    | None => c.(received) = [] end;
  inv_times : ∀ at_ keys, (at_, keys) ∈ c.(received) → at_ <= c.(cachedAt) ∧ c.(cachedAt) <= now;
  inv_waiting : c.(pendingFetch) = false → c.(waiting) = [];
  inv_kid_waits : ∀ caller, (caller, KidMiss) ∈ c.(waiting) → c.(cachedKeys) ≠ None;
  inv_answered : (length c.(answers) + length c.(waiting))%nat = calls;
  inv_answers : Forall (answer_ok c.(received)) c.(answers);
  inv_begun : Forall (λ f, f.1 <= now) c.(fetches);
  inv_last : Forall (λ t, t <= c.(lastKidMissRefreshAt)) (kid_miss_starts c);
  inv_spaced : StronglySorted (λ later earlier, kidMissRefreshCooldownMs <= later - earlier) (kid_miss_starts c);
  inv_stale : Forall (stale_start_ok c.(received)) c.(fetches) }.

Lemma inv_later c t t' calls : Inv c t calls → t <= t' → Inv c t' calls.
Proof.
  intros [] Hle. split; try done.
  - intros a k Hk. specialize (inv_times0 a k Hk). lia.
  - eapply Forall_impl; [exact inv_begun0|]. simpl. lia.
Qed.

Lemma inv_answer c t calls caller a :
  Inv c t calls → answer_ok c.(received) (caller, a, length c.(received)) → Inv (answer caller a c) t (S calls).
Proof. intros [] Ha. split; try done; simpl; [lia|by constructor]. Qed.

Lemma cached_answer_ok c t calls caller n :
  Inv c t calls → c.(cachedKeys) ≠ None → answer_ok c.(received) (caller, cached_answer c, n).
Proof.
  intros Hc Hs. unfold answer_ok, cached_answer. simpl. pose proof (inv_cached _ _ _ Hc) as Hk.
  destruct (cachedKeys c) as [keys|]; [|done]. change keys with (cachedAt c, keys).2. by apply list_elem_of_fmap_2.
Qed.

Lemma fresh_cached now c : fresh now c = true → c.(cachedKeys) ≠ None ∧ now - c.(cachedAt) < ttlMs.
Proof. unfold fresh. destruct (cachedKeys c); [|done]. intros ?%Z.ltb_lt. done. Qed.

Lemma inv_refresh c t calls caller why :
  Inv c t calls → (why = KidMiss → c.(cachedKeys) ≠ None) →
  (why = KidMiss → c.(lastKidMissRefreshAt) = t ∧ Forall (λ s, kidMissRefreshCooldownMs <= t - s) (kid_miss_starts c)) →
  (why = Stale → stale_start_ok c.(received) (t, Stale)) →
  Inv (refresh caller why t c) t (S calls).
Proof.
  intros [] Hk Hl Hst. split; try done; simpl.
  - intros w [Hw|[= <- <-]%list_elem_of_singleton]%elem_of_app; eauto.
  - rewrite length_app. simpl. lia.
  - destruct (pendingFetch c); [done|]. constructor; [simpl; lia|done].
  - unfold kid_miss_starts in *. simpl. destruct (pendingFetch c); [done|]. destruct why; simpl; [|done].
    constructor; [|done]. destruct (Hl eq_refl) as [-> _]. lia.
  - unfold kid_miss_starts in *. simpl. destruct (pendingFetch c); [done|]. destruct why; simpl; [|done].
    constructor; [done|]. by apply Hl.
  - destruct (pendingFetch c); [done|]. constructor; [|done]. destruct why; [done|by apply Hst].
Qed.

Lemma inv_set_kid_miss c t calls :
  Inv c t calls → c.(lastKidMissRefreshAt) <= t → Inv (set_kid_miss t c) t calls.
Proof.
  intros [] Hle. split; try done. simpl. eapply Forall_impl; [exact inv_last0|]. simpl. lia.
Qed.

Lemma inv_getKeys c t calls caller forKid :
  0 <= kidMissRefreshCooldownMs → Inv c t calls → Inv (getKeys caller forKid t c) t (S calls).
Proof.
  intros Hpos Hc. unfold getKeys. destruct (fresh t c) eqn:Hf; simpl.
  - apply fresh_cached in Hf as [Hs _]. destruct (misses forKid c).
    + destruct (Z.ltb_spec (t - c.(lastKidMissRefreshAt)) kidMissRefreshCooldownMs) as [|Hge].
      { apply inv_answer; [done|]. by apply (cached_answer_ok c t calls). }
      apply inv_refresh; [apply inv_set_kid_miss; [done|lia]|done| |done]. intros _. split; [done|].
      eapply Forall_impl; [apply (inv_last _ _ _ Hc)|]. simpl. lia.
    + apply inv_answer; [done|]. by apply (cached_answer_ok c t calls).
  - apply inv_refresh; [done|done|done|]. intros _ at_ keys Hk _. simpl.
    pose proof (inv_cached _ _ _ Hc) as Hin. destruct (inv_times _ _ _ Hc at_ keys Hk) as [Hle _].
    unfold fresh in Hf. destruct (cachedKeys c); [apply Z.ltb_ge in Hf; lia|]. rewrite Hin in Hk. by apply not_elem_of_nil in Hk.
Qed.

(** What [doFetch] leaves, before the waiters go on. *)
Lemma inv_doFetch result c t calls :
  Inv c t calls → c.(pendingFetch) = true →
  let '(got, c') := doFetch result t c in
  Inv c' t calls ∧ c'.(waiting) = c.(waiting) ∧ c'.(pendingFetch) = true ∧
  match got with Some keys => c'.(cachedKeys) = Some keys | None => True end.
Proof.
  intros Hc Hp. assert (∀ c', c' = c → Inv c' t calls ∧ c'.(waiting) = c.(waiting) ∧ c'.(pendingFetch) = true ∧ True) as Hsame
    by (by intros ? ->).
  destruct result as [| |[keys|]]; simpl; try by apply Hsame. split_and!; [|done..]. destruct Hc.
  assert (∀ at_ k, (at_, k) ∈ received c → at_ <= t) as Hpast.
  { intros a k Hk. destruct (inv_times0 a k Hk). lia. }
  split; try done; simpl.
  - left.
  - intros at_ k [[= -> ->]|Hk]%elem_of_cons; [lia|]. specialize (Hpast _ _ Hk). lia.
  - eapply Forall_impl; [exact inv_answers0|]. intros a. unfold answer_ok. destruct a.1.2; simpl; [by right|done|done].
  - rewrite Forall_forall in *. intros f Hf. specialize (inv_stale0 f Hf). specialize (inv_begun0 f Hf).
    unfold stale_start_ok in *. destruct f.2; [done|]. intros at_ k [[= -> ->]|Hk]%elem_of_cons Hlt; [simpl in *; lia|]. eauto.
Qed.

Lemma inv_settle got ws c t calls :
  Inv c t calls → c.(waiting) = [] →
  (∀ caller, (caller, KidMiss) ∈ ws → c.(cachedKeys) ≠ None) →
  match got with Some keys => c.(cachedKeys) = Some keys | None => True end →
  Inv (foldl (settle got) c ws) t (calls + length ws).
Proof.
  revert c calls. induction ws as [|w ws IH]; intros c calls Hc Hw Hk Hg; simpl; [by rewrite Nat.add_0_r|].
  replace (calls + S (length ws))%nat with (S calls + length ws)%nat by lia. apply IH; [|done| |done].
  - unfold settle. apply inv_answer; [done|]. destruct got as [keys|].
    + pose proof (cached_answer_ok c t calls w.1 (length c.(received)) Hc) as Ha. unfold cached_answer in Ha.
      rewrite Hg in Ha. by apply Ha.
    + destruct w as [caller []]; simpl.
      * apply (cached_answer_ok c t calls); [done|]. apply (Hk caller). left.
      * pose proof (inv_cached _ _ _ Hc) as Hin. destruct (cachedKeys c) as [keys|] eqn:Hck; [|by rewrite Hin].
        pose proof (cached_answer_ok c t calls caller (length c.(received)) Hc) as Ha. unfold cached_answer in Ha.
        rewrite Hck in Ha. by apply Ha.
  - intros caller Hin. apply (Hk caller). by right.
Qed.

Lemma inv_fetch_settled result c t calls :
  Inv c t calls → c.(pendingFetch) = true → Inv (fetch_settled result t c) t calls.
Proof.
  intros Hc Hp. unfold fetch_settled. pose proof (inv_doFetch result c t calls Hc Hp) as Hd.
  destruct (doFetch result t c) as [got c1]. destruct Hd as (Hc1 & Hw & _ & Hg).
  set (cleared := Build_JwksCache _ _ _ _ _ _ _ _).
  replace calls with (length (answers c1) + length (waiting c1))%nat by apply (inv_answered _ _ _ Hc1).
  apply inv_settle; [|done|apply (inv_kid_waits _ _ _ Hc1)|done].
  destruct Hc1. split; try done; simpl; try lia. by intros caller Hin%not_elem_of_nil.
Qed.

Lemma inv_reach c t calls : 0 <= kidMissRefreshCooldownMs → Reach c t calls → Inv c t calls.
Proof.
  intros Hpos. induction 1 as [t|c t t' calls caller forKid _ IH Hle|c t t' calls result _ IH Hle Hp].
  - split; unfold kid_miss_starts; simpl; try done; try by constructor.
    + by intros at_ keys Hin%not_elem_of_nil.
    + by intros caller Hin%not_elem_of_nil.
  - apply inv_getKeys; [done|]. by apply (inv_later c t).
  - apply inv_fetch_settled; [|done]. by apply (inv_later c t).
Qed.

(** The key server is asked rarely and its outages do not turn into wrong
    answers.  In every state the cache can reach: fetches begun for an unknown
    kid are at least the cool-down apart, whatever kids were asked for, and any
    other fetch is begun only when every key set received before it is out of
    date; each call has been answered once or awaits the fetch in flight; the
    keys answered are a key set the server sent; and a call is told the keys
    are unavailable only if none had ever been received. *)
Theorem jwks_cache_discipline c t calls :
  0 <= kidMissRefreshCooldownMs → Reach c t calls →
  StronglySorted (λ later earlier, kidMissRefreshCooldownMs <= later - earlier) (kid_miss_starts c) ∧
  (∀ begun at_ keys, (begun, Stale) ∈ c.(fetches) → (at_, keys) ∈ c.(received) → at_ < begun → ttlMs <= begun - at_) ∧
  (length c.(answers) + length c.(waiting))%nat = calls ∧ (c.(pendingFetch) = false → c.(waiting) = []) ∧
  ∀ caller a n, (caller, a, n) ∈ c.(answers) →
    match a with
    | Keys keys => ∃ at_, (at_, keys) ∈ c.(received)
    | Undefined => False
    | Unavailable => n = 0%nat
    end.
Proof.
  intros Hpos Hr. pose proof (inv_reach c t calls Hpos Hr) as Hc. split_and!.
  - apply (inv_spaced _ _ _ Hc).
  - intros begun at_ keys Hf. pose proof (inv_stale _ _ _ Hc) as Hs. rewrite Forall_forall in Hs. apply (Hs _ Hf).
  - apply (inv_answered _ _ _ Hc).
  - apply (inv_waiting _ _ _ Hc).
  - intros caller a n Ha. pose proof (inv_answers _ _ _ Hc) as Hs. rewrite Forall_forall in Hs. specialize (Hs _ Ha).
    destruct a; simpl in Hs; [|done|done]. apply list_elem_of_fmap in Hs as ([at_ k] & -> & Hin). by exists at_.
Qed.
End cache.

(** Keys of two kids; a third kid is asked for twice, a second apart, and the
    server is down. *)
Lemma jwks_cache_discipline_witness :
  let kid := λ k : string, Some k in
  let get n k at_ := getKeys kid DEFAULT_TTL_MS DEFAULT_KID_MISS_REFRESH_COOLDOWN_MS n k at_ in
  let c := fetch_settled Threw 100500
    (get 3%nat (Some "z") 100400 (get 2%nat (Some "z") 100300
      (fetch_settled (Body (Some ["a"; "b"])) 100200 (get 1%nat (Some "a") 100000 new_cache)))) in
  c.(answers) = [(2%nat, Keys ["a"; "b"], 1%nat); (3%nat, Keys ["a"; "b"], 1%nat); (1%nat, Keys ["a"; "b"], 1%nat)] ∧
  StronglySorted (λ later earlier, DEFAULT_KID_MISS_REFRESH_COOLDOWN_MS <= later - earlier) (kid_miss_starts c).
Proof.
  intros kid get c. split; [vm_compute; reflexivity|].
  refine (proj1 (jwks_cache_discipline kid DEFAULT_TTL_MS DEFAULT_KID_MISS_REFRESH_COOLDOWN_MS c 100500 3 _ _)); [vm_compute; discriminate|].
  apply reach_settled with 100400; [|lia|vm_compute; reflexivity].
  apply reach_get with 100300; [|lia]. apply reach_get with 100200; [|lia].
  apply reach_settled with 100000; [|lia|vm_compute; reflexivity].
  apply reach_get with 100000; [|lia]. apply reach_new.
Defined.
