(* ===== verification/PeerLease.v ===== *)
(** * PeerLease: a host's authorization to talk to its peers

    src/bridge/src/peer/authorization-lease.ts.  The host asks the server for a
    snapshot of the peers it may talk to and holds it for a limited time, on two
    clocks.  A pushed policy change, an invalidation, a refusal or the end of the
    lease drops it.

    Each handler runs at one instant: [Instant] holds what the monotonic and the
    wall clock read there.  A request in flight is a state; its answer, its
    failure and the timers are events.  The schema of the answer is the event's:
    a response that does not parse is [Malformed]. *)

From Stdlib Require Import QArith.
From S2P Require Import Prelude.

Local Open Scope Z_scope.
Local Open Scope js_scope.

Definition PEER_LEASE_MS : Z := 60000.

(** ** Snapshots *)

Record EndpointRegistration := { endpointId : string; ep_generation : string }.
Record AuthorizedPeer := { peer_deviceId : string; ed25519Pub : string; peer_endpoint : option EndpointRegistration }.

Record PeerAuthorizationSnapshot := {
  accountId : string;
  deviceId : string;
  enrollmentId : string;
  policyGeneration : string;
  allowed_ : bool;
  leaseMs : Z;
  endpoint : option EndpointRegistration;
  peers : list AuthorizedPeer }.

Record EnrollmentIdentity := { id_account : string; id_device : string; id_enrollment : string }.

Inductive LeaseFailure := expired | denied | revoked | rotated | lease_closed.

Record Instant := { mono : Z; wall : Z }.

(** What a request in flight has captured. *)
Record Attempt := { a_generation : Z; a_policyChanges : Z; a_started : Z; a_startedWall : Z; a_timeoutMs : Z }.

(** How a [refresh] ended. *)
Inductive RefreshOutcome := Resolved (ok : bool) | Rejected.

(** What the owner is told. *)
Inductive LeaseEffect := OnInvalidated (reason : LeaseFailure) | OnSnapshot (s : PeerAuthorizationSnapshot).

Record Lease := {
  snapshot : option PeerAuthorizationSnapshot;
  deadline : Z;
  wallDeadline : Z;
  generation : Z;
  policy : Z;
  policyChanges : Z;
  pending : option Attempt;
  (** the delays the two timers were armed with *)
  expiryTimer : option Z;
  refreshTimer : option Q;
  stopped : bool;
  transientFailures : Z;
  (** history: outcomes, effects, the policy changes observed, and the request
      the present snapshot came from *)
  outcomes : list RefreshOutcome;
  effects : list LeaseEffect;
  observed : list Z;
  source : option Attempt }.

Definition new_lease : Lease :=
  {| snapshot := None; deadline := 0; wallDeadline := 0; generation := 0; policy := -1; policyChanges := 0; pending := None;
     expiryTimer := None; refreshTimer := None; stopped := false; transientFailures := 0;
     outcomes := []; effects := []; observed := []; source := None |}.

Definition set_pending (p : option Attempt) (l : Lease) : Lease :=
  {| snapshot := l.(snapshot); deadline := l.(deadline); wallDeadline := l.(wallDeadline); generation := l.(generation);
     policy := l.(policy); policyChanges := l.(policyChanges); pending := p; expiryTimer := l.(expiryTimer);
     refreshTimer := l.(refreshTimer); stopped := l.(stopped); transientFailures := l.(transientFailures);
     outcomes := l.(outcomes); effects := l.(effects); observed := l.(observed); source := l.(source) |}.
Definition set_refreshTimer (t : option Q) (l : Lease) : Lease :=
  {| snapshot := l.(snapshot); deadline := l.(deadline); wallDeadline := l.(wallDeadline); generation := l.(generation);
     policy := l.(policy); policyChanges := l.(policyChanges); pending := l.(pending); expiryTimer := l.(expiryTimer);
     refreshTimer := t; stopped := l.(stopped); transientFailures := l.(transientFailures);
     outcomes := l.(outcomes); effects := l.(effects); observed := l.(observed); source := l.(source) |}.
Definition set_policy (g : Z) (l : Lease) : Lease :=
  {| snapshot := l.(snapshot); deadline := l.(deadline); wallDeadline := l.(wallDeadline); generation := l.(generation);
     policy := g; policyChanges := l.(policyChanges); pending := l.(pending); expiryTimer := l.(expiryTimer);
     refreshTimer := l.(refreshTimer); stopped := l.(stopped); transientFailures := l.(transientFailures);
     outcomes := l.(outcomes); effects := l.(effects); observed := l.(observed); source := l.(source) |}.
Definition next_generation (l : Lease) : Lease :=
  {| snapshot := l.(snapshot); deadline := l.(deadline); wallDeadline := l.(wallDeadline); generation := l.(generation) + 1;
     policy := l.(policy); policyChanges := l.(policyChanges); pending := l.(pending); expiryTimer := l.(expiryTimer);
     refreshTimer := l.(refreshTimer); stopped := l.(stopped); transientFailures := l.(transientFailures);
     outcomes := l.(outcomes); effects := l.(effects); observed := l.(observed); source := l.(source) |}.
Definition note_change (g : Z) (l : Lease) : Lease :=
  {| snapshot := l.(snapshot); deadline := l.(deadline); wallDeadline := l.(wallDeadline); generation := l.(generation);
     policy := g; policyChanges := l.(policyChanges) + 1; pending := l.(pending); expiryTimer := l.(expiryTimer);
     refreshTimer := l.(refreshTimer); stopped := l.(stopped); transientFailures := l.(transientFailures);
     outcomes := l.(outcomes); effects := l.(effects); observed := g :: l.(observed); source := l.(source) |}.
Definition count_failure (l : Lease) : Lease :=
  {| snapshot := l.(snapshot); deadline := l.(deadline); wallDeadline := l.(wallDeadline); generation := l.(generation);
     policy := l.(policy); policyChanges := l.(policyChanges); pending := l.(pending); expiryTimer := l.(expiryTimer);
     refreshTimer := l.(refreshTimer); stopped := l.(stopped); transientFailures := l.(transientFailures) + 1;
     outcomes := l.(outcomes); effects := l.(effects); observed := l.(observed); source := l.(source) |}.

(** The refresh in flight ends. *)
Definition settle_refresh (o : RefreshOutcome) (l : Lease) : Lease :=
  {| snapshot := l.(snapshot); deadline := l.(deadline); wallDeadline := l.(wallDeadline); generation := l.(generation);
     policy := l.(policy); policyChanges := l.(policyChanges); pending := None; expiryTimer := l.(expiryTimer);
     refreshTimer := l.(refreshTimer); stopped := l.(stopped); transientFailures := l.(transientFailures);
     outcomes := o :: l.(outcomes); effects := l.(effects); observed := l.(observed); source := l.(source) |}.

(** [drop]; [lease_closed] is the source's ["closed"]. *)
Definition drop_lease (reason : LeaseFailure) (l : Lease) : Lease :=
  {| snapshot := None; deadline := 0; wallDeadline := 0; generation := l.(generation);
     policy := l.(policy); policyChanges := l.(policyChanges); pending := l.(pending); expiryTimer := None;
     refreshTimer := None; stopped := match reason with lease_closed => true | _ => l.(stopped) end;
     transientFailures := l.(transientFailures);
     outcomes := l.(outcomes); effects := OnInvalidated reason :: l.(effects); observed := l.(observed); source := None |}.

Definition invalidate (reason : LeaseFailure) (l : Lease) : Lease := drop_lease reason (next_generation l).

Definition leftMs (t : Instant) (l : Lease) : Z := Z.min (l.(deadline) - t.(mono)) (l.(wallDeadline) - t.(wall)).

(** The getter [current]: an expired snapshot is dropped as it is read. *)
Definition current (t : Instant) (l : Lease) : option PeerAuthorizationSnapshot * Lease :=
  let l := match l.(snapshot) with Some _ => if leftMs t l <=? 0 then invalidate expired l else l | None => l end in
  (l.(snapshot), l).

Definition remainingMs (t : Instant) (l : Lease) : Z :=
  match l.(snapshot) with Some _ => Z.max 0 (leftMs t l) | None => 0 end.

Definition allows (d : string) (e : option string) (t : Instant) (l : Lease) : bool :=
  match (current t l).1 with
  | None => false
  | Some s =>
      existsb (λ p, bool_decide (p.(peer_deviceId) = d) &&
        match e with None => true | Some e => bool_decide (endpointId <$> p.(peer_endpoint) = Some e) end) s.(peers)
  end.

Definition names (d key : string) (t : Instant) (l : Lease) : bool :=
  match (current t l).1 with
  | None => false
  | Some s => existsb (λ p, bool_decide (p.(peer_deviceId) = d) && bool_decide (p.(ed25519Pub) = key)) s.(peers)
  end.

Definition observePolicyGeneration (g : string) (l : Lease) : Lease :=
  let next := digits_value 0 g in
  if l.(stopped) || (next <=? l.(policy)) then l else drop_lease revoked (note_change next l).

(** [attempt] up to its await: the request is sent, unless the lease is over. *)
Definition attempt_begin (t : Instant) (l : Lease) : Lease :=
  let remaining := match l.(snapshot) with Some _ => Z.max 0 (leftMs t l) | None => 10000 end in
  let timeoutMs := Z.min 10000 remaining in
  if timeoutMs <=? 0 then settle_refresh (Resolved false) (invalidate expired l)
  else set_pending (Some {| a_generation := l.(generation); a_policyChanges := l.(policyChanges);
                            a_started := t.(mono); a_startedWall := t.(wall); a_timeoutMs := timeoutMs |}) l.

(** [refresh]: a call that finds one in flight joins it. *)
Definition refresh_lease (t : Instant) (l : Lease) : Lease :=
  if l.(stopped) then l
  else match l.(pending) with
       | Some _ => l
       | None => attempt_begin t (set_refreshTimer None l)
       end.

Section random.
(** [Math.random()] *)
Context (random : Q).

Definition scheduleTransientRetry (t : Instant) (l : Lease) : Lease :=
  let ceiling := Z.min 5000 (500 * 2 ^ l.(transientFailures)) in
  let l := count_failure l in
  let delay := (inject_Z ceiling / 2 + random * inject_Z ceiling / 2)%Q in
  let remaining := leftMs t l in
  if remaining <=? 0 then invalidate expired l
  else set_refreshTimer (Some (if Qle_bool delay (inject_Z remaining) then delay else inject_Z remaining)) l.

(** What the request comes to: it rejects or times out, its response does not
    parse, or it is a snapshot. *)
Inductive LeaseAnswer := Failed | Malformed | Parsed (s : PeerAuthorizationSnapshot).

Definition same_endpoint (a : EndpointRegistration) (b : option EndpointRegistration) : bool :=
  bool_decide (Some a.(endpointId) = endpointId <$> b) && bool_decide (Some a.(ep_generation) = ep_generation <$> b).

(** The accepted snapshot and its timers. *)
Definition accept (t : Instant) (a : Attempt) (s : PeerAuthorizationSnapshot) (l : Lease) : Lease :=
  let duration := Z.min s.(leaseMs) PEER_LEASE_MS in
  let refreshAt := (inject_Z a.(a_started) + inject_Z duration / 3 * ((9 # 10) + random * (2 # 10)))%Q in
  let delay := (refreshAt - inject_Z t.(mono))%Q in
  {| snapshot := Some s; deadline := a.(a_started) + duration; wallDeadline := a.(a_startedWall) + duration;
     generation := l.(generation); policy := l.(policy); policyChanges := l.(policyChanges); pending := l.(pending);
     expiryTimer := Some (Z.max 0 (a.(a_started) + duration - t.(mono)));
     refreshTimer := Some (if Qle_bool 0 delay then delay else 0%Q);
     stopped := l.(stopped); transientFailures := 0; outcomes := l.(outcomes); effects := OnSnapshot s :: l.(effects);
     observed := l.(observed); source := Some a |}.

(** The rest of [attempt] for a parsed snapshot; [None] is [SUPERSEDED]. *)
Definition judge (identity : EnrollmentIdentity) (t : Instant) (a : Attempt) (s : PeerAuthorizationSnapshot) (l : Lease)
  : option bool * Lease :=
  if l.(stopped) || negb (a.(a_generation) =? l.(generation)) then (Some false, l)
  else if negb (bool_decide (s.(accountId) = identity.(id_account)) && bool_decide (s.(deviceId) = identity.(id_device)) &&
                bool_decide (s.(enrollmentId) = identity.(id_enrollment)))
  then (Some false, invalidate rotated l)
  else
    let g := digits_value 0 s.(policyGeneration) in
    if g <? l.(policy) then (if a.(a_policyChanges) =? l.(policyChanges) then Some false else None, l)
    else
      let l := set_policy g l in
      if negb s.(allowed_) then (Some false, invalidate denied l)
      else
        let duration := Z.min s.(leaseMs) PEER_LEASE_MS in
        if (a.(a_started) + duration <=? t.(mono)) || (a.(a_startedWall) + duration <=? t.(wall))
        then (Some false, invalidate expired l)
        else
          match l.(snapshot) ≫= endpoint with
          | Some previous =>
              if same_endpoint previous s.(endpoint) then (Some true, accept t a s l)
              else (Some false, invalidate rotated l)
          | None => (Some true, accept t a s l)
          end.

(** The request in flight is answered; a superseded one is asked again. *)
Definition attempt_answered (identity : EnrollmentIdentity) (t : Instant) (r : LeaseAnswer) (l : Lease) : Lease :=
  match l.(pending) with
  | None => l
  | Some a =>
      match r with
      | Failed =>
          if l.(stopped) || negb (a.(a_generation) =? l.(generation)) then settle_refresh (Resolved false) l
          else if negb (a.(a_policyChanges) =? l.(policyChanges)) then attempt_begin t l
          else
            let valid := bool_decide (l.(snapshot) ≠ None) && (0 <? leftMs t l) in
            if valid then settle_refresh (Resolved true) (scheduleTransientRetry t l)
            else settle_refresh Rejected l
      | Malformed => settle_refresh Rejected l
      | Parsed s =>
          match judge identity t a s l with
          | (Some ok, l) => settle_refresh (Resolved ok) l
          | (None, l) => attempt_begin t l
          end
      end
  end.
End random.

(** ** The lease's life

    The clocks may read anything at any event. *)

Inductive LeaseEvent :=
  | EvRefresh (t : Instant)
  | EvAnswer (random : Q) (t : Instant) (r : LeaseAnswer)
  | EvPolicy (g : string)
  | EvInvalidate (reason : LeaseFailure)
  | EvRead (t : Instant)
  | EvExpiryTimer
  | EvRefreshTimer (t : Instant).

Section life.
Context (identity : EnrollmentIdentity).

Definition lease_step (l : Lease) (e : LeaseEvent) : Lease :=
  match e with
  | EvRefresh t => refresh_lease t l
  | EvAnswer random t r => attempt_answered random identity t r l
  | EvPolicy g => observePolicyGeneration g l
  | EvInvalidate reason => invalidate reason l
  | EvRead t => (current t l).2
  | EvExpiryTimer => match l.(expiryTimer) with Some _ => invalidate expired l | None => l end
  | EvRefreshTimer t => match l.(refreshTimer) with Some _ => refresh_lease t (set_refreshTimer None l) | None => l end
  end.

Definition lease_run (es : list LeaseEvent) : Lease := foldl lease_step new_lease es.

(** [s] was granted to this enrollment, by a request sent as [a]. *)
Definition granted (l : Lease) (s : PeerAuthorizationSnapshot) (a : Attempt) : Prop :=
  s.(allowed_) = true ∧ s.(accountId) = identity.(id_account) ∧ s.(deviceId) = identity.(id_device) ∧
  s.(enrollmentId) = identity.(id_enrollment) ∧ a.(a_generation) = l.(generation) ∧
  digits_value 0 s.(policyGeneration) = l.(policy) ∧ l.(stopped) = false ∧
  l.(deadline) = a.(a_started) + Z.min s.(leaseMs) PEER_LEASE_MS ∧
  l.(wallDeadline) = a.(a_startedWall) + Z.min s.(leaseMs) PEER_LEASE_MS.

Record Inv (l : Lease) : Prop := {
  inv_snapshot : ∀ s, l.(snapshot) = Some s → ∃ a, l.(source) = Some a ∧ granted l s a;
  inv_observed : Forall (λ g, g <= l.(policy)) l.(observed) }.

(** What an event may do to the policy and the stop. *)
Definition advances (l l' : Lease) : Prop :=
  l.(policy) <= l'.(policy) ∧ (l.(stopped) = true → l'.(stopped) = true).

(** An event that changes neither. *)
Ltac stays := split; simpl; [lia|by eauto].

Lemma inv_drop reason l : Forall (λ g, g <= l.(policy)) l.(observed) → Inv (drop_lease reason l) ∧ advances l (drop_lease reason l).
Proof. intros Ho. split; [by split|]. split; [simpl; lia|]. simpl. by destruct reason. Qed.

Lemma inv_invalidate reason l : Forall (λ g, g <= l.(policy)) l.(observed) → Inv (invalidate reason l) ∧ advances l (invalidate reason l).
Proof. apply (inv_drop reason (next_generation l)). Qed.

Lemma inv_settle_refresh o l : Inv l → Inv (settle_refresh o l).
Proof. by intros [H1 H2]. Qed.

Lemma inv_timer o l : Inv l → Inv (set_refreshTimer o l).
Proof. by intros [H1 H2]. Qed.

Lemma inv_begin t l : Inv l → Inv (attempt_begin t l) ∧ advances l (attempt_begin t l).
Proof.
  intros Hl. unfold attempt_begin. case_match; [|split; [by destruct Hl|stays]].
  destruct (inv_invalidate expired l (inv_observed _ Hl)) as [H1 H2]. split; [by apply inv_settle_refresh|exact H2].
Qed.

Lemma inv_refresh_lease t l : Inv l → Inv (refresh_lease t l) ∧ advances l (refresh_lease t l).
Proof.
  intros Hl. unfold refresh_lease. destruct (stopped l); [split; [done|stays]|].
  destruct (pending l); [split; [done|stays]|]. apply (inv_begin t (set_refreshTimer None l)). by apply inv_timer.
Qed.

Lemma inv_retry random t l : Inv l → Inv (scheduleTransientRetry random t l) ∧ advances l (scheduleTransientRetry random t l).
Proof.
  intros Hl. unfold scheduleTransientRetry. case_match.
  - apply (inv_invalidate expired (count_failure l)), (inv_observed _ Hl).
  - split; [by destruct Hl|stays].
Qed.

Lemma inv_judge random t a s l :
  Inv l → Inv (judge random identity t a s l).2 ∧ advances l (judge random identity t a s l).2.
Proof.
  intros Hl. unfold judge. pose proof (inv_observed _ Hl) as Ho.
  destruct (stopped l) eqn:Hst; simpl; [split; [done|stays]|].
  destruct (Z.eqb_spec (a_generation a) (generation l)) as [Hg|]; simpl; [|split; [done|stays]].
  destruct (bool_decide _ && _ && _) eqn:Hid; simpl; [|by apply inv_invalidate]. reflect_bools.
  set (g := digits_value 0 (policyGeneration s)). destruct (Z.ltb_spec g (policy l)) as [|Hle]; simpl; [split; [done|stays]|].
  set (l1 := set_policy g l).
  assert (Forall (λ x, x <= l1.(policy)) l1.(observed)) as Ho1 by (eapply Forall_impl; [exact Ho|simpl; lia]).
  assert (∀ l2, advances l1 l2 → advances l l2) as Hadv by (intros l2 [? ?]; split; [simpl in *; lia|done]).
  assert (∀ r, Inv (invalidate r l1) ∧ advances l (invalidate r l1)) as Hinv.
  { intros r. destruct (inv_invalidate r l1 Ho1). auto. }
  destruct (allowed_ s) eqn:Hal; simpl; [|apply Hinv]. case_match; [apply Hinv|].
  assert (Inv (accept random t a s l1) ∧ advances l (accept random t a s l1)) as Hacc.
  { split; [|split; [simpl; lia|by rewrite Hst]]. split; [|exact Ho1]. simpl. intros s' [= <-]. exists a. split; [done|].
    unfold granted. simpl. by split_and!. }
  destruct (snapshot l ≫= endpoint) as [prev|]; [|exact Hacc]. destruct (same_endpoint prev (endpoint s)); [exact Hacc|apply Hinv].
Qed.

Lemma inv_answered random t r l :
  Inv l → Inv (attempt_answered random identity t r l) ∧ advances l (attempt_answered random identity t r l).
Proof.
  intros Hl. unfold attempt_answered. destruct (pending l) as [a|]; [|split; [done|stays]].
  destruct r as [| |s].
  - destruct (stopped l || _); [split; [by apply inv_settle_refresh|stays]|].
    destruct (negb _); [by apply inv_begin|]. destruct (bool_decide _ && _).
    + destruct (inv_retry random t l Hl) as [H1 H2]. split; [by apply inv_settle_refresh|exact H2].
    + split; [by apply inv_settle_refresh|stays].
  - split; [by apply inv_settle_refresh|stays].
  - destruct (inv_judge random t a s l Hl) as [H1 H2]. destruct (judge random identity t a s l) as [[ok|] l1]; simpl in *.
    + split; [by apply inv_settle_refresh|exact H2].
    + destruct (inv_begin t l1 H1) as [H3 [H4 H5]]. split; [done|]. destruct H2. split; [lia|auto].
Qed.

Lemma inv_step e l : Inv l → Inv (lease_step l e) ∧ advances l (lease_step l e).
Proof.
  intros Hl. pose proof (inv_observed _ Hl) as Ho. destruct e as [t|random t r|g|reason|t| |t]; simpl.
  - by apply inv_refresh_lease.
  - by apply inv_answered.
  - unfold observePolicyGeneration. destruct (stopped l || _) eqn:Hb; [split; [done|stays]|]. reflect_bools.
    set (l1 := note_change _ l). assert (Forall (λ x, x <= l1.(policy)) l1.(observed)) as Ho1.
    { simpl. constructor; [lia|]. eapply Forall_impl; [exact Ho|simpl; lia]. }
    destruct (inv_drop revoked l1 Ho1) as [H1 [H2 H3]]. split; [done|]. split; [simpl in *; lia|exact H3].
  - by apply inv_invalidate.
  - unfold current. destruct (snapshot l); [|split; [done|stays]].
    destruct (leftMs t l <=? 0); [by apply inv_invalidate|split; [done|stays]].
  - destruct (expiryTimer l); [by apply inv_invalidate|split; [done|stays]].
  - destruct (refreshTimer l); [|split; [done|stays]]. apply (inv_refresh_lease t (set_refreshTimer None l)). by apply inv_timer.
Qed.

Lemma inv_run es : Inv (lease_run es).
Proof.
  unfold lease_run. induction es as [|e es IH] using rev_ind; [by split|].
  rewrite foldl_app. simpl. by apply inv_step.
Qed.

(** C35: a host talks only to the peers the server presently lets it talk to.
    After any events on any clocks, a peer is allowed only by a snapshot that
    names it, that the server granted to this very enrollment, in answer to a
    request sent since the last invalidation, and whose time, counted from when
    that request was sent and never more than [PEER_LEASE_MS], is over on
    neither clock; and its policy is not older than any policy change pushed to
    the host.  The policy generation never goes back and a closed lease allows
    nothing, ever. *)
Theorem lease_allows_only_granted es d e t :
  let l := lease_run es in
  (allows d e t l = true →
   ∃ s p a, l.(snapshot) = Some s ∧ p ∈ s.(peers) ∧ p.(peer_deviceId) = d ∧
     (∀ ep, e = Some ep → endpointId <$> p.(peer_endpoint) = Some ep) ∧
     l.(source) = Some a ∧ granted l s a ∧
     t.(mono) < a.(a_started) + Z.min s.(leaseMs) PEER_LEASE_MS ∧
     t.(wall) < a.(a_startedWall) + Z.min s.(leaseMs) PEER_LEASE_MS ∧
     Forall (λ g, g <= digits_value 0 s.(policyGeneration)) l.(observed)) ∧
  (∀ ev, l.(policy) <= (lease_step l ev).(policy)) ∧
  (l.(stopped) = true → ∀ more, allows d e t (foldl lease_step l more) = false).
Proof.
  intros l. pose proof (inv_run es) as Hl. fold l in Hl. split_and!.
  - unfold allows, current. destruct (snapshot l) as [s|] eqn:Hs; [|by rewrite Hs].
    destruct (Z.leb_spec (leftMs t l) 0) as [|Hleft]; [done|]. simpl. rewrite Hs.
    intros (p & Hp & Hpd)%existsb_exists. apply list_elem_of_In in Hp. apply andb_true_iff in Hpd as [Hd He].
    apply bool_decide_eq_true in Hd. destruct (inv_snapshot _ Hl s Hs) as (a & Ha & Hg). exists s, p, a.
    pose proof Hg as (_ & _ & _ & _ & _ & Hpol & _ & Hdl & Hwl). unfold leftMs in Hleft. rewrite Hdl, Hwl in Hleft.
    split_and!; try done; [|lia|lia|].
    + intros ep ->. by apply bool_decide_eq_true in He.
    + rewrite Hpol. apply (inv_observed _ Hl).
  - intros ev. by apply inv_step.
  - intros Hst more. assert (Inv (foldl lease_step l more) ∧ (foldl lease_step l more).(stopped) = true) as [HI Hs].
    { clearbody l. clear -Hl Hst. revert l Hl Hst. induction more as [|ev more IH]; intros l Hl Hst; [done|]. simpl.
      destruct (inv_step ev l Hl) as [H1 [_ H2]]. by apply IH, H2. }
    unfold allows, current. destruct (snapshot (foldl lease_step l more)) as [s|] eqn:Hsn; [|by rewrite Hsn].
    destruct (inv_snapshot _ HI s Hsn) as (a & _ & Hg). unfold granted in Hg. rewrite Hs in Hg. naive_solver.
Qed.
End life.

(** ** A run: a lease is granted, a policy change drops it while the answer to
    the next request is on its way, and the request is asked again *)

Definition demo_snapshot (g : string) : PeerAuthorizationSnapshot :=
  {| accountId := "u"; deviceId := "h"; enrollmentId := "e"; policyGeneration := g; allowed_ := true; leaseMs := 90000;
     endpoint := None; peers := [{| peer_deviceId := "p"; ed25519Pub := "k"; peer_endpoint := None |}] |}.
Definition demo_identity : EnrollmentIdentity := {| id_account := "u"; id_device := "h"; id_enrollment := "e" |}.
Definition demo_instant (n : Z) : Instant := {| mono := n; wall := 1000000 + n |}.
Definition demo_answer (n : Z) (g : string) : LeaseEvent := EvAnswer 0 (demo_instant n) (Parsed (demo_snapshot g)).

Lemma lease_allows_only_granted_witness :
  let es := [EvRefresh (demo_instant 0); demo_answer 10 "7"; EvRefreshTimer (demo_instant 20000); EvPolicy "8";
             demo_answer 20010 "7"; demo_answer 20020 "8"] in
  let l := lease_run demo_identity es in
  allows "p" None (demo_instant 50000) l = true ∧ allows "p" None (demo_instant 80010) l = false ∧
  ∃ a, l.(source) = Some a ∧ a.(a_started) = 20010 ∧ a.(a_generation) = l.(generation).
Proof.
  intros es l. assert (allows "p" None (demo_instant 50000) l = true) as Ha by (vm_compute; reflexivity).
  split; [exact Ha|]. split; [vm_compute; reflexivity|].
  destruct (lease_allows_only_granted demo_identity es "p" None (demo_instant 50000)) as [H _].
  destruct (H Ha) as (s & p & a & _ & _ & _ & _ & Hsrc & Hg & _). fold l in Hsrc, Hg. exists a.
  split; [exact Hsrc|]. split; [|apply Hg]. revert Hsrc. vm_compute. intros [= <-]. reflexivity.
Defined.
