(* ===== verification/BusQueue.v ===== *)
(** * BusQueue: sealed mail the relay holds until it is acked

    Models [relay/src/bus-queue.ts].  The entries are objects shared by the
    two indexes and by the caller that [markDelivered]s them, so they live in a
    store [heap] and the indexes hold references.  The indexes, the two tallies
    and the byte total are separate pieces of state that every operation must
    keep in step; the invariant [Inv] says how, and the refinement at the end
    says that together they implement one FIFO list of entries. *)

From S2P Require Import Prelude JsMap Wire.

Local Open Scope Z_scope.
Local Open Scope js_scope.

Definition BUS_REDELIVER_AFTER_MS : Z := 60000.

Record BusQueueLimits := {
  maxMessagesPerRecipient : Z;
  maxBytesPerRecipient : Z;
  maxMessagesPerSender : Z;
  maxBytesPerSender : Z;
  maxBytesTotal : Z;
  maxTtlMs : Z;
}.

Record BusEntry := {
  uid : string;
  from : string;
  to : string;
  id : string;
  blob : BusBlob;
  bytes : Z;
  expiresAt : Z;
  deliveredConn : option string;
  deliveredAt : option Z;
}.

Abbreviation ref := positive.

Record Tally := { count : Z; tbytes : Z }.

(** The composite keys, joined with NUL. *)
Definition NUL : Ascii.ascii := Ascii.zero.
Definition recipientKey (uid to : string) : string := uid +:+ (sep NUL +:+ to).
Definition senderKey (uid from : string) : string := uid +:+ (sep NUL +:+ from).
Definition entryKey (uid from to id : string) : string :=
  uid +:+ (sep NUL +:+ (from +:+ (sep NUL +:+ (to +:+ (sep NUL +:+ id))))).

Definition rKeyOf (e : BusEntry) : string := recipientKey e.(uid) e.(to).
Definition sKeyOf (e : BusEntry) : string := senderKey e.(uid) e.(from).
Definition eKeyOf (e : BusEntry) : string := entryKey e.(uid) e.(from) e.(to) e.(id).

Record BusQueue := {
  heap : gmap ref BusEntry;
  nextRef : ref;
  byRecipient : jsmap string (list ref);
  byKey : jsmap string ref;
  recipientTally : jsmap string Tally;
  senderTally : jsmap string Tally;
  totalBytes : Z;
}.

Definition new_queue : BusQueue :=
  {| heap := ∅; nextRef := 1%positive; byRecipient := JsMap.empty; byKey := JsMap.empty;
     recipientTally := JsMap.empty; senderTally := JsMap.empty; totalBytes := 0 |}.

Record EnqueueInput := {
  in_uid : string; in_from : string; in_to : string; in_id : string;
  in_blob : BusBlob; in_ttlMs : Z }.

Inductive EnqueueResult :=
| Queued (r : ref)
| Duplicate (r : ref)
| RecipientFull
| SenderFull
| GlobalFull.

Definition bump (m : jsmap string Tally) (key : string) (dcount dbytes : Z) : jsmap string Tally :=
  let tally := get key m ?| {| count := 0; tbytes := 0 |} in
  let tally' := {| count := tally.(count) + dcount; tbytes := tally.(tbytes) + dbytes |} in
  if tally'.(count) <=? 0 then delete key m else set key tally' m.

Definition tally_at (m : jsmap string Tally) (key : string) : Tally :=
  get key m ?| {| count := 0; tbytes := 0 |}.

Section BusQueue.
Context (limits : BusQueueLimits).

Definition enqueue (q : BusQueue) (now : Z) (input : EnqueueInput) : BusQueue * EnqueueResult :=
  let uid := input.(in_uid) in
  let from := input.(in_from) in
  let to := input.(in_to) in
  let id := input.(in_id) in
  let key := entryKey uid from to id in
  match get key q.(byKey) with
  | Some existing => (q, Duplicate existing)
  | None =>
      let bytes := strlen input.(in_blob).(epk) + strlen input.(in_blob).(box) in
      let rKey := recipientKey uid to in
      let sKey := senderKey uid from in
      let r := tally_at q.(recipientTally) rKey in
      let s := tally_at q.(senderTally) sKey in
      if (r.(count) + 1 >? limits.(maxMessagesPerRecipient)) ||
         (r.(tbytes) + bytes >? limits.(maxBytesPerRecipient))
      then (q, RecipientFull)
      else if (s.(count) + 1 >? limits.(maxMessagesPerSender)) ||
              (s.(tbytes) + bytes >? limits.(maxBytesPerSender))
      then (q, SenderFull)
      else if q.(totalBytes) + bytes >? limits.(maxBytesTotal) then (q, GlobalFull)
      else
        let entry := {| uid := uid; from := from; to := to; id := id;
                        blob := input.(in_blob); bytes := bytes;
                        expiresAt := now + Z.min input.(in_ttlMs) limits.(maxTtlMs);
                        deliveredConn := None; deliveredAt := None |} in
        let rf := q.(nextRef) in
        let list := get rKey q.(byRecipient) ?| [] in
        ({| heap := <[rf := entry]> q.(heap);
            nextRef := Pos.succ rf;
            byRecipient := set rKey (list ++ [rf]) q.(byRecipient);
            byKey := set key rf q.(byKey);
            recipientTally := bump q.(recipientTally) rKey 1 bytes;
            senderTally := bump q.(senderTally) sKey 1 bytes;
            totalBytes := q.(totalBytes) + bytes |}, Queued rf)
  end.
End BusQueue.

(** The array [pending] returns is the index's own; nothing in the relay
    changes it while iterating. *)
Definition pending (q : BusQueue) (uid to : string) : list ref :=
  get (recipientKey uid to) q.(byRecipient) ?| [].

Definition deref (q : BusQueue) (rs : list ref) : list BusEntry := omap (λ r, q.(heap) !! r) rs.

(** [entry.deliveredConn = connectionId; entry.deliveredAt = now] *)
Definition mark_entry (conn : string) (now : Z) (e : BusEntry) : BusEntry :=
  {| uid := e.(uid); from := e.(from); to := e.(to); id := e.(id); blob := e.(blob);
     bytes := e.(bytes); expiresAt := e.(expiresAt);
     deliveredConn := Some conn; deliveredAt := Some now |}.

Definition markDelivered (q : BusQueue) (r : ref) (connectionId : string) (now : Z) : BusQueue :=
  {| heap := alter (mark_entry connectionId now) r q.(heap);
     nextRef := q.(nextRef); byRecipient := q.(byRecipient); byKey := q.(byKey);
     recipientTally := q.(recipientTally); senderTally := q.(senderTally);
     totalBytes := q.(totalBytes) |}.

Definition redeliverable (entry : BusEntry) (liveConnectionId : string) (now : Z) : bool :=
  if negb (bool_decide (entry.(deliveredConn) = Some liveConnectionId)) then true
  else match entry.(deliveredAt) with
       | None => true
       | Some t => now - t >=? BUS_REDELIVER_AFTER_MS
       end.

(** [list.splice(list.indexOf(entry), 1)]: drop the first occurrence. *)
Fixpoint splice_out (r : ref) (l : list ref) : list ref :=
  match l with
  | [] => []
  | x :: l' => if decide (x = r) then l' else x :: splice_out r l'
  end.

Definition remove (q : BusQueue) (r : ref) : BusQueue :=
  match q.(heap) !! r with
  | None => q
  | Some entry =>
      let rKey := rKeyOf entry in
      let byRecipient' :=
        match get rKey q.(byRecipient) with
        | Some list =>
            match splice_out r list with
            | [] => delete rKey q.(byRecipient)
            | list' => set rKey list' q.(byRecipient)
            end
        | None => q.(byRecipient)
        end in
      if has (eKeyOf entry) q.(byKey) then
        {| heap := q.(heap); nextRef := q.(nextRef); byRecipient := byRecipient';
           byKey := delete (eKeyOf entry) q.(byKey);
           recipientTally := bump q.(recipientTally) rKey (-1) (- entry.(bytes));
           senderTally := bump q.(senderTally) (sKeyOf entry) (-1) (- entry.(bytes));
           totalBytes := q.(totalBytes) - entry.(bytes) |}
      else
        {| heap := q.(heap); nextRef := q.(nextRef); byRecipient := byRecipient';
           byKey := q.(byKey); recipientTally := q.(recipientTally);
           senderTally := q.(senderTally); totalBytes := q.(totalBytes) |}
  end.

(** The entries in the order the index by key visits them. *)
Definition all_refs (q : BusQueue) : list ref := values q.(byKey).

Definition matches (q : BusQueue) (p : BusEntry → bool) (r : ref) : bool :=
  match q.(heap) !! r with Some e => p e | None => false end.

Definition removeWhere (q : BusQueue) (p : BusEntry → bool) : BusQueue * list ref :=
  let doomed := filter (λ r, matches q p r = true) (all_refs q) in
  (foldl remove q doomed, doomed).

Definition ack (q : BusQueue) (acker_uid ackerDeviceId msg_id : string) : BusQueue * option BusEntry :=
  match list_find (λ r, matches q (λ e, bool_decide (e.(id) = msg_id)) r = true)
                  (pending q acker_uid ackerDeviceId) with
  | None => (q, None)
  | Some (_, r) => (remove q r, q.(heap) !! r)
  end.

Definition sweep (q : BusQueue) (now : Z) : BusQueue * list BusEntry :=
  let '(q', gone) := removeWhere q (λ e, e.(expiresAt) <=? now) in
  (q', deref q gone).

Definition purgeDevice (q : BusQueue) (owner : option string) (deviceId : string) : BusQueue :=
  (removeWhere q (λ e,
     (match owner with None => true | Some u => bool_decide (e.(uid) = u) end) &&
     (bool_decide (e.(to) = deviceId) || bool_decide (e.(from) = deviceId)))).1.

Definition purgeUser (q : BusQueue) (owner : string) : BusQueue :=
  (removeWhere q (λ e, bool_decide (e.(uid) = owner))).1.

Definition stats (q : BusQueue) : Z * Z := (size q.(byKey), q.(totalBytes)).

Definition clear (q : BusQueue) : BusQueue :=
  {| heap := q.(heap); nextRef := q.(nextRef); byRecipient := JsMap.empty; byKey := JsMap.empty;
     recipientTally := JsMap.empty; senderTally := JsMap.empty; totalBytes := 0 |}.

(** ** The representation relation

    [Rep q items]: the indexes, tallies and total of [q] are those of the one
    list [items] of live entries (each with its identity), oldest first. *)
Abbreviation Item := (ref * BusEntry)%type.
Definition item_key (x : Item) : string := eKeyOf x.2.

Definition tally_of (f : BusEntry → string) (L : list BusEntry) (k : string) : Tally :=
  {| count := Z.of_nat (length (filter (λ e, f e = k) L));
     tbytes := sum_by bytes (filter (λ e, f e = k) L) |}.

Definition tally_opt (f : BusEntry → string) (L : list BusEntry) (k : string) : option Tally :=
  if decide (filter (λ e, f e = k) L = []) then None else Some (tally_of f L k).

Definition tally_ok (f : BusEntry → string) (L : list BusEntry) (m : jsmap string Tally) : Prop :=
  wf m ∧ ∀ k, get k m = tally_opt f L k.

Definition nonempty {A} (l : list A) : option (list A) :=
  match l with [] => None | _ => Some l end.

Lemma nonempty_default {A} (l : list A) : nonempty l ?| [] = l.
Proof. by destruct l. Qed.

Lemma nonempty_middle {A} (l1 : list A) a l2 : nonempty (l1 ++ a :: l2) = Some (l1 ++ a :: l2).
Proof. by destruct l1. Qed.

Record Rep (q : BusQueue) (items : list Item) : Prop := {
  rep_heap : ∀ x, x ∈ items → q.(heap) !! x.1 = Some x.2;
  rep_fresh : ∀ r, is_Some (q.(heap) !! r) → (r < q.(nextRef))%positive;
  rep_byKey : q.(byKey) = (λ x, (item_key x, x.1)) <$> items;
  rep_wf : wf q.(byKey);
  rep_wf_rec : wf q.(byRecipient);
  rep_rec : ∀ rk, get rk q.(byRecipient) = nonempty ((filter (λ x, rKeyOf x.2 = rk) items).*1);
  rep_rt : tally_ok rKeyOf items.*2 q.(recipientTally);
  rep_st : tally_ok sKeyOf items.*2 q.(senderTally);
  rep_total : q.(totalBytes) = sum_by bytes items.*2;
  rep_bytes : ∀ x, x ∈ items → x.2.(bytes) = strlen x.2.(blob).(epk) + strlen x.2.(blob).(box);
}.

(** *** Tallies *)

Lemma tally_at_ok f L m k : tally_ok f L m → tally_at m k = tally_of f L k.
Proof.
  intros [_ H]. unfold tally_at. rewrite H. unfold tally_opt. case_decide as Hd; simpl; [|done].
  unfold tally_of. by rewrite Hd.
Qed.

Lemma tally_ok_nil f : tally_ok f [] JsMap.empty.
Proof. split; [apply wf_empty|done]. Qed.

Lemma tally_of_middle f L1 e L2 k :
  tally_of f (L1 ++ e :: L2) k =
    {| count := (tally_of f (L1 ++ L2) k).(count) + (if decide (f e = k) then 1 else 0);
       tbytes := (tally_of f (L1 ++ L2) k).(tbytes) + (if decide (f e = k) then e.(bytes) else 0) |}.
Proof.
  unfold tally_of. rewrite !filter_app, filter_cons. case_decide; simpl.
  - rewrite sum_by_delete_middle, !length_app. simpl. f_equal; lia.
  - rewrite !Z.add_0_r. done.
Qed.

Lemma tally_opt_middle f L1 e L2 k :
  tally_opt f (L1 ++ e :: L2) k =
    if decide (f e = k) then Some (tally_of f (L1 ++ e :: L2) k) else tally_opt f (L1 ++ L2) k.
Proof.
  unfold tally_opt. rewrite filter_app, filter_cons. destruct (decide (f e = k)).
  - rewrite decide_False; [done|]. by intros [_ ?]%app_eq_nil.
  - rewrite <-filter_app. case_decide; [done|]. f_equal.
    rewrite tally_of_middle, !decide_False, !Z.add_0_r by done.
    by destruct (tally_of f (L1 ++ L2) k).
Qed.

Lemma tally_opt_count f L k :
  tally_opt f L k = if (tally_of f L k).(count) <=? 0 then None else Some (tally_of f L k).
Proof.
  unfold tally_opt. simpl. destruct (filter (λ e, f e = k) L) eqn:E; [done|].
  rewrite decide_False by done. by rewrite (proj2 (Z.leb_gt _ _)) by (simpl; lia).
Qed.

(** Adding [sgn] times an entry that belongs to key [f e]. *)
Lemma get_bump f L m k k' dc db :
  tally_ok f L m →
  get k' (bump m k dc db) =
    if decide (k' = k) then
      let t := tally_of f L k in
      if t.(count) + dc <=? 0 then None else Some {| count := t.(count) + dc; tbytes := t.(tbytes) + db |}
    else tally_opt f L k'.
Proof.
  intros HT. pose proof (tally_at_ok f L m k HT) as Hat. unfold tally_at in Hat.
  destruct HT as [Hwf H]. unfold bump. rewrite Hat. cbn zeta. cbn [count tbytes].
  destruct (_ <=? 0); [rewrite get_delete|rewrite get_set]; by case_decide.
Qed.

Lemma bump_wf m k dc db : wf m → wf (bump m k dc db).
Proof. intros. unfold bump. case_match; auto with js. Qed.

Lemma bump_add f L m e :
  tally_ok f L m → tally_ok f (L ++ [e]) (bump m (f e) 1 e.(bytes)).
Proof.
  intros HT. split; [apply bump_wf, HT|]. intros k.
  rewrite (get_bump f L), tally_opt_middle, tally_of_middle, app_nil_r by done.
  destruct (decide (k = f e)) as [->|Hne].
  - rewrite !decide_True by done. simpl. by rewrite (proj2 (Z.leb_gt _ _)) by lia.
  - by rewrite decide_False by congruence.
Qed.

Lemma bump_sub f L1 e L2 m :
  tally_ok f (L1 ++ e :: L2) m → tally_ok f (L1 ++ L2) (bump m (f e) (-1) (- e.(bytes))).
Proof.
  intros HT. split; [apply bump_wf, HT|]. intros k.
  rewrite (get_bump f (L1 ++ e :: L2)), tally_opt_middle, tally_of_middle by done.
  destruct (decide (k = f e)) as [->|Hne].
  - rewrite !decide_True by done. cbn [count tbytes]. rewrite tally_opt_count.
    replace (count (tally_of f (L1 ++ L2) (f e)) + 1 + -1)
      with (count (tally_of f (L1 ++ L2) (f e))) by lia.
    replace (tbytes (tally_of f (L1 ++ L2) (f e)) + bytes e + - bytes e)
      with (tbytes (tally_of f (L1 ++ L2) (f e))) by lia.
    by destruct (tally_of f (L1 ++ L2) (f e)).
  - by rewrite decide_False by congruence.
Qed.

(** *** The initial queue and identities *)

Lemma rep_new : Rep new_queue [].
Proof.
  split; try (intros; set_solver); try done; try apply wf_empty; try apply tally_ok_nil.
  simpl. intros r [e He]. by rewrite lookup_empty in He.
Qed.

Lemma rep_all_refs q items : Rep q items → all_refs q = items.*1.
Proof. intros H. unfold all_refs, values. rewrite (rep_byKey _ _ H), <-!list_fmap_compose. done. Qed.

Lemma rep_NoDup q items : Rep q items → NoDup items.*1.
Proof.
  intros [Hheap _ Hkey Hwf _ _ _ _ _ _]. revert Hwf. unfold wf, keys. rewrite Hkey. clear Hkey.
  rewrite <-list_fmap_compose.
  assert (∀ x y, x ∈ items → y ∈ items → x.1 = y.1 → item_key x = item_key y) as Hdet.
  { intros x y Hx Hy Heq. apply Hheap in Hx, Hy. rewrite Heq in Hx.
    unfold item_key. congruence. }
  clear Hheap. induction items as [|x l IH]; simpl; [constructor|].
  intros [Hnot Hnd]%NoDup_cons. apply NoDup_cons. split; [|apply IH; [set_solver|done]].
  intros (y & Hy & Hin)%list_elem_of_fmap. apply Hnot. apply list_elem_of_fmap.
  exists y. split; [|done]. apply Hdet; [by left|by right|done].
Qed.

Lemma rep_get_key q items k r :
  Rep q items → get k q.(byKey) = Some r → ∃ e, (r, e) ∈ items ∧ eKeyOf e = k.
Proof.
  intros H Hg%get_Some_elem. rewrite (rep_byKey _ _ H) in Hg.
  apply list_elem_of_fmap in Hg as ([r' e] & [= -> ->] & Hin). eauto.
Qed.

Lemma rep_key_get q items x :
  Rep q items → x ∈ items → get (item_key x) q.(byKey) = Some x.1.
Proof.
  intros H Hx. apply elem_get_Some; [apply (rep_wf _ _ H)|].
  rewrite (rep_byKey _ _ H). apply list_elem_of_fmap. by exists x.
Qed.

Lemma rep_pending q items u t :
  Rep q items →
  pending q u t = (filter (λ x, rKeyOf x.2 = recipientKey u t) items).*1.
Proof.
  intros H. unfold pending. rewrite (rep_rec _ _ H). apply nonempty_default.
Qed.

Lemma rep_matches q items p x : Rep q items → x ∈ items → matches q p x.1 = p x.2.
Proof. intros H Hx. unfold matches. by rewrite (rep_heap _ _ H _ Hx). Qed.

Lemma rep_filter_refs q items p :
  Rep q items →
  filter (λ r, matches q p r = true) items.*1 = (filter (λ x, p x.2 = true) items).*1.
Proof.
  intros H. assert (∀ x, x ∈ items → matches q p x.1 = p x.2) as Hm
    by (intros; by eapply rep_matches). clear H.
  induction items as [|x l IH]; [done|].
  rewrite fmap_cons, !filter_cons, (Hm x) by (by left).
  rewrite IH by (intros; apply Hm; by right). by case_decide.
Qed.

(** *** Adding and removing an entry *)

Lemma rep_enqueue lim q items now input q' r :
  Rep q items → enqueue lim q now input = (q', Queued r) →
  ∃ e, r = q.(nextRef) ∧ q'.(nextRef) = Pos.succ r ∧ Rep q' (items ++ [(r, e)]) ∧
       e = {| uid := input.(in_uid); from := input.(in_from); to := input.(in_to);
              id := input.(in_id); blob := input.(in_blob);
              bytes := strlen input.(in_blob).(epk) + strlen input.(in_blob).(box);
              expiresAt := now + Z.min input.(in_ttlMs) lim.(maxTtlMs);
              deliveredConn := None; deliveredAt := None |}.
Proof.
  intros HR. unfold enqueue. cbn zeta. destruct (get _ q.(byKey)) eqn:Hnew; [done|].
  repeat (case_match; [done|]). intros [= <- <-]. eexists; split_and!; [done..| |done].
  destruct HR as [Hheap Hfresh Hkey Hwf HwfR Hrec Hrt Hst Htot Hby].
  set (e := {| uid := _ |}). set (rf := nextRef q) in *. split; simpl.
  - intros x [Hx|Heq%list_elem_of_singleton]%elem_of_app; [|subst x; apply lookup_insert_eq].
    rewrite lookup_insert_ne; [by apply Hheap|]. intros Heq.
    specialize (Hfresh x.1). rewrite Hheap in Hfresh by done. rewrite <-Heq in Hfresh.
    pose proof (Hfresh ltac:(eauto)). lia.
  - intros r0. rewrite lookup_insert. case_decide; [lia|]. intros Hs%Hfresh. lia.
  - by rewrite set_fresh, fmap_app, Hkey.
  - auto with js.
  - auto with js.
  - intros rk. rewrite get_set, filter_app, fmap_app, filter_cons. rewrite (Hrec (recipientKey _ _)).
    change (rKeyOf (rf, e).2) with (recipientKey (in_uid input) (in_to input)).
    destruct (decide (rk = recipientKey (in_uid input) (in_to input))) as [->|Hne].
    + rewrite decide_True, nonempty_default by done. symmetry. apply nonempty_middle.
    + rewrite decide_False by congruence. simpl. rewrite app_nil_r. apply Hrec.
  - rewrite fmap_app. by apply (bump_add rKeyOf _ _ e).
  - rewrite fmap_app. by apply (bump_add sKeyOf _ _ e).
  - rewrite fmap_app, sum_by_app, Htot. simpl. lia.
  - intros x [Hx| ->%list_elem_of_singleton]%elem_of_app; [by apply Hby|done].
Qed.

Lemma splice_out_middle r l1 l2 : r ∉ l1 → splice_out r (l1 ++ r :: l2) = l1 ++ l2.
Proof.
  induction l1 as [|x l1 IH]; simpl; [by rewrite decide_True|].
  rewrite not_elem_of_cons. intros [Hx Hl]. rewrite decide_False by congruence. by rewrite IH.
Qed.

Lemma filter_middle_fst (P : Item → Prop) `{∀ x, Decision (P x)} I1 x I2 :
  (filter P (I1 ++ x :: I2)).*1 =
    (filter P I1).*1 ++ (if decide (P x) then [x.1] else []) ++ (filter P I2).*1.
Proof. rewrite filter_app, fmap_app, filter_cons. by case_decide. Qed.

Lemma rep_remove q I1 x I2 :
  Rep q (I1 ++ x :: I2) → Rep (remove q x.1) (I1 ++ I2).
Proof.
  intros HR. pose proof (rep_NoDup _ _ HR) as Hnd.
  pose proof (elem_of_the_middle I1 x I2) as Hx.
  pose proof (rep_key_get _ _ _ HR Hx) as Hkx.
  destruct HR as [Hheap Hfresh Hkey Hwf HwfR Hrec Hrt Hst Htot Hby].
  unfold remove. rewrite (Hheap x Hx). unfold has, item_key in *. rewrite Hkx.
  rewrite fmap_app, fmap_cons in Hnd. rewrite fmap_app, fmap_cons in Hrt.
  rewrite fmap_app, fmap_cons in Hst. rewrite fmap_app, fmap_cons in Htot. apply NoDup_split_not_in in Hnd as [Hn1 Hn2].
  split; cbn [heap nextRef byRecipient byKey recipientTally senderTally totalBytes].
  - intros y Hy. by apply Hheap, elem_of_middle.
  - done.
  - revert Hwf. rewrite Hkey, !fmap_app, fmap_cons. apply delete_split.
  - auto with js.
  - repeat case_match; auto with js.
  - intros rk. rewrite (Hrec (rKeyOf x.2)), filter_middle_fst, decide_True by done. simpl.
    assert (splice_out x.1 ((filter (λ y, rKeyOf y.2 = rKeyOf x.2) I1).*1 ++
        x.1 :: (filter (λ y, rKeyOf y.2 = rKeyOf x.2) I2).*1) =
      (filter (λ y, rKeyOf y.2 = rKeyOf x.2) (I1 ++ I2)).*1) as Hsp.
    { rewrite splice_out_middle, filter_app, fmap_app; [done|].
      intros (y & Hy & [_ Hin]%list_elem_of_filter)%list_elem_of_fmap.
      apply Hn1. rewrite Hy. apply list_elem_of_fmap. eauto. }
    assert (rk ≠ rKeyOf x.2 → get rk q.(byRecipient) =
      nonempty (filter (λ y, rKeyOf y.2 = rk) (I1 ++ I2)).*1) as Hother.
    { intros Hne. rewrite Hrec, filter_middle_fst, decide_False by congruence.
      by rewrite filter_app, fmap_app. }
    rewrite nonempty_middle. cbv iota. rewrite Hsp.
    destruct (decide (rk = rKeyOf x.2)) as [->|Hne].
    + destruct ((filter _ (I1 ++ I2)).*1); [apply get_delete_eq|by rewrite get_set_eq].
    + rewrite <-Hother by done.
      destruct ((filter _ (I1 ++ I2)).*1); [by apply get_delete_ne|by apply get_set_ne].
  - rewrite fmap_app. by apply (bump_sub rKeyOf).
  - rewrite fmap_app. by apply (bump_sub sKeyOf).
  - rewrite fmap_app, Htot, sum_by_delete_middle. lia.
  - intros y Hy. by apply Hby, elem_of_middle.
Qed.

Lemma remove_nextRef q r : (remove q r).(nextRef) = q.(nextRef).
Proof. unfold remove. repeat case_match; done. Qed.

Lemma rep_remove_all_from q I1 I2 (p : BusEntry → bool) :
  Rep q (I1 ++ I2) →
  Rep (foldl remove q (filter (λ x, p x.2 = true) I2).*1) (I1 ++ filter (λ x, p x.2 = false) I2) ∧
  (foldl remove q (filter (λ x, p x.2 = true) I2).*1).(nextRef) = q.(nextRef).
Proof.
  revert q I1. induction I2 as [|x I2 IH]; intros q I1 HR; [done|].
  rewrite !filter_cons. destruct (p x.2) eqn:Hp.
  - rewrite decide_True, decide_False, fmap_cons by done. cbn [foldl].
    apply rep_remove in HR as HR'. destruct (IH _ _ HR') as [H1 H2].
    split; [done|]. by rewrite H2, remove_nextRef.
  - rewrite decide_False, decide_True by done.
    rewrite (cons_middle x), (app_assoc I1) in HR |- *. by apply IH.
Qed.

Lemma rep_remove_all q items (p : BusEntry → bool) :
  Rep q items →
  Rep (foldl remove q (filter (λ x, p x.2 = true) items).*1) (filter (λ x, p x.2 = false) items) ∧
  (foldl remove q (filter (λ x, p x.2 = true) items).*1).(nextRef) = q.(nextRef).
Proof. apply (rep_remove_all_from q []). Qed.

Lemma remove_heap q r : (remove q r).(heap) = q.(heap).
Proof. unfold remove. repeat case_match; done. Qed.

Lemma removeWhere_rep q items p :
  Rep q items →
  Rep (removeWhere q p).1 (filter (λ x, p x.2 = false) items) ∧ (removeWhere q p).1.(heap) = q.(heap).
Proof.
  intros HR. unfold removeWhere. simpl. rewrite (rep_all_refs _ _ HR), (rep_filter_refs _ _ _ HR).
  split; [by apply rep_remove_all|].
  generalize (filter (λ x : Item, p x.2 = true) items).*1. intros l. clear HR. revert q.
  induction l as [|r l IH]; intros q; simpl; [done|]. by rewrite IH, remove_heap.
Qed.

Lemma ack_rep q items u a i :
  Rep q items →
  let '(q', o) := ack q u a i in
  q'.(heap) = q.(heap) ∧ (∃ items', Rep q' items') ∧
  ∀ e, o = Some e → ∃ r, r ∈ pending q u a ∧ q.(heap) !! r = Some e.
Proof.
  intros HR. unfold ack. destruct (list_find _ (pending q u a)) as [[n r]|] eqn:Hf; [|split_and!; [done|by exists items|done]].
  apply list_find_Some in Hf as (Hr & _ & _). apply list_elem_of_lookup_2 in Hr.
  split_and!; [apply remove_heap| |eauto]. pose proof Hr as Hin. rewrite (rep_pending _ _ _ _ HR) in Hin.
  apply list_elem_of_fmap in Hin as (x & -> & [_ Hx]%list_elem_of_filter).
  apply list_elem_of_split in Hx as (I1 & I2 & ->). exists (I1 ++ I2). by apply rep_remove.
Qed.

(** What [enqueue] leaves in the store, whatever it answers. *)
Lemma enqueue_rep lim q items now i :
  Rep q items →
  let '(q', res) := enqueue lim q now i in
  (∃ items', Rep q' items') ∧
  match res with
  | Queued r => q.(heap) !! r = None ∧ ∃ e, q'.(heap) = <[r := e]> q.(heap) ∧ e.(uid) = i.(in_uid) ∧
                  e.(from) = i.(in_from) ∧ e.(to) = i.(in_to) ∧ e.(id) = i.(in_id)
  | Duplicate r => q' = q ∧ get (entryKey i.(in_uid) i.(in_from) i.(in_to) i.(in_id)) q.(byKey) = Some r
  | _ => q' = q
  end.
Proof.
  intros HR. pose proof (rep_enqueue lim q items now i) as Hrep. revert Hrep.
  unfold enqueue. cbn zeta. destruct (get _ q.(byKey)) as [r|]; [by eauto|].
  repeat (case_match; [by eauto|]). intros Hrep.
  destruct (Hrep _ _ HR eq_refl) as (e & _ & _ & HR' & _). split; [by eexists|].
  split; [|by eexists]. destruct (q.(heap) !! q.(nextRef)) eqn:He; [|done].
  pose proof (rep_fresh _ _ HR q.(nextRef) ltac:(eauto)). lia.
Qed.

(** Marking changes neither keys nor sizes. *)
Definition mark_item (r : ref) (c : string) (now : Z) (x : Item) : Item :=
  if decide (x.1 = r) then (x.1, mark_entry c now x.2) else x.

Lemma mark_item_fst r c now x : (mark_item r c now x).1 = x.1.
Proof. unfold mark_item. by case_decide. Qed.

Lemma tally_ok_fmap f (g : Item → Item) (l : list Item) m :
  (∀ x, f (g x).2 = f x.2) → (∀ x, bytes (g x).2 = bytes x.2) →
  tally_ok f l.*2 m → tally_ok f (g <$> l).*2 m.
Proof.
  intros Hf Hb [Hwf H]. split; [done|]. intros k. rewrite H. clear H.
  unfold tally_opt, tally_of. rewrite <-list_fmap_compose, !filter_fmap, !length_fmap, !sum_by_fmap.
  unfold compose. rewrite (filter_ext_in (λ x, f (g x).2 = k) (λ x : Item, f x.2 = k))
    by (intros; by rewrite Hf).
  rewrite (sum_by_ext (λ x : Item, bytes (g x).2) (λ x, bytes x.2)) by (intros; apply Hb).
  by destruct (filter _ l).
Qed.

Lemma rep_mark q items r c now :
  Rep q items → Rep (markDelivered q r c now) (mark_item r c now <$> items).
Proof.
  intros HR. pose proof HR as [Hheap Hfresh Hkey Hwf HwfR Hrec Hrt Hst Htot Hby].
  assert (∀ x, (mark_item r c now x).2.(uid) = x.2.(uid) ∧ (mark_item r c now x).2.(from) = x.2.(from) ∧
    (mark_item r c now x).2.(to) = x.2.(to) ∧ (mark_item r c now x).2.(id) = x.2.(id) ∧
    (mark_item r c now x).2.(blob) = x.2.(blob) ∧ (mark_item r c now x).2.(bytes) = x.2.(bytes)) as Hsame.
  { intros x. unfold mark_item. by case_decide. }
  assert (∀ x, rKeyOf (mark_item r c now x).2 = rKeyOf x.2 ∧ sKeyOf (mark_item r c now x).2 = sKeyOf x.2 ∧
    item_key (mark_item r c now x) = item_key x) as Hkeys.
  { intros x. unfold rKeyOf, sKeyOf, item_key, eKeyOf.
    destruct (Hsame x) as (-> & -> & -> & -> & _ & _). done. }
  split; cbn [heap nextRef byRecipient byKey recipientTally senderTally totalBytes].
  - intros x (y & -> & Hy)%list_elem_of_fmap. unfold mark_item. case_decide as Hd.
    + simpl. rewrite Hd, lookup_alter_eq, <-Hd, Hheap by done. done.
    + simpl. rewrite lookup_alter_ne by done. by apply Hheap.
  - simpl. intros r'. rewrite lookup_alter. case_decide; [|apply Hfresh]. subst r'.
    intros [e He]. apply Hfresh. by destruct (heap q !! r).
  - simpl. rewrite Hkey, <-list_fmap_compose. apply list_fmap_ext. intros _ x _. simpl.
    destruct (Hkeys x) as (_ & _ & ->). by rewrite mark_item_fst.
  - done.
  - done.
  - intros rk. simpl. rewrite Hrec, filter_fmap, <-list_fmap_compose.
    rewrite (filter_ext_in (λ x, rKeyOf (mark_item r c now x).2 = rk) (λ x, rKeyOf x.2 = rk))
      by (intros x _; by destruct (Hkeys x) as (-> & _)).
    f_equal. apply list_fmap_ext. intros _ x _. simpl. by rewrite mark_item_fst.
  - apply tally_ok_fmap; [apply Hkeys|apply Hsame|done].
  - apply tally_ok_fmap; [apply Hkeys|apply Hsame|done].
  - simpl. rewrite Htot, !sum_by_fmap. apply sum_by_ext. intros x _. symmetry. apply Hsame.
  - intros x (y & -> & Hy)%list_elem_of_fmap.
    destruct (Hsame y) as (_ & _ & _ & _ & -> & ->). by apply Hby.
Qed.

(** ** The abstract queue

    What the class promises: one list of entries, oldest first, each with its
    identity.  Every bound and every lookup is a property of that list, stated
    on the account, sender, recipient and id rather than on composite keys. *)
Record Fifo := { items : list Item; fresh : ref }.

Definition f_new : Fifo := {| items := []; fresh := 1%positive |}.

Definition to_recipient (u t : string) (x : Item) : Prop := x.2.(uid) = u ∧ x.2.(to) = t.
Definition from_sender (u f : string) (x : Item) : Prop := x.2.(uid) = u ∧ x.2.(from) = f.
Definition same_message (input : EnqueueInput) (x : Item) : Prop :=
  x.2.(uid) = input.(in_uid) ∧ x.2.(from) = input.(in_from) ∧
  x.2.(to) = input.(in_to) ∧ x.2.(id) = input.(in_id).

#[export] Instance to_recipient_dec u t x : Decision (to_recipient u t x).
Proof. unfold to_recipient. apply _. Defined.
#[export] Instance from_sender_dec u f x : Decision (from_sender u f x).
Proof. unfold from_sender. apply _. Defined.
#[export] Instance same_message_dec i x : Decision (same_message i x).
Proof. unfold same_message. apply _. Defined.

Definition load (l : list Item) : Z * Z := (Z.of_nat (length l), sum_by (λ x, x.2.(bytes)) l).

Definition f_enqueue (lim : BusQueueLimits) (s : Fifo) (now : Z) (input : EnqueueInput)
  : Fifo * EnqueueResult :=
  match list_find (same_message input) s.(items) with
  | Some (_, x) => (s, Duplicate x.1)
  | None =>
      let size := strlen input.(in_blob).(epk) + strlen input.(in_blob).(box) in
      let held := load (filter (to_recipient input.(in_uid) input.(in_to)) s.(items)) in
      let sent := load (filter (from_sender input.(in_uid) input.(in_from)) s.(items)) in
      if (held.1 + 1 >? lim.(maxMessagesPerRecipient)) || (held.2 + size >? lim.(maxBytesPerRecipient))
      then (s, RecipientFull)
      else if (sent.1 + 1 >? lim.(maxMessagesPerSender)) || (sent.2 + size >? lim.(maxBytesPerSender))
      then (s, SenderFull)
      else if (load s.(items)).2 + size >? lim.(maxBytesTotal) then (s, GlobalFull)
      else
        let entry := {| uid := input.(in_uid); from := input.(in_from); to := input.(in_to);
                        id := input.(in_id); blob := input.(in_blob); bytes := size;
                        expiresAt := now + Z.min input.(in_ttlMs) lim.(maxTtlMs);
                        deliveredConn := None; deliveredAt := None |} in
        ({| items := s.(items) ++ [(s.(fresh), entry)]; fresh := Pos.succ s.(fresh) |},
         Queued s.(fresh))
  end.

Definition f_keep (s : Fifo) (p : BusEntry → bool) : Fifo :=
  {| items := filter (λ x, p x.2 = false) s.(items); fresh := s.(fresh) |}.

(** The operations of the class, their results, and the two machines. *)
Inductive QOp :=
| OpEnqueue (now : Z) (input : EnqueueInput)
| OpPending (u t : string)
| OpMark (r : ref) (conn : string) (now : Z)
| OpAck (u acker i : string)
| OpSweep (now : Z)
| OpPurgeDevice (owner : option string) (device : string)
| OpPurgeUser (owner : string)
| OpStats
| OpClear.

Inductive QOut :=
| OutEnqueue (r : EnqueueResult)
| OutRefs (l : list ref)
| OutEntry (o : option BusEntry)
| OutEntries (l : list BusEntry)
| OutStats (messages total : Z)
| OutUnit.

Definition device_entry (owner : option string) (device : string) (e : BusEntry) : bool :=
  (match owner with None => true | Some u => bool_decide (e.(uid) = u) end) &&
  (bool_decide (e.(to) = device) || bool_decide (e.(from) = device)).

Section machines.
Context (lim : BusQueueLimits).

Definition q_step (q : BusQueue) (o : QOp) : BusQueue * QOut :=
  match o with
  | OpEnqueue now i => let '(q', r) := enqueue lim q now i in (q', OutEnqueue r)
  | OpPending u t => (q, OutRefs (pending q u t))
  | OpMark r c now => (markDelivered q r c now, OutUnit)
  | OpAck u a i => let '(q', r) := ack q u a i in (q', OutEntry r)
  | OpSweep now => let '(q', l) := sweep q now in (q', OutEntries l)
  | OpPurgeDevice u d => (purgeDevice q u d, OutUnit)
  | OpPurgeUser u => (purgeUser q u, OutUnit)
  | OpStats => (q, let '(m, b) := stats q in OutStats m b)
  | OpClear => (clear q, OutUnit)
  end.

Definition f_step (s : Fifo) (o : QOp) : Fifo * QOut :=
  match o with
  | OpEnqueue now i => let '(s', r) := f_enqueue lim s now i in (s', OutEnqueue r)
  | OpPending u t => (s, OutRefs (filter (to_recipient u t) s.(items)).*1)
  | OpMark r c now =>
      ({| items := mark_item r c now <$> s.(items);
          fresh := s.(fresh) |}, OutUnit)
  | OpAck u a i =>
      match list_find (λ x, to_recipient u a x ∧ x.2.(id) = i) s.(items) with
      | None => (s, OutEntry None)
      | Some (n, x) => ({| items := base.delete n s.(items); fresh := s.(fresh) |}, OutEntry (Some x.2))
      end
  | OpSweep now =>
      (f_keep s (λ e, e.(expiresAt) <=? now),
       OutEntries (filter (λ x, (x.2.(expiresAt) <=? now) = true) s.(items)).*2)
  | OpPurgeDevice u d => (f_keep s (device_entry u d), OutUnit)
  | OpPurgeUser u => (f_keep s (λ e, bool_decide (e.(uid) = u)), OutUnit)
  | OpStats => (s, OutStats (load s.(items)).1 (load s.(items)).2)
  | OpClear => ({| items := []; fresh := s.(fresh) |}, OutUnit)
  end.

Fixpoint run {S} (step : S → QOp → S * QOut) (s : S) (ops : list QOp) : S * list QOut :=
  match ops with
  | [] => (s, [])
  | o :: ops' =>
      let '(s1, out) := step s o in
      let '(s2, outs) := run step s1 ops' in (s2, out :: outs)
  end.
End machines.

(** The identifiers an operation names hold no NUL: device ids and message ids
    are restricted by the schemas, account ids are database ids. *)
Definition op_clean (o : QOp) : bool :=
  match o with
  | OpEnqueue _ i => lacks NUL i.(in_uid) && lacks NUL i.(in_from) && lacks NUL i.(in_to)
  | OpPending u _ => lacks NUL u
  | OpAck u _ _ => lacks NUL u
  | _ => true
  end.
Definition clean (x : Item) : Prop :=
  lacks NUL x.2.(uid) = true ∧ lacks NUL x.2.(from) = true ∧ lacks NUL x.2.(to) = true.

(** *** Composite keys determine their parts *)

Lemma recipientKey_iff u t u' t' :
  lacks NUL u = true → lacks NUL u' = true →
  recipientKey u t = recipientKey u' t' ↔ u = u' ∧ t = t'.
Proof.
  intros H1 H2. split; [|by intros [-> ->]]. by apply join_inj.
Qed.

Lemma entryKey_iff u f t i u' f' t' i' :
  lacks NUL u = true → lacks NUL u' = true → lacks NUL f = true → lacks NUL f' = true →
  lacks NUL t = true → lacks NUL t' = true →
  entryKey u f t i = entryKey u' f' t' i' ↔ u = u' ∧ f = f' ∧ t = t' ∧ i = i'.
Proof.
  intros H1 H2 H3 H4 H5 H6. split; [|by intros (-> & -> & -> & ->)].
  unfold entryKey. intros [-> H]%join_inj; [|done..].
  apply join_inj in H as [-> H]; [|done..]. by apply join_inj in H as [-> ->].
Qed.

Section simulation.
Context (lim : BusQueueLimits).

(** The simulation relation. *)
Definition Sim (q : BusQueue) (s : Fifo) : Prop :=
  Rep q s.(items) ∧ q.(nextRef) = s.(fresh) ∧ Forall clean s.(items).

Lemma sim_recipients q s u t :
  Sim q s → lacks NUL u = true →
  filter (λ x, rKeyOf x.2 = recipientKey u t) s.(items) = filter (to_recipient u t) s.(items).
Proof.
  intros (_ & _ & Hc) Hu. apply filter_ext_in. intros x Hx.
  rewrite Forall_forall in Hc. destruct (Hc x Hx) as (Hxu & _ & _).
  unfold rKeyOf. rewrite recipientKey_iff by done. done.
Qed.

Lemma sim_senders q s u f :
  Sim q s → lacks NUL u = true →
  filter (λ x, sKeyOf x.2 = senderKey u f) s.(items) = filter (from_sender u f) s.(items).
Proof.
  intros (_ & _ & Hc) Hu. apply filter_ext_in. intros x Hx.
  rewrite Forall_forall in Hc. destruct (Hc x Hx) as (Hxu & _ & _).
  unfold sKeyOf. change senderKey with recipientKey. rewrite recipientKey_iff by done. done.
Qed.

(** What the tallies say is the load of the matching entries. *)
Lemma tally_of_load (g : BusEntry → string) (l : list Item) k :
  let t := tally_of g l.*2 k in
  (t.(count), t.(tbytes)) = load (filter (λ x, g x.2 = k) l).
Proof.
  unfold tally_of, load. simpl. rewrite filter_fmap, length_fmap, sum_by_fmap. done.
Qed.

Lemma rep_find q l k :
  Rep q l → get k q.(byKey) = (λ p, p.2.1) <$> list_find (λ x, item_key x = k) l.
Proof.
  intros H. rewrite (rep_byKey _ _ H). clear H. induction l as [|x l IH]; [done|].
  rewrite fmap_cons. cbn [get list_find]. destruct (decide (k = item_key x)) as [->|Hne].
  { by rewrite decide_True. }
  rewrite decide_False by congruence. rewrite IH. by destruct (list_find _ l) as [[]|].
Qed.

Lemma sim_same_message q s i :
  Sim q s → op_clean (OpEnqueue 0 i) = true →
  get (entryKey i.(in_uid) i.(in_from) i.(in_to) i.(in_id)) q.(byKey) =
    (λ p, p.2.1) <$> list_find (same_message i) s.(items).
Proof.
  intros (HR & _ & Hc) Hi. simpl in Hi. reflect_bools. rewrite (rep_find _ _ _ HR).
  f_equal. apply list_find_ext_in. intros x Hx.
  rewrite Forall_forall in Hc. destruct (Hc x Hx) as (? & ? & ?).
  unfold item_key, eKeyOf. by rewrite entryKey_iff.
Qed.

Lemma sim_load_r q s u t :
  Sim q s → lacks NUL u = true →
  let T := tally_of rKeyOf s.(items).*2 (recipientKey u t) in
  let L := load (filter (to_recipient u t) s.(items)) in
  T.(count) = L.1 ∧ T.(tbytes) = L.2.
Proof.
  intros HS Hu. rewrite <-(sim_recipients q s) by done.
  pose proof (tally_of_load rKeyOf s.(items) (recipientKey u t)) as H. cbn zeta in *.
  by rewrite <-H.
Qed.

Lemma sim_load_s q s u f :
  Sim q s → lacks NUL u = true →
  let T := tally_of sKeyOf s.(items).*2 (senderKey u f) in
  let L := load (filter (from_sender u f) s.(items)) in
  T.(count) = L.1 ∧ T.(tbytes) = L.2.
Proof.
  intros HS Hu. rewrite <-(sim_senders q s) by done.
  pose proof (tally_of_load sKeyOf s.(items) (senderKey u f)) as H. cbn zeta in *.
  by rewrite <-H.
Qed.

Lemma sim_enqueue q s now i :
  Sim q s → op_clean (OpEnqueue now i) = true →
  Sim (enqueue lim q now i).1 (f_enqueue lim s now i).1 ∧
  (enqueue lim q now i).2 = (f_enqueue lim s now i).2.
Proof.
  intros HS Hi. pose proof (sim_same_message q s i HS Hi) as Hfind.
  assert (lacks NUL (in_uid i) = true) as Hu by (simpl in Hi; by reflect_bools).
  pose proof HS as (HR & Hn & Hc).
  pose proof (rep_enqueue lim q s.(items) now i) as Hrep.
  unfold enqueue, f_enqueue in *. cbn zeta in *. rewrite Hfind in *.
  destruct (list_find (same_message i) s.(items)) as [[n x]|]; [done|].
  cbn [fmap option_fmap option_map] in *.
  rewrite (tally_at_ok rKeyOf s.(items).*2), (tally_at_ok sKeyOf s.(items).*2) in * by apply HR.
  destruct (sim_load_r q s (in_uid i) (in_to i) HS Hu) as [Hr1 Hr2].
  destruct (sim_load_s q s (in_uid i) (in_from i) HS Hu) as [Hs1 Hs2].
  rewrite Hr1, Hr2, Hs1, Hs2, (rep_total _ _ HR), sum_by_fmap in *.
  change (sum_by (λ x : Item, bytes x.2) (items s)) with (load (items s)).2 in *.
  repeat match goal with |- context [if ?c then (q, _) else _] => destruct c; [done|] end.
  edestruct Hrep as (e & _ & Hn' & HR' & Heq); [done|reflexivity|]. simpl in *.
  split; [|by rewrite Hn]. split; [|split]; simpl.
  - rewrite <-Hn. subst e. exact HR'.
  - by rewrite Hn.
  - apply Forall_app. split; [done|]. apply Forall_singleton. reflect_bools. by split_and!.
Qed.

(** *** Removing *)

Lemma sim_filter q s p :
  Sim q s → Sim (removeWhere q p).1 (f_keep s p) ∧
            (removeWhere q p).2 = (filter (λ x, p x.2 = true) s.(items)).*1.
Proof.
  intros (HR & Hn & Hc). unfold removeWhere. simpl.
  rewrite (rep_all_refs _ _ HR), (rep_filter_refs _ _ _ HR). split; [|done].
  destruct (rep_remove_all q s.(items) p HR) as [HR' Hn'].
  split_and!; simpl; [done|by rewrite Hn'|by apply Forall_filter_2].
Qed.

Lemma sim_mark q s r c now :
  Sim q s → Sim (q_step lim q (OpMark r c now)).1 (f_step lim s (OpMark r c now)).1.
Proof.
  intros (HR & Hn & Hc). simpl. split_and!; simpl; [by apply rep_mark|done|].
  apply Forall_fmap, (Forall_impl _ _ _ Hc). intros x. unfold clean, mark_item; simpl. by case_decide.
Qed.

Lemma list_find_delete {A} (P : A → Prop) `{∀ x, Decision (P x)} (l : list A) n x :
  list_find P l = Some (n, x) → ∃ l1 l2, l = l1 ++ x :: l2 ∧ base.delete n l = l1 ++ l2.
Proof.
  intros (Hl & _)%list_find_Some. exists (take n l), (drop (S n) l).
  split; [|apply delete_take_drop]. symmetry. by apply take_drop_middle.
Qed.

Lemma sim_ack q s u a i :
  Sim q s → lacks NUL u = true →
  Sim (q_step lim q (OpAck u a i)).1 (f_step lim s (OpAck u a i)).1 ∧
  (q_step lim q (OpAck u a i)).2 = (f_step lim s (OpAck u a i)).2.
Proof.
  intros HS Hu. pose proof HS as (HR & Hn & Hc). cbn [q_step f_step]. unfold ack.
  rewrite (rep_pending _ _ _ _ HR), (sim_recipients q s) by done.
  pose proof (list_find_filter_fmap fst
    (λ r, matches q (λ e, bool_decide (e.(id) = i)) r = true) (to_recipient u a) s.(items)) as Hf.
  rewrite (list_find_ext_in _ (λ x, to_recipient u a x ∧ x.2.(id) = i)) in Hf.
  2: { intros x Hx. by rewrite (rep_matches _ _ _ _ HR Hx), bool_decide_eq_true. }
  destruct (list_find (λ x, to_recipient u a x ∧ x.2.(id) = i) s.(items)) as [[n x]|] eqn:Hx;
    destruct (list_find _ (filter (to_recipient u a) s.(items)).*1) as [[m r]|]; simplify_eq/=; [|done].
  apply list_find_delete in Hx as (I1 & I2 & Hi & Hd).
  pose proof (elem_of_the_middle I1 x I2) as Hin. rewrite <-Hi in Hin.
  rewrite (rep_heap _ _ HR x Hin). split; [|done]. split_and!; simpl.
  - rewrite Hd. apply rep_remove. by rewrite <-Hi.
  - by rewrite remove_nextRef.
  - rewrite Hd, Hi, !Forall_app, Forall_cons in *. naive_solver.
Qed.

Lemma sim_pending q s u t :
  Sim q s → lacks NUL u = true → pending q u t = (filter (to_recipient u t) s.(items)).*1.
Proof.
  intros HS Hu. destruct (HS) as (HR & _). by rewrite (rep_pending _ _ _ _ HR), (sim_recipients q s).
Qed.


Lemma deref_heap q (l : list Item) :
  (∀ x, x ∈ l → q.(heap) !! x.1 = Some x.2) → deref q l.*1 = l.*2.
Proof.
  unfold deref. induction l as [|x l IH]; intros Hh; [done|].
  rewrite !fmap_cons. simpl. rewrite Hh by left. simpl. f_equal.
  apply IH. intros y Hy. apply Hh. by right.
Qed.

Lemma rep_deref q l (P : Item → Prop) `{∀ x, Decision (P x)} :
  Rep q l → deref q (filter P l).*1 = (filter P l).*2.
Proof. intros HR. apply deref_heap. intros x [_ Hx]%list_elem_of_filter. by apply (rep_heap _ _ HR). Qed.

Lemma sim_step q s o :
  Sim q s → op_clean o = true →
  Sim (q_step lim q o).1 (f_step lim s o).1 ∧ (q_step lim q o).2 = (f_step lim s o).2.
Proof.
  intros HS Ho. pose proof HS as (HR & Hn & Hc). destruct o as [now i|u t|r c now|u a i|now|u d|u| |].
  - destruct (sim_enqueue q s now i HS Ho) as [H1 H2]. simpl.
    destruct (enqueue lim q now i), (f_enqueue lim s now i). simpl in *. split; [done|]. by f_equal.
  - simpl. by rewrite (sim_pending q s).
  - split; [by apply sim_mark|done].
  - by apply sim_ack.
  - destruct (sim_filter q s (λ e, e.(expiresAt) <=? now) HS) as [H1 H2]. cbn [q_step f_step].
    unfold sweep. destruct (removeWhere q _) as [q' gone]. cbn [fst snd] in *.
    split; [done|]. by rewrite H2, (rep_deref _ s.(items)).
  - destruct (sim_filter q s (device_entry u d) HS) as [H1 _]. done.
  - destruct (sim_filter q s (λ e, bool_decide (e.(uid) = u)) HS) as [H1 _]. done.
  - split; [done|]. simpl. unfold size. by rewrite (rep_byKey _ _ HR), (rep_total _ _ HR), length_fmap, sum_by_fmap.
  - split; [|done]. split_and!; [|done|constructor]. simpl. split; simpl; try done.
    + by intros x ?%not_elem_of_nil.
    + apply (rep_fresh _ _ HR).
    + apply wf_empty.
    + apply wf_empty.
    + apply tally_ok_nil.
    + apply tally_ok_nil.
    + by intros x ?%not_elem_of_nil.
Qed.

Lemma sim_new : Sim new_queue f_new.
Proof. split_and!; [apply rep_new|done|constructor]. Qed.

Lemma sim_run q s ops :
  Sim q s → forallb op_clean ops = true →
  Sim (run (q_step lim) q ops).1 (run (f_step lim) s ops).1 ∧
  (run (q_step lim) q ops).2 = (run (f_step lim) s ops).2.
Proof.
  revert q s. induction ops as [|o ops IH]; intros q s HS Ho; [done|].
  simpl in *. apply andb_true_iff in Ho as [Ho Hops].
  destruct (sim_step q s o HS Ho) as [HS' Hout].
  destruct (q_step lim q o) as [q1 out], (f_step lim s o) as [s1 out']. simpl in *.
  destruct (IH q1 s1 HS' Hops) as [HS2 Houts].
  destruct (run _ q1 ops), (run _ s1 ops). simpl in *. by subst.
Qed.
End simulation.

(** ** The bounds of the queue *)
Section bounds.
Context (lim : BusQueueLimits).

Definition within (lim_count lim_bytes : Z) (l : list Item) : Prop :=
  (load l).1 <= Z.max 0 lim_count ∧ (load l).2 <= Z.max 0 lim_bytes.

Record Bounded (l : list Item) : Prop := {
  bd_bytes : ∀ x, x ∈ l → 0 <= x.2.(bytes);
  bd_recipient : ∀ u t, within lim.(maxMessagesPerRecipient) lim.(maxBytesPerRecipient)
                          (filter (to_recipient u t) l);
  bd_sender : ∀ u f, within lim.(maxMessagesPerSender) lim.(maxBytesPerSender)
                       (filter (from_sender u f) l);
  bd_total : (load l).2 <= Z.max 0 lim.(maxBytesTotal);
}.

Lemma load_sublist l1 l2 :
  sublist l1 l2 → (∀ x, x ∈ l2 → 0 <= x.2.(bytes)) →
  (load l1).1 <= (load l2).1 ∧ (load l1).2 <= (load l2).2.
Proof.
  intros Hs Hpos. unfold load. simpl. split.
  - apply sublist_length in Hs. lia.
  - by apply sum_by_sublist.
Qed.

Lemma within_sublist a b l1 l2 :
  sublist l1 l2 → (∀ x, x ∈ l2 → 0 <= x.2.(bytes)) → within a b l2 → within a b l1.
Proof. intros Hs Hpos [H1 H2]. destruct (load_sublist l1 l2 Hs Hpos). split; lia. Qed.

Lemma bounded_sublist l1 l2 : sublist l1 l2 → Bounded l2 → Bounded l1.
Proof.
  intros Hs [Hb Hr Hsn Ht]. split.
  - intros x Hx. apply Hb. by eapply elem_of_sublist.
  - intros u t. eapply within_sublist; [by apply sublist_filter_mono| |apply Hr].
    intros x [_ Hx]%list_elem_of_filter. by apply Hb.
  - intros u t. eapply within_sublist; [by apply sublist_filter_mono| |apply Hsn].
    intros x [_ Hx]%list_elem_of_filter. by apply Hb.
  - destruct (load_sublist l1 l2 Hs Hb). lia.
Qed.
Lemma within_nil a b : within a b [].
Proof. unfold within, load. simpl. lia. Qed.

Lemma bounded_nil : Bounded [].
Proof.
  split; [by intros x ?%not_elem_of_nil|intros; apply within_nil..|unfold load; simpl; lia].
Qed.

Lemma load_mark r c now l : load (mark_item r c now <$> l) = load l.
Proof.
  unfold load. rewrite length_fmap, sum_by_fmap. f_equal. apply sum_by_ext. intros x _.
  unfold mark_item. by case_decide.
Qed.

Lemma bounded_mark r c now l : Bounded l → Bounded (mark_item r c now <$> l).
Proof.
  intros [Hb Hr Hs Ht]. split.
  - intros x (y & -> & Hy)%list_elem_of_fmap. unfold mark_item. case_decide; by apply (Hb y).
  - intros u t. rewrite filter_fmap. unfold within. rewrite load_mark.
    rewrite (filter_ext_in _ (to_recipient u t)); [apply Hr|].
    intros x _. unfold mark_item, to_recipient. by case_decide.
  - intros u f. rewrite filter_fmap. unfold within. rewrite load_mark.
    rewrite (filter_ext_in _ (from_sender u f)); [apply Hs|].
    intros x _. unfold mark_item, from_sender. by case_decide.
  - by rewrite load_mark.
Qed.

(** Adding one entry keeps a selected load within its cap when the cap was
    tested for the selection the entry belongs to. *)
Lemma within_snoc (P : Item → Prop) `{∀ x, Decision (P x)} a b l x :
  within a b (filter P l) → 0 <= x.2.(bytes) →
  (P x → (load (filter P l)).1 + 1 <= a ∧ (load (filter P l)).2 + x.2.(bytes) <= b) →
  within a b (filter P (l ++ [x])).
Proof.
  intros [H1 H2] Hx HP. unfold within, load in *. simpl in *.
  rewrite filter_app, filter_cons, length_app, sum_by_app.
  case_decide as Hd; simpl; [destruct (HP Hd)|]; lia.
Qed.

Lemma bounded_enqueue s now i : Bounded s.(items) → Bounded (f_enqueue lim s now i).1.(items).
Proof.
  intros HB. unfold f_enqueue. destruct (list_find _ _) as [[? ?]|]; [done|]. cbn zeta.
  do 3 (match goal with |- context [if ?c then (s, _) else _] => destruct c eqn:?; [done|] end).
  reflect_bools.
  set (e := {| uid := _ |}).
  assert (0 <= e.(bytes)) as He.
  { simpl. pose proof (strlen_nonneg (in_blob i).(epk)). pose proof (strlen_nonneg (in_blob i).(box)). lia. }
  destruct HB as [Hb Hr Hs Ht]. simpl. split.
  - intros x [Hx| ->%list_elem_of_singleton]%elem_of_app; [by apply Hb|done].
  - intros u t. apply within_snoc; [apply Hr|done|]. intros [<- <-]. unfold load in *. simpl in *. lia.
  - intros u f. apply within_snoc; [apply Hs|done|]. intros [<- <-]. unfold load in *. simpl in *. lia.
  - unfold load in *. simpl in *. rewrite sum_by_app. simpl. lia.
Qed.

Lemma bounded_step s o : Bounded s.(items) → Bounded (f_step lim s o).1.(items).
Proof.
  intros HB. assert (∀ p, Bounded (f_keep s p).(items)) as Hk.
  { intros p. eapply bounded_sublist; [|exact HB]. apply sublist_filter. }
  destruct o as [now i|u t|r c now|u a i|now|u d|u| |]; try done; try exact (Hk _); simpl.
  - pose proof (bounded_enqueue s now i HB). by destruct (f_enqueue lim s now i).
  - by apply bounded_mark.
  - destruct (list_find _ _) as [[n x]|]; [|done]. simpl.
    eapply bounded_sublist; [|exact HB]. apply sublist_delete.
  - apply bounded_nil.
Qed.

Lemma bounded_run s ops : Bounded s.(items) → Bounded (run (f_step lim) s ops).1.(items).
Proof.
  revert s. induction ops as [|o ops IH]; intros s HB; [done|]. simpl.
  pose proof (bounded_step s o HB) as HB'. destruct (f_step lim s o) as [s1 out].
  pose proof (IH s1 HB'). by destruct (run _ s1 ops).
Qed.
End bounds.

(** ** The properties *)

(** C15: The queue's two indexes, two tallies and byte counter implement one
    FIFO list of entries.  For any sequence of enqueue, pending, markDelivered,
    ack, sweep, purge, stats and clear calls from the empty queue, every result
    the class returns (the accepted, duplicate and full verdicts, the pending
    list in arrival order, the acked entry, the swept entries, the statistics)
    is the result of the abstract list, whose caps are counted afresh from the
    entries on each call. *)
Theorem queue_refines_fifo (lim : BusQueueLimits) (ops : list QOp) :
  forallb op_clean ops = true →
  (run (q_step lim) new_queue ops).2 = (run (f_step lim) f_new ops).2.
Proof. intros Hops. by apply (sim_run lim new_queue f_new ops (sim_new)). Qed.

(** After any sequence of operations the queue is within its limits: what
    it holds for one recipient, what it holds of one sender, and the total. *)
Theorem queue_bounds (lim : BusQueueLimits) (ops : list QOp) (u d : string) :
  forallb op_clean ops = true → lacks NUL u = true →
  let q := (run (q_step lim) new_queue ops).1 in
  let held := deref q (pending q u d) in
  let sent := filter (λ e, e.(uid) = u ∧ e.(from) = d) (deref q (all_refs q)) in
  length held = length (pending q u d) ∧
  Z.of_nat (length held) <= Z.max 0 lim.(maxMessagesPerRecipient) ∧
  sum_by bytes held <= Z.max 0 lim.(maxBytesPerRecipient) ∧
  Z.of_nat (length sent) <= Z.max 0 lim.(maxMessagesPerSender) ∧
  sum_by bytes sent <= Z.max 0 lim.(maxBytesPerSender) ∧
  q.(totalBytes) = sum_by bytes (deref q (all_refs q)) ∧
  q.(totalBytes) <= Z.max 0 lim.(maxBytesTotal).
Proof.
  intros Hops Hu. cbn zeta.
  destruct (sim_run lim new_queue f_new ops (sim_new) Hops) as [HS _].
  pose proof (bounded_run lim f_new ops (bounded_nil lim)) as HB.
  set (q := (run (q_step lim) new_queue ops).1) in *.
  set (s := (run (f_step lim) f_new ops).1) in *.
  pose proof HS as (HR & _). rewrite (sim_pending q s), (rep_deref q s.(items)) by done.
  rewrite (rep_all_refs _ _ HR), (deref_heap q s.(items)) by apply (rep_heap _ _ HR).
  destruct HB as [_ Hr Hs Ht]. destruct (Hr u d) as [Hr1 Hr2]. destruct (Hs u d) as [Hs1 Hs2].
  unfold load in *. simpl in *. rewrite filter_fmap, !length_fmap, !sum_by_fmap.
  rewrite (rep_total _ _ HR), sum_by_fmap. by split_and!.
Qed.

(** *** A run *)
Definition demo_limits : BusQueueLimits :=
  {| maxMessagesPerRecipient := 2; maxBytesPerRecipient := 100; maxMessagesPerSender := 5;
     maxBytesPerSender := 200; maxBytesTotal := 1000; maxTtlMs := 5000 |}.

Definition demo_mail (i : string) : EnqueueInput :=
  {| in_uid := "u1"; in_from := "phone"; in_to := "desk"; in_id := i;
     in_blob := {| epk := "k"; box := "sealed" |}; in_ttlMs := 9000 |}.

Definition demo_ops : list QOp :=
  [OpEnqueue 0 (demo_mail "m1"); OpEnqueue 1 (demo_mail "m2"); OpEnqueue 2 (demo_mail "m1");
   OpEnqueue 3 (demo_mail "m3"); OpMark 1%positive "c1" 4; OpAck "u1" "desk" "m1";
   OpAck "u2" "desk" "m2"; OpEnqueue 5 (demo_mail "m3"); OpPending "u1" "desk"; OpSweep 5001; OpStats].

Lemma queue_refines_fifo_witness :
  omap (λ o, match o with OutEnqueue r => Some r | _ => None end)
    (run (q_step demo_limits) new_queue demo_ops).2 =
  [Queued 1%positive; Queued 2%positive; Duplicate 1%positive; RecipientFull; Queued 3%positive].
Proof. rewrite (queue_refines_fifo demo_limits demo_ops eq_refl). reflexivity. Defined.

Lemma queue_bounds_witness :
  let q := (run (q_step demo_limits) new_queue demo_ops).1 in
  let held := deref q (pending q "u1" "desk") in
  map id held = ["m3"] ∧ Z.of_nat (length held) <= 2.
Proof.
  split; [vm_compute; reflexivity|].
  exact (proj1 (proj2 (queue_bounds demo_limits demo_ops "u1" "desk" eq_refl eq_refl))).
Defined.
