(* ===== verification/ServerState.v ===== *)
(** * ServerState: the relay's state, effects and clock

    The variables [startServer] ([relay/src/server.ts]) closes over, as one
    record threaded through the handlers by a state monad, and the effects the
    handlers have on sockets and push providers, in order, as a trace.  Two
    oracles stand for the outside: [time], the successive readings of the clock,
    and [wsSend], the status of the successive [ws.send] calls. *)

From S2P Require Import Prelude JsMap ClientIp SocketAdmissions RateLimiter ReplayCache Liveness.
From S2P Require Import Wire BusQueue RelayAuth License Connections.
From Stdlib Require Import QArith.

Local Open Scope Z_scope.
Local Open Scope js_scope.

Record RelayConfig := {
  maxConnections : Z;
  rateLimitConnPerIp : Z;
  pushRateLimitPerSec : Z;
  jsonRateLimitPerSec : Z;
  jsonRateLimitBurst : Z;
  clockSkewMs : Z;
  replayTtlMs : Z;
  pingIntervalMs : Z;
  pongTimeoutMs : Z;
  busLimits : BusQueueLimits;
  busSendBytesPerMin : Z;
  licenseCacheMaxEntries : Z;
  licenseIssuerUrl : option string;
  licenseApiUrl : string;
  relayInternalSecret : string;
  trustedProxyIps : list Cidr;
  hasFcmSender : bool;
  hasApnsSender : bool;
}.

(** [config.licenseIssuerUrl || config.licenseApiUrl] *)
Definition issuerBaseUrl (config : RelayConfig) : string :=
  match config.(licenseIssuerUrl) with
  | None | Some EmptyString => config.(licenseApiUrl)
  | Some u => u
  end.

(** What [handleHello] holds across its [await]. *)
Record PendingHello := { p_hello : HelloMessage; p_now : Z; p_tsMs : Z }.

Inductive Effect :=
| Send (ws : string) (m : ServerMessage)
| CloseSocket (ws : string) (code : Z) (reason : string)
| ProtocolPing (ws : string)
| PushSend (p : provider) (pushToken : string) (blob : BusBlob) (collapseKey : option string).

(** A socket is named by its connection id.  [trace] and [history] record the
    effects so far and the connections admitted so far; no handler reads them,
    the oracle of [ws.send] apart.  [pushes] are the provider calls
    that have not settled: the agent to answer, and the push token. *)
Record Server := {
  sockets : gmap string Socket;
  connections : Connections;
  nextOid : positive;
  admissions : SocketAdmissions;
  replayCache : Seen;
  pushRateLimiter : MessageRateLimiter;
  jsonRateLimiter : TokenBucketRateLimiter;
  busByteLimiter : TokenBucketRateLimiter;
  busRedeliverLimiter : TokenBucketRateLimiter;
  busQueue : BusQueue;
  lastDrainAt : jsmap string Z;
  licenseCache : LicenseCache;
  liveness : Tracker;
  helloTimers : gset string;
  pendingHello : gmap string PendingHello;
  gateResult : gmap string (LicenseCacheEntry + LicenseCode);
  pushes : gmap nat (string * string);
  nextPush : nat;
  reads : nat;
  trace : list Effect;
  history : list Connection;
}.

Definition upd_sockets (f : gmap string Socket → gmap string Socket) (s : Server) : Server :=
  {| sockets := f s.(sockets); connections := s.(connections); nextOid := s.(nextOid);
     admissions := s.(admissions); replayCache := s.(replayCache);
     pushRateLimiter := s.(pushRateLimiter); jsonRateLimiter := s.(jsonRateLimiter);
     busByteLimiter := s.(busByteLimiter); busRedeliverLimiter := s.(busRedeliverLimiter);
     busQueue := s.(busQueue); lastDrainAt := s.(lastDrainAt); licenseCache := s.(licenseCache);
     liveness := s.(liveness); helloTimers := s.(helloTimers); pendingHello := s.(pendingHello);
     gateResult := s.(gateResult); pushes := s.(pushes); nextPush := s.(nextPush);
     reads := s.(reads); trace := s.(trace); history := s.(history) |}.
Definition upd_connections (f : Connections → Connections) (s : Server) : Server :=
  {| sockets := s.(sockets); connections := f s.(connections); nextOid := s.(nextOid);
     admissions := s.(admissions); replayCache := s.(replayCache);
     pushRateLimiter := s.(pushRateLimiter); jsonRateLimiter := s.(jsonRateLimiter);
     busByteLimiter := s.(busByteLimiter); busRedeliverLimiter := s.(busRedeliverLimiter);
     busQueue := s.(busQueue); lastDrainAt := s.(lastDrainAt); licenseCache := s.(licenseCache);
     liveness := s.(liveness); helloTimers := s.(helloTimers); pendingHello := s.(pendingHello);
     gateResult := s.(gateResult); pushes := s.(pushes); nextPush := s.(nextPush);
     reads := s.(reads); trace := s.(trace); history := s.(history) |}.
Definition upd_nextOid (f : positive → positive) (s : Server) : Server :=
  {| sockets := s.(sockets); connections := s.(connections); nextOid := f s.(nextOid);
     admissions := s.(admissions); replayCache := s.(replayCache);
     pushRateLimiter := s.(pushRateLimiter); jsonRateLimiter := s.(jsonRateLimiter);
     busByteLimiter := s.(busByteLimiter); busRedeliverLimiter := s.(busRedeliverLimiter);
     busQueue := s.(busQueue); lastDrainAt := s.(lastDrainAt); licenseCache := s.(licenseCache);
     liveness := s.(liveness); helloTimers := s.(helloTimers); pendingHello := s.(pendingHello);
     gateResult := s.(gateResult); pushes := s.(pushes); nextPush := s.(nextPush);
     reads := s.(reads); trace := s.(trace); history := s.(history) |}.
Definition upd_admissions (f : SocketAdmissions → SocketAdmissions) (s : Server) : Server :=
  {| sockets := s.(sockets); connections := s.(connections); nextOid := s.(nextOid);
     admissions := f s.(admissions); replayCache := s.(replayCache);
     pushRateLimiter := s.(pushRateLimiter); jsonRateLimiter := s.(jsonRateLimiter);
     busByteLimiter := s.(busByteLimiter); busRedeliverLimiter := s.(busRedeliverLimiter);
     busQueue := s.(busQueue); lastDrainAt := s.(lastDrainAt); licenseCache := s.(licenseCache);
     liveness := s.(liveness); helloTimers := s.(helloTimers); pendingHello := s.(pendingHello);
     gateResult := s.(gateResult); pushes := s.(pushes); nextPush := s.(nextPush);
     reads := s.(reads); trace := s.(trace); history := s.(history) |}.
Definition upd_replayCache (f : Seen → Seen) (s : Server) : Server :=
  {| sockets := s.(sockets); connections := s.(connections); nextOid := s.(nextOid);
     admissions := s.(admissions); replayCache := f s.(replayCache);
     pushRateLimiter := s.(pushRateLimiter); jsonRateLimiter := s.(jsonRateLimiter);
     busByteLimiter := s.(busByteLimiter); busRedeliverLimiter := s.(busRedeliverLimiter);
     busQueue := s.(busQueue); lastDrainAt := s.(lastDrainAt); licenseCache := s.(licenseCache);
     liveness := s.(liveness); helloTimers := s.(helloTimers); pendingHello := s.(pendingHello);
     gateResult := s.(gateResult); pushes := s.(pushes); nextPush := s.(nextPush);
     reads := s.(reads); trace := s.(trace); history := s.(history) |}.
Definition upd_pushRateLimiter (f : MessageRateLimiter → MessageRateLimiter) (s : Server) : Server :=
  {| sockets := s.(sockets); connections := s.(connections); nextOid := s.(nextOid);
     admissions := s.(admissions); replayCache := s.(replayCache);
     pushRateLimiter := f s.(pushRateLimiter); jsonRateLimiter := s.(jsonRateLimiter);
     busByteLimiter := s.(busByteLimiter); busRedeliverLimiter := s.(busRedeliverLimiter);
     busQueue := s.(busQueue); lastDrainAt := s.(lastDrainAt); licenseCache := s.(licenseCache);
     liveness := s.(liveness); helloTimers := s.(helloTimers); pendingHello := s.(pendingHello);
     gateResult := s.(gateResult); pushes := s.(pushes); nextPush := s.(nextPush);
     reads := s.(reads); trace := s.(trace); history := s.(history) |}.
Definition upd_jsonRateLimiter (f : TokenBucketRateLimiter → TokenBucketRateLimiter) (s : Server) : Server :=
  {| sockets := s.(sockets); connections := s.(connections); nextOid := s.(nextOid);
     admissions := s.(admissions); replayCache := s.(replayCache);
     pushRateLimiter := s.(pushRateLimiter); jsonRateLimiter := f s.(jsonRateLimiter);
     busByteLimiter := s.(busByteLimiter); busRedeliverLimiter := s.(busRedeliverLimiter);
     busQueue := s.(busQueue); lastDrainAt := s.(lastDrainAt); licenseCache := s.(licenseCache);
     liveness := s.(liveness); helloTimers := s.(helloTimers); pendingHello := s.(pendingHello);
     gateResult := s.(gateResult); pushes := s.(pushes); nextPush := s.(nextPush);
     reads := s.(reads); trace := s.(trace); history := s.(history) |}.
Definition upd_busByteLimiter (f : TokenBucketRateLimiter → TokenBucketRateLimiter) (s : Server) : Server :=
  {| sockets := s.(sockets); connections := s.(connections); nextOid := s.(nextOid);
     admissions := s.(admissions); replayCache := s.(replayCache);
     pushRateLimiter := s.(pushRateLimiter); jsonRateLimiter := s.(jsonRateLimiter);
     busByteLimiter := f s.(busByteLimiter); busRedeliverLimiter := s.(busRedeliverLimiter);
     busQueue := s.(busQueue); lastDrainAt := s.(lastDrainAt); licenseCache := s.(licenseCache);
     liveness := s.(liveness); helloTimers := s.(helloTimers); pendingHello := s.(pendingHello);
     gateResult := s.(gateResult); pushes := s.(pushes); nextPush := s.(nextPush);
     reads := s.(reads); trace := s.(trace); history := s.(history) |}.
Definition upd_busRedeliverLimiter (f : TokenBucketRateLimiter → TokenBucketRateLimiter) (s : Server) : Server :=
  {| sockets := s.(sockets); connections := s.(connections); nextOid := s.(nextOid);
     admissions := s.(admissions); replayCache := s.(replayCache);
     pushRateLimiter := s.(pushRateLimiter); jsonRateLimiter := s.(jsonRateLimiter);
     busByteLimiter := s.(busByteLimiter); busRedeliverLimiter := f s.(busRedeliverLimiter);
     busQueue := s.(busQueue); lastDrainAt := s.(lastDrainAt); licenseCache := s.(licenseCache);
     liveness := s.(liveness); helloTimers := s.(helloTimers); pendingHello := s.(pendingHello);
     gateResult := s.(gateResult); pushes := s.(pushes); nextPush := s.(nextPush);
     reads := s.(reads); trace := s.(trace); history := s.(history) |}.
Definition upd_busQueue (f : BusQueue → BusQueue) (s : Server) : Server :=
  {| sockets := s.(sockets); connections := s.(connections); nextOid := s.(nextOid);
     admissions := s.(admissions); replayCache := s.(replayCache);
     pushRateLimiter := s.(pushRateLimiter); jsonRateLimiter := s.(jsonRateLimiter);
     busByteLimiter := s.(busByteLimiter); busRedeliverLimiter := s.(busRedeliverLimiter);
     busQueue := f s.(busQueue); lastDrainAt := s.(lastDrainAt); licenseCache := s.(licenseCache);
     liveness := s.(liveness); helloTimers := s.(helloTimers); pendingHello := s.(pendingHello);
     gateResult := s.(gateResult); pushes := s.(pushes); nextPush := s.(nextPush);
     reads := s.(reads); trace := s.(trace); history := s.(history) |}.
Definition upd_lastDrainAt (f : jsmap string Z → jsmap string Z) (s : Server) : Server :=
  {| sockets := s.(sockets); connections := s.(connections); nextOid := s.(nextOid);
     admissions := s.(admissions); replayCache := s.(replayCache);
     pushRateLimiter := s.(pushRateLimiter); jsonRateLimiter := s.(jsonRateLimiter);
     busByteLimiter := s.(busByteLimiter); busRedeliverLimiter := s.(busRedeliverLimiter);
     busQueue := s.(busQueue); lastDrainAt := f s.(lastDrainAt); licenseCache := s.(licenseCache);
     liveness := s.(liveness); helloTimers := s.(helloTimers); pendingHello := s.(pendingHello);
     gateResult := s.(gateResult); pushes := s.(pushes); nextPush := s.(nextPush);
     reads := s.(reads); trace := s.(trace); history := s.(history) |}.
Definition upd_licenseCache (f : LicenseCache → LicenseCache) (s : Server) : Server :=
  {| sockets := s.(sockets); connections := s.(connections); nextOid := s.(nextOid);
     admissions := s.(admissions); replayCache := s.(replayCache);
     pushRateLimiter := s.(pushRateLimiter); jsonRateLimiter := s.(jsonRateLimiter);
     busByteLimiter := s.(busByteLimiter); busRedeliverLimiter := s.(busRedeliverLimiter);
     busQueue := s.(busQueue); lastDrainAt := s.(lastDrainAt); licenseCache := f s.(licenseCache);
     liveness := s.(liveness); helloTimers := s.(helloTimers); pendingHello := s.(pendingHello);
     gateResult := s.(gateResult); pushes := s.(pushes); nextPush := s.(nextPush);
     reads := s.(reads); trace := s.(trace); history := s.(history) |}.
Definition upd_liveness (f : Tracker → Tracker) (s : Server) : Server :=
  {| sockets := s.(sockets); connections := s.(connections); nextOid := s.(nextOid);
     admissions := s.(admissions); replayCache := s.(replayCache);
     pushRateLimiter := s.(pushRateLimiter); jsonRateLimiter := s.(jsonRateLimiter);
     busByteLimiter := s.(busByteLimiter); busRedeliverLimiter := s.(busRedeliverLimiter);
     busQueue := s.(busQueue); lastDrainAt := s.(lastDrainAt); licenseCache := s.(licenseCache);
     liveness := f s.(liveness); helloTimers := s.(helloTimers); pendingHello := s.(pendingHello);
     gateResult := s.(gateResult); pushes := s.(pushes); nextPush := s.(nextPush);
     reads := s.(reads); trace := s.(trace); history := s.(history) |}.
Definition upd_helloTimers (f : gset string → gset string) (s : Server) : Server :=
  {| sockets := s.(sockets); connections := s.(connections); nextOid := s.(nextOid);
     admissions := s.(admissions); replayCache := s.(replayCache);
     pushRateLimiter := s.(pushRateLimiter); jsonRateLimiter := s.(jsonRateLimiter);
     busByteLimiter := s.(busByteLimiter); busRedeliverLimiter := s.(busRedeliverLimiter);
     busQueue := s.(busQueue); lastDrainAt := s.(lastDrainAt); licenseCache := s.(licenseCache);
     liveness := s.(liveness); helloTimers := f s.(helloTimers); pendingHello := s.(pendingHello);
     gateResult := s.(gateResult); pushes := s.(pushes); nextPush := s.(nextPush);
     reads := s.(reads); trace := s.(trace); history := s.(history) |}.
Definition upd_pendingHello (f : gmap string PendingHello → gmap string PendingHello) (s : Server) : Server :=
  {| sockets := s.(sockets); connections := s.(connections); nextOid := s.(nextOid);
     admissions := s.(admissions); replayCache := s.(replayCache);
     pushRateLimiter := s.(pushRateLimiter); jsonRateLimiter := s.(jsonRateLimiter);
     busByteLimiter := s.(busByteLimiter); busRedeliverLimiter := s.(busRedeliverLimiter);
     busQueue := s.(busQueue); lastDrainAt := s.(lastDrainAt); licenseCache := s.(licenseCache);
     liveness := s.(liveness); helloTimers := s.(helloTimers); pendingHello := f s.(pendingHello);
     gateResult := s.(gateResult); pushes := s.(pushes); nextPush := s.(nextPush);
     reads := s.(reads); trace := s.(trace); history := s.(history) |}.
Definition upd_gateResult (f : gmap string (LicenseCacheEntry + LicenseCode) → gmap string (LicenseCacheEntry + LicenseCode)) (s : Server) : Server :=
  {| sockets := s.(sockets); connections := s.(connections); nextOid := s.(nextOid);
     admissions := s.(admissions); replayCache := s.(replayCache);
     pushRateLimiter := s.(pushRateLimiter); jsonRateLimiter := s.(jsonRateLimiter);
     busByteLimiter := s.(busByteLimiter); busRedeliverLimiter := s.(busRedeliverLimiter);
     busQueue := s.(busQueue); lastDrainAt := s.(lastDrainAt); licenseCache := s.(licenseCache);
     liveness := s.(liveness); helloTimers := s.(helloTimers); pendingHello := s.(pendingHello);
     gateResult := f s.(gateResult); pushes := s.(pushes); nextPush := s.(nextPush);
     reads := s.(reads); trace := s.(trace); history := s.(history) |}.
Definition upd_pushes (f : gmap nat (string * string) → gmap nat (string * string)) (s : Server) : Server :=
  {| sockets := s.(sockets); connections := s.(connections); nextOid := s.(nextOid);
     admissions := s.(admissions); replayCache := s.(replayCache);
     pushRateLimiter := s.(pushRateLimiter); jsonRateLimiter := s.(jsonRateLimiter);
     busByteLimiter := s.(busByteLimiter); busRedeliverLimiter := s.(busRedeliverLimiter);
     busQueue := s.(busQueue); lastDrainAt := s.(lastDrainAt); licenseCache := s.(licenseCache);
     liveness := s.(liveness); helloTimers := s.(helloTimers); pendingHello := s.(pendingHello);
     gateResult := s.(gateResult); pushes := f s.(pushes); nextPush := s.(nextPush);
     reads := s.(reads); trace := s.(trace); history := s.(history) |}.
Definition upd_nextPush (f : nat → nat) (s : Server) : Server :=
  {| sockets := s.(sockets); connections := s.(connections); nextOid := s.(nextOid);
     admissions := s.(admissions); replayCache := s.(replayCache);
     pushRateLimiter := s.(pushRateLimiter); jsonRateLimiter := s.(jsonRateLimiter);
     busByteLimiter := s.(busByteLimiter); busRedeliverLimiter := s.(busRedeliverLimiter);
     busQueue := s.(busQueue); lastDrainAt := s.(lastDrainAt); licenseCache := s.(licenseCache);
     liveness := s.(liveness); helloTimers := s.(helloTimers); pendingHello := s.(pendingHello);
     gateResult := s.(gateResult); pushes := s.(pushes); nextPush := f s.(nextPush);
     reads := s.(reads); trace := s.(trace); history := s.(history) |}.
Definition upd_reads (f : nat → nat) (s : Server) : Server :=
  {| sockets := s.(sockets); connections := s.(connections); nextOid := s.(nextOid);
     admissions := s.(admissions); replayCache := s.(replayCache);
     pushRateLimiter := s.(pushRateLimiter); jsonRateLimiter := s.(jsonRateLimiter);
     busByteLimiter := s.(busByteLimiter); busRedeliverLimiter := s.(busRedeliverLimiter);
     busQueue := s.(busQueue); lastDrainAt := s.(lastDrainAt); licenseCache := s.(licenseCache);
     liveness := s.(liveness); helloTimers := s.(helloTimers); pendingHello := s.(pendingHello);
     gateResult := s.(gateResult); pushes := s.(pushes); nextPush := s.(nextPush);
     reads := f s.(reads); trace := s.(trace); history := s.(history) |}.
Definition upd_trace (f : list Effect → list Effect) (s : Server) : Server :=
  {| sockets := s.(sockets); connections := s.(connections); nextOid := s.(nextOid);
     admissions := s.(admissions); replayCache := s.(replayCache);
     pushRateLimiter := s.(pushRateLimiter); jsonRateLimiter := s.(jsonRateLimiter);
     busByteLimiter := s.(busByteLimiter); busRedeliverLimiter := s.(busRedeliverLimiter);
     busQueue := s.(busQueue); lastDrainAt := s.(lastDrainAt); licenseCache := s.(licenseCache);
     liveness := s.(liveness); helloTimers := s.(helloTimers); pendingHello := s.(pendingHello);
     gateResult := s.(gateResult); pushes := s.(pushes); nextPush := s.(nextPush);
     reads := s.(reads); trace := f s.(trace); history := s.(history) |}.
Definition upd_history (f : list Connection → list Connection) (s : Server) : Server :=
  {| sockets := s.(sockets); connections := s.(connections); nextOid := s.(nextOid);
     admissions := s.(admissions); replayCache := s.(replayCache);
     pushRateLimiter := s.(pushRateLimiter); jsonRateLimiter := s.(jsonRateLimiter);
     busByteLimiter := s.(busByteLimiter); busRedeliverLimiter := s.(busRedeliverLimiter);
     busQueue := s.(busQueue); lastDrainAt := s.(lastDrainAt); licenseCache := s.(licenseCache);
     liveness := s.(liveness); helloTimers := s.(helloTimers); pendingHello := s.(pendingHello);
     gateResult := s.(gateResult); pushes := s.(pushes); nextPush := s.(nextPush);
     reads := s.(reads); trace := s.(trace); history := f s.(history) |}.

(** ** The monad *)

Declare Scope server_scope.
Delimit Scope server_scope with server.

Definition M (A : Type) : Type := Server → A * Server.

(** [await]-free sequencing: [let! x := m in k] runs [m], then [k] on its result. *)
Definition bind {A B} (m : M A) (k : A → M B) : M B := λ s, let '(a, s') := m s in k a s'.
Notation "'let!' x := m 'in' k" := (bind m (λ x, k))
  (at level 10, x name, m at level 100, k at level 200).
Notation "m ;; k" := (bind m (λ _, k)) (at level 100, k at level 200, right associativity) : server_scope.

Definition ret {A} (a : A) : M A := λ s, (a, s).
Definition gets {A} (f : Server → A) : M A := λ s, (f s, s).
Definition modify (f : Server → Server) : M unit := λ s, ((), f s).
Definition done_ : M unit := ret ().

Local Open Scope server_scope.

(** [for (const a of l) if (!body(a)) break;] *)
Fixpoint iter {A} (l : list A) (body : A → M bool) : M unit :=
  match l with
  | [] => done_
  | a :: l' => let! more := body a in if more then iter l' body else done_
  end.

(** [for (const a of l) body(a);] *)
Fixpoint for_each {A} (l : list A) (body : A → M unit) : M unit :=
  match l with [] => done_ | a :: l' => body a;; for_each l' body end.

Section primitives.
Context (config : RelayConfig) (time wsSend : nat → Z).

(** [Date.now()], and [busNow()], which is [Date.now] outside tests. *)
Definition date_now : M Z := λ s, (time s.(reads), upd_reads S s).

Definition emit (e : Effect) : M unit := modify (upd_trace (λ t, t ++ [e])).

(** [ws.readyState === 1] *)
Definition is_open (ws : string) (s : Server) : bool :=
  match s.(sockets) !! ws with Some sock => sock.(isOpen) | None => false end.

(** [ws.send]: its status is the oracle's. *)
Definition ws_send (ws : string) (m : ServerMessage) : M Z := λ s,
  (wsSend (length s.(trace)), upd_trace (λ t, t ++ [Send ws m]) s).

Definition sendJson (ws : string) (m : ServerMessage) : M Z :=
  let! op := gets (is_open ws) in if op then ws_send ws m else ret 0.

Definition sendError (ws : string) (code : ErrorCode) (message : string) (retryable : bool)
    (serverTime : option string) : M unit :=
  sendJson ws (ErrorMessage code message retryable serverTime);; done_.

Definition with_phase (p : Phase) (sock : Socket) : Socket :=
  {| ip := sock.(ip); wsRelayHost := sock.(wsRelayHost); wsDeviceId := sock.(wsDeviceId);
     phase := p; isOpen := sock.(isOpen) |}.
Definition not_open (sock : Socket) : Socket :=
  {| ip := sock.(ip); wsRelayHost := sock.(wsRelayHost); wsDeviceId := sock.(wsDeviceId);
     phase := sock.(phase); isOpen := false |}.
Definition admitted_as (d : string) (sock : Socket) : Socket :=
  {| ip := sock.(ip); wsRelayHost := sock.(wsRelayHost); wsDeviceId := Some d;
     phase := ready; isOpen := sock.(isOpen) |}.

Definition set_phase (ws : string) (p : Phase) : M unit :=
  modify (upd_sockets (alter (with_phase p) ws)).

(** [ws.close(code, reason)]: the socket is no longer open; its close event
    comes as a later step. *)
Definition ws_close (ws : string) (code : Z) (reason : string) : M unit :=
  modify (upd_sockets (alter not_open ws));; emit (CloseSocket ws code reason).

Definition sendErrorAndClose (ws : string) (code : ErrorCode) (message : string) (retryable : bool)
    (closeCode : Z) (serverTime : option string) : M unit :=
  sendError ws code message retryable serverTime;;
  set_phase ws closed;;
  ws_close ws closeCode (enum_name all_error_codes code).

Definition clearHelloTimer (ws : string) : M unit := modify (upd_helloTimers (λ t, t ∖ {[ws]})).

(** *** The limiters, at the time they read the clock *)

Definition push_allow (key : string) : M bool :=
  let! now := date_now in
  λ s, let '(l, ok) := window_allow config.(pushRateLimitPerSec) now key s.(pushRateLimiter) in
       (ok, upd_pushRateLimiter (λ _, l) s).

Definition json_allow (key : string) : M bool :=
  let! now := date_now in
  λ s, let '(l, ok) := bucket_allow (inject_Z config.(jsonRateLimitPerSec))
                         (inject_Z config.(jsonRateLimitBurst)) now key 1 s.(jsonRateLimiter) in
       (ok, upd_jsonRateLimiter (λ _, l) s).

Definition busRefill : Q := (inject_Z config.(busSendBytesPerMin) / 60)%Q.

Definition busBytes_allow (key : string) (bytes : Z) : M bool :=
  let! now := date_now in
  λ s, let '(l, ok) := bucket_allow busRefill (inject_Z config.(busSendBytesPerMin)) now key
                         (inject_Z bytes) s.(busByteLimiter) in
       (ok, upd_busByteLimiter (λ _, l) s).

Definition busRedeliverAllowed (recipientDeviceId : string) (bytes : Z) : M bool :=
  let! now := date_now in
  λ s, let '(l, ok) := bucket_allow busRefill (inject_Z config.(busSendBytesPerMin)) now
                         ("bus-rx:" +:+ recipientDeviceId) (inject_Z bytes) s.(busRedeliverLimiter) in
       (ok, upd_busRedeliverLimiter (λ _, l) s).

(** *** Presence and the bus *)

(** The loop of [sameAccountPeers], over the peers of the account. *)
Fixpoint dedup_peers (s : Server) (self : string) (seen : gset string) (peers : list Connection)
  : list Connection :=
  match peers with
  | [] => []
  | p :: rest =>
      if negb (is_open p.(connectionId) s) || bool_decide (p.(Connections.deviceId) = self) ||
         bool_decide (p.(Connections.deviceId) ∈ seen)
      then dedup_peers s self seen rest
      else p :: dedup_peers s self ({[p.(Connections.deviceId)]} ∪ seen) rest
  end.

Definition sameAccountPeers (conn : Connection) (dt : Wire.deviceType) (s : Server) : list Connection :=
  dedup_peers s conn.(Connections.deviceId) ∅
    (filter (λ p, p.(Connections.deviceType) = dt)
       (getConnectionsForUser conn.(Connections.uid) s.(connections))).

Definition presence (online : bool) (d : string) : ServerMessage :=
  if online then PeerOnline d else PeerOffline d.

Definition fanOutAgentPresence (conn : Connection) (online : bool) : M unit :=
  if decide (conn.(Connections.deviceType) = agent) then
    let! apps := gets (sameAccountPeers conn app) in
    for_each apps (λ p, sendJson p.(connectionId) (presence online conn.(Connections.deviceId));; done_);;
    let! agents := gets (sameAccountPeers conn agent) in
    for_each agents (λ p, sendJson p.(connectionId) (presence online conn.(Connections.deviceId));; done_)
  else done_.

Definition busPeer (u d : string) (s : Server) : option Connection :=
  match getByDeviceId d s.(connections) with
  | Some live =>
      if bool_decide (live.(Connections.uid) = u) && bool_decide (live.(Connections.deviceType) = agent)
      then Some live else None
  | None => None
  end.

Definition busRefuse (ws i t : string) (reason : BusRefusalReason) (retryable : bool) : M unit :=
  sendJson ws (BusRefused i t reason retryable);; done_.

Definition busReceipt (ws : string) (entry : BusEntry) (state : receipt_state) : M unit :=
  sendJson ws (BusReceipt entry.(BusQueue.id) entry.(to) state);; done_.

(** [entry] by its identity [r]; its fields are read when they are used. *)
Definition busDeliver (r : ref) (recipient : Connection) : M bool :=
  let! found := gets (λ s, s.(busQueue).(heap) !! r) in
  match found with
  | None => ret false
  | Some entry =>
      let! sent := sendJson recipient.(connectionId) (BusDeliver entry.(BusQueue.id) entry.(from) entry.(blob)) in
      if sent =? 0 then ret false
      else
        let! now := date_now in
        modify (upd_busQueue (λ q, markDelivered q r recipient.(connectionId) now));;
        let! sender := gets (busPeer entry.(BusQueue.uid) entry.(from)) in
        match sender with
        | Some sdr => busReceipt sdr.(connectionId) entry delivered_to_socket
        | None => done_
        end;;
        ret true
  end.

(** [if (!busRedeliverAllowed(live.deviceId, entry.bytes)) break; busDeliver(entry, live);] *)
Definition deliver_within_budget (live : Connection) (r : ref) : M bool :=
  let! found := gets (λ s, s.(busQueue).(heap) !! r) in
  match found with
  | None => ret true
  | Some entry =>
      let! ok := busRedeliverAllowed live.(Connections.deviceId) entry.(bytes) in
      if ok then busDeliver r live;; ret true else ret false
  end.

Definition redeliver_one (live : Connection) (t : Z) (r : ref) : M bool :=
  let! found := gets (λ s, s.(busQueue).(heap) !! r) in
  match found with
  | None => ret true
  | Some entry =>
      if redeliverable entry live.(connectionId) t then deliver_within_budget live r else ret true
  end.

(** Mail for [live] in arrival order. *)
Definition pending_for (live : Connection) : M (list ref) :=
  gets (λ s, pending s.(busQueue) live.(Connections.uid) live.(Connections.deviceId)).

Definition sweepBus : M unit :=
  let! now := date_now in
  let! q := gets busQueue in
  let '(q', gone) := sweep q now in
  modify (upd_busQueue (λ _, q'));;
  for_each gone (λ entry,
    let! sender := gets (busPeer entry.(BusQueue.uid) entry.(from)) in
    match sender with
    | Some sdr => busRefuse sdr.(connectionId) entry.(BusQueue.id) entry.(to) expired false
    | None => done_
    end);;
  let! t := date_now in
  let! all := gets (λ s, getAll s.(connections)) in
  for_each all (λ live,
    if bool_decide (live.(Connections.deviceType) = agent) && live.(busCapable) then
      let! refs := pending_for live in
      iter refs (redeliver_one live t)
    else done_).
End primitives.
