(* ===== verification/RelayServer.v ===== *)
(** * RelayServer: the relay's handlers

    Models [relay/src/server.ts]: the hello handshake, the control messages,
    the timers and the socket callbacks.  [handleHello] is cut at its [await]:
    [hello_begin] runs up to it, [hello_settled] is the awaited license gate,
    [hello_resume] is the rest.  The JavaScript runtime's [JSON.parse],
    [Date.parse] and [toISOString], Ed25519, SHA-256 and [jose] are parameters. *)

From S2P Require Import Prelude JsMap ClientIp SocketAdmissions RateLimiter ReplayCache Liveness.
From S2P Require Import Wire BusQueue RelayAuth License Connections ServerState.

Local Open Scope Z_scope.
Local Open Scope js_scope.
Local Open Scope server_scope.

Definition HELLO_TIMEOUT_MS : Z := 10000.
Definition MAX_CONTROL_FRAME_BYTES : Z := RELAY_MAX_CONTROL_FRAME_BYTES.
Definition BUS_DRAIN_MIN_INTERVAL_MS : Z := 5000.
Definition BUS_SWEEP_INTERVAL_MS : Z := 30000.

(** What lies outside the relay's sources. *)
Class Externals := {
  JWK : Type;
  VerifyKey : Type;
  kid_of : JWK → option string;
  importJWK : JWK → VerifyKey + Err;
  jwtVerify : string → (option string → VerifyKey + Err) → string → json + Err;
  json_parse : string → option json;
  date_parse : string → option Z;
  toISOString : Z → string;
  is_uuid : string → bool;
  is_datetime : string → bool;
  sha256 : string → string;
  base64_decode : string → string;
  (** [edVerify(null, body, spki of the raw key, sig)]; it may throw *)
  edVerify : string → string → string → option bool;
  (** [createHmac] with SHA-256 of a secret and a body, in hexadecimal *)
  hmac_sha256_hex : string → string → string;
}.

Section handlers.
Context `{Externals} (config : RelayConfig) (time wsSend : nat → Z) (dropAck : nat → bool).

Abbreviation now_ := (date_now time).
Abbreviation sendJson := (sendJson wsSend).
Abbreviation sendError := (sendError wsSend).
Abbreviation sendErrorAndClose := (sendErrorAndClose wsSend).
Abbreviation busRefuse := (busRefuse wsSend).
Abbreviation busReceipt := (busReceipt wsSend).
Abbreviation busDeliver := (busDeliver time wsSend).

Definition expectedIssuer : string := deviceTokenIssuer (issuerBaseUrl config).

Definition verifyHelloSig (publicKeyBase64 sigBody sigBase64 : string) : bool :=
  let pubRaw := base64_decode publicKeyBase64 in
  if strlen pubRaw =? 32 then edVerify pubRaw sigBody (base64_decode sigBase64) ?| false else false.

Definition sig_fields (host : string) (hello : HelloMessage) : HelloSigFields :=
  {| relayHost := host; RelayAuth.deviceType := hello.(h_deviceType);
     RelayAuth.deviceId := hello.(h_deviceId); RelayAuth.publicKey := hello.(h_publicKey);
     RelayAuth.epoch := Z.to_N hello.(h_epoch); licenseToken := hello.(h_licenseToken);
     ts := hello.(h_ts); nonce := hello.(h_nonce) |}.

(** The text after the ± sign is the configured skew. *)
Definition clock_skew_text (hello_ts : string) : string :=
  "clock skew: hello ts " +:+ (hello_ts +:+ (" outside " +:+ (String (Ascii.ascii_of_N 177)
    (decimal (Z.to_N config.(clockSkewMs)) +:+ "ms of server time")))).

Definition host_of (ws : string) (s : Server) : string :=
  match s.(sockets) !! ws with Some sock => sock.(wsRelayHost) | None => EmptyString end.
Definition phase_of (ws : string) (s : Server) : option Phase := phase <$> s.(sockets) !! ws.

(** *** handleHello, up to the license gate *)
Definition hello_begin (ws raw : string) : M unit :=
  match json_parse raw with
  | None => sendErrorAndClose ws PROTOCOL_VIOLATION "First frame must be a hello" false 1008 None
  | Some parsed =>
  match HelloMessage_parse is_datetime parsed with
  | None => sendErrorAndClose ws PROTOCOL_VIOLATION "First frame must be a valid v3 hello" false 1008 None
  | Some hello =>
  let! now := now_ in
  match date_parse hello.(h_ts) with
  | None => sendErrorAndClose ws AUTH_FAILED (clock_skew_text hello.(h_ts)) true 1008 (Some (toISOString now))
  | Some tsMs =>
  if Z.abs (now - tsMs) >? config.(clockSkewMs)
  then sendErrorAndClose ws AUTH_FAILED (clock_skew_text hello.(h_ts)) true 1008 (Some (toISOString now))
  else
  let! host := gets (host_of ws) in
  if negb (verifyHelloSig hello.(h_publicKey) (buildHelloSigBody sha256 (sig_fields host hello)) hello.(h_sig))
  then sendErrorAndClose ws AUTH_FAILED "hello signature invalid" false 1008 None
  else
  let! seen_at := now_ in
  let! cache := gets replayCache in
  let '(cache', fresh) :=
    checkAndRecord config.(replayTtlMs) DEFAULT_MAX_ENTRIES seen_at hello.(h_deviceId) hello.(h_nonce) cache in
  modify (upd_replayCache (λ _, cache'));;
  if negb fresh
  then sendErrorAndClose ws AUTH_FAILED "hello nonce already seen (replay)" false 1008 None
  else
  modify (upd_pendingHello <[ws := {| p_hello := hello; p_now := now; p_tsMs := tsMs |}]>)
  end end end.

(** *** The awaited gate: the token is verified with the keys fetched then *)
Definition hello_settled (ws : string) (getKeys : string → list JWK + Err) : M unit :=
  let! pend := gets (λ s, s.(pendingHello) !! ws) in
  match pend with
  | None => done_
  | Some p =>
      let! cache := gets licenseCache in
      let verified := verifyDeviceToken kid_of importJWK jwtVerify getKeys
                        p.(p_hello).(h_licenseToken) expectedIssuer in
      let '(cache', result) :=
        match p.(p_hello).(h_deviceType) with
        | agent => gate_verify config.(licenseCacheMaxEntries) verified
                     p.(p_hello).(h_deviceId) p.(p_hello).(h_publicKey) cache
        | app => gate_verifyAppToken config.(licenseCacheMaxEntries) verified cache
        end in
      modify (upd_licenseCache (λ _, cache'));;
      modify (upd_gateResult <[ws := result]>)
  end.

(** *** handleHello, after the gate *)

Definition license_text (c : LicenseCode) : string :=
  "license: " +:+ enum_name all_error_codes (license_error c).

(** Step 6: what becomes of the present holder of the device id. *)
Definition arbitrate (ws : string) (p : PendingHello) : M bool :=
  let! held := gets (λ s, getByDeviceId p.(p_hello).(h_deviceId) s.(connections)) in
  match held with
  | None => ret true
  | Some existing =>
      if negb (bool_decide (p.(p_hello).(h_publicKey) = existing.(Connections.publicKey))) then
        sendErrorAndClose ws AUTH_FAILED
          "identity conflict: a live connection holds this deviceId under a different key" false 1008 None;;
        ret false
      else if (p.(p_tsMs) <? existing.(helloTs)) || bool_decide (p.(p_hello).(h_nonce) = existing.(helloNonce)) then
        sendErrorAndClose ws AUTH_FAILED
          "hello replay: not newer than the frame holding this deviceId" false 1008 None;;
        ret false
      else if p.(p_hello).(h_epoch) >=? existing.(Connections.epoch) then
        modify (upd_connections (Connections.remove existing));;
        modify (upd_liveness (Liveness.remove existing.(connectionId)));;
        sendErrorAndClose existing.(connectionId) SUPERSEDED "replaced by a newer connection" false 1008 None;;
        ret true
      else
        sendErrorAndClose ws SUPERSEDED "a newer connection already holds this deviceId" false 1008 None;;
        ret false
  end.

Definition new_connection (ws : string) (p : PendingHello) (userId : string) (o : positive) : Connection :=
  {| oid := o; connectionId := ws; Connections.deviceId := p.(p_hello).(h_deviceId);
     Connections.deviceType := p.(p_hello).(h_deviceType); Connections.uid := userId;
     Connections.publicKey := p.(p_hello).(h_publicKey); Connections.epoch := p.(p_hello).(h_epoch);
     helloNonce := p.(p_hello).(h_nonce); helloTs := p.(p_tsMs);
     busCapable := bool_decide (p.(p_hello).(h_deviceType) = agent) && p.(p_hello).(h_bus);
     Connections.connectedAt := p.(p_now) |}.

(** [connections.insert(conn)] and what follows it up to the welcome. *)
Definition admit_connection (ws : string) (p : PendingHello) (userId : string) : M Connection :=
  let! o := gets nextOid in
  let conn := new_connection ws p userId o in
  modify (upd_nextOid Pos.succ);;
  modify (upd_history (λ h, h ++ [conn]));;
  modify (upd_connections (Connections.insert conn p.(p_now)));;
  modify (upd_liveness (Liveness.add ws p.(p_now)));;
  modify (upd_sockets (alter (admitted_as p.(p_hello).(h_deviceId)) ws));;
  clearHelloTimer ws;;
  ret conn.

Definition greet (conn : Connection) (p : PendingHello) : M unit :=
  let ws := conn.(connectionId) in
  sendJson ws (Welcome p.(p_hello).(h_deviceId) p.(p_hello).(h_epoch) (toISOString p.(p_now))
                 (bool_decide (conn.(Connections.deviceType) = agent)));;
  (if bool_decide (conn.(Connections.deviceType) = agent) then fanOutAgentPresence wsSend conn true else done_);;
  let! agents := gets (sameAccountPeers conn agent) in
  for_each agents (λ a, sendJson ws (PeerOnline a.(Connections.deviceId));; done_);;
  if conn.(busCapable) then
    let! refs := pending_for conn in
    iter refs (deliver_within_budget config time wsSend conn)
  else done_.

Definition hello_resume (ws : string) : M unit :=
  let! pend := gets (λ s, s.(pendingHello) !! ws) in
  let! result := gets (λ s, s.(gateResult) !! ws) in
  match pend, result with
  | Some p, Some res =>
      modify (upd_gateResult (base.delete ws));;
      modify (upd_pendingHello (base.delete ws));;
      match res with
      | inr code =>
          sendErrorAndClose ws (license_error code) (license_text code)
            (bool_decide (code = UNAVAILABLE)) 1008 None
      | inl entry =>
          let! ph := gets (phase_of ws) in
          let! op := gets (is_open ws) in
          if negb (bool_decide (ph = Some authenticating)) || negb op then done_
          else
            let! go := arbitrate ws p in
            if go then
              let! conn := admit_connection ws p entry.(e_userId) in
              greet conn p
            else done_
      end
  | _, _ => done_
  end.

(** *** Control messages *)

Definition bus_send (conn : Connection) (ws : string) (msg : BusSendMessage) : M unit :=
  if negb (bool_decide (conn.(Connections.deviceType) = agent)) then
    busRefuse ws msg.(bs_id) msg.(bs_to) not_agent false
  else
  let n := strlen msg.(bs_blob).(epk) + strlen msg.(bs_blob).(box) in
  let! ok := busBytes_allow config time ("bus:" +:+ conn.(Connections.deviceId)) n in
  if negb ok then busRefuse ws msg.(bs_id) msg.(bs_to) rate_limited true
  else if bool_decide (msg.(bs_to) = conn.(Connections.deviceId)) then
    busRefuse ws msg.(bs_id) msg.(bs_to) self false
  else
  let! live := gets (busPeer conn.(Connections.uid) msg.(bs_to)) in
  if match live with Some l => negb l.(busCapable) | None => false end then
    busRefuse ws msg.(bs_id) msg.(bs_to) recipient_outdated true
  else
  let! now := now_ in
  let! q := gets busQueue in
  let '(q', result) :=
    enqueue config.(busLimits) q now
      {| in_uid := conn.(Connections.uid); in_from := conn.(Connections.deviceId); in_to := msg.(bs_to);
         in_id := msg.(bs_id); in_blob := msg.(bs_blob); in_ttlMs := msg.(bs_ttlMs) |} in
  modify (upd_busQueue (λ _, q'));;
  match result with
  | RecipientFull | SenderFull | GlobalFull => busRefuse ws msg.(bs_id) msg.(bs_to) queue_full true
  | Duplicate r =>
      let! t := now_ in
      let! found := gets (λ s, s.(busQueue).(heap) !! r) in
      match found with
      | None => done_
      | Some entry =>
          let! sent :=
            (match live with
             | Some l =>
                 if redeliverable entry l.(connectionId) t then
                   let! ok := busRedeliverAllowed config time msg.(bs_to) entry.(bytes) in
                   if ok then busDeliver r l else ret false
                 else ret false
             | None => ret false
             end) in
          if sent then done_
          else
            let! entry' := gets (λ s, s.(busQueue).(heap) !! r ?| entry) in
            busReceipt ws entry'
              (if decide (is_Some entry'.(deliveredConn)) then delivered_to_socket else queued)
      end
  | Queued r =>
      let! sent := (match live with Some l => busDeliver r l | None => ret false end) in
      if sent then done_
      else
        let! found := gets (λ s, s.(busQueue).(heap) !! r) in
        match found with Some entry => busReceipt ws entry queued | None => done_ end
  end.

Definition bus_ack (conn : Connection) (msg : BusAckMessage) : M unit :=
  if negb (bool_decide (conn.(Connections.deviceType) = agent)) || negb conn.(busCapable) then done_
  else
  let! n := gets reads in
  modify (upd_reads S);;
  if dropAck n then done_
  else
  let! q := gets busQueue in
  let '(q', acked) := ack q conn.(Connections.uid) conn.(Connections.deviceId) msg.(ba_id) in
  modify (upd_busQueue (λ _, q'));;
  match acked with
  | None => done_
  | Some entry =>
      let! sender := gets (busPeer entry.(BusQueue.uid) entry.(from)) in
      match sender with
      | None => done_
      | Some sdr =>
          sendJson sdr.(connectionId)
            (BusAcked entry.(BusQueue.id) conn.(Connections.deviceId) msg.(ba_outcome) msg.(ba_code) msg.(ba_sig));;
          done_
      end
  end.

Definition bus_drain (conn : Connection) : M unit :=
  let! t := now_ in
  let! last := gets (λ s, get conn.(connectionId) s.(lastDrainAt)) in
  if match last with Some l => t - l <? BUS_DRAIN_MIN_INTERVAL_MS | None => false end then done_
  else
  modify (upd_lastDrainAt (set conn.(connectionId) t));;
  if negb (bool_decide (conn.(Connections.deviceType) = agent)) || negb conn.(busCapable) then done_
  else
    let! refs := pending_for conn in
    iter refs (deliver_within_budget config time wsSend conn).

Definition push_deliver (conn : Connection) (ws : string) (msg : PushDeliverMessage) : M unit :=
  if negb (bool_decide (conn.(Connections.deviceType) = agent)) then
    sendError ws NOT_AUTHENTICATED "Must be an authenticated agent to deliver push" false None
  else
  let! ok := push_allow config time ("push:" +:+ conn.(Connections.deviceId)) in
  if negb ok then sendError ws MESSAGE_RATE_LIMITED "Push delivery rate limit exceeded" true None
  else
  let configured := match msg.(pd_provider) with apns => config.(hasApnsSender) | fcm => config.(hasFcmSender) end in
  if negb configured then
    sendJson ws (PushResult msg.(pd_pushToken) false (Some "unconfigured"));; done_
  else
    let! n := gets nextPush in
    modify (upd_nextPush S);;
    modify (upd_pushes <[n := (conn.(Connections.deviceId), msg.(pd_pushToken))]>);;
    emit (PushSend msg.(pd_provider) msg.(pd_pushToken) msg.(pd_blob) msg.(pd_collapseKey)).

(** The provider's answer, or its rejection, which is answered as an error. *)
Inductive PushOutcome := push_ok | push_unregistered | push_error.

Definition replyPushResult (n : nat) (r : PushOutcome) : M unit :=
  let! call := gets (λ s, s.(pushes) !! n) in
  match call with
  | None => done_
  | Some (agentDeviceId, pushToken) =>
      modify (upd_pushes (base.delete n));;
      let! live := gets (λ s, getByDeviceId agentDeviceId s.(connections)) in
      match live with
      | None => done_
      | Some c =>
          sendJson c.(connectionId)
            (match r with
             | push_ok => PushResult pushToken true None
             | push_unregistered => PushResult pushToken false (Some "unregistered")
             | push_error => PushResult pushToken false (Some "error")
             end);;
          done_
      end
  end.

Definition dispatch (conn : Connection) (ws : string) (msg : ClientMessage) : M unit :=
  match msg with
  | Hello _ => sendErrorAndClose ws PROTOCOL_VIOLATION "already past hello on this connection" false 1008 None
  | Ping =>
      let! t := now_ in
      modify (upd_liveness (noteApplicationPing conn.(connectionId) t));;
      ws_send wsSend ws Pong;;
      done_
  | BusSend m => bus_send conn ws m
  | BusAck m => bus_ack conn m
  | BusDrain => bus_drain conn
  | PushDeliver m => push_deliver conn ws m
  end.

Definition handleControlMessage (ws raw : string) : M unit :=
  match json_parse raw with
  | None =>
      let! ok := json_allow config time ws in
      if negb ok then sendError ws MESSAGE_RATE_LIMITED "control message rate limit exceeded" true None
      else sendError ws INVALID_MESSAGE "Invalid JSON" false None
  | Some parsed =>
      let! ok := json_allow config time ws in
      if negb ok then sendError ws MESSAGE_RATE_LIMITED "control message rate limit exceeded" true None
      else
      match ClientMessage_parse is_uuid is_datetime parsed with
      | None => sendError ws INVALID_MESSAGE "Invalid message format" false None
      | Some msg =>
          let! conn := gets (λ s, getByConnectionId ws s.(connections)) in
          match conn with
          | None => done_
          | Some c => dispatch c ws msg
          end
      end
  end.

(** *** The socket callbacks and the timers *)

Inductive Frame := Text (raw : string) | Binary.

(** The answer to a request for [/ws]; a reservation of a used id throws. *)
Inductive UpgradeAnswer := Upgraded | Refused (status : Z) | Thrown.

(** [srv.requestIP(req)?.address || "unknown"] *)
Definition peer_ip (address : option string) : string :=
  match address with None | Some EmptyString => "unknown" | Some a => a end.

Definition upgrade (ws : string) (address xff : option string) (host : string) (upgraded : bool)
  : M UpgradeAnswer :=
  let addr := (resolveClientIp (peer_ip address) xff config.(trustedProxyIps)).1 in
  let! adm := gets admissions in
  match reserve config.(maxConnections) config.(rateLimitConnPerIp) adm ws addr with
  | DuplicateReservation => ret Thrown
  | Rejected SocketAdmissions.ip => ret (Refused 429)
  | Rejected SocketAdmissions.global => ret (Refused 503)
  | Reserved adm' =>
      modify (upd_admissions (λ _, adm'));;
      if upgraded then
        modify (upd_sockets <[ws := {| Connections.ip := addr; wsRelayHost := normalizeHostHeader host;
                                       wsDeviceId := None; phase := awaiting_hello; isOpen := true |}]>);;
        ret Upgraded
      else
        modify (upd_admissions (λ a, (release a ws).1));;
        ret (Refused 400)
  end.

Definition ws_open (ws : string) : M unit := modify (upd_helloTimers (λ t, {[ws]} ∪ t)).

Definition hello_timeout (ws : string) : M unit :=
  let! armed := gets (λ s, bool_decide (ws ∈ s.(helloTimers))) in
  let! ph := gets (phase_of ws) in
  if armed && (bool_decide (ph = Some awaiting_hello) || bool_decide (ph = Some authenticating))
  then sendErrorAndClose ws AUTH_FAILED "hello timeout" true 1008 None
  else done_.

Definition ws_message (ws : string) (message : Frame) : M unit :=
  let! ph := gets (phase_of ws) in
  match ph with
  | Some awaiting_hello =>
      match message with
      | Binary => sendErrorAndClose ws PROTOCOL_VIOLATION "First frame must be a hello" false 1008 None
      | Text raw => set_phase ws authenticating;; hello_begin ws raw
      end
  | Some authenticating =>
      sendErrorAndClose ws PROTOCOL_VIOLATION "authentication already in progress" false 1008 None
  | Some ready =>
      match message with
      | Text raw => handleControlMessage ws raw
      | Binary => sendErrorAndClose ws PROTOCOL_VIOLATION
                    "Binary frames are not accepted by the control relay" false 1008 None
      end
  | Some closed | None => done_
  end.

Definition ws_closed (ws : string) : M unit :=
  modify (upd_sockets (alter (λ sock, not_open (with_phase closed sock)) ws));;
  modify (upd_admissions (λ a, (release a ws).1));;
  clearHelloTimer ws;;
  modify (upd_lastDrainAt (delete ws));;
  let! conn := gets (λ s, getByConnectionId ws s.(connections)) in
  match conn with
  | None => done_
  | Some c =>
      modify (upd_connections (Connections.remove c));;
      modify (upd_liveness (Liveness.remove c.(connectionId)));;
      fanOutAgentPresence wsSend c false
  end.

Definition ws_pong (ws : string) : M unit :=
  let! conn := gets (λ s, getByConnectionId ws s.(connections)) in
  match conn with
  | None => done_
  | Some c =>
      let! t := now_ in
      modify (upd_liveness (noteProtocolPong c.(connectionId) t));;
      let! t2 := now_ in
      modify (upd_connections (updateLastSeen c.(Connections.deviceId) t2))
  end.

Definition ping_interval : M unit :=
  let! t := now_ in
  let! all := gets (λ s, getAll s.(connections)) in
  for_each all (λ live,
    let! out := gets (λ s, isTimedOut live.(connectionId) t
                             (config.(pingIntervalMs) + config.(pongTimeoutMs)) s.(liveness)) in
    if out then ws_close live.(connectionId) 1001 "Pong timeout"
    else emit (ProtocolPing live.(connectionId))).

(** [GET /health] and [GET /metrics]: connections and uptime in seconds; with
    the queue's messages and bytes for the metrics. *)
Definition health (startTime : Z) : M (Z * Z) :=
  let! t := now_ in
  gets (λ s, ((t - startTime) / 1000, getConnectionCount s.(connections))).
Definition metrics (startTime : Z) : M (Z * Z * (Z * Z)) :=
  let! t := now_ in
  gets (λ s, ((t - startTime) / 1000, getConnectionCount s.(connections), stats s.(busQueue))).

(** [server.stop()] *)
Definition stop : M unit :=
  modify (upd_busQueue BusQueue.clear);;
  modify (upd_lastDrainAt (λ _, JsMap.empty));;
  modify (upd_busByteLimiter (λ l, {| buckets := JsMap.empty; tLastEvictAt := l.(tLastEvictAt) |}));;
  modify (upd_busRedeliverLimiter (λ l, {| buckets := JsMap.empty; tLastEvictAt := l.(tLastEvictAt) |}));;
  modify (upd_helloTimers (λ _, ∅));;
  modify (upd_connections (λ t, {| byConnectionId := JsMap.empty; byDeviceId := JsMap.empty;
                                   byUid := JsMap.empty; lastSeen := t.(lastSeen) |}));;
  modify (upd_admissions SocketAdmissions.clear);;
  modify (upd_replayCache (λ _, JsMap.empty));;
  modify (upd_pushRateLimiter (λ l, {| windows := JsMap.empty; mLastEvictAt := l.(mLastEvictAt) |}));;
  modify (upd_jsonRateLimiter (λ l, {| buckets := JsMap.empty; tLastEvictAt := l.(tLastEvictAt) |}));;
  modify (upd_licenseCache (λ _, JsMap.empty)).
End handlers.
