(* ===== verification/InternalRoutes.v ===== *)
(** * InternalRoutes: what web asks of the relay

    Models [relay/src/license/internal-routes.ts]: signed requests that revoke
    a device, expire an account, announce a policy change or list connections.
    They work on the server's state through the monad of [ServerState]. *)

From S2P Require Import Prelude JsMap ClientIp SocketAdmissions RateLimiter ReplayCache Liveness.
From S2P Require Import Wire BusQueue RelayAuth License Connections ServerState RelayServer.

Local Open Scope Z_scope.
Local Open Scope js_scope.
Local Open Scope server_scope.

Definition CONNECTIONS_MAX_SKEW_MS : Z := 30000.

(** ** The signed body *)

Definition hex_value (c : Ascii.ascii) : option Z :=
  if is_digit c then Some (code c - 48)
  else if in_range 97 102 c then Some (code c - 87)
  else if in_range 65 70 c then Some (code c - 55) else None.

(** [Buffer.from(s, "hex")]: whole pairs, up to the first that is not hex. *)
Fixpoint hex_bytes (s : string) : list Z :=
  match s with
  | String a (String b s') =>
      match hex_value a, hex_value b with
      | Some x, Some y => (16 * x + y) :: hex_bytes s'
      | _, _ => []
      end
  | _ => []
  end.

(** [/^(0|[1-9][0-9]{0,18})$/] and at most [PEER_MAX_GENERATION]. *)
Definition PEER_MAX_GENERATION : Z := 9223372036854775807.
Definition DecimalGeneration (s : string) : bool :=
  match s with
  | String c s' =>
      ((is_char 48 c && bool_decide (s' = EmptyString)) ||
       (in_range 49 57 c && (strlen s' <=? 18) && string_forallb is_digit s')) &&
      (digits_value 0 s <=? PEER_MAX_GENERATION)
  | EmptyString => false
  end.

Record RevokeBody := { rv_deviceId : string; rv_userId : option string }.
Record ExpireBody := { ex_userId : string }.
Record PeerPolicyBody := { pp_userId : string; pp_generation : string; pp_issuedAt : Z }.
Record ListConnectionsBody := { lc_issuedAt : Z; lc_userId : option string }.

Definition RevokeBody_parse (j : json) : option RevokeBody :=
  (d ← string_field (len_between 1 128) "deviceId" j;
   u ← optional_field (string_that (len_between 1 256)) "userId" j;
   Some {| rv_deviceId := d; rv_userId := u |})%stdpp.

Definition ExpireBody_parse (j : json) : option ExpireBody :=
  (u ← string_field (len_between 1 256) "userId" j; Some {| ex_userId := u |})%stdpp.

(** [z.strictObject]: no other member. *)
Definition only_fields (ks : list string) (j : json) : bool :=
  match j with JObj fs => forallb (λ f, bool_decide (f.1 ∈ ks)) fs | _ => false end.

Definition PeerPolicyBody_parse (j : json) : option PeerPolicyBody :=
  (u ← string_field (len_between 1 256) "userId" j;
   g ← string_field DecimalGeneration "generation" j;
   t ← int_field (- MAX_SAFE) MAX_SAFE "issuedAt" j;
   if only_fields ["userId"; "generation"; "issuedAt"] j
   then Some {| pp_userId := u; pp_generation := g; pp_issuedAt := t |} else None)%stdpp.

Definition ListConnectionsBody_parse (j : json) : option ListConnectionsBody :=
  (t ← int_field (- MAX_SAFE) MAX_SAFE "issuedAt" j;
   u ← optional_field (string_that (len_between 1 256)) "userId" j;
   Some {| lc_issuedAt := t; lc_userId := u |})%stdpp.

Inductive ErrorBody := UNAUTHORIZED | INVALID_JSON | INVALID_BODY | STALE_REQUEST.

(** A response: its error, with its status, or what the route answers. *)
Inductive Response :=
| ErrorResponse (status : Z) (error : ErrorBody)
| OkResponse (ok : bool) (status : Z)
| ConnectionsResponse (connections : list ConnectionSummary).

Section routes.
Context `{Externals} (config : RelayConfig) (time wsSend : nat → Z).

Definition verifyAndParse {T} (signature : option string) (raw : string) (schema : json → option T)
  : T + Response :=
  let sigHex := signature ?| EmptyString in
  let expected := hmac_sha256_hex config.(relayInternalSecret) raw in
  if negb (strlen sigHex =? strlen expected) then inr (ErrorResponse 401 UNAUTHORIZED)
  else if negb (bool_decide (hex_bytes sigHex = hex_bytes expected)) then inr (ErrorResponse 401 UNAUTHORIZED)
  else
    match json_parse raw with
    | None => inr (ErrorResponse 400 INVALID_JSON)
    | Some parsed =>
        match schema parsed with
        | None => inr (ErrorResponse 400 INVALID_BODY)
        | Some data => inl data
        end
    end.

Definition closeWithLicense (conn : Connection) (c : ErrorCode) : M bool :=
  let! op := gets (is_open conn.(connectionId)) in
  if op then
    ws_send wsSend conn.(connectionId) (ErrorMessage c (enum_name all_error_codes c) false None);;
    ws_close conn.(connectionId) 4002 (enum_name all_error_codes c);;
    ret true
  else ret false.

Definition handleRevoke (signature : option string) (raw : string) : M Response :=
  match verifyAndParse signature raw RevokeBody_parse with
  | inr response => ret response
  | inl b =>
      modify (upd_licenseCache (markRevoked b.(rv_deviceId) b.(rv_userId)));;
      modify (upd_busQueue (λ q, purgeDevice q b.(rv_userId) b.(rv_deviceId)));;
      let! conns := gets (λ s,
        filter (λ c, match b.(rv_userId) with None => true | Some u => bool_decide (c.(Connections.uid) = u) end = true)
          (getByAccountDevice b.(rv_deviceId) s.(connections))) in
      for_each conns (λ c, closeWithLicense c LICENSE_REVOKED;; done_);;
      ret (OkResponse true 200)
  end.

Definition handleListConnections (signature : option string) (raw : string) : M Response :=
  match verifyAndParse signature raw ListConnectionsBody_parse with
  | inr response => ret response
  | inl b =>
      let! now := date_now time in
      if Z.abs (now - b.(lc_issuedAt)) >? CONNECTIONS_MAX_SKEW_MS
      then ret (ErrorResponse 401 STALE_REQUEST)
      else
        let! l := gets (λ s, match b.(lc_userId) with
                             | Some u => listConnectionsForUser u s.(connections)
                             | None => listConnections s.(connections) end) in
        ret (ConnectionsResponse l)
  end.

Definition handleExpire (signature : option string) (raw : string) : M Response :=
  match verifyAndParse signature raw ExpireBody_parse with
  | inr response => ret response
  | inl b =>
      modify (upd_licenseCache (λ c, (dropByUser b.(ex_userId) c).1));;
      modify (upd_busQueue (λ q, purgeUser q b.(ex_userId)));;
      let! conns := gets (λ s, getConnectionsForUser b.(ex_userId) s.(connections)) in
      for_each conns (λ c, closeWithLicense c LICENSE_EXPIRED;; done_);;
      ret (OkResponse true 200)
  end.

Fixpoint announce (g : string) (conns : list Connection) (failed : bool) : M bool :=
  match conns with
  | [] => ret failed
  | c :: rest =>
      let! op := gets (is_open c.(connectionId)) in
      if op then
        let! sent := ws_send wsSend c.(connectionId) (PeerPolicyChanged g) in
        announce g rest (failed || (sent =? 0))
      else announce g rest failed
  end.

Definition handlePeerPolicy (signature : option string) (raw : string) : M Response :=
  match verifyAndParse signature raw PeerPolicyBody_parse with
  | inr response => ret response
  | inl b =>
      let! now := date_now time in
      if Z.abs (now - b.(pp_issuedAt)) >? CONNECTIONS_MAX_SKEW_MS
      then ret (ErrorResponse 401 STALE_REQUEST)
      else
        let! conns := gets (λ s, getConnectionsForUser b.(pp_userId) s.(connections)) in
        let! failed := announce b.(pp_generation) conns false in
        ret (OkResponse (negb failed) (if failed then 503 else 200))
  end.
End routes.
