(* ===== verification/RelayFrames.v ===== *)
(** * RelayFrames: what the handlers leave alone

    A handler that admits or removes nobody leaves the roster, the table of
    connections and the history of admissions, as it was.  [keeps] is closed
    under the monad's operations, so each handler's lemma is a walk through its
    code. *)

From S2P Require Import Prelude JsMap ClientIp SocketAdmissions RateLimiter ReplayCache Liveness.
From S2P Require Import Wire BusQueue RelayAuth License Connections ServerState RelayServer InternalRoutes.

Local Open Scope Z_scope.
Local Open Scope server_scope.

Definition roster (s : Server) : Connections * list Connection := (s.(connections), s.(history)).

(** [m] leaves the part [π] of the state as it was. *)
Definition keeps {A B} (π : Server → B) (m : M A) : Prop := ∀ s, π (m s).2 = π s.

(** A part that sending, reading the clock and delivering mail do not touch. *)
Class Quiet {B} (π : Server → B) : Prop := {
  quiet_trace f s : π (upd_trace f s) = π s;
  quiet_reads f s : π (upd_reads f s) = π s;
  quiet_busQueue f s : π (upd_busQueue f s) = π s;
  quiet_redeliver f s : π (upd_busRedeliverLimiter f s) = π s;
}.
#[export] Instance roster_quiet : Quiet roster.
Proof. by constructor. Qed.
#[export] Instance sockets_quiet : Quiet sockets.
Proof. by constructor. Qed.

Lemma keeps_ret {A B} (π : Server → B) (a : A) : keeps π (ret a).
Proof. by intros s. Qed.

Lemma keeps_gets {A B} (π : Server → B) (f : Server → A) : keeps π (gets f).
Proof. by intros s. Qed.

Lemma keeps_modify {B} (π : Server → B) f : (∀ s, π (f s) = π s) → keeps π (modify f).
Proof. intros Hf s. apply Hf. Qed.

Lemma keeps_bind {A A' B} (π : Server → B) (m : M A) (k : A → M A') :
  keeps π m → (∀ a, keeps π (k a)) → keeps π (bind m k).
Proof. intros Hm Hk s. unfold bind. specialize (Hm s). destruct (m s) as [a s1]. simpl in *. by rewrite Hk. Qed.

Lemma keeps_for_each {A B} (π : Server → B) (l : list A) (body : A → M unit) :
  (∀ a, keeps π (body a)) → keeps π (for_each l body).
Proof. intros Hb. induction l as [|a l IH]; [apply keeps_ret|]. by apply keeps_bind. Qed.

Lemma keeps_iter {A B} (π : Server → B) (l : list A) (body : A → M bool) :
  (∀ a, keeps π (body a)) → keeps π (iter l body).
Proof.
  intros Hb. induction l as [|a l IH]; [apply keeps_ret|]. apply keeps_bind; [done|].
  intros [|]; [done|apply keeps_ret].
Qed.

Create HintDb frames discriminated.
#[export] Hint Resolve keeps_ret keeps_gets : frames.

(** One step of the walk; [frames] holds the lemmas of the operations already
    walked through. *)
Ltac keeps_step :=
  first
    [ solve [auto with frames nocore typeclass_instances]
    | apply keeps_bind; [|intros ?]
    | apply keeps_for_each; intros ?
    | apply keeps_iter; intros ?
    | apply keeps_modify; intros ?; first [reflexivity|apply quiet_busQueue]
    | match goal with |- keeps _ (match ?x with _ => _ end) => destruct x end
    | match goal with |- keeps _ (let '_ := ?x in _) => destruct x end
    | intros ?; unfold roster; simpl; repeat case_match; simpl; first [reflexivity|apply quiet_redeliver] ].
Ltac walk := cbv zeta; repeat keeps_step.

(** A handler that may admit only adds to the history. *)
Definition grows {A} (m : M A) : Prop := ∀ s c, c ∈ s.(history) → c ∈ (m s).2.(history).

Lemma keeps_grows {A} (m : M A) : keeps roster m → grows m.
Proof. intros Hm s c. specialize (Hm s). injection Hm as _ ->. done. Qed.

Lemma grows_modify f : (∀ s c, c ∈ s.(history) → c ∈ (f s).(history)) → grows (modify f).
Proof. intros Hf s c. apply Hf. Qed.

Lemma grows_bind {A B} (m : M A) (k : A → M B) : grows m → (∀ a, grows (k a)) → grows (bind m k).
Proof.
  intros Hm Hk s c Hc. unfold bind. specialize (Hm s c Hc). destruct (m s) as [a s1]. simpl in *. by apply Hk.
Qed.

Section frames.
Context `{Externals} (config : RelayConfig) (time wsSend : nat → Z) (dropAck : nat → bool).

Lemma keeps_date_now {B} (π : Server → B) `{!Quiet π} : keeps π (date_now time).
Proof. intros s. apply quiet_reads. Qed.
Hint Resolve keeps_date_now : frames.

Lemma keeps_emit {B} (π : Server → B) `{!Quiet π} e : keeps π (emit e).
Proof. intros s. apply quiet_trace. Qed.
Hint Resolve keeps_emit : frames.

Lemma keeps_ws_send {B} (π : Server → B) `{!Quiet π} ws m : keeps π (ws_send wsSend ws m).
Proof. intros s. apply quiet_trace. Qed.
Hint Resolve keeps_ws_send : frames.

Lemma keeps_sendJson {B} (π : Server → B) `{!Quiet π} ws m : keeps π (sendJson wsSend ws m).
Proof. unfold sendJson. walk. Qed.
Hint Resolve keeps_sendJson : frames.

Lemma keeps_sendError {B} (π : Server → B) `{!Quiet π} ws c t r st : keeps π (sendError wsSend ws c t r st).
Proof. unfold sendError. walk. Qed.
Hint Resolve keeps_sendError : frames.

Lemma keeps_ws_close ws c r : keeps roster (ws_close ws c r).
Proof. unfold ws_close. walk. Qed.
Hint Resolve keeps_ws_close : frames.

Lemma keeps_sendErrorAndClose ws c t r cc st : keeps roster (sendErrorAndClose wsSend ws c t r cc st).
Proof. unfold sendErrorAndClose, set_phase. walk. Qed.
Hint Resolve keeps_sendErrorAndClose : frames.

Lemma keeps_push_allow k : keeps roster (push_allow config time k).
Proof. unfold push_allow. walk. Qed.
Lemma keeps_json_allow k : keeps roster (json_allow config time k).
Proof. unfold json_allow. walk. Qed.
Lemma keeps_busBytes_allow k b : keeps roster (busBytes_allow config time k b).
Proof. unfold busBytes_allow. walk. Qed.
Lemma keeps_busRedeliverAllowed {B} (π : Server → B) `{!Quiet π} d b : keeps π (busRedeliverAllowed config time d b).
Proof. unfold busRedeliverAllowed. walk. Qed.
Hint Resolve keeps_push_allow keeps_json_allow keeps_busBytes_allow keeps_busRedeliverAllowed : frames.

Lemma keeps_busRefuse {B} (π : Server → B) `{!Quiet π} ws i t r b : keeps π (busRefuse wsSend ws i t r b).
Proof. unfold busRefuse. walk. Qed.
Lemma keeps_busReceipt {B} (π : Server → B) `{!Quiet π} ws e st : keeps π (busReceipt wsSend ws e st).
Proof. unfold busReceipt. walk. Qed.
Hint Resolve keeps_busRefuse keeps_busReceipt : frames.

Lemma keeps_fanOut {B} (π : Server → B) `{!Quiet π} c b : keeps π (fanOutAgentPresence wsSend c b).
Proof. unfold fanOutAgentPresence. walk. Qed.
Lemma keeps_busDeliver {B} (π : Server → B) `{!Quiet π} r c : keeps π (busDeliver time wsSend r c).
Proof. unfold busDeliver. walk. Qed.
Hint Resolve keeps_fanOut keeps_busDeliver : frames.

Lemma keeps_deliver_within_budget {B} (π : Server → B) `{!Quiet π} c r : keeps π (deliver_within_budget config time wsSend c r).
Proof. unfold deliver_within_budget. walk. Qed.
Hint Resolve keeps_deliver_within_budget : frames.

Lemma keeps_sweepBus : keeps roster (sweepBus config time wsSend).
Proof. unfold sweepBus, redeliver_one, pending_for. walk. Qed.

(** *** The handlers *)

Lemma keeps_hello_begin ws raw : keeps roster (hello_begin config time wsSend ws raw).
Proof. unfold hello_begin. walk. Qed.
Hint Resolve keeps_hello_begin : frames.

Lemma keeps_hello_settled ws getKeys : keeps roster (hello_settled config ws getKeys).
Proof. unfold hello_settled. walk. Qed.

Lemma keeps_greet {B} (π : Server → B) `{!Quiet π} c p : keeps π (greet config time wsSend c p).
Proof. unfold greet, pending_for. walk. Qed.

Hint Resolve keeps_greet : frames.

Lemma keeps_bus_send c ws m : keeps roster (bus_send config time wsSend c ws m).
Proof. unfold bus_send. walk. Qed.
Lemma keeps_bus_ack c m : keeps roster (bus_ack wsSend dropAck c m).
Proof. unfold bus_ack. walk. Qed.
Lemma keeps_bus_drain c : keeps roster (bus_drain config time wsSend c).
Proof. unfold bus_drain, pending_for. walk. Qed.
Lemma keeps_push_deliver c ws m : keeps roster (push_deliver config time wsSend c ws m).
Proof. unfold push_deliver. walk. Qed.
Hint Resolve keeps_bus_send keeps_bus_ack keeps_bus_drain keeps_push_deliver : frames.

Lemma keeps_handleControlMessage ws raw : keeps roster (handleControlMessage config time wsSend dropAck ws raw).
Proof. unfold handleControlMessage, dispatch. walk. Qed.
Hint Resolve keeps_handleControlMessage : frames.

Lemma keeps_ws_message ws f : keeps roster (ws_message config time wsSend dropAck ws f).
Proof. unfold ws_message, set_phase. walk. Qed.

Lemma keeps_upgrade ws a x h u : keeps roster (upgrade config ws a x h u).
Proof. unfold upgrade. walk. Qed.
Lemma keeps_hello_timeout ws : keeps roster (hello_timeout wsSend ws).
Proof. unfold hello_timeout. walk. Qed.
Lemma keeps_ping_interval : keeps roster (ping_interval config time).
Proof. unfold ping_interval. walk. Qed.
Lemma keeps_replyPushResult n r : keeps roster (replyPushResult wsSend n r).
Proof. unfold replyPushResult. walk. Qed.

Lemma keeps_closeWithLicense c e : keeps roster (closeWithLicense wsSend c e).
Proof. unfold closeWithLicense. walk. Qed.
Hint Resolve keeps_closeWithLicense : frames.

Lemma keeps_announce g l b : keeps roster (announce wsSend g l b).
Proof. revert b. induction l as [|c l IH]; intros b; simpl; walk. Qed.
Hint Resolve keeps_announce : frames.

Lemma keeps_handleRevoke sig raw : keeps roster (handleRevoke config wsSend sig raw).
Proof. unfold handleRevoke. walk. Qed.
Lemma keeps_handleExpire sig raw : keeps roster (handleExpire config wsSend sig raw).
Proof. unfold handleExpire. walk. Qed.
Lemma keeps_handlePeerPolicy sig raw : keeps roster (handlePeerPolicy config time wsSend sig raw).
Proof. unfold handlePeerPolicy. walk. Qed.
Lemma keeps_handleListConnections sig raw : keeps roster (handleListConnections config time sig raw).
Proof. unfold handleListConnections. walk. Qed.

(** *** Admission and departure *)

Ltac grow := cbv zeta;
  repeat first
    [ solve [apply keeps_grows; keeps_step]
    | apply grows_bind; [|intros ?]
    | apply grows_modify; intros ? ? ?; simpl; first [assumption|apply elem_of_app; by left]
    | match goal with |- grows (match ?x with _ => _ end) => destruct x end ].

Lemma grows_hello_resume ws : grows (hello_resume config time wsSend ws).
Proof. unfold hello_resume, arbitrate, admit_connection, clearHelloTimer. grow. Qed.
Lemma grows_ws_closed ws : grows (ws_closed wsSend ws).
Proof. unfold ws_closed, clearHelloTimer. grow. Qed.
Lemma grows_ws_pong ws : grows (ws_pong time ws).
Proof. unfold ws_pong. grow. Qed.
End frames.
