(* ===== verification/RelayInvariant.v ===== *)
(** * RelayInvariant: what holds in every state of the relay

    The invariant of the whole server, the program logic that carries it
    through the handlers, and its preservation by each of them.  A triple
    [hoare P m Q] runs [m] from a state with the invariant and [P]; afterwards
    the invariant and [Q] hold, and no queue entry has lost its address. *)

From S2P Require Import Prelude JsMap ClientIp SocketAdmissions RateLimiter ReplayCache Liveness.
From S2P Require Import Wire BusQueue RelayAuth License Connections ServerState RelayServer.

Local Open Scope Z_scope.
Local Open Scope server_scope.

Section invariant.
Context `{Externals} (config : RelayConfig).
(** The connections that the run admits, now or later. *)
Context (ident : Connection → Prop).

(** ** Who a connection is *)

Definition well_formed (hello : HelloMessage) : Prop :=
  ∃ j, HelloMessage_parse is_datetime j = Some hello.

Definition signed (host : string) (hello : HelloMessage) : Prop :=
  verifyHelloSig hello.(h_publicKey) (buildHelloSigBody sha256 (sig_fields host hello)) hello.(h_sig) = true.

(** The token verified, for some answer of the key server, with account [u];
    an agent's token is bound to its device id and public key. *)
Definition licensed (hello : HelloMessage) (u : string) : Prop :=
  ∃ getKeys claims,
    verifyDeviceToken kid_of importJWK jwtVerify getKeys hello.(h_licenseToken) (expectedIssuer config) = inl claims ∧
    claims.(License.uid) = u ∧
    (hello.(h_deviceType) = agent →
       claims.(deviceUuid) = hello.(h_deviceId) ∧ claims.(pk) = hello.(h_publicKey)).

(** The holder of [c]'s key signed a hello for the relay named [host], with
    [c]'s device, role and key, and a token for [c]'s account. *)
Definition authenticated_for (host : string) (c : Connection) : Prop :=
  ∃ hello, well_formed hello ∧ signed host hello ∧ licensed hello c.(Connections.uid) ∧
    c.(Connections.deviceId) = hello.(h_deviceId) ∧ c.(Connections.deviceType) = hello.(h_deviceType) ∧
    c.(Connections.publicKey) = hello.(h_publicKey) ∧
    c.(busCapable) = bool_decide (hello.(h_deviceType) = agent) && hello.(h_bus).

Definition Authenticated (c : Connection) : Prop := ident c ∧ ∃ host, authenticated_for host c.

Definition is_agent (c : Connection) : Prop := Authenticated c ∧ c.(Connections.deviceType) = agent.

(** A queue entry: sent by an authenticated agent of the entry's account. *)
Definition EntryOk (e : BusEntry) : Prop :=
  lacks NUL e.(to) = true ∧ lacks NUL e.(BusQueue.id) = true ∧
  ∃ sender, is_agent sender ∧ sender.(Connections.uid) = e.(BusQueue.uid) ∧
            sender.(Connections.deviceId) = e.(from).

(** What may be sent to whom: mail and its verdicts, and presence, never leave
    the account, and never come from or reach anything but the authenticated
    parties they name. *)
Definition EffectOk (e : Effect) : Prop :=
  match e with
  | Send ws (BusDeliver i f b) =>
      ∃ recipient entry, is_agent recipient ∧ recipient.(busCapable) = true ∧
        recipient.(connectionId) = ws ∧ EntryOk entry ∧
        entry.(BusQueue.uid) = recipient.(Connections.uid) ∧ entry.(to) = recipient.(Connections.deviceId) ∧
        entry.(BusQueue.id) = i ∧ entry.(from) = f ∧ entry.(blob) = b
  | Send ws (BusAcked i t _ _ _) =>
      ∃ sender acker, is_agent sender ∧ is_agent acker ∧ acker.(busCapable) = true ∧
        sender.(connectionId) = ws ∧ acker.(Connections.deviceId) = t ∧
        acker.(Connections.uid) = sender.(Connections.uid)
  | Send ws (PeerOnline d) | Send ws (PeerOffline d) =>
      ∃ receiver peer, Authenticated receiver ∧ is_agent peer ∧ receiver.(connectionId) = ws ∧
        peer.(Connections.deviceId) = d ∧ receiver.(Connections.uid) = peer.(Connections.uid)
  | Send ws (Welcome d _ _ _) =>
      ∃ c, Authenticated c ∧ c.(connectionId) = ws ∧ c.(Connections.deviceId) = d
  | PushSend _ _ _ _ => ∃ c, is_agent c
  | _ => True
  end.

(** ** The invariant *)

Definition conn_ok (s : Server) (c : Connection) : Prop :=
  Authenticated c ∧ (c.(oid) < s.(nextOid))%positive ∧
  ∃ sock, s.(sockets) !! c.(connectionId) = Some sock ∧ (sock.(phase) = ready ∨ sock.(phase) = closed) ∧
          sock.(wsDeviceId) = Some c.(Connections.deviceId) ∧ authenticated_for sock.(wsRelayHost) c.

Record Inv (s : Server) : Prop := {
  inv_conns : ∃ live, Connections.Rep s.(connections) live ∧ ∀ c, c ∈ live → conn_ok s c;
  inv_pending : ∀ ws p, s.(pendingHello) !! ws = Some p →
    well_formed p.(p_hello) ∧
    ∃ sock, s.(sockets) !! ws = Some sock ∧ sock.(phase) ≠ awaiting_hello ∧
            signed sock.(wsRelayHost) p.(p_hello);
  inv_gate : ∀ ws res, s.(gateResult) !! ws = Some res →
    ∃ p, s.(pendingHello) !! ws = Some p ∧
         ∀ e, res = inl e → licensed p.(p_hello) e.(e_userId);
  inv_capped : Capped config.(maxConnections) config.(rateLimitConnPerIp) s.(admissions);
  inv_open : ∀ ws sock, s.(sockets) !! ws = Some sock → sock.(isOpen) = true →
    get ws s.(admissions).(reservations) = Some sock.(Connections.ip);
  inv_queue : ∃ items, BusQueue.Rep s.(busQueue) items;
  inv_heap : ∀ r e, s.(busQueue).(heap) !! r = Some e → EntryOk e;
  inv_trace : Forall EffectOk s.(trace);
  inv_history : NoDup (connectionId <$> s.(history)) ∧
    ∀ c, c ∈ s.(history) → Authenticated c ∧
      ∃ sock, s.(sockets) !! c.(connectionId) = Some sock ∧ (sock.(phase) = ready ∨ sock.(phase) = closed);
}.

(** Entries keep their address and contents. *)
Definition same_mail (e e' : BusEntry) : Prop :=
  e'.(BusQueue.uid) = e.(BusQueue.uid) ∧ e'.(from) = e.(from) ∧ e'.(to) = e.(to) ∧
  e'.(BusQueue.id) = e.(BusQueue.id) ∧ e'.(blob) = e.(blob) ∧ e'.(bytes) = e.(bytes).

Definition heap_le (s s' : Server) : Prop :=
  ∀ r e, s.(busQueue).(heap) !! r = Some e →
    ∃ e', s'.(busQueue).(heap) !! r = Some e' ∧ same_mail e e'.

Lemma heap_le_same s s' : s.(busQueue).(heap) = s'.(busQueue).(heap) → heap_le s s'.
Proof. intros Heq r e He. exists e. rewrite <-Heq. done. Qed.

Lemma heap_le_trans s1 s2 s3 : heap_le s1 s2 → heap_le s2 s3 → heap_le s1 s3.
Proof.
  intros H1 H2 r e (e1 & He1 & Hs1)%H1. apply H2 in He1 as (e2 & He2 & Hs2).
  exists e2. split; [done|]. unfold same_mail in *. naive_solver congruence.
Qed.

(** The entry [r] is mail for [c]. *)
Definition owned (c : Connection) (r : ref) (s : Server) : Prop :=
  ∃ e, s.(busQueue).(heap) !! r = Some e ∧ e.(BusQueue.uid) = c.(Connections.uid) ∧
       e.(to) = c.(Connections.deviceId).

Lemma owned_le c r s s' : heap_le s s' → owned c r s → owned c r s'.
Proof.
  intros Hle (e & He & Hu & Ht). apply Hle in He as (e' & He' & H1 & _ & H2 & _).
  exists e'. split_and!; [done|congruence..].
Qed.

(** ** The logic *)

Definition hoare {A} (P : Server → Prop) (m : M A) (Q : A → Server → Prop) : Prop :=
  ∀ s, Inv s → P s → Inv (m s).2 ∧ heap_le s (m s).2 ∧ Q (m s).1 (m s).2.

(** Safe in any state, with a result that satisfies [φ]. *)
Definition safe {A} (m : M A) (φ : A → Prop) : Prop := hoare (λ _, True) m (λ a _, φ a).

Lemma hoare_weaken {A} (P P' : Server → Prop) (m : M A) (Q Q' : A → Server → Prop) :
  hoare P' m Q' → (∀ s, P s → P' s) → (∀ a s, Q' a s → Q a s) → hoare P m Q.
Proof. intros Hm HP HQ s HI Hs. destruct (Hm s HI (HP s Hs)) as (?&?&?). eauto. Qed.

Lemma hoare_bind {A B} (m : M A) (k : A → M B) P Q R :
  hoare P m Q → (∀ a, hoare (Q a) (k a) R) → hoare P (bind m k) R.
Proof.
  intros Hm Hk s HI HP. destruct (Hm s HI HP) as (HI1 & Hle1 & HQ). unfold bind.
  destruct (m s) as [a s1]. destruct (Hk a s1 HI1 HQ) as (HI2 & Hle2 & HR).
  split_and!; [done|by eapply heap_le_trans|done].
Qed.

(** What is known of the state a whole run ends in is known of its rest. *)
Lemma hoare_bind_future {A B} (m : M A) (k : A → M B) P Q R (F : Server → Prop) :
  hoare P m Q → (∀ a, hoare (λ s, Q a s ∧ F (k a s).2) (k a) R) →
  hoare (λ s, P s ∧ F (bind m k s).2) (bind m k) R.
Proof.
  intros Hm Hk s HI [HP HF]. destruct (Hm s HI HP) as (HI1 & Hle1 & HQ). unfold bind in *.
  destruct (m s) as [a s1]. destruct (Hk a s1 HI1 (conj HQ HF)) as (HI2 & Hle2 & HR).
  split_and!; [done|by eapply heap_le_trans|done].
Qed.

Lemma hoare_ret {A} (a : A) (P : Server → Prop) (Q : A → Server → Prop) :
  (∀ s, P s → Q a s) → hoare P (ret a) Q.
Proof. intros HPQ s HI HP. split_and!; [done|by apply heap_le_same|by apply HPQ]. Qed.

Lemma hoare_gets {A} (f : Server → A) (P : Server → Prop) (Q : A → Server → Prop) :
  (∀ s, Inv s → P s → Q (f s) s) → hoare P (gets f) Q.
Proof. intros HPQ s HI HP. split_and!; [done|by apply heap_le_same|by apply HPQ]. Qed.

Lemma hoare_modify (f : Server → Server) (P : Server → Prop) (Q : unit → Server → Prop) :
  (∀ s, Inv s → P s → Inv (f s) ∧ heap_le s (f s) ∧ Q () (f s)) → hoare P (modify f) Q.
Proof. intros Hf s HI HP. by apply Hf. Qed.

(** A predicate that survives changes which keep every entry's address. *)
Definition Stable (F : Server → Prop) : Prop := ∀ s s', heap_le s s' → F s → F s'.

Lemma hoare_frame {A} (m : M A) P Q F :
  Stable F → hoare P m Q → hoare (λ s, P s ∧ F s) m (λ a s, Q a s ∧ F s).
Proof. intros HF Hm s HI [HP Hf]. destruct (Hm s HI HP) as (?&?&?). eauto 6. Qed.

Lemma safe_bind {A B} (m : M A) (k : A → M B) φ ψ :
  safe m φ → (∀ a, φ a → safe (k a) ψ) → safe (bind m k) ψ.
Proof.
  intros Hm Hk s HI _. destruct (Hm s HI I) as (HI1 & Hle1 & Hφ). unfold bind.
  destruct (m s) as [a s1]. destruct (Hk a Hφ s1 HI1 I) as (HI2 & Hle2 & HR).
  split_and!; [done|by eapply heap_le_trans|done].
Qed.

Lemma safe_ret {A} (a : A) (φ : A → Prop) : φ a → safe (ret a) φ.
Proof. intros. by apply hoare_ret. Qed.

Lemma safe_gets {A} (f : Server → A) (φ : A → Prop) : (∀ s, Inv s → φ (f s)) → safe (gets f) φ.
Proof. intros Hf. apply hoare_gets. auto. Qed.

Lemma safe_weaken {A} (m : M A) (φ ψ : A → Prop) : safe m φ → (∀ a, φ a → ψ a) → safe m ψ.
Proof. intros Hm Hi. eapply hoare_weaken; [exact Hm|done|auto]. Qed.

Lemma safe_hoare {A} (m : M A) (P : Server → Prop) (φ : A → Prop) : safe m φ → hoare P m (λ a _, φ a).
Proof. intros Hm. eapply hoare_weaken; [exact Hm|done|done]. Qed.

Lemma safe_for_each {A} (l : list A) (body : A → M unit) :
  (∀ a, a ∈ l → safe (body a) (λ _, True)) → safe (for_each l body) (λ _, True).
Proof.
  induction l as [|a l IH]; intros Hb; simpl; [by apply safe_ret|].
  eapply safe_bind; [apply Hb; by left|]. intros _ _. apply IH. intros b Hin. apply Hb. by right.
Qed.

Lemma hoare_iter {A} (l : list A) (body : A → M bool) (F : A → Server → Prop) :
  (∀ a, Stable (F a)) → (∀ a, hoare (F a) (body a) (λ _ _, True)) →
  hoare (λ s, ∀ a, a ∈ l → F a s) (iter l body) (λ _ _, True).
Proof.
  intros HF Hb. induction l as [|a l IH]; simpl; [by apply hoare_ret|].
  eapply hoare_bind with (Q := λ _ s, ∀ b, b ∈ l → F b s).
  - eapply hoare_weaken.
    + apply (hoare_frame (body a) (F a) (λ _ _, True) (λ s, ∀ b, b ∈ l → F b s)); [|apply Hb].
      intros s s' Hle Hs b Hin. by eapply HF, Hs.
    + intros s Hs. split; [apply Hs; by left|]. intros b Hin. apply Hs. by right.
    + by intros _ s [_ ?].
  - intros [|]; [exact IH|by apply hoare_ret].
Qed.

(** *** Changes outside what the invariant reads *)

Definition core (s : Server) :=
  (s.(sockets), s.(connections), s.(nextOid), s.(admissions), s.(busQueue),
   s.(pendingHello), s.(gateResult), s.(history)).

Lemma inv_same_core s s' : core s = core s' → Forall EffectOk s'.(trace) → Inv s → Inv s'.
Proof.
  unfold core. intros Heq Ht [(live & H1 & H1') H2 H3 H4 H5 H6 H7 _ H9].
  injection Heq as E1 E2 E3 E4 E5 E6 E7 E8.
  split; rewrite <-?E1, <-?E2, <-?E3, <-?E4, <-?E5, <-?E6, <-?E7, <-?E8; try done.
  exists live. split; [done|]. intros c Hc. destruct (H1' c Hc) as (A1 & A2 & A3).
  unfold conn_ok. rewrite <-E1, <-E3. done.
Qed.

Lemma hoare_same_core {A} (m : M A) (P : Server → Prop) :
  (∀ s, core (m s).2 = core s ∧ (Inv s → Forall EffectOk (m s).2.(trace))) →
  (∀ s s', core s = core s' → P s → P s') → hoare P m (λ _, P).
Proof.
  intros Hm HP s HI Hs. destruct (Hm s) as [Hc Ht]. split_and!.
  - eapply inv_same_core; [by symmetry|by apply Ht|done].
  - apply heap_le_same. by injection Hc as _ _ _ _ -> _ _ _.
  - by eapply HP.
Qed.
End invariant.
