(* ===== verification/RelayPreserves.v ===== *)
(** * RelayPreserves: every handler keeps the relay's invariant

    One lemma per handler of [RelayServer], by the logic of [RelayInvariant];
    the events of the relay and the states it reaches. *)

From S2P Require Import Prelude JsMap ClientIp SocketAdmissions RateLimiter ReplayCache Liveness.
From S2P Require Import Wire BusQueue RelayAuth License Connections ServerState RelayServer.
From S2P Require Import RelayInvariant.

Local Open Scope Z_scope.
Local Open Scope server_scope.

Section preserves.
Context `{Externals} (config : RelayConfig) (ident : Connection → Prop) (time wsSend : nat → Z) (dropAck : nat → bool).
(** A UUID has no NUL. *)
Context (uuid_nul : ∀ s, is_uuid s = true → lacks BusQueue.NUL s = true).

Abbreviation Inv := (RelayInvariant.Inv config ident).
Abbreviation hoare := (RelayInvariant.hoare config ident).
Abbreviation safe := (RelayInvariant.safe config ident).
Abbreviation Authenticated := (RelayInvariant.Authenticated config ident).
Abbreviation is_agent := (RelayInvariant.is_agent config ident).
Abbreviation EntryOk := (RelayInvariant.EntryOk config ident).
Abbreviation EffectOk := (RelayInvariant.EffectOk config ident).

(** *** Sends and sockets *)

Lemma hoare_upd_core {P : Server → Prop} (f : Server → Server) :
  (∀ s, core (f s) = core s) → (∀ s, (f s).(trace) = s.(trace)) →
  (∀ s s', core s = core s' → P s → P s') → hoare P (modify f) (λ _, P).
Proof.
  intros Hc Ht HP. apply hoare_same_core; [|done]. intros s. split; [apply Hc|].
  simpl. rewrite Ht. apply inv_trace.
Qed.

Lemma sendJson_core ws m s : core (sendJson wsSend ws m s).2 = core s.
Proof. unfold sendJson, bind, gets. simpl. by destruct (is_open ws s). Qed.

Lemma hoare_sendJson (P : Server → Prop) ws m :
  (∀ s, Inv s → P s → EffectOk (Send ws m)) → (∀ s s', core s = core s' → P s → P s') →
  hoare P (sendJson wsSend ws m) (λ _, P).
Proof.
  intros He HP s HI Hs. specialize (He s HI Hs). revert s HI Hs.
  apply (hoare_same_core config ident (sendJson wsSend ws m)); [|done].
  intros s. split; [apply sendJson_core|]. intros HI.
  unfold sendJson, bind, gets. simpl. destruct (is_open ws s); simpl; [|apply HI].
  apply Forall_app. split; [apply HI|by apply Forall_singleton].
Qed.

Lemma safe_sendJson ws m : EffectOk (Send ws m) → safe (sendJson wsSend ws m) (λ _, True).
Proof. intros He. eapply hoare_weaken; [apply (hoare_sendJson (λ _, True))|done|done]; done. Qed.

(** Changing one socket in a way that only shuts it. *)
Lemma inv_alter_socket (f : Socket → Socket) ws s :
  (∀ k, (f k).(Connections.ip) = k.(Connections.ip) ∧ (f k).(wsRelayHost) = k.(wsRelayHost) ∧
        (f k).(wsDeviceId) = k.(wsDeviceId) ∧
        ((f k).(phase) = k.(phase) ∨ (f k).(phase) = closed) ∧
        ((f k).(isOpen) = true → k.(isOpen) = true)) →
  Inv s → Inv (upd_sockets (alter f ws) s).
Proof.
  intros Hf [(live & H1 & H1') H2 H3 H4 H5 H6 H7 H8 H9].
  assert (∀ w k, alter f ws s.(sockets) !! w = Some k → ∃ k0, s.(sockets) !! w = Some k0 ∧ (k = k0 ∨ k = f k0)) as Hback.
  { intros w k. rewrite lookup_alter. case_decide as Hw; [subst w|by eauto].
    destruct (sockets s !! ws) as [k0|]; simpl; [|done]. intros [= <-]. eauto. }
  assert (∀ w k, s.(sockets) !! w = Some k → ∃ k', alter f ws s.(sockets) !! w = Some k' ∧ (k' = k ∨ k' = f k)) as Hfwd.
  { intros w k Hk. rewrite lookup_alter. case_decide as Hw; [subst w|]; rewrite Hk; simpl; eauto. }
  split; simpl; try done.
  - exists live. split; [done|]. intros c Hc. destruct (H1' c Hc) as (A1 & A2 & k & Hk & Hp & Hd).
    destruct (Hfwd _ _ Hk) as (k' & Hk' & Hor). split_and!; [done..|]. exists k'. split; [done|].
    destruct (Hf k) as (_ & F0 & F1 & F2 & _). destruct Hor as [->| ->]; [done|].
    rewrite F0, F1. split; [|done]. destruct F2 as [->| ->]; [done|by right].
  - intros w p Hp. destruct (H2 w p Hp) as (A1 & k & Hk & Hph & Hsig). split; [done|].
    destruct (Hfwd _ _ Hk) as (k' & Hk' & Hor). exists k'. split; [done|].
    destruct (Hf k) as (_ & F1 & _ & F2 & _). destruct Hor as [->| ->]; [done|].
    rewrite F1. split; [|done]. by destruct F2 as [->| ->].
  - intros w k Hk Ho. destruct (Hback _ _ Hk) as (k0 & Hk0 & Hor).
    destruct (Hf k0) as (F1 & _ & _ & _ & F2). destruct Hor as [->| ->]; [by apply H5|].
    rewrite F1. apply H5; [done|by apply F2].
  - split; [apply H9|]. intros c Hc. destruct (proj2 H9 c Hc) as (Ha & k & Hk & Hp). split; [done|].
    destruct (Hfwd _ _ Hk) as (k' & Hk' & Hor). exists k'. split; [done|].
    destruct (Hf k) as (_ & _ & _ & F2 & _). destruct Hor as [->| ->]; [done|].
    destruct F2 as [->| ->]; [done|by right].
Qed.

Lemma safe_alter_socket (f : Socket → Socket) ws :
  (∀ k, (f k).(Connections.ip) = k.(Connections.ip) ∧ (f k).(wsRelayHost) = k.(wsRelayHost) ∧
        (f k).(wsDeviceId) = k.(wsDeviceId) ∧
        ((f k).(phase) = k.(phase) ∨ (f k).(phase) = closed) ∧
        ((f k).(isOpen) = true → k.(isOpen) = true)) →
  safe (modify (upd_sockets (alter f ws))) (λ _, True).
Proof.
  intros Hf. apply hoare_modify. intros s HI _. split_and!; [by apply inv_alter_socket|by apply heap_le_same|done].
Qed.

Lemma safe_set_closed ws : safe (set_phase ws closed) (λ _, True).
Proof. apply safe_alter_socket. intros k. simpl. tauto. Qed.

Lemma safe_emit e : EffectOk e → safe (emit e) (λ _, True).
Proof.
  intros He. apply hoare_modify. intros s HI _. split_and!; [|by apply heap_le_same|done].
  apply (inv_same_core config ident s); [done| |done]. simpl. apply Forall_app. split; [apply HI|by apply Forall_singleton].
Qed.

Lemma safe_ws_close ws code reason : safe (ws_close ws code reason) (λ _, True).
Proof.
  eapply safe_bind; [apply safe_alter_socket|intros _ _; by apply safe_emit].
  intros k. simpl. split_and!; first [done|by left].
Qed.

Lemma safe_sendError ws code text retry st : safe (sendError wsSend ws code text retry st) (λ _, True).
Proof. eapply safe_bind; [by apply safe_sendJson|]. intros _ _. by apply safe_ret. Qed.

Lemma safe_sendErrorAndClose ws code text retry cc st :
  safe (sendErrorAndClose wsSend ws code text retry cc st) (λ _, True).
Proof.
  eapply safe_bind; [apply safe_sendError|]. intros _ _.
  eapply safe_bind; [apply safe_set_closed|]. intros _ _. apply safe_ws_close.
Qed.

(** *** Operations the invariant does not see *)

Lemma safe_upd_core (f : Server → Server) :
  (∀ s, core (f s) = core s) → (∀ s, (f s).(trace) = s.(trace)) → safe (modify f) (λ _, True).
Proof. intros Hc Ht. by apply (hoare_upd_core (P := λ _, True) f Hc Ht). Qed.

Lemma safe_core {A} (m : M A) :
  (∀ s, core (m s).2 = core s ∧ (m s).2.(trace) = s.(trace)) → safe m (λ _, True).
Proof.
  intros Hm. apply (hoare_same_core config ident m (λ _, True)); [|done]. intros s.
  destruct (Hm s) as [H1 H2]. split; [done|]. rewrite H2. apply inv_trace.
Qed.

Lemma safe_date_now : safe (date_now time) (λ _, True).
Proof. by apply safe_core. Qed.

Lemma safe_json_allow key : safe (json_allow config time key) (λ _, True).
Proof. apply safe_core. intros s. unfold json_allow, bind. simpl. by destruct (bucket_allow _ _ _ _ _ _). Qed.
Lemma safe_push_allow key : safe (push_allow config time key) (λ _, True).
Proof. apply safe_core. intros s. unfold push_allow, bind. simpl. by destruct (window_allow _ _ _ _). Qed.
Lemma safe_busBytes_allow key n : safe (busBytes_allow config time key n) (λ _, True).
Proof. apply safe_core. intros s. unfold busBytes_allow, bind. simpl. by destruct (bucket_allow _ _ _ _ _ _). Qed.
Lemma safe_busRedeliverAllowed d n : safe (busRedeliverAllowed config time d n) (λ _, True).
Proof. apply safe_core. intros s. unfold busRedeliverAllowed, bind. simpl. by destruct (bucket_allow _ _ _ _ _ _). Qed.

(** *** Lookups *)

Lemma safe_getByDeviceId d :
  safe (gets (λ s, getByDeviceId d s.(connections)))
    (λ o, ∀ c, o = Some c → Authenticated c ∧ c.(Connections.deviceId) = d).
Proof.
  apply safe_gets. intros s HI c Hc. destruct (inv_conns _ _ _ HI) as (live & HR & Hok).
  destruct (proj1 (getByDeviceId_iff _ _ HR d c) Hc) as [Hin Hd]. split; [by apply Hok|done].
Qed.

Lemma safe_getByConnectionId ws :
  safe (gets (λ s, getByConnectionId ws s.(connections)))
    (λ o, ∀ c, o = Some c → Authenticated c ∧ c.(connectionId) = ws).
Proof.
  apply safe_gets. intros s HI c Hc. destruct (inv_conns _ _ _ HI) as (live & HR & Hok).
  destruct (proj1 (getByConnectionId_iff _ _ HR ws c) Hc) as [Hin Hd]. split; [by apply Hok|done].
Qed.

Lemma safe_getAll : safe (gets (λ s, getAll s.(connections))) (λ l, ∀ c, c ∈ l → Authenticated c).
Proof.
  apply safe_gets. intros s HI c Hc. destruct (inv_conns _ _ _ HI) as (live & HR & Hok).
  rewrite (getAll_rep _ _ HR) in Hc. by apply Hok.
Qed.

Lemma busPeer_facts s u d c :
  Inv s → busPeer u d s = Some c →
  is_agent c ∧ c.(Connections.uid) = u ∧ c.(Connections.deviceId) = d.
Proof.
  intros HI. unfold busPeer. destruct (getByDeviceId d s.(connections)) as [live|] eqn:Hg; [|done].
  destruct (_ && _) eqn:Hb; [|done]. intros [= ->]. reflect_bools.
  destruct (inv_conns _ _ _ HI) as (L & HR & Hok). destruct (proj1 (getByDeviceId_iff _ _ HR d c) Hg) as [Hin Hd].
  split_and!; [split; [by apply Hok|done]|done..].
Qed.

Lemma safe_busPeer u d :
  safe (gets (busPeer u d))
    (λ o, ∀ c, o = Some c → is_agent c ∧ c.(Connections.uid) = u ∧ c.(Connections.deviceId) = d).
Proof. apply safe_gets. intros s HI c Hc. by eapply busPeer_facts. Qed.

Lemma dedup_peers_sub s d seen l c : c ∈ dedup_peers s d seen l → c ∈ l.
Proof.
  revert seen. induction l as [|p l IH]; intros seen; simpl; [done|].
  destruct (_ || _); [intros Hin; right; by eapply IH|].
  intros [->|Hin]%elem_of_cons; [left|right; by eapply IH].
Qed.

Lemma safe_sameAccountPeers conn dt :
  safe (gets (sameAccountPeers conn dt))
    (λ l, ∀ c, c ∈ l → Authenticated c ∧ c.(Connections.uid) = conn.(Connections.uid) ∧
                       c.(Connections.deviceType) = dt).
Proof.
  apply safe_gets. intros s HI c Hc. apply dedup_peers_sub, list_elem_of_filter in Hc as [Hdt Hc].
  destruct (inv_conns _ _ _ HI) as (live & HR & Hok).
  rewrite (getConnectionsForUser_rep _ _ HR) in Hc. apply list_elem_of_filter in Hc as [Hu Hc].
  split_and!; [by apply Hok|done..].
Qed.

Lemma safe_fanOut conn online :
  Authenticated conn → safe (fanOutAgentPresence wsSend conn online) (λ _, True).
Proof.
  intros Ha. unfold fanOutAgentPresence. case_decide as Hd; [|by apply safe_ret].
  assert (∀ l, (∀ c, c ∈ l → Authenticated c ∧ c.(Connections.uid) = conn.(Connections.uid)) →
    safe (for_each l (λ p, sendJson wsSend (connectionId p) (presence online (Connections.deviceId conn));; done_))
      (λ _, True)) as Hloop.
  { intros l Hl. apply safe_for_each. intros c Hc. destruct (Hl c Hc) as [Hca Hcu].
    eapply safe_bind; [|intros _ _; by apply safe_ret]. apply safe_sendJson.
    unfold presence. destruct online; exists c, conn; done. }
  eapply safe_bind; [apply safe_sameAccountPeers|]. intros apps Happs.
  eapply safe_bind; [apply Hloop; intros c Hc; by destruct (Happs c Hc) as (?&?&?)|]. intros _ _.
  eapply safe_bind; [apply safe_sameAccountPeers|]. intros ags Hags.
  apply Hloop. intros c Hc. by destruct (Hags c Hc) as (?&?&?).
Qed.

(** *** Mail *)

Lemma safe_busReceipt ws e st : safe (busReceipt wsSend ws e st) (λ _, True).
Proof. eapply safe_bind; [by apply safe_sendJson|]. intros _ _. by apply safe_ret. Qed.

Lemma safe_busRefuse ws i t r b : safe (busRefuse wsSend ws i t r b) (λ _, True).
Proof. eapply safe_bind; [by apply safe_sendJson|]. intros _ _. by apply safe_ret. Qed.

Lemma owned_stable c r : Stable (owned c r).
Proof. intros s s' Hle. by apply owned_le. Qed.

(** Replacing the queue by one whose entries are the old ones, or new ones that
    are in order. *)
Lemma inv_upd_queue s q :
  Inv s → (∃ items, BusQueue.Rep q items) → (∀ r e, q.(heap) !! r = Some e → EntryOk e) →
  Inv (upd_busQueue (λ _, q) s).
Proof. intros [H1 H2 H3 H4 H5 H6 H7 H8 H9] Hq Hh. by split. Qed.

Lemma same_mail_ok e e' : same_mail e e' → EntryOk e → EntryOk e'.
Proof.
  intros (H1 & H2 & H3 & H4 & _) (Ht & Hi & sdr & Ha & Hu & Hd). split_and!; [congruence..|].
  exists sdr. split_and!; [done|congruence..].
Qed.

Lemma safe_markDelivered r ws now :
  safe (modify (upd_busQueue (λ q, markDelivered q r ws now))) (λ _, True).
Proof.
  apply hoare_modify. intros s HI _.
  assert (∀ r' e, (markDelivered s.(busQueue) r ws now).(heap) !! r' = Some e →
    ∃ e0, s.(busQueue).(heap) !! r' = Some e0 ∧ same_mail e0 e) as Hback.
  { simpl. intros r' e. rewrite lookup_alter. case_decide as Hr; [subst r'|intros He; exists e; done].
    destruct (heap (busQueue s) !! r) as [e0|]; simpl; [|done]. intros [= <-]. by exists e0. }
  split_and!; [| |done].
  - apply (inv_upd_queue s (markDelivered s.(busQueue) r ws now) HI).
    + destruct (inv_queue _ _ _ HI) as [items HR]. eexists. by apply rep_mark.
    + intros r' e (e0 & He0 & Hs)%Hback. eapply same_mail_ok; [done|by eapply (inv_heap _ _ _ HI)].
  - intros r' e He. simpl. rewrite lookup_alter. case_decide as Hr; [subst r'|by exists e].
    rewrite He. simpl. by eexists.
Qed.

(** Delivering an owned entry to an agent that takes mail. *)
Lemma hoare_busDeliver r recipient :
  is_agent recipient → recipient.(busCapable) = true →
  hoare (owned recipient r) (busDeliver time wsSend r recipient) (λ _ _, True).
Proof.
  intros Ha Hb. unfold busDeliver.
  eapply hoare_bind with (Q := λ found _, ∀ e, found = Some e → EntryOk e ∧
    e.(BusQueue.uid) = recipient.(Connections.uid) ∧ e.(to) = recipient.(Connections.deviceId)).
  { apply hoare_gets. intros s HI (e & He & Hu & Ht) e' He'. rewrite He in He'. simplify_eq.
    split_and!; [by eapply (inv_heap _ _ _ HI)|done..]. }
  intros [entry|]; [|by apply hoare_ret].
  intros s HI Hs. destruct (Hs entry eq_refl) as (Hok & Hu & Ht). revert s HI Hs.
  apply (safe_hoare config ident _ _ (λ _, True)).
  eapply safe_bind with (φ := λ _, True).
  { apply safe_sendJson. exists recipient, entry. by split_and!. }
  intros sent _. destruct (sent =? 0); [by apply safe_ret|].
  eapply safe_bind; [apply safe_date_now|]. intros now _.
  eapply safe_bind; [apply safe_markDelivered|]. intros _ _.
  eapply safe_bind; [apply safe_busPeer|]. intros sdr _.
  eapply safe_bind with (φ := λ _, True); [|intros _ _; by apply safe_ret].
  destruct sdr; [apply safe_busReceipt|by apply safe_ret].
Qed.

Lemma hoare_found {A} P (Q : A → Server → Prop) r (k : option BusEntry → M A) :
  (∀ found, hoare P (k found) Q) → hoare P (let! found := gets (λ s, s.(busQueue).(heap) !! r) in k found) Q.
Proof. intros Hk. eapply hoare_bind; [by apply hoare_gets with (Q := λ _, P)|done]. Qed.

Lemma hoare_keep {A B} P (m : M A) (k : A → M B) Q :
  Stable P → safe m (λ _, True) → (∀ a, hoare P (k a) Q) → hoare P (bind m k) Q.
Proof.
  intros HP Hm Hk. eapply hoare_bind with (Q := λ _, P); [|done].
  intros s HI Hs. destruct (Hm s HI I) as (?&?&_). split_and!; [done..|by eapply HP].
Qed.

Lemma hoare_deliver_within_budget live r :
  is_agent live → live.(busCapable) = true →
  hoare (owned live r) (deliver_within_budget config time wsSend live r) (λ _ _, True).
Proof.
  intros Ha Hb. apply hoare_found. intros [e|]; [|by apply hoare_ret].
  apply hoare_keep; [apply owned_stable|apply safe_busRedeliverAllowed|]. intros [|]; [|by apply hoare_ret].
  eapply hoare_bind; [by apply hoare_busDeliver|]. intros ?. by apply hoare_ret.
Qed.

Lemma hoare_redeliver_one live t r :
  is_agent live → live.(busCapable) = true →
  hoare (owned live r) (redeliver_one config time wsSend live t r) (λ _ _, True).
Proof.
  intros Ha Hb. apply hoare_found. intros [e|]; [|by apply hoare_ret].
  destruct (redeliverable e _ t); [by apply hoare_deliver_within_budget|by apply hoare_ret].
Qed.

(** A key join splits from the right as well. *)
Lemma join_inj_r c s1 s2 t1 t2 :
  lacks c s2 = true → lacks c t2 = true →
  s1 +:+ (sep c +:+ s2) = t1 +:+ (sep c +:+ t2) → s1 = t1 ∧ s2 = t2.
Proof.
  intros Hs2 Ht2. assert (∀ u v, lacks c (u +:+ (sep c +:+ v)) = true → False) as Hno.
  { intros u v. unfold lacks. rewrite !string_forallb_app. simpl.
    rewrite Ascii.eqb_refl. simpl. by rewrite andb_false_r. }
  revert t1. induction s1 as [|x s1 IH]; intros [|y t1]; simpl.
  - by intros [= ->].
  - intros [= -> Heq]. exfalso. rewrite Heq in Hs2. exact (Hno t1 t2 Hs2).
  - intros [= -> Heq]. exfalso. rewrite <-Heq in Ht2. exact (Hno s1 s2 Ht2).
  - intros [= -> Heq]. by destruct (IH t1 Heq) as [-> ->].
Qed.

Lemma string_field_ok p k j v : string_field p k j = Some v → p v = true.
Proof.
  unfold string_field. intros (x & _ & Hx)%bind_Some. apply bind_Some in Hx as (y & _ & Hy).
  destruct (p y) eqn:Hp; simplify_eq. done.
Qed.

Lemma device_lacks_nul c : Authenticated c → lacks BusQueue.NUL c.(Connections.deviceId) = true.
Proof.
  intros (_ & host & hello & (j & Hj) & _ & _ & -> & _). apply device_id_lacks_nul.
  unfold HelloMessage_parse in Hj. do 3 (apply bind_Some in Hj as (? & _ & Hj)).
  apply bind_Some in Hj as (did & Hd & Hj). do 8 (apply bind_Some in Hj as (? & _ & Hj)).
  simplify_eq/=. by eapply string_field_ok.
Qed.

(** The refs of a recipient's pending list are its mail. *)
Lemma pending_owned live s r :
  Inv s → Authenticated live → r ∈ pending s.(busQueue) live.(Connections.uid) live.(Connections.deviceId) →
  owned live r s.
Proof.
  intros HI Ha Hr. destruct (inv_queue _ _ _ HI) as [items HR].
  rewrite (rep_pending _ _ _ _ HR) in Hr.
  apply list_elem_of_fmap in Hr as (x & -> & [Hk Hx]%list_elem_of_filter).
  pose proof (rep_heap _ _ HR x Hx) as Hh. destruct (inv_heap _ _ _ HI _ _ Hh) as [Ht _].
  unfold rKeyOf, recipientKey in Hk. apply join_inj_r in Hk as [Hu Hd]; [|done|by apply device_lacks_nul].
  by exists x.2.
Qed.

Lemma hoare_pending live (body : ref → M bool) :
  Authenticated live → (∀ r, hoare (owned live r) (body r) (λ _ _, True)) →
  safe (let! refs := pending_for live in iter refs body) (λ _, True).
Proof.
  intros Ha Hb. eapply hoare_bind with (Q := λ refs s, ∀ r, r ∈ refs → owned live r s).
  - apply hoare_gets. intros s HI _ r Hr. by apply pending_owned.
  - intros refs. apply hoare_iter; [apply owned_stable|done].
Qed.
End preserves.
