(* ===== verification/RelayHandlers.v ===== *)
(** * RelayHandlers: the message handlers keep the invariant

    The bus, the push path, the handshake and the socket callbacks of
    [RelayServer], each shown to keep the invariant of [RelayInvariant]. *)

From S2P Require Import Prelude JsMap ClientIp SocketAdmissions RateLimiter ReplayCache Liveness.
From S2P Require Import Wire BusQueue RelayAuth License Connections ServerState RelayServer.
From S2P Require Import RelayInvariant RelayPreserves.

Local Open Scope Z_scope.
Local Open Scope server_scope.

Section handlers.
Context `{Externals} (config : RelayConfig) (ident : Connection → Prop) (time wsSend : nat → Z) (dropAck : nat → bool).
Context (uuid_nul : ∀ s, is_uuid s = true → lacks BusQueue.NUL s = true).

Abbreviation Inv := (RelayInvariant.Inv config ident).
Abbreviation hoare := (RelayInvariant.hoare config ident).
Abbreviation safe := (RelayInvariant.safe config ident).
Abbreviation Authenticated := (RelayInvariant.Authenticated config ident).
Abbreviation is_agent := (RelayInvariant.is_agent config ident).
Abbreviation EntryOk := (RelayInvariant.EntryOk config ident).
Abbreviation EffectOk := (RelayInvariant.EffectOk config ident).

(** *** Replacing the queue *)

(** [let! q := gets busQueue in k q] may assume the queue is [q]. *)
Lemma hoare_get_queue {A} P (k : BusQueue → M A) Q :
  (∀ q, hoare (λ s, P s ∧ s.(busQueue) = q) (k q) Q) →
  hoare P (let! q := gets busQueue in k q) Q.
Proof.
  intros Hk. eapply hoare_bind with (Q := λ q s, P s ∧ s.(busQueue) = q); [|done].
  by apply hoare_gets.
Qed.

(** Installing a queue with the same store. *)
Lemma hoare_set_queue q q' P (F : Server → Prop) :
  (∀ s, Inv s → P s → s.(busQueue) = q) →
  q'.(heap) = q.(heap) → ((∃ items, BusQueue.Rep q items) → ∃ items, BusQueue.Rep q' items) →
  (∀ s, Inv s → P s → F (upd_busQueue (λ _, q') s)) →
  hoare P (modify (upd_busQueue (λ _, q'))) (λ _, F).
Proof.
  intros Hq Hh Hr HF. apply hoare_modify. intros s HI HP. pose proof (Hq s HI HP) as Heq.
  split_and!; [| |by apply HF].
  - apply inv_upd_queue; [done| |].
    + apply Hr. rewrite <-Heq. apply (inv_queue _ _ _ HI).
    + intros r e. rewrite Hh, <-Heq. apply (inv_heap _ _ _ HI).
  - apply heap_le_same. simpl. by rewrite Hh, Heq.
Qed.

(** *** The sweep *)

Lemma safe_sweepBus : safe (sweepBus config time wsSend) (λ _, True).
Proof.
  unfold sweepBus. eapply safe_bind; [apply safe_date_now|]. intros now _.
  apply hoare_get_queue. intros q. unfold sweep.
  destruct (removeWhere q (λ e, e.(expiresAt) <=? now)) as [q' gone] eqn:Hrm.
  eapply hoare_bind with (Q := λ _ _, True).
  { apply (hoare_set_queue q); [by intros s _ [_ ?]| | |done].
    - unfold removeWhere in Hrm. injection Hrm as <- _. clear.
      generalize (filter (λ r, matches q (λ e, e.(expiresAt) <=? now) r = true) (all_refs q)).
      intros l. revert q. induction l as [|r l IH]; intros q; simpl; [done|]. by rewrite IH, remove_heap.
    - intros [items HR]. destruct (removeWhere_rep q items (λ e, e.(expiresAt) <=? now) HR) as [HR' _].
      rewrite Hrm in HR'. by eexists. }
  intros []. eapply safe_bind with (φ := λ _, True).
  { apply safe_for_each. intros entry _. eapply safe_bind; [apply safe_busPeer|]. intros [sdr|] _.
    - apply safe_busRefuse.
    - by apply safe_ret. }
  intros _ _. eapply safe_bind; [apply safe_date_now|]. intros t _.
  eapply safe_bind; [apply safe_getAll|]. intros all Hall.
  apply safe_for_each. intros live Hl. specialize (Hall live Hl).
  destruct (_ && _) eqn:Hb; [|by apply safe_ret]. reflect_bools.
  apply hoare_pending; [done|]. intros r. by apply hoare_redeliver_one.
Qed.

(** *** Control messages *)

Lemma entryKey_inj_r u f t i u' f' t' i' :
  lacks NUL f = true → lacks NUL f' = true → lacks NUL t = true → lacks NUL t' = true →
  lacks NUL i = true → lacks NUL i' = true →
  entryKey u f t i = entryKey u' f' t' i' → u = u' ∧ f = f' ∧ t = t' ∧ i = i'.
Proof.
  intros Hf Hf' Ht Ht' Hi Hi'. unfold entryKey. rewrite !string_app_assoc.
  rewrite <-!(string_app_assoc _ (sep BusQueue.NUL)). intros [Heq ->]%join_inj_r; [|done..].
  apply join_inj_r in Heq as [Heq ->]; [|done..]. by apply join_inj_r in Heq as [-> ->].
Qed.

(** A duplicate is mail of the same account to the same recipient. *)
Lemma duplicate_fields s q conn t i r :
  Inv s → s.(busQueue) = q → Authenticated conn → lacks NUL t = true → lacks NUL i = true →
  get (entryKey conn.(Connections.uid) conn.(Connections.deviceId) t i) q.(byKey) = Some r →
  ∃ e, q.(heap) !! r = Some e ∧ e.(BusQueue.uid) = conn.(Connections.uid) ∧
       e.(from) = conn.(Connections.deviceId) ∧ e.(to) = t ∧ e.(BusQueue.id) = i.
Proof.
  intros HI <- Ha Ht Hi Hg. destruct (inv_queue _ _ _ HI) as [items HR].
  destruct (rep_get_key _ _ _ _ HR Hg) as (e & Hin & Hk).
  pose proof (rep_heap _ _ HR _ Hin) as Hh. simpl in Hh.
  destruct (inv_heap _ _ _ HI _ _ Hh) as (Het & Hei & sdr & [Hs _] & _ & Hfrom).
  unfold eKeyOf in Hk. apply entryKey_inj_r in Hk as (H1 & H2 & H3 & H4); try done.
  - by exists e.
  - rewrite <-Hfrom. by apply (device_lacks_nul config ident).
  - by apply (device_lacks_nul config ident).
Qed.

Lemma duplicate_owned s q conn l t i r :
  Inv s → s.(busQueue) = q → Authenticated conn → Authenticated l →
  lacks NUL t = true → lacks NUL i = true →
  get (entryKey conn.(Connections.uid) conn.(Connections.deviceId) t i) q.(byKey) = Some r →
  l.(Connections.uid) = conn.(Connections.uid) → l.(Connections.deviceId) = t → owned l r s.
Proof.
  intros HI Hq Ha _ Ht Hi Hg Hu Hd. destruct (duplicate_fields s q conn t i r) as (e & He & Eu & _ & Et & _); try done.
  exists e. rewrite Hq. split_and!; [done|congruence..].
Qed.

Lemma safe_bus_send conn ws msg :
  Authenticated conn → lacks NUL msg.(bs_to) = true → lacks NUL msg.(bs_id) = true →
  safe (bus_send config time wsSend conn ws msg) (λ _, True).
Proof.
  intros Ha Hto Hid. unfold bus_send. cbn zeta.
  destruct (bool_decide_reflect (conn.(Connections.deviceType) = agent)) as [Hag|]; simpl;
    [|apply safe_busRefuse].
  eapply safe_bind; [apply safe_busBytes_allow|]. intros ok _. destruct ok; simpl; [|apply safe_busRefuse].
  case_bool_decide; [apply safe_busRefuse|].
  eapply safe_bind; [apply safe_busPeer|]. intros live Hlive.
  destruct (match live with Some l => negb l.(busCapable) | None => false end) eqn:Hcap;
    [apply safe_busRefuse|].
  assert (∀ l, live = Some l → is_agent l ∧ l.(busCapable) = true ∧
    l.(Connections.uid) = conn.(Connections.uid) ∧ l.(Connections.deviceId) = bs_to msg) as Hl.
  { intros l ->. destruct (Hlive l eq_refl) as (?&?&?). reflect_bools. done. }
  eapply safe_bind; [apply safe_date_now|]. intros now _.
  apply hoare_get_queue. intros q. set (input := {| in_uid := _ |}).
  destruct (enqueue (busLimits config) q now input) as [q' res] eqn:Henq.
  set (F r s := ∀ l, live = Some l → owned l r s).
  assert (∀ r, Stable (F r)) as HF by (intros r s s' Hle Hs l Hlv; by eapply owned_le, Hs).
  eapply hoare_bind with (Q := λ _ s, match res with Duplicate r | Queued r => F r s | _ => True end).
  { apply hoare_modify. intros s HI [_ Hq]. destruct (inv_queue _ _ _ HI) as [items HR]. rewrite Hq in HR.
    pose proof (enqueue_rep (busLimits config) q items now input HR) as Hspec. rewrite Henq in Hspec.
    destruct Hspec as (HR' & Hres).
    assert (q' = q → Inv (upd_busQueue (λ _, q') s) ∧ heap_le s (upd_busQueue (λ _, q') s)) as Hsame.
    { intros ->. split; [|by apply heap_le_same; rewrite <-Hq].
      apply inv_upd_queue; [done..|]. intros r e. rewrite <-Hq. apply (inv_heap _ _ _ HI). }
    destruct res as [r|r| | |]; [|destruct Hres as [Hres Hdup]|by destruct (Hsame Hres)..].
    - destruct Hres as (Hnone & e & Hheap & Hu & Hf & Ht & Hi). simpl in Hu, Hf, Ht, Hi. split_and!.
      + apply inv_upd_queue; [done..|]. intros r' e'. rewrite Hheap, lookup_insert.
        case_decide; [intros [= <-]|rewrite <-Hq; apply (inv_heap _ _ _ HI)].
        split_and!; [congruence..|]. exists conn. split_and!; [done|done|congruence..].
      + intros r' e' He'. exists e'. split; [|done]. simpl. rewrite Hheap, lookup_insert_ne; [by rewrite <-Hq|].
        intros ->. rewrite Hq in He'. congruence.
      + intros l Hlv. destruct (Hl l Hlv) as (_ & _ & Hlu & Hld). exists e. simpl.
        rewrite Hheap, lookup_insert_eq. split_and!; [done|congruence..].
    - destruct (Hsame Hres) as [HI' Hle']. split_and!; [done..|]. intros l Hlv.
      destruct (Hl l Hlv) as ([Hla _] & _ & Hlu & Hld).
      eapply (duplicate_owned _ q conn l (bs_to msg) (bs_id msg)); try done. }
  intros [].
  assert (∀ r l, live = Some l → hoare (F r) (busDeliver time wsSend r l) (λ _ _, True)) as Hdel.
  { intros r l Hlv. destruct (Hl l Hlv) as (Hla & Hlc & _).
    eapply hoare_weaken; [by apply (hoare_busDeliver config ident time wsSend r l)|intros s Hs; by apply Hs|done]. }
  destruct res as [r|r| | |]; [| |apply safe_hoare, safe_busRefuse..].
  - eapply hoare_bind with (Q := λ _ _, True).
    { destruct live as [l|]; [by apply Hdel|by apply hoare_ret]. }
    intros [|]; [by apply safe_ret|]. apply hoare_found. intros [e|]; [|by apply hoare_ret].
    apply safe_busReceipt.
  - apply hoare_keep; [done|apply safe_date_now|]. intros t. apply hoare_found.
    intros [entry|]; [|by apply hoare_ret]. eapply hoare_bind with (Q := λ _ _, True).
    { destruct live as [l|]; [|by apply hoare_ret]. destruct (redeliverable _ _ _); [|by apply hoare_ret].
      apply hoare_keep; [done|apply safe_busRedeliverAllowed|].
      intros [|]; [by apply Hdel|by apply hoare_ret]. }
    intros [|]; [by apply safe_ret|]. eapply safe_bind; [by apply safe_gets with (φ := λ _, True)|].
    intros e' _. apply safe_busReceipt.
Qed.

Lemma safe_bus_ack conn msg : Authenticated conn → safe (bus_ack wsSend dropAck conn msg) (λ _, True).
Proof.
  intros Ha. unfold bus_ack.
  destruct (bool_decide_reflect (conn.(Connections.deviceType) = agent)) as [Hag|]; simpl; [|by apply safe_ret].
  destruct conn.(busCapable) eqn:Hcap; simpl; [|by apply safe_ret].
  eapply safe_bind; [by apply safe_gets with (φ := λ _, True)|]. intros n _.
  eapply safe_bind; [by apply safe_upd_core|]. intros _ _. destruct (dropAck n); [by apply safe_ret|].
  apply hoare_get_queue. intros q.
  destruct (ack q conn.(Connections.uid) conn.(Connections.deviceId) (ba_id msg)) as [q' acked] eqn:Hack.
  eapply hoare_bind with (Q := λ _ _, ∀ e, acked = Some e → e.(BusQueue.uid) = conn.(Connections.uid)).
  { intros s HI [_ Hq]. destruct (inv_queue _ _ _ HI) as [items HR]. rewrite Hq in HR.
    pose proof (ack_rep q items conn.(Connections.uid) conn.(Connections.deviceId) (ba_id msg) HR) as Hspec.
    rewrite Hack in Hspec. destruct Hspec as (Hh & Hr & Hin).
    apply (hoare_set_queue q q' (λ s', s' = s)
      (λ _, ∀ e, acked = Some e → e.(BusQueue.uid) = conn.(Connections.uid))); [by intros ? _ ->|done|done| |done|done].
    intros s' _ -> e (r & Hr' & He)%Hin. rewrite <-Hq in Hr', He.
    destruct (pending_owned config ident conn s r HI Ha Hr') as (e' & He' & Hu & _). congruence. }
  intros []. destruct acked as [entry|]; [|by apply hoare_ret].
  intros s HI Hs. specialize (Hs entry eq_refl). match goal with |- Inv (?m s).2 ∧ _ => cut (safe m (λ _, True)); [intros Hm; by apply Hm|] end.
  eapply safe_bind; [apply safe_busPeer|]. intros [sdr|] Hsdr; [|by apply safe_ret].
  destruct (Hsdr sdr eq_refl) as (Hsa & Hsu & Hsd).
  eapply safe_bind; [|intros _ _; by apply safe_ret]. apply safe_sendJson.
  exists sdr, conn. split_and!; try done. congruence.
Qed.

Lemma safe_bus_drain conn : Authenticated conn → safe (bus_drain config time wsSend conn) (λ _, True).
Proof.
  intros Ha. unfold bus_drain. eapply safe_bind; [apply safe_date_now|]. intros t _.
  eapply safe_bind; [by apply safe_gets with (φ := λ _, True)|]. intros last _.
  destruct (match last with Some l => _ | None => false end); [by apply safe_ret|].
  eapply safe_bind; [by apply safe_upd_core|]. intros _ _.
  destruct (_ || _) eqn:Hb; [by apply safe_ret|]. reflect_bools.
  apply hoare_pending; [done|]. intros r. by apply hoare_deliver_within_budget.
Qed.

Lemma safe_push_deliver conn ws msg :
  Authenticated conn → safe (push_deliver config time wsSend conn ws msg) (λ _, True).
Proof.
  intros Ha. unfold push_deliver. cbn zeta.
  destruct (bool_decide_reflect (conn.(Connections.deviceType) = agent)) as [Hag|]; simpl;
    [|apply safe_sendError].
  eapply safe_bind; [apply safe_push_allow|]. intros ok _. destruct ok; simpl; [|apply safe_sendError].
  destruct (match pd_provider msg with apns => _ | fcm => _ end); simpl.
  - eapply safe_bind; [by apply safe_gets with (φ := λ _, True)|]. intros n _.
    eapply safe_bind; [by apply safe_upd_core|]. intros _ _.
    eapply safe_bind; [by apply safe_upd_core|]. intros _ _. apply safe_emit. by exists conn.
  - eapply safe_bind; [by apply safe_sendJson|]. intros _ _. by apply safe_ret.
Qed.

Lemma safe_replyPushResult n r : safe (replyPushResult wsSend n r) (λ _, True).
Proof.
  eapply safe_bind; [by apply safe_gets with (φ := λ _, True)|]. intros [[d tok]|] _; [|by apply safe_ret].
  eapply safe_bind; [by apply safe_upd_core|]. intros _ _.
  eapply safe_bind; [apply safe_getByDeviceId|]. intros [c|] _; [|by apply safe_ret].
  eapply safe_bind; [|intros _ _; by apply safe_ret]. apply safe_sendJson. by destruct r.
Qed.

(** What parsing a [bus:send] guarantees. *)
Lemma parse_bus_send j m :
  ClientMessage_parse is_uuid is_datetime j = Some (BusSend m) →
  is_uuid m.(bs_id) = true ∧ is_uuid m.(bs_to) = true.
Proof.
  unfold ClientMessage_parse. intros (t & _ & Ht)%bind_Some.
  repeat case_bool_decide; simpl in Ht; try done;
    try (by apply fmap_Some in Ht as (? & _ & ?)).
  apply fmap_Some in Ht as (m' & Hm & [= <-]). unfold BusSendMessage_parse in Hm.
  apply bind_Some in Hm as (? & _ & Hm). apply bind_Some in Hm as (i & Hi & Hm).
  apply bind_Some in Hm as (d & Hd & Hm). apply bind_Some in Hm as (b & _ & Hm).
  apply bind_Some in Hm as (tt & _ & Hm). simplify_eq/=. split; by eapply string_field_ok.
Qed.

Lemma safe_dispatch conn ws msg :
  Authenticated conn →
  (∀ m, msg = BusSend m → is_uuid m.(bs_id) = true ∧ is_uuid m.(bs_to) = true) →
  safe (dispatch config time wsSend dropAck conn ws msg) (λ _, True).
Proof.
  intros Ha Hm. destruct msg as [h|p| |b|a|]; simpl.
  - apply safe_sendErrorAndClose.
  - by apply safe_push_deliver.
  - eapply safe_bind; [apply safe_date_now|]. intros t _.
    eapply safe_bind; [by apply safe_upd_core|]. intros _ _.
    eapply safe_bind with (φ := λ _, True); [|intros _ _; by apply safe_ret].
    intros s HI _. split_and!; [|by apply heap_le_same|done].
    apply (inv_same_core config ident s); [done| |done]. simpl. apply Forall_app. split; [apply HI|by apply Forall_singleton].
  - destruct (Hm b eq_refl) as [Hi Ht]. apply safe_bus_send; auto.
  - by apply safe_bus_ack.
  - by apply safe_bus_drain.
Qed.

Lemma safe_handleControlMessage ws raw :
  safe (handleControlMessage config time wsSend dropAck ws raw) (λ _, True).
Proof.
  unfold handleControlMessage. destruct (json_parse raw) as [parsed|].
  - eapply safe_bind; [apply safe_json_allow|]. intros ok _. destruct ok; simpl; [|apply safe_sendError].
    destruct (ClientMessage_parse is_uuid is_datetime parsed) as [msg|] eqn:Hp; [|apply safe_sendError].
    eapply safe_bind; [apply safe_getByConnectionId|]. intros [c|] Hc; [|by apply safe_ret].
    apply safe_dispatch; [by apply Hc|]. intros m ->. by eapply parse_bus_send.
  - eapply safe_bind; [apply safe_json_allow|]. intros ok _. destruct ok; simpl; apply safe_sendError.
Qed.
End handlers.
