(* ===== verification/RelayHandshake.v ===== *)
(** * RelayHandshake: the handshake and the socket callbacks keep the invariant *)

From S2P Require Import Prelude JsMap ClientIp SocketAdmissions RateLimiter ReplayCache Liveness.
From S2P Require Import Wire BusQueue RelayAuth License Connections ServerState RelayServer RelayFrames.
From S2P Require Import RelayInvariant RelayPreserves RelayHandlers.

Local Open Scope Z_scope.
Local Open Scope server_scope.

Section handshake.
Context `{Externals} (config : RelayConfig) (ident : Connection → Prop) (time wsSend : nat → Z) (dropAck : nat → bool).
Context (uuid_nul : ∀ s, is_uuid s = true → lacks BusQueue.NUL s = true).

Abbreviation Inv := (RelayInvariant.Inv config ident).
Abbreviation hoare := (RelayInvariant.hoare config ident).
Abbreviation safe := (RelayInvariant.safe config ident).
Abbreviation Authenticated := (RelayInvariant.Authenticated config ident).
Abbreviation licensed := (RelayInvariant.licensed config).
Abbreviation EffectOk := (RelayInvariant.EffectOk config ident).

(** *** The steps before the gate *)

(** The socket has claimed its one handshake and none is pending for it. *)
Definition handshaking (ws : string) (s : Server) : Prop :=
  s.(pendingHello) !! ws = None ∧
  ∃ sock, s.(sockets) !! ws = Some sock ∧ sock.(phase) = authenticating.

Lemma handshaking_core ws s s' : core s = core s' → handshaking ws s → handshaking ws s'.
Proof.
  intros Hc. injection Hc as E1 _ _ _ _ E2 _ _. unfold handshaking. by rewrite E1, E2.
Qed.

Lemma hoare_now P : (∀ s s', core s = core s' → P s → P s') → hoare P (date_now time) (λ _, P).
Proof. intros HP. apply hoare_same_core; [|done]. intros s. split; [done|intros HI; exact (inv_trace _ _ s HI)]. Qed.

Lemma safe_hello_begin ws raw :
  hoare (handshaking ws) (hello_begin config time wsSend ws raw) (λ _ _, True).
Proof.
  unfold hello_begin. destruct (json_parse raw) as [j|]; [|apply safe_hoare, safe_sendErrorAndClose].
  destruct (HelloMessage_parse is_datetime j) as [hello|] eqn:Hj; [|apply safe_hoare, safe_sendErrorAndClose].
  eapply hoare_bind; [apply hoare_now, handshaking_core|]. intros now. cbv beta.
  destruct (date_parse (h_ts hello)) as [tsMs|]; [|apply safe_hoare, safe_sendErrorAndClose].
  destruct (_ >? _); [apply safe_hoare, safe_sendErrorAndClose|].
  eapply hoare_bind with (Q := λ host s, handshaking ws s ∧ host_of ws s = host); [by apply hoare_gets|].
  intros host. assert (∀ s s', core s = core s' → handshaking ws s ∧ host_of ws s = host →
    handshaking ws s' ∧ host_of ws s' = host) as Hcore.
  { intros s s' Hc [Hh Ho]. split; [by eapply handshaking_core|]. unfold host_of in *.
    injection Hc as E1 _ _ _ _ _ _ _. by rewrite <-E1. }
  destruct (verifyHelloSig _ _ _) eqn:Hsig; simpl; [|apply safe_hoare, safe_sendErrorAndClose].
  eapply hoare_bind; [by apply hoare_now|]. intros seen. cbv beta.
  eapply hoare_bind with (Q := λ _ s, handshaking ws s ∧ host_of ws s = host); [by apply hoare_gets|].
  intros cache. destruct (checkAndRecord _ _ _ _ _ _) as [cache' fresh].
  eapply hoare_bind; [apply hoare_upd_core; [done|done|exact Hcore]|]. intros []. cbv beta.
  destruct fresh; simpl; [|apply safe_hoare, safe_sendErrorAndClose].
  apply hoare_modify. intros s HI [[Hp (sock & Hs & Hph)] Ho].
  split_and!; [|by apply heap_le_same|done]. destruct HI as [H1 H2 H3 H4 H5 H6 H7 H8 H9]. split; simpl; try done.
  - intros w p. rewrite lookup_insert. case_decide as Hw; [|apply H2]. subst w. intros [= <-]. simpl.
    split; [by exists j|]. exists sock. split_and!; [done|congruence|]. unfold host_of in Ho.
    rewrite Hs in Ho. by rewrite Ho.
  - intros w res Hr. destruct (H3 w res Hr) as (p & Hp' & He). exists p. split; [|done].
    rewrite lookup_insert_ne; [done|]. intros ->. congruence.
Qed.

(** *** The gate *)

Lemma safe_hello_settled ws getKeys : safe (hello_settled config ws getKeys) (λ _, True).
Proof.
  unfold hello_settled. eapply hoare_bind with (Q := λ pend s, s.(pendingHello) !! ws = pend); [by apply hoare_gets|].
  intros [p|]; [|by apply hoare_ret].
  set (verified := verifyDeviceToken kid_of importJWK jwtVerify getKeys (h_licenseToken (p_hello p)) (expectedIssuer config)).
  eapply hoare_bind with (Q := λ _ s, s.(pendingHello) !! ws = Some p); [by apply hoare_gets|].
  intros cache. cbv zeta. fold verified.
  destruct (match h_deviceType (p_hello p) with agent => _ | app => _ end) as [cache' result] eqn:Hg.
  assert (∀ e, result = inl e → licensed (p_hello p) (e_userId e)) as Hlic.
  { intros e ->. destruct (h_deviceType (p_hello p)) eqn:Hd.
    - pose proof (gate_verify_spec (licenseCacheMaxEntries config) verified
        (h_deviceId (p_hello p)) (h_publicKey (p_hello p)) cache) as Hs.
      rewrite Hg in Hs. destruct Hs as (claims & Hv & Hdu & Hpk & _ & -> & _).
      exists getKeys, claims. done.
    - pose proof (gate_app_spec (licenseCacheMaxEntries config) verified cache) as Hs.
      rewrite Hg in Hs. destruct Hs as (claims & Hv & _ & -> & _).
      exists getKeys, claims. split_and!; [done|done|by rewrite Hd]. }
  eapply hoare_bind; [apply hoare_upd_core; [done|done|]|].
  { intros s s' Hc. injection Hc as _ _ _ _ _ E _ _. by rewrite E. }
  intros []. cbv beta. apply hoare_modify. intros s HI Hp. split_and!; [|by apply heap_le_same|done].
  destruct HI as [H1 H2 H3 H4 H5 H6 H7 H8 H9]. split; simpl; try done.
  intros w res. rewrite lookup_insert. case_decide as Hw; [|apply H3]. subst w. intros [= <-]. by exists p.
Qed.

(** *** After the gate *)

(** What is known of a pending hello when its account is known. *)
Definition verified_hello (host : string) (p : PendingHello) (u : string) : Prop :=
  well_formed p.(p_hello) ∧ signed host p.(p_hello) ∧ licensed p.(p_hello) u.

(** The socket, opened to [host], waits for the verdict on its hello. *)
Definition awaiting (ws host : string) (s : Server) : Prop :=
  phase_of ws s = Some authenticating ∧ host_of ws s = host.

(** The socket may be admitted under device [d]. *)
Definition admissible (ws host d : string) (s : Server) : Prop :=
  awaiting ws host s ∧ getByDeviceId d s.(connections) = None.

Lemma hoare_close_other ws host w d code text retry cc st :
  w ≠ ws →
  hoare (admissible ws host d) (sendErrorAndClose wsSend w code text retry cc st) (λ _, admissible ws host d).
Proof.
  intros Hne s HI Hs. destruct (safe_sendErrorAndClose config ident wsSend w code text retry cc st s HI I) as (H1 & H2 & _).
  split_and!; [done|done|]. unfold sendErrorAndClose, sendError, sendJson, set_phase, ws_close, bind, gets, modify, emit.
  unfold admissible, awaiting, phase_of, host_of in *. simpl. destruct (is_open w s); simpl; rewrite !lookup_alter_ne by done; done.
Qed.

Lemma hoare_remove existing ws host d :
  existing.(Connections.deviceId) = d →
  hoare (λ s, awaiting ws host s ∧ getByDeviceId d s.(connections) = Some existing)
        (modify (upd_connections (Connections.remove existing)))
        (λ _, admissible ws host d).
Proof.
  intros Hd. apply hoare_modify. intros s HI [Hp Hg]. destruct HI as [(live & HR & Hok) H2 H3 H4 H5 H6 H7 H8 H9].
  destruct (proj1 (getByDeviceId_iff _ _ HR d existing) Hg) as [Hin _].
  pose proof (rep_delete _ _ HR existing Hin) as HR'.
  split_and!; [|by apply heap_le_same|]; [split; simpl; try done|split; [done|]].
  - exists (set_delete existing live). split; [done|]. intros c [_ Hc]%list_elem_of_filter. by apply Hok.
  - destruct (getByDeviceId d (Connections.remove existing s.(connections))) as [c|] eqn:Hc; [|done].
    apply (getByDeviceId_iff _ _ HR') in Hc as [Hc Hcd]. apply list_elem_of_filter in Hc as [Hoid Hc].
    assert (getByDeviceId d s.(connections) = Some c) as Hg' by (by apply (getByDeviceId_iff _ _ HR)).
    congruence.
Qed.

Lemma hoare_arbitrate ws host p :
  hoare (awaiting ws host) (arbitrate wsSend ws p)
        (λ go s, go = true → admissible ws host (h_deviceId (p_hello p)) s).
Proof.
  unfold arbitrate.
  eapply hoare_bind with (Q := λ held s, awaiting ws host s ∧
    getByDeviceId (h_deviceId (p_hello p)) s.(connections) = held); [by apply hoare_gets|].
  intros [existing|]; [|by apply hoare_ret].
  assert (∀ P code text retry cc st,
    hoare P (sendErrorAndClose wsSend ws code text retry cc st;; ret false)
      (λ go s, go = true → admissible ws host (h_deviceId (p_hello p)) s)) as Hrefuse.
  { intros. eapply hoare_bind; [apply safe_hoare, safe_sendErrorAndClose|]. intros ?. by apply hoare_ret. }
  destruct (negb _); [apply Hrefuse|]. destruct (_ || _); [apply Hrefuse|].
  destruct (_ >=? _); [|apply Hrefuse].
  intros s HI Hs.
  assert (existing.(Connections.deviceId) = h_deviceId (p_hello p) ∧ existing.(connectionId) ≠ ws) as [Hd Hne].
  { destruct (inv_conns _ _ _ HI) as (live & HR & Hok). destruct Hs as [[Hph _] Hg].
    destruct (proj1 (getByDeviceId_iff _ _ HR _ existing) Hg) as [Hin Hd]. split; [done|]. intros Heq.
    destruct (Hok _ Hin) as (_ & _ & sock & Hsock & Hor & _). unfold phase_of in Hph.
    rewrite <-Heq, Hsock in Hph. simpl in Hph. destruct Hor; congruence. }
  revert s HI Hs.
  match goal with |- ∀ s, _ → _ → Inv (?m s).2 ∧ _ ∧ @?Q s => change (hoare (λ s, awaiting ws host s ∧
    getByDeviceId (h_deviceId (p_hello p)) s.(connections) = Some existing) m
    (λ go s, go = true → admissible ws host (h_deviceId (p_hello p)) s)) end.
  eapply hoare_bind; [by apply hoare_remove|]. intros []. cbv beta.
  eapply hoare_bind; [apply hoare_upd_core; [done|done|]|].
  { intros s s' Hc. unfold admissible, awaiting, phase_of, host_of. by injection Hc as <- <- _ _ _ _ _ _. }
  intros []. cbv beta. eapply hoare_bind; [by apply hoare_close_other|]. intros ?. by apply hoare_ret.
Qed.

(** A socket that waits for its verdict is not in the history; admitted, it is. *)
Lemma history_snoc (h : list Connection) (socks : gmap string Socket) ws sock d c :
  NoDup (connectionId <$> h) ∧
    (∀ c, c ∈ h → Authenticated c ∧ ∃ k, socks !! c.(connectionId) = Some k ∧ (k.(phase) = ready ∨ k.(phase) = closed)) →
  socks !! ws = Some sock → sock.(phase) = authenticating → Authenticated c → c.(connectionId) = ws →
  NoDup (connectionId <$> h ++ [c]) ∧
    (∀ c', c' ∈ h ++ [c] → Authenticated c' ∧
       ∃ k, alter (admitted_as d) ws socks !! c'.(connectionId) = Some k ∧ (k.(phase) = ready ∨ k.(phase) = closed)).
Proof.
  intros [Hnd Hold] Hsock Hph Ha <-.
  assert (∀ c', c' ∈ h → c'.(connectionId) ≠ c.(connectionId)) as Hne.
  { intros c' Hc Heq. destruct (Hold c' Hc) as (_ & k & Hk & Hp). rewrite Heq, Hsock in Hk. simplify_eq.
    destruct Hp; congruence. }
  split.
  - rewrite fmap_app. apply NoDup_app. split_and!; [done| |apply NoDup_singleton].
    intros x (c' & -> & Hc)%list_elem_of_fmap Hx. apply list_elem_of_singleton in Hx. by apply (Hne c').
  - intros c' [Hc| ->%list_elem_of_singleton]%elem_of_app.
    + destruct (Hold c' Hc) as (A1 & k & Hk & Hp). split; [done|]. exists k. split; [|done].
      rewrite lookup_alter_ne; [done|]. intros Heq. by apply (Hne c').
    + split; [done|]. exists (admitted_as d sock). rewrite lookup_alter_eq, Hsock. split; [done|by left].
Qed.

(** Admitting: the table, the socket and the liveness entry change together. *)
Lemma hoare_admit ws host p u :
  verified_hello host p u →
  hoare (λ s, admissible ws host (h_deviceId (p_hello p)) s ∧ ident (new_connection ws p u s.(nextOid)))
        (admit_connection ws p u)
        (λ c _, Authenticated c ∧ c.(connectionId) = ws ∧ c.(Connections.deviceId) = h_deviceId (p_hello p)).
Proof.
  intros (Hwf & Hsig & Hlic) s HI [[[Hph Hhost] Hnone] Hid].
  assert (∀ o, authenticated_for config host (new_connection ws p u o)) as Ha.
  { intros o. exists (p_hello p). by split_and!. }
  unfold admit_connection, clearHelloTimer, bind, gets, modify, ret. cbn [fst snd].
  split_and!; [|by apply heap_le_same|by split; [|exists host; apply Ha]|done|done].
  destruct HI as [(live & HR & Hok) H2 H3 H4 H5 H6 H7 H8 H9].
  unfold phase_of in Hph. unfold host_of in Hhost.
  destruct (s.(sockets) !! ws) as [sock|] eqn:Hsock; [|done]. simpl in Hph. simplify_eq.
  assert (∀ c, c ∈ live → c.(connectionId) ≠ ws) as Hfresh.
  { intros c Hc Heq. destruct (Hok c Hc) as (_ & _ & k & Hk & Hor & _). rewrite Heq, Hsock in Hk.
    simplify_eq. destruct Hor; congruence. }
  split; simpl; try done.
  - exists (live ++ [new_connection ws p u s.(nextOid)]). split.
    + apply rep_insert; [done|..]; simpl.
      * intros (c & Hc & Hin)%list_elem_of_fmap. by apply (Hfresh c).
      * intros (c & Hc & Hin)%list_elem_of_fmap.
        assert (getByDeviceId (h_deviceId (p_hello p)) s.(connections) = Some c) as Hg
          by (by apply (getByDeviceId_iff _ _ HR)). congruence.
      * intros (c & Hc & Hin)%list_elem_of_fmap. destruct (Hok c Hin) as (_ & Hlt & _). rewrite <-Hc in Hlt. lia.
    + intros c [Hc| ->%list_elem_of_singleton]%elem_of_app.
      * destruct (Hok c Hc) as (A1 & A2 & k & Hk & A3). unfold conn_ok. simpl. split_and!; [done|lia|].
        exists k. rewrite lookup_alter_ne; [done|]. intros Heq. by apply (Hfresh c).
      * unfold conn_ok. simpl. split_and!; [by split; [|eexists; apply Ha]|lia|]. exists (admitted_as (h_deviceId (p_hello p)) sock).
        rewrite lookup_alter_eq, Hsock. split_and!; [done|by left|done|apply Ha].
  - intros w q Hq. destruct (H2 w q Hq) as (A1 & k & Hk & A2 & A3). split; [done|].
    destruct (decide (ws = w)) as [->|Hne].
    + rewrite Hk in Hsock. injection Hsock as ->. rewrite lookup_alter_eq, Hk. simpl. by eexists.
    + rewrite lookup_alter_ne by done. by exists k.
  - intros w k. rewrite lookup_alter. case_decide as Hw; [subst w|apply H5]. rewrite Hsock. simpl.
    intros [= <-] Ho. simpl in *. by apply H5.
  - apply (history_snoc s.(history) s.(sockets) ws sock); try done. by split; [|eexists; apply Ha].
Qed.

Lemma safe_greet conn p :
  Authenticated conn → conn.(Connections.deviceId) = h_deviceId (p_hello p) →
  safe (greet config time wsSend conn p) (λ _, True).
Proof.
  intros Ha Hd. unfold greet. cbv zeta.
  eapply safe_bind; [apply safe_sendJson; by exists conn|]. intros _ _.
  eapply safe_bind with (φ := λ _, True); [case_bool_decide; [by apply safe_fanOut|by apply safe_ret]|]. intros _ _.
  eapply safe_bind; [apply safe_sameAccountPeers|]. intros ags Hags.
  eapply safe_bind with (φ := λ _, True).
  { apply safe_for_each. intros a Hin. destruct (Hags a Hin) as (Haa & Hu & Hdt).
    eapply safe_bind; [|intros _ _; by apply safe_ret]. apply safe_sendJson.
    exists conn, a. split_and!; done. }
  intros _ _. destruct conn.(busCapable) eqn:Hcap; [|by apply safe_ret].
  apply hoare_pending; [done|]. intros r. apply hoare_deliver_within_budget; [|done]. split; [done|].
  destruct Ha as (_ & host & hello & _ & _ & _ & _ & Hdt & _ & Hc). rewrite Hc in Hcap. rewrite Hdt. by reflect_bools.
Qed.

(** Every connection a state lists as admitted is among [ident]. *)
Definition foreseen (s : Server) : Prop := ∀ c, c ∈ s.(history) → ident c.

(** Admission and greeting, when the run foresees whom it admits. *)
Lemma hoare_admit_greet ws host p u :
  verified_hello host p u →
  hoare (λ s, admissible ws host (h_deviceId (p_hello p)) s ∧
              foreseen ((let! conn := admit_connection ws p u in greet config time wsSend conn p) s).2)
        (let! conn := admit_connection ws p u in greet config time wsSend conn p) (λ _ _, True).
Proof.
  intros Hv. eapply hoare_bind.
  - eapply hoare_weaken; [apply hoare_admit, Hv| |done]. intros s [Hs Hf]. split; [done|]. apply Hf.
    set (conn := new_connection ws p u s.(nextOid)). set (s1 := (admit_connection ws p u s).2).
    assert (s1.(history) = s.(history) ++ [conn]) as Hh by done.
    change (conn ∈ (greet config time wsSend conn p s1).2.(history)).
    pose proof (keeps_greet config time wsSend roster conn p s1) as Hk. clearbody s1.
    injection Hk as _ ->. rewrite Hh. apply elem_of_app. right. by left.
  - intros conn s HI (Ha & Hc & Hd). by apply safe_greet.
Qed.

Lemma hoare_hello_resume ws :
  hoare (λ s, True ∧ foreseen (hello_resume config time wsSend ws s).2)
        (hello_resume config time wsSend ws) (λ _ _, True).
Proof.
  unfold hello_resume.
  eapply hoare_bind_future with (Q := λ pend s, s.(pendingHello) !! ws = pend); [by apply hoare_gets|]. intros pend.
  eapply hoare_bind_future with (Q := λ res s, s.(pendingHello) !! ws = pend ∧ s.(gateResult) !! ws = res);
    [by apply hoare_gets|]. intros res.
  destruct pend as [p|]; [|by apply hoare_ret]. destruct res as [res|]; [|by apply hoare_ret].
  set (known := λ s, well_formed (p_hello p) ∧ signed (host_of ws s) (p_hello p) ∧
    ∀ e, res = inl e → licensed (p_hello p) (e_userId e)).
  eapply hoare_bind_future with (Q := λ _ s, known s ∧ s.(gateResult) !! ws = None).
  { apply hoare_modify. intros s HI [Hp Hr]. split_and!; [|by apply heap_le_same| |].
    - destruct HI as [H1 H2 H3 H4 H5 H6 H7 H8 H9]. split; simpl; try done.
      intros w r. rewrite lookup_delete. case_decide; [done|apply H3].
    - destruct (inv_pending _ _ _ HI ws p Hp) as (Hwf & sock & Hsock & _ & Hsig).
      destruct (inv_gate _ _ _ HI ws res Hr) as (p' & Hp' & He). rewrite Hp in Hp'.
      injection Hp' as <-. split; [done|]. split; [unfold host_of; simpl; by rewrite Hsock|done].
    - simpl. by rewrite lookup_delete_eq. }
  intros []. eapply hoare_bind_future with (Q := λ _, known).
  { apply hoare_modify. intros s HI [Hk Hg]. split_and!; [|by apply heap_le_same|done].
    destruct HI as [H1 H2 H3 H4 H5 H6 H7 H8 H9]. split; simpl; try done.
    - intros w q. rewrite lookup_delete. case_decide; [done|apply H2].
    - intros w r Hr. destruct (H3 w r Hr) as (q & Hq & He). exists q. split; [|done].
      rewrite lookup_delete_ne; [done|]. intros ->. congruence. }
  intros []. destruct res as [entry|code]; [|apply safe_hoare, safe_sendErrorAndClose].
  eapply hoare_bind_future with (Q := λ ph s, known s ∧ phase_of ws s = ph); [by apply hoare_gets|]. intros ph.
  eapply hoare_bind_future with (Q := λ _ s, known s ∧ phase_of ws s = ph); [by apply hoare_gets|]. intros op.
  destruct (_ || _) eqn:Hb; [by apply hoare_ret|]. reflect_bools. subst ph.
  intros s HI [[(Hwf & Hsig & Hlic) Hph] Hfut]. set (host := host_of ws s) in *.
  assert (verified_hello host p (e_userId entry)) as Hv by (split; [done|split; [done|by apply Hlic]]).
  assert (awaiting ws host s) as Haw by done. clearbody host. clear Hph Hlic Hwf Hsig known.
  pose proof (conj Haw Hfut) as HP. clear Haw Hfut. revert s HI HP.
  match goal with |- ∀ s, _ → @?P s → Inv (?m s).2 ∧ _ => change (hoare P m (λ _ _, True)) end.
  eapply hoare_bind_future; [apply hoare_arbitrate|]. intros [|]; [|by apply hoare_ret].
  eapply hoare_weaken; [apply (hoare_admit_greet ws host p (e_userId entry) Hv)| |done].
  intros s [Hs Hf]. split; [by apply Hs|done].
Qed.
End handshake.
