(* ===== verification/RelayRoutes.v ===== *)
(** * RelayRoutes: the socket callbacks and the internal routes keep the invariant *)

From S2P Require Import Prelude JsMap ClientIp SocketAdmissions RateLimiter ReplayCache Liveness.
From S2P Require Import Wire BusQueue RelayAuth License Connections ServerState RelayServer InternalRoutes.
From S2P Require Import RelayInvariant RelayPreserves RelayHandlers RelayHandshake.

Local Open Scope Z_scope.
Local Open Scope server_scope.

Section routes.
Context `{Externals} (config : RelayConfig) (ident : Connection → Prop) (time wsSend : nat → Z) (dropAck : nat → bool).
Context (uuid_nul : ∀ s, is_uuid s = true → lacks BusQueue.NUL s = true).

Abbreviation Inv := (RelayInvariant.Inv config ident).
Abbreviation hoare := (RelayInvariant.hoare config ident).
Abbreviation safe := (RelayInvariant.safe config ident).

(** *** Socket callbacks *)

Lemma safe_ws_message ws f : safe (ws_message config time wsSend dropAck ws f) (λ _, True).
Proof.
  unfold ws_message. eapply hoare_bind with (Q := λ ph s, phase_of ws s = ph); [by apply hoare_gets|].
  intros [[| | |]|]; [|apply safe_hoare, safe_sendErrorAndClose| |by apply hoare_ret..].
  - destruct f as [raw|]; [|apply safe_hoare, safe_sendErrorAndClose].
    eapply hoare_bind with (Q := λ _, handshaking ws); [|intros []; apply safe_hello_begin].
    apply hoare_modify. intros s HI Hph. unfold phase_of in Hph.
    destruct (s.(sockets) !! ws) as [sock|] eqn:Hsock; [|done]. simpl in Hph. injection Hph as Hph.
    assert (s.(pendingHello) !! ws = None) as Hnone.
    { destruct (s.(pendingHello) !! ws) as [p|] eqn:Hp; [|done].
      destruct (inv_pending _ _ _ HI ws p Hp) as (_ & k & Hk & Hne & _). congruence. }
    split_and!; [|by apply heap_le_same|].
    + destruct HI as [(live & HR & Hok) H2 H3 H4 H5 H6 H7 H8 H9]. split; simpl; try done.
      * exists live. split; [done|]. intros c Hc. destruct (Hok c Hc) as (A1 & A2 & k & Hk & Hor & Hd).
        split_and!; [done..|]. exists k. simpl. rewrite lookup_alter_ne; [done|]. intros ->.
        rewrite Hsock in Hk. injection Hk as ->. destruct Hor; congruence.
      * intros w p Hp. destruct (H2 w p Hp) as (A1 & k & Hk & A2). split; [done|]. exists k.
        rewrite lookup_alter_ne; [done|]. intros <-. congruence.
      * intros w k. rewrite lookup_alter. case_decide as Hw; [subst w|apply H5]. rewrite Hsock. simpl.
        intros [= <-] Ho. by apply (H5 ws sock).
      * split; [apply H9|]. intros c Hc. destruct (proj2 H9 c Hc) as (A1 & k & Hk & Hor). split; [done|].
        exists k. rewrite lookup_alter_ne; [done|]. intros ->. rewrite Hsock in Hk. simplify_eq. destruct Hor; congruence.
    + split; [done|]. exists (with_phase authenticating sock). simpl. by rewrite lookup_alter_eq, Hsock.
  - destruct f as [raw|]; [|apply safe_hoare, safe_sendErrorAndClose].
    apply safe_hoare. by apply safe_handleControlMessage.
Qed.

Lemma safe_hello_timeout ws : safe (hello_timeout wsSend ws) (λ _, True).
Proof.
  eapply safe_bind; [by apply safe_gets with (φ := λ _, True)|]. intros armed _.
  eapply safe_bind; [by apply safe_gets with (φ := λ _, True)|]. intros ph _.
  destruct (_ && _); [apply safe_sendErrorAndClose|by apply safe_ret].
Qed.

Lemma inv_upd_admissions s adm :
  Inv s → Capped config.(maxConnections) config.(rateLimitConnPerIp) adm →
  (∀ ws sock, s.(sockets) !! ws = Some sock → sock.(isOpen) = true →
     get ws adm.(reservations) = Some sock.(Connections.ip)) →
  Inv (upd_admissions (λ _, adm) s).
Proof. intros [H1 H2 H3 H4 H5 H6 H7 H8 H9] Hc Ho. by split. Qed.

Lemma release_other adm ws w :
  w ≠ ws → get w (release adm ws).1.(reservations) = get w adm.(reservations).
Proof.
  intros Hne. unfold release. destruct (get ws adm.(reservations)); [|done]. simpl. by apply get_delete_ne.
Qed.

Lemma hoare_release ws :
  hoare (λ s, ∀ sock, s.(sockets) !! ws = Some sock → sock.(isOpen) = false)
    (modify (upd_admissions (λ a, (release a ws).1))) (λ _ _, True).
Proof.
  apply hoare_modify. intros s HI Hcl. split_and!; [|by apply heap_le_same|done].
  apply (inv_upd_admissions s (release s.(admissions) ws).1); [done| |].
  - apply (capped_step _ _ _ (Release ws)), (inv_capped _ _ _ HI).
  - intros w sock Hs Ho. rewrite release_other; [by apply (inv_open _ _ _ HI)|]. intros ->.
    specialize (Hcl sock Hs). congruence.
Qed.

Lemma hoare_upgrade ws address xff host upgraded :
  hoare (λ s, s.(sockets) !! ws = None) (upgrade config ws address xff host upgraded) (λ _ _, True).
Proof.
  unfold upgrade. set (addr := (resolveClientIp _ _ _).1). cbv zeta. eapply hoare_bind with (Q := λ adm s, s.(sockets) !! ws = None ∧ s.(admissions) = adm);
    [by apply hoare_gets|]. intros adm.
  destruct (reserve _ _ adm ws addr) as [|[|]|adm'] eqn:Hr; [by apply hoare_ret..|].
  assert (adm'.(reservations) = set ws addr adm.(reservations)) as Hres.
  { revert Hr. unfold reserve. repeat (case_match; [done|]). by intros [= <-]. }
  eapply hoare_bind with (Q := λ _ s, s.(sockets) !! ws = None ∧ get ws s.(admissions).(reservations) = Some addr).
  { apply hoare_modify. intros s HI [Hnone <-].
    split_and!; [|by apply heap_le_same|done|simpl; by rewrite Hres, get_set_eq].
    apply inv_upd_admissions; [done| |].
    - pose proof (capped_step _ _ _ (Reserve ws addr) (inv_capped _ _ _ HI)) as Hc. simpl in Hc. by rewrite Hr in Hc.
    - intros w sock Hs Ho. rewrite Hres, get_set_ne by congruence. by apply (inv_open _ _ _ HI). }
  intros []. destruct upgraded; (eapply hoare_bind with (Q := λ _ _, True); [|intros []; by apply hoare_ret]).
  - apply hoare_modify. intros s HI [Hnone Hget]. split_and!; [|by apply heap_le_same|done].
    destruct HI as [(live & HR & Hok) H2 H3 H4 H5 H6 H7 H8 H9]. split; simpl; try done.
    + exists live. split; [done|]. intros c Hc. destruct (Hok c Hc) as (A1 & A2 & k & Hk & A3).
      split_and!; [done..|]. exists k. simpl. rewrite lookup_insert_ne; [done|]. intros ->. congruence.
    + intros w p Hp. destruct (H2 w p Hp) as (A1 & k & Hk & A2). split; [done|]. exists k.
      rewrite lookup_insert_ne; [done|]. intros <-. congruence.
    + intros w k. rewrite lookup_insert. case_decide as Hw; [subst w; by intros [= <-] _|apply H5].
    + split; [apply H9|]. intros c Hc. destruct (proj2 H9 c Hc) as (A1 & k & Hk & Hor). split; [done|].
      exists k. rewrite lookup_insert_ne; [done|]. intros ->. congruence.
  - eapply hoare_weaken; [apply hoare_release|simpl|done]. intros s [Hnone _] sock Hs. congruence.
Qed.

Lemma safe_ws_closed ws : safe (ws_closed wsSend ws) (λ _, True).
Proof.
  unfold ws_closed. eapply hoare_bind with (Q := λ _ s, ∀ sock, s.(sockets) !! ws = Some sock → sock.(isOpen) = false).
  { apply hoare_modify. intros s HI _. split_and!; [|by apply heap_le_same|].
    - apply inv_alter_socket; [|done]. intros k. simpl. split_and!; first [done|by right].
    - intros sock. simpl. rewrite lookup_alter_eq. destruct (s.(sockets) !! ws); simpl; [|done]. by intros [= <-]. }
  intros []. eapply hoare_bind; [apply hoare_release|]. intros ?.
  eapply safe_bind; [by apply safe_upd_core|]. intros _ _.
  eapply safe_bind; [by apply safe_upd_core|]. intros _ _.
  eapply hoare_bind with (Q := λ o s, o = getByConnectionId ws s.(connections)); [by apply hoare_gets|].
  intros [c|]; [|by apply hoare_ret].
  eapply hoare_bind with (Q := λ _ _, RelayInvariant.Authenticated config ident c).
  { apply hoare_modify. intros s HI Hc. symmetry in Hc.
    destruct HI as [(live & HR & Hok) H2 H3 H4 H5 H6 H7 H8 H9].
    destruct (proj1 (getByConnectionId_iff _ _ HR ws c) Hc) as [Hin _].
    split_and!; [|by apply heap_le_same|by apply Hok]. split; simpl; try done.
    exists (set_delete c live). split; [by apply rep_delete|]. intros c' [_ Hc']%list_elem_of_filter. by apply Hok. }
  intros []. intros s HI Ha. revert s HI Ha. intros s HI Ha.
  match goal with |- Inv (?m s).2 ∧ _ => cut (safe m (λ _, True)); [intros Hm; by apply Hm|] end.
  eapply safe_bind; [by apply safe_upd_core|]. intros _ _. by apply safe_fanOut.
Qed.

Lemma safe_upd_connections (f : Connections → Connections) :
  (∀ t live, Connections.Rep t live → Connections.Rep (f t) live) →
  safe (modify (upd_connections f)) (λ _, True).
Proof.
  intros Hf. apply hoare_modify. intros s [(live & HR & Hok) H2 H3 H4 H5 H6 H7 H8 H9] _.
  split_and!; [|by apply heap_le_same|done]. split; simpl; try done. exists live. split; [by apply Hf|done].
Qed.

Lemma safe_ws_pong ws : safe (ws_pong time ws) (λ _, True).
Proof.
  eapply safe_bind; [apply safe_getByConnectionId|]. intros [c|] _; [|by apply safe_ret].
  eapply safe_bind; [apply safe_date_now|]. intros t _.
  eapply safe_bind; [by apply safe_upd_core|]. intros _ _.
  eapply safe_bind; [apply safe_date_now|]. intros t2 _.
  apply safe_upd_connections. intros tb live HR. by apply rep_updateLastSeen.
Qed.

Lemma safe_ping_interval : safe (ping_interval config time) (λ _, True).
Proof.
  eapply safe_bind; [apply safe_date_now|]. intros t _.
  eapply safe_bind; [apply safe_getAll|]. intros all _. apply safe_for_each. intros live _.
  eapply safe_bind; [by apply safe_gets with (φ := λ _, True)|]. intros [|] _; [apply safe_ws_close|by apply safe_emit].
Qed.

(** *** The internal routes *)

Lemma safe_purge (f : BusQueue → BusQueue) (p : BusEntry → bool) :
  (∀ q, f q = (removeWhere q p).1) → safe (modify (upd_busQueue f)) (λ _, True).
Proof.
  intros Hf. apply hoare_modify. intros s HI _. destruct (inv_queue _ _ _ HI) as [items HR].
  destruct (removeWhere_rep s.(busQueue) items p HR) as [HR' Hh]. rewrite <-Hf in HR', Hh.
  split_and!; [| |done].
  - apply (inv_upd_queue config ident s (f s.(busQueue))); [done|by eexists|]. rewrite Hh. apply (inv_heap _ _ _ HI).
  - apply heap_le_same. simpl. by rewrite Hh.
Qed.

Lemma safe_ws_send ws m : RelayInvariant.EffectOk config ident (Send ws m) → safe (ws_send wsSend ws m) (λ _, True).
Proof.
  intros He s HI _. split_and!; [|by apply heap_le_same|done].
  apply (inv_same_core config ident s); [done| |done]. simpl. apply Forall_app. split; [apply HI|by apply Forall_singleton].
Qed.

Lemma safe_closeWithLicense c code : safe (closeWithLicense wsSend c code) (λ _, True).
Proof.
  eapply safe_bind; [by apply safe_gets with (φ := λ _, True)|]. intros [|] _; [|by apply safe_ret].
  eapply safe_bind; [by apply safe_ws_send|]. intros _ _.
  eapply safe_bind; [apply safe_ws_close|]. intros _ _. by apply safe_ret.
Qed.

Lemma safe_close_all l code :
  safe (for_each l (λ c, closeWithLicense wsSend c code;; done_)) (λ _, True).
Proof.
  apply safe_for_each. intros c _. eapply safe_bind; [apply safe_closeWithLicense|]. intros _ _. by apply safe_ret.
Qed.

Lemma safe_handleRevoke sig raw : safe (handleRevoke config wsSend sig raw) (λ _, True).
Proof.
  unfold handleRevoke. destruct (verifyAndParse _ _ _ _) as [b|r]; [|by apply safe_ret].
  eapply safe_bind; [by apply safe_upd_core|]. intros _ _.
  eapply safe_bind; [by eapply safe_purge|]. intros _ _.
  eapply safe_bind; [by apply safe_gets with (φ := λ _, True)|]. intros conns _.
  eapply safe_bind; [apply safe_close_all|]. intros _ _. by apply safe_ret.
Qed.

Lemma safe_handleExpire sig raw : safe (handleExpire config wsSend sig raw) (λ _, True).
Proof.
  unfold handleExpire. destruct (verifyAndParse _ _ _ _) as [b|r]; [|by apply safe_ret].
  eapply safe_bind; [by apply safe_upd_core|]. intros _ _.
  eapply safe_bind; [by eapply safe_purge|]. intros _ _.
  eapply safe_bind; [by apply safe_gets with (φ := λ _, True)|]. intros conns _.
  eapply safe_bind; [apply safe_close_all|]. intros _ _. by apply safe_ret.
Qed.

Lemma safe_handleListConnections sig raw : safe (handleListConnections config time sig raw) (λ _, True).
Proof.
  unfold handleListConnections. destruct (verifyAndParse _ _ _ _) as [b|r]; [|by apply safe_ret].
  eapply safe_bind; [apply safe_date_now|]. intros t _. destruct (_ >? _); [by apply safe_ret|].
  eapply safe_bind; [by apply safe_gets with (φ := λ _, True)|]. intros l _. by apply safe_ret.
Qed.

Lemma safe_announce g l failed : safe (announce wsSend g l failed) (λ _, True).
Proof.
  revert failed. induction l as [|c l IH]; intros failed; simpl; [by apply safe_ret|].
  eapply safe_bind; [by apply safe_gets with (φ := λ _, True)|]. intros [|] _; [|apply IH].
  eapply safe_bind; [by apply safe_ws_send|]. intros sent _. apply IH.
Qed.

Lemma safe_handlePeerPolicy sig raw : safe (handlePeerPolicy config time wsSend sig raw) (λ _, True).
Proof.
  unfold handlePeerPolicy. destruct (verifyAndParse _ _ _ _) as [b|r]; [|by apply safe_ret].
  eapply safe_bind; [apply safe_date_now|]. intros t _. destruct (_ >? _); [by apply safe_ret|].
  eapply safe_bind; [by apply safe_gets with (φ := λ _, True)|]. intros conns _.
  eapply safe_bind; [apply safe_announce|]. intros f _. by apply safe_ret.
Qed.
End routes.
