(* ===== verification/Relay.v ===== *)
(** * Relay: the relay as a transition system

    The events the runtime delivers to [relay/src/server.ts], one handler each,
    and the states they reach from a fresh server.  JavaScript runs one handler
    to completion before the next, so a run is a sequence of events; the only
    suspension inside a handler, the license gate that [handleHello] awaits, is
    three events ([EvMessage], [EvGate], [EvResume]) with any others between. *)

From S2P Require Import Prelude JsMap ClientIp SocketAdmissions RateLimiter ReplayCache Liveness Wire RelayAuth Connections License BusQueue.
From S2P Require Import ServerState RelayServer InternalRoutes RelayFrames RelayInvariant RelayPreserves RelayHandlers RelayHandshake RelayRoutes.
Local Open Scope Z_scope.
Local Open Scope js_scope.
Local Open Scope server_scope.

(** ** Events *)

Section system.
Context `{Externals}.

Inductive Event :=
| EvUpgrade (ws : string) (address xff : option string) (host : string) (upgraded : bool)
| EvOpen (ws : string)
| EvHelloTimeout (ws : string)
| EvMessage (ws : string) (message : Frame)
| EvGate (ws : string) (getKeys : string → list JWK + Err)
| EvResume (ws : string)
| EvClose (ws : string)
| EvPong (ws : string)
| EvPing
| EvBusSweep
| EvReplaySweep
| EvPushSettled (n : nat) (r : PushOutcome)
| EvRevoke (signature : option string) (raw : string)
| EvExpire (signature : option string) (raw : string)
| EvPeerPolicy (signature : option string) (raw : string)
| EvListConnections (signature : option string) (raw : string)
| EvHealth (startTime : Z)
| EvMetrics (startTime : Z).

(** [startServer]: nothing connected, nothing queued. *)
Definition initial_server : Server :=
  {| sockets := ∅; connections := no_connections; nextOid := 1%positive;
     admissions := SocketAdmissions.initial; replayCache := JsMap.empty;
     pushRateLimiter := new_windows; jsonRateLimiter := new_buckets;
     busByteLimiter := new_buckets; busRedeliverLimiter := new_buckets;
     busQueue := new_queue; lastDrainAt := JsMap.empty; licenseCache := JsMap.empty;
     liveness := JsMap.empty; helloTimers := ∅; pendingHello := ∅; gateResult := ∅;
     pushes := ∅; nextPush := 0; reads := 0; trace := []; history := [] |}.

Context (config : RelayConfig) (time wsSend : nat → Z) (dropAck : nat → bool).

(** The timer of [ReplayCache]. *)
Definition replay_sweep : M unit :=
  let! t := date_now time in modify (upd_replayCache (ReplayCache.sweep config.(replayTtlMs) t)).

Definition handle (e : Event) : M unit :=
  match e with
  | EvUpgrade ws address xff host upgraded => upgrade config ws address xff host upgraded;; done_
  | EvOpen ws => ws_open ws
  | EvHelloTimeout ws => hello_timeout wsSend ws
  | EvMessage ws f => ws_message config time wsSend dropAck ws f
  | EvGate ws getKeys => hello_settled config ws getKeys
  | EvResume ws => hello_resume config time wsSend ws
  | EvClose ws => ws_closed wsSend ws
  | EvPong ws => ws_pong time ws
  | EvPing => ping_interval config time
  | EvBusSweep => sweepBus config time wsSend
  | EvReplaySweep => replay_sweep
  | EvPushSettled n r => replyPushResult wsSend n r
  | EvRevoke sig raw => handleRevoke config wsSend sig raw;; done_
  | EvExpire sig raw => handleExpire config wsSend sig raw;; done_
  | EvPeerPolicy sig raw => handlePeerPolicy config time wsSend sig raw;; done_
  | EvListConnections sig raw => handleListConnections config time sig raw;; done_
  | EvHealth t => health time t;; done_
  | EvMetrics t => metrics time t;; done_
  end.

(** [crypto.randomUUID()] names a new socket; a gate settles once. *)
Definition allowed (e : Event) (s : Server) : Prop :=
  match e with
  | EvUpgrade ws _ _ _ _ => s.(sockets) !! ws = None
  | EvGate ws _ => s.(gateResult) !! ws = None
  | EvPing => 0 < config.(pingIntervalMs)
  | _ => True
  end.

Inductive Reachable : Server → Prop :=
| reach_init : Reachable initial_server
| reach_step s e : Reachable s → allowed e s → Reachable (handle e s).2.

Definition run_events (s : Server) (es : list Event) : Server := foldl (λ s e, (handle e s).2) s es.

(** Every event of a run is allowed where it happens. *)
Fixpoint all_allowed (s : Server) (es : list Event) : Prop :=
  match es with [] => True | e :: es' => allowed e s ∧ all_allowed (handle e s).2 es' end.

Lemma run_reachable s es : Reachable s → all_allowed s es → Reachable (run_events s es).
Proof.
  revert s. induction es as [|e es IH]; intros s Hs Ha; [done|]. destruct Ha as [He Ha].
  simpl. apply IH; [by apply reach_step|done].
Qed.

(** ** The invariant holds in every reachable state *)

(** A UUID has no NUL. *)
Context (uuid_nul : ∀ s, is_uuid s = true → lacks BusQueue.NUL s = true).

Lemma inv_initial_server ident : Inv config ident initial_server.
Proof.
  split; simpl; try done.
  - exists []. split; [apply Connections.rep_empty|]. by intros c ?%not_elem_of_nil.
  - split; [apply SocketAdmissions.inv_initial|]. by split; [apply Z.le_max_l|intros addr; apply Z.le_max_l].
  - exists []. apply BusQueue.rep_new.
  - split; [apply NoDup_nil_2|]. by intros c ?%not_elem_of_nil.
Qed.

Lemma safe_done {A} ident (m : M A) φ : safe config ident m φ → safe config ident (m;; done_) (λ _, True).
Proof. intros Hm. eapply safe_bind; [exact Hm|]. intros a _. by apply safe_ret. Qed.

Lemma inv_handle ident e s :
  Inv config ident s → allowed e s → foreseen ident (handle e s).2 → Inv config ident (handle e s).2.
Proof.
  assert (∀ m : M unit, safe config ident m (λ _, True) → Inv config ident s → Inv config ident (m s).2) as Hsafe
    by (intros m Hm HI; by apply Hm).
  destruct e; cbn [handle allowed]; intros HI Ha Hf.
  - pose proof (hoare_upgrade config ident ws address xff host upgraded s HI Ha) as (Hi & _).
    unfold bind. by destruct (upgrade config ws address xff host upgraded s).
  - apply (Hsafe _); [|done]. by apply safe_upd_core.
  - apply (Hsafe _); [|done]. apply safe_hello_timeout.
  - apply (Hsafe _); [|done]. by apply safe_ws_message.
  - apply (Hsafe _); [|done]. apply safe_hello_settled.
  - by apply (hoare_hello_resume config ident time wsSend ws s HI (conj I Hf)).
  - apply (Hsafe _); [|done]. apply safe_ws_closed.
  - apply (Hsafe _); [|done]. apply safe_ws_pong.
  - apply (Hsafe _); [|done]. apply safe_ping_interval.
  - apply (Hsafe _); [|done]. by apply safe_sweepBus.
  - apply (Hsafe _); [|done]. eapply safe_bind; [apply safe_date_now|]. intros t _. by apply safe_upd_core.
  - apply (Hsafe _); [|done]. apply safe_replyPushResult.
  - apply (Hsafe _); [|done]. eapply safe_done, safe_handleRevoke.
  - apply (Hsafe _); [|done]. eapply safe_done, safe_handleExpire.
  - apply (Hsafe _); [|done]. eapply safe_done, safe_handlePeerPolicy.
  - apply (Hsafe _); [|done]. eapply safe_done, safe_handleListConnections.
  - apply (Hsafe _); [|done]. eapply safe_done. eapply safe_bind; [apply safe_date_now|].
    intros t _. by apply safe_gets with (φ := λ _, True).
  - apply (Hsafe _); [|done]. eapply safe_done. eapply safe_bind; [apply safe_date_now|].
    intros t _. by apply safe_gets with (φ := λ _, True).
Qed.

(** The events that may change who is connected. *)
Definition membership_event (e : Event) : bool :=
  match e with EvResume _ | EvClose _ | EvPong _ => true | _ => false end.

Lemma keeps_done {A} (m : M A) : keeps roster m → keeps roster (m;; done_).
Proof. intros Hm. apply keeps_bind; [done|]. intros a. apply keeps_ret. Qed.

Lemma roster_kept e : membership_event e = false → keeps roster (handle e).
Proof.
  destruct e; cbn [handle membership_event]; intros He; try done; try apply keeps_done.
  - apply keeps_upgrade.
  - apply keeps_hello_timeout.
  - apply keeps_ws_message.
  - apply keeps_hello_settled.
  - apply keeps_ping_interval.
  - apply keeps_sweepBus.
  - apply keeps_replyPushResult.
  - apply keeps_handleRevoke.
  - apply keeps_handleExpire.
  - apply keeps_handlePeerPolicy.
  - apply keeps_handleListConnections.
Qed.

(** Who was admitted stays in the history. *)
Lemma history_grows e : grows (handle e).
Proof.
  destruct (membership_event e) eqn:He; [|by apply keeps_grows, roster_kept].
  destruct e; try done; [apply grows_hello_resume|apply grows_ws_closed|apply grows_ws_pong].
Qed.

Lemma inv_foreseen ident s : Reachable s → foreseen ident s → Inv config ident s.
Proof.
  induction 1 as [|s e Hs IH He]; intros Hf; [apply inv_initial_server|].
  apply inv_handle; [|done|done]. apply IH. intros c Hc. apply Hf. by apply history_grows.
Qed.

(** The connections a reachable state has admitted are the ones its history lists. *)
Definition admitted_by (s : Server) (c : Connection) : Prop := c ∈ s.(history).

Lemma inv_reachable s : Reachable s → Inv config (admitted_by s) s.
Proof. intros Hs. apply inv_foreseen; [done|]. by intros c Hc. Qed.
End system.

(** * A small relay, run

    A concrete runtime for the parameters of the model, a configuration and a
    run of two agents of one account that meet on the relay and exchange a
    message.  The theorems about reachable states are applied to it. *)

Definition demo_nonce (d : string) : string := "nonce-of-" +:+ (d +:+ "-xxxxxxxxxxxx").

Definition hello_frame (d ts : string) (epoch : Z) : json :=
  JObj [("type", JStr "hello"); ("protocolVersion", JInt 3); ("deviceType", JStr "agent");
        ("deviceId", JStr d); ("name", JStr "laptop"); ("publicKey", JStr ("key-" +:+ d));
        ("epoch", JInt epoch); ("licenseToken", JStr d); ("ts", JStr ts);
        ("nonce", JStr (demo_nonce (d +:+ ts))); ("sig", JStr "sig"); ("bus", JInt 1)].

Definition demo_blob : BusBlob :=
  {| epk := "AAAAAAAAAAAAAAAAAAAAAAAAAAAAAAAAAAAAAAAAAAA=";
     box := "AAAAAAAAAAAAAAAAAAAAAAAAAAAAAAAAAAAAAAAAAAAAAAAA" |}.
Definition demo_ack_sig : string :=
  "AAAAAAAAAAAAAAAAAAAAAAAAAAAAAAAAAAAAAAAAAAAAAAAAAAAAAAAAAAAAAAAAAAAAAAAAAAAAAAAAAAAAAA==".

Definition frames : list (string * json) :=
  [("hello a", hello_frame "a" "100" 1); ("hello b", hello_frame "b" "100" 1);
   ("hello a again", hello_frame "a" "200" 2);
   ("send m to b", JObj [("type", JStr "bus:send"); ("id", JStr "m"); ("to", JStr "b");
      ("blob", JObj [("epk", JStr demo_blob.(epk)); ("box", JStr demo_blob.(box))]); ("ttlMs", JInt 60000)]);
   ("ack m", JObj [("type", JStr "bus:ack"); ("id", JStr "m"); ("outcome", JStr "applied"); ("sig", JStr demo_ack_sig)]);
   ("revoke b", JObj [("deviceId", JStr "b"); ("userId", JStr "u")]);
   ("expire u", JObj [("userId", JStr "u")])].

Definition is_demo_id (s : string) : bool := bool_decide (s = "a") || bool_decide (s = "b") || bool_decide (s = "m").

(** Times are decimal numbers; a key is its own name, repeated up to its
    length; every signature is good; a token names its device. *)
#[export] Instance demo : Externals := {|
  JWK := string;
  VerifyKey := unit;
  kid_of := λ k, Some k;
  importJWK := λ _, inl ();
  jwtVerify := λ token resolve issuer,
    inl (JObj [("deviceUuid", JStr token); ("azp", JStr ("credential " +:+ token)); ("uid", JStr "u");
               ("tier", JStr "pro"); ("pk", JStr ("key-" +:+ token)); ("exp", JInt 9)]);
  json_parse := λ raw, get raw frames;
  date_parse := λ s, Some (dec_value 0 s);
  toISOString := λ n, decimal (Z.to_N n);
  is_uuid := is_demo_id;
  is_datetime := λ s, string_forallb is_digit s;
  sha256 := λ s, s;
  base64_decode := λ _, "0123456789abcdef0123456789abcdef";
  edVerify := λ _ _ _, Some true;
  hmac_sha256_hex := λ secret body, "abcd";
|}.

Definition demo_config : RelayConfig := {|
  maxConnections := 3; rateLimitConnPerIp := 2; pushRateLimitPerSec := 10; jsonRateLimitPerSec := 20;
  jsonRateLimitBurst := 40; clockSkewMs := 300000; replayTtlMs := 600001; pingIntervalMs := 30000;
  pongTimeoutMs := 10000;
  busLimits := {| maxMessagesPerRecipient := 8; maxBytesPerRecipient := 10000; maxMessagesPerSender := 8;
                  maxBytesPerSender := 10000; maxBytesTotal := 100000; maxTtlMs := 21600000 |};
  busSendBytesPerMin := 100000; licenseCacheMaxEntries := 10; licenseIssuerUrl := None;
  licenseApiUrl := "https://antgrid.example"; relayInternalSecret := "secret"; trustedProxyIps := [];
  hasFcmSender := true; hasApnsSender := false;
|}.

(** The clock ticks once per reading; every send succeeds. *)
Definition demo_time (n : nat) : Z := 1000 + Z.of_nat n.
Definition demo_send (n : nat) : Z := 1.
Definition demo_drop (n : nat) : bool := false.

Lemma demo_uuid_nul s : is_uuid s = true → lacks BusQueue.NUL s = true.
Proof.
  simpl. unfold is_demo_id. intros H. apply orb_true_iff in H as [H|H]; [apply orb_true_iff in H as [H|H]|];
    apply bool_decide_eq_true in H; subst; reflexivity.
Qed.

Definition connect (ws addr raw : string) : list Event :=
  [EvUpgrade ws (Some addr) None "relay.example" true; EvOpen ws; EvMessage ws (Text raw);
   EvGate ws (λ _, inl []); EvResume ws].

(** Agents [a] and [b] connect; [a] sends [m] to [b], who acknowledges it. *)
Definition meeting : list Event := connect "1" "192.0.2.1" "hello a" ++ connect "2" "192.0.2.1" "hello b".
Definition exchange : list Event :=
  meeting ++ [EvMessage "1" (Text "send m to b"); EvMessage "2" (Text "ack m")].

Definition demo_run : list Event → Server := run_events demo_config demo_time demo_send demo_drop initial_server.
Abbreviation demo_reachable := (Reachable demo_config demo_time demo_send demo_drop).

Lemma demo_reach es :
  all_allowed demo_config demo_time demo_send demo_drop initial_server es → demo_reachable (demo_run es).
Proof. apply run_reachable. constructor. Qed.
