(* ===== verification/RelaySafety.v ===== *)
(** * RelaySafety: what the relay guarantees in every reachable state

    Isolation of accounts, authentication of connections and the socket caps,
    read off the invariant. *)

From S2P Require Import Prelude JsMap ClientIp SocketAdmissions RateLimiter ReplayCache Liveness.
From S2P Require Import Wire BusQueue RelayAuth License Connections ServerState RelayServer InternalRoutes.
From S2P Require Import RelayFrames RelayInvariant RelayPreserves RelayHandlers RelayHandshake RelayRoutes.
From S2P Require Import Relay.

Local Open Scope Z_scope.
Local Open Scope js_scope.

(** A connection the relay admitted: the holder of its key signed a hello for
    this relay's host, with a licence of its account. *)
Definition party `{Externals} (config : RelayConfig) (s : Server) (c : Connection) : Prop :=
  c ∈ s.(history) ∧ ∃ host, authenticated_for config host c.

(** [c] sits on its own socket: one marked with its device, whose host is the
    one its hello was signed for. *)
Definition seated `{Externals} (config : RelayConfig) (s : Server) (c : Connection) : Prop :=
  ∃ sock, s.(sockets) !! c.(connectionId) = Some sock ∧
    (sock.(phase) = ready ∨ sock.(phase) = closed) ∧
    sock.(wsDeviceId) = Some c.(Connections.deviceId) ∧ authenticated_for config sock.(wsRelayHost) c.

(** The open sockets; those of one address. *)
Definition open_sockets (s : Server) : list (string * Socket) :=
  filter (λ kv, kv.2.(isOpen) = true) (map_to_list s.(sockets)).
Definition open_sockets_of (addr : string) (s : Server) : list (string * Socket) :=
  filter (λ kv, kv.2.(Connections.ip) = addr) (open_sockets s).

Section safety.
Context `{Externals} (config : RelayConfig) (time wsSend : nat → Z) (dropAck : nat → bool).

Abbreviation Reachable := (Relay.Reachable config time wsSend dropAck).

(** C1: accounts are isolated.  In every state the relay can reach, for every
    runtime, clock and outcome of sends: mail was delivered only to the socket
    of an admitted agent that accepts mail, from an admitted agent of the same
    account; an acknowledgement was reported only to an agent of the acker's
    account; presence was announced only within the account and only of agents;
    and a push was sent only on behalf of an admitted agent.  A socket carries
    one admitted connection, so each of these is the one party of that socket. *)
Theorem account_isolation s :
  (∀ i, is_uuid i = true → lacks NUL i = true) → Reachable s →
  NoDup (connectionId <$> s.(history)) ∧
  ∀ e, e ∈ s.(trace) →
    match e with
    | Send ws (BusDeliver i f b) =>
        ∃ sender recipient, party config s sender ∧ party config s recipient ∧
          sender.(Connections.deviceType) = agent ∧ recipient.(Connections.deviceType) = agent ∧
          recipient.(busCapable) = true ∧ recipient.(connectionId) = ws ∧
          sender.(Connections.deviceId) = f ∧ sender.(Connections.uid) = recipient.(Connections.uid)
    | Send ws (BusAcked i t o c sig) =>
        ∃ sender acker, party config s sender ∧ party config s acker ∧
          sender.(Connections.deviceType) = agent ∧ acker.(Connections.deviceType) = agent ∧
          sender.(connectionId) = ws ∧ acker.(Connections.deviceId) = t ∧
          acker.(Connections.uid) = sender.(Connections.uid)
    | Send ws (PeerOnline d) | Send ws (PeerOffline d) =>
        ∃ receiver peer, party config s receiver ∧ party config s peer ∧
          peer.(Connections.deviceType) = agent ∧ receiver.(connectionId) = ws ∧
          peer.(Connections.deviceId) = d ∧ receiver.(Connections.uid) = peer.(Connections.uid)
    | Send ws (Welcome d ep st b) =>
        ∃ c, party config s c ∧ c.(connectionId) = ws ∧ c.(Connections.deviceId) = d
    | PushSend p tok b k => ∃ c, party config s c ∧ c.(Connections.deviceType) = agent
    | _ => True
    end.
Proof.
  intros Hu Hr. pose proof (inv_reachable config time wsSend dropAck Hu s Hr) as HI.
  split; [exact (proj1 (inv_history _ _ _ HI))|]. intros e He.
  pose proof (inv_trace _ _ _ HI) as Ht. rewrite Forall_forall in Ht. pose proof (Ht e He) as Hok. clear Ht.
  destruct e as [ws m| | |]; [|done..|].
  - destruct m; try done.
    + destruct Hok as (c & p & Hc & [Hp ?] & ?). exists c, p. split; [exact Hc|split; [exact Hp|done]].
    + destruct Hok as (c & p & Hc & [Hp ?] & ?). exists c, p. split; [exact Hc|split; [exact Hp|done]].
    + destruct Hok as (r & e & [Hr' ?] & ? & ? & (_ & _ & sd & [Hs ?] & Hsu & Hsf) & ? & ? & ? & ? & ?).
      exists sd, r. split; [exact Hs|split; [exact Hr'|]]. split_and!; congruence.
    + destruct Hok as (sd & a & [Hs ?] & [Ha ?] & ?). exists sd, a.
      split; [exact Hs|split; [exact Ha|]]. naive_solver.
  - destruct Hok as (c & [Hc ?]). exists c. split; [exact Hc|done].
Qed.

(** C2: only authenticated devices hold connections.  Every live connection of
    a reachable state sits on a socket marked with its device; the hello that
    made it was signed by its key over the very host that socket was opened to,
    with a licence token that verified for its account and, for an agent, was
    bound to its device and key; and it is the only holder of its device id and
    of its socket. *)
Theorem live_connections_authenticated s c :
  (∀ i, is_uuid i = true → lacks NUL i = true) → Reachable s → c ∈ getAll s.(connections) →
  seated config s c ∧
  c ∈ s.(history) ∧
  getByDeviceId c.(Connections.deviceId) s.(connections) = Some c ∧
  getByConnectionId c.(connectionId) s.(connections) = Some c.
Proof.
  intros Hu Hr Hc. pose proof (inv_reachable config time wsSend dropAck Hu s Hr) as HI.
  destruct (inv_conns _ _ _ HI) as (live & HR & Hok). rewrite (getAll_rep _ _ HR) in Hc.
  destruct (Hok c Hc) as ([Hh _] & _ & sock & Hs). split_and!; [by exists sock|exact Hh|..].
  - by apply (getByDeviceId_iff _ _ HR).
  - by apply (getByConnectionId_iff _ _ HR).
Qed.

(** *** The caps *)

Lemma open_reserved ident s ws sock :
  Inv config ident s → (ws, sock) ∈ open_sockets s →
  (ws, sock.(Connections.ip)) ∈ s.(admissions).(reservations).
Proof.
  intros HI [Ho Hin]%list_elem_of_filter. apply elem_of_map_to_list in Hin.
  by apply get_Some_elem, (inv_open _ _ _ HI).
Qed.

Definition reservation_of (kv : string * Socket) : string * string := (kv.1, kv.2.(Connections.ip)).

Lemma NoDup_reservations s : NoDup (reservation_of <$> open_sockets s).
Proof.
  apply (NoDup_fmap_1 fst). rewrite <-list_fmap_compose. change (fst ∘ reservation_of) with (@fst string Socket).
  eapply sublist_NoDup; [apply (NoDup_fst_map_to_list s.(sockets))|]. apply (fmap_sublist fst). unfold open_sockets. apply sublist_filter.
Qed.

Lemma filter_submseteq {A} (P : A → Prop) `{∀ x, Decision (P x)} (l k : list A) :
  l ⊆+ k → filter P l ⊆+ filter P k.
Proof.
  intros [k' Hk]%submseteq_Permutation. rewrite Hk, filter_app. apply submseteq_inserts_r. done.
Qed.

(** Every open socket has its own reservation. *)
Lemma open_submseteq ident s :
  Inv config ident s → reservation_of <$> open_sockets s ⊆+ s.(admissions).(reservations).
Proof.
  intros HI. apply NoDup_submseteq; [apply NoDup_reservations|].
  intros x (kv & -> & Hkv)%list_elem_of_fmap. destruct kv. by apply (open_reserved ident).
Qed.

(** C16: the socket caps hold.  Whatever happens, the relay never has more than
    [maxConnections] open sockets, nor more than [rateLimitConnPerIp] of one
    client address: an open socket always still holds its reservation. *)
Theorem open_sockets_capped s addr :
  (∀ i, is_uuid i = true → lacks NUL i = true) → Reachable s →
  Z.of_nat (length (open_sockets s)) <= Z.max 0 config.(maxConnections) ∧
  Z.of_nat (length (open_sockets_of addr s)) <= Z.max 0 config.(rateLimitConnPerIp).
Proof.
  intros Hu Hr. pose proof (inv_reachable config time wsSend dropAck Hu s Hr) as HI.
  destruct (inv_capped _ _ _ HI) as (HA & Hg & Hip). pose proof (open_submseteq _ s HI) as Hsub. split.
  - pose proof (submseteq_length _ _ Hsub) as Hl. rewrite length_fmap in Hl.
    unfold size_, size in Hg. lia.
  - specialize (Hip addr). unfold countForIp in Hip. rewrite inv_count in Hip by done.
    pose proof (submseteq_length _ _ (filter_submseteq (λ kv, kv.2 = addr) _ _ Hsub)) as Hl.
    rewrite filter_fmap, length_fmap in Hl. unfold held in Hip. unfold open_sockets_of.
    etrans; [|exact Hip]. unfold compose in Hl. simpl in Hl. lia.
Qed.
End safety.

(** *** The witnesses *)

Lemma account_isolation_witness :
  let s := demo_run exchange in
  demo_reachable s ∧
  ∃ sender recipient, party demo_config s sender ∧ party demo_config s recipient ∧
    recipient.(connectionId) = "2" ∧ sender.(Connections.deviceId) = "a" ∧
    sender.(Connections.uid) = recipient.(Connections.uid).
Proof.
  intros s. assert (demo_reachable s) as Hs by (apply demo_reach; vm_compute; tauto).
  split; [exact Hs|].
  destruct (account_isolation demo_config demo_time demo_send demo_drop s demo_uuid_nul Hs) as [_ H].
  assert (Send "2" (BusDeliver "m" "a" demo_blob) ∈ s.(trace)) as Hin.
  { apply list_elem_of_In. vm_compute. tauto. }
  destruct (H _ Hin) as (sd & r & H1 & H2 & _ & _ & _ & H3 & H4 & H5). exists sd, r. auto.
Defined.

Lemma live_connections_authenticated_witness :
  let s := demo_run meeting in
  demo_reachable s ∧
  match getByConnectionId "2" s.(connections) with
  | Some c => getByDeviceId c.(Connections.deviceId) s.(connections) = Some c ∧ c.(Connections.deviceId) = "b"
  | None => False
  end.
Proof.
  intros s. assert (demo_reachable s) as Hs by (apply demo_reach; vm_compute; tauto).
  split; [exact Hs|].
  destruct (getByConnectionId "2" s.(connections)) as [c|] eqn:Hc; [|vm_compute in Hc; discriminate].
  assert (c ∈ getAll s.(connections)) as Hin.
  { apply list_elem_of_In. revert Hc. vm_compute. intros [= <-]. tauto. }
  destruct (live_connections_authenticated demo_config demo_time demo_send demo_drop s c demo_uuid_nul Hs Hin)
    as (_ & _ & H & _).
  split; [exact H|]. revert Hc. vm_compute. by intros [= <-].
Defined.

(** A third socket of the same address is refused. *)
Lemma open_sockets_capped_witness :
  let s := demo_run (meeting ++ [EvUpgrade "3" (Some "192.0.2.1") None "relay.example" true]) in
  demo_reachable s ∧ length (open_sockets s) = 2%nat ∧
  Z.of_nat (length (open_sockets_of "192.0.2.1" s)) <= Z.max 0 demo_config.(rateLimitConnPerIp).
Proof.
  intros s. assert (demo_reachable s) as Hs by (apply demo_reach; vm_compute; tauto).
  split; [exact Hs|]. split; [vm_compute; reflexivity|].
  apply (open_sockets_capped demo_config demo_time demo_send demo_drop s "192.0.2.1" demo_uuid_nul Hs).
Defined.
