(* ===== verification/RelayStrangers.v ===== *)
(** * RelayStrangers: a socket that is not admitted

    Until its hello is accepted a socket can make the relay write to it and
    close it, and nothing more: no other socket, connection, mailbox, limiter or
    push is touched.  [local_to ws] is the predicate of such steps, closed under
    the monad like [keeps]. *)

From S2P Require Import Prelude JsMap ClientIp SocketAdmissions RateLimiter ReplayCache Liveness.
From S2P Require Import Wire BusQueue RelayAuth License Connections ServerState RelayServer InternalRoutes.
From S2P Require Import RelayFrames RelayInvariant RelayPreserves RelayHandlers RelayHandshake RelayRoutes.
From S2P Require Import Relay.

Local Open Scope Z_scope.
Local Open Scope js_scope.
Local Open Scope server_scope.

(** What does not belong to [ws]. *)
Definition surroundings (ws : string) (s : Server) :=
  (s.(connections), s.(history), s.(busQueue), s.(liveness), s.(lastDrainAt), s.(pushes),
   (s.(pushRateLimiter), s.(jsonRateLimiter), s.(busByteLimiter), s.(busRedeliverLimiter)),
   s.(admissions), base.delete ws s.(sockets), base.delete ws s.(pendingHello), base.delete ws s.(gateResult),
   s.(helloTimers) ∖ {[ws]}).

(** An error written to [ws], or its closing. *)
Definition refusal (ws : string) (e : Effect) : Prop :=
  match e with
  | Send w (ErrorMessage _ _ _ _) => w = ws
  | CloseSocket w _ _ => w = ws
  | _ => False
  end.

Definition local_to {A} (ws : string) (m : M A) : Prop := ∀ s,
  surroundings ws (m s).2 = surroundings ws s ∧
  ∃ out, (m s).2.(trace) = s.(trace) ++ out ∧ Forall (refusal ws) out.

Lemma local_silent {A} ws (m : M A) :
  (∀ s, surroundings ws (m s).2 = surroundings ws s) → (∀ s, (m s).2.(trace) = s.(trace)) → local_to ws m.
Proof. intros Hs Ht s. split; [done|]. exists []. rewrite Ht, app_nil_r. by split. Qed.

Lemma local_ret {A} ws (a : A) : local_to ws (ret a).
Proof. by apply local_silent. Qed.

Lemma local_gets {A} ws (f : Server → A) : local_to ws (gets f).
Proof. by apply local_silent. Qed.

Lemma local_bind {A B} ws (m : M A) (k : A → M B) :
  local_to ws m → (∀ a, local_to ws (k a)) → local_to ws (bind m k).
Proof.
  intros Hm Hk s. unfold bind. destruct (Hm s) as (H1 & out1 & T1 & F1). destruct (m s) as [a s1]. simpl in *.
  destruct (Hk a s1) as (H2 & out2 & T2 & F2). split; [congruence|]. exists (out1 ++ out2).
  rewrite T2, T1, app_assoc. split; [done|]. by apply Forall_app.
Qed.

Lemma local_emit ws e : refusal ws e → local_to ws (emit e).
Proof. intros He s. split; [done|]. exists [e]. split; [done|]. by constructor. Qed.

Lemma local_modify ws f :
  (∀ s, surroundings ws (f s) = surroundings ws s) → (∀ s, (f s).(trace) = s.(trace)) → local_to ws (modify f).
Proof. apply (local_silent ws (modify f)). Qed.

Section strangers.
Context `{Externals} (config : RelayConfig) (time wsSend : nat → Z) (dropAck : nat → bool).

Lemma delete_alter_self {A} (f : A → A) (k : string) (m : gmap string A) :
  base.delete k (alter f k m) = base.delete k m.
Proof.
  apply map_eq. intros j. destruct (decide (j = k)) as [->|Hne]; [by rewrite !lookup_delete_eq|].
  by rewrite !lookup_delete_ne, lookup_alter_ne by done.
Qed.

Lemma delete_insert_self {A} (k : string) (a : A) (m : gmap string A) : base.delete k (<[k := a]> m) = base.delete k m.
Proof.
  apply map_eq. intros j. destruct (decide (j = k)) as [->|Hne]; [by rewrite !lookup_delete_eq|].
  by rewrite !lookup_delete_ne, lookup_insert_ne by done.
Qed.

Lemma local_alter f ws : local_to ws (modify (upd_sockets (alter f ws))).
Proof. apply local_modify; [|done]. intros s. unfold surroundings. simpl. by rewrite delete_alter_self. Qed.

Lemma local_sendError ws c t r st : local_to ws (sendError wsSend ws c t r st).
Proof.
  unfold sendError, sendJson. apply local_bind; [|intros ?; apply local_ret].
  apply local_bind; [apply local_gets|]. intros [|]; [|apply local_ret].
  intros s. split; [done|]. eexists [_]. split; [done|]. by constructor.
Qed.

Lemma local_sendErrorAndClose ws c t r cc st : local_to ws (sendErrorAndClose wsSend ws c t r cc st).
Proof.
  unfold sendErrorAndClose, set_phase, ws_close. apply local_bind; [apply local_sendError|intros []].
  apply local_bind; [apply local_alter|intros []]. apply local_bind; [apply local_alter|intros []]. by apply local_emit.
Qed.

Lemma local_date_now ws : local_to ws (date_now time).
Proof. by apply local_silent. Qed.

Lemma local_hello_begin ws raw : local_to ws (hello_begin config time wsSend ws raw).
Proof.
  unfold hello_begin. destruct (json_parse raw) as [j|]; [|apply local_sendErrorAndClose].
  destruct (HelloMessage_parse is_datetime j) as [hello|]; [|apply local_sendErrorAndClose].
  apply local_bind; [apply local_date_now|]. intros now.
  destruct (date_parse (h_ts hello)) as [tsMs|]; [|apply local_sendErrorAndClose].
  destruct (_ >? _); [apply local_sendErrorAndClose|].
  apply local_bind; [apply local_gets|]. intros host.
  destruct (negb _); [apply local_sendErrorAndClose|].
  apply local_bind; [apply local_date_now|]. intros seen. apply local_bind; [apply local_gets|]. intros cache.
  destruct (checkAndRecord _ _ _ _ _ _) as [cache' fresh].
  apply local_bind; [by apply local_modify|]. intros [].
  destruct (negb fresh); [apply local_sendErrorAndClose|].
  apply local_modify; [|done]. intros s. unfold surroundings. simpl. by rewrite delete_insert_self.
Qed.

Lemma local_hello_settled ws getKeys : local_to ws (hello_settled config ws getKeys).
Proof.
  unfold hello_settled. apply local_bind; [apply local_gets|]. intros [p|]; [|apply local_ret].
  apply local_bind; [apply local_gets|]. intros cache.
  destruct (match h_deviceType _ with agent => _ | app => _ end) as [cache' result].
  apply local_bind; [by apply local_modify|]. intros [].
  apply local_modify; [|done]. intros s. unfold surroundings. simpl. by rewrite delete_insert_self.
Qed.

Lemma local_hello_timeout ws : local_to ws (hello_timeout wsSend ws).
Proof.
  unfold hello_timeout. apply local_bind; [apply local_gets|]. intros armed. apply local_bind; [apply local_gets|].
  intros ph. destruct (_ && _); [apply local_sendErrorAndClose|apply local_ret].
Qed.

(** The events of one socket before it is admitted. *)
Definition stranger_event (e : Event) (ws : string) : Prop :=
  match e with
  | EvMessage w _ | EvOpen w | EvHelloTimeout w | EvGate w _ => w = ws
  | _ => False
  end.

(** C14: a socket that is not admitted reaches nobody.  Whatever frames it
    sends, when its timer fires and however its licence check turns out, the
    relay's state apart from that socket, its pending handshake, the replay
    cache and the licence cache is unchanged, and the only effects are error
    frames to it and its closing. *)
Theorem strangers_reach_nobody ws e s :
  stranger_event e ws → phase_of ws s ≠ Some ready →
  let s' := (handle config time wsSend dropAck e s).2 in
  surroundings ws s' = surroundings ws s ∧
  ∃ out, s'.(trace) = s.(trace) ++ out ∧ Forall (refusal ws) out.
Proof.
  intros He Hph. destruct e; simpl in He; try done; subst ws0; cbn [handle].
  - apply local_modify; [|done]. intros s'. unfold surroundings. simpl.
    by assert (({[ws]} ∪ s'.(helloTimers)) ∖ {[ws]} = s'.(helloTimers) ∖ {[ws]}) as -> by set_solver.
  - apply local_hello_timeout.
  - unfold ws_message, bind, gets. cbn [fst snd].
    destruct (phase_of ws s) as [[| | |]|]; [|apply local_sendErrorAndClose|done|apply local_ret..].
    destruct message as [raw|]; [|apply local_sendErrorAndClose].
    apply (local_bind ws (set_phase ws authenticating)); [apply local_alter|]. intros []. apply local_hello_begin.
  - apply local_hello_settled.
Qed.
End strangers.

(** A binary first frame. *)
Lemma strangers_reach_nobody_witness :
  let s := demo_run (meeting ++ [EvClose "1"; EvUpgrade "3" (Some "192.0.2.9") None "relay.example" true]) in
  let s' := (handle demo_config demo_time demo_send demo_drop (EvMessage "3" Binary) s).2 in
  phase_of "3" s = Some awaiting_hello ∧ surroundings "3" s' = surroundings "3" s ∧
  ∃ out, s'.(trace) = s.(trace) ++ out ∧ Forall (refusal "3") out.
Proof.
  intros s s'. assert (phase_of "3" s ≠ Some ready) as Hph by (vm_compute; discriminate).
  split; [vm_compute; reflexivity|].
  exact (strangers_reach_nobody demo_config demo_time demo_send demo_drop "3" (EvMessage "3" Binary) s eq_refl Hph).
Defined.
