(* ===== verification/RelayTakeover.v ===== *)
(** * RelayTakeover: who may take over a device id

    A device id has at most one live connection.  This file shows by what
    events, and under what conditions, its holder changes. *)

From S2P Require Import Prelude JsMap ClientIp SocketAdmissions RateLimiter ReplayCache Liveness.
From S2P Require Import Wire BusQueue RelayAuth License Connections ServerState RelayServer InternalRoutes.
From S2P Require Import RelayFrames RelayInvariant RelayPreserves RelayHandlers RelayHandshake RelayRoutes.
From S2P Require Import Relay.

Local Open Scope Z_scope.
Local Open Scope js_scope.
Local Open Scope server_scope.

(** ** The table *)

Lemma holder_remove c d t :
  getByDeviceId d (Connections.remove c t) = getByDeviceId d t ∨ getByDeviceId d (Connections.remove c t) = None.
Proof.
  unfold getByDeviceId, Connections.remove. simpl. destruct (get c.(Connections.deviceId) t.(byDeviceId)) as [c0|]; [|by left].
  case_decide; [|by left]. rewrite get_delete. case_decide; auto.
Qed.

Lemma holder_remove_ne c d t :
  c.(Connections.deviceId) ≠ d → getByDeviceId d (Connections.remove c t) = getByDeviceId d t.
Proof.
  intros Hne. unfold getByDeviceId, Connections.remove. simpl.
  destruct (get c.(Connections.deviceId) t.(byDeviceId)) as [c0|]; [|done].
  case_decide; [|done]. rewrite get_delete_ne by congruence. done.
Qed.

Lemma holder_insert c seen d t :
  getByDeviceId d (Connections.insert c seen t) =
    if decide (d = c.(Connections.deviceId)) then Some c else getByDeviceId d t.
Proof. unfold getByDeviceId, Connections.insert. simpl. apply get_set. Qed.

Lemma holder_updateLastSeen i n d t : getByDeviceId d (updateLastSeen i n t) = getByDeviceId d t.
Proof. unfold getByDeviceId, updateLastSeen. by destruct (get i t.(byDeviceId)). Qed.

(** [c'] holds the key of [c], with a hello not older, not a copy of the one
    [c] was made by, and an epoch not lower. *)
Definition supersedes (c' c : Connection) : Prop :=
  c'.(Connections.publicKey) = c.(Connections.publicKey) ∧ c.(helloTs) <= c'.(helloTs) ∧
  c'.(helloNonce) ≠ c.(helloNonce) ∧ c.(Connections.epoch) <= c'.(Connections.epoch).

Section takeover.
Context `{Externals} (config : RelayConfig) (time wsSend : nat → Z) (dropAck : nat → bool).

(** ** Step 6 of the handshake *)

(** What a hello must be to replace the live holder [c] of its device id. *)
Definition may_replace (p : PendingHello) (c : Connection) : Prop :=
  p.(p_hello).(h_publicKey) = c.(Connections.publicKey) ∧ c.(helloTs) <= p.(p_tsMs) ∧
  p.(p_hello).(h_nonce) ≠ c.(helloNonce) ∧ c.(Connections.epoch) <= p.(p_hello).(h_epoch).

Lemma close_shuts w code text retry cc st s :
  is_open w (sendErrorAndClose wsSend w code text retry cc st s).2 = false ∧
  (sendErrorAndClose wsSend w code text retry cc st s).2.(connections) = s.(connections).
Proof.
  unfold sendErrorAndClose, sendError, sendJson, set_phase, ws_close, bind, gets, modify, emit, is_open. simpl.
  destruct (match s.(sockets) !! w with Some sock => isOpen sock | None => false end); simpl;
    (split; [|done]); rewrite lookup_alter_eq; by destruct (alter (with_phase closed) w s.(sockets) !! w).
Qed.

(** Arbitration lets a hello through only when its device has no holder or one
    it may replace, which it then removes and closes; nobody else is removed. *)
Lemma arbitrate_spec ws p s go s' :
  arbitrate wsSend ws p s = (go, s') →
  match getByDeviceId p.(p_hello).(h_deviceId) s.(connections) with
  | None => go = true ∧ s' = s
  | Some c =>
      if go then may_replace p c ∧ s'.(connections) = Connections.remove c s.(connections) ∧
                 is_open c.(connectionId) s' = false
      else s'.(connections) = s.(connections)
  end.
Proof.
  assert (∀ code text retry cc st, (sendErrorAndClose wsSend ws code text retry cc st;; ret false) s = (go, s') →
    go = false ∧ s'.(connections) = s.(connections)) as Hrefuse.
  { intros code text retry cc st. unfold bind at 1. pose proof (close_shuts ws code text retry cc st s) as [_ Hc].
    destruct (sendErrorAndClose _ _ _ _ _ _ _ s). by intros [= <- <-]. }
  unfold arbitrate. unfold bind at 1, gets at 1. cbv beta iota.
  destruct (getByDeviceId _ s.(connections)) as [c|]; [|by intros [= <- <-]]. unfold may_replace.
  destruct (bool_decide_reflect (h_publicKey (p_hello p) = c.(Connections.publicKey))) as [Hk|]; simpl negb; cbv iota.
  2: { by intros [-> ?]%Hrefuse. }
  destruct ((p_tsMs p <? helloTs c) || bool_decide (h_nonce (p_hello p) = helloNonce c)) eqn:Hb.
  { by intros [-> ?]%Hrefuse. }
  apply orb_false_iff in Hb as [Ht Hn]. apply Z.ltb_ge in Ht. apply bool_decide_eq_false in Hn.
  destruct (Z.geb_spec (h_epoch (p_hello p)) (Connections.epoch c)) as [He|He]; [|by intros [-> ?]%Hrefuse].
  unfold bind, modify, ret. cbn [negb]. cbv beta iota.
  match goal with |- context [sendErrorAndClose wsSend ?w ?a ?b ?d ?e ?f ?x] =>
    destruct (close_shuts w a b d e f x) as [H1 H2]; destruct (sendErrorAndClose wsSend w a b d e f x) as [u s1] end.
  intros [= <- <-]. done.
Qed.

(** What follows a favourable arbitration leaves every holder but the new one
    in place. *)
Lemma admit_greet_spec ws p u s :
  ∃ conn s', (let! conn := admit_connection ws p u in greet config time wsSend conn p) s = ((), s') ∧
    conn = new_connection ws p u s.(nextOid) ∧
    s'.(connections) = Connections.insert conn p.(p_now) s.(connections) ∧
    s'.(sockets) = alter (admitted_as p.(p_hello).(h_deviceId)) ws s.(sockets).
Proof.
  set (conn := new_connection ws p u s.(nextOid)). exists conn. set (s1 := (admit_connection ws p u s).2).
  exists (greet config time wsSend conn p s1).2.
  pose proof (keeps_greet config time wsSend roster conn p s1) as Hr. injection Hr as -> _.
  rewrite (keeps_greet config time wsSend sockets conn p s1). split_and!; [|done..].
  unfold bind at 1. change (admit_connection ws p u s) with (conn, s1). cbv beta iota.
  by destruct (greet config time wsSend conn p s1) as [[] s2].
Qed.

Lemma is_open_admitted d ws w s s' :
  s'.(sockets) = alter (admitted_as d) ws s.(sockets) → is_open w s' = is_open w s.
Proof.
  intros Hs. unfold is_open. rewrite Hs, lookup_alter. case_decide; [subst w|done].
  by destruct (s.(sockets) !! ws).
Qed.

(** A handshake that ends in admission, from the state it is admitted in. *)
Definition admission (ws : string) (p : PendingHello) (entry : LicenseCacheEntry) (s s' : Server) : Prop :=
  ∃ conn t, conn = new_connection ws p entry.(e_userId) conn.(oid) ∧
    s'.(connections) = Connections.insert conn p.(p_now) t ∧
    match getByDeviceId p.(p_hello).(h_deviceId) s.(connections) with
    | None => t = s.(connections)
    | Some c => may_replace p c ∧ t = Connections.remove c s.(connections) ∧ is_open c.(connectionId) s' = false
    end.

Lemma admission_tail ws p entry s u s' :
  (let! go := arbitrate wsSend ws p in
   if go then (let! conn := admit_connection ws p entry.(e_userId) in greet config time wsSend conn p)
   else done_) s = (u, s') →
  s'.(connections) = s.(connections) ∨ admission ws p entry s s'.
Proof.
  unfold bind at 1. destruct (arbitrate wsSend ws p s) as [go s1] eqn:Harb.
  pose proof (arbitrate_spec _ _ _ _ _ Harb) as Ha. destruct go; simpl.
  - destruct (admit_greet_spec ws p entry.(e_userId) s1) as (conn & s2 & -> & Hconn & Hc & Hs). intros [= _ <-]. right.
    exists conn, s1.(connections). subst conn. split_and!; [done|exact Hc|].
    destruct (getByDeviceId _ s.(connections)) as [c|]; [|destruct Ha as [_ ?]; by subst s1].
    destruct Ha as (H1 & H2 & H3). split_and!; [done|done|]. by rewrite (is_open_admitted _ _ _ _ _ Hs).
  - intros [= _ <-]. left. destruct (getByDeviceId _ s.(connections)) as [c|]; [done|]. by destruct Ha.
Qed.

Lemma resume_spec ws s u s' :
  hello_resume config time wsSend ws s = (u, s') →
  s'.(connections) = s.(connections) ∨
  ∃ p entry, s.(pendingHello) !! ws = Some p ∧ s.(gateResult) !! ws = Some (inl entry) ∧
    phase_of ws s = Some authenticating ∧ is_open ws s = true ∧ admission ws p entry s s'.
Proof.
  unfold hello_resume. unfold bind at 1 2, gets at 1 2. cbv beta iota.
  destruct (s.(pendingHello) !! ws) as [p|] eqn:Hp; [|by intros [= _ <-]; left].
  destruct (s.(gateResult) !! ws) as [res|] eqn:Hg; [|by intros [= _ <-]; left].
  unfold bind at 1 2, modify at 1 2. cbv beta iota.
  set (s1 := upd_pendingHello _ _).
  destruct res as [entry|code].
  2: { intros Heq. left. pose proof (close_shuts ws (license_error code) (license_text code)
         (bool_decide (code = UNAVAILABLE)) 1008 None s1) as [_ Hc]. by rewrite Heq in Hc. }
  unfold bind at 1 2, gets at 1 2. cbv beta iota.
  destruct (negb _ || negb _) eqn:Hb; [by intros [= _ <-]; left|].
  apply orb_false_iff in Hb as [Hph Hop]. apply negb_false_iff, bool_decide_eq_true in Hph. apply negb_false_iff in Hop.
  intros [Hsame|Hadm]%admission_tail; [by left|]. right. by exists p, entry.
Qed.

(** C3: a device id changes hands only by its own key, forward in time.  If in
    a reachable state [c] holds a device id and after an event another
    connection [c'] does, the event ended the handshake of [c']'s socket, whose
    licence had been verified; [c'] presented [c]'s public key, a hello no older
    than [c]'s with another nonce, and an epoch not below [c]'s; and [c]'s
    socket is closed. *)
Theorem takeover_needs_the_key s e d c c' :
  (∀ i, is_uuid i = true → lacks NUL i = true) → Reachable config time wsSend dropAck s →
  let s' := (handle config time wsSend dropAck e s).2 in
  getByDeviceId d s.(connections) = Some c → getByDeviceId d s'.(connections) = Some c' → c' ≠ c →
  e = EvResume c'.(connectionId) ∧
  (∃ p entry, s.(pendingHello) !! c'.(connectionId) = Some p ∧
     s.(gateResult) !! c'.(connectionId) = Some (inl entry) ∧ c'.(Connections.uid) = entry.(e_userId)) ∧
  supersedes c' c ∧ is_open c.(connectionId) s' = false.
Proof.
  intros Hu Hr s' Hc Hc' Hne. pose proof (inv_reachable config time wsSend dropAck Hu s Hr) as HI.
  destruct (inv_conns _ _ _ HI) as (live & HR & _).
  destruct (membership_event e) eqn:He.
  2: { pose proof (roster_kept config time wsSend dropAck e He s) as Hk. injection Hk as Hk _.
       unfold s' in Hc'. rewrite Hk in Hc'. congruence. }
  destruct e as [| | | | |ws|ws|ws| | | | | | | | | |]; try done.
  - destruct (hello_resume config time wsSend ws s) as [u s2] eqn:Heq0. assert (s' = s2) as Hs' by (unfold s'; cbn [handle]; by rewrite Heq0).
    destruct (resume_spec ws s u s2 Heq0) as [Hsame|(p & entry & Hp & Hg & Hph & Hop & conn & t & Hconn & Ht & Hm)].
    { rewrite Hs', Hsame in Hc'. congruence. }
    rewrite Hs', Ht, holder_insert in Hc'.
    assert (conn.(Connections.deviceId) = p.(p_hello).(h_deviceId)) as Hd by (by rewrite Hconn).
    case_decide as Heq.
    + injection Hc' as <-. rewrite <-Hd, <-Heq, Hc in Hm. destruct Hm as ((M1 & M2 & M3 & M4) & -> & Hcl).
      rewrite Hconn, Hs'. unfold supersedes. simpl. split_and!; try done. by exists p, entry.
    + exfalso. destruct (getByDeviceId (h_deviceId (p_hello p)) s.(connections)) as [c0|] eqn:H0.
      * destruct Hm as (_ & -> & _). destruct (proj1 (getByDeviceId_iff _ _ HR _ c0) H0) as [_ Hd0].
        rewrite holder_remove_ne in Hc' by congruence. congruence.
      * subst t. congruence.
  - exfalso. revert Hc'. unfold s'. cbn [handle]. unfold ws_closed, bind, modify, gets. cbn [fst snd].
    simpl. destruct (getByConnectionId ws s.(connections)) as [c0|]; simpl; [|congruence].
    match goal with |- context [fanOutAgentPresence wsSend c0 false ?x] =>
      pose proof (keeps_fanOut wsSend roster c0 false x) as Hk; injection Hk as -> _ end. simpl.
    destruct (holder_remove c0 d s.(connections)) as [->| ->]; congruence.
  - exfalso. revert Hc'. unfold s'. cbn [handle]. unfold ws_pong, bind, modify, gets. cbn [fst snd].
    destruct (getByConnectionId ws s.(connections)) as [c0|]; simpl; [|congruence].
    rewrite holder_updateLastSeen. congruence.
Qed.
End takeover.

(** Agent [a] reconnects from elsewhere, with a newer hello. *)
Lemma takeover_needs_the_key_witness :
  let s := demo_run (meeting ++ take 4 (connect "3" "192.0.2.9" "hello a again")) in
  demo_reachable s ∧
  match getByDeviceId "a" s.(connections),
        getByDeviceId "a" (handle demo_config demo_time demo_send demo_drop (EvResume "3") s).2.(connections) with
  | Some c, Some c' => c.(connectionId) = "1" ∧ c'.(connectionId) = "3" ∧
                       c'.(Connections.publicKey) = c.(Connections.publicKey)
  | _, _ => False
  end.
Proof.
  intros s. assert (demo_reachable s) as Hs by (apply demo_reach; vm_compute; tauto).
  split; [exact Hs|].
  destruct (getByDeviceId "a" s.(connections)) as [c|] eqn:Hc; [|vm_compute in Hc; discriminate].
  destruct (getByDeviceId "a" (handle demo_config demo_time demo_send demo_drop (EvResume "3") s).2.(connections))
    as [c'|] eqn:Hc'; [|vm_compute in Hc'; discriminate].
  assert (c' ≠ c) as Hne by (revert Hc Hc'; vm_compute; intros [= <-] [= <-]; discriminate).
  destruct (takeover_needs_the_key demo_config demo_time demo_send demo_drop s (EvResume "3") "a" c c'
    demo_uuid_nul Hs Hc Hc' Hne) as (_ & _ & (Hk & _) & _).
  split_and!; [revert Hc; vm_compute; by intros [= <-]|revert Hc'; vm_compute; by intros [= <-]|exact Hk].
Defined.
