(* ===== verification/RelayMail.v ===== *)
(** * RelayMail: every message sent gets one verdict

    The bus promises a sender exactly one answer per [bus:send]: a receipt, or a
    refusal that says why.  The proof runs the handler symbolically by the
    weakest precondition [wp] of a computation at a state. *)

From S2P Require Import Prelude JsMap ClientIp SocketAdmissions RateLimiter ReplayCache Liveness.
From S2P Require Import Wire BusQueue RelayAuth License Connections ServerState RelayServer InternalRoutes.
From S2P Require Import RelayFrames RelayInvariant RelayPreserves RelayHandlers RelayHandshake RelayRoutes.
From S2P Require Import Relay.

Local Open Scope Z_scope.
Local Open Scope js_scope.
Local Open Scope server_scope.

(** ** Symbolic execution *)

Definition wp {A} (m : M A) (Φ : A → Server → Prop) (s : Server) : Prop := let '(a, s') := m s in Φ a s'.

Lemma wp_bind {A B} (m : M A) (k : A → M B) Φ s : wp m (λ a, wp (k a) Φ) s → wp (bind m k) Φ s.
Proof. unfold wp, bind. by destruct (m s). Qed.

Lemma wp_mono {A} (m : M A) (Φ Ψ : A → Server → Prop) s :
  wp m Φ s → (∀ a s', Φ a s' → Ψ a s') → wp m Ψ s.
Proof. unfold wp. destruct (m s). auto. Qed.

(** What sending mail reads, and what it has said. *)
Definition mail_view (s : Server) :=
  (s.(sockets), s.(connections), s.(busQueue), s.(trace)).

Lemma wp_quiet {A} (m : M A) Φ s :
  keeps mail_view m → (∀ a s', mail_view s' = mail_view s → Φ a s') → wp m Φ s.
Proof. intros Hm HΦ. unfold wp. specialize (Hm s). destruct (m s) as [a s']. by apply HΦ. Qed.

(** ** Verdicts *)

(** An answer to [ws] about the message [i] for [t]. *)
Definition verdict (ws i t : string) (e : Effect) : bool :=
  match e with
  | Send w (BusReceipt i' t' _) | Send w (BusRefused i' t' _ _) =>
      bool_decide (w = ws) && bool_decide (i' = i) && bool_decide (t' = t)
  | _ => false
  end.

Definition verdicts (ws i t : string) (out : list Effect) : nat :=
  length (filter (λ e, verdict ws i t e = true) out).

(** From [s] to [s'] only the queue and the trace moved, and [n] verdicts were given. *)
Definition answered (ws i t : string) (n : nat) (s s' : Server) : Prop :=
  s'.(sockets) = s.(sockets) ∧ s'.(connections) = s.(connections) ∧
  ∃ out, s'.(trace) = s.(trace) ++ out ∧ verdicts ws i t out = n.

Lemma answered_quiet ws i t s s' : mail_view s' = mail_view s → answered ws i t 0 s s'.
Proof.
  intros Hv. injection Hv as E1 E2 _ E4. split_and!; [done..|]. exists []. by rewrite E4, app_nil_r.
Qed.

Lemma answered_trans ws i t n m s1 s2 s3 :
  answered ws i t n s1 s2 → answered ws i t m s2 s3 → answered ws i t (n + m) s1 s3.
Proof.
  intros (A1 & A2 & o1 & T1 & V1) (B1 & B2 & o2 & T2 & V2). split_and!; [congruence..|].
  exists (o1 ++ o2). rewrite T2, T1, app_assoc. split; [done|].
  unfold verdicts in *. rewrite filter_app, length_app. lia.
Qed.

Section mail.
Context `{Externals} (config : RelayConfig) (time wsSend : nat → Z).

Lemma quiet_date_now : keeps mail_view (date_now time).
Proof. by intros s. Qed.

Lemma quiet_busBytes k n : keeps mail_view (busBytes_allow config time k n).
Proof.
  unfold busBytes_allow. apply keeps_bind; [apply quiet_date_now|]. intros now s.
  by destruct (bucket_allow _ _ now k (QArith_base.inject_Z n) s.(busByteLimiter)).
Qed.

Lemma quiet_redeliverAllowed d n : keeps mail_view (busRedeliverAllowed config time d n).
Proof.
  unfold busRedeliverAllowed. apply keeps_bind; [apply quiet_date_now|]. intros now s.
  by destruct (bucket_allow _ _ now _ (QArith_base.inject_Z n) s.(busRedeliverLimiter)).
Qed.

(** One frame to an open socket. *)
Lemma wp_send ws w m i t s :
  is_open w s = true →
  wp (sendJson wsSend w m) (λ _ s', s'.(busQueue) = s.(busQueue) ∧
    answered ws i t (if verdict ws i t (Send w m) then 1 else 0)%nat s s') s.
Proof.
  intros Ho. unfold wp, sendJson, bind, gets. rewrite Ho. simpl. split; [done|]. split_and!; [done..|].
  exists [Send w m]. split; [done|]. unfold verdicts. rewrite filter_cons. simpl.
  destruct m; simpl; try done; by repeat (case_bool_decide; simpl).
Qed.

(** A frame that is no verdict, to any socket; what it returns is 0 if it was not sent. *)
Lemma wp_send_other ws w m i t s :
  verdict ws i t (Send w m) = false →
  wp (sendJson wsSend w m) (λ _ s', s'.(busQueue) = s.(busQueue) ∧ answered ws i t 0 s s') s.
Proof.
  intros Hv. destruct (is_open w s) eqn:Ho.
  - eapply wp_mono; [by apply wp_send|]. intros a s' [Hq Ha]. by rewrite Hv in Ha.
  - unfold wp, sendJson, bind, gets. rewrite Ho. simpl. split; [done|]. by apply answered_quiet.
Qed.

Lemma verdict_self ws i t m :
  match m with BusReceipt i' t' _ | BusRefused i' t' _ _ => i' = i ∧ t' = t | _ => False end →
  verdict ws i t (Send ws m) = true.
Proof. destruct m; try done; intros [-> ->]; simpl; by rewrite !bool_decide_eq_true_2. Qed.

Lemma wp_busRefuse ws i t r b s :
  is_open ws s = true → wp (busRefuse wsSend ws i t r b) (λ _ s', answered ws i t 1 s s') s.
Proof.
  intros Ho. apply wp_bind. eapply wp_mono; [by apply wp_send|]. intros a s' [_ Ha].
  by rewrite verdict_self in Ha by done.
Qed.

Lemma wp_busReceipt ws e st s :
  is_open ws s = true →
  wp (busReceipt wsSend ws e st) (λ _ s', answered ws e.(BusQueue.id) e.(to) 1 s s') s.
Proof.
  intros Ho. apply wp_bind. eapply wp_mono; [by apply wp_send|]. intros a s' [_ Ha].
  by rewrite verdict_self in Ha by done.
Qed.

Lemma answered_open ws i t n w s s' : answered ws i t n s s' → is_open w s' = is_open w s.
Proof. intros (Hs & _). unfold is_open. by rewrite Hs. Qed.

Lemma answered_peer ws i t n u d s s' : answered ws i t n s s' → busPeer u d s' = busPeer u d s.
Proof. intros (_ & Hc & _). unfold busPeer. by rewrite Hc. Qed.

(** Delivering [e], stored under [r], when its sender [conn] is live on [ws]:
    one receipt to the sender if it was sent, none if it was not. *)
Lemma wp_busDeliver ws conn r l e s :
  s.(busQueue).(heap) !! r = Some e →
  busPeer e.(BusQueue.uid) e.(from) s = Some conn → conn.(connectionId) = ws → is_open ws s = true →
  wp (busDeliver time wsSend r l) (λ sent s',
    answered ws e.(BusQueue.id) e.(to) (if sent then 1 else 0)%nat s s' ∧
    ∃ e', s'.(busQueue).(heap) !! r = Some e' ∧ e'.(BusQueue.id) = e.(BusQueue.id) ∧ e'.(to) = e.(to)) s.
Proof.
  intros He Hp Hc Ho. unfold busDeliver. apply wp_bind. unfold wp at 1, gets at 1. rewrite He.
  apply wp_bind. eapply wp_mono; [by apply (wp_send_other ws _ _ e.(BusQueue.id) e.(to))|].
  intros sent s1 [Hq Ha]. cbv beta. destruct (sent =? 0).
  { split; [exact Ha|]. rewrite Hq. by exists e. }
  apply wp_bind. apply wp_quiet; [apply quiet_date_now|]. intros now s2 Hv2.
  apply wp_bind. unfold wp at 1, modify at 1. set (s3 := upd_busQueue _ s2).
  assert (answered ws e.(BusQueue.id) e.(to) 0 s s3) as Ha3.
  { change 0%nat with (0 + 0)%nat. eapply answered_trans; [exact Ha|].
    destruct (answered_quiet ws e.(BusQueue.id) e.(to) s1 s2 Hv2) as (B1 & B2 & B3). by split_and!. }
  assert (s3.(busQueue).(heap) !! r = Some (mark_entry l.(connectionId) now e)) as Hh.
  { unfold s3. injection Hv2 as _ _ E _. simpl. by rewrite E, Hq, lookup_alter_eq, He. }
  apply wp_bind. unfold wp at 1, gets at 1. rewrite (answered_peer _ _ _ _ _ _ _ _ Ha3), Hp. rewrite Hc.
  assert (wp (busReceipt wsSend ws e delivered_to_socket)
    (λ _ s', s'.(busQueue) = s3.(busQueue) ∧ answered ws e.(BusQueue.id) e.(to) 1 s3 s') s3) as Hrec.
  { apply wp_bind. eapply wp_mono; [apply wp_send; by rewrite (answered_open _ _ _ _ _ _ _ Ha3)|].
    intros a s' [Hq' Ha']. rewrite verdict_self in Ha' by done. by split. }
  apply wp_bind. eapply wp_mono; [exact Hrec|]. intros [] s4 [Hq4 Ha4]. split.
  - change 1%nat with (0 + 1)%nat. by eapply answered_trans.
  - rewrite Hq4. by exists (mark_entry l.(connectionId) now e).
Qed.

(** A live agent is the peer its own mail comes from. *)
Lemma live_agent_is_peer s live conn :
  Connections.Rep s.(connections) live → conn ∈ live → conn.(Connections.deviceType) = agent →
  busPeer conn.(Connections.uid) conn.(Connections.deviceId) s = Some conn.
Proof.
  intros HR Hin Hag. unfold busPeer. rewrite (proj2 (getByDeviceId_iff _ _ HR _ conn)) by done.
  by rewrite !bool_decide_eq_true_2.
Qed.

(** What [bus_send] knows of its message once it is queued, new or not. *)
Definition stored_for (conn : Connection) (msg : BusSendMessage) (r : ref) (s : Server) : Prop :=
  ∃ e, s.(busQueue).(heap) !! r = Some e ∧ e.(BusQueue.uid) = conn.(Connections.uid) ∧
       e.(from) = conn.(Connections.deviceId) ∧ e.(to) = msg.(bs_to) ∧ e.(BusQueue.id) = msg.(bs_id).

(** What it still knows after a delivery. *)
Definition filed_as (msg : BusSendMessage) (r : ref) (s : Server) : Prop :=
  ∃ e, s.(busQueue).(heap) !! r = Some e ∧ e.(BusQueue.id) = msg.(bs_id) ∧ e.(to) = msg.(bs_to).

Lemma stored_filed conn msg r s : stored_for conn msg r s → filed_as msg r s.
Proof. intros (e & He & _ & _ & Ht & Hi). by exists e. Qed.

Lemma stored_after_enqueue ident conn msg now s q' res :
  Inv config ident s → Authenticated config ident conn →
  lacks NUL msg.(bs_to) = true → lacks NUL msg.(bs_id) = true →
  enqueue config.(busLimits) s.(busQueue) now
    {| in_uid := conn.(Connections.uid); in_from := conn.(Connections.deviceId); in_to := msg.(bs_to);
       in_id := msg.(bs_id); in_blob := msg.(bs_blob); in_ttlMs := msg.(bs_ttlMs) |} = (q', res) →
  match res with
  | Queued r | Duplicate r => stored_for conn msg r (upd_busQueue (λ _, q') s)
  | _ => True
  end.
Proof.
  intros HI Ha Ht Hi Henq. destruct (inv_queue _ _ _ HI) as [items HR].
  pose proof (enqueue_rep config.(busLimits) _ _ now
    {| in_uid := conn.(Connections.uid); in_from := conn.(Connections.deviceId); in_to := msg.(bs_to);
       in_id := msg.(bs_id); in_blob := msg.(bs_blob); in_ttlMs := msg.(bs_ttlMs) |} HR) as Hspec.
  rewrite Henq in Hspec.
  destruct Hspec as [_ Hres]. destruct res as [r|r| | |]; try done.
  - destruct Hres as (_ & e & Hh & Hu & Hf & Htt & Hii). exists e. simpl. by rewrite Hh, lookup_insert_eq.
  - destruct Hres as [-> Hk]. simpl in Hk.
    destruct (duplicate_fields config ident s s.(busQueue) conn msg.(bs_to) msg.(bs_id) r) as (e & He); try done.
    by exists e.
Qed.

(** The tail of [bus_send] when the message is stored under [r]: deliver if
    [go] does, and otherwise tell the sender how it stands. *)
Lemma wp_deliver_or_report conn msg r (go : M bool) (report : M unit) s :
  is_open conn.(connectionId) s = true →
  wp go (λ sent s1, answered conn.(connectionId) msg.(bs_id) msg.(bs_to) (if sent then 1 else 0)%nat s s1 ∧
                    filed_as msg r s1) s →
  (∀ s1, filed_as msg r s1 → is_open conn.(connectionId) s1 = true →
     wp report (λ _ s2, answered conn.(connectionId) msg.(bs_id) msg.(bs_to) 1 s1 s2) s1) →
  wp (let! sent := go in if sent then done_ else report)
     (λ _ s2, answered conn.(connectionId) msg.(bs_id) msg.(bs_to) 1 s s2) s.
Proof.
  intros Ho Hgo Hrep. apply wp_bind. eapply wp_mono; [exact Hgo|]. intros [|] s1 [Ha Hst]; [exact Ha|].
  eapply wp_mono; [apply Hrep; [done|by rewrite (answered_open _ _ _ _ _ _ _ Ha)]|].
  intros a s2 Ha2. change 1%nat with (0 + 1)%nat. by eapply answered_trans.
Qed.

Lemma wp_deliver_stored conn msg r l s :
  stored_for conn msg r s → busPeer conn.(Connections.uid) conn.(Connections.deviceId) s = Some conn →
  is_open conn.(connectionId) s = true →
  wp (busDeliver time wsSend r l)
     (λ sent s1, answered conn.(connectionId) msg.(bs_id) msg.(bs_to) (if sent then 1 else 0)%nat s s1 ∧
                 filed_as msg r s1) s.
Proof.
  intros (e & He & Hu & Hf & Ht & Hi) Hp Ho.
  eapply wp_mono; [apply (wp_busDeliver conn.(connectionId) conn r l e); [done|by rewrite Hu, Hf|done..]|].
  intros sent s1 (Ha & e' & He' & Hi' & Ht'). rewrite Ht, Hi in Ha. split; [exact Ha|]. exists e'. split_and!; congruence.
Qed.

Lemma wp_not_sent conn msg r s :
  filed_as msg r s →
  wp (ret false) (λ sent s1, answered conn.(connectionId) msg.(bs_id) msg.(bs_to) (if sent then 1 else 0)%nat s s1 ∧
                             filed_as msg r s1) s.
Proof. intros Hf. split; [by apply answered_quiet|done]. Qed.

Lemma answered_shift ws i t n s0 s1 s2 : mail_view s1 = mail_view s0 → answered ws i t n s1 s2 → answered ws i t n s0 s2.
Proof. intros Hv Ha. change n with (0 + n)%nat. eapply answered_trans; [by apply answered_quiet|exact Ha]. Qed.

(** *** The two ways of being queued *)

Lemma wp_queued conn msg r live s :
  stored_for conn msg r s → busPeer conn.(Connections.uid) conn.(Connections.deviceId) s = Some conn →
  is_open conn.(connectionId) s = true →
  wp (let! sent := (match live with Some l => busDeliver time wsSend r l | None => ret false end) in
      if sent then done_
      else let! found := gets (λ s, s.(busQueue).(heap) !! r) in
           match found with Some entry => busReceipt wsSend conn.(connectionId) entry queued | None => done_ end)
     (λ _ s', answered conn.(connectionId) msg.(bs_id) msg.(bs_to) 1 s s') s.
Proof.
  intros Hst Hp Ho. apply (wp_deliver_or_report conn msg r); [done| |].
  - destruct live as [l|]; [by apply wp_deliver_stored|]. by eapply wp_not_sent, stored_filed.
  - intros s1 (e & He & <- & <-) Ho1. apply wp_bind. unfold wp at 1, gets at 1. rewrite He. by apply wp_busReceipt.
Qed.

Lemma wp_duplicate_entry conn msg r live t entry s :
  s.(busQueue).(heap) !! r = Some entry →
  stored_for conn msg r s → busPeer conn.(Connections.uid) conn.(Connections.deviceId) s = Some conn →
  is_open conn.(connectionId) s = true →
  wp (let! sent :=
        (match live with
         | Some l =>
             if redeliverable entry l.(connectionId) t then
               let! ok := busRedeliverAllowed config time msg.(bs_to) entry.(bytes) in
               if ok then busDeliver time wsSend r l else ret false
             else ret false
         | None => ret false
         end) in
      if sent then done_
      else let! entry' := gets (λ s, s.(busQueue).(heap) !! r ?| entry) in
           busReceipt wsSend conn.(connectionId) entry'
             (if decide (is_Some entry'.(deliveredConn)) then delivered_to_socket else queued))
     (λ _ s', answered conn.(connectionId) msg.(bs_id) msg.(bs_to) 1 s s') s.
Proof.
  intros He Hst Hp Ho. pose proof (stored_filed _ _ _ _ Hst) as Hf. apply (wp_deliver_or_report conn msg r); [done| |].
  - destruct live as [l|]; [|by apply wp_not_sent]. destruct (redeliverable _ _ _); [|by apply wp_not_sent].
    apply wp_bind. apply wp_quiet; [apply quiet_redeliverAllowed|]. intros ok s1 Hv.
    assert (stored_for conn msg r s1 ∧ is_open conn.(connectionId) s1 = true ∧
      busPeer conn.(Connections.uid) conn.(Connections.deviceId) s1 = Some conn) as (Hst1 & Ho1 & Hp1).
    { injection Hv as E1 E2 E3 _. unfold stored_for, is_open, busPeer. by rewrite E1, E2, E3. }
    eapply wp_mono with (Φ := λ (sent : bool) s2,
      answered conn.(connectionId) msg.(bs_id) msg.(bs_to) (if sent then 1 else 0)%nat s1 s2 ∧ filed_as msg r s2).
    + destruct ok; [by apply wp_deliver_stored|]. by eapply wp_not_sent, stored_filed.
    + intros sent s2 [Ha Hf2]. split; [by eapply answered_shift|done].
  - intros s1 (e & He1 & <- & <-) Ho1. apply wp_bind. unfold wp at 1, gets at 1. rewrite He1. by apply wp_busReceipt.
Qed.

Lemma wp_duplicate conn msg r live s :
  stored_for conn msg r s → busPeer conn.(Connections.uid) conn.(Connections.deviceId) s = Some conn →
  is_open conn.(connectionId) s = true →
  wp (let! t := date_now time in
      let! found := gets (λ s, s.(busQueue).(heap) !! r) in
      match found with
      | None => done_
      | Some entry =>
          let! sent :=
            (match live with
             | Some l =>
                 if redeliverable entry l.(connectionId) t then
                   let! ok := busRedeliverAllowed config time msg.(bs_to) entry.(bytes) in
                   if ok then busDeliver time wsSend r l else ret false
                 else ret false
             | None => ret false
             end) in
          if sent then done_
          else let! entry' := gets (λ s, s.(busQueue).(heap) !! r ?| entry) in
               busReceipt wsSend conn.(connectionId) entry'
                 (if decide (is_Some entry'.(deliveredConn)) then delivered_to_socket else queued)
      end)
     (λ _ s', answered conn.(connectionId) msg.(bs_id) msg.(bs_to) 1 s s') s.
Proof.
  intros (e & He & Hst) Hp Ho. apply wp_bind. apply wp_quiet; [apply quiet_date_now|]. intros t s4 Hv4.
  injection Hv4 as G1 G2 G3 G4. apply wp_bind. unfold wp at 1, gets at 1.
  assert (s4.(busQueue).(heap) !! r = Some e) as He4 by (by rewrite G3).
  rewrite He4. eapply wp_mono; [apply wp_duplicate_entry; [done|by exists e|..]|].
  - unfold busPeer. rewrite G2. exact Hp.
  - unfold is_open. rewrite G1. exact Ho.
  - intros a s5 Ha. eapply answered_shift; [|exact Ha]. unfold mail_view. by rewrite G1, G2, G3, G4.
Qed.
End mail.

(** C13: every message gets exactly one verdict.  When the live connection of
    an open socket sends [bus:send], the relay answers that socket, about that
    message and that recipient, once: one receipt or one refusal, on every path:
    not an agent, over its budget, to itself, to a recipient that cannot take
    mail, the queue full, a duplicate, delivered now or stored for later. *)
Theorem bus_send_answered `{Externals} (config : RelayConfig) (time wsSend : nat → Z) (dropAck : nat → bool)
    s ws conn msg :
  (∀ i, is_uuid i = true → lacks NUL i = true) → Reachable config time wsSend dropAck s →
  getByConnectionId ws s.(connections) = Some conn → is_open ws s = true →
  is_uuid msg.(bs_id) = true → is_uuid msg.(bs_to) = true →
  ∃ out, (bus_send config time wsSend conn ws msg s).2.(trace) = s.(trace) ++ out ∧
         verdicts ws msg.(bs_id) msg.(bs_to) out = 1%nat.
Proof.
  intros Hu Hr Hconn Ho Hi Ht. pose proof (inv_reachable config time wsSend dropAck Hu s Hr) as HI.
  destruct (inv_conns _ _ _ HI) as (live & HR & Hok).
  destruct (proj1 (getByConnectionId_iff _ _ HR ws conn) Hconn) as [Hin <-]. destruct (Hok conn Hin) as [Hauth _].
  cut (wp (bus_send config time wsSend conn conn.(connectionId) msg)
    (λ _ s', answered conn.(connectionId) msg.(bs_id) msg.(bs_to) 1 s s') s).
  { unfold wp. destruct (bus_send _ _ _ _ _ _ s) as [u s']. intros (_ & _ & H'). exact H'. }
  unfold bus_send. cbv zeta.
  destruct (bool_decide_reflect (conn.(Connections.deviceType) = agent)) as [Hag|]; cbn [negb]; [|by apply wp_busRefuse].
  pose proof (live_agent_is_peer _ _ _ HR Hin Hag) as Hself.
  apply wp_bind. apply wp_quiet; [apply quiet_busBytes|]. intros ok s1 Hv1.
  assert (is_open conn.(connectionId) s1 = true) as Ho1 by (injection Hv1 as E _ _ _; unfold is_open; by rewrite E).
  eapply wp_mono with (Φ := λ _ s', answered conn.(connectionId) msg.(bs_id) msg.(bs_to) 1 s1 s');
    [|intros a s2 Ha; eapply answered_shift; [exact Hv1|exact Ha]].
  destruct ok; cbn [negb]; [|by apply wp_busRefuse]. case_bool_decide; [by apply wp_busRefuse|].
  apply wp_bind. unfold wp at 1, gets at 1. set (live_r := busPeer _ (bs_to msg) s1).
  destruct (match live_r with Some l => negb l.(busCapable) | None => false end); [by apply wp_busRefuse|].
  apply wp_bind. apply wp_quiet; [apply quiet_date_now|]. intros now s2 Hv2.
  apply wp_bind. unfold wp at 1, gets at 1.
  assert (mail_view s2 = mail_view s) as Hv by congruence. injection Hv as E1 E2 E3 E4.
  destruct (enqueue _ _ now _) as [q' res] eqn:Henq. rewrite E3 in Henq.
  pose proof (stored_after_enqueue config _ conn msg now s q' res HI Hauth (Hu _ Ht) (Hu _ Hi) Henq) as Hst.
  apply wp_bind. unfold wp at 1, modify at 1. set (s3 := upd_busQueue _ s2).
  assert (is_open conn.(connectionId) s3 = true) as Ho3 by (unfold is_open; simpl; by rewrite E1).
  assert (busPeer conn.(Connections.uid) conn.(Connections.deviceId) s3 = Some conn) as Hp3
    by (unfold busPeer; simpl; by rewrite E2).
  eapply wp_mono with (Φ := λ _ s', answered conn.(connectionId) msg.(bs_id) msg.(bs_to) 1 s3 s').
  2: { intros a s4 (A1 & A2 & out & A3 & A4). injection Hv2 as F1 F2 F3 F4. simpl in A1, A2, A3.
       split_and!; [congruence..|]. exists out. split; [congruence|done]. }
  destruct res as [r|r| | |]; [| |by apply wp_busRefuse..].
  - by apply wp_queued.
  - by apply wp_duplicate.
Qed.

(** [a] sends to [b], who is connected. *)
Lemma bus_send_answered_witness :
  let s := demo_run meeting in
  let msg := {| bs_id := "m"; bs_to := "b"; bs_blob := demo_blob; bs_ttlMs := 60000 |} in
  match getByConnectionId "1" s.(connections) with
  | Some conn => ∃ out, (bus_send demo_config demo_time demo_send conn "1" msg s).2.(trace) = s.(trace) ++ out ∧
                        verdicts "1" "m" "b" out = 1%nat
  | None => False
  end.
Proof.
  intros s msg. assert (demo_reachable s) as Hs by (apply demo_reach; vm_compute; tauto).
  assert (is_open "1" s = true) as Ho by (vm_compute; reflexivity).
  destruct (getByConnectionId "1" s.(connections)) as [conn|] eqn:Hc; [|vm_compute in Hc; discriminate].
  exact (bus_send_answered demo_config demo_time demo_send demo_drop s "1" conn msg demo_uuid_nul Hs Hc Ho
    eq_refl eq_refl).
Defined.
