(* ===== verification/RelayRevoke.v ===== *)
(** * RelayRevoke: what web's requests do to the relay

    A request without web's signature does nothing.  A signed revocation or
    expiry takes effect at once: the licence cache, the mail and the open
    sockets of the device or the account. *)

From S2P Require Import Prelude JsMap ClientIp SocketAdmissions RateLimiter ReplayCache Liveness.
From S2P Require Import Wire BusQueue RelayAuth License Connections ServerState RelayServer InternalRoutes.
From S2P Require Import RelayFrames RelayInvariant RelayPreserves RelayHandlers RelayHandshake RelayRoutes.
From S2P Require Import Relay.

Local Open Scope Z_scope.
Local Open Scope js_scope.
Local Open Scope server_scope.

(** The header is not the HMAC of the body under the secret web shares. *)
Definition unsigned `{Externals} (config : RelayConfig) (sig : option string) (raw : string) : Prop :=
  hex_bytes (sig ?| EmptyString) ≠ hex_bytes (hmac_sha256_hex config.(relayInternalSecret) raw).

Section revoke.
Context `{Externals} (config : RelayConfig) (time wsSend : nat → Z) (dropAck : nat → bool).

(** Only web can use the internal routes.  Unless the header's bytes are
    the HMAC of the body under the shared secret, each of the four routes
    answers 401 and leaves the whole state as it was. *)
Theorem unsigned_requests_refused sig raw s :
  unsigned config sig raw →
  handleRevoke config wsSend sig raw s = (ErrorResponse 401 UNAUTHORIZED, s) ∧
  handleExpire config wsSend sig raw s = (ErrorResponse 401 UNAUTHORIZED, s) ∧
  handlePeerPolicy config time wsSend sig raw s = (ErrorResponse 401 UNAUTHORIZED, s) ∧
  handleListConnections config time sig raw s = (ErrorResponse 401 UNAUTHORIZED, s).
Proof.
  intros Hne.
  assert (∀ T (schema : json → option T), verifyAndParse config sig raw schema = inr (ErrorResponse 401 UNAUTHORIZED)) as Hv.
  { intros T schema. unfold verifyAndParse. destruct (negb (_ =? _)); [done|]. by rewrite bool_decide_eq_false_2. }
  unfold handleRevoke, handleExpire, handlePeerPolicy, handleListConnections. by rewrite !Hv.
Qed.

(** ** Closing a list of connections *)

(** [s'] is [s] with some sockets shut, among them those of [l] and no others. *)
Definition shut (l : list Connection) (s s' : Server) : Prop :=
  s'.(licenseCache) = s.(licenseCache) ∧ s'.(busQueue) = s.(busQueue) ∧ s'.(connections) = s.(connections) ∧
  (∀ ws, is_open ws s = false → is_open ws s' = false) ∧
  (∀ c, c ∈ l → is_open c.(connectionId) s' = false) ∧
  (∀ ws, (∀ c, c ∈ l → c.(connectionId) ≠ ws) → s'.(sockets) !! ws = s.(sockets) !! ws).

Lemma shut_one c e s : shut [c] s (closeWithLicense wsSend c e s).2.
Proof.
  unfold closeWithLicense, bind, gets. simpl. destruct (is_open c.(connectionId) s) eqn:Ho; simpl.
  - unfold shut, is_open. simpl. split_and!; try done.
    + intros ws. rewrite lookup_alter. case_decide; [subst ws|done].
      by destruct (s.(sockets) !! c.(connectionId)).
    + intros c' ->%list_elem_of_singleton. rewrite lookup_alter_eq. by destruct (s.(sockets) !! c.(connectionId)).
    + intros ws Hws. rewrite lookup_alter_ne; [done|]. apply Hws. by left.
  - split_and!; try done. by intros c' ->%list_elem_of_singleton.
Qed.

Lemma shut_all l e s :
  shut l s (for_each l (λ c, closeWithLicense wsSend c e;; done_) s).2.
Proof.
  revert s. induction l as [|c l IH]; intros s; simpl.
  { split_and!; try done. by intros c ?%not_elem_of_nil. }
  unfold bind. pose proof (shut_one c e s) as (A1 & A2 & A3 & A4 & A5 & A6).
  destruct (closeWithLicense wsSend c e s) as [b s1]. simpl in *.
  destruct (IH s1) as (B1 & B2 & B3 & B4 & B5 & B6).
  destruct (for_each l _ s1) as [u s2]. simpl in *. unfold shut. split_and!; try congruence.
  - auto.
  - intros c' [->|Hc']%elem_of_cons; [|by apply B5]. apply B4, A5. by left.
  - intros ws Hws. rewrite B6, A6; [done|..].
    + intros c' ->%list_elem_of_singleton. apply Hws. by left.
    + intros c' Hc'. apply Hws. by right.
Qed.

Definition mail_purged (gone : BusEntry → bool) (s : Server) : Prop :=
  ∃ items, BusQueue.Rep s.(busQueue) items ∧ ∀ x, x ∈ items → gone x.2 = false.

Lemma purge_rep ident s p :
  Inv config ident s → ∃ items, BusQueue.Rep (removeWhere s.(busQueue) p).1 items ∧ ∀ x, x ∈ items → p x.2 = false.
Proof.
  intros HI. destruct (inv_queue _ _ _ HI) as [items HR]. destruct (removeWhere_rep _ _ p HR) as [HR' _].
  eexists. split; [exact HR'|]. by intros x [Hx _]%list_elem_of_filter.
Qed.

(** The connections a revocation is about: the device itself and its slots, of
    the account named, if one is. *)
Definition revoked_connection (b : RevokeBody) (s : Server) (c : Connection) : Prop :=
  c ∈ getAll s.(connections) ∧
  (c.(Connections.deviceId) = b.(rv_deviceId) ∨ isSlotOf c.(Connections.deviceId) b.(rv_deviceId) = true) ∧
  (∀ u, b.(rv_userId) = Some u → c.(Connections.uid) = u).

Lemma elem_revoked b s live c :
  Connections.Rep s.(connections) live →
  c ∈ filter (λ c, match b.(rv_userId) with None => true | Some u => bool_decide (c.(Connections.uid) = u) end = true)
        (getByAccountDevice b.(rv_deviceId) s.(connections)) ↔ revoked_connection b s c.
Proof.
  intros HR. unfold revoked_connection. rewrite list_elem_of_filter, (elem_getByAccountDevice _ _ HR), (getAll_rep _ _ HR).
  destruct (b.(rv_userId)) as [u|]; [rewrite bool_decide_eq_true|]; naive_solver.
Qed.

(** C17: a revocation takes effect at once, and on nothing else.  A signed
    request to revoke a device: the cached licence of the device is marked
    revoked, no mail to or from the device remains, every socket of the device
    and its slots (of the named account, when there is one) is closed, and every
    other socket is untouched. *)
Theorem revocation_takes_effect sig raw b s :
  (∀ i, is_uuid i = true → lacks NUL i = true) → Reachable config time wsSend dropAck s →
  verifyAndParse config sig raw RevokeBody_parse = inl b →
  let '(answer, s') := handleRevoke config wsSend sig raw s in
  answer = OkResponse true 200 ∧
  s'.(licenseCache) = markRevoked b.(rv_deviceId) b.(rv_userId) s.(licenseCache) ∧
  mail_purged (device_entry b.(rv_userId) b.(rv_deviceId)) s' ∧
  (∀ c, revoked_connection b s c → is_open c.(connectionId) s' = false) ∧
  (∀ ws, (∀ c, revoked_connection b s c → c.(connectionId) ≠ ws) → s'.(sockets) !! ws = s.(sockets) !! ws).
Proof.
  intros Hu Hr Hv. pose proof (inv_reachable config time wsSend dropAck Hu s Hr) as HI.
  destruct (inv_conns _ _ _ HI) as (live & HR & _).
  unfold handleRevoke. rewrite Hv. unfold bind at 1 2 3 4, modify at 1 2, gets at 1. cbv beta iota.
  set (s1 := upd_busQueue _ _). set (l := filter _ _).
  pose proof (shut_all l LICENSE_REVOKED s1) as (A1 & A2 & _ & _ & A5 & A6).
  destruct (for_each l _ s1) as [u s2]. simpl in *. split_and!; [done|done| |..].
  - destruct (purge_rep _ s (device_entry b.(rv_userId) b.(rv_deviceId)) HI) as (items & Hq & Hi).
    exists items. rewrite A2. by split.
  - intros c Hc. apply A5. by apply (elem_revoked b s live).
  - intros ws Hws. rewrite A6; [done|]. intros c Hc. apply Hws. by apply (elem_revoked b s live).
Qed.

(** An expired account is cut off at once, alone.  A signed expiry of an
    account: none of its licences remains cached, none of its mail remains
    queued, all its sockets are closed and all others are untouched. *)
Theorem expiry_takes_effect sig raw b s :
  (∀ i, is_uuid i = true → lacks NUL i = true) → Reachable config time wsSend dropAck s →
  verifyAndParse config sig raw ExpireBody_parse = inl b →
  let '(answer, s') := handleExpire config wsSend sig raw s in
  answer = OkResponse true 200 ∧
  s'.(licenseCache) = (dropByUser b.(ex_userId) s.(licenseCache)).1 ∧
  mail_purged (λ e, bool_decide (e.(BusQueue.uid) = b.(ex_userId))) s' ∧
  (∀ c, c ∈ getAll s.(connections) → c.(Connections.uid) = b.(ex_userId) → is_open c.(connectionId) s' = false) ∧
  (∀ ws, (∀ c, c ∈ getAll s.(connections) → c.(Connections.uid) = b.(ex_userId) → c.(connectionId) ≠ ws) →
     s'.(sockets) !! ws = s.(sockets) !! ws).
Proof.
  intros Hu Hr Hv. pose proof (inv_reachable config time wsSend dropAck Hu s Hr) as HI.
  destruct (inv_conns _ _ _ HI) as (live & HR & _).
  unfold handleExpire. rewrite Hv. unfold bind at 1 2 3 4, modify at 1 2, gets at 1. cbv beta iota.
  set (s1 := upd_busQueue _ _).
  change (getConnectionsForUser b.(ex_userId) s1.(connections)) with (getConnectionsForUser b.(ex_userId) s.(connections)).
  set (l := getConnectionsForUser _ _).
  assert (∀ c, c ∈ l ↔ c ∈ getAll s.(connections) ∧ c.(Connections.uid) = b.(ex_userId)) as Hl.
  { intros c. unfold l. rewrite (getConnectionsForUser_rep _ _ HR), (getAll_rep _ _ HR), list_elem_of_filter. tauto. }
  pose proof (shut_all l LICENSE_EXPIRED s1) as (A1 & A2 & _ & _ & A5 & A6).
  destruct (for_each l _ s1) as [u s2]. simpl in *. split_and!; [done|done| |..].
  - destruct (purge_rep _ s (λ e, bool_decide (e.(BusQueue.uid) = b.(ex_userId))) HI) as (items & Hq & Hi).
    exists items. rewrite A2. by split.
  - intros c Hc He. apply A5. by apply Hl.
  - intros ws Hws. rewrite A6; [done|]. intros c [Hc He]%Hl. by apply Hws.
Qed.
End revoke.

Lemma unsigned_requests_refused_witness :
  handleRevoke demo_config demo_send (Some "ab00") "revoke b" (demo_run meeting) =
    (ErrorResponse 401 UNAUTHORIZED, demo_run meeting).
Proof.
  apply (unsigned_requests_refused demo_config demo_time demo_send (Some "ab00") "revoke b" (demo_run meeting)).
  vm_compute. discriminate.
Defined.

(** [b] is revoked: [b]'s socket closes, [a]'s does not. *)
Lemma revocation_takes_effect_witness :
  let s := demo_run meeting in
  let s' := (handleRevoke demo_config demo_send (Some "abcd") "revoke b" s).2 in
  demo_reachable s ∧ is_open "2" s = true ∧ mail_purged (device_entry (Some "u") "b") s' ∧ is_open "2" s' = false.
Proof.
  intros s s'. assert (demo_reachable s) as Hs by (apply demo_reach; vm_compute; tauto).
  split; [exact Hs|]. split; [vm_compute; reflexivity|].
  assert (verifyAndParse demo_config (Some "abcd") "revoke b" RevokeBody_parse =
    inl {| rv_deviceId := "b"; rv_userId := Some "u" |}) as Hv by (vm_compute; reflexivity).
  pose proof (revocation_takes_effect demo_config demo_time demo_send demo_drop _ _ _ s demo_uuid_nul Hs Hv) as H.
  change (mail_purged (device_entry (Some "u") "b") (handleRevoke demo_config demo_send (Some "abcd") "revoke b" s).2 ∧
    is_open "2" (handleRevoke demo_config demo_send (Some "abcd") "revoke b" s).2 = false).
  split; [|vm_compute; reflexivity].
  destruct (handleRevoke demo_config demo_send (Some "abcd") "revoke b" s) as [answer s2].
  exact (proj1 (proj2 (proj2 H))).
Defined.

Lemma expiry_takes_effect_witness :
  let s := demo_run meeting in
  let s' := (handleExpire demo_config demo_send (Some "abcd") "expire u" s).2 in
  demo_reachable s ∧ length (getAll s.(connections)) = 2%nat ∧
  ∀ c, c ∈ getAll s.(connections) → c.(Connections.uid) = "u" → is_open c.(connectionId) s' = false.
Proof.
  intros s s'. assert (demo_reachable s) as Hs by (apply demo_reach; vm_compute; tauto).
  split; [exact Hs|]. split; [vm_compute; reflexivity|].
  assert (verifyAndParse demo_config (Some "abcd") "expire u" ExpireBody_parse = inl {| ex_userId := "u" |}) as Hv
    by (vm_compute; reflexivity).
  pose proof (expiry_takes_effect demo_config demo_time demo_send demo_drop _ _ _ s demo_uuid_nul Hs Hv) as H.
  change (∀ c, c ∈ getAll s.(connections) → c.(Connections.uid) = "u" →
    is_open c.(connectionId) (handleExpire demo_config demo_send (Some "abcd") "expire u" s).2 = false).
  destruct (handleExpire demo_config demo_send (Some "abcd") "expire u" s) as [answer s2].
  exact (proj1 (proj2 (proj2 (proj2 H)))).
Defined.
