(* ===== verification/BillingDb.v ===== *)
(** * BillingDb: the tables of the billing schema and their transactions

    The rows and unique constraints of [web/prisma/schema.prisma] and its
    migrations, as finite maps keyed by what the schema makes unique, and a
    transaction as a state and error monad over them: a failed one leaves the
    database as it was, and every write checks the constraints.  Transactions run
    one at a time.  Foreign keys, and columns nothing here reads, are left out.
    Instants are milliseconds; an address is compared as [citext] does, without
    case. *)

From S2P Require Import Prelude JsMap Wire.
From coqutil Require Import Datatypes.RecordSetters.
Import DoubleBraceUpdate.

#[local] Set Warnings "-notation-overridden".
Local Open Scope Z_scope.
Local Open Scope js_scope.

(** ** Rows *)

(** [s.toLowerCase()] on code units below 256. *)
Definition lowered (c : Ascii.ascii) : Ascii.ascii :=
  if is_upper c || in_range 192 214 c || in_range 216 222 c then Ascii.ascii_of_nat (Ascii.nat_of_ascii c + 32) else c.
Fixpoint lower (s : string) : string := match s with String c s => String (lowered c) (lower s) | EmptyString => EmptyString end.

Record User := { u_email : string; u_emailVerified : bool; u_accountId : option string }.

Record ProductAccount := { ac_userId : string; ac_deletedAt : option Z }.

(** [role] and [status] are text columns; [joinedAt] and [endedAt] are instants. *)
Record AccountMember := { mb_role : string; mb_status : string; mb_joinedAt : Z; mb_endedAt : option Z }.

Record AccountInvite := {
  iv_accountId : string; iv_email : string; iv_role : string; iv_status : string; iv_tokenHash : string; iv_createdBy : string;
  iv_expiresAt : Z; iv_resolvedAt : option Z; iv_deliveryStatus : option string; iv_createdAt : Z; iv_updatedAt : Z }.

Record Plan := {
  pl_slug : string; pl_tier : string; pl_workerLimit : Z; pl_appDeviceLimit : Z; pl_maxSeats : option Z; pl_recurring : bool;
  pl_trial : bool; pl_capabilities : json }.

Record Subscription := {
  sb_accountId : string; sb_planId : string; sb_provider : option string; sb_providerSubscriptionId : option string;
  sb_providerTransactionId : option string; sb_tier : string; sb_status : string; sb_workerLimit : Z; sb_appDeviceLimit : Z;
  sb_seats : Z; sb_capabilities : json; sb_promotional : bool; sb_trialStartedAt : option Z; sb_trialEndsAt : option Z;
  sb_currentPeriodEnd : option Z; sb_cancelledAt : option Z; sb_createdAt : Z; sb_updatedAt : Z }.

Record WebhookEvent := { we_provider : string; we_type : string; we_processedAt : Z }.

(** A row of a table, with its id. *)
Definition PlanRow : Type := string * Plan.
Definition SubscriptionRow : Type := string * Subscription.
Definition AccountInviteRow : Type := string * AccountInvite.

(** Members are keyed by account and user, customers by account and provider,
    webhook events by the provider's event id, everything else by its id. *)
Record DB := {
  users : gmap string User;
  accounts : gmap string ProductAccount;
  members : gmap (string * string) AccountMember;
  invites : gmap string AccountInvite;
  plans : gmap string Plan;
  subs : gmap string Subscription;
  customers : gmap (string * string) string;
  events : gmap string WebhookEvent }.

(** ** Selecting, updating and counting rows *)

Section tables.
Context {K V : Type} `{Countable K}.
Implicit Types (m : gmap K V) (P : K → V → bool) (f : V → V) (k : K) (v : V).

Definition select_rows P m : list (K * V) := filter (λ kv, P kv.1 kv.2 = true) (map_to_list m).
(** [findUnique], and [findFirst] where a constraint leaves at most one row. *)
Definition find_one P m : option (K * V) := head (select_rows P m).
Definition update_where P f m : gmap K V := map_imap (λ k v, Some (if P k v then f v else v)) m.
Definition count P m : Z := Z.of_nat (base.size (filter (λ kv, P kv.1 kv.2 = true) m)).

(** No two rows have the same key of the index; a row without one is not in it. *)
Definition unique_by {X} (key : K → V → option X) m : Prop := NoDup (omap (λ kv, key kv.1 kv.2) (map_to_list m)).
#[global] Instance unique_by_dec {X} `{EqDecision X} (key : K → V → option X) m : Decision (unique_by key m).
Proof. unfold unique_by. apply _. Defined.
End tables.

Definition ACTIVE : string := "active".
Definition PENDING : string := "pending".

(** ** Constraints *)

Definition active_of (k : string * string) (v : AccountMember) : option string :=
  if decide (v.(mb_status) = ACTIVE) then Some k.2 else None.
Definition pending_of (_ : string) (v : AccountInvite) : option (string * string) :=
  if decide (v.(iv_status) = PENDING) then Some (v.(iv_accountId), lower v.(iv_email)) else None.

Definition constraints (db : DB) : Prop :=
  unique_by (λ _ v, v.(sb_providerSubscriptionId)) db.(subs) ∧
  unique_by (λ _ v, v.(sb_providerTransactionId)) db.(subs) ∧
  unique_by (λ _ v, Some v.(ac_userId)) db.(accounts) ∧
  unique_by active_of db.(members) ∧
  unique_by pending_of db.(invites) ∧
  unique_by (λ k v, Some (k.2, v)) db.(customers) ∧
  unique_by (λ _ v, Some (lower v.(u_email))) db.(users) ∧
  unique_by (λ _ v, Some v.(pl_slug)) db.(plans).
#[global] Instance constraints_dec db : Decision (constraints db).
Proof. unfold constraints. apply _. Defined.

(** ** Transactions *)

(** [P2002] is the violation of a unique constraint, [NotFound] that of
    [OrThrow] and of an update by id; the others are the errors the code throws. *)
Inductive Fail :=
| P2002 | NotFound | Failed (message : string)
| AddMember (code : string) (limit : option Z)
| RemoveMember (code : string)
| UpdateSeats (code : string) (limit : option Z)
| InviteFail (code : string) (limit : option Z).

Definition Tx (A : Type) : Type := DB → Fail + (A * DB).
#[global] Instance tx_ret : MRet Tx := λ A a db, inr (a, db).
#[global] Instance tx_bind : MBind Tx := λ A B f m db, match m db with inl e => inl e | inr (a, db) => f a db end.

Definition asks {A} (f : DB → A) : Tx A := λ db, inr (f db, db).
Definition throw {A} (e : Fail) : Tx A := λ _, inl e.
Definition modify (f : DB → DB) : Tx () := λ db, if decide (constraints (f db)) then inr ((), f db) else inl P2002.
Definition require {A} (e : Fail) (o : option A) : Tx A := match o with Some a => mret a | None => throw e end.
(** [catch (e) { if (isUniqueViolation(e)) throw … }]. *)
Definition or_if_unique {A} (m : Tx A) (e : Fail) : Tx A := λ db, match m db with inl P2002 => inl e | r => r end.
(** The row of that id must exist. *)
Definition create_row {V} (get : DB → gmap string V) (set : gmap string V → DB → DB) (id : string) (v : V) : Tx () :=
  taken ← asks (λ db, get db !! id);
  match taken with Some _ => throw P2002 | None => modify (λ db, set (<[id := v]> (get db)) db) end.
Definition update_row {V} (get : DB → gmap string V) (set : gmap string V → DB → DB) (id : string) (f : V → V) : Tx V :=
  row ← asks (λ db, get db !! id);
  v ← require NotFound row;
  modify (λ db, set (<[id := f v]> (get db)) db);;
  mret (f v).

Definition set_users (m : gmap string User) (db : DB) : DB := db {{ users := m }}.
Definition set_accounts (m : gmap string ProductAccount) (db : DB) : DB := db {{ accounts := m }}.
Definition set_members (m : gmap (string * string) AccountMember) (db : DB) : DB := db {{ members := m }}.
Definition set_invites (m : gmap string AccountInvite) (db : DB) : DB := db {{ invites := m }}.
Definition set_subs (m : gmap string Subscription) (db : DB) : DB := db {{ subs := m }}.
Definition set_customers (m : gmap (string * string) string) (db : DB) : DB := db {{ customers := m }}.
Definition set_events (m : gmap string WebhookEvent) (db : DB) : DB := db {{ events := m }}.

Lemma subs_set m db : subs (set_subs m db) = m.
Proof. done. Qed.
Lemma members_set m db : members (set_members m db) = m.
Proof. done. Qed.
Lemma invites_set m db : invites (set_invites m db) = m.
Proof. done. Qed.

(** A transaction that fails changes nothing. *)
Definition atomically {A} (m : Tx A) (db : DB) : (Fail + A) * DB :=
  match m db with inl e => (inl e, db) | inr (a, db') => (inr a, db') end.

(** ** Lemmas on tables *)

Section table_lemmas.
Context {K V : Type} `{Countable K}.
Implicit Types (m : gmap K V) (P : K → V → bool) (f : V → V) (k : K) (v : V).

Lemma elem_of_rows P m k v : (k, v) ∈ select_rows P m ↔ m !! k = Some v ∧ P k v = true.
Proof. unfold select_rows. rewrite list_elem_of_filter, elem_of_map_to_list. naive_solver. Qed.

Lemma find_one_Some P m k v : find_one P m = Some (k, v) → m !! k = Some v ∧ P k v = true.
Proof. intros Hf. apply elem_of_rows. unfold find_one in Hf. destruct (select_rows P m) as [|x l]; [done|]. injection Hf as ->. by left. Qed.

Lemma find_one_None P m k v : find_one P m = None → m !! k = Some v → P k v = false.
Proof.
  intros Hf Hk. destruct (P k v) eqn:HP; [|done]. assert ((k, v) ∈ select_rows P m) as Hin by by apply elem_of_rows.
  unfold find_one in Hf. destruct (select_rows P m); [by apply not_elem_of_nil in Hin|done].
Qed.

Lemma lookup_update_where P f m k : update_where P f m !! k = (λ v, if P k v then f v else v) <$> m !! k.
Proof. unfold update_where. rewrite map_lookup_imap. by destruct (m !! k). Qed.

(** Rows of a count only matter by whether they are counted. *)
Lemma count_same P m m' :
  (∀ k, (∃ v, m !! k = Some v ∧ P k v = true) ↔ ∃ v, m' !! k = Some v ∧ P k v = true) → count P m = count P m'.
Proof.
  intros Hs. unfold count. f_equal. rewrite <-!size_dom. f_equal. apply set_eq. intros k. rewrite !elem_of_dom.
  split; intros [v [Hv Hp]%map_lookup_filter_Some]; [destruct (proj1 (Hs k)) as (v' & H1 & H2)|destruct (proj2 (Hs k)) as (v' & H1 & H2)];
    eauto; exists v'; by apply map_lookup_filter_Some.
Qed.

Lemma count_insert P m k v : P k v = true → (∀ v0, m !! k = Some v0 → P k v0 = false) → count P (<[k := v]> m) = count P m + 1.
Proof.
  intros HP Hold. unfold count. rewrite map_filter_insert_True by done. rewrite map_size_insert_None; [lia|].
  apply map_lookup_filter_None. right. intros v0 Hv0. cbn. by rewrite (Hold v0 Hv0).
Qed.

Lemma unique_by_spec {X} (key : K → V → option X) m k1 k2 v1 v2 x :
  unique_by key m → m !! k1 = Some v1 → m !! k2 = Some v2 → key k1 v1 = Some x → key k2 v2 = Some x → k1 = k2.
Proof.
  unfold unique_by. intros Hu H1%elem_of_map_to_list H2%elem_of_map_to_list K1 K2.
  pose proof (NoDup_fst_map_to_list m) as Hn. revert Hu H1 H2 Hn. generalize (map_to_list m). intros l. induction l as [|[k v] l IH]; [by intros _ ?%not_elem_of_nil|].
  cbn [omap list_omap fst snd]. intros Hu [[= -> ->]|H1]%elem_of_cons [[= <- <-]|H2]%elem_of_cons Hn; [done| | |].
  - rewrite K1 in Hu. apply NoDup_cons in Hu as [Hx _]. destruct Hx. apply list_elem_of_omap. exists (k2, v2). split; [done|]. exact K2.
  - rewrite K2 in Hu. apply NoDup_cons in Hu as [Hx _]. destruct Hx. apply list_elem_of_omap. exists (k1, v1). split; [done|]. exact K1.
  - apply IH; try done; [|by apply NoDup_cons in Hn as [_ ?]]. destruct (key k v); [by apply NoDup_cons in Hu as [_ ?]|done].
Qed.
End table_lemmas.

(** The conjuncts of a row's test, as propositions. *)
Ltac conditions :=
  repeat match goal with
  | H : _ && _ = true |- _ => apply andb_true_iff in H as [? ?]
  | H : negb _ = true |- _ => apply negb_true_iff in H
  | H : bool_decide _ = true |- _ => apply bool_decide_eq_true in H
  | H : bool_decide _ = false |- _ => apply bool_decide_eq_false in H
  end.

(** ** What a transaction that succeeds leaves

    [tx_ok m Q db]: if [m] does not fail on [db], its answer and the database it
    leaves satisfy [Q]. *)
Definition tx_ok {A} (m : Tx A) (Q : A → DB → Prop) (db : DB) : Prop := match m db with inr (a, db') => Q a db' | inl _ => True end.

Section tx_lemmas.
Implicit Types (db : DB).

Lemma ok_ret {A} (a : A) Q db : Q a db → tx_ok (mret a) Q db.
Proof. done. Qed.
Lemma ok_bind {A B} (m : Tx A) (f : A → Tx B) Q db : tx_ok m (λ a, tx_ok (f a) Q) db → tx_ok (m ≫= f) Q db.
Proof. unfold tx_ok, mbind, tx_bind. destruct (m db) as [|[a db']]; done. Qed.
Lemma ok_mono {A} (m : Tx A) (Q R : A → DB → Prop) db : tx_ok m Q db → (∀ a db', Q a db' → R a db') → tx_ok m R db.
Proof. unfold tx_ok. destruct (m db) as [|[a db']]; eauto. Qed.
Lemma ok_asks {A} (f : DB → A) Q db : Q (f db) db → tx_ok (asks f) Q db.
Proof. done. Qed.
Lemma ok_throw {A} e (Q : A → DB → Prop) db : tx_ok (throw e) Q db.
Proof. done. Qed.
Lemma ok_modify f Q db : (constraints (f db) → Q () (f db)) → tx_ok (modify f) Q db.
Proof. unfold tx_ok, modify. destruct (decide _); auto. Qed.
Lemma ok_require {A} e (o : option A) Q db : (∀ a, o = Some a → Q a db) → tx_ok (require e o) Q db.
Proof. destruct o; cbn; [by intros H; apply H|done]. Qed.
Lemma ok_create {V} get set id (v : V) Q db :
  (get db !! id = None → constraints (set (<[id := v]> (get db)) db) → Q () (set (<[id := v]> (get db)) db)) → tx_ok (create_row get set id v) Q db.
Proof. intros HQ. apply ok_bind, ok_asks. destruct (get db !! id) eqn:E; [done|]. apply ok_modify. auto. Qed.
Lemma ok_update {V} get set id (f : V → V) Q db :
  (∀ v, get db !! id = Some v → constraints (set (<[id := f v]> (get db)) db) → Q (f v) (set (<[id := f v]> (get db)) db)) →
  tx_ok (update_row get set id f) Q db.
Proof. intros HQ. apply ok_bind, ok_asks, ok_bind, ok_require. intros v Hv. apply ok_bind, ok_modify. intros Hc. apply ok_ret. auto. Qed.
Lemma ok_or_if_unique {A} (m : Tx A) e Q db : tx_ok m Q db → tx_ok (or_if_unique m e) Q db.
Proof. unfold tx_ok, or_if_unique. destruct (m db) as [[]|[a db']]; done. Qed.

(** What was read off a transaction's success. *)
Lemma ok_run {A} (m : Tx A) Q db a db' : tx_ok m Q db → m db = inr (a, db') → Q a db'.
Proof. unfold tx_ok. intros H E. by rewrite E in H. Qed.
Lemma atomically_ok {A} (m : Tx A) Q db a db' : tx_ok m Q db → atomically m db = (inr a, db') → Q a db'.
Proof. unfold tx_ok, atomically. destruct (m db) as [|[? ?]]; naive_solver. Qed.
Lemma atomically_failed {A} (m : Tx A) db e db' : atomically m db = (inl e, db') → db' = db.
Proof. unfold atomically. destruct (m db) as [|[? ?]]; naive_solver. Qed.
End tx_lemmas.

(** Walks a transaction up to its next named step. *)
Ltac tx_step :=
  match goal with
  | |- tx_ok (_ ≫= _) _ _ => apply ok_bind
  | |- tx_ok (asks _) _ _ => apply ok_asks
  | |- tx_ok (mret _) _ _ => apply ok_ret
  | |- tx_ok (throw _) _ _ => apply ok_throw
  | |- tx_ok (require _ _) _ _ => apply ok_require; intros ? ?
  | |- tx_ok (modify _) _ _ => apply ok_modify; intros ?
  | |- tx_ok (or_if_unique _ _) _ _ => apply ok_or_if_unique
  | |- tx_ok (create_row _ _ _ _) _ _ => apply ok_create; intros ? ?
  | |- tx_ok (update_row _ _ _ _) _ _ => apply ok_update; intros ? ? ?
  | |- tx_ok (match ?x with _ => _ end) _ _ => destruct x eqn:?
  end.
Ltac tx := repeat tx_step.

(** Goes over a named step by what is known of it. *)
Tactic Notation "over" uconstr(l) := eapply ok_mono; [eapply l|cbn beta].

(** Walks a transaction to its end, through the definitions of its steps. *)
Ltac tx_open :=
  match goal with
  | |- tx_ok ?m _ _ => let rec head t := lazymatch t with ?f _ => head f | _ => t end in let h := head m in unfold h
  end.
Ltac tx_all := repeat first [tx_step | progress tx_open].
