(* ===== verification/Billing.v ===== *)
(** * Billing: plans, subscriptions, memberships and billing customers

    [web/src/billing/plans.ts] and [capabilities.ts], and of [web/src/models]
    [plan.ts], [subscription.ts], [product-account.ts], [account-member.ts] and
    [billing-customer.ts], as far as they read and write the billing tables.  An
    operation reads the clock once; the ids of new rows are the database's
    choice, and so is the row it answers first where an order has ties. *)

From S2P Require Import Prelude JsMap Wire BillingDb.
From stdpp Require Import sorting.
From coqutil Require Import Datatypes.RecordSetters.
Import DoubleBraceUpdate.

#[local] Set Warnings "-notation-overridden".
Local Open Scope Z_scope.
Local Open Scope js_scope.

(** ** What the database and the machine choose *)

(** [orderBy: { cancelledAt: "desc" }]: a row without the instant comes first. *)
Definition no_older (a b : option Z) : Prop := match a, b with None, _ => True | Some _, None => False | Some x, Some y => y <= x end.

Class Postgres := {
  newest_cancelled : list SubscriptionRow → option SubscriptionRow;
  newest_cancelled_some l : l ≠ [] → is_Some (newest_cancelled l);
  newest_cancelled_in l r : newest_cancelled l = Some r → r ∈ l ∧ ∀ r', r' ∈ l → no_older r.2.(sb_cancelledAt) r'.2.(sb_cancelledAt) }.

Record World := {
  w_now : Z;
  w_uuid : nat → string;        (** the id of the n-th row of a table *)
  w_token : string }.           (** the random bytes of a token *)

(** ** plans.ts, plan.ts *)

Definition FREE_TIER : string := "free".
Definition PLAN_SLUG_FREE : string := "free".
Definition TRIAL_DAYS : Z := 7.
Definition DAY_MS : Z := 24 * 60 * 60 * 1000.
Definition isPlanId (x : string) : bool := bool_decide (x = "trial" ∨ x = "pro_yearly").

Definition findPlanBySlug (slug : string) (db : DB) : option PlanRow := find_one (λ _ p, bool_decide (p.(pl_slug) = slug)) db.(plans).

(** ** capabilities.ts *)

Record Capabilities := { sso : option bool; audit : option bool; ipAllowlist : option bool }.
Definition NO_CAPABILITIES : Capabilities := {| sso := None; audit := None; ipAllowlist := None |}.
Definition as_bool (j : json) : option bool := match j with JBool b => Some b | _ => None end.
Definition CapabilitiesSchema (j : json) : option Capabilities :=
  if is_object j then
    a ← optional_field as_bool "sso" j; b ← optional_field as_bool "audit" j; c ← optional_field as_bool "ipAllowlist" j;
    Some {| sso := a; audit := b; ipAllowlist := c |}
  else None.
Definition readCapabilities (value : json) : Capabilities := CapabilitiesSchema value ?| NO_CAPABILITIES.
(** The object as it is stored. *)
Definition capabilities_json (c : Capabilities) : json :=
  let one k (b : option bool) := match b with Some b => [(k, JBool b)] | None => [] end in
  JObj (one "sso" c.(sso) ++ one "audit" c.(audit) ++ one "ipAllowlist" c.(ipAllowlist)).

(** ** subscription.ts: reading *)

Definition CANCELED : string := "canceled".
Definition MANUAL_PROVIDER : string := "manual".

Record Entitlement := { en_tier : string; en_workerLimit : Z; en_appDeviceLimit : Z; en_promotional : bool; en_capabilities : Capabilities }.
Definition resolveEntitlement (sub : Subscription) : Entitlement := {|
  en_tier := sub.(sb_tier); en_workerLimit := sub.(sb_workerLimit); en_appDeviceLimit := sub.(sb_appDeviceLimit);
  en_promotional := sub.(sb_promotional); en_capabilities := readCapabilities sub.(sb_capabilities) |}.

(** An instant that has come; [null] never does. *)
Definition passed (now : Z) (t : option Z) : bool := match t with Some t => t <=? now | None => false end.

Definition isPendingCancellation (now : Z) (sub : Subscription) : bool :=
  bool_decide (sub.(sb_status) = ACTIVE) && match sub.(sb_cancelledAt) with Some t => now <? t | None => false end.

Definition isActiveSubscription (now : Z) (sub : Subscription) : bool :=
  if negb (bool_decide (sub.(sb_status) = ACTIVE)) then false
  else if passed now sub.(sb_cancelledAt) then false
  else if passed now sub.(sb_trialEndsAt) then false
  else if passed now sub.(sb_currentPeriodEnd) then false
  else true.

(** The same test, as a [where] clause. *)
Definition open_at (now : Z) (t : option Z) : bool := match t with None => true | Some t => now <? t end.
Definition activeSubscriptionWhere (now : Z) (accountId : string) (_ : string) (sub : Subscription) : bool :=
  bool_decide (sub.(sb_accountId) = accountId) && bool_decide (sub.(sb_status) = ACTIVE) && open_at now sub.(sb_cancelledAt) &&
  (open_at now sub.(sb_trialEndsAt) && open_at now sub.(sb_currentPeriodEnd)).

Definition plan_of (db : DB) (sub : Subscription) : option Plan := db.(plans) !! sub.(sb_planId).
Definition slug_is (db : DB) (slug : string) (sub : Subscription) : bool :=
  match plan_of db sub with Some p => bool_decide (p.(pl_slug) = slug) | None => false end.

Definition effectiveActiveSubscription (db : DB) (l : list SubscriptionRow) : option SubscriptionRow :=
  match List.find (λ r, negb (slug_is db PLAN_SLUG_FREE r.2)) l with Some r => Some r | None => head l end.

(** [orderBy: [{ createdAt: "desc" }, { id: "asc" }]]. *)
Definition newer (a b : SubscriptionRow) : Prop :=
  b.2.(sb_createdAt) < a.2.(sb_createdAt) ∨ (b.2.(sb_createdAt) = a.2.(sb_createdAt) ∧ String.leb a.1 b.1 = true).
#[global] Instance newer_dec a b : Decision (newer a b).
Proof. unfold newer. apply _. Defined.

Definition activeSubscriptionForAccount (now : Z) (accountId : string) (db : DB) : option SubscriptionRow :=
  effectiveActiveSubscription db (merge_sort newer (select_rows (activeSubscriptionWhere now accountId) db.(subs))).

(** ** account-member.ts, billing-customer.ts *)

Definition OWNER : string := "owner".
Definition MEMBER : string := "member".
Definition role_parses (role : string) : option string := if bool_decide (role = OWNER ∨ role = MEMBER) then Some role else None.

Definition active_member (k : string * string → bool) (mk : string * string) (v : AccountMember) : bool :=
  k mk && bool_decide (v.(mb_status) = ACTIVE).
Definition of_user (userId : string) (k : string * string) : bool := bool_decide (k.2 = userId).
Definition of_account (accountId : string) (k : string * string) : bool := bool_decide (k.1 = accountId).

Definition findActiveMembership (userId : string) (db : DB) : option (string * option string) :=
  '(k, v) ← find_one (active_member (of_user userId)) db.(members); Some (k.1, role_parses v.(mb_role)).

Definition account_of (userId : string) (db : DB) : option (string * ProductAccount) :=
  find_one (λ _ a, bool_decide (a.(ac_userId) = userId)) db.(accounts).

Definition resolveBillingAccountId (userId : string) (db : DB) : option string :=
  match find_one (active_member (of_user userId)) db.(members) with
  | Some (k, _) => Some k.1
  | None => fst <$> account_of userId db
  end.

Definition isBillingAccountOwner (userId : string) (db : DB) : bool :=
  match findActiveMembership userId db with None => true | Some (_, role) => bool_decide (role = Some OWNER) end.

Definition countOtherActiveMembers (accountId userId : string) (db : DB) : Z :=
  count (active_member (λ k, of_account accountId k && negb (of_user userId k))) db.(members).
Definition countOtherActiveOwners (accountId userId : string) (db : DB) : Z :=
  count (λ k v, active_member (λ k, of_account accountId k && negb (of_user userId k)) k v && bool_decide (v.(mb_role) = OWNER)) db.(members).
Definition countActiveSeatHolders (accountId : string) (db : DB) : Z := count (active_member (of_account accountId)) db.(members).

Section models.
Context `{Postgres} (w : World).
Implicit Types (db : DB).

Definition closeActiveMembership (userId status : string) : Tx () :=
  modify (λ db, set_members (update_where (active_member (of_user userId))
    (λ v, v {{ mb_status := status }} {{ mb_endedAt := Some w.(w_now) }}) db.(members)) db).

(** The [upsert] on (account, user). *)
Definition upsert_member (accountId userId role : string) (update : AccountMember → AccountMember) : Tx () :=
  modify (λ db, set_members (<[(accountId, userId) :=
    match db.(members) !! (accountId, userId) with
    | Some v => update v
    | None => {| mb_role := role; mb_status := ACTIVE; mb_joinedAt := w.(w_now); mb_endedAt := None |}
    end]> db.(members)) db).

Definition ensureOwnerMembership (accountId userId : string) : Tx () :=
  active ← asks (λ db, find_one (active_member (of_user userId)) db.(members));
  match active with
  | Some _ => mret ()
  | None => upsert_member accountId userId OWNER (λ v, v {{ mb_role := OWNER }} {{ mb_status := ACTIVE }} {{ mb_endedAt := None }})
  end.

Definition upsertBillingCustomer (accountId provider providerCustomerId : string) : Tx () :=
  modify (λ db, set_customers (<[(accountId, provider) := providerCustomerId]> db.(customers)) db).

(** ** product-account.ts *)

Definition syncUserAccountId (userId accountId : string) : Tx () :=
  modify (λ db, set_users (update_where (λ id u, bool_decide (id = userId) && bool_decide (u.(u_accountId) = None))
    (λ u, u {{ u_accountId := Some accountId }}) db.(users)) db).

Definition ensureProductAccount (userId : string) : Tx (string * ProductAccount) :=
  found ← asks (account_of userId);
  account ← match found with
            | Some a => mret a
            | None =>
                id ← asks (λ db, w.(w_uuid) (base.size db.(accounts)));
                let a := {| ac_userId := userId; ac_deletedAt := None |} in
                create_row accounts set_accounts id a;; mret (id, a)
            end;
  syncUserAccountId userId account.1;;
  match account.2.(ac_deletedAt) with
  | Some _ => mret account
  | None => ensureOwnerMembership account.1 userId;; mret account
  end.

(** ** subscription.ts: writing *)

Definition is_of_account (accountId : string) (s : Subscription) : bool := bool_decide (s.(sb_accountId) = accountId).
Definition status_is (status : string) (s : Subscription) : bool := bool_decide (s.(sb_status) = status).

Definition tombstonedAccountFallback (accountId : string) : Tx (option SubscriptionRow) :=
  owner ← asks (λ db, db.(accounts) !! accountId);
  match owner ≫= ac_deletedAt with
  | None => mret None
  | Some _ =>
      canceled ← asks (λ db, newest_cancelled (select_rows (λ _ s, is_of_account accountId s && status_is CANCELED s) db.(subs)));
      match canceled with
      | Some r => mret (Some r)
      | None => throw (Failed "cannot provision a subscription for a deleted account")
      end
  end.

Definition create_sub (s : Subscription) : Tx SubscriptionRow :=
  id ← asks (λ db, w.(w_uuid) (base.size db.(subs)));
  create_row subs set_subs id s;; mret (id, s).
Definition update_sub (id : string) (f : Subscription → Subscription) : Tx SubscriptionRow :=
  s ← update_row subs set_subs id f; mret (id, s).
Definition update_subs (P : string → Subscription → bool) (f : Subscription → Subscription) : Tx () :=
  modify (λ db, set_subs (update_where P f db.(subs)) db).

Definition ensureFreeSubscription (accountId : string) : Tx SubscriptionRow :=
  existing ← asks (activeSubscriptionForAccount w.(w_now) accountId);
  match existing with
  | Some r => mret r
  | None =>
      tombstoned ← tombstonedAccountFallback accountId;
      match tombstoned with
      | Some r => mret r
      | None =>
          plan ← asks (findPlanBySlug PLAN_SLUG_FREE);
          freePlan ← require (Failed "free plan not seeded") plan;
          canceledFree ← asks (λ db, newest_cancelled (select_rows (λ _ s,
            is_of_account accountId s && bool_decide (s.(sb_planId) = freePlan.1) && status_is CANCELED s) db.(subs)));
          match canceledFree with
          | Some (id, _) => update_sub id (λ s, s {{ sb_status := ACTIVE }} {{ sb_cancelledAt := None }} {{ sb_updatedAt := w.(w_now) }})
          | None => create_sub {|
              sb_accountId := accountId; sb_planId := freePlan.1; sb_provider := None; sb_providerSubscriptionId := None;
              sb_providerTransactionId := None; sb_tier := FREE_TIER; sb_status := ACTIVE; sb_workerLimit := freePlan.2.(pl_workerLimit);
              sb_appDeviceLimit := freePlan.2.(pl_appDeviceLimit); sb_seats := 1; sb_capabilities := JObj []; sb_promotional := false;
              sb_trialStartedAt := None; sb_trialEndsAt := None; sb_currentPeriodEnd := None; sb_cancelledAt := None;
              sb_createdAt := w.(w_now); sb_updatedAt := w.(w_now) |}
          end
      end
  end.

(** The rows a plan switch ends: those a cancellation is not pending on. *)
Definition cancellable (accountId : string) (_ : string) (s : Subscription) : bool :=
  is_of_account accountId s && status_is ACTIVE s && bool_decide (s.(sb_cancelledAt) = None).

Definition cancelActiveSubscriptions (accountId : string) : Tx () :=
  update_subs (cancellable accountId) (λ s,
    s {{ sb_status := CANCELED }} {{ sb_cancelledAt := Some w.(w_now) }} {{ sb_providerSubscriptionId := None }}
      {{ sb_providerTransactionId := None }} {{ sb_updatedAt := w.(w_now) }}).

Definition cancelAllAccountSubscriptions (accountId : string) : Tx () :=
  update_subs (λ _ s, is_of_account accountId s && status_is ACTIVE s)
    (λ s, s {{ sb_status := CANCELED }} {{ sb_cancelledAt := Some w.(w_now) }} {{ sb_updatedAt := w.(w_now) }});;
  update_subs (λ _ s, is_of_account accountId s &&
      (bool_decide (is_Some s.(sb_providerSubscriptionId)) || bool_decide (is_Some s.(sb_providerTransactionId))))
    (λ s, s {{ sb_providerSubscriptionId := None }} {{ sb_providerTransactionId := None }} {{ sb_updatedAt := w.(w_now) }}).

Record PlanFields := {
  pf_provider : string; pf_providerSubscriptionId : option string; pf_providerTransactionId : option string;
  pf_currentPeriodEnd : option Z; pf_trialStartedAt : option Z; pf_trialEndsAt : option Z; pf_workerLimit : option Z;
  pf_appDeviceLimit : option Z; pf_seats : option Z; pf_capabilities : option Capabilities; pf_promotional : bool }.

(** The columns an applied plan writes over a row; [seats] and [capabilities] of
    the row stand where the caller has none. *)
Definition applied (accountId : string) (plan : PlanRow) (f : PlanFields) (s : Subscription) : Subscription := {|
  sb_accountId := accountId; sb_planId := plan.1; sb_provider := Some f.(pf_provider);
  sb_providerSubscriptionId := f.(pf_providerSubscriptionId); sb_providerTransactionId := f.(pf_providerTransactionId);
  sb_tier := plan.2.(pl_tier); sb_status := ACTIVE; sb_workerLimit := f.(pf_workerLimit) ?| plan.2.(pl_workerLimit);
  sb_appDeviceLimit := f.(pf_appDeviceLimit) ?| plan.2.(pl_appDeviceLimit); sb_seats := f.(pf_seats) ?| s.(sb_seats);
  sb_capabilities := match f.(pf_capabilities) with Some c => capabilities_json c | None => s.(sb_capabilities) end;
  sb_promotional := f.(pf_promotional); sb_trialStartedAt := f.(pf_trialStartedAt); sb_trialEndsAt := f.(pf_trialEndsAt);
  sb_currentPeriodEnd := f.(pf_currentPeriodEnd); sb_cancelledAt := None; sb_createdAt := s.(sb_createdAt); sb_updatedAt := w.(w_now) |}.

(** The columns' defaults, and the plan's capabilities. *)
Definition fresh_row (accountId : string) (plan : PlanRow) : Subscription := {|
  sb_accountId := accountId; sb_planId := plan.1; sb_provider := None; sb_providerSubscriptionId := None; sb_providerTransactionId := None;
  sb_tier := plan.2.(pl_tier); sb_status := ACTIVE; sb_workerLimit := plan.2.(pl_workerLimit); sb_appDeviceLimit := plan.2.(pl_appDeviceLimit);
  sb_seats := 1; sb_capabilities := capabilities_json (readCapabilities plan.2.(pl_capabilities)); sb_promotional := false;
  sb_trialStartedAt := None; sb_trialEndsAt := None; sb_currentPeriodEnd := None; sb_cancelledAt := None; sb_createdAt := w.(w_now);
  sb_updatedAt := w.(w_now) |}.

(** [undefined], [null] and the empty string are false. *)
Definition given (o : option string) : option string := match o with Some EmptyString => None | o => o end.

Definition by_provider_id (psid : string) (_ : string) (s : Subscription) : bool :=
  bool_decide (s.(sb_providerSubscriptionId) = Some psid).

Definition applyPlanToAccountSubscription (accountId : string) (plan : PlanRow) (f : PlanFields) : Tx SubscriptionRow :=
  cancelActiveSubscriptions accountId;;
  existing ← asks (λ db, psid ← given f.(pf_providerSubscriptionId); find_one (by_provider_id psid) db.(subs));
  match existing with
  | Some (id, _) => update_sub id (applied accountId plan f)
  | None => create_sub (applied accountId plan f (fresh_row accountId plan))
  end.

Definition no_fields (provider : string) : PlanFields := {|
  pf_provider := provider; pf_providerSubscriptionId := None; pf_providerTransactionId := None; pf_currentPeriodEnd := None;
  pf_trialStartedAt := None; pf_trialEndsAt := None; pf_workerLimit := None; pf_appDeviceLimit := None; pf_seats := None;
  pf_capabilities := None; pf_promotional := false |}.

Definition ensureDefaultSubscription (accountId : string) : Tx SubscriptionRow :=
  existing ← asks (activeSubscriptionForAccount w.(w_now) accountId);
  let promote :=
    plan ← asks (findPlanBySlug "pro_yearly");
    proPlan ← require (Failed "pro_yearly plan not seeded") plan;
    applyPlanToAccountSubscription accountId proPlan
      ((no_fields "promo") {{ pf_promotional := true }} {{ pf_seats := proPlan.2.(pl_maxSeats) }}) in
  match existing with
  | Some r => if negb (bool_decide (r.2.(sb_tier) = FREE_TIER)) then mret r else promote
  | None =>
      tombstoned ← tombstonedAccountFallback accountId;
      match tombstoned with Some r => mret r | None => promote end
  end.

Definition provisionProductAccountForUser (userId : string) : Tx string :=
  billing ← asks (λ db,
    '(accountId, _) ← findActiveMembership userId db;
    a ← db.(accounts) !! accountId;
    if bool_decide (a.(ac_userId) = userId) then None else Some accountId);
  match billing with
  | Some accountId => mret accountId
  | None =>
      account ← ensureProductAccount userId;
      ensureDefaultSubscription account.1;;
      mret account.1
  end.

Record Contract := {
  ct_planSlug : option string; ct_workerLimit : option Z; ct_appDeviceLimit : option Z; ct_seats : option Z;
  ct_capabilities : option Capabilities; ct_currentPeriodEnd : option Z }.

Definition grantManualContract (userId : string) (c : Contract) : Tx SubscriptionRow :=
  accountId ← provisionProductAccountForUser userId;
  let planSlug := c.(ct_planSlug) ?| "enterprise" in
  found ← asks (findPlanBySlug planSlug);
  plan ← require (Failed ("unknown plan slug: " +:+ planSlug)) found;
  applyPlanToAccountSubscription accountId plan
    ((no_fields MANUAL_PROVIDER) {{ pf_currentPeriodEnd := c.(ct_currentPeriodEnd) }} {{ pf_workerLimit := c.(ct_workerLimit) }}
       {{ pf_appDeviceLimit := c.(ct_appDeviceLimit) }} {{ pf_seats := c.(ct_seats) }} {{ pf_capabilities := c.(ct_capabilities) }}).
End models.
