(* ===== verification/BillingReducer.v ===== *)
(** * BillingReducer: a payment gateway's events

    [web/src/billing/reducer.ts] with [events.ts].  An event is handled in two
    moments: what is read before the transaction, and the transaction, which runs
    on whatever the database has become by then. *)

From S2P Require Import Prelude JsMap Wire BillingDb Billing.
From coqutil Require Import Datatypes.RecordSetters.
Import DoubleBraceUpdate.

#[local] Set Warnings "-notation-overridden".
Local Open Scope Z_scope.
Local Open Scope js_scope.

Inductive NormalizedEventType := activated | renewed | canceled | past_due | expired.
#[global] Instance NormalizedEventType_eq_dec : EqDecision NormalizedEventType.
Proof. solve_decision. Defined.

Record NormalizedEvent := {
  ne_provider : string; ne_providerEventId : string; ne_type : NormalizedEventType; ne_accountId : string; ne_planId : string;
  ne_customerId : string; ne_providerSubscriptionId : option string; ne_providerTransactionId : option string;
  ne_currentPeriodEnd : option Z; ne_quantity : option Z }.

Definition STATUS_BY_TYPE (t : NormalizedEventType) : string :=
  match t with activated | renewed => ACTIVE | past_due => "past_due" | canceled => CANCELED | expired => "expired" end.
Definition type_text (t : NormalizedEventType) : string :=
  match t with activated => "activated" | renewed => "renewed" | past_due => "past_due" | canceled => "canceled" | expired => "expired" end.

Definition provider_sub (ev : NormalizedEvent) (db : DB) : option SubscriptionRow :=
  psid ← given ev.(ne_providerSubscriptionId); find_one (by_provider_id psid) db.(subs).

Definition resolveEventIdentity (ev : NormalizedEvent) (db : DB) : option NormalizedEvent :=
  let known := '(_, s) ← provider_sub ev db; p ← plan_of db s; if isPlanId p.(pl_slug) then Some (s, p) else None in
  match known with
  | Some (s, p) => Some (ev {{ ne_accountId := s.(sb_accountId) }} {{ ne_planId := p.(pl_slug) }})
  | None =>
      if bool_decide (ev.(ne_accountId) ≠ EmptyString) && bool_decide (ev.(ne_planId) ≠ EmptyString)
      then findPlanBySlug ev.(ne_planId) db;; Some ev
      else None
  end.

(** A stored row of this account and plan. *)
Definition own_row (ev : NormalizedEvent) (db : DB) (s : Subscription) : bool :=
  bool_decide (s.(sb_accountId) = ev.(ne_accountId)) && slug_is db ev.(ne_planId) s.

Section reducer.
Context `{Postgres} (w : World).
Implicit Types (db : DB) (ev : NormalizedEvent) (plan : PlanRow).

Definition isDuplicateActivation ev db : bool :=
  bool_decide (ev.(ne_type) = activated) &&
  match provider_sub ev db with
  | Some (_, s) =>
      match plan_of db s with
      | Some p =>
          isPlanId p.(pl_slug) && own_row ev db s &&
          match ev.(ne_quantity) with Some q => bool_decide (q = s.(sb_seats)) | None => true end &&
          isActiveSubscription w.(w_now) s
      | None => false
      end
  | None => false
  end.

Definition event_row ev : WebhookEvent := {|
  we_provider := ev.(ne_provider); we_type := type_text ev.(ne_type); we_processedAt := w.(w_now) |}.
Definition create_event ev : Tx () := create_row events set_events ev.(ne_providerEventId) (event_row ev).

(** ** Before the transaction *)

Inductive Arrival :=
| Answered (duplicate : bool)
| Throws (message : string)
| Ready (ev : NormalizedEvent) (plan : PlanRow).

Definition arrive ev db : Arrival * DB :=
  match db.(events) !! ev.(ne_providerEventId) with
  | Some _ => (Answered true, db)
  | None =>
      match resolveEventIdentity ev db with
      | None => (Answered false, db)
      | Some ev =>
          match db.(accounts) !! ev.(ne_accountId) with
          | None => (Answered false, db)
          | Some account =>
              match account.(ac_deletedAt) with
              | Some _ => (Answered false, (atomically (create_event ev) db).2)
              | None =>
                  match findPlanBySlug ev.(ne_planId) db with
                  | None => (Throws ("unknown plan: " +:+ ev.(ne_planId)), db)
                  | Some plan => (if isDuplicateActivation ev db then Answered true else Ready ev plan, db)
                  end
              end
          end
      end
  end.

(** ** The transaction *)

Definition purchase ev : PlanFields :=
  (no_fields ev.(ne_provider)) {{ pf_providerSubscriptionId := ev.(ne_providerSubscriptionId) }}
    {{ pf_providerTransactionId := ev.(ne_providerTransactionId) }} {{ pf_currentPeriodEnd := ev.(ne_currentPeriodEnd) }}
    {{ pf_seats := ev.(ne_quantity) }}.

Definition upgradeTrialToProYearlyOnRenewal ev : Tx bool :=
  active ← asks (λ db,
    psid ← given ev.(ne_providerSubscriptionId);
    find_one (λ id s, by_provider_id psid id s && status_is ACTIVE s && bool_decide (s.(sb_cancelledAt) = None)) db.(subs));
  on_trial ← asks (λ db, match active with Some (_, s) => slug_is db "trial" s | None => false end);
  if negb on_trial then mret false
  else
    found ← asks (findPlanBySlug "pro_yearly");
    yearly ← require (Failed "pro_yearly plan missing") found;
    applyPlanToAccountSubscription w ev.(ne_accountId) yearly (purchase ev);;
    mret true.

Definition applySeatChangeInPlace ev : Tx bool :=
  found ← asks (λ db,
    q ← ev.(ne_quantity);
    '(id, s) ← provider_sub ev db;
    if own_row ev db s && isActiveSubscription w.(w_now) s then Some (id, q) else None);
  match found with
  | None => mret false
  | Some (id, q) => update_sub id (λ s, s {{ sb_seats := q }} {{ sb_updatedAt := w.(w_now) }});; mret true
  end.

Definition activation ev plan : PlanFields :=
  if bool_decide (plan.2.(pl_slug) = "trial")
  then (purchase ev) {{ pf_trialStartedAt := Some w.(w_now) }}
         {{ pf_trialEndsAt := Some (ev.(ne_currentPeriodEnd) ?| (w.(w_now) + TRIAL_DAYS * DAY_MS)) }}
  else purchase ev.

Definition provisionActivatedPlan ev plan : Tx () :=
  upsertBillingCustomer ev.(ne_accountId) ev.(ne_provider) ev.(ne_customerId);;
  applyPlanToAccountSubscription w ev.(ne_accountId) plan (activation ev plan);;
  mret ().

(** What a renewal writes over the row. *)
Definition renew ev (s : Subscription) : Subscription :=
  s {{ sb_status := ACTIVE }}
    {{ sb_currentPeriodEnd := match ev.(ne_currentPeriodEnd) with Some t => Some t | None => s.(sb_currentPeriodEnd) end }}
    {{ sb_seats := ev.(ne_quantity) ?| s.(sb_seats) }}
    {{ sb_providerTransactionId := match given ev.(ne_providerTransactionId) with Some t => Some t | None => s.(sb_providerTransactionId) end }}
    {{ sb_updatedAt := w.(w_now) }}.

Definition ends (t : NormalizedEventType) : bool := match t with canceled | expired => true | _ => false end.

Definition close_row ev (s : Subscription) : Subscription :=
  s {{ sb_status := STATUS_BY_TYPE ev.(ne_type) }}
    {{ sb_cancelledAt := if ends ev.(ne_type) then Some w.(w_now) else s.(sb_cancelledAt) }} {{ sb_updatedAt := w.(w_now) }}.

Definition apply_renewal ev plan : Tx () :=
  converted ← upgradeTrialToProYearlyOnRenewal ev;
  if (converted : bool) then mret ()
  else
    match given ev.(ne_providerSubscriptionId) with
    | None => mret ()
    | Some psid =>
        existing ← asks (provider_sub ev);
        match existing with
        | None => provisionActivatedPlan ev plan
        | Some _ => update_subs (by_provider_id psid) (renew ev)
        end
    end.

Definition apply_activation ev plan : Tx () :=
  in_place ← applySeatChangeInPlace ev;
  if (in_place : bool) then mret () else provisionActivatedPlan ev plan.

Definition apply_ending ev : Tx () :=
  match given ev.(ne_providerSubscriptionId) with
  | None => mret ()
  | Some psid =>
      update_subs (by_provider_id psid) (close_row ev);;
      if ends ev.(ne_type) then ensureFreeSubscription w ev.(ne_accountId);; mret () else mret ()
  end.

Definition commit ev plan : Tx () :=
  create_event ev;;
  match ev.(ne_type) with
  | renewed => apply_renewal ev plan
  | activated => apply_activation ev plan
  | canceled | past_due | expired => apply_ending ev
  end.

(** Any unique violation is taken for a redelivery. *)
Inductive Settled := Done (duplicate : bool) | Thrown (e : Fail).

Definition settle ev plan db : Settled * DB :=
  match atomically (commit ev plan) db with
  | (inr _, db') => (Done false, db')
  | (inl P2002, db') => (Done true, db')
  | (inl e, db') => (Thrown e, db')
  end.
End reducer.

(** The relay is then told about these users. *)
Definition listBillingAccountUserIds (accountId : string) (db : DB) : gset string :=
  list_to_set ((λ kv, kv.1.2) <$> select_rows (active_member (of_account accountId)) db.(members)) ∪
  match db.(accounts) !! accountId with Some a => {[a.(ac_userId)]} | None => ∅ end.
