(* ===== verification/BillingTeam.v ===== *)
(** * BillingTeam: seats, members and invitations, cancelling and deleting

    [web/src/billing/add-member.ts], [remove-member.ts], [update-seats.ts] and
    [invite.ts] with [web/src/models/account-invite.ts]: each transaction as it is
    written, and each operation that waits in between as its parts.  The keyed
    hash and the address format of the schema library are parameters; mail, the
    gateways' requests and the relay's notifications are outside. *)

From S2P Require Import Prelude JsMap Wire BillingDb Billing.
From coqutil Require Import Datatypes.RecordSetters.
From stdpp Require Import sorting.
Import DoubleBraceUpdate.
#[local] Set Warnings "-notation-overridden".
Local Open Scope Z_scope.
Local Open Scope js_scope.

Class Crypto := {
  hmacBytes : string → string → string;      (** the keyed hash of a value, as bytes *)
  is_email : string → bool;                  (** [z.email()] *)
  secret : string }.

Definition hmacMatches `{Crypto} (stored presented : string) : bool :=
  let computed := hmacBytes secret presented in
  if negb (bool_decide (String.length stored = String.length computed)) then false else bool_decide (stored = computed).

Section team.
Context `{Postgres, Crypto} (w : World).
Implicit Types (db : DB).

(** ** add-member.ts *)

Definition holdsPurchasedSubscription (accountId : string) : Tx bool :=
  sub ← asks (activeSubscriptionForAccount w.(w_now) accountId);
  match sub with
  | None => mret false
  | Some (_, s) =>
      if s.(sb_promotional) then mret false
      else
        found ← asks (λ db, plan_of db s);
        plan ← require NotFound found;
        mret (negb (bool_decide (plan.(pl_slug) = PLAN_SLUG_FREE)) && plan.(pl_recurring))
  end.

Record Waive := { waive_seatCap : bool; waive_paidSubscription : bool }.
Definition no_waiver : Waive := {| waive_seatCap := false; waive_paidSubscription := false |}.

(** A free seat, or the refusal. *)
Definition check_seat (accountId : string) : Tx () :=
  sub ← asks (activeSubscriptionForAccount w.(w_now) accountId);
  match sub with
  | None => throw (AddMember "NO_ACTIVE_SUBSCRIPTION" None)
  | Some (_, s) =>
      seatHolders ← asks (countActiveSeatHolders accountId);
      if s.(sb_seats) <=? seatHolders then throw (AddMember "SEAT_CAP" (Some s.(sb_seats))) else mret ()
  end.

Definition is_held (accountId userId : string) db : bool :=
  match db.(members) !! (accountId, userId) with Some v => bool_decide (v.(mb_status) = ACTIVE) | None => false end.

Definition set_user_account (userId accountId : string) : Tx User :=
  update_row users set_users userId (λ u, u {{ u_accountId := Some accountId }}).

Definition addAccountMember (accountId userId role : string) (waive : Waive) : Tx Z :=
  personal ← asks (λ db, fst <$> account_of userId db);
  if bool_decide (personal = Some accountId) then throw (AddMember "ALREADY_ON_THIS_ACCOUNT" None)
  else
    held ← asks (is_held accountId userId);
    if (held : bool) then throw (AddMember "ALREADY_ON_THIS_ACCOUNT" None)
    else
      (if waive.(waive_seatCap) then mret () else check_seat accountId);;
      (match personal with
       | Some p =>
           if waive.(waive_paidSubscription) then mret ()
           else paid ← holdsPurchasedSubscription p;
                if (paid : bool) then throw (AddMember "HAS_PAID_SUBSCRIPTION" None) else mret ()
       | None => mret ()
       end);;
      closeActiveMembership w userId "left";;
      (match personal with Some p => cancelActiveSubscriptions w p | None => mret () end);;
      upsert_member w accountId userId role (λ v,
        v {{ mb_role := role }} {{ mb_status := ACTIVE }} {{ mb_endedAt := None }} {{ mb_joinedAt := w.(w_now) }});;
      set_user_account userId accountId;;
      asks (countActiveSeatHolders accountId).

(** ** remove-member.ts *)

Definition removeAccountMember (accountId userId status : string) : Tx () :=
  held ← asks (is_held accountId userId);
  if negb held then throw (RemoveMember "NOT_A_MEMBER")
  else
    found ← asks (λ db, db.(accounts) !! accountId);
    account ← require NotFound found;
    if bool_decide (account.(ac_userId) = userId) then throw (RemoveMember "ACCOUNT_OWNER")
    else
      owners ← asks (countOtherActiveOwners accountId userId);
      if bool_decide (owners = 0) then throw (RemoveMember "LAST_OWNER")
      else
        closeActiveMembership w userId status;;
        personal ← ensureProductAccount w userId;
        set_user_account userId personal.1;;
        mret ().

(** ** update-seats.ts *)

(** What is refused before anything is read. *)
Definition seats_refused (plan : Plan) (sub : Subscription) (seats : Z) : option Fail :=
  if negb plan.(pl_recurring) then Some (UpdateSeats "NOT_RECURRING" None)
  else if negb (bool_decide (sub.(sb_status) = ACTIVE)) || isPendingCancellation w.(w_now) sub
  then Some (UpdateSeats "NO_ACTIVE_SUBSCRIPTION" None)
  else match plan.(pl_maxSeats) with
       | Some m => if m <? seats then Some (UpdateSeats "SEATS_ABOVE_PLAN_MAX" (Some m)) else None
       | None => None
       end.

Definition write_seats (subscriptionId : string) (seats : Z) : Tx SubscriptionRow :=
  update_sub subscriptionId (λ s, s {{ sb_seats := seats }} {{ sb_updatedAt := w.(w_now) }}).

Definition reserve_seats (accountId subscriptionId : string) (seats : Z) : Tx Z :=
  active ← asks (countActiveSeatHolders accountId);
  if seats <? active then throw (UpdateSeats "SEATS_BELOW_HEADCOUNT" (Some active))
  else write_seats subscriptionId seats;; mret active.

(** What follows once the row is written: the answer of the gateway is [None] if
    it took the change.  A grant of the development tools has no gateway. *)
Definition is_gateway (sub : Subscription) : bool :=
  match sub.(sb_provider) with None => false | Some p => negb (bool_decide (p = "dev")) end.
Definition seats_answer (sub : SubscriptionRow) (gateway : option Fail) : option Fail :=
  if is_gateway sub.2 then
    match given sub.2.(sb_providerSubscriptionId) with
    | Some _ => gateway
    | None => Some (UpdateSeats "NO_PROVIDER_SUBSCRIPTION" None)
    end
  else None.
Definition settle_seats (sub : SubscriptionRow) (gateway : option Fail) : Tx () :=
  match seats_answer sub gateway with
  | Some _ => write_seats sub.1 sub.2.(sb_seats);; mret ()
  | None => mret ()
  end.

(** ** account-invite.ts, invite.ts *)

Definition INVITE_TTL_SECONDS : Z := 7 * 24 * 60 * 60.
Definition normalizeInviteEmail (raw : string) : string := lower (trim raw).

Definition outstanding (accountId : string) (_ : string) (i : AccountInvite) : bool :=
  bool_decide (i.(iv_accountId) = accountId) && bool_decide (i.(iv_status) = PENDING).
Definition live_invite (accountId id : string) (i : AccountInvite) : bool := outstanding accountId id i && (w.(w_now) <? i.(iv_expiresAt)).

Definition countPendingInvites (accountId : string) db : Z := count (live_invite accountId) db.(invites).

Definition resolve_invite (status : string) (i : AccountInvite) : AccountInvite :=
  i {{ iv_status := status }} {{ iv_resolvedAt := Some w.(w_now) }} {{ iv_updatedAt := w.(w_now) }}.

Definition update_invites (P : string → AccountInvite → bool) (f : AccountInvite → AccountInvite) : Tx () :=
  modify (λ db, set_invites (update_where P f db.(invites)) db).

Definition expireStalePendingInvites (accountId : string) : Tx () :=
  update_invites (λ id i, outstanding accountId id i && (i.(iv_expiresAt) <=? w.(w_now))) (resolve_invite "expired").

Definition arm_token (i : AccountInvite) : AccountInvite :=
  i {{ iv_tokenHash := hmacBytes secret w.(w_token) }} {{ iv_expiresAt := w.(w_now) + INVITE_TTL_SECONDS * 1000 }}
    {{ iv_deliveryStatus := None }} {{ iv_updatedAt := w.(w_now) }}.

Definition createInvite (accountId email role createdBy : string) : Tx AccountInviteRow :=
  id ← asks (λ db, w.(w_uuid) (base.size db.(invites)));
  let row := {|
    iv_accountId := accountId; iv_email := email; iv_role := role; iv_status := PENDING; iv_tokenHash := hmacBytes secret w.(w_token);
    iv_createdBy := createdBy; iv_expiresAt := w.(w_now) + INVITE_TTL_SECONDS * 1000; iv_resolvedAt := None; iv_deliveryStatus := None;
    iv_createdAt := w.(w_now); iv_updatedAt := w.(w_now) |} in
  create_row invites set_invites id row;; mret (id, row).

Definition createAccountInvite (accountId rawEmail role createdBy : string) : Tx AccountInviteRow :=
  let email := normalizeInviteEmail rawEmail in
  if negb (is_email email) then throw (InviteFail "INVALID_EMAIL" None)
  else
    there ← asks (λ db,
      '(id, _) ← find_one (λ _ u, bool_decide (lower u.(u_email) = email)) db.(users);
      if is_held accountId id db || bool_decide (fst <$> account_of id db = Some accountId) then Some id else None);
    match there with
    | Some _ => throw (InviteFail "ALREADY_MEMBER" None)
    | None =>
        expireStalePendingInvites accountId;;
        sub ← asks (activeSubscriptionForAccount w.(w_now) accountId);
        match sub with
        | None => throw (InviteFail "NO_ACTIVE_SUBSCRIPTION" None)
        | Some (_, s) =>
            seatHolders ← asks (countActiveSeatHolders accountId);
            if s.(sb_seats) <? seatHolders then throw (InviteFail "OVER_SUBSCRIBED" (Some s.(sb_seats)))
            else
              pending ← asks (countPendingInvites accountId);
              if s.(sb_seats) <=? seatHolders + pending then throw (InviteFail "SEAT_CAP" (Some s.(sb_seats)))
              else or_if_unique (createInvite accountId email role createdBy) (InviteFail "ALREADY_INVITED" None)
        end
    end.

Definition resendAccountInvite (id accountId : string) : Tx (option AccountInviteRow) :=
  pending ← asks (λ db, i ← db.(invites) !! id; if outstanding accountId id i then Some i else None);
  match pending with
  | None => mret None
  | Some _ =>
      update_invites (λ k i, bool_decide (k = id) && outstanding accountId k i) arm_token;;
      asks (λ db, i ← db.(invites) !! id; Some (id, i))
  end.

Definition revokeInvite (accountId id : string) : Tx bool :=
  there ← asks (λ db, match db.(invites) !! id with Some i => outstanding accountId id i | None => false end);
  update_invites (λ k i, bool_decide (k = id) && outstanding accountId k i) (resolve_invite "revoked");;
  mret there.

Definition still_pending (i : AccountInvite) : bool := bool_decide (i.(iv_status) = PENDING) && (w.(w_now) <? i.(iv_expiresAt)).

Definition markInviteAccepted (id : string) : Tx bool :=
  there ← asks (λ db, match db.(invites) !! id with Some i => still_pending i | None => false end);
  update_invites (λ k i, bool_decide (k = id) && still_pending i) (resolve_invite "accepted");;
  mret there.

(** *** Accepting: the reads, the membership, the consumption *)

Definition accept_arrives (inviteId token userId : string) db : Fail + (string * string) :=
  match db.(users) !! userId with
  | None => inl NotFound
  | Some user =>
      match (i ← db.(invites) !! inviteId; if still_pending i then Some i else None) with
      | None => inl (InviteFail "INVALID_LINK" None)
      | Some i =>
          if negb (hmacMatches i.(iv_tokenHash) token) then inl (InviteFail "INVALID_LINK" None)
          else match role_parses i.(iv_role) with
               | None => inl (InviteFail "UNKNOWN_ROLE" None)
               | Some role =>
                   if negb (bool_decide (normalizeInviteEmail user.(u_email) = normalizeInviteEmail i.(iv_email)))
                   then inl (InviteFail "EMAIL_MISMATCH" None)
                   else if negb user.(u_emailVerified) then inl (InviteFail "EMAIL_UNVERIFIED" None)
                   else inr (i.(iv_accountId), role)
               end
      end
  end.

(** Whether the invitation is to be consumed: [inr] of the account joined. *)
Definition accept_joins (accountId userId role : string) db : (Fail + ()) * DB :=
  match atomically (addAccountMember accountId userId role no_waiver) db with
  | (inr _, db') => (inr (), db')
  | (inl (AddMember code limit), db') =>
      (if bool_decide (code = "ALREADY_ON_THIS_ACCOUNT") then inr () else inl (InviteFail code limit), db')
  | (inl e, db') => (inl e, db')
  end.
End team.

(** * Cancelling, resuming, reconciling, deleting

    [web/src/billing/cancel-subscription.ts] and [reconcile-seats.ts], and the
    billing part of [deleteUserAccount] of [web/src/services/account.ts].  A
    gateway's answer is an argument; credentials, devices, sessions and the
    relay's notifications are outside. *)

Section account.
Context `{Postgres} (w : World).
Implicit Types (db : DB).

(** ** cancel-subscription.ts *)

Inductive CancelEffective := immediately | end_of_period.
Definition cancelEffectiveForPlan (plan : Plan) : CancelEffective := if plan.(pl_trial) then immediately else end_of_period.
Definition periodEndForSubscription (sub : Subscription) : Z := sub.(sb_currentPeriodEnd) ?| (w.(w_now) + 365 * DAY_MS).

Definition cancel_refused (plan : Plan) (sub : Subscription) : option Fail :=
  if negb plan.(pl_recurring) then Some (Failed "NOT_RECURRING")
  else if negb (bool_decide (sub.(sb_status) = ACTIVE)) || isPendingCancellation w.(w_now) sub then Some (Failed "NO_ACTIVE_SUBSCRIPTION")
  else if is_gateway sub && bool_decide (given sub.(sb_providerSubscriptionId) = None) then Some (Failed "NO_PROVIDER_SUBSCRIPTION")
  else None.

Definition end_at (periodEnd : Z) (s : Subscription) : Subscription :=
  s {{ sb_cancelledAt := Some periodEnd }} {{ sb_currentPeriodEnd := Some periodEnd }} {{ sb_updatedAt := w.(w_now) }}.

(** What is written before the gateway is asked; a grant of the development
    tools has no gateway. *)
Definition cancel_writes (plan : Plan) (sub : SubscriptionRow) : Tx () :=
  match cancelEffectiveForPlan plan with
  | immediately =>
      if is_gateway sub.2 then mret ()
      else
        update_sub sub.1 (λ s, s {{ sb_status := CANCELED }} {{ sb_cancelledAt := Some w.(w_now) }} {{ sb_updatedAt := w.(w_now) }});;
        ensureFreeSubscription w sub.2.(sb_accountId);;
        mret ()
  | end_of_period => update_sub sub.1 (end_at (periodEndForSubscription sub.2));; mret ()
  end.

(** The gateway's answer: the end of the period it names, or its refusal. *)
Definition cancel_settles (plan : Plan) (sub : SubscriptionRow) (gateway : Fail + option Z) : Tx () :=
  match cancelEffectiveForPlan plan with
  | immediately => mret ()
  | end_of_period =>
      if negb (is_gateway sub.2) then mret ()
      else
        match gateway with
        | inr (Some periodEnd) =>
            if bool_decide (periodEnd = periodEndForSubscription sub.2) then mret ()
            else update_sub sub.1 (end_at periodEnd);; mret ()
        | inr None => mret ()
        | inl _ => update_sub sub.1 (λ s, s {{ sb_cancelledAt := None }} {{ sb_updatedAt := w.(w_now) }});; mret ()
        end
  end.

Definition resume_refused (plan : Plan) (sub : Subscription) : option Fail :=
  if negb plan.(pl_recurring) then Some (Failed "NOT_RECURRING")
  else if negb (isPendingCancellation w.(w_now) sub) then Some (Failed "NOT_PENDING_CANCELLATION")
  else if is_gateway sub && bool_decide (given sub.(sb_providerSubscriptionId) = None) then Some (Failed "NO_PROVIDER_SUBSCRIPTION")
  else None.

(** Once the gateway has resumed it, where there is one. *)
Definition resume_writes (sub : SubscriptionRow) : Tx () :=
  update_sub sub.1 (λ s, s {{ sb_cancelledAt := None }} {{ sb_updatedAt := w.(w_now) }});; mret ().

(** ** reconcile-seats.ts *)

Inductive SkipReason := unreadable_quantity | no_longer_live | changed_during_read.
Inductive StoreOutcome := Stored (seatsBefore headcount : Z) | Skipped (reason : SkipReason).

Definition storeBilledSeats (accountId subscriptionId : string) (observedSeats billedSeats : Z) : Tx StoreOutcome :=
  current ← asks (λ db, db.(subs) !! subscriptionId);
  match current with
  | None => mret (Skipped no_longer_live)
  | Some s =>
      if negb (bool_decide (s.(sb_status) = ACTIVE)) then mret (Skipped no_longer_live)
      else if negb (bool_decide (s.(sb_seats) = observedSeats)) then mret (Skipped changed_during_read)
      else
        headcount ← asks (countActiveSeatHolders accountId);
        (if bool_decide (s.(sb_seats) = billedSeats) then mret ()
         else update_sub subscriptionId (λ s, s {{ sb_seats := billedSeats }} {{ sb_updatedAt := w.(w_now) }});; mret ());;
        mret (Stored s.(sb_seats) headcount)
  end.

Definition GATEWAY_PROVIDERS : list string := ["paddle"; "razorpay"].
Definition billed_by_gateway (_ : string) (s : Subscription) : bool :=
  bool_decide (s.(sb_status) = ACTIVE) && match s.(sb_provider) with Some p => bool_decide (p ∈ GATEWAY_PROVIDERS) | None => false end &&
  bool_decide (is_Some s.(sb_providerSubscriptionId)).

Inductive Finding :=
| Drifted (seatsBefore seatsAfter headcount : Z)
| OverSubscribed (seats headcount : Z)
| SkippedSub (reason : SkipReason)
| FailedSub (e : Fail).

Record Report := { checked : nat; found : list (string * Finding) }.

(** One subscription of the sweep, on what the database is once its gateway has
    answered. *)
Definition reconcile_one (sub : SubscriptionRow) (reading : Fail + option Z) db : list (string * Finding) * DB :=
  match reading with
  | inl e => ([(sub.1, FailedSub e)], db)
  | inr None => ([(sub.1, SkippedSub unreadable_quantity)], db)
  | inr (Some billed) =>
      match atomically (storeBilledSeats sub.2.(sb_accountId) sub.1 sub.2.(sb_seats) billed) db with
      | (inl e, db') => ([(sub.1, FailedSub e)], db')
      | (inr (Skipped reason), db') => ([(sub.1, SkippedSub reason)], db')
      | (inr (Stored before headcount), db') =>
          ((if bool_decide (before = billed) then [] else [(sub.1, Drifted before billed headcount)]) ++
           (if billed <? headcount then [(sub.1, OverSubscribed billed headcount)] else []), db')
      end
  end.

(** [truthy] provider and provider id. *)
Definition addressed (s : Subscription) : bool :=
  bool_decide (is_Some (given s.(sb_provider))) && bool_decide (is_Some (given s.(sb_providerSubscriptionId))).

Definition oldest_first (a b : SubscriptionRow) : Prop := a.2.(sb_createdAt) <= b.2.(sb_createdAt).
#[global] Instance oldest_first_dec a b : Decision (oldest_first a b).
Proof. unfold oldest_first. apply _. Defined.

(** The sweep: what the gateways answer, and what the rest of the system does to
    the database while they are asked, are arguments. *)
Fixpoint sweep (read : SubscriptionRow → Fail + option Z) (meanwhile : string → DB → DB) (l : list SubscriptionRow) db :
    list (string * Finding) * DB :=
  match l with
  | [] => ([], db)
  | sub :: l =>
      if addressed sub.2 then
        let '(f, db) := reconcile_one sub (read sub) (meanwhile sub.1 db) in
        let '(fs, db) := sweep read meanwhile l db in (f ++ fs, db)
      else sweep read meanwhile l db
  end.
Definition reconcileSeats (read : SubscriptionRow → Fail + option Z) (meanwhile : string → DB → DB) db : Report * DB :=
  let l := merge_sort oldest_first (select_rows billed_by_gateway db.(subs)) in
  let '(fs, db) := sweep read meanwhile l db in
  ({| checked := length l; found := fs |}, db).

(** ** services/account.ts *)

Definition hasRenewingPaidSubscription (userId : string) db : bool :=
  match account_of userId db with
  | None => false
  | Some (accountId, _) =>
      match activeSubscriptionForAccount w.(w_now) accountId db with
      | None => false
      | Some (_, s) =>
          if s.(sb_promotional) then false
          else match plan_of db s with
               | None => false
               | Some p => if bool_decide (p.(pl_slug) = PLAN_SLUG_FREE) then false else negb (isPendingCancellation w.(w_now) s)
               end
      end
  end.

Definition isBlockedByTeamMembers (userId : string) db : bool :=
  match account_of userId db with Some (accountId, _) => 0 <? countOtherActiveMembers accountId userId db | None => false end.

(** The guards; [inr] of the account and whether the user is on another's team. *)
Inductive DeleteAccountResult := deleted | blocked_subscription | blocked_team.
Definition delete_guards (userId : string) : Tx (DeleteAccountResult + (string * bool)) :=
  account ← ensureProductAccount w userId;
  match account.2.(ac_deletedAt) with
  | Some _ => mret (inl deleted)
  | None =>
      membership ← asks (findActiveMembership userId);
      team ← asks (isBlockedByTeamMembers userId);
      paid ← asks (hasRenewingPaidSubscription userId);
      mret (if (team : bool) then inl blocked_team
            else if (paid : bool) then inl blocked_subscription
            else inr (account.1, match membership with Some (a, _) => negb (bool_decide (a = account.1)) | None => false end))
  end.

Definition delete_commits (userId accountId : string) (isTeamMember : bool) : Tx () :=
  found ← asks (λ db, db.(users) !! userId);
  user ← require NotFound found;
  modify (λ db, set_invites (filter (λ kv, bool_decide (kv.2.(iv_createdBy) = userId) || bool_decide (lower kv.2.(iv_email) = lower user.(u_email)) = false)
    db.(invites)) db);;
  update_row users set_users userId (λ u,
    u {{ u_email := "deleted+" +:+ userId +:+ "@deleted.antgrid.invalid" }} {{ u_accountId := if isTeamMember then None else u.(u_accountId) }});;
  closeActiveMembership w userId "left";;
  cancelAllAccountSubscriptions w accountId;;
  update_row accounts set_accounts accountId (λ a, a {{ ac_deletedAt := Some w.(w_now) }});;
  mret ().
End account.
