(* ===== verification/BillingSystem.v ===== *)
(** * BillingSystem: the billing service as a whole

    The operations of the billing files as the steps of one system, with what is
    under way between their parts, behind the gates of the routes of
    [web/src/routes/billing.ts] and [ui.tsx].  A request is cut at its awaits: the
    gate, the provisioning of its user, the reading of the account or the contract
    it is about, and each transaction are moments of their own, and anything may
    happen in between.  What the code runs outside a transaction (provisioning, the
    reads of one contract, a deletion's guards) is one moment here. *)

From S2P Require Import Prelude JsMap Wire BillingDb Billing BillingReducer BillingTeam.
From coqutil Require Import Datatypes.RecordSetters.
Import DoubleBraceUpdate.
#[local] Set Warnings "-notation-overridden".
Local Open Scope Z_scope.
Local Open Scope js_scope.

(** What an owner asks of a team, and of a contract. *)
Inductive TeamRequest :=
| Invites (email role : string)
| Resends (id : string)
| Revokes (id : string)
| Removes (userId : string).
Inductive ContractRequest := Resizes (seats : Z) | Cancels | Resumes.

(** What waits for its next moment: a request the gate let through, one whose user
    was provisioned, one whose account or contract was read, what waits for its
    transaction or for a gateway.  What is about a contract that was read keeps the
    clock at which it was [asked]. *)
Inductive Flight :=
| FGated (actor : string) (req : TeamRequest)
| FProvisioned (actor : string) (req : TeamRequest)
| FTeam (actor accountId : string) (req : TeamRequest)
| FLeaves (accountId userId : string)
| FBilling (userId : string) (req : ContractRequest)
| FReads (userId : string) (req : ContractRequest)
| FReserves (asked : World) (sub : SubscriptionRow) (seats : Z)
| FCancels (asked : World) (plan : Plan) (sub : SubscriptionRow)
| FEvent (ev : NormalizedEvent) (plan : PlanRow)
| FJoin (inviteId accountId role userId : string)
| FAccept (inviteId : string)
| FSeats (asked : World) (sub : SubscriptionRow)
| FCancel (asked : World) (plan : Plan) (sub : SubscriptionRow)
| FResume (asked : World) (sub : SubscriptionRow)
| FReconcile (sub : SubscriptionRow)
| FDelete (userId accountId : string) (isTeamMember : bool).

Record Sys := { s_db : DB; s_flights : list Flight }.

Inductive Act :=
| SignedUp (userId email : string)                       (** the sign-in service's users *)
| Verified (userId : string)
| SignedIn (userId : string)
| EventArrives (ev : NormalizedEvent)
| InviteSent (actor email role : string)
| InviteResent (actor id : string)
| InviteRevoked (actor id : string)
| AcceptArrives (inviteId token userId : string)
| MemberRemoved (actor userId : string)
| MemberLeaves (userId : string)
| SeatsAsked (userId : string) (seats : Z)
| CancelAsked (userId : string)
| ResumeAsked (userId : string)
| SweepVisits (subscriptionId : string)
| ContractAgreed (userId : string) (c : Contract)
| DeleteAsked (userId : string)
| Lands (n : nat) (gateway : Fail + option Z).           (** a flight goes on *)

Section system.
Context `{Postgres, Crypto} (w : World).
Implicit Types (sys : Sys).

Definition set_db db sys : Sys := sys {{ s_db := db }}.
Definition fly f sys : Sys := sys {{ s_flights := sys.(s_flights) ++ [f] }}.

(** A transaction, and what follows if it succeeds. *)
Definition run_tx {A} (m : Tx A) (next : A → Sys → Sys) sys : Sys :=
  match atomically m sys.(s_db) with (inr a, db) => next a (set_db db sys) | (inl _, _) => sys end.
Definition run_only {A} (m : Tx A) : Sys → Sys := run_tx m (λ _ sys, sys).

(** The gate of a team's requests: the user is an owner of the account they are
    billed on. *)
Definition as_owner (actor : string) (req : TeamRequest) sys : Sys :=
  if isBillingAccountOwner actor sys.(s_db) then fly (FGated actor req) sys else sys.

(** The account a request is about: the one its user is billed on by now. *)
Definition on_account (actor : string) (req : TeamRequest) sys : Sys :=
  match resolveBillingAccountId actor sys.(s_db) with Some accountId => fly (FTeam actor accountId req) sys | None => sys end.

Definition team_tx (actor accountId : string) (req : TeamRequest) : Tx () :=
  match req with
  | Invites email role => createAccountInvite w accountId email role actor;; mret ()
  | Resends id => resendAccountInvite w id accountId;; mret ()
  | Revokes id => revokeInvite w accountId id;; mret ()
  | Removes userId => removeAccountMember w accountId userId (if bool_decide (userId = actor) then "left" else "removed")
  end.

(** The contract a request is about, with its plan. *)
Definition own_contract (userId : string) db : option (SubscriptionRow * Plan) :=
  accountId ← resolveBillingAccountId userId db;
  r ← activeSubscriptionForAccount w.(w_now) accountId db;
  p ← plan_of db r.2;
  if bool_decide (p.(pl_slug) = PLAN_SLUG_FREE) || negb p.(pl_recurring) then None else Some (r, p).

(** The gate of a contract's requests. *)
Definition as_contract_owner (userId : string) (req : ContractRequest) sys : Sys :=
  if isBillingAccountOwner userId sys.(s_db) then fly (FBilling userId req) sys else sys.

(** What is refused, and what goes on. *)
Definition contract_asked (req : ContractRequest) (r : SubscriptionRow) (p : Plan) sys : Sys :=
  match req with
  | Resizes seats => match seats_refused w p r.2 seats with Some _ => sys | None => fly (FReserves w r seats) sys end
  | Cancels => match cancel_refused w p r.2 with Some _ => sys | None => fly (FCancels w p r) sys end
  | Resumes => match resume_refused w p r.2 with Some _ => sys | None => fly (FResume w r) sys end
  end.

Definition land (f : Flight) (gateway : Fail + option Z) sys : Sys :=
  match f with
  | FGated actor req =>
      match req with
      | Invites _ _ => run_tx (provisionProductAccountForUser w actor) (λ _, fly (FProvisioned actor req)) sys
      | _ => on_account actor req sys
      end
  | FProvisioned actor req => on_account actor req sys
  | FTeam actor accountId req => run_only (team_tx actor accountId req) sys
  | FLeaves accountId userId => run_only (removeAccountMember w accountId userId "left") sys
  | FBilling userId req => run_tx (provisionProductAccountForUser w userId) (λ _, fly (FReads userId req)) sys
  | FReads userId req => match own_contract userId sys.(s_db) with Some (r, p) => contract_asked req r p sys | None => sys end
  | FReserves asked r seats => run_tx (reserve_seats asked r.2.(sb_accountId) r.1 seats) (λ _, fly (FSeats asked r)) sys
  | FCancels asked p r => run_tx (cancel_writes asked p r) (λ _, fly (FCancel asked p r)) sys
  | FEvent ev plan => set_db (settle w ev plan sys.(s_db)).2 sys
  | FJoin inviteId accountId role userId =>
      match accept_joins w accountId userId role sys.(s_db) with
      | (inr _, db) => fly (FAccept inviteId) (set_db db sys)
      | (inl _, db) => set_db db sys
      end
  | FAccept inviteId => run_only (markInviteAccepted w inviteId) sys
  | FSeats asked sub => run_only (settle_seats asked sub (match gateway with inl e => Some e | inr _ => None end)) sys
  | FCancel asked plan sub => run_only (cancel_settles asked plan sub gateway) sys
  | FResume asked sub => match gateway with inr _ => run_only (resume_writes asked sub) sys | inl _ => sys end
  | FReconcile sub => set_db (reconcile_one w sub gateway sys.(s_db)).2 sys
  | FDelete userId accountId isTeamMember => run_only (delete_commits w userId accountId isTeamMember) sys
  end.

Definition step (a : Act) sys : Sys :=
  match a with
  | SignedUp userId email =>
      run_only (create_row users set_users userId {| u_email := email; u_emailVerified := false; u_accountId := None |}) sys
  | Verified userId => run_only (update_row users set_users userId (λ u, u {{ u_emailVerified := true }})) sys
  | SignedIn userId => run_only (provisionProductAccountForUser w userId) sys
  | EventArrives ev =>
      match arrive w ev sys.(s_db) with
      | (Ready ev plan, db) => fly (FEvent ev plan) (set_db db sys)
      | (_, db) => set_db db sys
      end
  | InviteSent actor email role =>
      match role_parses role with Some role => as_owner actor (Invites email role) sys | None => sys end
  | InviteResent actor id => as_owner actor (Resends id) sys
  | InviteRevoked actor id => as_owner actor (Revokes id) sys
  | AcceptArrives inviteId token userId =>
      match accept_arrives w inviteId token userId sys.(s_db) with
      | inr (accountId, role) => fly (FJoin inviteId accountId role userId) sys
      | inl _ => sys
      end
  | MemberRemoved actor userId => as_owner actor (Removes userId) sys
  | MemberLeaves userId =>
      match findActiveMembership userId sys.(s_db) with
      | Some (accountId, _) => fly (FLeaves accountId userId) sys
      | None => sys
      end
  | SeatsAsked userId seats => as_contract_owner userId (Resizes seats) sys
  | CancelAsked userId => as_contract_owner userId Cancels sys
  | ResumeAsked userId => as_contract_owner userId Resumes sys
  | SweepVisits id =>
      match sys.(s_db).(subs) !! id with
      | Some s => if billed_by_gateway id s && addressed s then fly (FReconcile (id, s)) sys else sys
      | None => sys
      end
  | ContractAgreed userId c => run_only (grantManualContract w userId c) sys
  | DeleteAsked userId =>
      run_tx (delete_guards w userId) (λ r sys, match r with inr (accountId, t) => fly (FDelete userId accountId t) sys | inl _ => sys end) sys
  | Lands n gateway =>
      match sys.(s_flights) !! n with
      | Some f => land f gateway (sys {{ s_flights := base.delete n sys.(s_flights) }})
      | None => sys
      end
  end.
End system.

Definition run `{Postgres, Crypto} (acts : list (World * Act)) (sys : Sys) : Sys := foldl (λ sys '(w, a), step w a sys) sys acts.

Section run_lemmas.
Context `{Postgres, Crypto}.
Lemma run_snoc acts w a sys : run (acts ++ [(w, a)]) sys = step w a (run acts sys).
Proof. unfold run. by rewrite foldl_app. Qed.

(** *** A relation every transaction respects *)

Definition respects (R : DB → DB → Prop) {A} (m : Tx A) : Prop := ∀ db, tx_ok m (λ _ db', R db db') db.

Section respects.
Context (R : DB → DB → Prop) `{!PreOrder R}.

Lemma respects_bind {A B} (m : Tx A) (f : A → Tx B) : respects R m → (∀ a, respects R (f a)) → respects R (m ≫= f).
Proof. intros Hm Hf db. tx. over Hm. intros a db1 H1. over (Hf a). intros b db2 H2. by etrans. Qed.
Lemma respects_ret {A} (a : A) : respects R (mret a).
Proof. intros db. tx. reflexivity. Qed.
Lemma respects_asks {A} (f : DB → A) : respects R (asks f).
Proof. intros db. tx. reflexivity. Qed.
Lemma respects_throw {A} e : respects R (throw (A:=A) e).
Proof. done. Qed.
Lemma respects_require {A} e (o : option A) : respects R (require e o).
Proof. intros db. tx. reflexivity. Qed.
Lemma respects_modify f : (∀ db, R db (f db)) → respects R (modify f).
Proof. intros Hf db. tx. auto. Qed.
Lemma respects_or_if_unique {A} (m : Tx A) e : respects R m → respects R (or_if_unique m e).
Proof. intros Hm db. tx. apply Hm. Qed.

Lemma atomically_respects {A} (m : Tx A) db : respects R m → R db (atomically m db).2.
Proof. intros Hm. specialize (Hm db). unfold tx_ok, atomically in *. by destruct (m db) as [|[? ?]]. Qed.

Lemma run_tx_respects {A} (m : Tx A) next sys :
  respects R m → (∀ a sys', R sys'.(s_db) (next a sys').(s_db)) → R sys.(s_db) (run_tx m next sys).(s_db).
Proof.
  intros Hm Hn. unfold run_tx. pose proof (atomically_respects m sys.(s_db) Hm) as Hr.
  destruct (atomically m _) as [[e|a] db]; [reflexivity|]. etrans; [exact Hr|]. apply (Hn a (set_db db sys)).
Qed.
Lemma run_only_respects {A} (m : Tx A) sys : respects R m → R sys.(s_db) (run_only m sys).(s_db).
Proof. intros Hm. apply run_tx_respects; [done|]. reflexivity. Qed.
End respects.
End run_lemmas.

(** Goes through a transaction, branch by branch, down to its writes. *)
Create HintDb respects.
Ltac respect_step :=
  match goal with
  | |- respects _ (@mbind _ _ _ _ _ _) => apply respects_bind; [exact _| |intros ?]
  | |- respects _ (mret _) => apply respects_ret; exact _
  | |- respects _ (asks _) => apply respects_asks; exact _
  | |- respects _ (throw _) => apply respects_throw
  | |- respects _ (require _ _) => apply respects_require; exact _
  | |- respects _ (modify _) => apply respects_modify; intros ?
  | |- respects _ (or_if_unique _ _) => apply respects_or_if_unique
  | |- respects _ (match ?x with _ => _ end) => destruct x
  | |- respects _ ?m =>
      first [solve [eauto with respects] | let rec head t := lazymatch t with ?f _ => head f | _ => t end in let h := head m in unfold h]
  end.
Ltac respect := repeat respect_step.

(** ** Relations every step respects *)

(** What the transactions of a step promise, but for an invitation and a joining,
    which are up to the user of the class. *)
Class Upheld `{Postgres, Crypto} (w : World) (R : DB → DB → Prop) := {
  up_po :: PreOrder R;
  up_signup u email :
    respects R (create_row users set_users u {| u_email := email; u_emailVerified := false; u_accountId := None |});
  up_verify u : respects R (update_row users set_users u (λ u, u {{ u_emailVerified := true }}));
  up_provision u : respects R (provisionProductAccountForUser w u);
  up_event ev : respects R (create_event w ev);
  up_commit ev plan : respects R (commit w ev plan);
  up_resend id a : respects R (resendAccountInvite w id a);
  up_revoke a id : respects R (revokeInvite w a id);
  up_accepted id : respects R (markInviteAccepted w id);
  up_remove a u st : st ≠ ACTIVE → respects R (removeAccountMember w a u st);
  up_reserve asked a id n : respects R (reserve_seats asked a id n);
  up_seats asked r g : respects R (settle_seats asked r g);
  up_cancel asked p r : respects R (cancel_writes asked p r);
  up_cancelled asked p r g : respects R (cancel_settles asked p r g);
  up_resume asked r : respects R (resume_writes asked r);
  up_store a i o b : respects R (storeBilledSeats w a i o b);
  up_grant u c : respects R (grantManualContract w u c);
  up_guards u : respects R (delete_guards w u);
  up_delete u a t : respects R (delete_commits w u a t) }.
#[global] Hint Mode Upheld - - - + : typeclass_instances.

Section upheld.
Context `{Upheld w R}.

Lemma settle_upheld ev plan db : R db (settle w ev plan db).2.
Proof.
  unfold settle. pose proof (atomically_respects R (commit w ev plan) db (up_commit ev plan)) as Hr. by destruct (atomically _ _) as [[[]|] db'].
Qed.
Lemma arrive_upheld ev db : R db (arrive w ev db).2.
Proof.
  unfold arrive. repeat case_match; try reflexivity. apply (atomically_respects R), up_event.
Qed.
Lemma reconcile_upheld sub g db : R db (reconcile_one w sub g db).2.
Proof.
  unfold reconcile_one. destruct g as [|[b|]]; [reflexivity| |reflexivity].
  pose proof (atomically_respects R _ db (up_store sub.2.(sb_accountId) sub.1 sub.2.(sb_seats) b)) as Hr. by destruct (atomically _ _) as [[|[]] db'].
Qed.

(** Joinings and invitations that are under way. *)
Definition joins_upheld (sys : Sys) : Prop :=
  ∀ inviteId a role u, FJoin inviteId a role u ∈ sys.(s_flights) → respects R (addAccountMember w a u role no_waiver).
Definition invites_upheld (sys : Sys) : Prop :=
  ∀ actor a email role, FTeam actor a (Invites email role) ∈ sys.(s_flights) → respects R (createAccountInvite w a email role actor).

Lemma on_account_db actor req sys : (on_account actor req sys).(s_db) = sys.(s_db).
Proof. unfold on_account. by destruct (resolveBillingAccountId _ _). Qed.
Lemma as_owner_db actor req sys : (as_owner actor req sys).(s_db) = sys.(s_db).
Proof. unfold as_owner. by destruct (isBillingAccountOwner _ _). Qed.
Lemma as_contract_owner_db u req sys : (as_contract_owner u req sys).(s_db) = sys.(s_db).
Proof. unfold as_contract_owner. by destruct (isBillingAccountOwner _ _). Qed.
Lemma contract_asked_db req r p sys : (contract_asked w req r p sys).(s_db) = sys.(s_db).
Proof. destruct req; cbn [contract_asked]; by case_match. Qed.

Lemma team_upheld actor a req :
  (∀ email role, req = Invites email role → respects R (createAccountInvite w a email role actor)) → respects R (team_tx w actor a req).
Proof.
  intros Hinv. destruct req as [email role|id|id|u]; cbn [team_tx].
  - apply respects_bind; [exact _|by apply Hinv|intros; apply respects_ret; exact _].
  - apply respects_bind; [exact _|apply up_resend|intros; apply respects_ret; exact _].
  - apply respects_bind; [exact _|apply up_revoke|intros; apply respects_ret; exact _].
  - apply up_remove. by destruct (bool_decide _).
Qed.

Lemma land_upheld f g sys :
  (∀ inviteId a role u, f = FJoin inviteId a role u → respects R (addAccountMember w a u role no_waiver)) →
  (∀ actor a email role, f = FTeam actor a (Invites email role) → respects R (createAccountInvite w a email role actor)) →
  R sys.(s_db) (land w f g sys).(s_db).
Proof.
  intros Hj Hi. destruct f; cbn [land].
  - destruct req; rewrite ?on_account_db; try reflexivity. apply run_tx_respects; [apply up_po|apply up_provision|reflexivity].
  - by rewrite on_account_db.
  - apply run_only_respects; [apply up_po|]. apply team_upheld. intros email role ->. by eapply Hi.
  - apply run_only_respects; [apply up_po|by apply up_remove].
  - apply run_tx_respects; [apply up_po|apply up_provision|reflexivity].
  - destruct (own_contract _ _ _) as [[r p]|]; [by rewrite contract_asked_db|reflexivity].
  - apply run_tx_respects; [apply up_po|apply up_reserve|reflexivity].
  - apply run_tx_respects; [apply up_po|apply up_cancel|reflexivity].
  - apply settle_upheld.
  - pose proof (atomically_respects R _ sys.(s_db) (Hj _ _ _ _ eq_refl)) as Hr. unfold accept_joins.
    destruct (atomically _ _) as [[[]|] db']; try done. by destruct (bool_decide _).
  - apply run_only_respects; [apply up_po|apply up_accepted].
  - apply run_only_respects; [apply up_po|apply up_seats].
  - apply run_only_respects; [apply up_po|apply up_cancelled].
  - destruct g; [reflexivity|]. apply run_only_respects; [apply up_po|apply up_resume].
  - apply reconcile_upheld.
  - apply run_only_respects; [apply up_po|apply up_delete].
Qed.

Lemma step_upheld a sys : invites_upheld sys → joins_upheld sys → R sys.(s_db) (step w a sys).(s_db).
Proof.
  intros Hinv Hj. destruct a; cbn [step]; rewrite ?as_owner_db, ?as_contract_owner_db; try reflexivity.
  - apply run_only_respects; [apply up_po|apply up_signup].
  - apply run_only_respects; [apply up_po|apply up_verify].
  - apply run_only_respects; [apply up_po|apply up_provision].
  - pose proof (arrive_upheld ev sys.(s_db)) as Hr. by destruct (arrive _ _ _) as [[]].
  - destruct (role_parses role); [by rewrite as_owner_db|reflexivity].
  - destruct (accept_arrives _ _ _ _ _) as [|[]]; reflexivity.
  - destruct (findActiveMembership _ _) as [[]|]; reflexivity.
  - destruct (_ !! _); [|reflexivity]. by destruct (_ && _).
  - apply run_only_respects; [apply up_po|apply up_grant].
  - apply run_tx_respects; [apply up_po|apply up_guards|]. by intros [|[]] sys'.
  - destruct (_ !! n) as [f|] eqn:Ef; [|reflexivity]. apply list_elem_of_lookup_2 in Ef.
    etrans; [|apply land_upheld]; [done|intros inv acc role u ->; by eapply Hj|intros actor acc email role ->; by eapply Hinv].
Qed.
End upheld.

(** * A database to run the billing service on

    A way to break ties, a keyed hash, the catalogue and a few users; the
    witnesses and the examples of the billing files are evaluated on them. *)

#[global] Instance no_older_dec a b : Decision (no_older a b).
Proof. destruct a, b; cbn; apply _. Defined.

Fixpoint newest (l : list SubscriptionRow) : option SubscriptionRow :=
  match l with
  | [] => None
  | r :: l => match newest l with
              | Some r' => if decide (no_older r.2.(sb_cancelledAt) r'.2.(sb_cancelledAt)) then Some r else Some r'
              | None => Some r
              end
  end.

Lemma no_older_refl a : no_older a a.
Proof. destruct a; cbn; [lia|done]. Qed.
Lemma no_older_trans a b c : no_older a b → no_older b c → no_older a c.
Proof. destruct a, b, c; cbn; lia || done. Qed.
Lemma no_older_total a b : ¬ no_older a b → no_older b a.
Proof. destruct a, b; cbn; lia || naive_solver. Qed.

Lemma newest_some l : l ≠ [] → is_Some (newest l).
Proof. destruct l as [|r l]; [done|]. intros _. cbn. destruct (newest l); [case_decide|]; eauto. Qed.
Lemma newest_in l r : newest l = Some r → r ∈ l ∧ ∀ r', r' ∈ l → no_older r.2.(sb_cancelledAt) r'.2.(sb_cancelledAt).
Proof.
  revert r. induction l as [|x l IH]; intros r; [done|]. cbn. destruct (newest l) as [y|] eqn:E.
  - destruct (IH y eq_refl) as [Hin Hmax]. case_decide as Hd; intros [= <-]; (split; [by constructor|]); intros r' [->|Hr']%elem_of_cons.
    + apply no_older_refl.
    + eapply no_older_trans; eauto.
    + by apply no_older_total.
    + eauto.
  - intros [= <-]. split; [by left|]. intros r' [->|Hr']%elem_of_cons; [apply no_older_refl|].
    destruct (newest_some l) as [? ?]; [by intros ->; apply not_elem_of_nil in Hr'|congruence].
Qed.
#[global] Instance demo_postgres : Postgres := {| newest_cancelled := newest; newest_cancelled_some := newest_some; newest_cancelled_in := newest_in |}.
#[global] Instance demo_crypto : Crypto := {|
  hmacBytes := λ k v, k +:+ v; is_email := λ s, bool_decide (s ≠ EmptyString); secret := "k" |}.

Module BillingDemo.
(** Digits are enough for ids here. *)
Definition digit (n : nat) : string := String (Ascii.ascii_of_nat (48 + n)) EmptyString.
Definition at_ (now : Z) : World := {| w_now := now; w_uuid := λ n, "row-" +:+ digit n; w_token := "token" |}.

Definition plan (slug tier : string) (maxSeats : option Z) (recurring trial : bool) : Plan := {|
  pl_slug := slug; pl_tier := tier; pl_workerLimit := 10; pl_appDeviceLimit := 10; pl_maxSeats := maxSeats; pl_recurring := recurring;
  pl_trial := trial; pl_capabilities := JObj [] |}.
Definition free_plan : PlanRow := ("p-free", plan "free" "free" (Some 1) false false).
Definition trial_plan : PlanRow := ("p-trial", plan "trial" "trial" (Some 1) true true).
Definition pro_plan : PlanRow := ("p-pro", plan "pro_yearly" "pro" (Some 5) true false).

Definition user (email : string) (account : string) : User := {| u_email := email; u_emailVerified := true; u_accountId := Some account |}.
Definition owner_row : AccountMember := {| mb_role := OWNER; mb_status := ACTIVE; mb_joinedAt := 0; mb_endedAt := None |}.

(** Ann and Bob, each on an account of their own, without a subscription. *)
Definition start : DB := {|
  users := list_to_map [("ann", user "ann@x.io" "A"); ("bob", user "bob@x.io" "B")];
  accounts := list_to_map [("A", {| ac_userId := "ann"; ac_deletedAt := None |}); ("B", {| ac_userId := "bob"; ac_deletedAt := None |})];
  members := list_to_map [(("A", "ann"), owner_row); (("B", "bob"), owner_row)];
  invites := ∅; plans := list_to_map [free_plan; trial_plan; pro_plan]; subs := ∅; customers := ∅; events := ∅ |}.
Definition idle : Sys := {| s_db := start; s_flights := [] |}.

Definition event (t : NormalizedEventType) (id account plan : string) (sub : option string) (ends seats : option Z) : NormalizedEvent := {|
  ne_provider := "paddle"; ne_providerEventId := id; ne_type := t; ne_accountId := account; ne_planId := plan; ne_customerId := "ctm-" +:+ account;
  ne_providerSubscriptionId := sub; ne_providerTransactionId := None; ne_currentPeriodEnd := ends; ne_quantity := seats |}.

Definition yes : Fail + option Z := inr None.
(** An event is read, and its transaction runs at once. *)
Definition arrives (now : Z) (ev : NormalizedEvent) : list (World * Act) := [(at_ now, EventArrives ev); (at_ now, Lands 0 yes)].
Definition buys (now : Z) (account : string) (seats : Z) : list (World * Act) :=
  arrives now (event activated ("buy-" +:+ account) account "pro_yearly" (Some ("sub-" +:+ account)) (Some 1000) (Some seats)).

(** A request of a team, or of a contract, goes through its moments at once. *)
Definition goes (now : Z) (a : Act) (moments : nat) : list (World * Act) := (at_ now, a) :: replicate moments (at_ now, Lands 0 yes).
Definition invitation (now : Z) (actor email role : string) : list (World * Act) := goes now (InviteSent actor email role) 3.

Definition row_of (sys : Sys) (id : string) : option (string * option string * Z * option Z * option Z) :=
  (λ s, (s.(sb_status), s.(sb_providerSubscriptionId), s.(sb_seats), s.(sb_currentPeriodEnd), s.(sb_cancelledAt))) <$> sys.(s_db).(subs) !! id.
Definition entitled (now : Z) (account : string) (sys : Sys) : option (string * string) :=
  (λ r, (r.1, r.2.(sb_tier))) <$> activeSubscriptionForAccount now account sys.(s_db).
End BillingDemo.

Example buying :
  let sys := run (BillingDemo.buys 10 "A" 3) BillingDemo.idle in
  BillingDemo.row_of sys "row-0" = Some (ACTIVE, Some "sub-A", 3, Some 1000, None) ∧ BillingDemo.entitled 10 "A" sys = Some ("row-0", "pro").
Proof. vm_compute. done. Qed.

(** ** What runs show *)

Import BillingDemo.

(** A renewal leaves an end that has passed in place: the renewed contract is not
    active, and the account is on the free plan. *)
Example renewed_but_ended :
  let sys := run (buys 10 "A" 3 ++ arrives 20 (event canceled "c" "A" "pro_yearly" (Some "sub-A") None None) ++
                  arrives 30 (event renewed "r" "A" "pro_yearly" (Some "sub-A") (Some 2000) None)) idle in
  row_of sys "row-0" = Some (ACTIVE, Some "sub-A", 3, Some 2000, Some 20) ∧ entitled 30 "A" sys = Some ("row-1", "free").
Proof. vm_compute. done. Qed.

(** An activation that carries a new period is a redelivery while the old one
    runs; the contract ends with the old one. *)
Example new_period_dropped :
  let sys := run (buys 10 "A" 3 ++ arrives 999 (event activated "c" "A" "pro_yearly" (Some "sub-A") (Some 2000) (Some 3))) idle in
  row_of sys "row-0" = Some (ACTIVE, Some "sub-A", 3, Some 1000, None) ∧ entitled 1001 "A" sys = None.
Proof. vm_compute. done. Qed.

(** An account deleted between the event's reads and its transaction gets a
    contract. *)
Example deleted_and_sold :
  let sys := run [(at_ 10, EventArrives (event activated "e" "A" "pro_yearly" (Some "sub-A") (Some 1000) (Some 3)));
                  (at_ 11, DeleteAsked "ann"); (at_ 12, Lands 1 yes); (at_ 13, Lands 0 yes)] idle in
  (λ a, a.(ac_deletedAt)) <$> sys.(s_db).(accounts) !! "A" = Some (Some 12) ∧ entitled 13 "A" sys = Some ("row-0", "pro").
Proof. vm_compute. done. Qed.

(** A purchase whose gateway customer another account has is answered as a
    redelivery, and is not recorded. *)
Example paid_event_lost :
  let ev := (event activated "e" "B" "pro_yearly" (Some "sub-B") (Some 1000) (Some 3)) {{ ne_customerId := "ctm-A" }} in
  let sys := run (buys 10 "A" 3) idle in
  match arrive (at_ 11) ev sys.(s_db) with
  | (Ready ev plan, db) => (settle (at_ 11) ev plan db).1 = Done true
  | _ => False
  end ∧
  let sys := run (arrives 11 ev) sys in entitled 11 "B" sys = None ∧ sys.(s_db).(events) !! "e" = None.
Proof. vm_compute. done. Qed.

(** The owner of a team on a promotional grant accepts another team's invitation:
    the team is left with a member, no owner and no subscription. *)
Definition leaving_owner : list (World * Act) :=
  [(at_ 5, SignedUp "carol" "carol@x.io"); (at_ 5, Verified "carol"); (at_ 6, SignedIn "carol"); (at_ 6, SignedIn "ann")] ++
  invitation 7 "ann" "carol@x.io" MEMBER ++
  [(at_ 8, AcceptArrives "row-0" "token" "carol"); (at_ 9, Lands 0 yes); (at_ 9, Lands 0 yes)] ++
  buys 10 "B" 3 ++ invitation 20 "bob" "ann@x.io" MEMBER ++
  [(at_ 21, AcceptArrives "row-1" "token" "ann"); (at_ 22, Lands 0 yes)].
Example team_without_owner :
  let db := (run leaving_owner idle).(s_db) in
  is_held "A" "carol" db = true ∧ countOtherActiveOwners "A" "carol" db = 0 ∧ activeSubscriptionForAccount 22 "A" db = None.
Proof. vm_compute. done. Qed.

(** A cancellation the gateway refuses leaves an open-ended contract with an end. *)
Example refused_cancellation_ends :
  let sys := run (arrives 10 (event activated "e" "A" "pro_yearly" (Some "sub-A") None (Some 3)) ++
                  goes 20 (CancelAsked "ann") 3 ++ [(at_ 21, Lands 0 (inl (Failed "PROVIDER_CANCEL_FAILED")))]) idle in
  row_of sys "row-0" = Some (ACTIVE, Some "sub-A", 3, Some (20 + 365 * DAY_MS), None).
Proof. vm_compute. done. Qed.

(** The owner gate and the account it is about are read at different times: Bob,
    who owns an account of his own, asks for an invitation, joins Ann's team as a
    member before his account is looked up, and invites an owner to Ann's team. *)
Definition overtaken_gate : list (World * Act) :=
  buys 5 "A" 5 ++ invitation 7 "ann" "bob@x.io" MEMBER ++
  [(at_ 8, AcceptArrives "row-0" "token" "bob"); (at_ 9, InviteSent "bob" "eve@x.io" OWNER);
   (at_ 10, Lands 0 yes); (at_ 10, Lands 1 yes);                          (** joined, and the invitation marked *)
   (at_ 11, Lands 0 yes); (at_ 12, Lands 0 yes); (at_ 13, Lands 0 yes)].
Example member_invites_an_owner :
  let db := (run overtaken_gate idle).(s_db) in
  is_held "A" "bob" db = true ∧ isBillingAccountOwner "bob" db = false ∧
  (λ i, (i.(iv_accountId), i.(iv_email), i.(iv_role), i.(iv_status))) <$> db.(invites) !! "row-1" = Some ("A", "eve@x.io", OWNER, PENDING).
Proof. vm_compute. done. Qed.
