(* ===== verification/BillingRuns.v ===== *)
(** * BillingRuns: what a gateway's event does, and that it does it once

    The transaction of an event ([BillingReducer.commit]) changes rows of its own
    account and of its own subscription, and nothing else: [confined].  An event
    that was applied is remembered, in every run. *)

From S2P Require Import Prelude JsMap Wire BillingDb Billing BillingReducer BillingTeam BillingSystem.
From stdpp Require Import sorting.
From coqutil Require Import Datatypes.RecordSetters.
Import DoubleBraceUpdate.
#[local] Set Warnings "-notation-overridden".
Local Open Scope Z_scope.
Local Open Scope js_scope.
Implicit Types (db : DB) (s : Subscription).

(** ** Staying on one account *)

Definition holds_id (p : option string) s : Prop := ∃ x, p = Some x ∧ s.(sb_providerSubscriptionId) = Some x.

(** What becomes of one row: nothing; it is, or was taken over, by the account;
    or it holds the provider's id and stays where it is. *)
Definition row_moves (a : string) (p : option string) (o o' : option Subscription) : Prop :=
  o' = o ∨
  (∃ s', o' = Some s' ∧ s'.(sb_accountId) = a ∧ ∀ s, o = Some s → s.(sb_accountId) = a ∨ holds_id p s) ∨
  (∃ s s', o = Some s ∧ o' = Some s' ∧ holds_id p s ∧ holds_id p s' ∧ s'.(sb_accountId) = s.(sb_accountId)).

Record confined (a : string) (p : option string) db db' : Prop := {
  same_users : db'.(users) = db.(users); same_accounts : db'.(accounts) = db.(accounts); same_members : db'.(members) = db.(members);
  same_invites : db'.(invites) = db.(invites); same_plans : db'.(plans) = db.(plans);
  other_customers k : k.1 ≠ a → db'.(customers) !! k = db.(customers) !! k;
  rows_move id : row_moves a p (db.(subs) !! id) (db'.(subs) !! id);
  kept_events id : is_Some (db.(events) !! id) → db'.(events) !! id = db.(events) !! id }.

Section confined.
Context (a : string) (p : option string).

Lemma row_moves_trans o1 o2 o3 : row_moves a p o1 o2 → row_moves a p o2 o3 → row_moves a p o1 o3.
Proof.
  intros [->|[(s2 & -> & H2 & H3)|(s1 & s2 & -> & -> & H1 & H2 & H3)]]; [done| |].
  - intros [->|[(s3 & -> & H4 & _)|(? & s3 & [= <-] & -> & _ & _ & H4)]]; right; left; eauto.
    exists s3. split; [done|]. split; [congruence|done].
  - intros [->|[(s3 & -> & H4 & H5)|(? & s3 & [= <-] & -> & H4 & H5 & H6)]]; right; [right|left|right].
    + exists s1, s2. done.
    + exists s3. split; [done|]. split; [done|]. intros s [= <-]. by right.
    + exists s1, s3. split_and!; try done. congruence.
Qed.

#[global] Instance confined_po : PreOrder (confined a p).
Proof.
  split.
  - intros db. split; try done. intros id. by left.
  - intros d1 d2 d3 [] []. split; [congruence..| | |].
    + intros k Hk. rewrite other_customers1 by done. auto.
    + intros id. eapply row_moves_trans; eauto.
    + intros id Hid. rewrite kept_events1; [auto|]. by rewrite kept_events0.
Qed.

Lemma confined_subs m db : (∀ id, row_moves a p (db.(subs) !! id) (m !! id)) → confined a p db (set_subs m db).
Proof. by split. Qed.

Lemma confined_create id s db : s.(sb_accountId) = a → db.(subs) !! id = None → confined a p db (set_subs (<[id := s]> db.(subs)) db).
Proof.
  intros Ha Hn. apply confined_subs. intros i. destruct (decide (i = id)) as [->|Hi]; [|left; by rewrite lookup_insert_ne].
  right; left. exists s. rewrite lookup_insert_eq, Hn. done.
Qed.

Lemma confined_update id s s' db :
  db.(subs) !! id = Some s → row_moves a p (Some s) (Some s') → confined a p db (set_subs (<[id := s']> db.(subs)) db).
Proof.
  intros Hs Hm. apply confined_subs. intros i. destruct (decide (i = id)) as [->|Hi]; [by rewrite lookup_insert_eq, Hs|left; by rewrite lookup_insert_ne].
Qed.

Lemma confined_where P f db :
  (∀ id s, db.(subs) !! id = Some s → P id s = true → row_moves a p (Some s) (Some (f s))) → confined a p db (set_subs (update_where P f db.(subs)) db).
Proof.
  intros HP. apply confined_subs. intros i. rewrite lookup_update_where. destruct (db.(subs) !! i) as [s|] eqn:Hs; [|by left].
  cbn. destruct (P i s) eqn:E; [by eapply HP|by left].
Qed.

Lemma moves_own s s' : s.(sb_accountId) = a → s'.(sb_accountId) = a → row_moves a p (Some s) (Some s').
Proof. intros H1 H2. right; left. exists s'. split; [done|]. split; [done|]. intros ? [= <-]. by left. Qed.
End confined.

Section stays.
Context `{Postgres} (w : World) (a : string) (p : option string).

Lemma cancelActive_confined db : tx_ok (cancelActiveSubscriptions w a) (λ _ db', confined a p db db') db.
Proof.
  unfold cancelActiveSubscriptions, update_subs. apply ok_modify. intros _. apply confined_where. intros id s _ Hc.
  unfold cancellable, is_of_account, status_is in Hc. conditions. by apply moves_own.
Qed.

Lemma create_sub_confined s db : s.(sb_accountId) = a → tx_ok (create_sub w s) (λ _ db', confined a p db db') db.
Proof. intros Ha. unfold create_sub. tx. by apply confined_create. Qed.

Lemma update_sub_confined id f db :
  (∀ s, db.(subs) !! id = Some s → row_moves a p (Some s) (Some (f s))) → tx_ok (update_sub id f) (λ _ db', confined a p db db') db.
Proof. intros Hf. unfold update_sub. tx. eapply confined_update; eauto. Qed.

Lemma applyPlan_confined plan f db :
  given f.(pf_providerSubscriptionId) = p → tx_ok (applyPlanToAccountSubscription w a plan f) (λ _ db', confined a p db db') db.
Proof.
  intros Hp. unfold applyPlanToAccountSubscription. apply ok_bind. over cancelActive_confined. intros _ db1 H1.
  apply ok_bind, ok_asks. destruct (_ ≫= _) as [[id s]|] eqn:E.
  - apply bind_Some in E as (x & Hx & [Hs Hid]%find_one_Some). unfold by_provider_id in Hid. conditions.
    over update_sub_confined; [|intros _ ? H2; by etrans].
    intros s1 Hs1. rewrite Hs in Hs1. injection Hs1 as <-. right; left. eexists. split; [done|]. split; [done|]. intros ? [= <-]. right.
    exists x. split; congruence.
  - over create_sub_confined; [done|intros _ ? H2; by etrans].
Qed.

Lemma tombstoned_confined db : tx_ok (tombstonedAccountFallback a) (λ _ db', db' = db) db.
Proof. unfold tombstonedAccountFallback. tx; done. Qed.

Lemma ensureFree_confined db : tx_ok (ensureFreeSubscription w a) (λ _ db', confined a p db db') db.
Proof.
  unfold ensureFreeSubscription. tx; try done. over tombstoned_confined. intros o ? ->. destruct o as [r|]; tx; [done|..].
  - match goal with H : newest_cancelled _ = Some _ |- _ => apply newest_cancelled_in in H as [H _]; apply elem_of_rows in H as [Hs Hc] end.
    unfold is_of_account, status_is in Hc. conditions. apply update_sub_confined. intros s2 Hs2. rewrite Hs in Hs2. injection Hs2 as <-.
    by apply moves_own.
  - by apply create_sub_confined.
Qed.
End stays.

Definition target (ev : NormalizedEvent) : option string := given ev.(ne_providerSubscriptionId).

Section commits.
Context `{Postgres} (w : World).
Implicit Types (ev : NormalizedEvent) (plan : PlanRow).
Abbreviation stays ev := (confined ev.(ne_accountId) (target ev)).

Lemma provider_sub_Some ev db id s :
  provider_sub ev db = Some (id, s) → ∃ x, target ev = Some x ∧ db.(subs) !! id = Some s ∧ s.(sb_providerSubscriptionId) = Some x.
Proof.
  intros E. apply bind_Some in E as (x & Hx & [Hs Hid]%find_one_Some). unfold by_provider_id in Hid. conditions. eauto.
Qed.

(** A write that keeps a row's account and provider id. *)
Lemma held_confined ev x f db :
  target ev = Some x → (∀ s, (f s).(sb_providerSubscriptionId) = s.(sb_providerSubscriptionId) ∧ (f s).(sb_accountId) = s.(sb_accountId)) →
  tx_ok (update_subs (by_provider_id x) f) (λ _ db', stays ev db db') db.
Proof.
  intros Hx Hf. unfold update_subs. apply ok_modify. intros _. apply confined_where. intros id s _ Hc. unfold by_provider_id in Hc.
  conditions. right; right. exists s, (f s). destruct (Hf s) as [H1 H2]. split_and!; try done.
  - by exists x.
  - exists x. by rewrite H1.
Qed.

Lemma purchase_target ev plan : given (activation w ev plan).(pf_providerSubscriptionId) = target ev.
Proof. unfold activation. by case_bool_decide. Qed.

Lemma provision_confined ev plan db : tx_ok (provisionActivatedPlan w ev plan) (λ _ db', stays ev db db') db.
Proof.
  unfold provisionActivatedPlan, upsertBillingCustomer. apply ok_bind, ok_modify. intros _.
  set (db1 := set_customers _ db). assert (stays ev db db1) as H1.
  { split; try done; [|intros id; by left]. intros k Hk. apply lookup_insert_ne. intros <-. done. }
  clearbody db1. apply ok_bind. over applyPlan_confined; [by apply purchase_target|]. intros _ ? H2. tx. by etrans.
Qed.

Lemma renewal_confined ev plan db : tx_ok (apply_renewal w ev plan) (λ _ db', stays ev db db') db.
Proof.
  unfold apply_renewal, upgradeTrialToProYearlyOnRenewal. tx; [|by apply provision_confined|done|].
  - apply held_confined; [done|by intros].
  - over applyPlan_confined; [done|]. intros _ ? H2. by tx.
Qed.

Lemma activation_confined ev plan db : tx_ok (apply_activation w ev plan) (λ _ db', stays ev db db') db.
Proof.
  unfold apply_activation, applySeatChangeInPlace. tx; [|by apply provision_confined].
  apply bind_Some in Heqo as (q & _ & [[i r] [E Hq]]%bind_Some).
  destruct (own_row ev db r && _) eqn:Ho; [|done]. simplify_eq. apply provider_sub_Some in E as (x & Hx & Hs & Hid).
  over update_sub_confined; [|intros _ ? H2; by tx]. intros r' Hr'. rewrite Hs in Hr'. injection Hr' as <-.
  right; right. exists r. eexists. split_and!; [done..| | |done]; by exists x.
Qed.

Lemma ending_confined ev db : tx_ok (apply_ending w ev) (λ _ db', stays ev db db') db.
Proof.
  unfold apply_ending. destruct (given (ne_providerSubscriptionId ev)) as [x|] eqn:Hx; tx; [|done].
  over held_confined; [done|by intros|]. intros _ db1 H1. destruct (ends _); tx; [|done].
  over ensureFree_confined. intros _ ? H2. tx. by etrans.
Qed.

(** The event is recorded, once, and the rest stays on the account. *)
Lemma commit_confined ev plan db :
  tx_ok (commit w ev plan) (λ _ db', stays ev db db' ∧ db.(events) !! ev.(ne_providerEventId) = None ∧ is_Some (db'.(events) !! ev.(ne_providerEventId))) db.
Proof.
  unfold commit, create_event. tx_step. tx_step. set (db1 := set_events _ db).
  assert (stays ev db db1) as Hst.
  { split; try done; [intros id; by left|]. intros id [? Hid]. apply lookup_insert_ne. congruence. }
  assert (is_Some (db1.(events) !! ev.(ne_providerEventId))) as Hev by (exists (event_row w ev); apply lookup_insert_eq). clearbody db1.
  assert (∀ db', stays ev db1 db' → stays ev db db' ∧ db.(events) !! ev.(ne_providerEventId) = None ∧ is_Some (db'.(events) !! ev.(ne_providerEventId))) as Hgo.
  { intros db' H3. split; [by etrans|]. split; [done|]. by rewrite (kept_events _ _ _ _ H3 _ Hev). }
  destruct (ne_type ev); [over activation_confined|over renewal_confined|over ending_confined..]; eauto.
Qed.
End commits.

(** * What every run of the billing service keeps

    The catalogue stays, events are remembered, and an event is applied once. *)

(** ** The catalogue stays, and events are remembered *)

Definition remembers (db db' : DB) : Prop :=
  db'.(plans) = db.(plans) ∧ ∀ id, is_Some (db.(events) !! id) → is_Some (db'.(events) !! id).
#[global] Instance remembers_po : PreOrder remembers.
Proof. split; [by intros db|]. intros d1 d2 d3 [H1 H2] [H3 H4]. split; [congruence|auto]. Qed.

Ltac remember_all := respect; by split.

Section remembers.
Context `{Postgres, Crypto} (w : World).

Lemma create_event_remembers ev : respects remembers (create_event w ev).
Proof. intros db. tx_all. split; [done|]. intros id Hid. apply lookup_insert_is_Some'. by right. Qed.
Lemma commit_remembers ev plan : respects remembers (commit w ev plan).
Proof.
  intros db. over commit_confined. intros _ db' (Hc & _ & _). split; [apply Hc|]. intros id Hid. by rewrite (kept_events _ _ _ _ Hc id Hid).
Qed.
#[local] Hint Resolve create_event_remembers commit_remembers : respects.

#[global] Instance remembers_upheld : Upheld w remembers.
Proof. split; intros; try exact _; remember_all. Qed.

Lemma step_remembers a sys : remembers sys.(s_db) (step w a sys).(s_db).
Proof. apply step_upheld; [intros actor acc email role _|intros inviteId acc role u _]; remember_all. Qed.
End remembers.

Lemma run_remembers `{Postgres, Crypto} acts sys : remembers sys.(s_db) (run acts sys).(s_db).
Proof. induction acts as [|[w a] acts IH] using rev_ind; [done|]. rewrite run_snoc. etrans; [exact IH|apply step_remembers]. Qed.

(** C27: an event is applied once.  Once a gateway's event was applied, then
    whatever the service does afterwards, and however many copies of the event were
    read before, are under way or are still to come, each of them is answered as a
    redelivery and changes nothing. *)
Theorem event_applied_once `{Postgres, Crypto} (w : World) (ev : NormalizedEvent) (plan : PlanRow) (sys : Sys) (db : DB) (acts : list (World * Act)) :
  settle w ev plan sys.(s_db) = (Done false, db) →
  let after := run acts (set_db db sys) in
  ∀ w' ev' plan', ev'.(ne_providerEventId) = ev.(ne_providerEventId) →
    settle w' ev' plan' after.(s_db) = (Done true, after.(s_db)) ∧ arrive w' ev' after.(s_db) = (Answered true, after.(s_db)).
Proof.
  intros Hs after w' ev' plan' Hid.
  assert (is_Some (after.(s_db).(events) !! ev'.(ne_providerEventId))) as [row Hrow].
  { apply (run_remembers acts (set_db db sys)). rewrite Hid. unfold settle in Hs.
    destruct (atomically _ _) as [[[]|[]] db'] eqn:Ha; try done. injection Hs as <-.
    by apply (atomically_ok _ _ _ _ _ (commit_confined w ev plan sys.(s_db)) Ha). }
  split; [|unfold arrive; by rewrite Hrow].
  unfold settle, atomically, commit, create_event, create_row, mbind, tx_bind, asks. by rewrite Hrow.
Qed.

(** The demonstration's purchase, delivered again a day later. *)
Lemma event_applied_once_witness :
  let ev := BillingDemo.event activated "buy-A" "A" "pro_yearly" (Some "sub-A") (Some 1000) (Some 3) in
  let db := (settle (BillingDemo.at_ 10) ev BillingDemo.pro_plan BillingDemo.start).2 in
  let after := run [(BillingDemo.at_ 20, SignedIn "ann"); (BillingDemo.at_ 30, CancelAsked "ann")] (set_db db BillingDemo.idle) in
  settle (BillingDemo.at_ 40) ev BillingDemo.pro_plan after.(s_db) = (Done true, after.(s_db)).
Proof.
  cbv zeta. refine (proj1 (event_applied_once (BillingDemo.at_ 10) _ BillingDemo.pro_plan BillingDemo.idle _ [_; _] _ _ _ _ _)).
  - rewrite (surjective_pairing (settle _ _ _ _)). f_equal; vm_compute; reflexivity.
  - reflexivity.
Defined.
