(* ===== verification/BillingContracts.v ===== *)
(** * BillingContracts: what is sold, and what is left when it ends

    The subscription an account's entitlement is read from, what an activation
    writes, and what an ending leaves. *)

From S2P Require Import Prelude JsMap Wire BillingDb Billing BillingReducer BillingTeam BillingSystem BillingRuns.
From stdpp Require Import sorting.
From coqutil Require Import Datatypes.RecordSetters.
Import DoubleBraceUpdate.

#[local] Set Warnings "-notation-overridden".
Local Open Scope Z_scope.
Local Open Scope js_scope.

Implicit Types (db : DB) (s : Subscription).

(** ** The effective subscription *)

(** The [where] clause and the predicate are one test. *)
Lemma active_where now a id s : activeSubscriptionWhere now a id s = is_of_account a s && isActiveSubscription now s.
Proof.
  assert (∀ t, open_at now t = negb (passed now t)) as Ht.
  { intros [t|]; [|done]. cbn. by rewrite Z.leb_antisym, negb_involutive. }
  unfold activeSubscriptionWhere, isActiveSubscription, is_of_account. rewrite !Ht.
  destruct (bool_decide (s.(sb_accountId) = a)); [|done]. destruct (bool_decide (s.(sb_status) = ACTIVE)); [|done].
  by destruct (passed now (sb_cancelledAt s)), (passed now (sb_trialEndsAt s)), (passed now (sb_currentPeriodEnd s)).
Qed.

Definition entitles (now : Z) (a : string) s : Prop := s.(sb_accountId) = a ∧ isActiveSubscription now s = true.

Lemma effective_in db l r : effectiveActiveSubscription db l = Some r → r ∈ l.
Proof.
  unfold effectiveActiveSubscription. destruct (List.find (λ r, negb (slug_is db PLAN_SLUG_FREE r.2)) l) as [x|] eqn:E; [|by intros ?%head_Some_elem_of].
  intros [= <-]. apply List.find_some in E as [E _]. by apply list_elem_of_In.
Qed.
Lemma effective_some db l : l ≠ [] → is_Some (effectiveActiveSubscription db l).
Proof. unfold effectiveActiveSubscription. destruct (List.find (λ r, negb (slug_is db PLAN_SLUG_FREE r.2)) l); [eauto|]. destruct l; [done|]. eauto. Qed.

Lemma active_for_entitles now a db id s : activeSubscriptionForAccount now a db = Some (id, s) → db.(subs) !! id = Some s ∧ entitles now a s.
Proof.
  intros Hr%effective_in. rewrite merge_sort_Permutation in Hr. apply elem_of_rows in Hr as [Hs Hw]. rewrite active_where in Hw.
  unfold is_of_account in Hw. conditions. done.
Qed.
Lemma active_for_some now a db id s : db.(subs) !! id = Some s → entitles now a s → is_Some (activeSubscriptionForAccount now a db).
Proof.
  intros Hs [Ha Hact]. apply effective_some. intros Hn.
  assert ((id, s) ∈ merge_sort newer (select_rows (activeSubscriptionWhere now a) db.(subs))) as Hin; [|rewrite Hn in Hin; by apply not_elem_of_nil in Hin].
  rewrite merge_sort_Permutation. apply elem_of_rows. split; [done|]. rewrite active_where, Hact. unfold is_of_account. by rewrite bool_decide_true.
Qed.

(** *** Which of the active rows is read *)

#[global] Instance newer_trans : Transitive newer.
Proof.
  intros a b c Hab Hbc. unfold newer in *. destruct Hab as [Hab|[Eab Hab]], Hbc as [Hbc|[Ebc Hbc]]; [left; lia..|right].
  split; [congruence|]. apply Is_true_true. etrans; [apply Is_true_true, Hab|apply Is_true_true, Hbc].
Qed.
#[global] Instance newer_total : Total newer.
Proof.
  intros a b. unfold newer. destruct (Z.lt_total (sb_createdAt a.2) (sb_createdAt b.2)) as [H|[H|H]]; [by right; left| |by left; left].
  destruct (String.leb_total a.1 b.1); [left|right]; by right.
Qed.

(** The newest of the rows that are not on the free plan. *)
Lemma effective_newest db l x r :
  Sorted.StronglySorted newer l → x ∈ l → slug_is db PLAN_SLUG_FREE x.2 = false → effectiveActiveSubscription db l = Some r → r = x ∨ newer r x.
Proof.
  intros Hs Hx Hf. unfold effectiveActiveSubscription. induction Hs as [|y l Hs IH Hy]; [by apply not_elem_of_nil in Hx|]. cbn [List.find].
  rewrite Forall_forall in Hy. apply elem_of_cons in Hx as [->|Hx].
  - rewrite Hf. intros [= ->]. by left.
  - destruct (negb (slug_is db PLAN_SLUG_FREE y.2)) eqn:Ey; [intros [= <-]; right; by apply Hy|].
    intros Hr. apply IH; [done|]. destruct (List.find (λ r, negb (slug_is db PLAN_SLUG_FREE r.2)) l) as [z|] eqn:Ez; [done|]. exfalso.
    eapply List.find_none in Ez; [|by apply list_elem_of_In]. cbn in Ez. by rewrite Hf in Ez.
Qed.

Lemma active_for_newest now a db id s r :
  db.(subs) !! id = Some s → entitles now a s → slug_is db PLAN_SLUG_FREE s = false →
  activeSubscriptionForAccount now a db = Some r → r = (id, s) ∨ newer r (id, s).
Proof.
  intros Hs [Ha Hact] Hf Hr. eapply effective_newest; [apply (StronglySorted_merge_sort newer)| |exact Hf|exact Hr].
  rewrite merge_sort_Permutation. apply elem_of_rows. split; [done|]. rewrite active_where, Hact. unfold is_of_account. by rewrite bool_decide_true.
Qed.

(** ** Activations *)

Section activation.
Context `{Postgres} (w : World) (a : string) (plan : PlanRow) (f : PlanFields).

(** The row of a contract as it was sold; [s0] is the row it was before, if any. *)
Record sold (s0 : option Subscription) s : Prop := {
  sold_account : s.(sb_accountId) = a; sold_plan : s.(sb_planId) = plan.1; sold_tier : s.(sb_tier) = plan.2.(pl_tier);
  sold_limits : s.(sb_workerLimit) = f.(pf_workerLimit) ?| plan.2.(pl_workerLimit) ∧
                s.(sb_appDeviceLimit) = f.(pf_appDeviceLimit) ?| plan.2.(pl_appDeviceLimit);
  sold_seats : s.(sb_seats) = f.(pf_seats) ?| match s0 with Some s0 => s0.(sb_seats) | None => 1 end;
  sold_ids : s.(sb_providerSubscriptionId) = f.(pf_providerSubscriptionId) ∧ s.(sb_providerTransactionId) = f.(pf_providerTransactionId);
  sold_promotional : s.(sb_promotional) = f.(pf_promotional);
  sold_times : s.(sb_trialEndsAt) = f.(pf_trialEndsAt) ∧ s.(sb_currentPeriodEnd) = f.(pf_currentPeriodEnd) ∧ s.(sb_cancelledAt) = None;
  sold_active : s.(sb_status) = ACTIVE }.

(** Every other row of the account that is active is as it was, with its end set. *)
Definition only_contract (id : string) db db' : Prop :=
  ∀ id' s, id' ≠ id → db'.(subs) !! id' = Some s → entitles w.(w_now) a s →
    db.(subs) !! id' = Some s ∧ isPendingCancellation w.(w_now) s = true.

Lemma cancelled_rows db db1 id s :
  db1 = set_subs (update_where (cancellable a) (λ s, s {{ sb_status := CANCELED }} {{ sb_cancelledAt := Some w.(w_now) }}
    {{ sb_providerSubscriptionId := None }} {{ sb_providerTransactionId := None }} {{ sb_updatedAt := w.(w_now) }}) db.(subs)) db →
  db1.(subs) !! id = Some s → entitles w.(w_now) a s → db.(subs) !! id = Some s ∧ isPendingCancellation w.(w_now) s = true.
Proof.
  intros -> Hs [Ha Hact]. rewrite subs_set, lookup_update_where in Hs. apply fmap_Some in Hs as (s0 & Hs0 & ->).
  destruct (cancellable a id s0) eqn:Hc; [by unfold isActiveSubscription in Hact|]. split; [done|].
  unfold isActiveSubscription in Hact. unfold isPendingCancellation, cancellable, is_of_account, status_is in *.
  rewrite (bool_decide_true (s0.(sb_accountId) = a)) in Hc by done. destruct (bool_decide (s0.(sb_status) = ACTIVE)); [|done]. cbn [andb negb] in *.
  apply bool_decide_eq_false in Hc. destruct s0.(sb_cancelledAt) as [t|] eqn:Ht; [|done]. cbn in Hact. destruct (t <=? w.(w_now)) eqn:E; [done|]. lia.
Qed.

Lemma applyPlan_sells db :
  tx_ok (applyPlanToAccountSubscription w a plan f)
    (λ r db', db'.(subs) !! r.1 = Some r.2 ∧ sold (db.(subs) !! r.1) r.2 ∧ only_contract r.1 db db' ∧ db'.(customers) = db.(customers)) db.
Proof.
  unfold applyPlanToAccountSubscription, cancelActiveSubscriptions, update_subs. tx_step. tx_step. set (db1 := set_subs _ db).
  assert (∀ id s, db1.(subs) !! id = Some s → entitles w.(w_now) a s → db.(subs) !! id = Some s ∧ isPendingCancellation w.(w_now) s = true) as Hp.
  { intros id s. by eapply cancelled_rows. }
  assert (∀ id s x, db1.(subs) !! id = Some s → s.(sb_providerSubscriptionId) = Some x → db.(subs) !! id = Some s) as Hid.
  { intros id s x Hs. unfold db1 in Hs. rewrite subs_set, lookup_update_where in Hs. apply fmap_Some in Hs as (s0 & Hs0 & ->). by destruct (cancellable a id s0). }
  assert (∀ id, db1.(subs) !! id = None → db.(subs) !! id = None) as Hnone.
  { intros id Hn. unfold db1 in Hn. rewrite subs_set, lookup_update_where in Hn. by apply fmap_None in Hn. }
  assert (db1.(customers) = db.(customers)) as Hcu by done. clearbody db1.
  assert (∀ id s', only_contract id db (set_subs (<[id := s']> db1.(subs)) db1)) as Ho.
  { intros id s' id' s Hne Hs. rewrite subs_set, lookup_insert_ne in Hs by done. eauto. }
  tx_step. tx_step. destruct (_ ≫= _) as [[id s]|] eqn:E.
  - apply bind_Some in E as (x & _ & [Hs Hx]%find_one_Some). unfold by_provider_id in Hx. conditions.
    unfold update_sub. tx. cbn [fst snd]. rewrite (Hid id s x) by done.
    split; [apply lookup_insert_eq|]. split; [|split; [apply Ho|done]]. simplify_eq. by split.
  - unfold create_sub. tx. cbn [fst snd]. rewrite Hnone by done. split; [apply lookup_insert_eq|]. split; [by split|]. split; [apply Ho|done].
Qed.
End activation.

Section activations.
Context `{Postgres} (w : World).
Implicit Types (ev : NormalizedEvent) (plan : PlanRow).

(** A seat count written over a live row of the contract, in place. *)
Definition resized ev db db' : Prop := ∃ id s x q,
  target ev = Some x ∧ db.(subs) !! id = Some s ∧ s.(sb_providerSubscriptionId) = Some x ∧ own_row ev db s = true ∧
  isActiveSubscription w.(w_now) s = true ∧ ev.(ne_quantity) = Some q ∧
  db'.(subs) = <[id := s {{ sb_seats := q }} {{ sb_updatedAt := w.(w_now) }}]> db.(subs).

(** A contract sold, and the only one without an end. *)
Definition bought ev plan id s db db' : Prop :=
  db'.(subs) !! id = Some s ∧ sold ev.(ne_accountId) plan (activation w ev plan) (db.(subs) !! id) s ∧
  only_contract w ev.(ne_accountId) id db db' ∧ db'.(customers) !! (ev.(ne_accountId), ev.(ne_provider)) = Some ev.(ne_customerId).

Lemma seat_change_spec ev db :
  tx_ok (applySeatChangeInPlace w ev) (λ in_place db', if in_place then resized ev db db' else db' = db) db.
Proof.
  unfold applySeatChangeInPlace. do 2 tx_step. destruct (_ ≫= _) as [[id q]|] eqn:E; [|by tx].
  apply bind_Some in E as (q' & Hq & [[i r] [E Hr]]%bind_Some). destruct (own_row ev db r && _) eqn:Ho; [|done]. conditions. simplify_eq.
  apply provider_sub_Some in E as (x & Hx & Hs & Hid). unfold update_sub. do 2 tx_step. apply ok_update. intros v Hv _. tx.
  rewrite Hs in Hv. simplify_eq. by exists id, v, x, q.
Qed.

Lemma provision_buys ev plan db : tx_ok (provisionActivatedPlan w ev plan) (λ _ db', ∃ id s, bought ev plan id s db db') db.
Proof.
  unfold provisionActivatedPlan, upsertBillingCustomer. tx_step. tx_step. tx_step.
  over applyPlan_sells. intros [id s] db' (H1 & H2 & H3 & H4). tx. exists id, s. split_and!; try done.
  rewrite H4. apply lookup_insert_eq.
Qed.

Lemma activation_spec ev plan db : tx_ok (apply_activation w ev plan) (λ _ db', resized ev db db' ∨ ∃ id s, bought ev plan id s db db') db.
Proof.
  unfold apply_activation. tx_step. over seat_change_spec. intros [] db'; [intros Hr; tx; by left|intros ->].
  over provision_buys. by right.
Qed.

Lemma sold_entitles ev plan (s0 : option Subscription) s :
  sold ev.(ne_accountId) plan (activation w ev plan) s0 s → passed w.(w_now) ev.(ne_currentPeriodEnd) = false → entitles w.(w_now) ev.(ne_accountId) s.
Proof.
  intros [Ha _ _ _ _ _ _ (H1 & H2 & H3) Hact] Hp. split; [done|]. unfold isActiveSubscription. rewrite H1, H2, H3, Hact, bool_decide_true by done.
  assert (pf_currentPeriodEnd (activation w ev plan) = ev.(ne_currentPeriodEnd)) as -> by (unfold activation; by case_bool_decide).
  assert (passed w.(w_now) (pf_trialEndsAt (activation w ev plan)) = false) as ->; [|by rewrite Hp].
  unfold activation. case_bool_decide; [|done]. change (passed w.(w_now) (Some (ev.(ne_currentPeriodEnd) ?| (w.(w_now) + TRIAL_DAYS * DAY_MS))) = false).
  destruct (ne_currentPeriodEnd ev) as [t|]; [done|]. apply Z.leb_gt. unfold TRIAL_DAYS, DAY_MS. cbn. lia.
Qed.
End activations.

(** C28: an activation sells what was paid for.  Where the account holds a live row
    of this very contract and the event carries a seat count, that count is written
    over the row and nothing else of the subscriptions changes.  Otherwise there is
    a row of the plan with the gateway's ids, the plan's limits and the seats
    billed, every other active row of the account is as it was and already has its
    end set, and the gateway's customer is recorded.  And then, unless the period
    paid for is over (or the plan is the free one), the account's entitlement is
    read from that row, or from one of those that end, if it was created no earlier
    than the row that was sold. *)
Theorem activation_sells_what_was_paid `{Postgres} (w : World) (ev : NormalizedEvent) (plan : PlanRow) (db db' : DB) :
  settle w ev plan db = (Done false, db') → ev.(ne_type) = activated →
  resized w ev db db' ∨
  ∃ id s, bought w ev plan id s db db' ∧
   (passed w.(w_now) ev.(ne_currentPeriodEnd) = false → (∀ p, db.(plans) !! plan.1 = Some p → p.(pl_slug) ≠ PLAN_SLUG_FREE) →
    ∃ r, activeSubscriptionForAccount w.(w_now) ev.(ne_accountId) db' = Some r ∧
      (r = (id, s) ∨
       (db.(subs) !! r.1 = Some r.2 ∧ isPendingCancellation w.(w_now) r.2 = true ∧ s.(sb_createdAt) <= r.2.(sb_createdAt)))).
Proof.
  intros Hs Ht. unfold settle in Hs. destruct (atomically _ _) as [[[]|[]] db1] eqn:Ha; try done. injection Hs as <-.
  assert (db1.(plans) = db.(plans) ∧ (resized w ev db db1 ∨ ∃ id s, bought w ev plan id s db db1)) as [Hpl [|Hb]]; [|by left|right].
  { split; [by apply (atomically_ok _ _ _ _ _ (commit_remembers w ev plan db) Ha)|].
    revert Ha. apply (atomically_ok _ (λ _ d, resized w ev db d ∨ ∃ id s, bought w ev plan id s db d)). unfold commit, create_event. rewrite Ht. tx_step. tx_step.
    set (db2 := set_events _ db). over activation_spec. intros _ d [Hr|Hr]; [left|right]; exact Hr. }
  destruct Hb as (id & s & Hb). exists id, s. split; [done|]. intros Hp Hfree. destruct Hb as (Hid & Hsold & Honly & _).
  pose proof (sold_entitles w ev plan _ s Hsold Hp) as He.
  destruct (active_for_some _ _ _ _ _ Hid He) as [r Hr]. exists r. split; [done|].
  assert (slug_is db1 PLAN_SLUG_FREE s = false) as Hf.
  { unfold slug_is, plan_of. rewrite (sold_plan _ _ _ _ _ Hsold), Hpl. destruct (plans db !! plan.1) as [p|] eqn:Ep; [|done].
    apply bool_decide_false. by apply Hfree. }
  destruct (active_for_newest _ _ _ _ _ _ Hid He Hf Hr) as [Heq|Hn]; [by left|]. destruct r as [id1 s1].
  apply active_for_entitles in Hr as [Hs1 He1]. destruct (decide (id1 = id)) as [->|Hne].
  - left. congruence.
  - right. destruct (Honly id1 s1 Hne Hs1 He1) as [H1 H2]. split; [done|]. split; [done|]. unfold newer in Hn. cbn in *. lia.
Qed.

(** The demonstration's purchase. *)
Lemma activation_sells_what_was_paid_witness :
  let ev := BillingDemo.event activated "buy-A" "A" "pro_yearly" (Some "sub-A") (Some 1000) (Some 3) in
  let db := (settle (BillingDemo.at_ 10) ev BillingDemo.pro_plan BillingDemo.start).2 in
  resized (BillingDemo.at_ 10) ev BillingDemo.start db ∨
  ∃ id s, bought (BillingDemo.at_ 10) ev BillingDemo.pro_plan id s BillingDemo.start db ∧
   (passed 10 (Some 1000) = false → (∀ p, BillingDemo.start.(plans) !! "p-pro" = Some p → p.(pl_slug) ≠ PLAN_SLUG_FREE) →
    ∃ r, activeSubscriptionForAccount 10 "A" db = Some r ∧
      (r = (id, s) ∨
       (BillingDemo.start.(subs) !! r.1 = Some r.2 ∧ isPendingCancellation 10 r.2 = true ∧ s.(sb_createdAt) <= r.2.(sb_createdAt)))).
Proof.
  cbv zeta. refine (activation_sells_what_was_paid (BillingDemo.at_ 10) _ BillingDemo.pro_plan BillingDemo.start _ _ _); [|reflexivity].
  rewrite (surjective_pairing (settle _ _ _ _)). f_equal; vm_compute; reflexivity.
Defined.
