(* ===== verification/BillingEndings.v ===== *)
(** * BillingEndings: nobody is left without a subscription

    A row of the free plan has no gateway and no end, whatever the service does;
    so an account whose contract ends falls back on one. *)

From S2P Require Import Prelude JsMap Wire BillingDb Billing BillingReducer BillingTeam BillingSystem BillingRuns BillingContracts.
From coqutil Require Import Datatypes.RecordSetters.
Import DoubleBraceUpdate.

#[local] Set Warnings "-notation-overridden".
Local Open Scope Z_scope.
Local Open Scope js_scope.

Implicit Types (db : DB) (s : Subscription).

Definition is_free db s : bool := slug_is db PLAN_SLUG_FREE s.
Definition endless s : Prop := s.(sb_providerSubscriptionId) = None ∧ s.(sb_trialEndsAt) = None ∧ s.(sb_currentPeriodEnd) = None.
Definition plain db : Prop := ∀ id s, db.(subs) !! id = Some s → is_free db s = true → endless s.

(** Free rows stay endless, and no other row becomes a free one. *)
Definition calm db db' : Prop :=
  plain db → plain db' ∧ db'.(plans) = db.(plans) ∧
  ∀ id s, db.(subs) !! id = Some s → is_free db s = false → ∃ s', db'.(subs) !! id = Some s' ∧ is_free db s' = false.

Lemma is_free_plans db db' s : db'.(plans) = db.(plans) → is_free db' s = is_free db s.
Proof. unfold is_free, slug_is, plan_of. by intros ->. Qed.
Lemma is_free_plan db s s' : s'.(sb_planId) = s.(sb_planId) → is_free db s' = is_free db s.
Proof. unfold is_free, slug_is, plan_of. by intros ->. Qed.

#[global] Instance calm_po : PreOrder calm.
Proof.
  split.
  - intros db Hp. split; [done|]. split; [done|]. eauto.
  - intros d1 d2 d3 H1 H2 Hp. destruct (H1 Hp) as (Hp2 & E2 & N2). destruct (H2 Hp2) as (Hp3 & E3 & N3). split; [done|]. split; [congruence|].
    intros id s Hs Hf. destruct (N2 id s Hs Hf) as (s2 & Hs2 & Hf2). rewrite <-(is_free_plans _ _ s2 E2) in Hf2.
    destruct (N3 id s2 Hs2 Hf2) as (s3 & Hs3 & Hf3). exists s3. split; [done|]. by rewrite <-(is_free_plans _ _ s3 E2).
Qed.

Lemma calm_other db db' : db'.(subs) = db.(subs) → db'.(plans) = db.(plans) → calm db db'.
Proof.
  intros Hs Hp Hpl. split; [|split; [done|rewrite Hs; eauto]]. intros id s. rewrite Hs, (is_free_plans db db') by done. apply Hpl.
Qed.

(** A write over rows that keeps their plan. *)
Lemma calm_where P f db :
  (∀ s, (f s).(sb_planId) = s.(sb_planId)) → (∀ id s, db.(subs) !! id = Some s → P id s = true → endless s → endless (f s)) →
  calm db (set_subs (update_where P f db.(subs)) db).
Proof.
  intros Hplan Hf Hp. split_and!; [|done|]; intros id s Hs Hfree; rewrite ?subs_set, lookup_update_where in *.
  - apply fmap_Some in Hs as (s0 & Hs0 & ->). rewrite (is_free_plans db) in Hfree by done. destruct (P id s0) eqn:HP; [|by eapply Hp].
    rewrite (is_free_plan db s0 (f s0)) in Hfree by apply Hplan. eauto.
  - rewrite Hs. eexists. split; [done|]. destruct (P id s); [|done]. by rewrite (is_free_plan db s (f s)) by apply Hplan.
Qed.

(** A row written: free rows have no end, and a row that was not free is not. *)
Lemma calm_row id s' db :
  (is_free db s' = true → plain db → endless s') → (∀ s, db.(subs) !! id = Some s → is_free db s = false → is_free db s' = false) →
  calm db (set_subs (<[id := s']> db.(subs)) db).
Proof.
  intros Hf Hn Hp. split_and!; [|done|]; intros i s Hs Hfree; rewrite ?subs_set in *; destruct (decide (i = id)) as [->|Hi].
  - rewrite lookup_insert_eq in Hs. injection Hs as <-. by apply Hf.
  - rewrite lookup_insert_ne in Hs by done. by eapply Hp.
  - rewrite lookup_insert_eq. eauto.
  - rewrite lookup_insert_ne by done. eauto.
Qed.

Lemma calm_update id f db :
  (∀ s, (f s).(sb_planId) = s.(sb_planId)) → (∀ s, db.(subs) !! id = Some s → endless s → endless (f s)) →
  tx_ok (update_sub id f) (λ _ db', calm db db') db.
Proof.
  intros Hplan Hf. unfold update_sub. do 1 tx_step. apply ok_update. intros s Hs _. tx. apply calm_row.
  - rewrite (is_free_plan db s (f s)) by apply Hplan. eauto.
  - intros s0 Hs0. rewrite Hs in Hs0. injection Hs0 as <-. by rewrite (is_free_plan db s (f s)) by apply Hplan.
Qed.

(** Every transaction that leaves the contracts alone. *)
Ltac calm_leaf := first [by apply calm_other | apply calm_where; [done|unfold endless; by intros; cbn; naive_solver]].
Ltac calm_all := respect; calm_leaf.

Section calm.
Context `{Postgres, Crypto} (w : World).

Lemma calm_update_any id f :
  (∀ s, (f s).(sb_planId) = s.(sb_planId)) → (∀ s, endless s → endless (f s)) → respects calm (update_sub id f).
Proof. intros H1 H2 db. apply calm_update; auto. Qed.

Lemma applyPlan_calm a plan f db :
  db.(plans) !! plan.1 = Some plan.2 → plan.2.(pl_slug) ≠ PLAN_SLUG_FREE → tx_ok (applyPlanToAccountSubscription w a plan f) (λ _ db', calm db db') db.
Proof.
  intros Hpl Hs. assert (∀ db' s0, db'.(plans) = db.(plans) → is_free db' (applied w a plan f s0) = false) as Hnf.
  { intros db' s0 E. rewrite (is_free_plans db) by done. unfold is_free, slug_is, plan_of. cbn. rewrite Hpl. by apply bool_decide_false. }
  unfold applyPlanToAccountSubscription, cancelActiveSubscriptions, update_subs. tx_step. tx_step. set (db1 := set_subs _ db).
  assert (calm db db1) as Hc by calm_leaf. assert (db1.(plans) = db.(plans)) as Ep by done. clearbody db1. do 2 tx_step.
  destruct (_ ≫= _) as [[id s]|].
  - unfold update_sub. tx_step. apply ok_update. intros s1 Hs1 _. tx. etrans; [exact Hc|]. apply calm_row; rewrite (Hnf db1) by done; done.
  - unfold create_sub. tx. etrans; [exact Hc|]. apply calm_row; rewrite (Hnf db1) by done; done.
Qed.

Lemma tombstoned_spec a db :
  tx_ok (tombstonedAccountFallback a) (λ o db', db' = db ∧ (db.(accounts) !! a ≫= ac_deletedAt = None → o = None)) db.
Proof. unfold tombstonedAccountFallback. tx; split; try done; congruence. Qed.

Lemma find_slug slug db plan : findPlanBySlug slug db = Some plan → db.(plans) !! plan.1 = Some plan.2 ∧ plan.2.(pl_slug) = slug.
Proof. destruct plan as [id p]. intros [Hp Hs]%find_one_Some. by conditions. Qed.

(** Where an account falls back on. *)
Lemma ensureFree_spec a db : plain db →
  tx_ok (ensureFreeSubscription w a) (λ _ db',
    (db.(accounts) !! a ≫= ac_deletedAt = None → is_Some (activeSubscriptionForAccount w.(w_now) a db')) ∧
    (∀ id s x, db.(subs) !! id = Some s → s.(sb_providerSubscriptionId) = Some x → db'.(subs) !! id = Some s) ∧ calm db db') db.
Proof.
  intros Hp. unfold ensureFreeSubscription. do 2 tx_step. destruct (activeSubscriptionForAccount _ _ _) as [r|] eqn:Ea.
  { tx. split; [by rewrite Ea; eauto|]. by split. }
  tx_step. over tombstoned_spec. intros o ? [-> Hno]. destruct o as [r|].
  { tx. split; [intros Hd; by discriminate (Hno Hd)|]. by split. }
  do 4 tx_step. destruct a0 as [fid fp]. apply find_slug in H1 as [Hfp Hslug]. cbn [fst snd] in *. do 2 tx_step.
  destruct (newest_cancelled _) as [[id s]|] eqn:Ec.
  - apply newest_cancelled_in in Ec as [[Hs Hc]%elem_of_rows _]. unfold is_of_account, status_is in Hc. conditions.
    assert (is_free db s = true) as Hf by (unfold is_free, slug_is, plan_of; match goal with E : sb_planId s = _ |- _ => rewrite E end; rewrite Hfp; by apply bool_decide_true).
    destruct (Hp id s Hs Hf) as (N1 & N2 & N3). unfold update_sub. tx_step. apply ok_update. intros s1 Hs1 _. rewrite Hs in Hs1. injection Hs1 as <-. tx.
    set (s' := s {{ sb_status := _ }} {{ sb_cancelledAt := _ }} {{ sb_updatedAt := _ }}). split; [|split].
    + intros _. eapply active_for_some; [rewrite subs_set; apply lookup_insert_eq|]. split; [done|].
      unfold isActiveSubscription. change (sb_status s') with ACTIVE. change (sb_cancelledAt s') with (@None Z).
      change (sb_trialEndsAt s') with s.(sb_trialEndsAt). change (sb_currentPeriodEnd s') with s.(sb_currentPeriodEnd). by rewrite N2, N3.
    + intros i r x Hr Hx. rewrite subs_set, lookup_insert_ne; [done|]. intros ->. congruence.
    + apply calm_row; [by intros; apply (Hp id s)|]. intros s0 Hs0. rewrite Hs in Hs0. injection Hs0 as <-. by rewrite Hf.
  - unfold create_sub. tx. set (s' := {| sb_accountId := a |}). split; [|split].
    + intros _. eapply active_for_some; [rewrite subs_set; apply lookup_insert_eq|]. by split.
    + intros i r x Hr Hx. rewrite subs_set, lookup_insert_ne; [done|]. congruence.
    + apply calm_row; [by split|]. congruence.
Qed.
Lemma calm_intro {A} (m : Tx A) db : (plain db → tx_ok m (λ _ db', calm db db') db) → tx_ok m (λ _ db', calm db db') db.
Proof. unfold tx_ok. intros Hm. destruct (m db) as [|[a db']]; [done|]. intros Hp. by apply Hm. Qed.

Lemma ensureFree_calm a : respects calm (ensureFreeSubscription w a).
Proof. intros db. apply calm_intro. intros Hp. over ensureFree_spec; [done|]. by intros _ db' (_ & _ & Hc). Qed.

Lemma default_calm a : respects calm (ensureDefaultSubscription w a).
Proof.
  assert (∀ db, tx_ok (plan ← asks (findPlanBySlug "pro_yearly"); proPlan ← require (Failed "pro_yearly plan not seeded") plan;
    applyPlanToAccountSubscription w a proPlan ((no_fields "promo") {{ pf_promotional := true }} {{ pf_seats := proPlan.2.(pl_maxSeats) }}))
    (λ _ db', calm db db') db) as Hpro.
  { intros db. do 4 tx_step. apply find_slug in H1 as [Hp Hs]. apply applyPlan_calm; [done|by rewrite Hs]. }
  intros db. unfold ensureDefaultSubscription. do 2 tx_step. destruct (activeSubscriptionForAccount _ _ _) as [r|].
  - destruct (negb _); [by tx|apply Hpro].
  - tx_step. over tombstoned_spec. intros o ? [-> _]. destruct o; [by tx|apply Hpro].
Qed.
#[local] Hint Resolve ensureFree_calm default_calm : respects.

Lemma provisionUser_calm userId : respects calm (provisionProductAccountForUser w userId).
Proof. calm_all. Qed.
Lemma addMember_calm a u role wv : respects calm (addAccountMember w a u role wv).
Proof. calm_all. Qed.
Lemma removeMember_calm a u st : respects calm (removeAccountMember w a u st).
Proof. calm_all. Qed.
Lemma createInvite_calm a email role by_ : respects calm (createAccountInvite w a email role by_).
Proof. calm_all. Qed.
Lemma resend_calm id a : respects calm (resendAccountInvite w id a).
Proof. calm_all. Qed.
Lemma revoke_calm a id : respects calm (revokeInvite w a id).
Proof. calm_all. Qed.
Lemma markAccepted_calm id : respects calm (markInviteAccepted w id).
Proof. calm_all. Qed.
Lemma delete_guards_calm u : respects calm (delete_guards w u).
Proof. calm_all. Qed.
Lemma delete_calm u a t : respects calm (delete_commits w u a t).
Proof. calm_all. Qed.
Lemma create_event_calm ev : respects calm (create_event w ev).
Proof. calm_all. Qed.
Lemma write_seats_calm asked id n : respects calm (write_seats asked id n).
Proof. unfold write_seats. by apply calm_update_any. Qed.
#[local] Hint Resolve write_seats_calm : respects.
Lemma settle_seats_calm asked r g : respects calm (settle_seats asked r g).
Proof. calm_all. Qed.
Lemma reserve_calm a id n : respects calm (reserve_seats w a id n).
Proof. calm_all. Qed.
Lemma resume_calm asked r : respects calm (resume_writes asked r).
Proof. unfold resume_writes. apply respects_bind; [exact _| |intros; by respect]. by apply calm_update_any. Qed.
Lemma store_calm a i o b : respects calm (storeBilledSeats w a i o b).
Proof.
  intros db. unfold storeBilledSeats. do 2 tx_step. destruct (_ !! _) as [s|]; [|by tx]. repeat (destruct (negb _); [by tx|]). do 2 tx_step.
  apply ok_bind. destruct (bool_decide _); [by tx|]. tx_step. over calm_update; [done|done|]. intros _ db' Hc. by tx.
Qed.
Lemma grant_calm u c : c.(ct_planSlug) ≠ Some PLAN_SLUG_FREE → respects calm (grantManualContract w u c).
Proof.
  intros Hc db. unfold grantManualContract. tx_step. over provisionUser_calm. intros a db1 H1. do 4 tx_step. apply find_slug in H2 as [Hp Hs].
  over applyPlan_calm; [done|rewrite Hs; revert Hc; unfold PLAN_SLUG_FREE; destruct (ct_planSlug c); cbn; congruence|]. intros _ db2 H3. by etrans.
Qed.

(** *** Events *)

Lemma close_spec ev x db : ends ev.(ne_type) = true → target ev = Some x → plain db →
  tx_ok (apply_ending w ev) (λ _ db',
    (db.(accounts) !! ev.(ne_accountId) ≫= ac_deletedAt = None → is_Some (activeSubscriptionForAccount w.(w_now) ev.(ne_accountId) db')) ∧
    ∀ id s, db.(subs) !! id = Some s → s.(sb_providerSubscriptionId) = Some x →
      ∃ s', db'.(subs) !! id = Some s' ∧ s'.(sb_status) = STATUS_BY_TYPE ev.(ne_type) ∧ isActiveSubscription w.(w_now) s' = false) db.
Proof.
  intros He Hx Hp. unfold apply_ending. unfold target in Hx. rewrite Hx, He. unfold update_subs. do 2 tx_step. set (db1 := set_subs _ db).
  assert (plain db1) as Hp1.
  { apply (calm_where (by_provider_id x) (close_row w ev) db); [done| |done]. intros id s Hs Hid (Hn & _). unfold by_provider_id in Hid. conditions. congruence. }
  assert (db1.(accounts) = db.(accounts)) as Ea by done. tx_step. over ensureFree_spec; [done|]. intros _ db2 (Hfall & Hkept & _). tx. split; [by rewrite <-Ea|].
  intros id s Hs Hid. exists (close_row w ev s).
  assert (db1.(subs) !! id = Some (close_row w ev s)) as Hs1.
  { unfold db1. rewrite subs_set, lookup_update_where, Hs. cbn. unfold by_provider_id. by rewrite bool_decide_true. }
  split; [by eapply Hkept|]. split; [done|]. unfold isActiveSubscription. change (sb_status (close_row w ev s)) with (STATUS_BY_TYPE ev.(ne_type)).
  by destruct (ne_type ev).
Qed.

Definition sellable plan db : Prop := db.(plans) !! plan.1 = Some plan.2 ∧ plan.2.(pl_slug) ≠ PLAN_SLUG_FREE.

Lemma provision_calm ev plan db : sellable plan db → tx_ok (provisionActivatedPlan w ev plan) (λ _ db', calm db db') db.
Proof.
  intros [Hp Hs]. unfold provisionActivatedPlan, upsertBillingCustomer. do 3 tx_step. set (db1 := set_customers _ db).
  assert (calm db db1) as Hc by by apply calm_other. over applyPlan_calm; [done|done|]. intros _ db2 H2. tx. by etrans.
Qed.

Lemma held_calm ev x f db : (∀ s, (f s).(sb_planId) = s.(sb_planId)) → target ev = Some x →
  tx_ok (update_subs (by_provider_id x) f) (λ _ db', calm db db') db.
Proof.
  intros Hf Hx. unfold update_subs. tx_step. apply calm_where; [done|]. intros id s _ Hid (Hn & _). unfold by_provider_id in Hid. conditions. congruence.
Qed.

Lemma ending_calm ev : respects calm (apply_ending w ev).
Proof.
  intros db. unfold apply_ending. destruct (given _) as [x|] eqn:Hx; [|by tx]. tx_step. over held_calm; [done|done|]. intros _ db2 H2.
  destruct (ends _); [|by tx]. tx_step. over ensureFree_calm. intros _ db3 H3. tx. by etrans.
Qed.

Lemma commit_calm ev plan db : sellable plan db → tx_ok (commit w ev plan) (λ _ db', calm db db') db.
Proof.
  intros Hpl. unfold commit, create_event. do 2 tx_step. set (db1 := set_events _ db). assert (calm db db1) as Hc by by apply calm_other.
  assert (sellable plan db1) as Hpl1 by done. clearbody db1. apply ok_mono with (Q := λ _ db', calm db1 db'); [|intros _ db' Hd; by etrans].
  destruct (ne_type ev).
  - unfold apply_activation, applySeatChangeInPlace. do 3 tx_step. destruct (_ ≫= _) as [[id q]|].
    + tx_step. over calm_update; [done|done|]. intros _ db2 Hd. by tx.
    + tx. by apply provision_calm.
  - unfold apply_renewal, upgradeTrialToProYearlyOnRenewal. do 5 tx_step. destruct (negb _); cbn beta iota.
    + tx_step. destruct (given _) as [x|] eqn:Hx; [|by tx]. do 2 tx_step. destruct (provider_sub ev db1); [by apply (held_calm ev)|by apply provision_calm].
    + do 4 tx_step. match goal with E : findPlanBySlug _ _ = Some _ |- _ => apply find_slug in E as [Hp Hs] end. tx_step. over applyPlan_calm; [done|by rewrite Hs|]. intros _ db2 Hd. by tx.
  - by apply ending_calm.
  - by apply ending_calm.
  - by apply ending_calm.
Qed.

(** *** Cancellations *)

Definition paid_row id db : Prop := ∃ s, db.(subs) !! id = Some s ∧ is_free db s = false.

Lemma paid_update_calm id f db :
  (∀ s, (f s).(sb_planId) = s.(sb_planId)) → paid_row id db → tx_ok (update_sub id f) (λ _ db', calm db db') db.
Proof.
  intros Hf (s0 & Hs0 & Hn). unfold update_sub. tx_step. apply ok_update. intros s Hs _. rewrite Hs in Hs0. injection Hs0 as ->. tx.
  apply calm_row; rewrite (is_free_plan db s0 (f s0)) by apply Hf; congruence.
Qed.

Lemma cancel_writes_calm p r db : paid_row r.1 db → tx_ok (cancel_writes w p r) (λ _ db', calm db db') db.
Proof.
  intros Hr. unfold cancel_writes. destruct (cancelEffectiveForPlan p); [destruct (is_gateway _); [by tx|]|].
  - tx_step. over paid_update_calm; [done|done|]. intros _ db1 H1. tx_step. over ensureFree_calm. intros _ db2 H2. tx. by etrans.
  - tx_step. over paid_update_calm; [done|done|]. intros _ db1 H1. by tx.
Qed.
Lemma cancel_settles_calm asked p r g db : paid_row r.1 db → tx_ok (cancel_settles asked p r g) (λ _ db', calm db db') db.
Proof.
  intros Hr. unfold cancel_settles. destruct (cancelEffectiveForPlan p); [by tx|]. destruct (negb _); [by tx|].
  destruct g as [e|[t|]]; [|destruct (bool_decide _); [by tx|]|by tx]; tx_step; (over paid_update_calm; [done|done|]); intros _ db1 H1; by tx.
Qed.
End calm.

(** ** The whole service *)

Definition flight_ok db (f : Flight) : Prop :=
  match f with FEvent _ plan => sellable plan db | FCancels _ _ r | FCancel _ _ r => paid_row r.1 db | _ => True end.
Definition settled (sys : Sys) : Prop := plain sys.(s_db) ∧ Forall (flight_ok sys.(s_db)) sys.(s_flights).

(** What the gateways' parsers let through, and a contract that is one. *)
Definition lawful (a : Act) : Prop :=
  match a with
  | EventArrives ev => isPlanId ev.(ne_planId) = true
  | ContractAgreed _ c => c.(ct_planSlug) ≠ Some PLAN_SLUG_FREE
  | _ => True
  end.

Lemma flight_ok_calm db db' f : plain db → calm db db' → flight_ok db f → flight_ok db' f.
Proof.
  intros Hp Hc. destruct (Hc Hp) as (_ & Ep & Hn). destruct f; try done.
  2: by unfold flight_ok, sellable; rewrite Ep.
  all: intros (s & Hs & Hf); destruct (Hn _ _ Hs Hf) as (s' & Hs' & Hf'); exists s'; (split; [done|]); by rewrite (is_free_plans db db').
Qed.
Lemma settled_calm db fs sys : settled sys → calm sys.(s_db) db → fs ⊆ sys.(s_flights) → settled {| s_db := db; s_flights := fs |}.
Proof.
  intros [Hp Hf] Hc Hsub. split; [by apply (Hc Hp)|]. apply Forall_forall. intros f Hin. eapply flight_ok_calm; [done..|].
  eapply Forall_forall; [exact Hf|]. by apply Hsub.
Qed.
Lemma set_db_settled db sys : settled sys → calm sys.(s_db) db → settled (set_db db sys).
Proof. intros Hs Hc. apply (settled_calm db sys.(s_flights) sys); [done|done|]. by intros f. Qed.
Lemma fly_settled f sys : settled sys → flight_ok sys.(s_db) f → settled (fly f sys).
Proof. intros [Hp Hf] Hok. split; [done|]. apply Forall_app. split; [done|by constructor]. Qed.

Lemma isPlanId_paid slug : isPlanId slug = true → slug ≠ PLAN_SLUG_FREE.
Proof. unfold isPlanId. intros Hi ->. conditions. naive_solver. Qed.
Lemma resolve_plan ev ev' db : resolveEventIdentity ev db = Some ev' → isPlanId ev.(ne_planId) = true → isPlanId ev'.(ne_planId) = true.
Proof.
  unfold resolveEventIdentity. destruct (_ ≫= _) as [[s p]|] eqn:E.
  - intros [= <-] _. apply bind_Some in E as ([id s1] & _ & (p1 & _ & E)%bind_Some). by destruct (isPlanId (pl_slug p1)) eqn:Hi; simplify_eq.
  - destruct (_ && _); [|done]. destruct (findPlanBySlug _ _); [|done]. by intros [= <-].
Qed.

Section settled.
Context `{Postgres, Crypto} (w : World).

Lemma run_tx_settled {A} (m : Tx A) next sys :
  tx_ok m (λ _ db', calm sys.(s_db) db') sys.(s_db) → (∀ a sys', calm sys.(s_db) sys'.(s_db) → settled sys' → settled (next a sys')) →
  settled sys → settled (run_tx m next sys).
Proof.
  intros Hm Hn Hs. unfold run_tx, atomically. unfold tx_ok in Hm. destruct (m _) as [e|[a db]]; [done|]. apply Hn; [done|]. by apply set_db_settled.
Qed.
Lemma run_only_settled {A} (m : Tx A) sys : tx_ok m (λ _ db', calm sys.(s_db) db') sys.(s_db) → settled sys → settled (run_only m sys).
Proof. intros Hm. by apply run_tx_settled. Qed.
Lemma on_account_settled actor req sys : settled sys → settled (on_account actor req sys).
Proof. intros Hs. unfold on_account. destruct (resolveBillingAccountId _ _); [by apply fly_settled|done]. Qed.
Lemma as_owner_settled actor req sys : settled sys → settled (as_owner actor req sys).
Proof. intros Hs. unfold as_owner. destruct (isBillingAccountOwner _ _); [by apply fly_settled|done]. Qed.
Lemma as_contract_owner_settled u req sys : settled sys → settled (as_contract_owner u req sys).
Proof. intros Hs. unfold as_contract_owner. destruct (isBillingAccountOwner _ _); [by apply fly_settled|done]. Qed.

(** A contract that was read is paid for. *)
Lemma own_contract_paid u r p db : own_contract w u db = Some (r, p) → paid_row r.1 db.
Proof.
  destruct r as [id s]. unfold own_contract. intros (a & _ & [[id1 s1] [Hr (p1 & Hp & E)%bind_Some]]%bind_Some)%bind_Some. cbn [snd] in *.
  destruct (_ || _) eqn:Ho; [done|]. injection E as -> -> ->. apply orb_false_iff in Ho as [Ho _]. conditions.
  apply active_for_entitles in Hr as [Hs1 _]. exists s. split; [done|]. unfold is_free, slug_is. rewrite Hp. by apply bool_decide_false.
Qed.
Lemma contract_asked_settled req r p sys : paid_row r.1 sys.(s_db) → settled sys → settled (contract_asked w req r p sys).
Proof. intros Hr Hs. destruct req; cbn [contract_asked]; case_match; try done; by apply fly_settled. Qed.

Lemma team_calm actor a req : respects calm (team_tx w actor a req).
Proof.
  destruct req; cbn [team_tx]; [|calm_all..|apply removeMember_calm].
  apply respects_bind; [exact _|apply createInvite_calm|intros; apply respects_ret; exact _].
Qed.

Lemma arrive_settled ev sys : isPlanId ev.(ne_planId) = true → settled sys → settled (step w (EventArrives ev) sys).
Proof.
  intros Hi Hs. cbn [step]. unfold arrive. destruct (events _ !! _); [by apply set_db_settled|].
  destruct (resolveEventIdentity ev _) as [ev'|] eqn:E; [|by apply set_db_settled].
  destruct (accounts _ !! _) as [acc|]; [|by apply set_db_settled]. destruct (ac_deletedAt acc).
  { apply set_db_settled; [done|]. apply (atomically_respects calm), create_event_calm. }
  destruct (findPlanBySlug _ _) as [plan|] eqn:Ef; [|by apply set_db_settled]. destruct (isDuplicateActivation _ _ _); [by apply set_db_settled|].
  apply fly_settled; [by apply set_db_settled|]. apply find_slug in Ef as [Hp Hslug]. split; [done|]. rewrite Hslug. eapply isPlanId_paid, resolve_plan; eauto.
Qed.

Lemma land_settled f g sys : settled sys → flight_ok sys.(s_db) f → settled (land w f g sys).
Proof.
  intros Hs Hf. destruct f; cbn [land].
  - destruct req; try by apply on_account_settled. apply run_tx_settled; [apply provisionUser_calm| |done]. intros _ sys' _ Hs'. by apply fly_settled.
  - by apply on_account_settled.
  - apply run_only_settled; [apply team_calm|done].
  - apply run_only_settled; [apply removeMember_calm|done].
  - apply run_tx_settled; [apply provisionUser_calm| |done]. intros _ sys' _ Hs'. by apply fly_settled.
  - destruct (own_contract _ _ _) as [[r p]|] eqn:E; [|done]. apply contract_asked_settled; [by eapply own_contract_paid|done].
  - apply run_tx_settled; [apply reserve_calm| |done]. intros _ sys' _ Hs'. by apply fly_settled.
  - apply run_tx_settled; [by apply cancel_writes_calm| |done]. intros _ sys' Hc Hs'. apply fly_settled; [done|].
    by apply (flight_ok_calm sys.(s_db) sys'.(s_db) (FCancel asked plan sub)); [apply Hs| |].
  - apply set_db_settled; [done|]. unfold settle, atomically. pose proof (commit_calm w ev plan _ Hf) as Hc. unfold tx_ok in Hc.
    destruct (commit _ _ _ _) as [[]|[]]; done.
  - pose proof (addMember_calm w accountId userId role no_waiver sys.(s_db)) as Hc. unfold accept_joins, atomically, tx_ok in *.
    destruct (addAccountMember _ _ _ _ _ _) as [[]|[]]; try (by apply set_db_settled); [|by apply fly_settled; [by apply set_db_settled|]].
    destruct (bool_decide _); [apply fly_settled; [|done]|]; by apply set_db_settled.
  - apply run_only_settled; [apply markAccepted_calm|done].
  - apply run_only_settled; [apply settle_seats_calm|done].
  - apply run_only_settled; [by apply cancel_settles_calm|done].
  - destruct g; [done|]. apply run_only_settled; [apply resume_calm|done].
  - apply set_db_settled; [done|]. unfold reconcile_one. destruct g as [|[b|]]; [done| |done].
    pose proof (store_calm w sub.2.(sb_accountId) sub.1 sub.2.(sb_seats) b sys.(s_db)) as Hc. unfold atomically, tx_ok in *. by destruct (storeBilledSeats _ _ _ _ _ _) as [|[[]]].
  - apply run_only_settled; [apply delete_calm|done].
Qed.

Lemma lands_settled n g sys : settled sys → settled (step w (Lands n g) sys).
Proof.
  intros Hs. cbn [step]. destruct (_ !! _) as [f|] eqn:Ef; [|done]. apply land_settled.
  - apply (settled_calm sys.(s_db) (base.delete n sys.(s_flights)) sys); [done|done|]. apply list_subseteq_delete.
  - destruct Hs as [_ Hf]. eapply Forall_lookup_1 in Hf; [|exact Ef]. exact Hf.
Qed.

Lemma step_settled a sys : lawful a → settled sys → settled (step w a sys).
Proof.
  intros Hl Hs. destruct a; try (by apply lands_settled); try (by apply arrive_settled); cbn [step];
    try (by apply as_owner_settled); try (by apply as_contract_owner_settled).
  - apply run_only_settled; [|done]. assert (respects calm (create_row users set_users userId
      {| u_email := email; u_emailVerified := false; u_accountId := None |})) as Hc by calm_all. apply Hc.
  - apply run_only_settled; [|done]. assert (respects calm (update_row users set_users userId (λ u, u {{ u_emailVerified := true }}))) as Hc by calm_all. apply Hc.
  - apply run_only_settled; [apply provisionUser_calm|done].
  - destruct (role_parses role); [by apply as_owner_settled|done].
  - destruct (accept_arrives _ _ _ _ _) as [|[]]; [done|]. by apply fly_settled.
  - destruct (findActiveMembership _ _) as [[]|]; [by apply fly_settled|done].
  - destruct (_ !! _); [|done]. destruct (_ && _); [|done]. by apply fly_settled.
  - apply run_only_settled; [by apply grant_calm|done].
  - apply run_tx_settled; [apply delete_guards_calm| |done]. intros [|[]] sys' _ Hs'; [done|]. by apply fly_settled.
Qed.
End settled.

Lemma run_settled `{Postgres, Crypto} acts sys : Forall (λ wa, lawful wa.2) acts → settled sys → settled (run acts sys).
Proof.
  induction acts as [|[w a] acts IH] using rev_ind; [done|]. intros [Hl [Ha _]%Forall_cons]%Forall_app Hs. rewrite run_snoc. by apply step_settled, IH.
Qed.

Lemma commit_ends `{Postgres, Crypto} w ev plan x db : ends ev.(ne_type) = true → target ev = Some x → plain db →
  tx_ok (commit w ev plan) (λ _ db',
    (db.(accounts) !! ev.(ne_accountId) ≫= ac_deletedAt = None → is_Some (activeSubscriptionForAccount w.(w_now) ev.(ne_accountId) db')) ∧
    ∀ id s, db.(subs) !! id = Some s → s.(sb_providerSubscriptionId) = Some x →
      ∃ s', db'.(subs) !! id = Some s' ∧ s'.(sb_status) = STATUS_BY_TYPE ev.(ne_type) ∧ isActiveSubscription w.(w_now) s' = false) db.
Proof.
  intros He Hx Hp. unfold commit, create_event. do 2 tx_step. set (db2 := set_events _ db). assert (plain db2) as Hp2 by done.
  assert (match ne_type ev with renewed => apply_renewal w ev plan | activated => apply_activation w ev plan | _ => apply_ending w ev end =
    apply_ending w ev) as -> by (by destruct (ne_type ev)).
  over (close_spec w ev x db2); [done..|]. by intros _ d Hd.
Qed.

(** C29: an ending leaves a subscription.  In every run from a database whose free
    rows have no gateway and no end, as the ones the service writes, when a
    cancellation or an expiry of a gateway's subscription is applied, every row of
    that subscription is inactive from then on, and unless the account was deleted
    its entitlement is read from an active subscription. *)
Theorem endings_leave_a_subscription `{Postgres, Crypto} (acts : list (World * Act)) (sys : Sys) (w : World) (ev : NormalizedEvent)
    (plan : PlanRow) (x : string) (db : DB) :
  settled sys → Forall (λ wa, lawful wa.2) acts →
  let before := (run acts sys).(s_db) in
  settle w ev plan before = (Done false, db) → ends ev.(ne_type) = true → target ev = Some x →
  (∀ id s, before.(subs) !! id = Some s → s.(sb_providerSubscriptionId) = Some x →
     ∃ s', db.(subs) !! id = Some s' ∧ s'.(sb_status) = STATUS_BY_TYPE ev.(ne_type) ∧ isActiveSubscription w.(w_now) s' = false) ∧
  (before.(accounts) !! ev.(ne_accountId) ≫= ac_deletedAt = None → is_Some (activeSubscriptionForAccount w.(w_now) ev.(ne_accountId) db)).
Proof.
  intros Hsys Hacts before Hs He Hx. destruct (run_settled acts sys Hacts Hsys) as [Hp _]. fold before in Hp. clearbody before.
  unfold settle in Hs. destruct (atomically _ _) as [[[]|[]] db1] eqn:Ha; try done. injection Hs as <-. apply and_comm.
  by apply (atomically_ok _ _ _ _ _ (commit_ends w ev plan x before He Hx Hp) Ha).
Qed.

(** A contract cancelled on the demonstration's database. *)
Lemma endings_leave_a_subscription_witness :
  let acts := BillingDemo.buys 10 "A" 3 in
  let before := (run acts BillingDemo.idle).(s_db) in
  let ev := BillingDemo.event canceled "c" "A" "pro_yearly" (Some "sub-A") None None in
  ∃ db, settle (BillingDemo.at_ 20) ev BillingDemo.pro_plan before = (Done false, db) ∧ is_Some (activeSubscriptionForAccount 20 "A" db).
Proof.
  intros acts before ev. eexists. split; [vm_compute; reflexivity|].
  eapply (endings_leave_a_subscription acts BillingDemo.idle (BillingDemo.at_ 20) ev BillingDemo.pro_plan "sub-A").
  - split; [|constructor]. intros id s Hs. vm_compute in Hs. destruct id; discriminate.
  - repeat constructor.
  - vm_compute. reflexivity.
  - reflexivity.
  - reflexivity.
  - vm_compute. reflexivity.
Defined.
