(* ===== verification/BillingMembers.v ===== *)
(** * BillingMembers: who is on an account, and how they got there

    In every run a membership is its account holder's own, or was accepted from an
    invitation; and that was asked for by a user who owned an account, and went to
    the account that user was billed on when the request looked it up. *)

From S2P Require Import Prelude JsMap Wire BillingDb Billing BillingReducer BillingTeam BillingSystem BillingContracts.
From coqutil Require Import Datatypes.RecordSetters.
Import DoubleBraceUpdate.

#[local] Set Warnings "-notation-overridden".
Local Open Scope Z_scope.
Local Open Scope js_scope.

Implicit Types (db : DB) (a u role id : string).

Definition is_member db a u role : Prop := ∃ v, db.(members) !! (a, u) = Some v ∧ v.(mb_status) = ACTIVE ∧ v.(mb_role) = role.
Definition holder db a u : Prop := ∃ acc, db.(accounts) !! a = Some acc ∧ acc.(ac_userId) = u.

(** Memberships that come to be are their holders' own, or granted; and an
    account keeps its holder. *)
Definition grows (G : string → string → string → Prop) db db' : Prop :=
  (∀ a u role, is_member db' a u role → is_member db a u role ∨ (holder db' a u ∧ role = OWNER) ∨ G a u role) ∧
  ∀ a u, holder db a u → holder db' a u.

Section grows.
Context (G : string → string → string → Prop).

#[global] Instance grows_po : PreOrder (grows G).
Proof.
  split.
  - intros db. split; auto.
  - intros d1 d2 d3 [H1 K1] [H2 K2]. split; [|auto]. intros a u role [Hm|[Hm|Hm]]%H2; [|auto..].
    apply H1 in Hm as [Hm|[[Hm ->]|Hm]]; auto.
Qed.

Lemma grows_same db db' : db'.(members) = db.(members) → db'.(accounts) = db.(accounts) → grows G db db'.
Proof. intros Em Ea. unfold grows, is_member, holder. rewrite Em, Ea. auto. Qed.

Lemma grows_close P f db : (∀ v, (f v).(mb_status) ≠ ACTIVE) → grows G db (set_members (update_where P f db.(members)) db).
Proof.
  intros Hf. split; [|auto]. intros a u role (v & Hv & Ha & Hr). rewrite members_set, lookup_update_where in Hv.
  apply fmap_Some in Hv as (v0 & Hv0 & ->). destruct (P (a, u) v0); [by destruct (Hf v0)|]. left. by exists v0.
Qed.

Lemma grows_insert a u v db : G a u v.(mb_role) ∨ (holder db a u ∧ v.(mb_role) = OWNER) → grows G db (set_members (<[(a, u) := v]> db.(members)) db).
Proof.
  intros Hg. split; [|auto]. intros a' u' role (v' & Hv & Ha & Hr). rewrite members_set in Hv. destruct (decide ((a', u') = (a, u))) as [[= -> ->]|Hne].
  - rewrite lookup_insert_eq in Hv. injection Hv as <-. subst role. right. destruct Hg as [Hg|[Hh Hg]]; [by right|by left].
  - rewrite lookup_insert_ne in Hv by congruence. left. by exists v'.
Qed.

Lemma grows_accounts a acc db :
  (∀ acc0, db.(accounts) !! a = Some acc0 → acc.(ac_userId) = acc0.(ac_userId)) → grows G db (set_accounts (<[a := acc]> db.(accounts)) db).
Proof.
  intros Ha. assert (∀ a0 u, holder db a0 u → holder (set_accounts (<[a := acc]> db.(accounts)) db) a0 u) as Hh; [|split; auto].
  intros a0 u (acc0 & Hacc & <-). destruct (decide (a0 = a)) as [->|Hne].
  - exists acc. split; [apply lookup_insert_eq|by apply Ha].
  - exists acc0. split; [|done]. etrans; [by apply lookup_insert_ne|done].
Qed.
End grows.

Ltac grows_leaf := first [by apply grows_same | by apply grows_close].
Ltac grows_all := respect; grows_leaf.

Section members.
Context `{Postgres, Crypto} (w : World) (G : string → string → string → Prop).

Lemma upsert_grows a u role f db : (∀ v, (f v).(mb_role) = role) → G a u role ∨ (holder db a u ∧ role = OWNER) →
  tx_ok (upsert_member w a u role f) (λ _ db', grows G db db') db.
Proof. intros Hf Hg. unfold upsert_member. tx_step. apply grows_insert. destruct (members db !! (a, u)); [by rewrite Hf|done]. Qed.

Lemma ensureAccount_grows u : respects (grows G) (ensureProductAccount w u).
Proof.
  intros db. unfold ensureProductAccount. do 3 tx_step.
  apply ok_mono with (Q := λ r db', grows G db db' ∧ db'.(accounts) !! r.1 = Some r.2 ∧ r.2.(ac_userId) = u).
  { destruct (account_of u db) as [[id acc]|] eqn:E.
    - tx. apply find_one_Some in E as [Hacc Hu]. conditions. by split.
    - tx_step. tx_step. tx_step. apply ok_create. intros Hn _. tx. split; [apply grows_accounts; congruence|]. split; [apply lookup_insert_eq|done]. }
  intros [id acc] db1 (Hg & Hacc & Hu). cbn [fst snd] in *. tx_step. unfold syncUserAccountId. tx_step. set (db2 := set_users _ db1).
  assert (grows G db1 db2) as H2 by by apply grows_same. assert (db2.(accounts) !! id = Some acc) as Hacc2 by done. clearbody db2.
  destruct (ac_deletedAt acc); [tx; by etrans|]. unfold ensureOwnerMembership. do 3 tx_step.
  destruct (find_one _ _); [tx; by etrans|]. apply ok_mono with (Q := λ _ db', grows G db2 db').
  - apply upsert_grows; [done|]. right. split; [|done]. by exists acc.
  - intros _ db3 H3. tx. etrans; [exact Hg|]. by etrans.
Qed.
#[local] Hint Resolve ensureAccount_grows : respects.

Lemma tombstone_grows a t : respects (grows G) (update_row accounts set_accounts a (λ x, x {{ ac_deletedAt := t }})).
Proof. intros db. tx. apply grows_accounts. intros acc0 Hacc. by simplify_eq. Qed.
#[local] Hint Resolve tombstone_grows : respects.
#[global] Instance grows_upheld : Upheld w (grows G).
Proof. split; intros; try exact _; grows_all. Qed.

Lemma joined_grows a u role f : (∀ v, (f v).(mb_role) = role) → G a u role → respects (grows G) (upsert_member w a u role f).
Proof. intros Hf Hg db. apply upsert_grows; auto. Qed.
Lemma addMember_grows a u role : G a u role → respects (grows G) (addAccountMember w a u role no_waiver).
Proof.
  intros Hg. unfold addAccountMember. pose proof (λ f Hf, joined_grows a u role f Hf Hg) as Hj.
  grows_all.
Qed.
End members.

(** ** Invitations *)

Definition invites_to db a email role : Prop :=
  ∃ id i, db.(invites) !! id = Some i ∧ i.(iv_accountId) = a ∧ i.(iv_email) = email ∧ i.(iv_role) = role.

Definition invited (G : string → string → string → Prop) db db' : Prop :=
  ∀ a email role, invites_to db' a email role → invites_to db a email role ∨ G a email role.

Section invited.
Context (G : string → string → string → Prop).

#[global] Instance invited_po : PreOrder (invited G).
Proof.
  split; [by left|]. intros d1 d2 d3 H1 H2 a e r [Hi|Hi]%H2; [by apply H1|by right].
Qed.
Lemma invited_same db db' : db'.(invites) = db.(invites) → invited G db db'.
Proof. intros E a e r (id & i & Hi & Hrest). rewrite E in Hi. left. by exists id, i. Qed.
Lemma invited_where P f db :
  (∀ i, (f i).(iv_accountId) = i.(iv_accountId) ∧ (f i).(iv_email) = i.(iv_email) ∧ (f i).(iv_role) = i.(iv_role)) →
  invited G db (set_invites (update_where P f db.(invites)) db).
Proof.
  intros Hf a e r (id & i & Hi & Hrest). rewrite invites_set, lookup_update_where in Hi. apply fmap_Some in Hi as (i0 & Hi0 & ->).
  left. exists id, i0. split; [done|]. destruct (P id i0); [|done]. destruct (Hf i0) as (E1 & E2 & E3). by rewrite <-E1, <-E2, <-E3.
Qed.
Lemma invited_filter (P : string * AccountInvite → Prop) `{∀ x, Decision (P x)} db : invited G db (set_invites (filter P db.(invites)) db).
Proof.
  intros a e r (id & i & Hi & Hrest). rewrite invites_set in Hi. apply map_lookup_filter_Some in Hi as [Hi _]. left. by exists id, i.
Qed.
Lemma invited_create id i db : G i.(iv_accountId) i.(iv_email) i.(iv_role) → invited G db (set_invites (<[id := i]> db.(invites)) db).
Proof.
  intros Hg a e r (id' & i' & Hi & <- & <- & <-). rewrite invites_set in Hi. apply lookup_insert_Some in Hi as [[_ <-]|[_ Hi]]; [by right|].
  left. by exists id', i'.
Qed.
End invited.

Ltac invited_leaf := first [by apply invited_same | by apply invited_where | by apply invited_filter].
Ltac invited_all := respect; invited_leaf.

Section invitations.
Context `{Postgres, Crypto} (w : World) (G : string → string → string → Prop).

Lemma createInvite_invited a email role by_ : G a (normalizeInviteEmail email) role → respects (invited G) (createAccountInvite w a email role by_).
Proof.
  intros Hg. assert (respects (invited G) (createInvite w a (normalizeInviteEmail email) role by_)) as Hc.
  { intros db. unfold createInvite. tx. by apply invited_create. }
  respect; invited_leaf.
Qed.
#[global] Instance invited_upheld : Upheld w (invited G).
Proof. split; intros; try exact _; invited_all. Qed.
Lemma addMember_invited a u role : respects (invited G) (addAccountMember w a u role no_waiver).
Proof. invited_all. Qed.
Lemma createInvite_grows a email role by_ : respects (grows G) (createAccountInvite w a email role by_).
Proof. grows_all. Qed.
End invitations.

(** ** Every membership was accepted *)

Section runs.
Context `{Postgres, Crypto}.

(** What the last of these acts, or an earlier one, did at the state it found. *)
Definition happened (sys : Sys) (acts : list (World * Act)) (P : World → Act → Sys → Prop) : Prop :=
  ∃ before w (act : Act) after, acts = before ++ (w, act) :: after ∧ P w act (run before sys).

Lemma happened_snoc sys acts x P : happened sys acts P → happened sys (acts ++ [x]) P.
Proof. intros (b & w & a & f & -> & HP). exists b, w, a, (f ++ [x]). by rewrite <-app_assoc. Qed.
Lemma happened_last sys acts w (act : Act) (P : World → Act → Sys → Prop) : P w act (run acts sys) → happened sys (acts ++ [(w, act)]) P.
Proof. intros HP. by exists acts, w, act, []. Qed.

(** The user accepts an invitation to the account, in that role. *)
Definition accepts a u role : World → Act → Sys → Prop := λ w act sys, ∃ inviteId token,
  act = AcceptArrives inviteId token u ∧ accept_arrives w inviteId token u sys.(s_db) = inr (a, role).
(** An owner of the account they are billed on asks to invite the address. *)
Definition asks_to_invite actor rawEmail role : World → Act → Sys → Prop := λ w act sys, ∃ rawRole,
  act = InviteSent actor rawEmail rawRole ∧ role_parses rawRole = Some role ∧ isBillingAccountOwner actor sys.(s_db) = true.
(** The request, its user provisioned, is about the account that user is billed on. *)
Definition looks_up actor a rawEmail role : World → Act → Sys → Prop := λ w act sys, ∃ n gateway,
  act = Lands n gateway ∧ sys.(s_flights) !! n = Some (FProvisioned actor (Invites rawEmail role)) ∧
  resolveBillingAccountId actor sys.(s_db) = Some a.

(** An invitation of these acts: asked for, then addressed to the account. *)
Definition invites_ sys acts a email role : Prop :=
  ∃ actor rawEmail before w act after, acts = before ++ (w, act) :: after ∧
    happened sys before (asks_to_invite actor rawEmail role) ∧ looks_up actor a rawEmail role w act (run before sys) ∧
    email = normalizeInviteEmail rawEmail.

(** Where what is under way comes from: the act that launched it. *)
Definition launched w act sys (f : Flight) : Prop :=
  match f with
  | FJoin _ a role u => accepts a u role w act sys
  | FGated actor (Invites email role) => asks_to_invite actor email role w act sys
  | FProvisioned actor (Invites email role) => FGated actor (Invites email role) ∈ sys.(s_flights)
  | FTeam actor a (Invites email role) => looks_up actor a email role w act sys
  | _ => True
  end.

(** Nothing is under way that was not, but for what [P] allows. *)
Definition news (P : Flight → Prop) (sys sys' : Sys) : Prop := ∀ f, f ∈ sys'.(s_flights) → f ∈ sys.(s_flights) ∨ P f.

Lemma news_none P sys sys' : sys'.(s_flights) = sys.(s_flights) → news P sys sys'.
Proof. intros E f. rewrite E. by left. Qed.
Lemma news_trans P s1 s2 s3 : news P s1 s2 → news P s2 s3 → news P s1 s3.
Proof. intros H1 H2 f [Hf|Hf]%H2; [by apply H1|by right]. Qed.
Lemma news_fly (P : Flight → Prop) f sys : P f → news P sys (fly f sys).
Proof. intros Hf g [Hg|Hg%list_elem_of_singleton]%elem_of_app; [by left|subst g; by right]. Qed.
Lemma news_tx {A} P (m : Tx A) next sys : (∀ x sys', news P sys' (next x sys')) → news P sys (run_tx m next sys).
Proof.
  intros Hn. unfold run_tx. destruct (atomically _ _) as [[|x] db]; [by apply news_none|].
  eapply news_trans; [|apply Hn]. by apply news_none.
Qed.
Lemma news_only {A} P (m : Tx A) sys : news P sys (run_only m sys).
Proof. apply news_tx. intros. by apply news_none. Qed.
Lemma news_on_account (P : Flight → Prop) actor req sys :
  (∀ a, resolveBillingAccountId actor sys.(s_db) = Some a → P (FTeam actor a req)) → news P sys (on_account actor req sys).
Proof. intros HP. unfold on_account. destruct (resolveBillingAccountId _ _); [by apply news_fly, HP|by apply news_none]. Qed.

Lemma land_launches w n gateway f sys :
  sys.(s_flights) !! n = Some f → news (launched w (Lands n gateway) sys) (sys {{ s_flights := base.delete n sys.(s_flights) }})
    (land w f gateway (sys {{ s_flights := base.delete n sys.(s_flights) }})).
Proof.
  intros Hf. pose proof (list_elem_of_lookup_2 _ _ _ Hf) as Hin.
  set (P := launched _ _ _). set (s1 := sys {{ s_flights := _ }}). destruct f; cbn [land]; try apply news_only; try by apply news_none.
  - destruct req; try by apply news_on_account. apply news_tx. intros. by apply news_fly.
  - apply news_on_account. intros a Ha. destruct req; try done. by exists n, gateway.
  - apply news_tx. intros. by apply news_fly.
  - destruct (own_contract _ _ _) as [[r p]|]; [|by apply news_none].
    destruct req; cbn [contract_asked]; case_match; first [by apply news_none|by apply news_fly].
  - apply news_tx. intros. by apply news_fly.
  - apply news_tx. intros. by apply news_fly.
  - destruct (accept_joins _ _ _ _ _) as [[|[]] db]; [by apply news_none|].
    eapply news_trans; [by apply (news_none P s1 (set_db db s1))|by apply news_fly].
  - destruct gateway; [by apply news_none|apply news_only].
Qed.

Lemma step_launches w act sys : news (launched w act sys) sys (step w act sys).
Proof.
  assert (∀ actor req, (∀ email role, req = Invites email role → isBillingAccountOwner actor sys.(s_db) = true → asks_to_invite actor email role w act sys) →
    news (launched w act sys) sys (as_owner actor req sys)) as Howner.
  { intros actor req Hreq. unfold as_owner. destruct (isBillingAccountOwner _ _) eqn:E; [|by apply news_none].
    apply news_fly. destruct req; try done. by apply Hreq. }
  assert (∀ u req, news (launched w act sys) sys (as_contract_owner u req sys)) as Hcontract.
  { intros u req. unfold as_contract_owner. destruct (isBillingAccountOwner _ _); [by apply news_fly|by apply news_none]. }
  destruct act; cbn [step]; try apply news_only; try apply Hcontract; try by apply Howner.
  - destruct (arrive _ _ _) as [[] db]; try by apply news_none.
    eapply news_trans; [by apply (news_none _ sys (set_db db sys))|by apply news_fly].
  - destruct (role_parses role) as [r|] eqn:Er; [|by apply news_none]. apply Howner. intros e r' [= <- <-] Ho. by exists role.
  - destruct (accept_arrives _ _ _ _ _) as [|[a r]] eqn:E; [by apply news_none|]. apply news_fly. by exists inviteId, token.
  - destruct (findActiveMembership _ _) as [[]|]; [by apply news_fly|by apply news_none].
  - destruct (_ !! _); [|by apply news_none]. destruct (_ && _); [by apply news_fly|by apply news_none].
  - apply news_tx. intros [|[]] s1; [by apply news_none|by apply news_fly].
  - destruct (_ !! n) as [f|] eqn:Ef; [|by apply news_none]. eapply news_trans; [|by apply land_launches].
    intros g Hg. left. by apply (list_subseteq_delete n) in Hg.
Qed.

(** Where what is under way comes from, in a run. *)
Definition traced sys acts (f : Flight) : Prop :=
  match f with
  | FJoin _ a role u => happened sys acts (accepts a u role)
  | FGated actor (Invites email role) | FProvisioned actor (Invites email role) => happened sys acts (asks_to_invite actor email role)
  | FTeam actor a (Invites email role) => invites_ sys acts a (normalizeInviteEmail email) role
  | _ => True
  end.

Lemma invites_more sys acts x a email role : invites_ sys acts a email role → invites_ sys (acts ++ x) a email role.
Proof.
  intros (actor & raw & b & w & act & f & -> & Hinv). exists actor, raw, b, w, act, (f ++ x). split; [|done]. by rewrite <-app_assoc.
Qed.
Lemma traced_snoc sys acts x f : traced sys acts f → traced sys (acts ++ [x]) f.
Proof.
  destruct f as [? []|? []|? ? []| | | | | | | | | | | | |]; try done; cbn [traced]; first [apply happened_snoc|apply invites_more].
Qed.

Lemma flights_traced sys acts f : sys.(s_flights) = [] → f ∈ (run acts sys).(s_flights) → traced sys acts f.
Proof.
  intros Hno. revert f. induction acts as [|[w act] acts IH] using rev_ind; intros f.
  { change (run [] sys) with sys. rewrite Hno. by intros ?%not_elem_of_nil. }
  rewrite run_snoc. intros [Hin|Hl]%step_launches; [by apply traced_snoc, IH|].
  destruct f as [actor []|actor []|actor a []| | | | | | | | | | | | |]; try done; cbn [launched traced] in *.
  - by apply happened_last.
  - apply IH in Hl. by apply happened_snoc.
  - exists actor, email, acts, w, act, []. split; [done|]. split_and!; [|done|done].
    destruct Hl as (n & g & _ & Hn & _). apply list_elem_of_lookup_2, IH in Hn. done.
  - by apply happened_last.
Qed.

Lemma run_upheld (R : DB → DB → Prop) sys acts `{!PreOrder R} :
  (∀ before w (act : Act) after, acts = before ++ (w, act) :: after → R (run before sys).(s_db) (step w act (run before sys)).(s_db)) →
  R sys.(s_db) (run acts sys).(s_db).
Proof.
  intros Hs. induction acts as [|[w act] acts IH] using rev_ind; [reflexivity|]. rewrite run_snoc.
  etrans; [|by apply (Hs acts w act [])]. apply IH. intros b w' act' f ->. apply (Hs _ _ _ (f ++ [(w, act)])). by rewrite <-app_assoc.
Qed.

(** What happened in a run happened in a longer one. *)
Lemma happened_more sys acts x P : happened sys acts P → happened sys (acts ++ x) P.
Proof. intros (b & w & a & f & -> & HP). exists b, w, a, (f ++ x). by rewrite <-app_assoc. Qed.

Lemma run_grows sys acts : sys.(s_flights) = [] → grows (λ a u role, happened sys acts (accepts a u role)) sys.(s_db) (run acts sys).(s_db).
Proof.
  intros Hno. apply run_upheld; [exact _|]. intros b w act f ->. apply step_upheld.
  - intros actor a email role _. apply createInvite_grows.
  - intros i a r u Hin. apply addMember_grows. apply happened_more. exact (flights_traced _ _ _ Hno Hin).
Qed.
Lemma run_invited sys acts : sys.(s_flights) = [] → invited (λ a email role, invites_ sys acts a email role) sys.(s_db) (run acts sys).(s_db).
Proof.
  intros Hno. apply run_upheld; [exact _|]. intros b w act f ->. apply step_upheld.
  - intros actor a email role Hin. apply createInvite_invited, invites_more. exact (flights_traced _ _ _ Hno Hin).
  - intros ? a r u _. apply addMember_invited.
Qed.

(** What accepting takes: an open invitation whose secret is presented by the
    holder of a verified account with its address. *)
Definition opens w token u db a role (i : AccountInvite) : Prop :=
  ∃ user, db.(users) !! u = Some user ∧ user.(u_emailVerified) = true ∧
    i.(iv_status) = PENDING ∧ w.(w_now) < i.(iv_expiresAt) ∧ i.(iv_tokenHash) = hmacBytes secret token ∧
    i.(iv_accountId) = a ∧ role_parses i.(iv_role) = Some role ∧
    normalizeInviteEmail user.(u_email) = normalizeInviteEmail i.(iv_email).

Lemma accept_arrives_opens w id token u db a role :
  accept_arrives w id token u db = inr (a, role) → ∃ i, db.(invites) !! id = Some i ∧ opens w token u db a role i.
Proof.
  unfold accept_arrives. destruct (users db !! u) as [user|] eqn:Eu; [|done]. destruct (db.(invites) !! id) as [i|]; [|done].
  cbn [mbind option_bind]. unfold still_pending. destruct (bool_decide _) eqn:Est; [|done]. destruct (_ <? _) eqn:Ex; [|done]. cbn [andb].
  unfold hmacMatches. destruct (bool_decide (String.length _ = _)); [|done]. destruct (bool_decide (_ = hmacBytes _ _)) eqn:Eh; [|done]. cbn [negb].
  destruct (role_parses _) as [r|] eqn:Er; [|done]. destruct (bool_decide (normalizeInviteEmail _ = _)) eqn:Em; [|done].
  destruct (u_emailVerified user) eqn:Ev; [|done]. cbn [negb]. intros [= <- <-]. apply bool_decide_eq_true in Est, Eh, Em. apply Z.ltb_lt in Ex.
  exists i. split; [done|]. by exists user.
Qed.

(** C26: nobody gets onto an account uninvited.  However sign-ins, payments,
    invitations, acceptances, removals, deletions and the sweeps interleave, at the
    awaits of each request, a membership that was not there at the start is either
    the account holder's own, as owner, or comes from an acceptance: the user held
    the secret of an invitation to that account and role that was still open and
    unexpired, and a verified address equal to the one invited.  That invitation,
    to that address and with that role, goes back to a request of a user who was an
    owner of the account they were billed on when they asked, and its account is
    the one that user was billed on when the request looked it up: another one, if
    they moved in between (Example member_invites_an_owner of BillingSystem.v). *)
Theorem members_invited sys acts a u role :
  sys.(s_flights) = [] → sys.(s_db).(invites) = ∅ → is_member (run acts sys).(s_db) a u role →
  is_member sys.(s_db) a u role ∨
  (holder (run acts sys).(s_db) a u ∧ role = OWNER) ∨
  ∃ before w id token after i,
    acts = before ++ (w, AcceptArrives id token u) :: after ∧
    (run before sys).(s_db).(invites) !! id = Some i ∧ opens w token u (run before sys).(s_db) a role i ∧
    invites_ sys before a i.(iv_email) i.(iv_role).
Proof.
  intros Hno Hempty Hm. destruct (run_grows sys acts Hno) as [Hg _].
  destruct (Hg a u role Hm) as [Hi|[Hh|(b & w & act & f & -> & (id & token & -> & Hacc))]]; [by left|by right; left|].
  apply accept_arrives_opens in Hacc as (i & Hi & Ho). right. right. exists b, w, id, token, f, i. split_and!; [done..|].
  destruct (run_invited sys b Hno a i.(iv_email) i.(iv_role)) as [(id' & i' & Hin & _)|Hin]; [|by rewrite Hempty in Hin|done].
  exists id, i. by destruct Ho as (? & _ & _ & _ & _ & _ & <- & _).
Qed.
End runs.

(** Bob joins Ann's team. *)
Lemma members_invited_witness :
  let acts := BillingDemo.buys 5 "A" 3 ++
    BillingDemo.invitation 7 "ann" "bob@x.io" MEMBER ++ [(BillingDemo.at_ 8, AcceptArrives "row-0" "token" "bob"); (BillingDemo.at_ 9, Lands 0 BillingDemo.yes)] in
  is_member (run acts BillingDemo.idle).(s_db) "A" "bob" MEMBER ∧ ¬ is_member BillingDemo.start "A" "bob" MEMBER ∧
  (is_member BillingDemo.start "A" "bob" MEMBER ∨
   (holder (run acts BillingDemo.idle).(s_db) "A" "bob" ∧ MEMBER = OWNER) ∨
   ∃ before w id token after i,
     acts = before ++ (w, AcceptArrives id token "bob") :: after ∧
     (run before BillingDemo.idle).(s_db).(invites) !! id = Some i ∧ opens w token "bob" (run before BillingDemo.idle).(s_db) "A" MEMBER i ∧
     invites_ BillingDemo.idle before "A" i.(iv_email) i.(iv_role)).
Proof.
  cbv zeta. set (acts := _ ++ _).
  assert (is_member (run acts BillingDemo.idle).(s_db) "A" "bob" MEMBER) as Hm.
  { eexists. split; [vm_compute; reflexivity|]. split; reflexivity. }
  split; [exact Hm|]. split; [intros (v & Hv & _); vm_compute in Hv; discriminate|].
  exact (members_invited BillingDemo.idle acts "A" "bob" MEMBER eq_refl eq_refl Hm).
Defined.
