(* ===== verification/BillingSeats.v ===== *)
(** * BillingSeats: taking a seat, promising one, giving one up

    What joining an account, inviting to it and leaving it do to its seats, its
    owners and everybody's memberships. *)

From S2P Require Import Prelude JsMap Wire BillingDb Billing BillingReducer BillingTeam BillingSystem BillingContracts BillingMembers.
From coqutil Require Import Datatypes.RecordSetters.
Import DoubleBraceUpdate.

#[local] Set Warnings "-notation-overridden".
Local Open Scope Z_scope.
Local Open Scope js_scope.

Implicit Types (db : DB) (a u role : string).

Lemma is_held_spec a u db : is_held a u db = true ↔ ∃ v, db.(members) !! (a, u) = Some v ∧ v.(mb_status) = ACTIVE.
Proof. unfold is_held. destruct (members db !! (a, u)) as [v|]; [rewrite bool_decide_eq_true|]; naive_solver. Qed.

(** The seats taken are the users that are on the account. *)
Lemma holders_same a db db' : (∀ u, is_held a u db' = is_held a u db) → countActiveSeatHolders a db' = countActiveSeatHolders a db.
Proof.
  intros Hs. apply count_same. intros [a' u].
  assert (∀ d, (∃ v, d.(members) !! (a', u) = Some v ∧ active_member (of_account a) (a', u) v = true) ↔ a' = a ∧ is_held a' u d = true) as Hd.
  { intros d. rewrite is_held_spec. unfold active_member, of_account. cbn [fst]. split.
    - intros (v & Hv & Hc). conditions. eauto.
    - intros [-> (v & Hv & Hc)]. exists v. split; [done|]. by rewrite !bool_decide_true. }
  rewrite !Hd. split; intros [-> Hh]; (split; [done|]); by rewrite ?Hs in *.
Qed.

Lemma holders_joined a u v db : is_held a u db = false → v.(mb_status) = ACTIVE →
  countActiveSeatHolders a (set_members (<[(a, u) := v]> db.(members)) db) = countActiveSeatHolders a db + 1.
Proof.
  intros Hh Hv. apply count_insert; unfold active_member, of_account; cbn [fst].
  - by rewrite !bool_decide_true.
  - intros v0 Hv0. unfold is_held in Hh. rewrite Hv0 in Hh. by rewrite Hh, andb_false_r.
Qed.

Section closing.
Context `{Postgres} (w : World).

(** Closing a user's membership leaves everybody else's alone. *)
Definition closed (u st : string) db : DB :=
  set_members (update_where (active_member (of_user u)) (λ v, v {{ mb_status := st }} {{ mb_endedAt := Some w.(w_now) }}) db.(members)) db.

Lemma closed_other a u u' st db : u' ≠ u → (closed u st db).(members) !! (a, u') = db.(members) !! (a, u').
Proof.
  intros Hne. unfold closed. rewrite members_set, lookup_update_where. unfold active_member, of_user. cbn [snd]. rewrite bool_decide_false by done.
  by destruct (members db !! (a, u')).
Qed.
Lemma closed_own a u st db : st ≠ ACTIVE → is_held a u (closed u st db) = false.
Proof.
  intros Hst. unfold is_held, closed. rewrite members_set, lookup_update_where. unfold active_member, of_user. cbn [snd]. rewrite bool_decide_true by done.
  destruct (members db !! (a, u)) as [v|]; [|done]. cbn [fmap option_fmap option_map andb]. destruct (bool_decide (v.(mb_status) = ACTIVE)) eqn:E; [|done].
  by apply bool_decide_false.
Qed.
Lemma closed_held a u u' st db : st ≠ ACTIVE → is_held a u' (closed u st db) = negb (bool_decide (u' = u)) && is_held a u' db.
Proof.
  intros Hst. destruct (decide (u' = u)) as [->|Hne]; [by rewrite closed_own, bool_decide_true|].
  rewrite bool_decide_false by done. unfold is_held. by rewrite closed_other.
Qed.
End closing.

(** ** Joining *)

Section joining.
Context `{Postgres, Crypto} (w : World).

(** The user was on the account already: it is theirs, or they are a member. *)
Definition already_on a u db : Prop := fst <$> account_of u db = Some a ∨ is_held a u db = true.

(** The user took a free seat of the account and left every other account.  The
    account they own was not paying, and its rows that are still active are those
    that stood before with their end set. *)
Record seated a u role db db' : Prop := {
  seated_free : ∃ id s, activeSubscriptionForAccount w.(w_now) a db = Some (id, s) ∧ countActiveSeatHolders a db < s.(sb_seats);
  seated_count : countActiveSeatHolders a db' = countActiveSeatHolders a db + 1;
  seated_member : is_held a u db = false ∧ is_member db' a u role ∧ ∀ a', is_held a' u db' = true → a' = a;
  seated_others : ∀ a' u', u' ≠ u → db'.(members) !! (a', u') = db.(members) !! (a', u');
  seated_theirs : ∀ id s, s.(sb_accountId) = a → db'.(subs) !! id = Some s ↔ db.(subs) !! id = Some s;
  seated_unpaid : ∀ p id s, fst <$> account_of u db = Some p → activeSubscriptionForAccount w.(w_now) p db = Some (id, s) →
    s.(sb_promotional) = true ∨ ∃ pl, plan_of db s = Some pl ∧ (pl.(pl_slug) = PLAN_SLUG_FREE ∨ pl.(pl_recurring) = false);
  seated_own : ∀ p, fst <$> account_of u db = Some p → p ≠ a ∧ ∀ id s, db'.(subs) !! id = Some s →
    cancellable p id s = false ∧
    (entitles w.(w_now) p s → db.(subs) !! id = Some s ∧ isPendingCancellation w.(w_now) s = true) }.

Lemma check_seat_free a db :
  tx_ok (check_seat w a) (λ _ db', db' = db ∧ ∃ id s, activeSubscriptionForAccount w.(w_now) a db = Some (id, s) ∧ countActiveSeatHolders a db < s.(sb_seats)) db.
Proof. unfold check_seat. tx. split; [done|]. eexists _, _. split; [done|]. by apply Z.leb_gt. Qed.

(** Ending the user's own contracts. *)
Definition own_ended (p : option string) db db' : Prop :=
  db'.(members) = db.(members) ∧
  (∀ id s, p ≠ Some s.(sb_accountId) → db'.(subs) !! id = Some s ↔ db.(subs) !! id = Some s) ∧
  ∀ q, p = Some q → ∀ id s, db'.(subs) !! id = Some s → cancellable q id s = false ∧
    (entitles w.(w_now) q s → db.(subs) !! id = Some s ∧ isPendingCancellation w.(w_now) s = true).

Lemma cancel_own p db :
  tx_ok (match p with Some p => cancelActiveSubscriptions w p | None => mret () end) (λ _ db', own_ended p db db') db.
Proof.
  destruct p as [p|]; [|by apply ok_ret]. unfold cancelActiveSubscriptions, update_subs. tx_step.
  set (f := λ s : Subscription, _). assert (∀ id s, cancellable p id (f s) = false) as Hf.
  { intros id s. apply andb_false_iff. right. by apply bool_decide_false. }
  split; [done|]. rewrite subs_set. split.
  - intros id s Hp. rewrite lookup_update_where. destruct (subs db !! id) as [s0|] eqn:E; [|done]. cbn [fmap option_fmap option_map].
    destruct (cancellable p id s0) eqn:Hc; [|done]. unfold cancellable, is_of_account in Hc. conditions.
    split; intros [= <-]; destruct Hp; simplify_eq; done.
  - intros q [= <-] id s Hs. split; [|by eapply cancelled_rows].
    revert Hs. rewrite lookup_update_where. intros (s0 & _ & ->)%fmap_Some. by destruct (cancellable p id s0) eqn:Hc.
Qed.

Lemma no_contract p db :
  tx_ok (match p with
         | Some p => paid ← holdsPurchasedSubscription w p; if (paid : bool) then throw (AddMember "HAS_PAID_SUBSCRIPTION" None) else mret ()
         | None => mret ()
         end) (λ _ db', db' = db ∧ ∀ q id s, p = Some q → activeSubscriptionForAccount w.(w_now) q db = Some (id, s) →
           s.(sb_promotional) = true ∨ ∃ pl, plan_of db s = Some pl ∧ (pl.(pl_slug) = PLAN_SLUG_FREE ∨ pl.(pl_recurring) = false)) db.
Proof.
  destruct p as [p|]; [|by apply ok_ret]. unfold holdsPurchasedSubscription. tx; (split; [done|]); intros q id s' [= <-] Hr; simplify_eq.
  - by left.
  - right. match goal with Hp : plan_of _ _ = Some ?pl |- _ => exists pl; split; [done|] end.
    match goal with Hb : _ && _ = false |- _ => apply andb_false_iff in Hb as [Hb|Hb]; [left|by right] end.
    match goal with Hb : negb _ = false |- _ => by apply negb_false_iff, bool_decide_eq_true in Hb end.
Qed.

Lemma addMember_joins a u role db : tx_ok (addAccountMember w a u role no_waiver) (λ n db', n = countActiveSeatHolders a db' ∧ seated a u role db db') db.
Proof.
  unfold addAccountMember. do 2 tx_step. set (personal := fst <$> account_of u db). tx_step; [by tx|]. conditions. do 2 tx_step.
  tx_step; [by tx|]. change (waive_seatCap no_waiver) with false. change (waive_paidSubscription no_waiver) with false. cbn match.
  tx_step. over check_seat_free. intros _ ? [-> Hseat].
  tx_step. over no_contract. intros _ ? [-> Hunpaid].
  tx_step. unfold closeActiveMembership. tx_step. change (tx_ok ?m ?Q (set_members _ db)) with (tx_ok m Q (closed w u "left" db)).
  set (db1 := closed w u "left" db). tx_step. over (cancel_own personal db1). intros _ db2 (Em & Esubs & Eown).
  tx_step. unfold upsert_member. tx_step. set (v := match _ !! _ with Some _ => _ | None => _ end). set (db3 := set_members _ db2).
  assert (v.(mb_status) = ACTIVE ∧ v.(mb_role) = role) as [Hv Hr] by by (unfold v; destruct (_ !! _)).
  tx_step. unfold set_user_account. tx_step. set (db4 := set_users _ db3). tx_step.
  assert (∀ a' u', is_held a' u' db2 = negb (bool_decide (u' = u)) && is_held a' u' db) as Hheld.
  { intros a' u'. unfold is_held at 1. rewrite Em. by apply closed_held. }
  change (countActiveSeatHolders a db4) with (countActiveSeatHolders a db3).
  assert (is_held a u db2 = false) as Hnew by by rewrite Hheld, bool_decide_true.
  split; [done|]. split.
  - done.
  - change (countActiveSeatHolders a db4) with (countActiveSeatHolders a db3). unfold db3. rewrite holders_joined by done. f_equal.
    apply holders_same. intros u'. rewrite Hheld. destruct (decide (u' = u)) as [->|Hne]; [by rewrite bool_decide_true|by rewrite bool_decide_false].
  - split; [done|]. split; [exists v; split; [apply lookup_insert_eq|done]|]. intros a' Ha'. apply dec_stable. intros Hne.
    unfold is_held, db4, db3 in Ha'. change (members (set_users _ ?d)) with (members d) in Ha'. rewrite members_set, lookup_insert_ne in Ha' by (intros [= ->]; done).
    pose proof (Hheld a' u) as Hn. rewrite bool_decide_true in Hn by done. unfold is_held in Hn. rewrite Ha' in Hn. done.
  - intros a' u' Hne. change (members db4) with (members db3). unfold db3. rewrite members_set, lookup_insert_ne by (intros [= _ ->]; done).
    rewrite Em. by apply closed_other.
  - intros id s Hs. change (subs db4) with (subs db2). apply Esubs. by rewrite Hs.
  - intros p id s Hp. by apply Hunpaid.
  - intros p Hp. split; [intros ->; done|]. by apply Eown.
Qed.
End joining.

(** What a transaction is not refused with. *)
Definition spares (e : Fail) {A} (m : Tx A) : Prop := ∀ db, m db ≠ inl e.

Lemma spares_bind {A B} e (m : Tx A) (f : A → Tx B) : spares e m → (∀ x : A, spares e (f x)) → spares e (m ≫= f).
Proof. intros Hm Hf db. unfold mbind, tx_bind. specialize (Hm db). destruct (m db) as [|[x d]]; [congruence|apply Hf]. Qed.
Lemma spares_require {A} e e' (o : option A) : e' ≠ e → spares e (require e' o).
Proof. intros Hne db. destruct o; [done|]. by intros [=]. Qed.
Lemma spares_throw {A} e e' : e' ≠ e → spares e (throw (A:=A) e').
Proof. intros Hne db. by intros [=]. Qed.
Lemma spares_modify e f : e ≠ P2002 → spares e (modify f).
Proof. intros Hne db. unfold modify. destruct (decide _); [done|]. by intros [= <-]. Qed.

Lemma spares_at {A} e (m : Tx A) db : spares e m → m db = inl e → False.
Proof. intros Hm. apply Hm. Qed.

Ltac spare :=
  repeat match goal with
  | |- spares _ (_ ≫= _) => apply spares_bind; [|intros ?]
  | |- spares _ (mret _) => by intros ?
  | |- spares _ (asks _) => by intros ?
  | |- spares _ (throw _) => apply spares_throw; done
  | |- spares _ (require _ _) => apply spares_require; done
  | |- spares _ (modify _) => apply spares_modify; done
  | |- spares _ (match ?x with _ => _ end) => destruct x
  end.

(** The refusal that is no failure. *)
Lemma addMember_refused `{Postgres, Crypto} (w : World) a u role limit db d :
  atomically (addAccountMember w a u role no_waiver) db = (inl (AddMember "ALREADY_ON_THIS_ACCOUNT" limit), d) → already_on a u db.
Proof.
  intros Ha. assert (addAccountMember w a u role no_waiver db = inl (AddMember "ALREADY_ON_THIS_ACCOUNT" limit)) as Hm.
  { unfold atomically in Ha. destruct (addAccountMember _ _ _ _ _ _) as [|[]]; by simplify_eq. }
  revert Hm. unfold addAccountMember. unfold mbind at 1, tx_bind at 1, asks at 1. case_bool_decide as Hp; [by intros _; left|].
  unfold mbind at 1, tx_bind at 1, asks at 1. destruct (is_held a u db) eqn:Hh; [by intros _; right|]. intros Hm. exfalso.
  revert Hm. apply spares_at.
  unfold check_seat, holdsPurchasedSubscription, closeActiveMembership, cancelActiveSubscriptions, update_subs, upsert_member, set_user_account,
    update_row. spare.
Qed.

(** C30: joining takes a free seat.  When the transaction of an acceptance succeeds,
    either the user was on that account already, as its holder or a member, and
    nothing changed; or the account had an active subscription with more seats than
    members, it now has one member more, and no more than its seats, the user with
    the invited role; the user is on no other account, nobody else's membership and
    no subscription of the account joined has changed; and the account the user
    owns was not paying for its entitlement, and has no active subscription left but
    such as already had their end set, which stand as they were. *)
Theorem joining_takes_a_free_seat `{Postgres, Crypto} (w : World) a u role db db' :
  accept_joins w a u role db = (inr (), db') →
  (already_on a u db ∧ db' = db) ∨
  (¬ already_on a u db ∧ seated w a u role db db' ∧
   ∃ id s, db'.(subs) !! id = Some s ∧ activeSubscriptionForAccount w.(w_now) a db = Some (id, s) ∧ countActiveSeatHolders a db' <= s.(sb_seats)).
Proof.
  unfold accept_joins. destruct (atomically _ _) as [[e|n] d] eqn:Ha.
  - pose proof (atomically_failed _ _ _ _ Ha) as ->. destruct e; try done. case_bool_decide as Hc; [|done]. intros [= ->]. left. split; [|done].
    revert Ha. subst code. apply addMember_refused.
  - intros [= ->]. right. apply (atomically_ok _ _ _ _ _ (addMember_joins w a u role db)) in Ha as [_ [(id & s & Hs & Hlt) Hc Hm ? Ht ? Hown]].
    split; [|split; [split; eauto|]].
    + intros [Hp|Hh]; [by destruct (Hown a Hp)|]. destruct Hm as [Hm _]. congruence.
    + exists id, s. split_and!; [|done|lia].
      apply active_for_entitles in Hs as Hs'. destruct Hs' as [Hs' [Hacc _]]. by apply Ht.
Qed.

(** ** Inviting *)

Section inviting.
Context `{Postgres, Crypto} (w : World).

(** An invitation nobody else has for that address, on a seat that is free. *)
Record promised a email role (r : AccountInviteRow) db db' : Prop := {
  promised_row : db.(invites) !! r.1 = None ∧ db'.(invites) !! r.1 = Some r.2 ∧ live_invite w a r.1 r.2 = true ∧
                 r.2.(iv_email) = email ∧ r.2.(iv_role) = role;
  promised_count : countPendingInvites w a db' = countPendingInvites w a db + 1;
  promised_once : ∀ id i, db'.(invites) !! id = Some i → outstanding a id i = true → lower i.(iv_email) = lower email → id = r.1;
  promised_seat : ∃ id s, activeSubscriptionForAccount w.(w_now) a db = Some (id, s) ∧
                  countActiveSeatHolders a db' + countPendingInvites w a db' <= s.(sb_seats);
  promised_rest : db'.(members) = db.(members) ∧ db'.(subs) = db.(subs) ∧
                  ∀ id i, id ≠ r.1 → live_invite w a id i = true → db'.(invites) !! id = Some i ↔ db.(invites) !! id = Some i }.

Definition expired_by a db : DB :=
  set_invites (update_where (λ id i, outstanding a id i && (i.(iv_expiresAt) <=? w.(w_now))) (resolve_invite w "expired") db.(invites)) db.

Lemma expire_live a db id i : live_invite w a id i = true → (expired_by a db).(invites) !! id = Some i ↔ db.(invites) !! id = Some i.
Proof.
  unfold live_invite. intros [Ho Hx]%andb_true_iff. apply Z.ltb_lt in Hx. unfold expired_by. rewrite invites_set, lookup_update_where.
  destruct (invites db !! id) as [i0|]; [|done]. cbn [fmap option_fmap option_map]. destruct (_ && _) eqn:E; [|done].
  apply andb_true_iff in E as [E1 E2]. apply Z.leb_le in E2. split; intros [= Hi]; subst i; [by unfold outstanding in Ho; conditions|lia].
Qed.
Lemma expire_count a db : countPendingInvites w a (expired_by a db) = countPendingInvites w a db.
Proof.
  apply count_same. intros id. split; intros (i & Hi & Hl); exists i; (split; [|done]); revert Hi; by apply expire_live.
Qed.

Lemma createInvite_spec a email role by_ db :
  tx_ok (createInvite w a email role by_) (λ r db',
    db.(invites) !! r.1 = None ∧ db' = set_invites (<[r.1 := r.2]> db.(invites)) db ∧ constraints db' ∧
    live_invite w a r.1 r.2 = true ∧ r.2.(iv_email) = email ∧ r.2.(iv_role) = role) db.
Proof.
  unfold createInvite. tx. split_and!; try done. unfold live_invite, outstanding. cbn. rewrite !bool_decide_true by done. apply Z.ltb_lt.
  unfold INVITE_TTL_SECONDS. lia.
Qed.

Lemma createAccountInvite_promises a raw role by_ db :
  tx_ok (createAccountInvite w a raw role by_) (λ r db', promised a (normalizeInviteEmail raw) role r db db') db.
Proof.
  unfold createAccountInvite. tx_step; [tx_step|]. do 2 tx_step. tx_step; [tx_step|]. tx_step. unfold expireStalePendingInvites, update_invites. tx_step.
  change (tx_ok ?m ?Q (set_invites _ db)) with (tx_ok m Q (expired_by a db)). set (db1 := expired_by a db). do 2 tx_step.
  tx_step; [|tx_step]. tx_step. do 2 tx_step. tx_step; [tx_step|]. do 2 tx_step. tx_step; [tx_step|]. tx_step.
  over createInvite_spec. intros r db' (Hn & -> & Hc & Hl & He & Hr). set (db2 := set_invites _ db1) in *.
  assert (countPendingInvites w a db2 = countPendingInvites w a db + 1) as Hcount.
  { unfold db2, countPendingInvites. rewrite invites_set, count_insert; [|done|intros v0 Hv0; congruence]. f_equal. apply expire_count. }
  split.
  - assert (db.(invites) !! r.1 = None) as Hn0.
    { unfold db1, expired_by in Hn. rewrite invites_set, lookup_update_where in Hn. by apply fmap_None in Hn. }
    split_and!; try done. unfold db2. rewrite invites_set. apply lookup_insert_eq.
  - done.
  - intros id i Hi Ho Hlow. destruct Hc as (_ & _ & _ & _ & Hu & _). unfold outstanding in Ho. conditions.
    unfold live_invite, outstanding in Hl. conditions.
    eapply (unique_by_spec pending_of db2.(invites) id r.1 i r.2 (a, lower (normalizeInviteEmail raw))); try done.
    + unfold db2. rewrite invites_set. apply lookup_insert_eq.
    + unfold pending_of. rewrite decide_True by done. do 2 f_equal; congruence.
    + unfold pending_of. rewrite decide_True by done. do 2 f_equal; congruence.
  - eexists _, _. split; [eassumption|]. rewrite Hcount. pose proof (expire_count a db) as Hex. fold db1 in Hex.
    repeat match goal with H : (_ <=? _) = false |- _ => apply Z.leb_gt in H end.
    change (countActiveSeatHolders a db2) with (countActiveSeatHolders a db1). lia.
  - split; [done|]. split; [done|]. intros id i Hne Hli. unfold db2. rewrite invites_set, lookup_insert_ne by done. by apply expire_live.
Qed.
End inviting.

(** C31: inviting promises a seat that is free.  An invitation that is created is
    for an address no other open invitation of the account has, the members of the
    account and its open invitations together stay within the seats of its active
    subscription, the invitations that were open and the memberships stand. *)
Theorem inviting_promises_a_free_seat `{Postgres, Crypto} (w : World) a raw role by_ r db db' :
  atomically (createAccountInvite w a raw role by_) db = (inr r, db') → promised w a (normalizeInviteEmail raw) role r db db'.
Proof. apply (atomically_ok _ _ _ _ _ (createAccountInvite_promises w a raw role by_ db)). Qed.

(** ** Leaving *)

Section leaving.
Context `{Postgres, Crypto} (w : World).

(** The user gave the seat up and is back on the account they own. *)
Record gone a u db db' : Prop := {
  gone_held : is_held a u db = true ∧ is_held a u db' = false ∧ countActiveSeatHolders a db' = countActiveSeatHolders a db - 1;
  gone_owner : (∃ acc, db.(accounts) !! a = Some acc ∧ acc.(ac_userId) ≠ u) ∧ ∃ o, o ≠ u ∧ is_member db' a o OWNER;
  gone_others : ∀ a' u', u' ≠ u → db'.(members) !! (a', u') = db.(members) !! (a', u');
  gone_home : ∃ p acc, p ≠ a ∧ db'.(accounts) !! p = Some acc ∧ acc.(ac_userId) = u ∧
              u_accountId <$> db'.(users) !! u = Some (Some p) ∧ (acc.(ac_deletedAt) = None → is_member db' p u OWNER) }.

(** The user's own account exists, and if it is open and they are on none, they
    are its owner; nothing else is touched. *)
Lemma ensureAccount_spec u db :
  tx_ok (ensureProductAccount w u) (λ r db',
    db'.(accounts) !! r.1 = Some r.2 ∧ r.2.(ac_userId) = u ∧
    (∀ a acc, db.(accounts) !! a = Some acc → db'.(accounts) !! a = Some acc) ∧
    (∀ k, k ≠ (r.1, u) → db'.(members) !! k = db.(members) !! k) ∧
    (r.2.(ac_deletedAt) = None → (∀ a, is_held a u db = false) → is_member db' r.1 u OWNER)) db.
Proof.
  unfold ensureProductAccount. do 3 tx_step.
  apply ok_mono with (Q := λ r db', db'.(accounts) !! r.1 = Some r.2 ∧ r.2.(ac_userId) = u ∧ db'.(members) = db.(members) ∧
    ∀ a acc, db.(accounts) !! a = Some acc → db'.(accounts) !! a = Some acc).
  { destruct (account_of u db) as [[id acc]|] eqn:E.
    - tx. apply find_one_Some in E as [Hacc Hu]. by conditions.
    - do 3 tx_step. apply ok_create. intros Hn _. tx. split; [apply lookup_insert_eq|]. split; [done|]. split; [done|].
      intros a acc Ha. change (<[w_uuid w (base.size (accounts db)) := {| ac_userId := u; ac_deletedAt := None |}]> db.(accounts) !! a = Some acc).
      rewrite lookup_insert_ne by (intros <-; congruence). done. }
  intros [id acc] db1 (Hacc & Hu & Em & Hkeep). cbn [fst snd] in *. tx_step. unfold syncUserAccountId. tx_step. set (db2 := set_users _ db1).
  destruct (ac_deletedAt acc) eqn:Ed; [tx; split_and!; try done; [by intros k _; rewrite <-Em|cbn [snd]; congruence]|]. unfold ensureOwnerMembership, upsert_member. do 3 tx_step. destruct (find_one _ _) as [[k v]|] eqn:Ef.
  - tx. split_and!; try done; [by intros k' _; rewrite <-Em|]. intros _ Hnone. apply find_one_Some in Ef as [Hv Hact].
    unfold active_member, of_user in Hact. conditions. destruct k as [a' u']. cbn [snd] in *. subst u'. change (members db2) with (members db1) in Hv.
    specialize (Hnone a'). unfold is_held in Hnone. rewrite <-Em, Hv in Hnone. by conditions.
  - tx_step. change (members db2) with (members db1). set (v := match _ !! _ with Some _ => _ | None => _ end). set (db3 := set_members _ db2). tx_step.
    split_and!; try done.
    + intros k Hk. unfold db3. rewrite members_set, lookup_insert_ne by done. by rewrite <-Em.
    + intros _ _. exists v. split; [apply lookup_insert_eq|]. unfold v. by destruct (db1.(members) !! (id, u)).
Qed.

Lemma other_owner a u db : countOtherActiveOwners a u db ≠ 0 → ∃ o, o ≠ u ∧ is_member db a o OWNER.
Proof.
  unfold countOtherActiveOwners, count. set (P := λ kv : string * string * AccountMember, _). intros Hn.
  destruct (map_choose (filter P db.(members))) as ([a' o] & v & [Hv Hp]%map_lookup_filter_Some); [intros E; rewrite E in Hn; done|].
  unfold P, active_member, of_account, of_user in Hp. cbn [fst snd] in Hp. conditions. subst a'. exists o. split; [done|]. by exists v.
Qed.

Lemma holders_left a u db db' : is_held a u db = true → is_held a u db' = false →
  (∀ u', u' ≠ u → db'.(members) !! (a, u') = db.(members) !! (a, u')) → countActiveSeatHolders a db' = countActiveSeatHolders a db - 1.
Proof.
  intros Hh Hn Ho. apply is_held_spec in Hh as (v & Hv & Ha).
  set (db2 := set_members (<[(a, u) := v]> db'.(members)) db').
  assert (countActiveSeatHolders a db2 = countActiveSeatHolders a db' + 1) as Hc by (by apply holders_joined).
  rewrite (holders_same a db db2) in Hc; [lia|]. intros u'. unfold is_held, db2. rewrite members_set. destruct (decide (u' = u)) as [->|Hne].
  - by rewrite lookup_insert_eq, Hv.
  - rewrite lookup_insert_ne by (intros [= ->]; done). by rewrite Ho.
Qed.

Lemma removeMember_leaves a u st db : st ≠ ACTIVE → tx_ok (removeAccountMember w a u st) (λ _ db', gone a u db db') db.
Proof.
  intros Hst. unfold removeAccountMember. do 2 tx_step. tx_step; [tx_step|]. conditions. do 3 tx_step. tx_step. tx_step; [tx_step|]. conditions.
  do 2 tx_step. tx_step; [tx_step|]. conditions. tx_step. unfold closeActiveMembership. tx_step.
  change (tx_ok ?m ?Q (set_members _ db)) with (tx_ok m Q (closed w u st db)). set (db1 := closed w u st db).
  assert (∀ a' u', is_held a' u' db1 = negb (bool_decide (u' = u)) && is_held a' u' db) as Hheld by by intros; apply closed_held.
  tx_step. over ensureAccount_spec. intros [p acc] db2 (Hp & Hu & Hkeep & Hm & Hown). cbn [fst snd] in *.
  tx_step. unfold set_user_account. tx_step. set (db3 := set_users _ db2). tx_step.
  assert (p ≠ a) as Hpa by (intros ->; rewrite (Hkeep a _ ltac:(eassumption)) in Hp; congruence).
  assert (∀ a' u', (a', u') ≠ (p, u) → is_held a' u' db3 = is_held a' u' db1) as Hsame.
  { intros a' u' Hne. unfold is_held. change (members db3) with (members db2). by rewrite Hm. }
  assert (∀ a' u', u' ≠ u → db3.(members) !! (a', u') = db.(members) !! (a', u')) as Hothers.
  { intros a' u' Hne. change (members db3) with (members db2). rewrite Hm by (intros [= -> ->]; done). by apply closed_other. }
  assert (is_held a u db3 = false) as Hgone by (rewrite Hsame, Hheld by congruence; by rewrite bool_decide_true).
  assert (is_held a u db = true) as Hwas by (by apply negb_false_iff).
  split; [split_and!; [done..|apply (holders_left a u); [done|done|intros; by apply Hothers]]|split; [eauto|]|done|].
  - destruct (other_owner a u db) as (o & Hne & v' & Hv' & Hrest); [done|]. exists o. split; [done|]. exists v'. by rewrite Hothers.
  - exists p, acc. split_and!; try done.
    + change (users db3) with (<[u := v {{ u_accountId := Some p }}]> (users db2)). by rewrite lookup_insert_eq.
    + intros Hd. apply Hown; [done|]. intros a'. rewrite Hheld. by rewrite bool_decide_true.
Qed.
End leaving.

(** Leaving keeps an owner.  A removal that succeeds is of a member who does
    not hold the account; the account keeps another active owner, has one member
    less, everybody else's memberships stand, and the user is back on the account
    they own, as its owner unless it was deleted. *)
Theorem leaving_keeps_an_owner `{Postgres, Crypto} (w : World) a u st db db' :
  atomically (removeAccountMember w a u st) db = (inr (), db') → st ≠ ACTIVE → gone a u db db'.
Proof. intros Hr Hst. apply (atomically_ok _ _ _ _ _ (removeMember_leaves w a u st db Hst) Hr). Qed.

(** ** On the demonstration's database *)

(** Ann's team, with an invitation for Bob. *)
Definition demo_team : Sys := run (BillingDemo.buys 5 "A" 3 ++ BillingDemo.invitation 7 "ann" "bob@x.io" MEMBER) BillingDemo.idle.
Definition demo_joined : DB := (accept_joins (BillingDemo.at_ 9) "A" "bob" MEMBER demo_team.(s_db)).2.

Lemma joining_takes_a_free_seat_witness :
  (already_on "A" "bob" demo_team.(s_db) ∧ demo_joined = demo_team.(s_db)) ∨
  (¬ already_on "A" "bob" demo_team.(s_db) ∧ seated (BillingDemo.at_ 9) "A" "bob" MEMBER demo_team.(s_db) demo_joined ∧
   ∃ id s, demo_joined.(subs) !! id = Some s ∧ activeSubscriptionForAccount 9 "A" demo_team.(s_db) = Some (id, s) ∧
     countActiveSeatHolders "A" demo_joined <= s.(sb_seats)).
Proof.
  refine (joining_takes_a_free_seat (BillingDemo.at_ 9) "A" "bob" MEMBER demo_team.(s_db) demo_joined _).
  unfold demo_joined. rewrite (surjective_pairing (accept_joins _ _ _ _ _)). f_equal; vm_compute; reflexivity.
Defined.

Lemma inviting_promises_a_free_seat_witness :
  let out := atomically (createAccountInvite (BillingDemo.at_ 9) "A" " Carol@x.io" MEMBER "ann") demo_team.(s_db) in
  match out.1 with
  | inr r => promised (BillingDemo.at_ 9) "A" "carol@x.io" MEMBER r demo_team.(s_db) out.2
  | inl _ => False
  end.
Proof.
  cbv zeta. destruct (atomically _ _) as [[e|r] db'] eqn:E; [vm_compute in E; discriminate|].
  exact (inviting_promises_a_free_seat (BillingDemo.at_ 9) "A" " Carol@x.io" MEMBER "ann" r _ db' E).
Defined.

Lemma leaving_keeps_an_owner_witness :
  let out := atomically (removeAccountMember (BillingDemo.at_ 11) "A" "bob" "removed") demo_joined in
  out.1 = inr () ∧ gone "A" "bob" demo_joined out.2.
Proof.
  cbv zeta. assert ((atomically (removeAccountMember (BillingDemo.at_ 11) "A" "bob" "removed") demo_joined).1 = inr ()) as Hr by (vm_compute; reflexivity).
  split; [exact Hr|]. apply (leaving_keeps_an_owner (BillingDemo.at_ 11) "A" "bob" "removed"); [|discriminate].
  rewrite (surjective_pairing (atomically _ _)). f_equal; exact Hr.
Defined.
