(* ===== verification/Devices.v ===== *)
(** * Devices: an account's devices, and the triggers that watch them

    The tables behind [web/src/models/device.ts] and [peer-authorization.ts], the
    triggers of the migrations [peer_endpoints] and
    [scope_peer_policy_invalidation], and the operations of [device.ts],
    [device-oauth.ts], [services/device.ts] and the routes that change a device.
    A user's policy has a generation; the triggers raise it, and put a row for the
    relay into the outbox, whenever something changes that says who may connect.

    The billing tables are those of BillingDb.v.  A transaction on them is any
    change of them; a trigger fires once per written row, which is once for each
    user concerned and then as often as [more] says. *)

From S2P Require Import Prelude JsMap Buffers Wire BillingDb Billing.
From stdpp Require Import sorting gmap.
From coqutil Require Import Datatypes.RecordSetters.
Import DoubleBraceUpdate.

#[local] Set Warnings "-notation-overridden".
Local Open Scope Z_scope.
Local Open Scope js_scope.

(** ** Rows *)

Record Device := {
  dv_userId : string; dv_deviceId : string; dv_kind : string; dv_platform : string; dv_displayName : string; dv_publicKey : bytes;
  dv_oauthClientId : option string; dv_revokedAt : option Z; dv_mobileAccessEnabled : bool; dv_machineName : option string;
  dv_busPublicKey : option bytes; dv_orchestrator : bool }.

(** A client of the sign-in service; [metadata] is the JSON of the column. *)
Record Credential := { cr_userId : option string; cr_disabled : bool; cr_grantTypes : list string; cr_metadata : json }.

Record Registration := { rg_userId : string; rg_deviceId : string; rg_enrollmentId : string; rg_generation : Z; rg_revokedAt : option Z }.

Record Challenge := {
  ch_userId : string; ch_deviceId : string; ch_enrollmentId : string; ch_endpointId : string; ch_expectedGeneration : Z;
  ch_challenge : string; ch_expiresAt : Z; ch_consumedAt : option Z }.

Record Policy := { po_generation : Z; po_relayConfigHash : option string }.

(** Registrations are keyed by their endpoint. *)
Record Net := {
  billing : DB; devices : gmap string Device; credentials : gmap string Credential; registrations : gmap string Registration;
  challenges : gmap string Challenge; policies : gmap string Policy; outbox : list (string * Z) }.

Implicit Types (n : Net) (u : string) (d : Device).

Definition set_billing b n : Net := n {{ billing := b }}.
Definition set_devices m n : Net := n {{ devices := m }}.
Definition set_credentials m n : Net := n {{ credentials := m }}.
Definition set_registrations m n : Net := n {{ registrations := m }}.
Definition set_challenges m n : Net := n {{ challenges := m }}.
Definition put_policy u p n : Net := n {{ policies := <[u := p]> n.(policies) }}.

(** ** Triggers *)

Definition generation_of u n : Z := match n.(policies) !! u with Some p => p.(po_generation) | None => 0 end.

(** [invalidate_peer_policy]. *)
Definition invalidate_peer_policy u n : Net :=
  let g := generation_of u n + 1 in
  (put_policy u {| po_generation := g; po_relayConfigHash := p ← n.(policies) !! u; p.(po_relayConfigHash) |} n)
    {{ outbox := n.(outbox) ++ [(u, g)] }}.
Definition invalidate_all (us : list string) n : Net := foldl (λ n u, invalidate_peer_policy u n) n us.

Section triggers.
Context (now : Z).

(** Registrations that are revoked, each with its own trigger. *)
Definition standing (P : Registration → bool) (_ : string) (r : Registration) : bool := P r && bool_decide (r.(rg_revokedAt) = None).
Definition revoke_registrations (P : Registration → bool) n : Net :=
  invalidate_all ((λ kr, kr.2.(rg_userId)) <$> select_rows (standing P) n.(registrations))
    (set_registrations (update_where (standing P) (λ r, r {{ rg_revokedAt := Some now }}) n.(registrations)) n).
Definition of_client (c : option string) (r : Registration) : bool := bool_decide (c = Some r.(rg_enrollmentId)).

(** The columns [peer_device_update] watches. *)
Definition watched_columns d := (d.(dv_userId), d.(dv_deviceId), d.(dv_oauthClientId), d.(dv_publicKey), d.(dv_revokedAt), d.(dv_kind), d.(dv_mobileAccessEnabled)).
Definition same_identity (old new : Device) : bool :=
  bool_decide (old.(dv_oauthClientId) = new.(dv_oauthClientId)) && bool_decide (new.(dv_revokedAt) = None) &&
  bool_decide (old.(dv_publicKey) = new.(dv_publicKey)) && bool_decide (old.(dv_userId) = new.(dv_userId)) &&
  bool_decide (old.(dv_deviceId) = new.(dv_deviceId)) && bool_decide (old.(dv_kind) = new.(dv_kind)).

(** A device is inserted or updated: [peer_device_changed]. *)
Definition put_device (id : string) (new : Device) n : Net :=
  let put := set_devices (<[id := new]> n.(devices)) n in
  match n.(devices) !! id with
  | None => invalidate_peer_policy new.(dv_userId) put
  | Some old =>
      if bool_decide (watched_columns old = watched_columns new) then put
      else
        let put := if same_identity old new then put else revoke_registrations (of_client old.(dv_oauthClientId)) put in
        let put := if bool_decide (old.(dv_userId) = new.(dv_userId)) then put else invalidate_peer_policy old.(dv_userId) put in
        invalidate_peer_policy new.(dv_userId) put
  end.
Definition drop_device (id : string) n : Net :=
  match n.(devices) !! id with
  | None => n
  | Some old =>
      invalidate_peer_policy old.(dv_userId) (revoke_registrations (of_client old.(dv_oauthClientId)) (set_devices (base.delete id n.(devices)) n))
  end.

(** [peer_credential_changed]; a new client has no trigger. *)
Definition owners_of (client : string) n : list string :=
  remove_dups ((λ kd, kd.2.(dv_userId)) <$> select_rows (λ _ d, bool_decide (d.(dv_oauthClientId) = Some client)) n.(devices)).
Definition credential_changed (client : string) n : Net :=
  match owners_of client n with
  | [] => n
  | us => invalidate_all us (revoke_registrations (of_client (Some client)) n)
  end.
(** An edit of a client changes a column that is watched. *)
Definition put_credential (client : string) (new : Credential) n : Net :=
  let put := set_credentials (<[client := new]> n.(credentials)) n in
  match n.(credentials) !! client with Some _ => credential_changed client put | None => put end.
Definition drop_credential (client : string) n : Net :=
  match n.(credentials) !! client with
  | Some _ => credential_changed client (set_credentials (base.delete client n.(credentials)) n)
  | None => n
  end.

(** [peer_endpoint_changed] on an insertion. *)
Definition insert_registration (endpoint : string) (r : Registration) n : Net :=
  invalidate_peer_policy r.(rg_userId) (set_registrations (<[endpoint := r]> n.(registrations)) n).
End triggers.

(** *** The triggers on the billing tables *)

Section billing.
Implicit Types (b : DB).

(** The keys of the rows that differ, with the rows. *)
Definition differences {K V} `{Countable K, EqDecision V} (m m' : gmap K V) : list (K * (option V * option V)) :=
  (λ k, (k, (m !! k, m' !! k))) <$> filter (λ k, m !! k ≠ m' !! k) (elements (dom m ∪ dom m')).

(** [invalidate_peer_policy_for_account]: the holder and every member, left or not. *)
Definition member_users (a : string) b : list string := (λ kv, kv.1.2) <$> select_rows (λ k _, bool_decide (k.1 = a)) b.(members).
Definition account_users (a : string) b : list string :=
  match b.(accounts) !! a with Some acc => [acc.(ac_userId)] | None => [] end ++ member_users a b.

#[global] Instance json_eq_dec : EqDecision json.
Proof.
  refine (fix go j1 j2 := let _ : EqDecision json := @go in
    match j1, j2 with
    | JNull, JNull => left _
    | JFrac, JFrac => left _
    | JBool x, JBool y => cast_if (decide (x = y))
    | JInt x, JInt y => cast_if (decide (x = y))
    | JStr x, JStr y => cast_if (decide (x = y))
    | JArr x, JArr y => cast_if (decide (x = y))
    | JObj x, JObj y => cast_if (decide (x = y))
    | _, _ => right _
    end); abstract congruence.
Defined.
#[global] Instance Subscription_eq_dec : EqDecision Subscription.
Proof. solve_decision. Defined.
#[global] Instance AccountMember_eq_dec : EqDecision AccountMember.
Proof. solve_decision. Defined.

(** The users whose policy a transaction from [b] to [b'] invalidates.  An
    account's users are looked up while it runs: those it has before or after.  The
    row of an account that the transaction deletes is no longer found, by its own
    trigger or by those of the rows it takes with it, so its holder is not. *)
Definition users_at b b' (o : option string) : list string :=
  match o with
  | Some a =>
      match b'.(accounts) !! a with
      | Some _ => account_users a b ++ account_users a b'
      | None => member_users a b
      end
  | None => []
  end.
Definition subscription_users b b' (ch : string * (option Subscription * option Subscription)) : list string :=
  users_at b b' (sb_accountId <$> ch.2.1) ++ users_at b b' (sb_accountId <$> ch.2.2).
Definition account_changes b b' (ch : string * (option ProductAccount * option ProductAccount)) : list string :=
  match ch.2.1, ch.2.2 with
  | None, _ => []                                          (** no trigger on an insertion *)
  | Some old, Some _ => old.(ac_userId) :: users_at b b' (Some ch.1)
  | Some _, None => users_at b b' (Some ch.1)
  end.
Definition user_changes (ch : string * (option User * option User)) : list string :=
  match ch.2.1 with
  | None => []
  | Some old =>
      match ch.2.2 with Some new => if bool_decide (old.(u_accountId) = new.(u_accountId)) then [] else [ch.1] | None => [ch.1] end
  end.

#[global] Instance ProductAccount_eq_dec : EqDecision ProductAccount.
Proof. solve_decision. Defined.
#[global] Instance User_eq_dec : EqDecision User.
Proof. solve_decision. Defined.

Definition billing_users b b' : list string :=
  concat (subscription_users b b' <$> differences b.(subs) b'.(subs)) ++
  ((λ ch, ch.1.2) <$> differences b.(members) b'.(members)) ++
  concat (account_changes b b' <$> differences b.(accounts) b'.(accounts)) ++
  concat (user_changes <$> differences b.(users) b'.(users)).

Definition change_billing b' (more : list string) n : Net :=
  invalidate_all (remove_dups (billing_users n.(billing) b') ++ more) (set_billing b' n).
End billing.

(** ** Transactions *)

Definition net_constraints n : Prop :=
  unique_by (λ _ d, Some (d.(dv_userId), d.(dv_deviceId))) n.(devices) ∧
  unique_by (λ _ d, d.(dv_oauthClientId)) n.(devices) ∧
  unique_by (λ _ r, Some (r.(rg_enrollmentId), r.(rg_generation))) n.(registrations) ∧
  unique_by (λ _ r, if decide (r.(rg_revokedAt) = None) then Some r.(rg_enrollmentId) else None) n.(registrations).
#[global] Instance net_constraints_dec n : Decision (net_constraints n).
Proof. unfold net_constraints. apply _. Defined.

(** [Refused] are the codes of [PeerAuthorizationError], [Violated] a unique
    constraint, [Threw] everything else a request dies of. *)
Inductive NetFail := Refused (code : string) | Violated | Threw.

Definition Work (A : Type) : Type := Net → NetFail + (A * Net).
#[global] Instance work_ret : MRet Work := λ A a n, inr (a, n).
#[global] Instance work_bind : MBind Work := λ A B f m n, match m n with inl e => inl e | inr (a, n) => f a n end.
Definition reads {A} (f : Net → A) : Work A := λ n, inr (f n, n).
Definition refuses_with {A} (e : NetFail) : Work A := λ _, inl e.
Definition writes (f : Net → Net) : Work () := λ n, if decide (net_constraints (f n)) then inr ((), f n) else inl Violated.
Definition guard_ (b : bool) (e : NetFail) : Work () := if b then mret () else refuses_with e.
Definition found {A} (e : NetFail) (o : option A) : Work A := match o with Some a => mret a | None => refuses_with e end.
(** A transaction, and what it answers. *)
Definition commits {A} (m : Work A) n : (NetFail + A) * Net :=
  match m n with inl e => (inl e, n) | inr (a, n') => (inr a, n') end.

(** ** device.ts *)

Definition MOBILE_PLATFORMS : list string := ["ios"; "android"].
Definition isMobilePlatform (platform : string) : bool := bool_decide (platform ∈ MOBILE_PLATFORMS).

Definition BUS_IDENTITY_RESET d : Device := d {{ dv_busPublicKey := None }} {{ dv_orchestrator := true }}.
Definition isNewBusIdentity (prior : option Device) (publicKey : bytes) : bool :=
  match prior with
  | None => true
  | Some d => negb (bool_decide (d.(dv_revokedAt) = None)) || negb (bool_decide (d.(dv_publicKey) = publicKey))
  end.

Record NewDevice := {
  nd_userId : string; nd_deviceId : string; nd_publicKey : bytes; nd_kind : string; nd_platform : string; nd_displayName : string }.

Definition live_device (u kind : string) (_ : string) d : bool :=
  bool_decide (d.(dv_userId) = u) && bool_decide (d.(dv_revokedAt) = None) && bool_decide (d.(dv_kind) = kind).
Definition countActive (u kind : string) n : Z := count (live_device u kind) n.(devices).
Definition findDeviceByComposite (u deviceId : string) n : option (string * Device) :=
  find_one (λ _ d, bool_decide (d.(dv_userId) = u) && bool_decide (d.(dv_deviceId) = deviceId)) n.(devices).

Section devices.
Context (w : World).

Definition create_device (d : Device) : Work string :=
  id ← reads (λ n, w.(w_uuid) (base.size n.(devices)));
  taken ← reads (λ n, n.(devices) !! id);
  match taken with Some _ => refuses_with Violated | None => writes (put_device w.(w_now) id d);; mret id end.
Definition update_device (id : string) (f : Device → Device) : Work Device :=
  row ← reads (λ n, n.(devices) !! id);
  d ← found Threw row;
  writes (put_device w.(w_now) id (f d));; mret (f d).

(** The devices a refusal lists are left out. *)
Inductive CheckCapResult := app_device_cap (limit : Z) | worker_cap (limit : Z) | cap_ok (id : string).

(** The row a registration writes: the client's part, over a new or an old one. *)
Definition registered (a : NewDevice) (prior : option Device) : Device :=
  match prior with
  | None => {|
      dv_userId := a.(nd_userId); dv_deviceId := a.(nd_deviceId); dv_kind := a.(nd_kind); dv_platform := a.(nd_platform);
      dv_displayName := a.(nd_displayName); dv_publicKey := a.(nd_publicKey); dv_oauthClientId := None; dv_revokedAt := None;
      dv_mobileAccessEnabled := false; dv_machineName := None; dv_busPublicKey := None; dv_orchestrator := true |}
  | Some d =>
      let d' := d {{ dv_revokedAt := None }} {{ dv_publicKey := a.(nd_publicKey) }} {{ dv_displayName := a.(nd_displayName) }}
                  {{ dv_kind := a.(nd_kind) }} {{ dv_platform := a.(nd_platform) }} in
      if isNewBusIdentity prior a.(nd_publicKey) then BUS_IDENTITY_RESET d' else d'
  end.

Definition checkCapAndUpsert (a : NewDevice) (appDeviceLimit workerLimit : Z) : Work CheckCapResult :=
  prior ← reads (findDeviceByComposite a.(nd_userId) a.(nd_deviceId));
  apps ← reads (countActive a.(nd_userId) "app");
  agents ← reads (countActive a.(nd_userId) "agent");
  let reactivating kind := match prior with Some (id, d) => live_device a.(nd_userId) kind id d | None => false end in
  if bool_decide (a.(nd_kind) = "app") && negb (reactivating "app") && (appDeviceLimit <=? apps) then mret (app_device_cap appDeviceLimit)
  else if bool_decide (a.(nd_kind) = "agent") && negb (reactivating "agent") && (workerLimit <=? agents) then mret (worker_cap workerLimit)
  else
    match prior with
    | None => id ← create_device (registered a None); mret (cap_ok id)
    | Some (id, d) => update_device id (λ d, registered a (Some d));; mret (cap_ok id)
    end.

(** ** The route that registers a device, after its transaction

    [existing] is the row it read before. *)
Definition enroll_device (a : NewDevice) (existing : option Device) (clientId : string) : Work () :=
  row ← reads (findDeviceByComposite a.(nd_userId) a.(nd_deviceId));
  r ← found Threw row;
  update_device r.1 (λ d,
    let d' := d {{ dv_kind := a.(nd_kind) }} {{ dv_platform := a.(nd_platform) }} {{ dv_displayName := a.(nd_displayName) }}
                {{ dv_publicKey := a.(nd_publicKey) }} {{ dv_oauthClientId := Some clientId }} {{ dv_revokedAt := None }} in
    if isNewBusIdentity existing a.(nd_publicKey) then BUS_IDENTITY_RESET d' else d');;
  mret ().

(** ** services/device.ts: the client goes first, then the row is marked *)

Definition revoke_client (u id : string) : Work bool :=
  row ← reads (λ n, d ← n.(devices) !! id; if bool_decide (d.(dv_userId) = u) && bool_decide (d.(dv_revokedAt) = None) then Some d else None);
  match row with
  | None => mret false
  | Some d => match given d.(dv_oauthClientId) with Some c => writes (drop_credential w.(w_now) c) | None => mret () end;; mret true
  end.
Definition markDeviceRevoked (id : string) : Work () :=
  update_device id (λ d, d {{ dv_revokedAt := Some w.(w_now) }});; mret ().

(** ** agents.ts: a heartbeat's columns *)
Definition heartbeat (u deviceId : string) (mobile : option bool) (machineName : option string) : Work bool :=
  row ← reads (findDeviceByComposite u deviceId);
  match row with
  | Some (id, d) =>
      if bool_decide (d.(dv_revokedAt) = None) then
        update_device id (λ d, d {{ dv_mobileAccessEnabled := mobile ?| d.(dv_mobileAccessEnabled) }}
          {{ dv_machineName := match machineName with Some m => Some m | None => d.(dv_machineName) end }});; mret true
      else mret false
  | None => mret false
  end.

(** ** services/account.ts: the devices and clients of a deleted user *)
Definition delete_devices u : Work () :=
  writes (λ n, foldl (λ n kc, drop_credential w.(w_now) kc.1 n) n (select_rows (λ _ c, bool_decide (c.(cr_userId) = Some u)) n.(credentials)));;
  writes (λ n, foldl (λ n kd, drop_device w.(w_now) kd.1 n) n (select_rows (λ _ d, bool_decide (d.(dv_userId) = u)) n.(devices))).
End devices.
