(* ===== verification/PeerAuthority.v ===== *)
(** * PeerAuthority: who may connect to whom

    [web/src/models/peer-authorization.ts] with the endpoint schemas of
    [packages/antgrid-wire/src/peer-authorization.ts].  A device proves that it
    holds an endpoint's key and is then named to its peers, in a snapshot that is
    leased for a short time.  The caller's identity is what its token says; every
    transaction checks it against the rows.

    Ed25519, the digest of the relays' configuration, the formats of the schema
    library, the platform's [URL] and the text form of JSON are the class
    [PeerRuntime].  An operation
    reads the clock once. *)

From S2P Require Import Prelude JsMap Buffers Wire RelayAuth BusSeal BillingDb Billing Devices.
From stdpp Require Import sorting gmap.
From coqutil Require Import Datatypes.RecordSetters.
Import DoubleBraceUpdate.

#[local] Set Warnings "-notation-overridden".
Local Open Scope Z_scope.
Local Open Scope js_scope.

(** The parts of a [URL] that are read. *)
Record Url := {
  ur_protocol : string; ur_hostname : string; ur_username : string; ur_password : string; ur_search : string; ur_hash : string;
  ur_pathname : string }.

Class PeerRuntime := {
  parse_text : string → option json;                        (** [JSON.parse] *)
  verifyAsync : bytes → bytes → bytes → option bool;        (** signature, message, key *)
  config_hash : list string → string;                       (** of the sorted URLs *)
  is_uuid : string → bool;
  is_url : string → bool;                                   (** [z.url()] *)
  new_URL : string → option Url }.

Implicit Types (n : Net) (d : Device).

Definition PEER_LEASE_MS : Z := 60000.
Definition ENDPOINT_CHALLENGE_MS : Z := 120000.
Definition PEER_IDENTITY_MAX_CHARS : Z := 256.
Definition PEER_MAX_AUTHORIZED_PEERS : nat := 1024.
Definition PEER_MAX_RELAY_URLS : nat := 16.
Definition PEER_MAX_GENERATION : Z := 9223372036854775807.
Definition MAX_ACCOUNT_MACHINES : nat := 64.

(** ** Identity *)

Record Identity := {
  id_id : string; id_userId : string; id_deviceId : string; id_enrollmentId : string; id_publicKey : bytes; id_kind : string }.

Section authority.
Context `{PeerRuntime} (w : World).

Record DeviceOAuthMetadata := { md_userId : string; md_deviceUuid : string; md_ed25519Pub : string }.
Definition parseDeviceOAuthMetadata (value : json) : option DeviceOAuthMetadata :=
  let value := match value with JStr s => parse_text s ?| JNull | _ => value end in
  a ← string_field any_string "userId" value; b ← string_field any_string "deviceUuid" value; c ← string_field any_string "ed25519Pub" value;
  Some {| md_userId := a; md_deviceUuid := b; md_ed25519Pub := c |}.

(** A client that is live and was made for this user, device and key. *)
Definition credential_binds (c : option Credential) (userId deviceId : string) (publicKey : bytes) : bool :=
  match c with
  | None => false
  | Some c =>
      negb c.(cr_disabled) && bool_decide ("client_credentials" ∈ c.(cr_grantTypes)) &&
      match parseDeviceOAuthMetadata c.(cr_metadata) with
      | Some m => bool_decide (m.(md_userId) = userId) && bool_decide (m.(md_deviceUuid) = deviceId) &&
                  bool_decide (m.(md_ed25519Pub) = b64_encode publicKey)
      | None => false
      end
  end.

(** The device row of an identity that still stands. *)
Definition standing_device (i : Identity) n : option Device :=
  d ← n.(devices) !! i.(id_id);
  if bool_decide (is_Some (n.(billing).(users) !! i.(id_userId))) &&
     bool_decide ((snd <$> account_of i.(id_userId) n.(billing)) ≫= ac_deletedAt = None) &&
     bool_decide (d.(dv_revokedAt) = None) && bool_decide (d.(dv_userId) = i.(id_userId)) && bool_decide (d.(dv_deviceId) = i.(id_deviceId)) &&
     bool_decide (d.(dv_oauthClientId) = Some i.(id_enrollmentId)) && bool_decide (d.(dv_publicKey) = i.(id_publicKey)) &&
     credential_binds (n.(credentials) !! i.(id_enrollmentId)) i.(id_userId) i.(id_deviceId) d.(dv_publicKey)
  then Some d else None.

Definition currentIdentity (i : Identity) : Work Device :=
  row ← reads (standing_device i); found (Refused "UNAUTHENTICATED") row.

(** Any unique violation of the transaction is taken for a reused endpoint.  What
    cannot be serialized is tried again; here transactions run one at a time. *)
Definition serializable {A} (m : Work A) : Work A := λ n, match m n with inl Violated => inl (Refused "ENDPOINT_REUSED") | r => r end.

(** The latest generation of an enrollment, revoked or not. *)
Definition generation (enrollmentId : string) n : Z :=
  foldr Z.max 0 ((λ kr, kr.2.(rg_generation)) <$> select_rows (λ _ r, bool_decide (r.(rg_enrollmentId) = enrollmentId)) n.(registrations)).

(** ** Proving an endpoint *)

Record EndpointChallenge := {
  ec_challengeId : string; ec_challenge : string; ec_accountId : string; ec_deviceId : string; ec_enrollmentId : string;
  ec_endpointId : string; ec_expectedGeneration : Z }.

Definition hex_val (c : Ascii.ascii) : option Z :=
  if is_digit c then Some (Z.of_nat (Ascii.nat_of_ascii c) - 48)
  else if in_range 97 102 c then Some (Z.of_nat (Ascii.nat_of_ascii c) - 87) else None.
Definition EndpointIdSchema (s : string) : bool := (strlen s =? 64) && string_forallb (λ c, bool_decide (is_Some (hex_val c))) s.
(** [Buffer.from(endpointId, "hex")] on such a text. *)
Fixpoint hex_decode (s : string) : bytes :=
  match s with
  | String a (String b s) => match hex_val a, hex_val b with Some x, Some y => (16 * x + y) :: hex_decode s | _, _ => [] end
  | _ => []
  end.

Definition identity_text (s : string) : bool := (1 <=? strlen s) && (strlen s <=? PEER_IDENTITY_MAX_CHARS).
Definition generation_ok (g : Z) : bool := (0 <=? g) && (g <=? PEER_MAX_GENERATION).
Definition EndpointChallengeSchema (c : EndpointChallenge) : bool :=
  EndpointIdSchema c.(ec_endpointId) && generation_ok c.(ec_expectedGeneration) && is_uuid c.(ec_challengeId) &&
  RawKey32Schema c.(ec_challenge) && identity_text c.(ec_accountId) && is_uuid c.(ec_deviceId) && identity_text c.(ec_enrollmentId).

Definition challenge_label : string := "antgrid/endpoint-registration/1".
Definition endpointChallengeBytes (c : EndpointChallenge) : option bytes :=
  if EndpointChallengeSchema c then
    Some (lengthPrefixed (utf8_encode <$> [challenge_label; c.(ec_challengeId); c.(ec_challenge); c.(ec_accountId); c.(ec_deviceId);
      c.(ec_enrollmentId); c.(ec_endpointId); String_of c.(ec_expectedGeneration)]))
  else None.

Definition createEndpointChallenge (i : Identity) (endpointId : string) (expectedGeneration : Z) : Work EndpointChallenge :=
  serializable (
    currentIdentity i;;
    g ← reads (generation i.(id_enrollmentId));
    guard_ (g =? expectedGeneration) (Refused "STALE_GENERATION");;
    writes (λ n, set_challenges (filter (λ kc, negb (bool_decide (kc.2.(ch_enrollmentId) = i.(id_enrollmentId)) ||
      (kc.2.(ch_expiresAt) <=? w.(w_now))) = true) n.(challenges)) n);;
    id ← reads (λ n, w.(w_uuid) (base.size n.(challenges)));
    taken ← reads (λ n, n.(challenges) !! id);
    guard_ (bool_decide (taken = None)) Violated;;
    writes (λ n, set_challenges (<[id := {|
      ch_userId := i.(id_userId); ch_deviceId := i.(id_deviceId); ch_enrollmentId := i.(id_enrollmentId); ch_endpointId := endpointId;
      ch_expectedGeneration := expectedGeneration; ch_challenge := w.(w_token); ch_expiresAt := w.(w_now) + ENDPOINT_CHALLENGE_MS;
      ch_consumedAt := None |}]> n.(challenges)) n);;
    mret {| ec_challengeId := id; ec_challenge := w.(w_token); ec_accountId := i.(id_userId); ec_deviceId := i.(id_deviceId);
            ec_enrollmentId := i.(id_enrollmentId); ec_endpointId := endpointId; ec_expectedGeneration := expectedGeneration |}).

Definition challenge_of (id : string) (c : Challenge) : EndpointChallenge := {|
  ec_challengeId := id; ec_challenge := c.(ch_challenge); ec_accountId := c.(ch_userId); ec_deviceId := c.(ch_deviceId);
  ec_enrollmentId := c.(ch_enrollmentId); ec_endpointId := c.(ch_endpointId); ec_expectedGeneration := c.(ch_expectedGeneration) |}.

(** A challenge that is this identity's and still open. *)
Definition open_challenge (i : Identity) (c : Challenge) : bool :=
  bool_decide (c.(ch_consumedAt) = None) && (w.(w_now) <? c.(ch_expiresAt)) && bool_decide (c.(ch_userId) = i.(id_userId)) &&
  bool_decide (c.(ch_deviceId) = i.(id_deviceId)) && bool_decide (c.(ch_enrollmentId) = i.(id_enrollmentId)).

(** Both signatures, of the device and of the endpoint; a throw is a refusal. *)
Definition both_signed (deviceSignature endpointSignature : string) (message deviceKey : bytes) (endpointId : string) : bool :=
  match verifyAsync (b64_decode deviceSignature) message deviceKey, verifyAsync (b64_decode endpointSignature) message (hex_decode endpointId) with
  | Some a, Some b => a && b
  | _, _ => false
  end.

Definition registerEndpoint (i : Identity) (challengeId deviceSignature endpointSignature : string) : Work (string * Z) :=
  serializable (
    device ← currentIdentity i;
    row ← reads (λ n, c ← n.(challenges) !! challengeId; if open_challenge i c then Some c else None);
    c ← found (Refused "INVALID_CHALLENGE") row;
    message ← found Threw (endpointChallengeBytes (challenge_of challengeId c));
    guard_ (both_signed deviceSignature endpointSignature message device.(dv_publicKey) c.(ch_endpointId)) (Refused "INVALID_SIGNATURE");;
    g ← reads (generation i.(id_enrollmentId));
    guard_ ((g =? c.(ch_expectedGeneration)) && negb (c.(ch_expectedGeneration) =? PEER_MAX_GENERATION)) (Refused "STALE_GENERATION");;
    taken ← reads (λ n, n.(registrations) !! c.(ch_endpointId));
    guard_ (bool_decide (taken = None)) (Refused "ENDPOINT_REUSED");;
    writes (λ n, set_challenges (<[challengeId := c {{ ch_consumedAt := Some w.(w_now) }}]> n.(challenges)) n);;
    writes (revoke_registrations w.(w_now) (λ r, bool_decide (r.(rg_enrollmentId) = i.(id_enrollmentId))));;
    writes (insert_registration c.(ch_endpointId) {|
      rg_userId := c.(ch_userId); rg_deviceId := c.(ch_deviceId); rg_enrollmentId := c.(ch_enrollmentId);
      rg_generation := c.(ch_expectedGeneration) + 1; rg_revokedAt := None |});;
    mret (c.(ch_endpointId), c.(ch_expectedGeneration) + 1)).

(** ** Snapshots *)

Definition EndpointRow : Type := string * Z.
Record Peer := { pr_deviceId : string; pr_ed25519Pub : string; pr_endpoint : option EndpointRow }.
Record AuthorizationSnapshot := {
  as_accountId : string; as_deviceId : string; as_enrollmentId : string; as_policyGeneration : Z; as_registrationGeneration : Z;
  as_allowed : bool; as_leaseMs : Z; as_endpoint : option EndpointRow; as_peers : list Peer; as_relayUrls : list string }.

(** [endpointInventory]: the standing registration of an enrollment. *)
Definition inventory (u : string) (enrollmentId : option string) n : option EndpointRow :=
  '(e, r) ← find_one (λ _ r, bool_decide (r.(rg_userId) = u) && bool_decide (r.(rg_revokedAt) = None) &&
    bool_decide (Some r.(rg_enrollmentId) = enrollmentId)) n.(registrations);
  Some (e, r.(rg_generation)).

Definition activeSubscriptionForUser (u : string) n : option SubscriptionRow :=
  a ← resolveBillingAccountId u n.(billing); activeSubscriptionForAccount w.(w_now) a n.(billing).
(** An active subscription, and the account it is on not deleted. *)
Definition accountAllowed (u : string) n : bool :=
  match activeSubscriptionForUser u n, resolveBillingAccountId u n.(billing) ≫= λ a, n.(billing).(accounts) !! a with
  | Some _, Some a => bool_decide (a.(ac_deletedAt) = None)
  | _, _ => false
  end.

Definition id_order (a b : string) : Prop := String.leb a b = true.
#[global] Instance id_order_dec a b : Decision (id_order a b).
Proof. unfold id_order. apply _. Defined.

(** The rows of a query [orderBy: { id: "asc" }], cut by [take]. *)
Definition device_rows (P : string → Device → bool) (limit : nat) n : list (string * Device) :=
  omap (λ id, d ← n.(devices) !! id; Some (id, d))
    (take limit (merge_sort id_order (elements (dom (filter (λ kd, P kd.1 kd.2 = true) n.(devices)))))).

(** The devices a device may be told of: of the other kind, and an agent to an
    app only where mobile access is on. *)
Definition facing (u kind : string) (id : string) d : bool :=
  bool_decide (d.(dv_userId) = u) && bool_decide (d.(dv_revokedAt) = None) &&
  bool_decide (d.(dv_kind) = (if bool_decide (kind = "agent") then "app" else "agent")) &&
  (negb (bool_decide (kind = "app")) || d.(dv_mobileAccessEnabled)).
Definition credential_bound n (d : Device) : bool :=
  credential_binds (c ← d.(dv_oauthClientId); n.(credentials) !! c) d.(dv_userId) d.(dv_deviceId) d.(dv_publicKey).

Definition lease_deadlines (s : option SubscriptionRow) : list Z :=
  match s with
  | Some (_, s) => (λ t, t - w.(w_now)) <$> omap id [s.(sb_cancelledAt); s.(sb_trialEndsAt); s.(sb_currentPeriodEnd)]
  | None => [0]
  end.

Definition lower_hex (c : Ascii.ascii) : bool := is_digit c || in_range 97 102 c.
(** [/^[0-9a-f]{0,n}:/]. *)
Fixpoint hex_then_colon (n : nat) (s : string) : bool :=
  match s with
  | String c s => is_char 58 c || match n with S n => lower_hex c && hex_then_colon n s | O => false end
  | EmptyString => false
  end.
(** Unique-local and link-local addresses. *)
Definition local_ipv6 (host : string) : bool :=
  match host with
  | String f (String c s) =>
      is_char 102 f && (((is_char 99 c || is_char 100 c) && hex_then_colon 2 s) ||
      (is_char 101 c && match s with
                        | String x (String y (String z _)) => (in_range 56 57 x || in_range 97 98 x) && lower_hex y && is_char 58 z
                        | _ => false
                        end))
  | _ => false
  end.
(** Four decimal parts of one to three digits. *)
Definition octets_of (host : string) : option (list Z) :=
  let parts := split_on (Ascii.ascii_of_N 46) host in
  if bool_decide (length parts = 4%nat) && forallb (λ p, len_between 1 3 p && string_forallb is_digit p) parts then Some (digits_value 0 <$> parts) else None.
Definition isLocalRelayHost (hostname : string) : bool :=
  let host := lower (match hostname with String c _ => if is_char 91 c then String.substring 1 (String.length hostname - 2) hostname else hostname | _ => hostname end) in
  if bool_decide (host = "localhost" ∨ host = "::1") then true
  else
    match octets_of host with
    | Some ((first :: second :: _) as octets) =>
        forallb (λ o, o <=? 255) octets &&
        ((first =? 127) || (first =? 10) || ((first =? 192) && (second =? 168)) || ((first =? 172) && (16 <=? second) && (second <=? 31)) ||
         ((first =? 169) && (second =? 254)))
    | _ => local_ipv6 host
    end.
Definition relayUrlsSchema (allowInsecureRelay : bool) (urls : list string) : bool :=
  forallb (λ value, is_url value &&
    match new_URL value with
    | None => false
    | Some url =>
        (bool_decide (url.(ur_protocol) = "https:") ||
         (allowInsecureRelay && bool_decide (url.(ur_protocol) = "http:") && isLocalRelayHost url.(ur_hostname))) &&
        bool_decide (url.(ur_username) = "" ∧ url.(ur_password) = "" ∧ url.(ur_search) = "" ∧ url.(ur_hash) = "" ∧ url.(ur_pathname) = "/")
    end) urls && bool_decide (length urls <= PEER_MAX_RELAY_URLS)%nat.

Definition endpoint_ok (e : option EndpointRow) : bool :=
  match e with Some (e, g) => EndpointIdSchema e && generation_ok g | None => true end.
Definition peerAuthorizationSnapshotSchema (allowInsecureRelay : bool) (s : AuthorizationSnapshot) : bool :=
  identity_text s.(as_accountId) && is_uuid s.(as_deviceId) && identity_text s.(as_enrollmentId) && generation_ok s.(as_policyGeneration) &&
  generation_ok s.(as_registrationGeneration) && (0 <=? s.(as_leaseMs)) && (s.(as_leaseMs) <=? PEER_LEASE_MS) && endpoint_ok s.(as_endpoint) &&
  forallb (λ p, is_uuid p.(pr_deviceId) && RawKey32Schema p.(pr_ed25519Pub) && endpoint_ok p.(pr_endpoint)) s.(as_peers) &&
  bool_decide (length s.(as_peers) <= PEER_MAX_AUTHORIZED_PEERS)%nat &&
  relayUrlsSchema allowInsecureRelay s.(as_relayUrls).

Definition peer_of (u : string) n (d : Device) : Peer := {|
  pr_deviceId := d.(dv_deviceId); pr_ed25519Pub := b64_encode d.(dv_publicKey); pr_endpoint := inventory u d.(dv_oauthClientId) n |}.

(** The policy row of the user, with the relays' configuration. *)
Definition sync_policy (u : string) (relayUrls : list string) : Work Policy :=
  there ← reads (λ n, n.(policies) !! u);
  policy ← match there with
           | Some p => mret p
           | None => let p := {| po_generation := 0; po_relayConfigHash := None |} in writes (put_policy u p);; mret p
           end;
  let hash := config_hash (merge_sort id_order relayUrls) in
  if bool_decide (policy.(po_relayConfigHash) = Some hash) then mret policy
  else
    let p := {| po_generation := policy.(po_generation) + 1; po_relayConfigHash := Some hash |} in
    writes (λ n, (put_policy u p n) {{ outbox := n.(outbox) ++ [(u, p.(po_generation))] }});; mret p.

Definition authorizationSnapshot (i : Identity) (relayUrls : list string) (allowInsecureRelay : bool) : Work AuthorizationSnapshot :=
  device ← currentIdentity i;
  let u := i.(id_userId) in
  sub ← reads (activeSubscriptionForUser u);
  allowed ← reads (accountAllowed u);
  policy ← sync_policy u relayUrls;
  rows ← reads (λ n, if (allowed : bool) then device_rows (facing u device.(dv_kind)) 1025 n else []);
  peers ← reads (λ n, peer_of u n <$> filter (λ d, credential_bound n d = true) rows.*2);
  g ← reads (generation i.(id_enrollmentId));
  endpoint ← reads (inventory u (Some i.(id_enrollmentId)));
  let s := {|
    as_accountId := u; as_deviceId := i.(id_deviceId); as_enrollmentId := i.(id_enrollmentId);
    as_policyGeneration := policy.(po_generation); as_registrationGeneration := g; as_allowed := allowed;
    as_leaseMs := if (allowed : bool) then Z.max 0 (foldr Z.min PEER_LEASE_MS (lease_deadlines sub)) else 0;
    as_endpoint := endpoint; as_peers := peers; as_relayUrls := if (allowed : bool) then relayUrls else [] |} in
  guard_ (peerAuthorizationSnapshotSchema allowInsecureRelay s) Threw;; mret s.

Definition peerAuthorizationSnapshot (i : Identity) (relayUrls : list string) (allowInsecureRelay : bool) : Work AuthorizationSnapshot :=
  serializable (authorizationSnapshot i relayUrls allowInsecureRelay).

(** ** Admission to a relay *)

Definition admits (endpointId : string) (r : Registration) (s : AuthorizationSnapshot) : bool :=
  s.(as_allowed) && (0 <? s.(as_leaseMs)) && bool_decide (s.(as_endpoint) = Some (endpointId, r.(rg_generation))) &&
  (s.(as_registrationGeneration) =? r.(rg_generation)).

Definition resolveRelayEndpointAdmission (endpointId relayUrl : string) (relayUrls : list string) (allowInsecureRelay : bool) :
    Work (option AuthorizationSnapshot) :=
  if negb (bool_decide (relayUrl ∈ relayUrls)) then mret None
  else serializable (
    row ← reads (λ n, r ← n.(registrations) !! endpointId; if bool_decide (r.(rg_revokedAt) = None) then Some r else None);
    match row with
    | None => mret None
    | Some r =>
        there ← reads (findDeviceByComposite r.(rg_userId) r.(rg_deviceId));
        match there with
        | None => mret None
        | Some (id, d) =>
            s ← authorizationSnapshot {|
              id_id := id; id_userId := r.(rg_userId); id_deviceId := r.(rg_deviceId); id_enrollmentId := r.(rg_enrollmentId);
              id_publicKey := d.(dv_publicKey); id_kind := d.(dv_kind) |} relayUrls allowInsecureRelay;
            mret (if admits endpointId r s then Some s else None)
        end
    end).
(** A refusal is a no; other failures are the route's. *)
Definition admitRelayEndpoint (endpointId relayUrl : string) (relayUrls : list string) (allowInsecureRelay : bool) n : (NetFail + bool) * Net :=
  match commits (resolveRelayEndpointAdmission endpointId relayUrl relayUrls allowInsecureRelay) n with
  | (inr s, n) => (inr (bool_decide (is_Some s)), n)
  | (inl (Refused _), n) => (inr false, n)
  | (inl e, n) => (inl e, n)
  end.

(** ** The machines of an account, bus keys and grants *)

Record Machine := {
  mc_deviceId : string; mc_displayName : string; mc_machineName : option string; mc_ed25519Pub : string; mc_busPublicKey : option string;
  mc_orchestrator : bool }.
Record MachineDirectory := {
  dir_accountId : string; dir_deviceId : string; dir_allowed : bool; dir_self_busPublicKey : option string; dir_self_orchestrator : bool;
  dir_machines : list Machine }.

Definition nullable (ok : string → bool) (o : option string) : bool := match o with Some s => ok s | None => true end.
Definition MachineEntrySchema (m : Machine) : bool :=
  is_uuid m.(mc_deviceId) && len_between 1 120 m.(mc_displayName) && nullable (len_between 1 120) m.(mc_machineName) &&
  RawKey32Schema m.(mc_ed25519Pub) && nullable RawKey32Schema m.(mc_busPublicKey).
Definition MachineDirectorySchema (d : MachineDirectory) : bool :=
  len_between 1 256 d.(dir_accountId) && is_uuid d.(dir_deviceId) && nullable RawKey32Schema d.(dir_self_busPublicKey) &&
  forallb MachineEntrySchema d.(dir_machines) && bool_decide (length d.(dir_machines) <= MAX_ACCOUNT_MACHINES)%nat.

Definition other_agent (u self : string) (id : string) d : bool :=
  bool_decide (d.(dv_userId) = u) && bool_decide (d.(dv_revokedAt) = None) && bool_decide (d.(dv_kind) = "agent") && negb (bool_decide (id = self)).

(** An agent's own identity. *)
Definition agentIdentity (i : Identity) : Work Device :=
  d ← currentIdentity i; guard_ (bool_decide (d.(dv_kind) = "agent")) (Refused "NOT_AGENT");; mret d.

Definition machineDirectory (i : Identity) : Work MachineDirectory :=
  serializable (
    device ← agentIdentity i;
    allowed ← reads (accountAllowed i.(id_userId));
    rows ← reads (λ n, if (allowed : bool) then
      filter (λ d, credential_bound n d = true) (device_rows (other_agent i.(id_userId) i.(id_id)) (S MAX_ACCOUNT_MACHINES) n).*2 else []);
    let directory := {|
      dir_accountId := i.(id_userId); dir_deviceId := i.(id_deviceId); dir_allowed := allowed;
      dir_self_busPublicKey := b64_encode <$> device.(dv_busPublicKey); dir_self_orchestrator := device.(dv_orchestrator);
      dir_machines := (λ d, {| mc_deviceId := d.(dv_deviceId); mc_displayName := d.(dv_displayName); mc_machineName := given d.(dv_machineName);
        mc_ed25519Pub := b64_encode d.(dv_publicKey); mc_busPublicKey := b64_encode <$> d.(dv_busPublicKey);
        mc_orchestrator := d.(dv_orchestrator) |}) <$> take MAX_ACCOUNT_MACHINES rows |} in
    guard_ (MachineDirectorySchema directory) Threw;; mret directory).

Definition registerBusKey (i : Identity) (busPublicKey : string) : Work () :=
  serializable (
    d ← agentIdentity i;
    update_device w i.(id_id) (λ d, d {{ dv_busPublicKey := Some (b64_decode busPublicKey) }});; mret ()).

Definition ownSessionBusGrants (i : Identity) : Work bool := serializable (d ← agentIdentity i; mret d.(dv_orchestrator)).

Definition lowerOwnSessionBusGrants (i : Identity) (orchestrator : option bool) : Work bool :=
  if bool_decide (orchestrator = Some true) then refuses_with (Refused "OWNER_SESSION_REQUIRED")
  else serializable (
    d ← agentIdentity i;
    d ← update_device w i.(id_id) (λ d, match orchestrator with Some false => d {{ dv_orchestrator := false }} | _ => d end);
    mret d.(dv_orchestrator)).

Definition setOwnedSessionBusGrants (u id : string) (orchestrator : option bool) : Work (option bool) :=
  row ← reads (λ n, d ← n.(devices) !! id; if live_device u "agent" id d then Some d else None);
  match row with
  | None => mret None
  | Some _ => d ← update_device w id (λ d, d {{ dv_orchestrator := orchestrator ?| d.(dv_orchestrator) }}); mret (Some d.(dv_orchestrator))
  end.
End authority.

(** ** What a machine's key signs

    The device key signs four kinds of bytes: bus mail, bus acknowledgements
    (BusSeal.v), the relay hello (RelayAuth.v, a string of raw bytes) and the
    endpoint challenge above.  The labels keep them apart. *)

Definition raw_bytes (s : string) : bytes := (λ c, Z.of_N (Ascii.N_of_ascii c)) <$> String.list_ascii_of_string s.
Definition hello_bytes (sha256 : string → string) (f : HelloSigFields) : bytes := raw_bytes (buildHelloSigBody sha256 f).

(** A field list starts with the zero byte of a short label's length, a hello
    with the letter of its domain. *)
Lemma mail_is_no_hello sha256 m f : mail_bytes m ≠ hello_bytes sha256 f.
Proof. unfold mail_bytes, busSignedBytes. rewrite fmap_cons, lengthPrefixed_cons. by intros [=]. Qed.

Lemma mail_is_no_challenge `{PeerRuntime} m c : endpointChallengeBytes c ≠ Some (mail_bytes m).
Proof.
  unfold endpointChallengeBytes. destruct (EndpointChallengeSchema c); [|done]. intros Heq%(inj Some).
  unfold mail_bytes, busSignedBytes in Heq. rewrite !fmap_cons, !lengthPrefixed_cons in Heq.
  apply prefixed_inj in Heq as [Heq _]; [|done..]. by apply (inj utf8_encode) in Heq.
Qed.

(** C9: mail that opens is the sender's own.  Suppose the signatures that verify
    under a machine's key are on bytes its owner signed with it: mail it [written],
    acknowledgements it [acked], [hellos] to the relay and endpoint [challenges] it
    answered, which is all this program signs with that key.  Then mail opened as
    from that machine is a header and a body it wrote, to this recipient and under
    this id: no part of a signed message can be moved into another, and no
    acknowledgement, hello or challenge passes for mail. *)
Theorem opened_mail_authentic `{!Crypto, !JsonText, !PeerRuntime} (sha256 : string → string)
    (written : list (InnerHeader * string)) (acked : list BusAckFields) (hellos : list HelloSigFields)
    (challenges : list EndpointChallenge) blob from to id priv pub senderPub h body :
  (∀ s, uuid s = true → strlen s = 36) →
  (∀ m sig, verifyEd25519 senderPub m sig = true →
    m ∈ (mail_bytes <$> written) ++ (busAckSignedBytes <$> acked) ++ (hello_bytes sha256 <$> hellos) ++
      omap endpointChallengeBytes challenges) →
  Forall sealable written → openBus blob from to id priv pub senderPub = inl (h, body) →
  (h, body) ∈ written ∧ h.(ih_from) = from ∧ h.(ih_to) = to ∧ h.(ih_id) = id.
Proof.
  intros Hu Hunf Hwr Hopen. apply openBus_checked in Hopen as (Hh & Hf & Ht & Hi & Hb & sig & Hv).
  split; [|done]. apply Hunf in Hv. rewrite !elem_of_app, !list_elem_of_fmap in Hv.
  destruct Hv as [(m & Heq & Hm)|[(f & Heq & _)|[(f & Heq & _)|Hin]]].
  - apply (mail_bytes_inj Hu) in Heq; [by subst| |].
    { split; [done|]. apply short_string. unfold BUS_MAX_PLAINTEXT_BYTES in Hb. simpl. lia. }
    by eapply Forall_forall in Hwr.
  - by apply mail_is_no_ack in Heq.
  - by apply mail_is_no_hello in Heq.
  - apply list_elem_of_omap in Hin as (c & _ & Heq). by apply mail_is_no_challenge in Heq.
Qed.

(** A machine that has signed one of each. *)
Definition demo_signed : list bytes :=
  [mail_bytes (demo_header, demo_body);
   busAckSignedBytes {| ak_from := demo_id 97; ak_to := demo_id 98; ak_id := demo_id 99; ak_outcome := Wire.applied; ak_code := None |};
   hello_bytes (λ _, "digest") (demo_hello "a.io" "n1")].

Definition demo_runtime : PeerRuntime := {|
  parse_text _ := None; verifyAsync _ _ _ := None; config_hash _ := EmptyString; is_uuid s := strlen s =? 36; is_url _ := true;
  new_URL _ := None |}.
Definition demo_challenge : EndpointChallenge := {|
  ec_challengeId := demo_id 97; ec_challenge := demo_key; ec_accountId := "account"; ec_deviceId := demo_id 98;
  ec_enrollmentId := "enrollment"; ec_endpointId := Nat.iter 64 (String (Ascii.ascii_of_N 97)) EmptyString; ec_expectedGeneration := 0 |}.
Definition demo_challenge_bytes : bytes := @endpointChallengeBytes demo_runtime demo_challenge ?| [].

Definition demo_signs (m : bytes) : bool := bool_decide (m ∈ demo_signed ++ [demo_challenge_bytes]).

Lemma opened_mail_authentic_witness :
  is_Some (@endpointChallengeBytes demo_runtime demo_challenge) ∧ (demo_header, demo_body) ∈ [(demo_header, demo_body)] ∧
  demo_header.(ih_from) = demo_id 97 ∧ demo_header.(ih_to) = demo_id 98 ∧ demo_header.(ih_id) = demo_id 99.
Proof.
  split; [eexists; vm_compute; reflexivity|].
  refine (@opened_mail_authentic (demo_crypto demo_signs) demo_json demo_runtime (λ _, "digest"%string) [(demo_header, demo_body)]
    [{| ak_from := demo_id 97; ak_to := demo_id 98; ak_id := demo_id 99; ak_outcome := Wire.applied; ak_code := None |}]
    [demo_hello "a.io" "n1"] [demo_challenge]
    (demo_blob demo_signs) (demo_id 97) (demo_id 98) (demo_id 99) demo_key demo_key demo_key
    demo_header demo_body _ _ _ _).
  - intros s Hs. by apply Z.eqb_eq in Hs.
  - intros m sig. unfold verifyEd25519. case_match; [done|]. simpl. intros Hm%bool_decide_eq_true. exact Hm.
  - constructor; [|constructor]. split; [by vm_compute|done].
  - by vm_compute.
Defined.
