(* ===== verification/PeerSystem.v ===== *)
(** * PeerSystem: the peer authority as a whole

    The operations of Devices.v and PeerAuthority.v as the steps of one system,
    each a transaction, with the transactions on the billing tables between them;
    and the relations every step respects. *)

From S2P Require Import Prelude JsMap Buffers Wire BusSeal BillingDb Billing BillingReducer BillingTeam BillingSystem Devices PeerAuthority.
From stdpp Require Import sorting gmap.
From coqutil Require Import Datatypes.RecordSetters.
Import DoubleBraceUpdate.
#[local] Set Warnings "-notation-overridden".
Local Open Scope Z_scope.
Local Open Scope js_scope.
Implicit Types (n : Net) (u : string) (d : Device).

Inductive NetAct :=
| BillingChanges (b : DB) (more : list string)
| ClientMade (client : string) (c : Credential)
| ClientEdited (client : string) (c : Credential)
| ClientDeleted (client : string)
| DeviceRegisters (a : NewDevice) (appDeviceLimit workerLimit : Z)
| DeviceEnrolls (a : NewDevice) (existing : option Device) (client : string)
| DeviceRevoked (u id : string)                       (** its client is deleted … *)
| DeviceMarked (id : string)                          (** … and its row is marked *)
| DeviceBeats (u deviceId : string) (mobile : option bool) (machineName : option string)
| DevicesDeleted (u : string)
| ChallengeAsked (i : Identity) (endpointId : string) (expectedGeneration : Z)
| EndpointRegisters (i : Identity) (challengeId deviceSignature endpointSignature : string)
| SnapshotAsked (i : Identity) (relayUrls : list string) (insecure : bool)
| AdmissionAsked (endpointId relayUrl : string) (relayUrls : list string) (insecure : bool)
| BusKeyRegisters (i : Identity) (busPublicKey : string)
| GrantsLowered (i : Identity) (orchestrator : option bool)
| GrantsSet (u id : string) (orchestrator : option bool).

Section system.
Context `{PeerRuntime} (w : World).

Definition net_step (a : NetAct) n : Net :=
  match a with
  | BillingChanges b more => change_billing b more n
  | ClientMade client c | ClientEdited client c => (commits (writes (put_credential w.(w_now) client c)) n).2
  | ClientDeleted client => (commits (writes (drop_credential w.(w_now) client)) n).2
  | DeviceRegisters a apps workers => (commits (checkCapAndUpsert w a apps workers) n).2
  | DeviceEnrolls a existing client => (commits (enroll_device w a existing client) n).2
  | DeviceRevoked u id => (commits (revoke_client w u id) n).2
  | DeviceMarked id => (commits (markDeviceRevoked w id) n).2
  | DeviceBeats u deviceId mobile name => (commits (heartbeat w u deviceId mobile name) n).2
  | DevicesDeleted u => (commits (delete_devices w u) n).2
  | ChallengeAsked i e g => (commits (createEndpointChallenge w i e g) n).2
  | EndpointRegisters i c s1 s2 => (commits (registerEndpoint w i c s1 s2) n).2
  | SnapshotAsked i urls ins => (commits (peerAuthorizationSnapshot w i urls ins) n).2
  | AdmissionAsked e url urls ins => (admitRelayEndpoint w e url urls ins n).2
  | BusKeyRegisters i k => (commits (registerBusKey w i k) n).2
  | GrantsLowered i o => (commits (lowerOwnSessionBusGrants w i o) n).2
  | GrantsSet u id o => (commits (setOwnedSessionBusGrants w u id o) n).2
  end.
End system.

Definition net_run `{PeerRuntime} (acts : list (World * NetAct)) n : Net := foldl (λ n '(w, a), net_step w a n) n acts.

(** ** What the database and the sign-in service see to *)

(** Foreign keys: a subscription and a membership are of an account there is. *)
Definition foreign_keys (b : DB) : Prop :=
  (∀ id s, b.(subs) !! id = Some s → is_Some (b.(accounts) !! s.(sb_accountId))) ∧
  (∀ k v, b.(members) !! k = Some v → is_Some (b.(accounts) !! k.1)).

Definition net_lawful (a : NetAct) n : Prop :=
  match a with
  | BillingChanges b _ => constraints b ∧ foreign_keys b
  | ClientMade client _ => n.(credentials) !! client = None ∧ owners_of client n = []       (** a client's id is drawn *)
  | ClientEdited client _ => is_Some (n.(credentials) !! client)
  | _ => True
  end.
Fixpoint lawful_run `{PeerRuntime} (acts : list (World * NetAct)) n : Prop :=
  match acts with [] => True | (w, a) :: acts => net_lawful a n ∧ lawful_run acts (net_step w a n) end.

Definition sound_net n : Prop := net_constraints n ∧ constraints n.(billing) ∧ foreign_keys n.(billing).

(** ** Relations that transactions respect *)

Definition work_ok {A} (m : Work A) (Q : A → Net → Prop) n : Prop := match m n with inr (a, n') => Q a n' | inl _ => True end.

Section work_lemmas.
Lemma wok_ret {A} (a : A) Q n : Q a n → work_ok (mret a) Q n.
Proof. done. Qed.
Lemma wok_bind {A B} (m : Work A) (f : A → Work B) Q n : work_ok m (λ a, work_ok (f a) Q) n → work_ok (m ≫= f) Q n.
Proof. unfold work_ok, mbind, work_bind. by destruct (m n) as [|[]]. Qed.
Lemma wok_mono {A} (m : Work A) (Q R : A → Net → Prop) n : work_ok m Q n → (∀ a n', Q a n' → R a n') → work_ok m R n.
Proof. unfold work_ok. destruct (m n) as [|[]]; eauto. Qed.
Lemma wok_reads {A} (f : Net → A) Q n : Q (f n) n → work_ok (reads f) Q n.
Proof. done. Qed.
Lemma wok_refuse {A} e (Q : A → Net → Prop) n : work_ok (refuses_with e) Q n.
Proof. done. Qed.
Lemma wok_writes f Q n : (net_constraints (f n) → Q () (f n)) → work_ok (writes f) Q n.
Proof. unfold work_ok, writes. destruct (decide _); auto. Qed.
Lemma wok_guard b e Q n : (b = true → Q () n) → work_ok (guard_ b e) Q n.
Proof. unfold guard_. destruct b; cbn; auto. Qed.
Lemma wok_found {A} e (o : option A) Q n : (∀ a, o = Some a → Q a n) → work_ok (found e o) Q n.
Proof. destruct o; cbn; [by intros HQ; apply HQ|done]. Qed.
Lemma wok_serializable {A} (m : Work A) Q n : work_ok m Q n → work_ok (serializable m) Q n.
Proof. unfold work_ok, serializable. by destruct (m n) as [[]|[]]. Qed.
Lemma commits_wok {A} (m : Work A) (R : Net → Net → Prop) n : R n n → work_ok m (λ _ n', R n n') n → R n (commits m n).2.
Proof. unfold work_ok, commits. by destruct (m n) as [|[]]. Qed.
End work_lemmas.

Ltac work_step :=
  match goal with
  | |- work_ok (@mbind _ _ _ _ _ _) _ _ => apply wok_bind
  | |- work_ok (mret _) _ _ => apply wok_ret
  | |- work_ok (reads _) _ _ => apply wok_reads
  | |- work_ok (refuses_with _) _ _ => apply wok_refuse
  | |- work_ok (writes _) _ _ => apply wok_writes; intros ?
  | |- work_ok (guard_ _ _) _ _ => apply wok_guard; intros ?
  | |- work_ok (found _ _) _ _ => apply wok_found; intros ? ?
  | |- work_ok (serializable _) _ _ => apply wok_serializable
  | |- work_ok (match ?x with _ => _ end) _ _ => destruct x eqn:?
  end.
Ltac work := repeat work_step.

Lemma generation_set u p n : generation_of u (put_policy u p n) = p.(po_generation).
Proof. unfold generation_of. change (policies (put_policy u p n)) with (<[u := p]> n.(policies)). by rewrite lookup_insert_eq. Qed.

(** What every write of the operations promises, but for a proven endpoint, a
    client that is made and the billing tables. *)
Class Carried (R : Net → Net → Prop) := {
  ca_po :: PreOrder R;
  ca_put_device now id new n : net_constraints (put_device now id new n) → R n (put_device now id new n);
  ca_drop_device now id n : R n (drop_device now id n);
  ca_put_credential now c v n : is_Some (n.(credentials) !! c) → R n (put_credential now c v n);
  ca_drop_credential now c n : R n (drop_credential now c n);
  ca_revoke now P n : R n (revoke_registrations now P n);
  ca_challenges m n : R n (set_challenges m n);
  ca_policy u p box n : generation_of u n <= p.(po_generation) → R n ((put_policy u p n) {{ outbox := box }}) }.
#[global] Hint Mode Carried + : typeclass_instances.

#[export] Existing Instance ca_po.

Section carried.
Context {R : Net → Net → Prop} `{!PreOrder R}.
Definition carried {A} (m : Work A) : Prop := ∀ n, work_ok m (λ _ n', R n n') n.

Lemma carried_bind {A B} (m : Work A) (f : A → Work B) : carried m → (∀ a, carried (f a)) → carried (m ≫= f).
Proof.
  intros Hm Hf n. apply wok_bind. eapply wok_mono; [apply Hm|]. intros a n1 Hr1. eapply wok_mono; [apply Hf|]. intros c n2 Hr2.
  etrans; [exact Hr1|exact Hr2].
Qed.
Lemma carried_ret {A} (a : A) : carried (mret a).
Proof. intros n. apply wok_ret. reflexivity. Qed.
Lemma carried_reads {A} (f : Net → A) : carried (reads f).
Proof. intros n. apply wok_reads. reflexivity. Qed.
Lemma carried_refuse {A} e : carried (A:=A) (refuses_with e).
Proof. done. Qed.
Lemma carried_guard b e : carried (guard_ b e).
Proof. intros n. apply wok_guard. reflexivity. Qed.
Lemma carried_found {A} e (o : option A) : carried (found e o).
Proof. intros n. apply wok_found. reflexivity. Qed.
Lemma carried_writes f : (∀ n, net_constraints (f n) → R n (f n)) → carried (writes f).
Proof. intros Hf n. apply wok_writes, Hf. Qed.
Lemma carried_serializable {A} (m : Work A) : carried m → carried (serializable m).
Proof. intros Hm n. apply wok_serializable, Hm. Qed.
Lemma carried_commits {A} (m : Work A) n : carried m → R n (commits m n).2.
Proof. intros Hm. apply commits_wok; [reflexivity|apply Hm]. Qed.
Lemma carried_foldl {X} (f : Net → X → Net) (l : list X) n : (∀ n x, R n (f n x)) → R n (foldl f n l).
Proof. intros Hf. revert n. induction l as [|x l IH]; intros n; [reflexivity|]. cbn. etrans; [apply Hf|apply IH]. Qed.
End carried.

Create HintDb carried.
Ltac carry_step :=
  match goal with
  | |- carried (@mbind _ _ _ _ _ _) => apply carried_bind; [|intros ?]
  | |- carried (mret _) => apply carried_ret
  | |- carried (reads _) => apply carried_reads
  | |- carried (refuses_with _) => apply carried_refuse
  | |- carried (guard_ _ _) => apply carried_guard
  | |- carried (found _ _) => apply carried_found
  | |- carried (serializable _) => apply carried_serializable
  | |- carried (writes _) => apply carried_writes; intros ? ?
  | |- carried (match ?x with _ => _ end) => destruct x
  | |- carried ?m =>
      first [solve [eauto with carried] | let rec head t := lazymatch t with ?f _ => head f | _ => t end in let h := head m in unfold h]
  end.
Ltac carry := repeat carry_step.

Section steps.
Context `{PeerRuntime} (w : World) `{Carried R}.

Lemma update_device_carried id f : carried (R:=R) (update_device w id f).
Proof. carry; by apply ca_put_device. Qed.
#[local] Hint Resolve update_device_carried : carried.
Lemma create_device_carried d : carried (R:=R) (create_device w d).
Proof. carry; by apply ca_put_device. Qed.
#[local] Hint Resolve create_device_carried : carried.

Lemma sync_policy_carried u urls : carried (R:=R) (sync_policy u urls).
Proof.
  intros n. unfold sync_policy. do 2 work_step.
  apply wok_bind. eapply (wok_mono _ (λ p n', R n n' ∧ generation_of u n' = p.(po_generation))).
  - destruct (policies n !! u) as [p|] eqn:E.
    + work. split; [reflexivity|]. unfold generation_of. by rewrite E.
    + work. split.
      * apply (ca_policy u _ n.(outbox) n). unfold generation_of. by rewrite E.
      * by rewrite generation_set.
  - intros p n1 [Hr Hg]. destruct (bool_decide _); [by apply wok_ret|]. work. etrans; [exact Hr|]. apply ca_policy. cbn. lia.
Qed.
#[local] Hint Resolve sync_policy_carried : carried.
Lemma snapshot_carried i urls ins : carried (R:=R) (authorizationSnapshot w i urls ins).
Proof. carry. Qed.
#[local] Hint Resolve snapshot_carried : carried.

Lemma delete_devices_carried u : carried (R:=R) (delete_devices w u).
Proof. carry; apply carried_foldl; intros; [apply ca_drop_credential|apply ca_drop_device]. Qed.
Lemma challenge_carried i e g : carried (R:=R) (createEndpointChallenge w i e g).
Proof. carry; apply ca_challenges. Qed.
Lemma heartbeat_carried u de m nm : carried (R:=R) (heartbeat w u de m nm).
Proof. carry. Qed.
Lemma revoke_client_carried u id : carried (R:=R) (revoke_client w u id).
Proof. carry; apply ca_drop_credential. Qed.

(** Every act but the three that need more. *)
Lemma step_carried a n :
  net_lawful a n → match a with BillingChanges _ _ | ClientMade _ _ | EndpointRegisters _ _ _ _ => False | _ => True end → R n (net_step w a n).
Proof.
  intros Hl Ha. destruct a; try done; cbn [net_step].
  - apply commits_wok; [reflexivity|]. apply wok_writes. intros _. by apply ca_put_credential.
  - apply carried_commits. carry. apply ca_drop_credential.
  - apply carried_commits. carry.
  - apply carried_commits. carry.
  - apply carried_commits, revoke_client_carried.
  - apply carried_commits. carry.
  - apply carried_commits, heartbeat_carried.
  - apply carried_commits, delete_devices_carried.
  - apply carried_commits, challenge_carried.
  - apply carried_commits. carry.
  - unfold admitRelayEndpoint. assert (carried (R:=R) (resolveRelayEndpointAdmission w endpointId relayUrl relayUrls insecure)) as Hc by carry.
    specialize (carried_commits _ n Hc) as Hr. by destruct (commits _ _) as [[[]|] n'].
  - apply carried_commits. carry.
  - apply carried_commits. carry.
  - apply carried_commits. carry.
Qed.
End steps.

(** Every write is checked, so the constraints hold at every moment. *)
Definition constrained n n' : Prop := net_constraints n → net_constraints n'.
#[global] Instance constrained_preorder : PreOrder constrained.
Proof. split; unfold constrained; red; auto. Qed.
Lemma step_constrained `{PeerRuntime} w a : ∀ n, constrained n (net_step w a n).
Proof.
  intros n. destruct a; cbn [net_step]; try (apply carried_commits; carry; by intros _).
  - intros Hn. unfold change_billing. generalize (remove_dups (billing_users (billing n) b) ++ more). intros us.
    assert (net_constraints (set_billing b n)) as Hs by done. revert Hs. generalize (set_billing b n). unfold invalidate_all.
    induction us as [|u us IH]; intros n' Hn'; [done|]. by apply IH.
  - unfold admitRelayEndpoint. assert (carried (R:=constrained) (resolveRelayEndpointAdmission w endpointId relayUrl relayUrls insecure)) as Hc by (carry; by intros _).
    specialize (carried_commits _ n Hc) as Hr. by destruct (commits _ _) as [[[]|] n'].
Qed.

(** ** A registration that succeeds *)

Section registration.
Context `{PeerRuntime} (w : World) (i : Identity) (challengeId deviceSignature endpointSignature : string).

(** What it was given: an open challenge of an identity that stands, signed with
    the device's key and with the endpoint's, for an endpoint never registered. *)
Record proves (c : Challenge) (d : Device) n : Prop := {
  pv_stands : standing_device i n = Some d;
  pv_challenge : n.(challenges) !! challengeId = Some c;
  pv_open : open_challenge w i c = true;
  pv_signed : ∃ message, endpointChallengeBytes (challenge_of challengeId c) = Some message ∧
    both_signed deviceSignature endpointSignature message d.(dv_publicKey) c.(ch_endpointId) = true;
  pv_latest : generation i.(id_enrollmentId) n = c.(ch_expectedGeneration);
  pv_new : n.(registrations) !! c.(ch_endpointId) = None }.

Definition consumed (c : Challenge) n : Net := set_challenges (<[challengeId := c {{ ch_consumedAt := Some w.(w_now) }}]> n.(challenges)) n.
Definition cleared (c : Challenge) n : Net :=
  revoke_registrations w.(w_now) (λ r, bool_decide (r.(rg_enrollmentId) = i.(id_enrollmentId))) (consumed c n).
Definition issued (c : Challenge) : Registration := {|
  rg_userId := c.(ch_userId); rg_deviceId := c.(ch_deviceId); rg_enrollmentId := c.(ch_enrollmentId);
  rg_generation := c.(ch_expectedGeneration) + 1; rg_revokedAt := None |}.

Lemma registerEndpoint_spec n :
  work_ok (registerEndpoint w i challengeId deviceSignature endpointSignature)
    (λ _ n', ∃ c d, proves c d n ∧ n' = insert_registration c.(ch_endpointId) (issued c) (cleared c n)) n.
Proof.
  unfold registerEndpoint, currentIdentity. work. conditions.
  match goal with Hrow : (n.(challenges) !! challengeId) ≫= _ = Some ?c |- _ =>
    destruct (n.(challenges) !! challengeId) as [c'|] eqn:Ec; [cbn in Hrow|done]; destruct (open_challenge w i c') eqn:Eo; [injection Hrow as ->|done];
    exists c end.
  eexists. split; [|done]. constructor; eauto; by apply Z.eqb_eq.
Qed.
End registration.

(** * Two devices that meet

    A signature one can compute, and an account's agent and app that enroll and
    prove their endpoints; the witnesses of the peer authority are evaluated on
    them. *)

(** The sum of the message, over the key. *)
Definition demo_sign (key message : bytes) : bytes := (foldr Z.add 0 message) `mod` 256 :: key.
#[global] Instance demo_peers : PeerRuntime := {|
  parse_text := λ _, None;
  verifyAsync := λ s m k, Some (bool_decide (s = demo_sign k m));
  config_hash := λ urls, foldr (λ u s, u +:+ "," +:+ s) "" urls;
  is_uuid := λ s, 1 <=? strlen s;
  is_url := λ s, 1 <=? strlen s;
  new_URL := λ s, Some {| ur_protocol := String.substring 0 6 s; ur_hostname := s; ur_username := ""; ur_password := ""; ur_search := ""; ur_hash := "";
    ur_pathname := "/" |} |}.

Module PeerDemo.
Definition at_ (now : Z) : World := {| w_now := now; w_uuid := λ k, "row-" +:+ BillingDemo.digit k; w_token := b64_encode (replicate 32 (now `mod` 256)) |}.

(** Ann's account has a subscription that ends at 1000000. *)
Definition paid : Subscription := {|
  sb_accountId := "A"; sb_planId := "p-pro"; sb_provider := None; sb_providerSubscriptionId := None; sb_providerTransactionId := None;
  sb_tier := "pro"; sb_status := ACTIVE; sb_workerLimit := 10; sb_appDeviceLimit := 10; sb_seats := 3; sb_capabilities := JObj [];
  sb_promotional := false; sb_trialStartedAt := None; sb_trialEndsAt := None; sb_currentPeriodEnd := Some 1000000; sb_cancelledAt := None;
  sb_createdAt := 0; sb_updatedAt := 0 |}.
Definition books : DB := set_subs (<["s1" := paid]> ∅) BillingDemo.start.
Definition start : Net := {|
  billing := books; devices := ∅; credentials := ∅; registrations := ∅; challenges := ∅; policies := ∅; outbox := [] |}.

Definition key (k : Z) : bytes := replicate 32 k.
Fixpoint hex_of (b : bytes) : string :=
  let hex x := String (Ascii.ascii_of_nat (Z.to_nat (if x <? 10 then 48 + x else 87 + x))) EmptyString in
  match b with [] => "" | x :: b => hex (x / 16) +:+ hex (x mod 16) +:+ hex_of b end.
Definition endpoint (k : Z) : string := hex_of (key k).

Definition device (name kind : string) (k : Z) : NewDevice := {|
  nd_userId := "ann"; nd_deviceId := name; nd_publicKey := key k; nd_kind := kind; nd_platform := "linux"; nd_displayName := name |}.
Definition client (name : string) (k : Z) : Credential := {|
  cr_userId := Some "ann"; cr_disabled := false; cr_grantTypes := ["client_credentials"];
  cr_metadata := JObj [("userId", JStr "ann"); ("deviceUuid", JStr name); ("ed25519Pub", JStr (b64_encode (key k)))] |}.
Definition identity (row name : string) (kind : string) (k : Z) : Identity := {|
  id_id := row; id_userId := "ann"; id_deviceId := name; id_enrollmentId := "c-" +:+ name; id_publicKey := key k; id_kind := kind |}.

(** A device registers, gets a client and enrolls. *)
Definition enrolls (now : Z) (name kind : string) (k : Z) : list (World * NetAct) :=
  [(at_ now, DeviceRegisters (device name kind k) 5 5); (at_ now, ClientMade ("c-" +:+ name) (client name k));
   (at_ now, DeviceEnrolls (device name kind k) None ("c-" +:+ name))].

(** It asks for a challenge and signs it, with its key [k] and the endpoint's [e]. *)
Definition signed (now : Z) (i : Identity) (e g : Z) : NetAct :=
  match endpointChallengeBytes {|
    ec_challengeId := "row-0"; ec_challenge := b64_encode (replicate 32 (now `mod` 256)); ec_accountId := "ann"; ec_deviceId := i.(id_deviceId);
    ec_enrollmentId := i.(id_enrollmentId); ec_endpointId := endpoint e; ec_expectedGeneration := g |} with
  | Some m => EndpointRegisters i "row-0" (b64_encode (demo_sign i.(id_publicKey) m)) (b64_encode (demo_sign (key e) m))
  | None => EndpointRegisters i "row-0" "" ""
  end.
Definition connects (now : Z) (i : Identity) (e g : Z) : list (World * NetAct) :=
  [(at_ now, ChallengeAsked i (endpoint e) g); (at_ (now + 1), signed now i e g)].

Definition agent : Identity := identity "row-0" "box" "agent" 1.
Definition phone : Identity := identity "row-1" "phone" "app" 2.
Definition urls : list string := ["https://relay/"].

Definition enrolled : list (World * NetAct) := enrolls 10 "box" "agent" 1 ++ enrolls 20 "phone" "app" 2.
Definition agent_connects : list (World * NetAct) := connects 30 agent 3 0.
Definition met : Net := net_run (enrolled ++ agent_connects) start.
(** The agent lets itself be found; Bob's account is then closed, and the agent
    tells its name. *)
Definition found : list (World * NetAct) := enrolled ++ agent_connects ++ [(at_ 40, DeviceBeats "ann" "box" (Some true) None)].
Definition visible : Net := net_run found start.
Definition bob_leaves : DB := set_accounts (<["B" := {| ac_userId := "bob"; ac_deletedAt := Some 55 |}]> books.(accounts)) books.
Definition meanwhile : list (World * NetAct) := [(at_ 55, BillingChanges bob_leaves []); (at_ 56, DeviceBeats "ann" "box" None (Some "box.local"))].
End PeerDemo.

(** The laws of a run, step by step. *)
Ltac lawful := repeat (split; [solve [exact I | split; vm_compute; reflexivity]|]); exact I.

Lemma demo_keys b :
  subs b = subs PeerDemo.books → members b = members PeerDemo.books → is_Some (b.(accounts) !! "A") → is_Some (b.(accounts) !! "B") → foreign_keys b.
Proof.
  intros Hs Hm Ha Hb. split.
  - intros id s. rewrite Hs. change (subs PeerDemo.books) with (<["s1" := PeerDemo.paid]> (∅ : gmap string Subscription)).
    intros [[_ <-]|[_ Hn]]%lookup_insert_Some; [exact Ha|by rewrite lookup_empty in Hn].
  - intros k v. rewrite Hm.
    change (members PeerDemo.books) with (<[("A", "ann") := BillingDemo.owner_row]> (<[("B", "bob") := BillingDemo.owner_row]> (∅ : gmap (string * string) AccountMember))).
    intros [[<- _]|[_ Hk]]%lookup_insert_Some; [exact Ha|]. apply lookup_insert_Some in Hk as [[<- _]|[_ Hk]]; [exact Hb|by rewrite lookup_empty in Hk].
Qed.
Lemma demo_sound : sound_net PeerDemo.start.
Proof.
  split; [apply (bool_decide_unpack _); vm_compute; exact I|]. split; [apply (bool_decide_unpack _); vm_compute; exact I|].
  by apply demo_keys; [..|eexists|eexists].
Qed.
Lemma demo_found : lawful_run PeerDemo.found PeerDemo.start.
Proof. lawful. Qed.
Lemma demo_meanwhile n : lawful_run PeerDemo.meanwhile n.
Proof.
  split; [|by split]. split; [apply (bool_decide_unpack _); vm_compute; exact I|]. by apply demo_keys; [..|eexists|eexists].
Qed.

Example local_relay_hosts :
  isLocalRelayHost <$> ["localhost"; "10.1.2.3"; "172.31.0.1"; "172.32.0.1"; "8.8.8.8"; "10.1.2.300"; "[::1]"; "[fd00::1]"; "[fe90::1]"; "[2001::1]"; "fc.example"] =
  [true; true; true; false; false; false; true; true; true; false; false].
Proof. vm_compute. reflexivity. Qed.
