(* ===== verification/PeerPolicy.v ===== *)
(** * PeerPolicy: what a policy's generation pins down

    A peer is told its policy's generation with its snapshot, and keeps the
    snapshot while the generation stands.  Every step that changes a user's devices,
    clients or endpoints, or lets the user in who was not, raises the user's
    generation: [raises]. *)

From S2P Require Import Prelude JsMap Buffers Wire BillingDb Billing BillingContracts Devices PeerAuthority PeerSystem.
From stdpp Require Import sorting gmap.
From coqutil Require Import Datatypes.RecordSetters.
Import DoubleBraceUpdate.
#[local] Set Warnings "-notation-overridden".
Local Open Scope Z_scope.
Local Open Scope js_scope.
Implicit Types (n : Net) (u : string) (d : Device).

(** ** Generations only grow *)

Section generations.
Lemma invalidate_rest u n :
  billing (invalidate_peer_policy u n) = billing n ∧ devices (invalidate_peer_policy u n) = devices n ∧ credentials (invalidate_peer_policy u n) = credentials n ∧
  registrations (invalidate_peer_policy u n) = registrations n.
Proof. done. Qed.
Lemma generation_invalidate u v n : generation_of u (invalidate_peer_policy v n) = generation_of u n + (if decide (u = v) then 1 else 0).
Proof.
  unfold generation_of at 1. change (policies (invalidate_peer_policy v n)) with
    (<[v := {| po_generation := generation_of v n + 1; po_relayConfigHash := p ← n.(policies) !! v; p.(po_relayConfigHash) |}]> n.(policies)).
  case_decide as Huv; [subst; rewrite lookup_insert_eq; done|]. rewrite lookup_insert_ne by done. change (generation_of u n = generation_of u n + 0). lia.
Qed.
Lemma invalidate_all_cons v us n : invalidate_all (v :: us) n = invalidate_all us (invalidate_peer_policy v n).
Proof. done. Qed.
Lemma generation_invalidate_all u us n : generation_of u n <= generation_of u (invalidate_all us n).
Proof.
  revert n. induction us as [|v us IH]; intros n; [done|]. rewrite invalidate_all_cons. specialize (IH (invalidate_peer_policy v n)).
  rewrite generation_invalidate in IH. case_decide; lia.
Qed.
Lemma generation_raised u us n : u ∈ us → generation_of u n < generation_of u (invalidate_all us n).
Proof.
  revert n. induction us as [|v us IH]; intros n; [by intros ?%not_elem_of_nil|]. rewrite invalidate_all_cons. intros [<-|Hu]%elem_of_cons.
  - pose proof (generation_invalidate_all u us (invalidate_peer_policy u n)) as Hg. rewrite generation_invalidate, decide_True in Hg by done. lia.
  - specialize (IH (invalidate_peer_policy v n) Hu). rewrite generation_invalidate in IH. case_decide; lia.
Qed.
Lemma invalidate_all_rest us n :
  billing (invalidate_all us n) = billing n ∧ devices (invalidate_all us n) = devices n ∧ credentials (invalidate_all us n) = credentials n ∧
  registrations (invalidate_all us n) = registrations n.
Proof. revert n. induction us as [|v us IH]; intros n; [done|]. rewrite invalidate_all_cons. destruct (IH (invalidate_peer_policy v n)) as (-> & -> & -> & ->). done. Qed.
End generations.

(** ** What a user's snapshots are drawn from *)

Section views.
Context `{PeerRuntime} (u : string).

Definition owned n (id : string) :=
  d ← n.(devices) !! id; if decide (d.(dv_userId) = u) then Some (watched_columns d, credential_bound n d) else None.
Definition enrolled n (e : string) : option Registration :=
  r ← n.(registrations) !! e; if decide (r.(rg_userId) = u ∧ r.(rg_revokedAt) = None) then Some r else None.

Record agree n n' : Prop := {
  ag_owned id : owned n id = owned n' id;
  ag_enrolled e : enrolled n e = enrolled n' e;
  ag_allowed (w : World) : accountAllowed w u n' = true → accountAllowed w u n = true }.
#[global] Instance agree_preorder : PreOrder agree.
Proof. split; [constructor; done|]. intros ? ? ? [] []. constructor; [intros; etrans; eauto|intros; etrans; eauto|eauto]. Qed.

Definition raises n n' : Prop := generation_of u n <= generation_of u n' ∧ (generation_of u n = generation_of u n' → agree n n').
#[global] Instance raises_preorder : PreOrder raises.
Proof.
  split; [by split|]. intros n n1 n2 [Hg Ha] [Hg' Ha']. split; [lia|]. intros Hgg. etrans; [apply Ha; lia|apply Ha'; lia].
Qed.

Lemma raises_strict n n' : generation_of u n < generation_of u n' → raises n n'.
Proof. split; lia. Qed.
Lemma raises_agree n n' : generation_of u n = generation_of u n' → agree n n' → raises n n'.
Proof. split; [lia|done]. Qed.

Lemma agree_rest n n' :
  billing n' = billing n → devices n' = devices n → credentials n' = credentials n → registrations n' = registrations n → agree n n'.
Proof.
  intros Hb Hd Hc Hr. constructor.
  - intros id. unfold owned, credential_bound. by rewrite Hd, Hc.
  - intros e. unfold enrolled. by rewrite Hr.
  - intros w. unfold accountAllowed, activeSubscriptionForUser. by rewrite Hb.
Qed.
Lemma agree_invalidate_all us n : agree n (invalidate_all us n).
Proof. destruct (invalidate_all_rest us n) as (? & ? & ? & ?). by apply agree_rest. Qed.

(** The rule for a write that is followed by its trigger. *)
Lemma raises_invalidate_all us n n1 : generation_of u n1 = generation_of u n → (u ∉ us → agree n n1) → raises n (invalidate_all us n1).
Proof.
  intros Hg Ha. destruct (decide (u ∈ us)) as [Hu|Hu].
  - apply raises_strict. rewrite <-Hg. by apply generation_raised.
  - split; [rewrite <-Hg; apply generation_invalidate_all|]. intros _. etrans; [by apply Ha|apply agree_invalidate_all].
Qed.
Lemma raises_invalidate v n n1 : generation_of u n1 = generation_of u n → (u ≠ v → agree n n1) → raises n (invalidate_peer_policy v n1).
Proof. intros Hg Ha. apply (raises_invalidate_all [v]); [done|]. set_solver. Qed.
Lemma raises_later v n : raises n (invalidate_peer_policy v n).
Proof. by apply raises_invalidate. Qed.
Lemma raises_at v n n1 : u = v → generation_of u n <= generation_of u n1 → raises n (invalidate_peer_policy v n1).
Proof. intros <- Hg. apply raises_strict. rewrite generation_invalidate, decide_True by done. lia. Qed.

(** *** Devices, clients, registrations *)

Lemma revoke_raises now P n : raises n (revoke_registrations now P n).
Proof.
  unfold revoke_registrations. apply raises_invalidate_all; [done|]. intros Hu. constructor; [done| |done].
  intros e. unfold enrolled. change (registrations (set_registrations ?m n)) with m. rewrite lookup_update_where.
  destruct (registrations n !! e) as [r|] eqn:Er; [|done]. cbn. unfold standing. destruct (P r) eqn:EP; [|done].
  destruct (decide (rg_revokedAt r = None)) as [Hn|Hn]; [|rewrite (bool_decide_false _ Hn); done].
  rewrite (bool_decide_true _ Hn). cbn. rewrite !decide_False; [done| |]; [naive_solver|].
  intros [Hru _]. apply Hu, list_elem_of_fmap. exists (e, r). split; [done|]. apply elem_of_rows. split; [done|]. unfold standing. by rewrite EP, bool_decide_true.
Qed.

Lemma owned_watched n d d' : watched_columns d = watched_columns d' → credential_bound n d = credential_bound n d'.
Proof. unfold watched_columns, credential_bound. intros [= E1 E2 E3 E4 E5 E6 E7]. by rewrite E1, E2, E3, E4. Qed.

Lemma devices_agree m n : (∀ id, owned n id = owned (set_devices m n) id) → agree n (set_devices m n).
Proof. constructor; done. Qed.

Lemma put_device_raises now id new n : raises n (put_device now id new n).
Proof.
  unfold put_device. set (put := set_devices _ _).
  assert (∀ v, v ≠ id → owned n v = owned put v) as Hne.
  { intros v Hv. unfold owned, put. change (devices (set_devices ?m n)) with m. by rewrite lookup_insert_ne by done. }
  assert (owned put id = if decide (new.(dv_userId) = u) then Some (watched_columns new, credential_bound n new) else None) as Hput.
  { unfold owned, put. change (devices (set_devices ?m n)) with m. by rewrite lookup_insert_eq. }
  destruct (devices n !! id) as [old|] eqn:Eo.
  - case_bool_decide as Hw.
    + apply raises_agree; [done|]. apply devices_agree. intros v. fold put. destruct (decide (v = id)) as [->|Hv]; [|by apply Hne].
      rewrite Hput. unfold owned. rewrite Eo. cbn. rewrite (owned_watched n old new Hw), Hw. unfold watched_columns in Hw. by replace (dv_userId old) with (dv_userId new) by congruence.
    + set (n1 := if same_identity old new then put else _). set (n2 := if bool_decide _ then n1 else _).
      assert (raises put n1) as H1 by (unfold n1; destruct (same_identity _ _); [reflexivity|apply revoke_raises]).
      assert (raises n1 n2) as H2 by (unfold n2; case_bool_decide; [reflexivity|apply raises_later]).
      destruct (decide (u = new.(dv_userId))) as [Hu|Hu].
      { apply raises_at; [done|]. change (generation_of u n) with (generation_of u put). destruct H1, H2. lia. }
      destruct (decide (u = old.(dv_userId))) as [Hu'|Hu'].
      { assert (generation_of u n < generation_of u n2) as Hlt.
        { unfold n2. rewrite bool_decide_false by congruence. rewrite generation_invalidate, decide_True by done.
          change (generation_of u n) with (generation_of u put). destruct H1. lia. }
        etrans; [by apply raises_strict|apply raises_later]. }
      assert (raises n put) as H0.
      { apply raises_agree; [done|]. apply devices_agree. intros v. fold put. destruct (decide (v = id)) as [->|Hv]; [|by apply Hne].
        rewrite Hput, decide_False by done. unfold owned. rewrite Eo. cbn. by rewrite decide_False. }
      etrans; [exact H0|]. etrans; [exact H1|]. etrans; [exact H2|]. apply raises_later.
  - apply raises_invalidate; [done|]. intros Hu. apply devices_agree. intros v. fold put. destruct (decide (v = id)) as [->|Hv]; [|by apply Hne].
    rewrite Hput, decide_False by done. unfold owned. by rewrite Eo.
Qed.

Lemma drop_device_raises now id n : raises n (drop_device now id n).
Proof.
  unfold drop_device. destruct (devices n !! id) as [old|] eqn:Eo; [|reflexivity]. set (dropped := set_devices _ _).
  pose proof (revoke_raises now (of_client old.(dv_oauthClientId)) dropped) as [Hg Ha].
  destruct (decide (u = old.(dv_userId))) as [Hu|Hu]; [by apply raises_at|].
  etrans; [|apply raises_later]. etrans; [|by split]. apply raises_agree; [done|]. apply devices_agree. intros v. fold dropped.
  unfold owned, dropped. change (devices (set_devices ?m n)) with m. destruct (decide (v = id)) as [->|Hv].
  - rewrite Eo, lookup_delete_eq. cbn. by rewrite decide_False.
  - by rewrite lookup_delete_ne.
Qed.

Lemma elem_of_owners v client n : v ∈ owners_of client n ↔ ∃ id d, n.(devices) !! id = Some d ∧ d.(dv_oauthClientId) = Some client ∧ d.(dv_userId) = v.
Proof.
  unfold owners_of. rewrite elem_of_remove_dups, list_elem_of_fmap. split.
  - intros ([id d] & -> & [Hd Hc]%elem_of_rows). conditions. eauto.
  - intros (id & d & Hd & Hc & <-). exists (id, d). split; [done|]. apply elem_of_rows. by rewrite bool_decide_true.
Qed.
Lemma credentials_agree client m n :
  u ∉ owners_of client n → (∀ c, c ≠ client → m !! c = n.(credentials) !! c) → agree n (set_credentials m n).
Proof.
  intros Hu Hm. constructor; [|done|done]. intros id. unfold owned. change (devices (set_credentials m n)) with (devices n).
  destruct (devices n !! id) as [d|] eqn:Ed; [|done]. cbn -[set_credentials]. case_decide as Hd; [|done]. do 2 f_equal. unfold credential_bound.
  change (credentials (set_credentials m n)) with m. destruct (dv_oauthClientId d) as [c|] eqn:Ec; [|done]. cbn. rewrite Hm; [done|].
  intros ->. apply Hu, elem_of_owners. eauto.
Qed.
Lemma changed_raises now client m n :
  (∀ c, c ≠ client → m !! c = n.(credentials) !! c) → raises n (credential_changed now client (set_credentials m n)).
Proof.
  intros Hm. unfold credential_changed. change (owners_of client (set_credentials m n)) with (owners_of client n).
  destruct (decide (u ∈ owners_of client n)) as [Hu|Hu].
  - destruct (owners_of client n) as [|v vs] eqn:Eo; [by apply not_elem_of_nil in Hu|]. rewrite <-Eo in Hu |- *.
    apply raises_strict. eapply Z.le_lt_trans; [|apply generation_raised, Hu].
    destruct (revoke_raises now (of_client (Some client)) (set_credentials m n)) as [Hg _]. done.
  - etrans; [apply (raises_agree n (set_credentials m n)); [done|by apply (credentials_agree client)]|]. destruct (owners_of client n) as [|v vs]; [reflexivity|].
    etrans; [apply revoke_raises|]. by apply raises_invalidate_all.
Qed.
Lemma put_credential_raises now client c n :
  is_Some (n.(credentials) !! client) ∨ owners_of client n = [] → raises n (put_credential now client c n).
Proof.
  intros Hl. unfold put_credential.
  assert (∀ c', c' ≠ client → <[client := c]> n.(credentials) !! c' = n.(credentials) !! c') as Hm by (intros; by rewrite lookup_insert_ne).
  destruct (credentials n !! client) as [c0|]; [by apply changed_raises|]. destruct Hl as [[? ?]|Ho]; [done|].
  apply raises_agree; [done|]. apply (credentials_agree client); [rewrite Ho; apply not_elem_of_nil|done].
Qed.
Lemma drop_credential_raises now client n : raises n (drop_credential now client n).
Proof.
  unfold drop_credential. destruct (credentials n !! client); [|reflexivity]. apply changed_raises. intros. by rewrite lookup_delete_ne.
Qed.
Lemma insert_registration_raises e r n : n.(registrations) !! e = None → raises n (insert_registration e r n).
Proof.
  intros He. apply raises_invalidate; [done|]. intros Hu. constructor; [done| |done]. intros e'. unfold enrolled.
  change (registrations (set_registrations ?m n)) with m. destruct (decide (e' = e)) as [->|Hne]; [|by rewrite lookup_insert_ne].
  rewrite He, lookup_insert_eq. cbn. rewrite decide_False; naive_solver.
Qed.

#[global] Instance raises_carried : Carried raises.
Proof.
  split; [apply _| | | | | | |].
  - intros. apply put_device_raises.
  - apply drop_device_raises.
  - intros. apply put_credential_raises. by left.
  - apply drop_credential_raises.
  - apply revoke_raises.
  - intros m n. by apply raises_agree.
  - intros v p box n Hp. set (n' := _ {{ outbox := _ }}). assert (generation_of u n' = generation_of u (put_policy v p n)) as Hg by done.
    destruct (decide (u = v)) as [<-|Hv].
    + split; [rewrite Hg, generation_set; exact Hp|]. intros _. by apply agree_rest.
    + apply raises_agree; [|by apply agree_rest]. rewrite Hg. unfold generation_of.
      change (policies (put_policy v p n)) with (<[v := p]> n.(policies)). by rewrite lookup_insert_ne.
Qed.
End views.

(** * A snapshot holds while its generation does

    A user whom a billing transaction does not invalidate is entitled after it only
    if entitled before; so every step of the system respects [raises], and two snapshots of
    one policy generation name the same peers. *)

(** ** Entitlement and billing transactions *)

Section entitlement.
Context (u : string).
Implicit Types (b : DB).

Lemma elem_of_differences {K V} `{Countable K, EqDecision V} (m m' : gmap K V) k :
  m !! k ≠ m' !! k → (k, (m !! k, m' !! k)) ∈ differences m m'.
Proof.
  intros Hk. unfold differences. apply list_elem_of_fmap. exists k. split; [done|]. apply list_elem_of_filter. split; [done|].
  apply elem_of_elements, elem_of_union. rewrite !elem_of_dom. destruct (m !! k); [eauto|]. destruct (m' !! k); [eauto|done].
Qed.

(** A user an account is billed for: its holder, or a member. *)
Definition billed_to (a : string) b : Prop := (∃ acc, b.(accounts) !! a = Some acc ∧ acc.(ac_userId) = u) ∨ is_Some (b.(members) !! (a, u)).
Lemma elem_of_account_users a b : u ∈ account_users a b ↔ billed_to a b.
Proof.
  unfold account_users, member_users, billed_to. rewrite elem_of_app, list_elem_of_fmap.
  split.
  - intros [Hh|([[a' u'] v] & -> & [Hv Ha]%elem_of_rows)].
    + left. destruct (accounts b !! a) as [acc|]; [|by apply not_elem_of_nil in Hh]. apply list_elem_of_singleton in Hh as ->. eauto.
    + right. conditions. cbn in *. subst. eauto.
  - intros [(acc & -> & <-)|[v Hv]]; [left; by apply list_elem_of_singleton|]. right. exists ((a, u), v). split; [done|].
    apply elem_of_rows. split; [done|]. by rewrite bool_decide_true.
Qed.

Context (b b' : DB) (Hu : u ∉ billing_users b b').

Lemma users_at_billed a : is_Some (b'.(accounts) !! a) → u ∉ users_at b b' (Some a) → ¬ (billed_to a b ∨ billed_to a b').
Proof. intros [acc Ha]. rewrite <-!elem_of_account_users. cbn. rewrite Ha. set_solver. Qed.

Lemma not_concerned {X} (f : X → list string) l x : u ∉ concat (f <$> l) → x ∈ l → u ∉ f x.
Proof. intros Hn Hx Hf. apply Hn. apply list_elem_of_In, List.in_concat. exists (f x). rewrite <-!list_elem_of_In. by split; [apply list_elem_of_fmap_2|]. Qed.

Lemma same_member a : b.(members) !! (a, u) = b'.(members) !! (a, u).
Proof.
  destruct (decide (b.(members) !! (a, u) = b'.(members) !! (a, u))) as [He|Hne]; [done|]. exfalso. apply Hu. unfold billing_users.
  apply elem_of_app. right. apply elem_of_app. left. apply list_elem_of_fmap. eexists. split; [|by apply elem_of_differences]. done.
Qed.
(** An account that is still there is the one it was. *)
Lemma same_account a acc :
  b.(accounts) !! a = Some acc → is_Some (b'.(accounts) !! a) → acc.(ac_userId) = u ∨ billed_to a b ∨ billed_to a b' →
  b'.(accounts) !! a = Some acc.
Proof.
  intros Ha Hthere Hb. destruct (decide (b.(accounts) !! a = b'.(accounts) !! a)) as [He|Hne]; [by rewrite <-He|]. exfalso.
  unfold billing_users in Hu. assert (u ∉ concat (account_changes b b' <$> differences b.(accounts) b'.(accounts))) as Hc by set_solver.
  apply elem_of_differences, (not_concerned _ _ _ Hc) in Hne. unfold account_changes in Hne. cbn -[users_at] in Hne.
  rewrite Ha in Hne. destruct Hthere as [acc' Ha']. rewrite Ha' in Hne.
  apply not_elem_of_cons in Hne as [Hn1 Hn2]. destruct Hb as [Hb|Hb]; [congruence|]. by apply (users_at_billed a).
Qed.
(** A subscription of an account that is still there is the one it was. *)
Lemma same_sub id s a :
  s.(sb_accountId) = a → is_Some (b'.(accounts) !! a) → b.(subs) !! id = Some s ∨ b'.(subs) !! id = Some s →
  billed_to a b ∨ billed_to a b' → b.(subs) !! id = b'.(subs) !! id.
Proof.
  intros Hs Hthere Hid Hb. destruct (decide (b.(subs) !! id = b'.(subs) !! id)) as [He|Hne]; [done|]. exfalso.
  unfold billing_users in Hu. assert (u ∉ concat (subscription_users b b' <$> differences b.(subs) b'.(subs))) as Hc by set_solver.
  apply elem_of_differences, (not_concerned _ _ _ Hc) in Hne. unfold subscription_users in Hne. cbn -[users_at] in Hne.
  apply not_elem_of_app in Hne as [Hn1 Hn2].
  destruct Hid as [Hid|Hid]; [rewrite Hid in Hn1|rewrite Hid in Hn2]; subst a; by eapply users_at_billed.
Qed.

(** *** Being entitled *)

Context (Hc : constraints b) (Hc' : constraints b') (Hf : foreign_keys b).

Lemma membership_same : find_one (active_member (of_user u)) b.(members) = find_one (active_member (of_user u)) b'.(members).
Proof.
  assert (∀ m m' : gmap (string * string) AccountMember, unique_by active_of m' → (∀ a, m !! (a, u) = m' !! (a, u)) →
    ∀ x, find_one (active_member (of_user u)) m = Some x → find_one (active_member (of_user u)) m' = Some x) as Hone.
  { intros m m' Hq Hm [[a u'] v] [Hv Ha]%find_one_Some. unfold active_member, of_user in Ha. conditions. cbn in *. subst u'. rewrite Hm in Hv.
    destruct (find_one _ m') as [[[a2 u2] v2]|] eqn:E2.
    - apply find_one_Some in E2 as [Hv2 Ha2]. unfold active_member, of_user in Ha2. conditions. cbn in *. subst u2.
      assert ((a, u) = (a2, u)) as [= <-]; [|by rewrite Hv in Hv2; injection Hv2 as <-].
      apply (unique_by_spec _ _ _ _ _ _ u Hq Hv Hv2); unfold active_of; by rewrite decide_True.
    - pose proof (find_one_None _ _ _ _ E2 Hv) as Hn. unfold active_member, of_user in Hn. cbn in Hn. by rewrite !bool_decide_true in Hn. }
  destruct (find_one _ (members b)) as [x|] eqn:E1.
  - symmetry. apply (Hone _ _ (proj1 (proj2 (proj2 (proj2 Hc')))) same_member _ E1).
  - destruct (find_one _ (members b')) as [x|] eqn:E2; [|done].
    by rewrite (Hone _ _ (proj1 (proj2 (proj2 (proj2 Hc)))) (λ a, eq_sym (same_member a)) _ E2) in E1.
Qed.
Lemma resolved_billed (c : DB) a : resolveBillingAccountId u c = Some a → billed_to a c.
Proof.
  unfold resolveBillingAccountId. destruct (find_one _ (members c)) as [[[a' u'] v]|] eqn:E.
  - intros [= <-]. apply find_one_Some in E as [Hv Ha]. unfold active_member, of_user in Ha. conditions. cbn in *. subst. right. eauto.
  - unfold account_of. destruct (find_one _ (accounts c)) as [[a' acc]|] eqn:Ea; [|done]. intros [= <-]. apply find_one_Some in Ea as [Ha Hh]. conditions. left. eauto.
Qed.
Lemma account_of_Some (c : DB) a acc : constraints c → c.(accounts) !! a = Some acc → acc.(ac_userId) = u → account_of u c = Some (a, acc).
Proof.
  intros Hcc Ha Hh. unfold account_of. destruct (find_one _ (accounts c)) as [[a2 acc2]|] eqn:E.
  - apply find_one_Some in E as [Ha2 Hh2]. conditions.
    assert (a = a2) as <-; [|congruence]. apply (unique_by_spec _ _ _ _ _ _ u (proj1 (proj2 (proj2 Hcc))) Ha Ha2); congruence.
  - apply (find_one_None _ _ _ _ E) in Ha. by rewrite bool_decide_true in Ha.
Qed.
Lemma resolved_before a : is_Some (b.(accounts) !! a) → resolveBillingAccountId u b' = Some a → resolveBillingAccountId u b = Some a.
Proof.
  intros [old Ho] Hr. pose proof (resolved_billed b' a Hr) as Hb. revert Hr. unfold resolveBillingAccountId.
  rewrite membership_same. destruct (find_one _ (members b')); [done|].
  destruct (account_of u b') as [[a' acc]|] eqn:E; [|done]. intros [= <-]. apply find_one_Some in E as [Ha Hh]. conditions.
  assert (b'.(accounts) !! a' = Some old) as Hs by (apply same_account; [done|eauto|by right; right]). assert (old = acc) as -> by congruence.
  by rewrite (account_of_Some b a' acc).
Qed.

(** What it takes to be allowed. *)
Definition entitled (c : DB) now : Prop :=
  ∃ a acc id s, resolveBillingAccountId u c = Some a ∧ c.(accounts) !! a = Some acc ∧ acc.(ac_deletedAt) = None ∧ c.(subs) !! id = Some s ∧ entitles now a s.

(** Nobody comes to be entitled unnoticed.  (Somebody may cease to be: the holder
    of an account that is deleted.) *)
Lemma entitled_before now : entitled b' now → entitled b now.
Proof.
  intros (a & acc & id & s & Hr & Ha & Hd & Hs & He). pose proof (resolved_billed b' a Hr) as Hb.
  assert (b.(subs) !! id = Some s) as Hs'. { rewrite <-Hs. apply (same_sub id s a); [apply He|eauto|auto|by right]. }
  destruct (proj1 Hf _ _ Hs') as [old Ho]. rewrite (proj1 He) in Ho.
  assert (b'.(accounts) !! a = Some old) as Hs2 by (apply same_account; eauto). assert (old = acc) as -> by congruence.
  exists a, acc, id, s. split_and!; try done. by apply resolved_before.
Qed.
End entitlement.

Lemma accountAllowed_spec (w : World) u n : accountAllowed w u n = true ↔ entitled u n.(billing) w.(w_now).
Proof.
  unfold accountAllowed, activeSubscriptionForUser, entitled. destruct (resolveBillingAccountId u (billing n)) as [a|] eqn:Er; cbn.
  - destruct (activeSubscriptionForAccount _ a (billing n)) as [[id s]|] eqn:Es.
    + apply active_for_entitles in Es. destruct (accounts (billing n) !! a) as [acc|] eqn:Ea; [rewrite bool_decide_eq_true|].
      * split; [intros Hd; exists a, acc, id, s; naive_solver|]. intros (? & ? & ? & ? & [= <-] & ? & ? & ?). congruence.
      * split; [done|]. intros (? & ? & ? & ? & [= <-] & ? & ? & ?). congruence.
    + split; [done|]. intros (? & ? & id & s & [= <-] & ? & ? & Hs & He). destruct (active_for_some _ _ _ _ _ Hs He) as [? Hx]. congruence.
  - split; [done|]. naive_solver.
Qed.

(** The earlier of two moments allows what the later does. *)
Lemma entitled_earlier u (c : DB) t1 t2 : t1 <= t2 → entitled u c t2 → entitled u c t1.
Proof.
  intros Ht (a & acc & id & s & Hr & Ha & Hd & Hs & He & Hact). exists a, acc, id, s. split_and!; try done. split; [done|]. revert Hact.
  unfold isActiveSubscription. destruct (negb _); [done|].
  assert (∀ o, passed t2 o = false → passed t1 o = false) as Hp. { intros [x|]; [|done]. cbn. rewrite !Z.leb_gt. lia. }
  destruct (passed t2 (sb_cancelledAt s)) eqn:E1; [done|]. destruct (passed t2 (sb_trialEndsAt s)) eqn:E2; [done|].
  destruct (passed t2 (sb_currentPeriodEnd s)) eqn:E3; [done|]. by rewrite !Hp.
Qed.

(** ** Every step raises, and keeps the constraints *)

Definition same_billing n n' : Prop := billing n = billing n'.
#[global] Instance same_billing_carried : Carried same_billing.
Proof.
  assert (∀ us n, billing (invalidate_all us n) = billing n) as Ha by (intros; apply invalidate_all_rest).
  assert (∀ now P n, billing (revoke_registrations now P n) = billing n) as Hr by (intros; etrans; [apply Ha|done]).
  assert (∀ now c n, billing (credential_changed now c n) = billing n) as Hk.
  { intros. unfold credential_changed. destruct (owners_of c n); [done|]. by rewrite Ha, Hr. }
  unfold same_billing. split; try done.
  - split; red; [done|]. intros. congruence.
  - intros now id new n _. unfold put_device. destruct (devices n !! id); [|done]. case_bool_decide; [done|].
    match goal with |- _ = billing (invalidate_peer_policy _ ?n1) => change (billing n = billing n1) end.
    case_bool_decide; [|match goal with |- _ = billing (invalidate_peer_policy _ ?n1) => change (billing n = billing n1) end]; destruct (same_identity _ _); by rewrite ?Hr.
  - intros now id n. unfold drop_device. destruct (devices n !! id); [|done].
    match goal with |- _ = billing (invalidate_peer_policy _ ?n1) => change (billing n = billing n1) end. by rewrite Hr.
  - intros now c v n [c0 Hc]. unfold put_credential. rewrite Hc. by rewrite Hk.
  - intros now c n. unfold drop_credential. destruct (credentials n !! c); [|done]. by rewrite Hk.
Qed.

Section steps.
Context `{PeerRuntime} (w : World).

Lemma billing_raises u b more n : sound_net n → constraints b → raises u n (change_billing b more n).
Proof.
  intros (_ & Hc & Hf) Hc'. unfold change_billing. apply raises_invalidate_all; [done|]. intros [Hu _]%not_elem_of_app.
  rewrite elem_of_remove_dups in Hu. constructor; [done..|]. intros w0. rewrite !accountAllowed_spec. by apply entitled_before.
Qed.
Lemma register_raises u i c s1 s2 n : raises u n (commits (registerEndpoint w i c s1 s2) n).2.
Proof.
  apply commits_wok; [reflexivity|]. eapply wok_mono; [apply registerEndpoint_spec|]. intros _ n' (ch & d & Hp & ->).
  etrans; [|apply insert_registration_raises].
  - etrans; [apply ca_challenges|apply ca_revoke].
  - unfold cleared. change (registrations (revoke_registrations ?now ?P ?x)) with (registrations (invalidate_all
      ((λ kr, kr.2.(rg_userId)) <$> select_rows (standing P) x.(registrations))
      (set_registrations (update_where (standing P) (λ r, r {{ rg_revokedAt := Some now }}) x.(registrations)) x))).
    rewrite (proj2 (proj2 (proj2 (invalidate_all_rest _ _)))). change (registrations (set_registrations ?m ?x)) with m.
    rewrite lookup_update_where. change (registrations (consumed _ _ _ n)) with (registrations n). by rewrite (pv_new _ _ _ _ _ _ _ _ Hp).
Qed.

Lemma step_raises u a n : sound_net n → net_lawful a n → raises u n (net_step w a n).
Proof.
  intros Hs Hl. destruct a; try (apply (step_carried w (R:=raises u)); [exact Hl|exact I]); cbn [net_step].
  - destruct Hl as [Hc _]. by apply billing_raises.
  - destruct Hl as [_ Ho]. apply commits_wok; [reflexivity|]. apply wok_writes. intros _. apply put_credential_raises. by right.
  - apply register_raises.
Qed.

Lemma net_step_sound a n : sound_net n → net_lawful a n → sound_net (net_step w a n).
Proof.
  intros (Hn & Hc & Hf) Hl. split; [by apply step_constrained|].
  assert (match a with BillingChanges b _ => billing (net_step w a n) = b | _ => same_billing n (net_step w a n) end) as Hb.
  { destruct a; try (apply (step_carried w (R:=same_billing)); [exact Hl|exact I]); cbn [net_step].
    - unfold change_billing. apply invalidate_all_rest.
    - apply commits_wok; [done|]. apply wok_writes. intros _. unfold same_billing, put_credential. destruct Hl as [-> _]. done.
    - apply commits_wok; [done|]. eapply wok_mono; [apply registerEndpoint_spec|]. intros _ n' (ch & d & Hp & ->).
      change (same_billing (consumed w challengeId ch n) (cleared w i challengeId ch n)). apply ca_revoke. }
  destruct a; try (unfold same_billing in Hb; rewrite <-Hb; done). rewrite Hb. by destruct Hl as (? & ?).
Qed.
End steps.

Lemma run_raises `{PeerRuntime} u acts n : sound_net n → lawful_run acts n → sound_net (net_run acts n) ∧ raises u n (net_run acts n).
Proof.
  revert n. induction acts as [|[w a] acts IH]; intros n Hs Hl; [by split|]. destruct Hl as [Hl1 Hl2].
  destruct (IH (net_step w a n)) as [Hs' Hr]; [by apply net_step_sound|done|]. split; [done|]. etrans; [by apply (step_raises w u a)|exact Hr].
Qed.

(** ** Snapshots *)

Section snapshots.
Context `{PeerRuntime}.

Lemma sync_policy_spec u urls n :
  work_ok (sync_policy u urls) (λ p n', billing n' = billing n ∧ devices n' = devices n ∧ credentials n' = credentials n ∧
    registrations n' = registrations n ∧ generation_of u n' = p.(po_generation)) n.
Proof.
  unfold sync_policy. do 2 work_step. apply wok_bind. eapply (wok_mono _ (λ p n', billing n' = billing n ∧ devices n' = devices n ∧
    credentials n' = credentials n ∧ registrations n' = registrations n ∧ generation_of u n' = p.(po_generation))).
  - destruct (policies n !! u) as [p|] eqn:E; work; split_and!; try done; [unfold generation_of; by rewrite E|by rewrite generation_set].
  - intros p n1 (Hb & Hd & Hc & Hr & Hg). destruct (bool_decide _); [by apply wok_ret|]. work. split_and!; try done.
    by match goal with |- _ = po_generation ?q => exact (generation_set u q n1) end.
Qed.

(** The peers a device of that kind is told of. *)
Definition peers_of u (kind : string) n : list Peer := peer_of u n <$> filter (λ d, credential_bound n d = true) (device_rows (facing u kind) 1025 n).*2.

Record taken_at (w : World) (i : Identity) (d : Device) (s : AuthorizationSnapshot) n n' : Prop := {
  ta_rest : billing n' = billing n ∧ devices n' = devices n ∧ credentials n' = credentials n ∧ registrations n' = registrations n;
  ta_stands : standing_device i n = Some d;
  ta_policy : s.(as_policyGeneration) = generation_of i.(id_userId) n';
  ta_allowed : s.(as_allowed) = accountAllowed w i.(id_userId) n';
  ta_endpoint : s.(as_endpoint) = inventory i.(id_userId) (Some i.(id_enrollmentId)) n';
  ta_registration : s.(as_registrationGeneration) = generation i.(id_enrollmentId) n';
  ta_peers : s.(as_allowed) = true → s.(as_peers) = peers_of i.(id_userId) d.(dv_kind) n' }.

Lemma snapshot_spec w i urls ins n : work_ok (authorizationSnapshot w i urls ins) (λ s n', ∃ d, taken_at w i d s n n') n.
Proof.
  unfold authorizationSnapshot, currentIdentity. do 8 work_step.
  apply wok_bind. eapply wok_mono; [apply sync_policy_spec|]. intros p n' (Hb & Hd & Hc & Hr & Hg). work.
  match goal with Hst : standing_device i n = Some ?d |- _ => exists d end. constructor; cbn; try done.
  - unfold accountAllowed, activeSubscriptionForUser. by rewrite Hb.
  - by intros ->.
Qed.

Lemma inventory_same u o n n' : net_constraints n → net_constraints n' → (∀ e, enrolled u n e = enrolled u n' e) → inventory u o n = inventory u o n'.
Proof.
  set (P := λ (_ : string) r, bool_decide (rg_userId r = u) && bool_decide (rg_revokedAt r = None) && bool_decide (Some (rg_enrollmentId r) = o)).
  assert (∀ m m', net_constraints m' → (∀ e, enrolled u m e = enrolled u m' e) → ∀ x, find_one P m.(registrations) = Some x → find_one P m'.(registrations) = Some x) as Hone.
  { intros m m' (_ & _ & _ & Hq) He [e r] [Hr HP]%find_one_Some. pose proof HP as HP'. unfold P in HP. conditions.
    assert (registrations m' !! e = Some r) as Hr'.
    { specialize (He e). unfold enrolled in He. rewrite Hr in He. cbn in He. rewrite decide_True in He by done.
      destruct (registrations m' !! e) as [r'|]; [|done]. cbn in He. by case_decide; simplify_eq. }
    destruct (find_one P (registrations m')) as [[e2 r2]|] eqn:E2; [|rewrite (find_one_None _ _ _ _ E2 Hr') in HP'; done].
    apply find_one_Some in E2 as [Hr2 HP2]. unfold P in HP2. conditions.
    assert (e = e2) as <-; [|congruence]. apply (unique_by_spec _ _ _ _ _ _ (rg_enrollmentId r) Hq Hr' Hr2); rewrite decide_True by done; congruence. }
  intros Hn Hn' He. unfold inventory. fold P. destruct (find_one P (registrations n)) as [x|] eqn:E1.
  - by rewrite (Hone n n' Hn' He x E1).
  - destruct (find_one P (registrations n')) as [x|] eqn:E2; [|done]. by rewrite (Hone n' n Hn (λ e, eq_sym (He e)) x E2) in E1.
Qed.

(** Rows of two moments that the same snapshot is drawn from. *)
Lemma owned_facing u kind n n' id d :
  (∀ v, owned u n v = owned u n' v) → n.(devices) !! id = Some d → facing u kind id d = true →
  ∃ d', n'.(devices) !! id = Some d' ∧ facing u kind id d' = true ∧ watched_columns d = watched_columns d' ∧ credential_bound n d = credential_bound n' d'.
Proof.
  intros Ho Hd Hf. assert (dv_userId d = u) as Hu by (unfold facing in Hf; by conditions).
  specialize (Ho id). unfold owned in Ho. rewrite Hd in Ho. cbn in Ho. rewrite decide_True in Ho by done.
  destruct (devices n' !! id) as [d'|]; [|done]. cbn in Ho. case_decide as Hu'; [|done]. apply (inj Some), pair_equal_spec in Ho as [Hw Hb]. exists d'. split_and!; try done.
  rewrite <-Hf. unfold facing. unfold watched_columns in Hw. injection Hw as E1 E2 E3 E4 E5 E6 E7. by rewrite E1, E5, E6, E7.
Qed.
Lemma facing_dom u kind n n' :
  (∀ v, owned u n v = owned u n' v) →
  dom (filter (λ kd : string * Device, facing u kind kd.1 kd.2 = true) n.(devices)) = dom (filter (λ kd, facing u kind kd.1 kd.2 = true) n'.(devices)).
Proof.
  intros Ho. apply set_eq. intros id. rewrite !elem_of_dom.
  split; intros [d [Hd Hf]%map_lookup_filter_Some].
  - destruct (owned_facing u kind n n' id d Ho Hd Hf) as (d' & Hd' & Hf' & _). exists d'. by apply map_lookup_filter_Some.
  - destruct (owned_facing u kind n' n id d (λ v, eq_sym (Ho v)) Hd Hf) as (d' & Hd' & Hf' & _). exists d'. by apply map_lookup_filter_Some.
Qed.
Lemma peers_same u kind n n' : net_constraints n → net_constraints n' → agree u n n' → peers_of u kind n = peers_of u kind n'.
Proof.
  intros Hn Hn' [Ho He _]. unfold peers_of, device_rows. rewrite <-(facing_dom u kind n n' Ho).
  assert (∀ o, inventory u o n = inventory u o n') as Hi by (intros; by apply inventory_same).
  set (ids := merge_sort id_order _).
  assert (∀ id, id ∈ ids → ∃ d, n.(devices) !! id = Some d ∧ facing u kind id d = true) as Hids.
  { intros id. unfold ids. rewrite merge_sort_Permutation, elem_of_elements, elem_of_dom. intros [d [Hd Hf]%map_lookup_filter_Some]. eauto. }
  generalize 1025%nat. clearbody ids. induction ids as [|id ids IH]; intros lim; [by rewrite take_nil|]. destruct lim as [|lim]; [done|]. cbn [take omap list_omap].
  destruct (Hids id ltac:(by left)) as (d & Hd & Hf). destruct (owned_facing u kind n n' id d Ho Hd Hf) as (d' & Hd' & _ & Hw & Hb).
  rewrite Hd, Hd'. cbn [mbind option_bind fmap list_fmap fst snd]. rewrite !filter_cons, Hb.
  specialize (IH ltac:(intros v Hv; apply Hids; by right) lim). case_decide; [|exact IH]. cbn. f_equal; [|exact IH].
  unfold watched_columns in Hw. injection Hw as E1 E2 E3 E4 E5 E6 E7. unfold peer_of. by rewrite E2, E3, E4, Hi.
Qed.
Lemma snapshot_step w i urls ins n s n' :
  peerAuthorizationSnapshot w i urls ins n = inr (s, n') → sound_net n →
  sound_net n' ∧ raises i.(id_userId) n n' ∧ ∃ d, taken_at w i d s n n'.
Proof.
  intros Hr Hs. pose proof (net_step_sound w (SnapshotAsked i urls ins) n Hs I) as Hs'.
  pose proof (step_raises w i.(id_userId) (SnapshotAsked i urls ins) n Hs I) as Hra. cbn [net_step] in Hs', Hra. unfold commits in Hs', Hra.
  rewrite Hr in Hs', Hra. split_and!; [exact Hs'|exact Hra|]. pose proof (wok_serializable _ _ _ (snapshot_spec w i urls ins n)) as Hok.
  unfold work_ok in Hok. change (serializable _ n) with (peerAuthorizationSnapshot w i urls ins n) in Hok. by rewrite Hr in Hok.
Qed.
Lemma stands_kind i n n' d d' : (∀ v, owned i.(id_userId) n v = owned i.(id_userId) n' v) → standing_device i n = Some d → standing_device i n' = Some d' → dv_kind d = dv_kind d'.
Proof.
  intros Ho S1 S2. specialize (Ho (id_id i)). unfold standing_device in S1, S2. unfold owned in Ho.
  destruct (devices n !! id_id i) as [e|]; [|done]. destruct (devices n' !! id_id i) as [e'|]; [|done].
  cbn in S1, S2. case_match; [|done]. case_match; [|done]. conditions. injection S1 as ->. injection S2 as ->. cbn in Ho.
  rewrite !decide_True in Ho by done. apply (inj Some), pair_equal_spec in Ho as [Ho _]. unfold watched_columns in Ho. congruence.
Qed.
Lemma stands_rest i n n' : billing n' = billing n → devices n' = devices n → credentials n' = credentials n → standing_device i n' = standing_device i n.
Proof. intros Hb Hd Hc. unfold standing_device. by rewrite Hb, Hd, Hc. Qed.
End snapshots.

(** C6: a snapshot's policy generation pins down what the snapshot says: whatever
    devices, clients, endpoints, members, holders and subscriptions do between two
    snapshots of a device, the later one has no lower generation, and if it has the
    same one then it has the same endpoint and, while it is allowed, the earlier one
    was allowed too and named exactly the same peers, keys and peer endpoints.  So
    a peer that holds the current generation holds the current peers. *)
Theorem generation_pins_peers `{PeerRuntime} (w1 w2 : World) i urls1 urls2 ins1 ins2 acts n s1 n1 s2 n2 :
  sound_net n → peerAuthorizationSnapshot w1 i urls1 ins1 n = inr (s1, n1) →
  lawful_run acts n1 → peerAuthorizationSnapshot w2 i urls2 ins2 (net_run acts n1) = inr (s2, n2) →
  w1.(w_now) <= w2.(w_now) →
  s1.(as_policyGeneration) <= s2.(as_policyGeneration) ∧
  (s1.(as_policyGeneration) = s2.(as_policyGeneration) →
    s1.(as_endpoint) = s2.(as_endpoint) ∧ (s2.(as_allowed) = true → s1.(as_allowed) = true ∧ s1.(as_peers) = s2.(as_peers))).
Proof.
  intros Hs H1 Hl H2 Ht. set (u := id_userId i).
  destruct (snapshot_step _ _ _ _ _ _ _ H1 Hs) as (Hs1 & _ & d1 & T1). destruct (run_raises u acts n1 Hs1 Hl) as [Hsr Hrr].
  destruct (snapshot_step _ _ _ _ _ _ _ H2 Hsr) as (Hs2 & Hr2 & d2 & T2). assert (raises u n1 n2) as [Hg Ha] by (etrans; [exact Hrr|exact Hr2]).
  rewrite (ta_policy _ _ _ _ _ _ T1), (ta_policy _ _ _ _ _ _ T2). fold u. split; [exact Hg|]. intros Heq. specialize (Ha Heq).
  rewrite (ta_endpoint _ _ _ _ _ _ T1), (ta_endpoint _ _ _ _ _ _ T2). fold u. split; [apply inventory_same; [apply Hs1|apply Hs2|apply Ha]|].
  intros Hal2. assert (accountAllowed w2 u n1 = true) as Hal by (apply (ag_allowed _ _ _ Ha); rewrite <-Hal2; symmetry; exact (ta_allowed _ _ _ _ _ _ T2)).
  assert (as_allowed s1 = true) as Hal1.
  { rewrite (ta_allowed _ _ _ _ _ _ T1). fold u. apply accountAllowed_spec. eapply entitled_earlier; [exact Ht|]. by apply accountAllowed_spec. }
  split; [exact Hal1|]. rewrite (ta_peers _ _ _ _ _ _ T1 Hal1), (ta_peers _ _ _ _ _ _ T2 Hal2). fold u.
  assert (dv_kind d1 = dv_kind d2) as ->; [|by apply peers_same; [apply Hs1|apply Hs2|]].
  destruct (ta_rest _ _ _ _ _ _ T1) as (B1 & D1 & C1 & _). destruct (ta_rest _ _ _ _ _ _ T2) as (B2 & D2 & C2 & _).
  apply (stands_kind i n1 n2); [apply Ha| |].
  - rewrite (stands_rest i n n1 B1 D1 C1). exact (ta_stands _ _ _ _ _ _ T1).
  - rewrite (stands_rest i _ n2 B2 D2 C2). exact (ta_stands _ _ _ _ _ _ T2).
Qed.

Definition demo_pinned (s1 s2 : AuthorizationSnapshot) : bool :=
  bool_decide (s1.(as_policyGeneration) = s2.(as_policyGeneration)) && s2.(as_allowed) && bool_decide (pr_deviceId <$> s1.(as_peers) = ["box"]).
Lemma demo_pinned_holds :
  match peerAuthorizationSnapshot (PeerDemo.at_ 50) PeerDemo.phone PeerDemo.urls false PeerDemo.visible with
  | inr (s1, n1) =>
      match peerAuthorizationSnapshot (PeerDemo.at_ 60) PeerDemo.phone PeerDemo.urls false (net_run PeerDemo.meanwhile n1) with
      | inr (s2, _) => demo_pinned s1 s2
      | inl _ => false
      end
  | inl _ => false
  end = true.
Proof. vm_compute. reflexivity. Qed.

Lemma generation_pins_peers_witness :
  ∃ s1 n1 s2 n2, peerAuthorizationSnapshot (PeerDemo.at_ 50) PeerDemo.phone PeerDemo.urls false PeerDemo.visible = inr (s1, n1) ∧
    peerAuthorizationSnapshot (PeerDemo.at_ 60) PeerDemo.phone PeerDemo.urls false (net_run PeerDemo.meanwhile n1) = inr (s2, n2) ∧
    s1.(as_policyGeneration) = s2.(as_policyGeneration) ∧ pr_deviceId <$> s1.(as_peers) = ["box"] ∧ s1.(as_peers) = s2.(as_peers).
Proof.
  pose proof demo_pinned_holds as Hd.
  destruct (peerAuthorizationSnapshot (PeerDemo.at_ 50) PeerDemo.phone PeerDemo.urls false PeerDemo.visible) as [|[s1 n1]] eqn:E1; [discriminate|].
  destruct (peerAuthorizationSnapshot (PeerDemo.at_ 60) PeerDemo.phone PeerDemo.urls false (net_run PeerDemo.meanwhile n1)) as [|[s2 n2]] eqn:E2; [discriminate|].
  apply andb_true_iff in Hd as [[Hg Ha]%andb_true_iff Hp]. apply bool_decide_eq_true in Hg. apply bool_decide_eq_true in Hp.
  exists s1, n1, s2, n2. split; [reflexivity|]. split; [exact E2|]. split; [exact Hg|]. split; [exact Hp|].
  apply (generation_pins_peers (PeerDemo.at_ 50) (PeerDemo.at_ 60) PeerDemo.phone PeerDemo.urls PeerDemo.urls false false PeerDemo.meanwhile
    PeerDemo.visible s1 n1 s2 n2 (proj1 (run_raises "ann" _ _ demo_sound demo_found)) E1 (demo_meanwhile n1) E2 ltac:(discriminate)); [exact Hg|exact Ha].
Defined.
