(* ===== verification/PeerProof.v ===== *)
(** * PeerProof: whom a relay lets in, and how many devices register

    An endpoint that is let in was proven by the device it is registered for, and
    one whose device was revoked is never let in again.  Registering a device keeps
    to the account's limits. *)

From S2P Require Import Prelude JsMap Buffers Wire BillingDb Billing Devices PeerAuthority PeerSystem PeerPolicy.
From stdpp Require Import sorting gmap.
From coqutil Require Import Datatypes.RecordSetters.
Import DoubleBraceUpdate.
#[local] Set Warnings "-notation-overridden".
Local Open Scope Z_scope.
Local Open Scope js_scope.
Implicit Types (n : Net) (u : string) (d : Device) (r : Registration) (e : string).

(** ** Rows of the triggers *)

Section rows.
Lemma revoked_rows now P n e :
  registrations (revoke_registrations now P n) !! e =
  (λ r, if standing P e r then r {{ rg_revokedAt := Some now }} else r) <$> n.(registrations) !! e.
Proof.
  unfold revoke_registrations. rewrite (proj2 (proj2 (proj2 (invalidate_all_rest _ _)))). change (registrations (set_registrations ?m n)) with m.
  apply lookup_update_where.
Qed.
Lemma revoked_devices now P n : devices (revoke_registrations now P n) = devices n.
Proof. unfold revoke_registrations. by rewrite (proj1 (proj2 (invalidate_all_rest _ _))). Qed.

(** What the triggers of a device's row, and of a client's, leave. *)
Lemma put_device_rows now id new n :
  devices (put_device now id new n) = <[id := new]> n.(devices) ∧
  ((∃ P, ∀ e, registrations (put_device now id new n) !! e = registrations (revoke_registrations now P n) !! e) ∨
   registrations (put_device now id new n) = registrations n).
Proof.
  unfold put_device. destruct (devices n !! id) as [old|]; [|by auto]. case_bool_decide; [by auto|].
  set (put := set_devices _ _). set (n1 := if same_identity old new then put else _). set (n2 := if bool_decide _ then n1 else _).
  change (devices (invalidate_peer_policy _ n2)) with (devices n2). change (registrations (invalidate_peer_policy _ n2)) with (registrations n2).
  assert (devices n2 = devices n1 ∧ registrations n2 = registrations n1) as [-> ->] by (unfold n2; by case_bool_decide).
  unfold n1. destruct (same_identity old new); [by auto|]. rewrite revoked_devices. split; [done|]. left. eexists. intros e. by rewrite !revoked_rows.
Qed.
Lemma drop_device_rows now id n :
  devices (drop_device now id n) = base.delete id n.(devices) ∧
  ((∃ P, ∀ e, registrations (drop_device now id n) !! e = registrations (revoke_registrations now P n) !! e) ∨
   registrations (drop_device now id n) = registrations n).
Proof.
  unfold drop_device. destruct (devices n !! id) as [old|] eqn:E; [|by rewrite delete_id by done; auto].
  match goal with |- context [invalidate_peer_policy _ ?x] => change (devices (invalidate_peer_policy _ x)) with (devices x); change (registrations (invalidate_peer_policy _ x)) with (registrations x) end.
  rewrite revoked_devices. split; [done|]. left. eexists. intros e. by rewrite !revoked_rows.
Qed.
Lemma changed_rows now c n :
  devices (credential_changed now c n) = devices n ∧
  ((∃ P, ∀ e, registrations (credential_changed now c n) !! e = registrations (revoke_registrations now P n) !! e) ∨
   registrations (credential_changed now c n) = registrations n).
Proof.
  unfold credential_changed. destruct (owners_of c n) as [|v vs]; [by auto|]. destruct (invalidate_all_rest (v :: vs) (revoke_registrations now (of_client (Some c)) n)) as (_ & -> & _ & ->).
  rewrite revoked_devices. eauto.
Qed.
Lemma change_billing_rows b more n : registrations (change_billing b more n) = registrations n ∧ devices (change_billing b more n) = devices n.
Proof. unfold change_billing. destruct (invalidate_all_rest (remove_dups (billing_users n.(billing) b) ++ more) (set_billing b n)) as (_ & -> & _ & ->). done. Qed.
End rows.

(** ** A registration's row is kept, and once revoked it stays so *)

Definition only_ages n n' : Prop := ∀ e r, n.(registrations) !! e = Some r →
  ∃ r', n'.(registrations) !! e = Some r' ∧ (r.(rg_revokedAt) ≠ None → r' = r).
#[global] Instance ages_preorder : PreOrder only_ages.
Proof.
  split; [intros n e r Hr; eauto|]. intros n n1 n2 H1 H2 e r Hr. destruct (H1 e r Hr) as (r1 & Hr1 & E1). destruct (H2 e r1 Hr1) as (r2 & Hr2 & E2).
  exists r2. split; [done|]. intros Hn. specialize (E1 Hn) as ->. auto.
Qed.
Lemma ages_same n n' : registrations n' = registrations n → only_ages n n'.
Proof. intros Hs e r Hr. rewrite Hs. eauto. Qed.
Lemma ages_revoke now P n : only_ages n (revoke_registrations now P n).
Proof.
  intros e r Hr. rewrite revoked_rows, Hr. eexists. split; [done|]. intros Hn. unfold standing. rewrite (bool_decide_false _ Hn), andb_false_r. done.
Qed.
Lemma ages_rows n n' :
  ((∃ now P, ∀ e, registrations n' !! e = registrations (revoke_registrations now P n) !! e) ∨ registrations n' = registrations n) → only_ages n n'.
Proof. intros [(now & P & Hs)|Hs]; [|by apply ages_same]. intros e r Hr. rewrite Hs. by apply (ages_revoke now P n e r). Qed.
#[global] Instance ages_carried : Carried only_ages.
Proof.
  split; [apply _|..].
  - intros now id new n _. apply ages_rows. destruct (put_device_rows now id new n) as [_ [[P HP]|HP]]; eauto.
  - intros now id n. apply ages_rows. destruct (drop_device_rows now id n) as [_ [[P HP]|HP]]; eauto.
  - intros now c v n [c0 Hc]. unfold put_credential. rewrite Hc. apply ages_rows.
    destruct (changed_rows now c (set_credentials (<[c:=v]> n.(credentials)) n)) as [_ [[P HP]|HP]]; [left|by right].
    exists now, P. intros e. rewrite HP. by rewrite !revoked_rows.
  - intros now c n. unfold drop_credential. destruct (credentials n !! c); [|reflexivity]. apply ages_rows.
    destruct (changed_rows now c (set_credentials (base.delete c n.(credentials)) n)) as [_ [[P HP]|HP]]; [left|by right].
    exists now, P. intros e. rewrite HP. by rewrite !revoked_rows.
  - apply ages_revoke.
  - intros. by apply ages_same.
  - intros. by apply ages_same.
Qed.

(** ** A registration and the device that proved it *)

(** [e] stands, and the device [id] holds its client with the key [k]. *)
Definition held_by n e (r : Registration) (id : string) (k : bytes) : Prop :=
  ∃ d, n.(devices) !! id = Some d ∧ d.(dv_oauthClientId) = Some r.(rg_enrollmentId) ∧ d.(dv_userId) = r.(rg_userId) ∧
       d.(dv_deviceId) = r.(rg_deviceId) ∧ d.(dv_publicKey) = k ∧ d.(dv_revokedAt) = None.
Definition stands_at n e r : Prop := n.(registrations) !! e = Some r ∧ r.(rg_revokedAt) = None.
(** A registration that stands did so before, and with the same device and key. *)
Definition binds n n' : Prop := ∀ e r, stands_at n' e r → stands_at n e r ∧ ∀ id k, held_by n e r id k → held_by n' e r id k.
#[global] Instance binds_preorder : PreOrder binds.
Proof.
  split; [by intros n e r Hs|]. intros n n1 n2 H1 H2 e r Hs. destruct (H2 e r Hs) as [Hs1 Hh1]. destruct (H1 e r Hs1) as [Hs0 Hh0]. split; auto.
Qed.
Lemma stands_at_revoked now P n e r : stands_at (revoke_registrations now P n) e r → stands_at n e r ∧ P r = false.
Proof.
  intros [Hr Hn]. rewrite revoked_rows in Hr. destruct (registrations n !! e) as [r0|] eqn:E; [|done]. cbn in Hr. injection Hr as Hr.
  unfold standing in Hr. destruct (P r0) eqn:EP; cbn in Hr; [|by subst].
  case_bool_decide; [by subst r|]. subst r0. done.
Qed.
Lemma binds_same n n' : registrations n' = registrations n → devices n' = devices n → binds n n'.
Proof. intros Hr Hd e r. unfold stands_at, held_by. by rewrite Hr, Hd. Qed.
Lemma binds_rows n n' :
  ((∃ now P, ∀ e, registrations n' !! e = registrations (revoke_registrations now P n) !! e) ∨ registrations n' = registrations n) →
  devices n' = devices n → binds n n'.
Proof.
  intros [(now & P & Hs)|Hs] Hd; [|by apply binds_same]. intros e r [Hr Hn]. rewrite Hs in Hr.
  destruct (stands_at_revoked now P n e r) as [Hs' _]; [done|]. split; [done|]. unfold held_by. by rewrite Hd.
Qed.
Lemma binds_put now id new n : binds n (put_device now id new n).
Proof.
  intros e r Hs. destruct (put_device_rows now id new n) as [Hd Hrows].
  assert (stands_at n e r) as Hs0. { destruct Hrows as [[P HP]|HP]; destruct Hs as [Hr Hn]; rewrite HP in Hr; [by eapply stands_at_revoked|done]. }
  split; [done|]. intros id' k (d & Hd' & Ho & Hu & Hi & Hk & Hn). unfold held_by. rewrite Hd.
  destruct (decide (id' = id)) as [->|Hne]; [|rewrite lookup_insert_ne by done; exists d; by split_and!].
  rewrite lookup_insert_eq. exists new. split; [done|]. unfold put_device in Hs. rewrite Hd' in Hs. case_bool_decide as Hw.
  - unfold watched_columns in Hw. injection Hw as E1 E2 E3 E4 E5 E6 E7. split_and!; congruence.
  - destruct (same_identity d new) eqn:Es; [unfold same_identity in Es; conditions; split_and!; congruence|]. exfalso.
    assert (stands_at (revoke_registrations now (of_client d.(dv_oauthClientId)) (set_devices (<[id:=new]> n.(devices)) n)) e r) as Hs'.
    { destruct Hs as [Hr Hn']. split; [|done]. case_bool_decide; exact Hr. }
    apply stands_at_revoked in Hs' as [_ Hc]. unfold of_client in Hc. by rewrite Ho, bool_decide_true in Hc.
Qed.
Lemma binds_drop now id n : binds n (drop_device now id n).
Proof.
  intros e r Hs. destruct (drop_device_rows now id n) as [Hd Hrows].
  assert (stands_at n e r) as Hs0. { destruct Hrows as [[P HP]|HP]; destruct Hs as [Hr Hn]; rewrite HP in Hr; [by eapply stands_at_revoked|done]. }
  split; [done|]. intros id' k (d & Hd' & Ho & Hrest). unfold held_by. rewrite Hd.
  destruct (decide (id' = id)) as [->|Hne]; [|rewrite lookup_delete_ne by done; exists d; by split]. exfalso.
  unfold drop_device in Hs. rewrite Hd' in Hs.
  assert (stands_at (revoke_registrations now (of_client d.(dv_oauthClientId)) (set_devices (base.delete id n.(devices)) n)) e r) as Hs' by exact Hs.
  apply stands_at_revoked in Hs' as [_ Hc]. unfold of_client in Hc. by rewrite Ho, bool_decide_true in Hc.
Qed.
#[global] Instance binds_carried : Carried binds.
Proof.
  split; [apply _|..].
  - intros. apply binds_put.
  - apply binds_drop.
  - intros now c v n [c0 Hc]. unfold put_credential. rewrite Hc.
    destruct (changed_rows now c (set_credentials (<[c:=v]> n.(credentials)) n)) as [Hd HP]. apply binds_rows; [|by rewrite Hd].
    destruct HP as [[P HP]|HP]; [left|by right]. exists now, P. intros e. rewrite HP. by rewrite !revoked_rows.
  - intros now c n. unfold drop_credential. destruct (credentials n !! c); [|reflexivity].
    destruct (changed_rows now c (set_credentials (base.delete c n.(credentials)) n)) as [Hd HP]. apply binds_rows; [|by rewrite Hd].
    destruct HP as [[P HP]|HP]; [left|by right]. exists now, P. intros e. rewrite HP. by rewrite !revoked_rows.
  - intros now P n. apply binds_rows; [by eauto|apply revoked_devices].
  - intros. by apply binds_same.
  - intros. by apply binds_same.
Qed.

(** ** Every step *)

Section steps.
Context `{PeerRuntime} (w : World).

Lemma step_ages a n : net_lawful a n → only_ages n (net_step w a n).
Proof.
  intros Hl. destruct a; try (apply (step_carried w (R:=only_ages)); [exact Hl|exact I]); cbn [net_step].
  - apply ages_same, change_billing_rows.
  - apply commits_wok; [reflexivity|]. apply wok_writes. intros _. unfold put_credential. destruct Hl as [-> _]. by apply ages_same.
  - apply commits_wok; [reflexivity|]. eapply wok_mono; [apply registerEndpoint_spec|]. intros _ n' (c & d & Hp & ->).
    trans (cleared w i challengeId c n); [trans (consumed w challengeId c n); [by apply ages_same|apply ages_revoke]|].
    intros e r Hr. change (registrations (insert_registration ?e ?r ?m)) with (<[e := r]> m.(registrations)).
    rewrite lookup_insert_ne; [by eauto|]. intros <-. unfold cleared in Hr. rewrite revoked_rows in Hr.
    change (registrations (consumed w challengeId c n)) with (registrations n) in Hr. by rewrite (pv_new _ _ _ _ _ _ _ _ Hp) in Hr.
Qed.

(** The act by which the device [id] proved that it holds [k] and [e]'s key. *)
Definition proved_by (a : NetAct) n e (id : string) (k : bytes) : Prop :=
  ∃ i challengeId s1 s2 c d, a = EndpointRegisters i challengeId s1 s2 ∧ proves w i challengeId s1 s2 c d n ∧
    c.(ch_endpointId) = e ∧ i.(id_id) = id ∧ d.(dv_publicKey) = k.

Lemma stands_device i n d :
  standing_device i n = Some d → n.(devices) !! i.(id_id) = Some d ∧ d.(dv_revokedAt) = None ∧ d.(dv_userId) = i.(id_userId) ∧
  d.(dv_deviceId) = i.(id_deviceId) ∧ d.(dv_oauthClientId) = Some i.(id_enrollmentId) ∧ d.(dv_publicKey) = i.(id_publicKey) ∧ credential_bound n d = true.
Proof.
  unfold standing_device. destruct (devices n !! id_id i) as [d'|]; [|done]. cbn. case_match; [|done]. conditions. intros [= ->]. split_and!; try done.
  unfold credential_bound. match goal with Hc : dv_oauthClientId d = Some _ |- _ => rewrite Hc end. cbn. congruence.
Qed.

(** A step binds, or it proved the endpoint. *)
Definition binds_or_proves (a : NetAct) n n' : Prop := ∀ e r, stands_at n' e r →
  (stands_at n e r ∧ ∀ id k, held_by n e r id k → held_by n' e r id k) ∨ ∃ id k, proved_by a n e id k ∧ held_by n' e r id k.
Lemma binds_weaken a n n' : binds n n' → binds_or_proves a n n'.
Proof. intros Hb e r Hs. left. by apply Hb. Qed.

Lemma step_binds a n : net_lawful a n → binds_or_proves a n (net_step w a n).
Proof.
  intros Hl. destruct a; try (apply binds_weaken, (step_carried w (R:=binds)); [exact Hl|exact I]); cbn [net_step].
  - apply binds_weaken, binds_same; apply change_billing_rows.
  - apply binds_weaken, commits_wok; [reflexivity|]. apply wok_writes. intros _. unfold put_credential. destruct Hl as [-> _]. by apply binds_same.
  - apply commits_wok; [by apply binds_weaken|]. eapply wok_mono; [apply registerEndpoint_spec|]. intros _ n' (c & d & Hp & ->) e r [Hr Hn].
    change (registrations (insert_registration ?e ?r ?m)) with (<[e := r]> m.(registrations)) in Hr.
    assert (devices (insert_registration (ch_endpointId c) (issued c) (cleared w i challengeId c n)) = devices n) as Hd by (etrans; [exact (revoked_devices _ _ _)|done]).
    destruct (stands_device _ _ _ (pv_stands _ _ _ _ _ _ _ _ Hp)) as (Hid & Hlive & Hu & Hi & Ho & Hk & _).
    destruct (decide (e = ch_endpointId c)) as [->|Hne].
    + right. rewrite lookup_insert_eq in Hr. injection Hr as <-. exists (id_id i), (dv_publicKey d). split.
      * exists i, challengeId, deviceSignature, endpointSignature, c, d. by split_and!.
      * exists d. rewrite Hd. pose proof (pv_open _ _ _ _ _ _ _ _ Hp) as Hopen. unfold open_challenge in Hopen. conditions. cbn. split_and!; congruence.
    + left. rewrite lookup_insert_ne in Hr by done. destruct (stands_at_revoked _ _ _ e r (conj Hr Hn)) as [Hs _]. split; [exact Hs|].
      unfold held_by. by rewrite Hd.
Qed.
End steps.

Lemma run_ages `{PeerRuntime} acts n : lawful_run acts n → only_ages n (net_run acts n).
Proof.
  revert n. induction acts as [|[w a] acts IH]; intros n Hl; [reflexivity|]. destruct Hl as [Hl1 Hl2].
  trans (net_step w a n); [by apply step_ages|by apply IH].
Qed.
Lemma lawful_app `{PeerRuntime} acts1 acts2 n : lawful_run (acts1 ++ acts2) n ↔ lawful_run acts1 n ∧ lawful_run acts2 (net_run acts1 n).
Proof. revert n. induction acts1 as [|[w a] acts1 IH]; intros n; cbn; [tauto|]. rewrite IH. change (net_run ((w, a) :: acts1) n) with (net_run acts1 (net_step w a n)). tauto. Qed.

(** What stands after a run that started without registrations was proven in it,
    and its device still holds the key. *)
Lemma run_proves `{PeerRuntime} acts n e r :
  (∀ e r, ¬ stands_at n e r) → lawful_run acts n → stands_at (net_run acts n) e r →
  ∃ acts1 w a acts2 id k, acts = acts1 ++ (w, a) :: acts2 ∧ proved_by w a (net_run acts1 n) e id k ∧ held_by (net_run acts n) e r id k.
Proof.
  intros Hn. induction acts as [|[w a] acts IH] using rev_ind; intros Hl Hs; [by apply Hn in Hs|].
  apply lawful_app in Hl as [Hl [Ha _]]. unfold net_run in Hs. rewrite foldl_app in Hs. cbn in Hs. fold (net_run acts n) in Hs.
  assert (net_run (acts ++ [(w, a)]) n = net_step w a (net_run acts n)) as -> by (unfold net_run; by rewrite foldl_app).
  destruct (step_binds w a _ Ha e r Hs) as [[Hs0 Hh]|(id & k & Hp & Hh)].
  - destruct (IH Hl Hs0) as (acts1 & w1 & a1 & acts2 & id & k & -> & Hp & Hk). exists acts1, w1, a1, (acts2 ++ [(w, a)]), id, k.
    split_and!; [by rewrite <-app_assoc|done|by apply Hh].
  - exists acts, w, a, [], id, k. by split_and!.
Qed.

(** ** Admission *)

Section admission.
Context `{PeerRuntime}.

Lemma admitted_spec w e url urls ins n n' :
  admitRelayEndpoint w e url urls ins n = (inr true, n') →
  url ∈ urls ∧ ∃ id d r, stands_at n e r ∧ n.(devices) !! id = Some d ∧ d.(dv_revokedAt) = None ∧ d.(dv_userId) = r.(rg_userId) ∧
    d.(dv_oauthClientId) = Some r.(rg_enrollmentId) ∧ credential_bound n d = true ∧ generation r.(rg_enrollmentId) n = r.(rg_generation) ∧
    accountAllowed w r.(rg_userId) n = true.
Proof.
  intros Ha. assert (work_ok (resolveRelayEndpointAdmission w e url urls ins) (λ s _, is_Some s → url ∈ urls ∧ ∃ id d r, stands_at n e r ∧
    n.(devices) !! id = Some d ∧ d.(dv_revokedAt) = None ∧ d.(dv_userId) = r.(rg_userId) ∧ d.(dv_oauthClientId) = Some r.(rg_enrollmentId) ∧
    credential_bound n d = true ∧ generation r.(rg_enrollmentId) n = r.(rg_generation) ∧ accountAllowed w r.(rg_userId) n = true) n) as Hok.
  { unfold resolveRelayEndpointAdmission. destruct (negb _) eqn:Eu; [by intros [? ?]|]. apply negb_false_iff, bool_decide_eq_true in Eu.
    apply wok_serializable, wok_bind, wok_reads. destruct (registrations n !! e) as [r|] eqn:Er; [cbn|by intros [? ?]].
    case_bool_decide as Hn; [|by intros [? ?]]. apply wok_bind, wok_reads. destruct (findDeviceByComposite _ _ n) as [[id d]|]; [|by intros [? ?]].
    apply wok_bind. eapply wok_mono; [apply snapshot_spec|]. intros s n1 [d' Hs]. apply wok_ret. destruct (admits e r s) eqn:Ead; [|by intros [? ?]].
    intros _. split; [done|]. destruct Hs as [(Hb & Hd & Hc & Hr) Hst Hp Hal He Hg _]. apply stands_device in Hst as (Hid & Hl & Hu & _ & Ho & _ & Hcb). cbn in *.
    unfold admits in Ead. conditions. exists id, d', r. split_and!; try done; [congruence..| |].
    - transitivity (as_registrationGeneration s); [rewrite Hg; unfold generation; by rewrite Hr|by apply Z.eqb_eq].
    - transitivity (as_allowed s); [rewrite Hal; unfold accountAllowed, activeSubscriptionForUser; by rewrite Hb|done]. }
  unfold admitRelayEndpoint, commits in Ha. unfold work_ok in Hok. destruct (resolveRelayEndpointAdmission _ _ _ _ _ n) as [[]|[s n1]]; try done.
  injection Ha as Ha _. apply bool_decide_eq_true in Ha. auto.
Qed.

Lemma revoked_not_admitted w e url urls ins n r :
  n.(registrations) !! e = Some r → r.(rg_revokedAt) ≠ None → admitRelayEndpoint w e url urls ins n = (inr false, n).
Proof.
  intros Hr Hn. unfold admitRelayEndpoint, commits, resolveRelayEndpointAdmission. destruct (negb _); [done|]. unfold serializable, mbind, work_bind, reads.
  rewrite Hr. cbn. by rewrite (bool_decide_false _ Hn).
Qed.
End admission.

(** ** Marking a row breaks no constraint *)

Section marking.
Lemma unique_by_intro {K V X} `{Countable K} (key : K → V → option X) (m : gmap K V) :
  (∀ k1 k2 v1 v2 x, m !! k1 = Some v1 → m !! k2 = Some v2 → key k1 v1 = Some x → key k2 v2 = Some x → k1 = k2) → unique_by key m.
Proof.
  intros Hk. unfold unique_by. pose proof (NoDup_map_to_list m) as Hn. assert (∀ kv, kv ∈ map_to_list m → m !! kv.1 = Some kv.2) as Hm.
  { intros [k v] Hin. by apply elem_of_map_to_list. }
  revert Hn Hm. generalize (map_to_list m). intros l. induction l as [|[k v] l IH]; intros Hn Hm; [constructor|].
  apply NoDup_cons in Hn as [Hni Hn]. specialize (IH Hn (λ kv Hin, Hm kv (list_elem_of_further _ _ _ Hin))). cbn. destruct (key k v) as [x|] eqn:Ex; [|done].
  apply NoDup_cons. split; [|done]. intros ([k2 v2] & Hin & E2)%list_elem_of_omap. cbn in E2.
  assert (m !! k = Some v) as H1 by (apply (Hm (k, v)); by left). assert (m !! k2 = Some v2) as H2 by (apply (Hm (k2, v2)); by right).
  assert (k = k2) as <- by eauto. assert (v = v2) as <- by congruence. done.
Qed.
Lemma unique_by_mono {K V X} `{Countable K} (key : K → V → option X) (m m' : gmap K V) :
  (∀ k v' x, m' !! k = Some v' → key k v' = Some x → ∃ v, m !! k = Some v ∧ key k v = Some x) → unique_by key m → unique_by key m'.
Proof.
  intros Hm Hu. apply unique_by_intro. intros k1 k2 v1 v2 x H1 H2 E1 E2. destruct (Hm _ _ _ H1 E1) as (? & ? & ?). destruct (Hm _ _ _ H2 E2) as (? & ? & ?).
  by eapply unique_by_spec.
Qed.

Lemma constraints_revoked n n' now P :
  (∀ e, registrations n' !! e = registrations (revoke_registrations now P n) !! e) →
  (∀ id d', n'.(devices) !! id = Some d' → ∃ d, n.(devices) !! id = Some d ∧ d.(dv_userId) = d'.(dv_userId) ∧ d.(dv_deviceId) = d'.(dv_deviceId) ∧
    d.(dv_oauthClientId) = d'.(dv_oauthClientId)) →
  net_constraints n → net_constraints n'.
Proof.
  intros Hr Hd (C1 & C2 & C3 & C4).
  assert (∀ e r', registrations n' !! e = Some r' → ∃ r, n.(registrations) !! e = Some r ∧ rg_enrollmentId r = rg_enrollmentId r' ∧
    rg_generation r = rg_generation r' ∧ (rg_revokedAt r' = None → rg_revokedAt r = None)) as Hrr.
  { intros e r' He. rewrite Hr, revoked_rows in He. destruct (registrations n !! e) as [r|]; [|done]. cbn in He. injection He as <-. exists r. by destruct (standing P e r). }
  split_and!; [revert C1|revert C2|revert C3|revert C4]; apply unique_by_mono; intros k v x Hk Hx.
  1,2: destruct (Hd _ _ Hk) as (d & ? & E1 & E2 & E3); exists d; split; [done|]; congruence.
  - destruct (Hrr _ _ Hk) as (r & ? & E1 & E2 & E3). exists r. split; [done|]. congruence.
  - destruct (Hrr _ _ Hk) as (r & ? & E1 & E2 & E3). exists r. split; [done|]. case_decide as Hv; [|done]. rewrite decide_True by auto. congruence.
Qed.
End marking.

(** ** Revoking a device revokes its endpoints *)

Section revoking.
Context `{PeerRuntime} (w : World) (id : string) (d : Device) (n : Net) (Hc : net_constraints n).
Context (Hd : n.(devices) !! id = Some d) (Hl : d.(dv_revokedAt) = None).

(** [e] was registered with the device's client. *)
Definition registered_by e : Prop := ∃ r, n.(registrations) !! e = Some r ∧ d.(dv_oauthClientId) = Some r.(rg_enrollmentId).
Definition shut e n' : Prop := ∃ r, n'.(registrations) !! e = Some r ∧ r.(rg_revokedAt) ≠ None.

Lemma revoke_shuts e now n0 n' :
  registered_by e → registrations n0 = registrations n →
  (∀ e, registrations n' !! e = registrations (revoke_registrations now (of_client d.(dv_oauthClientId)) n0) !! e) → shut e n'.
Proof.
  intros (r & Hr & Ho) H0 Hs. unfold shut. rewrite Hs, revoked_rows, H0, Hr. cbn. eexists. split; [done|]. unfold standing, of_client. rewrite Ho, bool_decide_true by done. cbn.
  by case_bool_decide.
Qed.

Lemma marked_shuts e : registered_by e → shut e (net_step w (DeviceMarked id) n).
Proof.
  intros He. set (new := d {{ dv_revokedAt := Some w.(w_now) }}). set (put := set_devices (<[id := new]> n.(devices)) n).
  assert (∀ v, registrations (put_device w.(w_now) id new n) !! v = registrations (revoke_registrations w.(w_now) (of_client d.(dv_oauthClientId)) put) !! v) as Hrows.
  { intros v. unfold put_device. rewrite Hd. rewrite bool_decide_false by (intros Hw; apply (f_equal (λ t, t.1.1.2)) in Hw; change (dv_revokedAt d = Some w.(w_now)) in Hw; congruence).
    assert (same_identity d new = false) as -> by (unfold same_identity; rewrite (bool_decide_false (dv_revokedAt new = None)) by done; by rewrite andb_false_r).
    by rewrite bool_decide_true. }
  assert (net_step w (DeviceMarked id) n = put_device w.(w_now) id new n) as ->; [|by eapply (revoke_shuts e _ put)].
  cbn [net_step]. unfold commits, markDeviceRevoked, update_device, mbind, work_bind, reads. rewrite Hd. cbn. unfold writes. fold new.
  rewrite decide_True; [done|]. apply (constraints_revoked n _ w.(w_now) (of_client d.(dv_oauthClientId))); [|..|done].
  - intros v. rewrite Hrows. by rewrite !revoked_rows.
  - intros v d'. change (devices (put_device w.(w_now) id new n) !! v = Some d' → ∃ d0, devices n !! v = Some d0 ∧
      d0.(dv_userId) = d'.(dv_userId) ∧ d0.(dv_deviceId) = d'.(dv_deviceId) ∧ d0.(dv_oauthClientId) = d'.(dv_oauthClientId)).
    destruct (put_device_rows w.(w_now) id new n) as [-> _]. destruct (decide (v = id)) as [->|Hv].
    + rewrite lookup_insert_eq. intros [= <-]. by exists d.
    + rewrite lookup_insert_ne by done. eauto.
Qed.

(** The service deletes the client first, which is enough. *)
Lemma deleted_shuts e c :
  registered_by e → d.(dv_oauthClientId) = Some c → c ≠ "" → is_Some (n.(credentials) !! c) → shut e (net_step w (DeviceRevoked d.(dv_userId) id) n).
Proof.
  intros He Ho Hne [cr Hcr]. set (dropped := set_credentials (base.delete c n.(credentials)) n).
  assert (drop_credential w.(w_now) c n = invalidate_all (owners_of c dropped) (revoke_registrations w.(w_now) (of_client (Some c)) dropped)) as Hdrop.
  { unfold drop_credential, credential_changed. rewrite Hcr. fold dropped. assert (dv_userId d ∈ owners_of c dropped) as Hin by (apply elem_of_owners; eauto).
    destruct (owners_of c dropped); [by apply not_elem_of_nil in Hin|done]. }
  assert (∀ v, registrations (drop_credential w.(w_now) c n) !! v = registrations (revoke_registrations w.(w_now) (of_client (Some c)) dropped) !! v) as Hrows.
  { intros v. by rewrite Hdrop, (proj2 (proj2 (proj2 (invalidate_all_rest _ _)))). }
  assert (net_step w (DeviceRevoked (dv_userId d) id) n = drop_credential w.(w_now) c n) as ->.
  { cbn [net_step]. unfold commits, revoke_client, mbind at 1, work_bind at 1, reads. rewrite Hd. cbn. rewrite !bool_decide_true by done. cbn. rewrite Ho.
    assert (given (Some c) = Some c) as -> by (by destruct c). unfold mbind, work_bind, writes. rewrite decide_True; [done|].
    apply (constraints_revoked n _ w.(w_now) (of_client (Some c))); [|..|done].
    - intros v. rewrite Hrows. by rewrite !revoked_rows.
    - intros v d'. rewrite Hdrop, (proj1 (proj2 (invalidate_all_rest _ _))), revoked_devices. eauto. }
  apply (revoke_shuts e w.(w_now) dropped); [done..|]. by rewrite Ho.
Qed.
End revoking.

(** C4: an endpoint that a relay lets in is proven.  Its registration stands and
    has the highest generation of its enrollment; the device is live and holds the
    client it was registered with, the client is live and bound to the device's key,
    and the account is entitled; and at some earlier moment the device and the
    endpoint both signed an open challenge with that very key and with the
    endpoint's own, for an endpoint that had never been registered. *)
Theorem admitted_endpoints_proven `{PeerRuntime} acts n w e url urls ins n' :
  (∀ e r, ¬ stands_at n e r) → sound_net n → lawful_run acts n →
  admitRelayEndpoint w e url urls ins (net_run acts n) = (inr true, n') →
  url ∈ urls ∧ ∃ id d r,
    stands_at (net_run acts n) e r ∧ generation r.(rg_enrollmentId) (net_run acts n) = r.(rg_generation) ∧
    (net_run acts n).(devices) !! id = Some d ∧ d.(dv_revokedAt) = None ∧ d.(dv_userId) = r.(rg_userId) ∧
    d.(dv_oauthClientId) = Some r.(rg_enrollmentId) ∧ credential_bound (net_run acts n) d = true ∧ accountAllowed w d.(dv_userId) (net_run acts n) = true ∧
    ∃ acts1 w1 a acts2, acts = acts1 ++ (w1, a) :: acts2 ∧ proved_by w1 a (net_run acts1 n) e id d.(dv_publicKey).
Proof.
  intros Hn Hs Hl (Hurl & id & d & r & Hst & Hid & Hlive & Hu & Ho & Hcb & Hg & Hal)%admitted_spec. split; [done|].
  destruct (run_proves acts n e r Hn Hl Hst) as (acts1 & w1 & a & acts2 & id' & k & -> & Hp & (d' & Hd' & Ho' & _ & _ & <- & _)).
  destruct (run_raises r.(rg_userId) _ n Hs Hl) as [((_ & Hq & _) & _) _].
  assert (id = id') as <- by (apply (unique_by_spec _ _ _ _ _ _ (rg_enrollmentId r) Hq Hid Hd'); done).
  rewrite Hid in Hd'. injection Hd' as <-. exists id, d, r. split_and!; try done; [by rewrite Hu|].
  exists acts1, w1, a, acts2. done.
Qed.

(** C5: revoking a device shuts its endpoints out for good.  Once the device's row
    is marked, or its client is deleted, which is the first thing the service does,
    no endpoint it was registered with is ever let in by a relay again, whatever is
    done afterwards: not after the device is enrolled anew, and not with a token
    from before. *)
Theorem revoked_device_shut_out `{PeerRuntime} w a id d e n acts w' url urls ins :
  net_constraints n → n.(devices) !! id = Some d → d.(dv_revokedAt) = None → registered_by d n e →
  a = DeviceMarked id ∨
  (a = DeviceRevoked d.(dv_userId) id ∧ ∃ c, d.(dv_oauthClientId) = Some c ∧ c ≠ "" ∧ is_Some (n.(credentials) !! c)) →
  lawful_run acts (net_step w a n) →
  admitRelayEndpoint w' e url urls ins (net_run acts (net_step w a n)) = (inr false, net_run acts (net_step w a n)).
Proof.
  intros Hc Hd Hl He Ha Hr. assert (shut e (net_step w a n)) as (r & Hreg & Hrev).
  { destruct Ha as [->|(-> & c & Ho & Hne & Hcr)]; [by eapply marked_shuts|by eapply deleted_shuts]. }
  destruct (run_ages acts _ Hr e r Hreg) as (r' & Hreg' & Hsame). apply (revoked_not_admitted _ _ _ _ _ _ r'); [done|]. by rewrite Hsame.
Qed.

Lemma admitted_endpoints_proven_witness :
  (admitRelayEndpoint (PeerDemo.at_ 50) (PeerDemo.endpoint 3) "https://relay/" PeerDemo.urls false PeerDemo.visible).1 = inr true ∧
  ∃ id d r, stands_at PeerDemo.visible (PeerDemo.endpoint 3) r ∧ PeerDemo.visible.(devices) !! id = Some d ∧
    ∃ acts1 w1 a acts2, PeerDemo.found = acts1 ++ (w1, a) :: acts2 ∧
      proved_by w1 a (net_run acts1 PeerDemo.start) (PeerDemo.endpoint 3) id d.(dv_publicKey).
Proof.
  assert ((admitRelayEndpoint (PeerDemo.at_ 50) (PeerDemo.endpoint 3) "https://relay/" PeerDemo.urls false PeerDemo.visible).1 = inr true) as Ha
    by (vm_compute; reflexivity).
  split; [exact Ha|]. destruct (admitRelayEndpoint _ _ _ _ _ _) as [b n'] eqn:E. cbn in Ha. subst b.
  assert (∀ e r, ¬ stands_at PeerDemo.start e r) as Hn by (intros e r [He _]; apply (lookup_empty_Some e r He)).
  destruct (admitted_endpoints_proven PeerDemo.found PeerDemo.start _ _ _ _ _ _ Hn demo_sound demo_found E) as (_ & id & d & r & Hst & _ & Hd & _ & _ & _ & _ & _ & Hp).
  exists id, d, r. split; [exact Hst|]. split; [exact Hd|exact Hp].
Defined.

(** The phone's client is deleted, and the agent goes on as before. *)
Lemma revoked_device_shut_out_witness :
  admitRelayEndpoint (PeerDemo.at_ 70) (PeerDemo.endpoint 3) "https://relay/" PeerDemo.urls false
    (net_run PeerDemo.meanwhile (net_step (PeerDemo.at_ 52) (DeviceRevoked "ann" "row-0") PeerDemo.visible)) =
  (inr false, net_run PeerDemo.meanwhile (net_step (PeerDemo.at_ 52) (DeviceRevoked "ann" "row-0") PeerDemo.visible)).
Proof.
  assert ((λ d, (d.(dv_userId), d.(dv_revokedAt), d.(dv_oauthClientId))) <$> PeerDemo.visible.(devices) !! "row-0" = Some ("ann", None, Some "c-box")) as Hrow
    by (vm_compute; reflexivity).
  destruct (PeerDemo.visible.(devices) !! "row-0") as [d|] eqn:Hd; [|discriminate]. injection Hrow as Hu Hl Ho.
  apply (revoked_device_shut_out (PeerDemo.at_ 52) _ "row-0" d); [apply (run_raises "ann" _ _ demo_sound demo_found)|exact Hd|exact Hl| | |apply demo_meanwhile].
  - assert ((λ r, r.(rg_enrollmentId)) <$> PeerDemo.visible.(registrations) !! PeerDemo.endpoint 3 = Some "c-box") as Hreg by (vm_compute; reflexivity).
    unfold registered_by. destruct (PeerDemo.visible.(registrations) !! PeerDemo.endpoint 3) as [r|]; [|discriminate]. injection Hreg as Hc.
    exists r. split; [reflexivity|]. rewrite Ho, Hc. reflexivity.
  - right. rewrite Hu. split; [reflexivity|]. exists "c-box". split; [exact Ho|]. split; [discriminate|]. apply (bool_decide_unpack _). vm_compute. exact I.
Defined.

(** * How many devices an account registers

    [checkCapAndUpsert] of [web/src/models/device.ts] against the limits of the
    account, and what the route that calls it does afterwards. *)


Section counting.
Context {K V : Type} `{Countable K}.
Implicit Types (m : gmap K V) (P : K → V → bool) (k : K) (v : V).

Lemma count_delete P m k v : m !! k = Some v → count P m = count P (base.delete k m) + (if P k v then 1 else 0).
Proof.
  intros Hk. unfold count. rewrite <-(insert_delete_id m k v Hk) at 1. destruct (P k v) eqn:EP.
  - rewrite map_filter_insert_True by done. rewrite map_size_insert_None; [lia|]. apply map_lookup_filter_None. left. apply lookup_delete_eq.
  - rewrite map_filter_insert_False by (cbn; congruence). rewrite delete_delete_eq. lia.
Qed.
Lemma count_put P m k v :
  count P (<[k := v]> m) = count P m + (if P k v then 1 else 0) - (match m !! k with Some v0 => if P k v0 then 1 else 0 | None => 0 end).
Proof.
  rewrite (count_delete P (<[k := v]> m) k v) by (by rewrite lookup_insert_eq). rewrite delete_insert_eq.
  destruct (m !! k) as [v0|] eqn:E; [rewrite (count_delete P m k v0 E); lia|]. rewrite delete_id by done. lia.
Qed.
End counting.

Lemma countActive_put now id d n u kind :
  countActive u kind (put_device now id d n) = countActive u kind n + (if live_device u kind id d then 1 else 0) -
    (match n.(devices) !! id with Some d0 => if live_device u kind id d0 then 1 else 0 | None => 0 end).
Proof. unfold countActive. rewrite (proj1 (put_device_rows now id d n)). apply count_put. Qed.

Lemma live_device_kind u kind id d : live_device u kind id d = true → d.(dv_kind) = kind.
Proof. unfold live_device. intros Hl. by conditions. Qed.

Section caps.
Context (w : World) (a : NewDevice).

(** The row that is asked for. *)
Definition as_asked (d : Device) : Prop :=
  d.(dv_userId) = a.(nd_userId) ∧ d.(dv_deviceId) = a.(nd_deviceId) ∧ d.(dv_kind) = a.(nd_kind) ∧ d.(dv_platform) = a.(nd_platform) ∧
  d.(dv_publicKey) = a.(nd_publicKey) ∧ d.(dv_revokedAt) = None.
Lemma registered_as_asked prior : (∀ d, prior = Some d → d.(dv_userId) = a.(nd_userId) ∧ d.(dv_deviceId) = a.(nd_deviceId)) → as_asked (registered a prior).
Proof. intros Hp. unfold registered. destruct prior as [d|]; [destruct (Hp d eq_refl)|done]. by destruct (isNewBusIdentity _ _). Qed.

(** It is live from now on, no other row has changed, and if it was not already
    active at its kind there was room for it. *)
Definition upserted (id : string) (d : Device) n n' : Prop :=
  as_asked d ∧ n'.(devices) = <[id := d]> n.(devices) ∧
  ∀ d0, n.(devices) !! id = Some d0 → d0.(dv_userId) = a.(nd_userId) ∧ d0.(dv_deviceId) = a.(nd_deviceId) ∧ d.(dv_oauthClientId) = d0.(dv_oauthClientId).

Lemma upsert_spec n :
  work_ok (match findDeviceByComposite a.(nd_userId) a.(nd_deviceId) n with
    | None => id ← create_device w (registered a None); mret (cap_ok id)
    | Some (id, d) => update_device w id (λ d, registered a (Some d));; mret (cap_ok id)
    end) (λ res n', ∃ id d, res = cap_ok id ∧ upserted id d n n' ∧ n' = put_device w.(w_now) id d n ∧
      (findDeviceByComposite a.(nd_userId) a.(nd_deviceId) n = None ∨ ∃ d0, findDeviceByComposite a.(nd_userId) a.(nd_deviceId) n = Some (id, d0))) n.
Proof.
  destruct (findDeviceByComposite a.(nd_userId) (nd_deviceId a) n) as [[id d0]|] eqn:E.
  - apply find_one_Some in E as [Hid Ho]. conditions. unfold update_device. work.
    match goal with Hrow : devices n !! id = Some ?x |- _ => assert (x = d0) as -> by congruence end.
    exists id, (registered a (Some d0)). split; [done|]. split; [|by eauto]. split; [by apply registered_as_asked; intros ? [= <-]|]. split; [apply put_device_rows|].
    intros d1 Hd1. assert (d1 = d0) as -> by congruence. split_and!; [done..|]. unfold registered. by destruct (isNewBusIdentity _ _).
  - unfold create_device. work. eexists _, (registered a None). split; [done|]. split; [|by auto]. split; [by apply registered_as_asked|]. split; [apply put_device_rows|]. congruence.
Qed.
End caps.

Lemma bool_1 (b : bool) : 0 <= (if b then 1 else 0) <= 1.
Proof. destruct b; lia. Qed.

(** Nobody's count but the caller's moves, and the caller's only within the limit. *)
Lemma upserted_count w a id d n kind limit :
  as_asked a d →
  (a.(nd_kind) = kind → (∃ d0, n.(devices) !! id = Some d0 ∧ live_device a.(nd_userId) kind id d0 = true) ∨ countActive a.(nd_userId) kind n < limit) →
  countActive a.(nd_userId) kind (put_device w.(w_now) id d n) <= Z.max (countActive a.(nd_userId) kind n) limit.
Proof.
  intros (Hu & _ & Hk & _ & _ & Hr) Hroom. rewrite countActive_put. pose proof (bool_1 (live_device a.(nd_userId) kind id d)) as Hb.
  assert (0 <= match n.(devices) !! id with Some d0 => if live_device a.(nd_userId) kind id d0 then 1 else 0 | None => 0 end) as H0
    by (destruct (n.(devices) !! id); [apply bool_1|done]).
  destruct (decide (a.(nd_kind) = kind)) as [Hkind|Hkind].
  - destruct (Hroom Hkind) as [(d0 & -> & ->)|Hlt]; lia.
  - assert (live_device a.(nd_userId) kind id d = false) as -> by (apply not_true_iff_false; intros Hl%live_device_kind; congruence). lia.
Qed.

(** C32: registering a device keeps both caps, each against its own kind.  A
    registration that is accepted leaves the device live, of the kind, platform and
    key that were asked for, with the row and client it had before, touches no other
    row, and leaves the account with no more live agents and no more live apps than
    it already had or its limits allow; one that is refused changes nothing, and is
    refused only at the full cap of its own kind, for a device not already active at
    that kind. *)
Theorem registration_within_caps w a appDeviceLimit workerLimit n res n' :
  checkCapAndUpsert w a appDeviceLimit workerLimit n = inr (res, n') →
  let active kind n := countActive a.(nd_userId) kind n in
  let already kind := ∃ id d, findDeviceByComposite a.(nd_userId) a.(nd_deviceId) n = Some (id, d) ∧ live_device a.(nd_userId) kind id d = true in
  match res with
  | cap_ok id =>
      (∃ d, upserted a id d n n') ∧ active "app"%string n' <= Z.max (active "app"%string n) appDeviceLimit ∧
      active "agent"%string n' <= Z.max (active "agent"%string n) workerLimit
  | app_device_cap limit => n' = n ∧ a.(nd_kind) = "app"%string ∧ limit = appDeviceLimit ∧ limit <= active "app"%string n ∧ ¬ already "app"%string
  | worker_cap limit => n' = n ∧ a.(nd_kind) = "agent"%string ∧ limit = workerLimit ∧ limit <= active "agent"%string n ∧ ¬ already "agent"%string
  end.
Proof.
  intros Hr active already. pose proof (upsert_spec w a n) as Hup. unfold checkCapAndUpsert in Hr. cbv zeta in Hr.
  unfold mbind at 1 2 3, work_bind at 1 2 3, reads in Hr.
  set (re kind := match findDeviceByComposite a.(nd_userId) a.(nd_deviceId) n with Some (id, d) => live_device a.(nd_userId) kind id d | None => false end) in Hr.
  assert (∀ kind, re kind = true ↔ already kind) as Hre.
  { intros kind. unfold re, already. destruct (findDeviceByComposite _ _ n) as [[id d]|]; naive_solver. }
  destruct (bool_decide (nd_kind a = "app"%string) && _ && _) eqn:E1.
  { injection Hr as <- <-. conditions. rewrite <-Hre. split_and!; [done..|by apply Z.leb_le|intros Ht; unfold re in Ht; cbn beta in Ht; congruence]. }
  destruct (bool_decide (nd_kind a = "agent"%string) && _ && _) eqn:E2.
  { injection Hr as <- <-. conditions. rewrite <-Hre. split_and!; [done..|by apply Z.leb_le|intros Ht; unfold re in Ht; cbn beta in Ht; congruence]. }
  unfold work_ok in Hup. rewrite Hr in Hup.
  destruct Hup as (id & d & -> & Hu & -> & Hid). split; [by exists d|].
  assert (∀ kind limit, bool_decide (nd_kind a = kind) && negb (re kind) && (limit <=? active kind n) = false →
    a.(nd_kind) = kind → (∃ d0, n.(devices) !! id = Some d0 ∧ live_device a.(nd_userId) kind id d0 = true) ∨ active kind n < limit) as Hroom.
  { intros kind limit Hf Hk. rewrite (bool_decide_true _ Hk) in Hf. cbn in Hf. apply andb_false_iff in Hf as [Hf|Hf]; [left|right; by apply Z.leb_gt].
    apply negb_false_iff, Hre in Hf as (id' & d' & Hf & Hl). destruct Hid as [Hn|[d0 Hf0]].
    - congruence.
    - rewrite Hf0 in Hf. injection Hf as <- <-. exists d0. split; [|done]. by apply find_one_Some in Hf0 as [? _]. }
  split; apply upserted_count; try done; try (by destruct Hu); by apply Hroom.
Qed.

(** A second agent, where one is allowed and one is there, and a phone. *)
Lemma registration_within_caps_witness :
  let phone := checkCapAndUpsert (PeerDemo.at_ 60) (PeerDemo.device "phone-2" "app" 7) 2 1 PeerDemo.visible in
  let second := checkCapAndUpsert (PeerDemo.at_ 60) (PeerDemo.device "box-2" "agent" 8) 2 1 PeerDemo.visible in
  (∃ id n', phone = inr (cap_ok id, n') ∧ countActive "ann" "app" n' <= 2 ∧ countActive "ann" "agent" n' <= 1) ∧
  (∃ n', second = inr (worker_cap 1, n') ∧ n' = PeerDemo.visible).
Proof.
  cbv zeta. split.
  - assert (match checkCapAndUpsert (PeerDemo.at_ 60) (PeerDemo.device "phone-2" "app" 7) 2 1 PeerDemo.visible with
            | inr (cap_ok _, n') => (countActive "ann" "app" PeerDemo.visible <=? 2) && (countActive "ann" "agent" PeerDemo.visible <=? 1) | _ => false end = true) as Hc
      by (vm_compute; reflexivity).
    destruct (checkCapAndUpsert _ _ _ _ _) as [e|[[l|l|id] n']] eqn:E; [discriminate Hc..|]. apply andb_true_iff in Hc as [H1%Z.leb_le H2%Z.leb_le].
    exists id, n'. split; [reflexivity|].
    destruct (registration_within_caps (PeerDemo.at_ 60) (PeerDemo.device "phone-2" "app" 7) 2 1 PeerDemo.visible _ n' E) as (_ & Ha & Hg).
    split; (etransitivity; [first [exact Ha|exact Hg]|]); apply Z.max_lub; first [exact H1|exact H2|reflexivity].
  - assert (match checkCapAndUpsert (PeerDemo.at_ 60) (PeerDemo.device "box-2" "agent" 8) 2 1 PeerDemo.visible with inr (worker_cap 1, _) => true | _ => false end = true) as Hc
      by (vm_compute; reflexivity).
    destruct (checkCapAndUpsert _ _ _ _ _) as [e|[[l|l|id] n']] eqn:E; [discriminate Hc|discriminate Hc| |discriminate Hc].
    destruct (registration_within_caps (PeerDemo.at_ 60) (PeerDemo.device "box-2" "agent" 8) 2 1 PeerDemo.visible _ n' E) as (Hn & _ & Hl & _).
    exists n'. split; [|exact Hn]. by subst l.
Defined.

(** *** After the transaction

    The route writes [revokedAt: null] again once the device's client is made.  A
    device that was revoked in between, and whose place another one has taken, is
    live again, past the limit. *)
Definition revived_over_limit : list (World * NetAct) :=
  [(PeerDemo.at_ 10, DeviceRegisters (PeerDemo.device "box" "agent" 1) 5 1);
   (PeerDemo.at_ 11, DeviceRevoked "ann" "row-0"); (PeerDemo.at_ 11, DeviceMarked "row-0");
   (PeerDemo.at_ 12, DeviceRegisters (PeerDemo.device "box-2" "agent" 2) 5 1);
   (PeerDemo.at_ 13, ClientMade "c-box" (PeerDemo.client "box" 1)); (PeerDemo.at_ 13, DeviceEnrolls (PeerDemo.device "box" "agent" 1) None "c-box")].
Example revived_over_limit_counts :
  countActive "ann" "agent" (net_run revived_over_limit PeerDemo.start) = 2 ∧
  standing_device (PeerDemo.identity "row-0" "box" "agent" 1) (net_run revived_over_limit PeerDemo.start) ≠ None.
Proof. split; [vm_compute; reflexivity|]. vm_compute. discriminate. Qed.
